(* ===== verification/_CoqProject ===== *)
-Q . S2P
Prelude.v
StdMap.v
Double.v
Bytes.v
Text.v
Gid.v
Wire.v
Packet.v
PeerProtocol.v
ServerProtocol.v
Link.v
KadProtocol.v
KadRouting.v
KadTraversal.v
KadSearch.v
Md4Spec.v
Hash.v
Ranges.v
SegmentPlanner.v
Parts.v
UploadQueue.v
Download.v
DownloadInvariant.v
DownloadData.v
DownloadSteps.v
DownloadRun.v
DownloadTheorems.v
DownloadExamples.v
HostPool.v
HttpState.v
HttpTask.v
HttpLogic.v
HttpExamples.v
Engine.v
EngineInvariant.v
EngineProgress.v
EngineShutdown.v
EngineTheorems.v
EngineExamples.v
