(* ===== verification/Prelude.v ===== *)
(** * A verification library for aria2-next

    aria2-next is a download manager. Its engine queues downloads and runs them
    on one event loop; each protocol (HTTP, BitTorrent, eDonkey, media streams)
    has a task class. This library models the parts of the program that decide
    something (queues, plans, shares, messages, hashes) as executable functions
    translated from the sources, and proves what those parts promise. Paths are
    those of the repository's [src/].

    ** Files

    Shared ground:
    - [Prelude]: the integer scope, tactics and generic lemmas;
    - [StdMap]: [std::map] as a sorted association list, with iterators;
    - [Double]: [double] as IEEE 754 binary64;
    - [Bytes]: [std::string] as a list of bytes, decimal and hexadecimal
      numbers, the casts to machine widths;
    - [Wire]: the reader monad of the parsers. A reader takes the payload and
      the [offset] that the C++ functions pass by reference, and gives a value
      with the new offset, a [ProtocolError], memory that the allocator
      refused, or one of two outcomes that the code must not have: a read out of
      bounds and a loop without end.

    The engine, [core/Engine.cc], [core/Task.h], [core/Gid.cc]:
    - [Engine]: the queues, the loop's posted handlers, stop callbacks and file
      moves, one function per operation; tasks live in a heap that the queues
      share by address, and the virtual methods of tasks are parameters;
    - [EngineInvariant], [EngineProgress], [EngineShutdown]: the invariant and
      the proofs that each operation keeps it, wakes the queue and lets a
      shutdown end;
    - [EngineTheorems], [EngineExamples]: the calls that may come, the theorems
      about every state they reach, and concrete runs;
    - [Gid]: the text of a GID and the lookup of a task by text.

    HTTP downloads, [http/]:
    - [Ranges]: [RangeSet], the interval set of received bytes, and the
      interface [ByteRanges] under which others use it;
    - [SegmentPlanner]: which range each connection requests, over that
      interface;
    - [HostPool]: how downloads share the connections of a server;
    - [HttpState]: the records of a download, what its handlers find outside,
      and the functions on headers ([HttpTask.h], [Worker.h], [Request.cc]);
    - [HttpTask]: the state machine of [HttpTask.cc], each handler a definition
      over the planner and the pool, with the disk thread as a queue;
    - [HttpLogic]: weakest preconditions of its operations;
    - [HttpExamples]: runs that show where it does not do what it means to.

    eDonkey, [ed2k/], and text, [base/Text.cc]:
    - [Text]: splitting, UTF-8, percent, hexadecimal and base 64 codes;
    - [Packet]: integers, packets, tags and endpoints ([Packet.cc],
      [Endpoint.cc]);
    - [PeerProtocol], [ServerProtocol], [KadProtocol]: the messages between
      peers, of servers and of the Kad network, with the state files of the
      last two and the RC4 cipher ([Cipher.cc]);
    - [Link]: [ed2k://] links, and the servers that a user names
      ([Network::addBootstrap]);
    - [Md4Spec]: MD4 as RFC 1320 describes it, the specification of [Hash];
    - [Hash]: MD4, file hashes and AICH trees;
    - [Parts]: the parts and blocks of a file and the claims of sources on them
      ([Parts.cc]);
    - [UploadQueue]: the queue of clients that wait for an upload slot, with the
      upload side of [Client.cc];
    - [Download]: the download side of [Client.cc] and [Ed2kTask.cc], with the
      jobs of the disk thread; [DownloadInvariant], [DownloadData],
      [DownloadSteps] and [DownloadRun] have its invariant and the proofs that
      the handlers keep it, [DownloadTheorems] and [DownloadExamples] what
      follows;
    - [KadRouting], [KadTraversal]: the routing table and the lookups of
      [KadRouting.cc]; [KadSearch]: the messages of searches and publishes, the
      index of sources and its handlers ([KadSearch.cc], [Kad.cc]).

    The planner runs on any implementation of [ByteRanges], whose laws the
    interval set discharges. The protocol files share the readers and writers
    of [Wire] and [Packet]; [Link] uses the server list of [ServerProtocol].

    ** What is shown

    - Engine: every call that may come on a reachable engine ends without a bad
      access and leaves each download in exactly the queue that its state
      names; a free slot is never forgotten; a shutdown completes; [fill] starts
      downloads in order and within the limit. The conditions on the calls are
      those of [EngineTheorems.call_ok]. The code does not enforce them: two
      theorems show for every reachable engine that a download gets into two
      queues without them, and runs show what else happens.
    - Ranges and planner: the interval set is a set of bytes; the planner keeps
      its invariant, hands out missing bytes while there are any and never the
      same byte to both halves of a split.
    - Host pool: cached allowances are always those computed afresh, and divide
      the limit of the server.
    - HTTP downloads: a task that has its whole file, but nothing on its way,
      never finishes, whatever comes; a run leads there. Further runs end with a
      file of two versions, a completed file in which nothing was written, a
      complete file that is not found, an adopted file that is truncated, and
      two crashes.
    - eDonkey downloads: no handler uses a file that is gone or an index outside
      a table, and the claims of [Parts] are those of the sources; writes stay in
      the file; a finished file has the hash of its link if no data comes for a
      part that is full (a run shows what happens otherwise); a stop completes,
      but for a file that could not be opened, which reports nothing ever.
    - Parts and uploads: claims are exclusive but for the endgame, and a source
      with something to offer is never left idle; the upload queue gives out no
      more slots than its limit unless that is lowered, lets none be idle while
      somebody waits, and gives a free one to the best rank. A client that loses
      its connection while it is called back uploads without a slot.
    - Kad: the buckets of the routing table stay within their bounds through any
      calls and survive a restart; lookups end, by timeouts at the latest, and
      find the closest contacts; a published source is found if the index is not
      full and the sources of the file can be sent.
    - Messages: what is written is what is read; no parser of received bytes
      reads out of bounds or loops for ever, and each returns or throws
      [ProtocolError]; the two that reserve a number before they check it
      ([parseServerMetEntries], [readKadRoutingNodes]) may also run out of
      memory. State files are loaded as they were saved.
    - Codes and hashes: decoders undo encoders; [isUtf8] is exactly UTF-8;
      [md4Digest] refines MD4 as RFC 1320 describes it; the recursion of the AICH tree ends with
      the tree over parts and blocks.

    ** Bounds and fuel

    Loops that are not structural take fuel. [Engine.fillLoop] gets the length
    of the queue, through which each round goes one further or takes one out.
    [SegmentPlanner.gap_loop] gets two more rounds than there are ranges, which
    take it to the end of the file ([gap_loop_spec]). [Wire.loop] gets one round
    more than the payload has bytes and reports running out as an error, which
    the theorems on parsers exclude. [Hash.aichRootHashForRange] takes its fuel as an argument;
    the length of the data is enough. [Parts.stretch] gets one round more than
    there are claims and [Parts.claimGaps] two more than the limit and the
    ranges, [UploadQueue.grantN] the number of those who wait and
    [UploadQueue.contents] the bytes of the packet. [HttpTask.receiveLoop] gets
    two rounds for each byte and one for each connection, as each takes a byte,
    takes over a connection or extends its range once; [HttpTask.shedLoop] gets
    one for each connection it can end. Both crash without fuel. Integers are [Z] with the casts of the
    source written out; sums of file sizes are shown to stay within [int64_t]
    where the code adds them up.

    ** Choices

    A handler reads the clock once. Random draws, the answers of other components
    that are not modelled, and errors of the system are arguments of the events;
    where [std::sort] leaves the order of equal elements open, so do the
    statements. The disk thread runs its jobs in the order they were queued, at
    any time between handlers. zlib and libcurl are parameters. The allocator is
    a parameter of the two parsers that reserve a number of 32 bits before they
    check it; memory in proportion to the data at hand is taken to be there.

    ** What is not modelled

    Sockets, timers, threads, files, processes and logging; OpenSSL, libcurl,
    libtorrent, FFmpeg, SQLite, zlib and Boost, which the sources only call
    (digests are parameters); what an object holds after an exception. The task
    classes of BitTorrent and media, the RPC server, the catalogue of options,
    the names of files, cookies, Metalink documents, keyword searches of eDonkey
    and the persistence of sessions are left out. *)

From stdpp Require Export relations sorting base numbers option strings list.

(** ** Scopes and notations

    Byte offsets, lengths and counters of the program are [int64_t], [size_t] or
    [int]; they are modelled by [Z], and [Z_scope] is the scope of the whole
    development. *)

#[global] Open Scope Z_scope.

(** ** Machine integers *)

Definition int64_min : Z := -2 ^ 63.
Definition int64_max : Z := 2 ^ 63 - 1.
Definition int64 (z : Z) : Prop := int64_min <= z <= int64_max.

#[global] Instance int64_decision z : Decision (int64 z).
Proof. unfold int64. apply _. Defined.

(** [std::clamp(v, lo, hi)]; the language leaves [hi < lo] undefined, and the
    calls that are modelled prove [lo <= hi]. *)
Definition clamp (v lo hi : Z) : Z :=
  if v <? lo then lo else if hi <? v then hi else v.

(** ** Tactics *)

(** Splits on the integer comparisons a goal (or a hypothesis) still tests. *)
Ltac zcase_step :=
  match goal with
  | |- context [?a <? ?b] => destruct (Z.ltb_spec a b)
  | |- context [?a <=? ?b] => destruct (Z.leb_spec a b)
  | |- context [?a =? ?b] => destruct (Z.eqb_spec a b)
  | H : context [?a <? ?b] |- _ => destruct (Z.ltb_spec a b)
  | H : context [?a <=? ?b] |- _ => destruct (Z.leb_spec a b)
  | H : context [?a =? ?b] |- _ => destruct (Z.eqb_spec a b)
  end.
Ltac zcase := repeat (zcase_step; simpl in *).

(** Turns boolean comparisons among the hypotheses into propositions. *)
Ltac zprop :=
  repeat match goal with
  | H : (_ <? _) = true |- _ => apply Z.ltb_lt in H
  | H : (_ <? _) = false |- _ => apply Z.ltb_ge in H
  | H : (_ <=? _) = true |- _ => apply Z.leb_le in H
  | H : (_ <=? _) = false |- _ => apply Z.leb_gt in H
  | H : (_ =? _) = true |- _ => apply Z.eqb_eq in H
  | H : (_ =? _) = false |- _ => apply Z.eqb_neq in H
  | H : (_ && _) = true |- _ => apply andb_prop in H as [? ?]
  | H : (_ || _) = false |- _ => apply orb_false_elim in H as [? ?]
  | H : negb _ = true |- _ => apply negb_true_iff in H
  | H : negb _ = false |- _ => apply negb_false_iff in H
  end.

(** ** Generic lemmas *)

Create HintDb aria2.

Section clamp.
Implicit Types v lo hi : Z.

Lemma clamp_bounds v lo hi : lo <= hi -> lo <= clamp v lo hi <= hi.
Proof. unfold clamp. intros. zcase; lia. Qed.

Lemma clamp_id v lo hi : lo <= v <= hi -> clamp v lo hi = v.
Proof. unfold clamp. intros. zcase; lia. Qed.

Lemma clamp_le v lo hi : lo <= v -> clamp v lo hi <= v.
Proof. unfold clamp. intros. zcase; lia. Qed.
End clamp.

(** The last element of a list, with the elements before it: what
    [std::prev(it)] reaches when the list holds the elements before [it]. *)
Fixpoint unsnoc {A} (l : list A) : option (list A * A) :=
  match l with
  | [] => None
  | x :: l' =>
      match unsnoc l' with
      | None => Some ([], x)
      | Some (init, y) => Some (x :: init, y)
      end
  end.

Section lists.
Context {A : Type}.
Implicit Types l : list A.


Lemma unsnoc_None l : unsnoc l = None <-> l = [].
Proof. destruct l as [|x l]; simpl; [done|]. by repeat case_match. Qed.

Lemma unsnoc_snoc l x : unsnoc (l ++ [x]) = Some (l, x).
Proof. induction l as [|y l IH]; simpl; [done|]. by rewrite IH. Qed.

Lemma unsnoc_inv l init x : unsnoc l = Some (init, x) -> l = init ++ [x].
Proof.
  destruct (decide (l = [])) as [->|Hne]; [done|].
  destruct (exists_last Hne) as (l' & y & ->).
  rewrite unsnoc_snoc. by intros [= <- <-].
Qed.
End lists.

(** Loop invariants of [for (auto x : l)], on the elements already visited. *)
Lemma foldl_inv {A B} (f : B -> A -> B) (I : list A -> B -> Prop) (l : list A) (b : B) :
  I [] b ->
  (forall done x b, x ∈ l -> I done b -> I (done ++ [x]) (f b x)) ->
  I l (foldl f b l).
Proof.
  intros Hnil Hstep. cut (forall done b, I done b -> I (done ++ l) (foldl f b l)).
  { intros Hcut. by apply (Hcut []). }
  clear Hnil b. induction l as [|x l IH]; intros done b Hb; simpl.
  - by rewrite app_nil_r.
  - rewrite cons_middle, app_assoc. apply IH.
    + intros. apply Hstep; [|done]. by right.
    + apply Hstep; [|done]. left.
Qed.

Lemma foldl_ext_elem {A B} (f g : B -> A -> B) (l : list A) (b : B) :
  (forall b x, x ∈ l -> f b x = g b x) -> foldl f b l = foldl g b l.
Proof.
  revert b. induction l as [|x l IH]; intros b Heq; simpl; [done|].
  rewrite Heq by left. apply IH. intros. apply Heq. by right.
Qed.

Lemma foldl_fmap_arg {A A' B} (f : B -> A' -> B) (g : A -> A') (l : list A) (b : B) :
  foldl f b (g <$> l) = foldl (fun b x => f b (g x)) b l.
Proof. revert b. induction l as [|x l IH]; intros b; simpl; [done|]. apply IH. Qed.

Lemma filter_ext_elem {A} (P Q : A -> Prop) `{!forall x, Decision (P x)}
    `{!forall x, Decision (Q x)} (l : list A) :
  (forall x, x ∈ l -> P x <-> Q x) -> filter P l = filter Q l.
Proof.
  induction l as [|x l IH]; intros Heq; [done|]. rewrite !filter_cons.
  rewrite IH by (intros; apply Heq; by right).
  destruct (decide (P x)) as [HP|HP]; rewrite (Heq x) in HP by left;
    destruct (decide (Q x)); done.
Qed.

Lemma filter_everything {A} (P : A -> Prop) `{forall x, Decision (P x)} (l : list A) :
  (forall x, x ∈ l -> P x) -> filter P l = l.
Proof.
  induction l as [|x l IH]; intros Hl; [done|]. rewrite filter_cons_True by (apply Hl; left).
  f_equal. apply IH. intros y Hy. apply Hl. by right.
Qed.

Lemma filter_nothing {A} (P : A -> Prop) `{!forall x, Decision (P x)} (l : list A) :
  (forall x, x ∈ l -> ~ P x) -> filter P l = [].
Proof.
  induction l as [|x l IH]; intros Hl; [done|]. rewrite filter_cons_False by (apply Hl; left).
  apply IH. intros y Hy. apply Hl. by right.
Qed.

(** Sums of integers. *)
Definition zsum (l : list Z) : Z := foldr Z.add 0 l.

Lemma zsum_cons x l : zsum (x :: l) = x + zsum l.
Proof. done. Qed.

Lemma zsum_app l k : zsum (l ++ k) = zsum l + zsum k.
Proof. unfold zsum. induction l as [|x l IH]; simpl; [done|]. rewrite IH. lia. Qed.

Lemma zsum_perm (l l' : list Z) : l ≡ₚ l' -> zsum l = zsum l'.
Proof. induction 1; rewrite ?zsum_cons; lia. Qed.

Lemma zsum_increment l i x :
  l !! i = Some x -> zsum (alter (fun g => g + 1) i l) = zsum l + 1.
Proof.
  revert i. induction l as [|y l IH]; intros [|i] Hi; simplify_eq/=; unfold zsum in *; simpl.
  - lia.
  - rewrite IH by done. lia.
Qed.

Lemma zsum_le l k : Forall2 Z.le l k -> zsum l <= zsum k.
Proof. induction 1; unfold zsum in *; simpl; lia. Qed.

Lemma StronglySorted_impl {A} (P Q : A -> A -> Prop) (l : list A) :
  (forall x y, P x y -> Q x y) -> StronglySorted P l -> StronglySorted Q l.
Proof.
  intros Himp Hs. induction Hs as [|x l _ IH Hx]; constructor; [done|].
  eapply Forall_impl; [exact Hx|]. intros y. apply Himp.
Qed.
