(* ===== verification/StdMap.v ===== *)
(** * [std::map] as a sorted association list

    The program keeps most of its tables in [std::map] and depends on the order
    of iteration: [RangeSet] walks neighbouring ranges, the planner breaks ties
    by worker id, the engine answers a GID prefix in key order. A map is
    therefore the list of its entries in key order, as an iteration visits
    them, and an iterator is a split of that list into the entries before it
    and the entries from it on. Keys are any type with a strict total order
    ([KeyOrder]); the instances are integers (ids, offsets, addresses) and
    strings (host names). *)

From Stdlib Require OrderedTypeEx.
From S2P Require Import Prelude.

Class KeyOrder (K : Type) := key_ltb : K -> K -> bool.

Class KeyOrderLaws (K : Type) `{KeyOrder K} : Prop := {
  key_ltb_irrefl k : key_ltb k k = false;
  key_ltb_trans k1 k2 k3 :
    key_ltb k1 k2 = true -> key_ltb k2 k3 = true -> key_ltb k1 k3 = true;
  key_ltb_total k1 k2 : key_ltb k1 k2 = false -> key_ltb k2 k1 = false -> k1 = k2;
}.

#[export] Instance Z_KeyOrder : KeyOrder Z := Z.ltb.
#[export] Instance Z_KeyOrderLaws : KeyOrderLaws Z.
Proof. split; unfold key_ltb, Z_KeyOrder; intros; zprop; lia. Qed.

#[export] Instance string_KeyOrder : KeyOrder string := String.ltb.

Lemma string_ltb_lt s1 s2 : String.ltb s1 s2 = true <-> OrderedTypeEx.String_as_OT.lt s1 s2.
Proof.
  unfold String.ltb. rewrite <- OrderedTypeEx.String_as_OT.cmp_lt.
  change (OrderedTypeEx.String_as_OT.cmp s1 s2) with (String.compare s1 s2).
  destruct (String.compare s1 s2); split; congruence.
Qed.

#[export] Instance string_KeyOrderLaws : KeyOrderLaws string.
Proof.
  split; unfold key_ltb, string_KeyOrder.
  - intros k. apply not_true_is_false. rewrite string_ltb_lt.
    intros Hlt. by apply OrderedTypeEx.String_as_OT.lt_not_eq in Hlt.
  - intros k1 k2 k3. rewrite !string_ltb_lt. apply OrderedTypeEx.String_as_OT.lt_trans.
  - intros k1 k2 H1 H2. destruct (OrderedTypeEx.String_as_OT.compare k1 k2) as [Hlt|Heq|Hgt].
    + apply string_ltb_lt in Hlt. congruence.
    + done.
    + apply string_ltb_lt in Hgt. congruence.
Qed.

Abbreviation stdmap K V := (list (K * V)).

Section StdMap.
Context {K V : Type} `{KeyOrder K}.
Implicit Types (k : K) (v : V) (m : stdmap K V).

(** [m.find(k)]. *)
Fixpoint find k m : option V :=
  match m with
  | [] => None
  | (k', v) :: m' =>
      if key_ltb k k' then None
      else if key_ltb k' k then find k m'
      else Some v
  end.

(** [m[k] = v] and [m.insert_or_assign(k, v)]. *)
Fixpoint put k v m : stdmap K V :=
  match m with
  | [] => [(k, v)]
  | (k', v') :: m' =>
      if key_ltb k k' then (k, v) :: m
      else if key_ltb k' k then (k', v') :: put k v m'
      else (k, v) :: m'
  end.

(** [m.emplace(k, v)]: an entry that is already there stays. *)
Definition emplace k v m : stdmap K V :=
  match find k m with Some _ => m | None => put k v m end.

(** [m.erase(k)]. *)
Fixpoint erase k m : stdmap K V :=
  match m with
  | [] => []
  | (k', v') :: m' =>
      if key_ltb k k' then m
      else if key_ltb k' k then (k', v') :: erase k m'
      else m'
  end.

(** [m.upper_bound(k)]: the entries before the iterator and those from it. *)
Fixpoint upper_bound k m : stdmap K V * stdmap K V :=
  match m with
  | [] => ([], [])
  | (k', v') :: m' =>
      if key_ltb k k' then ([], m)
      else let '(before, from) := upper_bound k m' in ((k', v') :: before, from)
  end.

Definition key_lt (a b : K * V) : Prop := key_ltb a.1 b.1 = true.
Definition sorted m : Prop := StronglySorted key_lt m.
End StdMap.

(** The loop [for (auto& [key, value] : m)] that updates each value. *)
Definition map_values {K V W} (f : K -> V -> W) (m : stdmap K V) : stdmap K W :=
  (fun kv => (kv.1, f kv.1 kv.2)) <$> m.

(** The loop that updates or erases each entry. *)
Definition omap_values {K V W} (f : K -> V -> option W) (m : stdmap K V) : stdmap K W :=
  omap (fun kv => (fun w => (kv.1, w)) <$> f kv.1 kv.2) m.

Section laws.
Context {K V : Type} `{KeyOrderLaws K}.
Implicit Types (k : K) (v : V) (m : stdmap K V).

Lemma key_ltb_antisym k1 k2 : key_ltb k1 k2 = true -> key_ltb k2 k1 = false.
Proof.
  intros H1. apply not_true_is_false. intros H2.
  pose proof (key_ltb_trans _ _ _ H1 H2) as H3. by rewrite key_ltb_irrefl in H3.
Qed.

Lemma sorted_cons_inv kv m :
  sorted (kv :: m) -> sorted m /\ Forall (key_lt kv) m.
Proof. apply StronglySorted_inv. Qed.

Lemma sorted_nil : sorted (V:=V) [].
Proof. constructor. Qed.

(** Below the first key there is nothing to find. *)
Lemma find_below k m : Forall (fun kv => key_ltb k kv.1 = true) m -> find k m = None.
Proof. destruct 1 as [|[k' v'] m' Hk _]; simpl in *; [done|]. by rewrite Hk. Qed.

Lemma find_Some_elem k v m : find k m = Some v -> (k, v) ∈ m.
Proof.
  induction m as [|[k' v'] m IH]; simpl; [done|].
  destruct (key_ltb k k') eqn:E1; [done|].
  destruct (key_ltb k' k) eqn:E2; intros Hf.
  - right. auto.
  - rewrite (key_ltb_total k k' E1 E2). simplify_eq. left.
Qed.

Lemma elem_find k v m : sorted m -> (k, v) ∈ m -> find k m = Some v.
Proof.
  induction m as [|[k' v'] m IH]; [by intros _ ?%not_elem_of_nil|].
  intros [Hs Hall]%sorted_cons_inv [?|Hin]%elem_of_cons; simplify_eq/=.
  - by rewrite key_ltb_irrefl.
  - rewrite Forall_forall in Hall. specialize (Hall _ Hin). unfold key_lt in Hall.
    simpl in Hall. rewrite (key_ltb_antisym _ _ Hall), Hall. auto.
Qed.

Lemma elem_find_iff k v m : sorted m -> (k, v) ∈ m <-> find k m = Some v.
Proof. split; [by apply elem_find|apply find_Some_elem]. Qed.

Lemma find_put k k' v m :
  sorted m ->
  find k' (put k v m) =
    if key_ltb k k' then find k' m
    else if key_ltb k' k then find k' m
    else Some v.
Proof.
  induction m as [|[k0 v0] m IH]; simpl.
  - intros _. destruct (key_ltb k k') eqn:E1.
    + by rewrite (key_ltb_antisym _ _ E1).
    + by destruct (key_ltb k' k).
  - intros [Hs Hall]%sorted_cons_inv. specialize (IH Hs).
    destruct (key_ltb k k0) eqn:E1; simpl.
    + destruct (key_ltb k' k) eqn:E2.
      * rewrite (key_ltb_antisym _ _ E2). by rewrite (key_ltb_trans _ _ _ E2 E1).
      * by destruct (key_ltb k k').
    + destruct (key_ltb k0 k) eqn:E2; simpl.
      * destruct (key_ltb k' k0) eqn:E3.
        { rewrite (key_ltb_trans _ _ _ E3 E2).
          by destruct (key_ltb k k'). }
        destruct (key_ltb k0 k') eqn:E4; [done|].
        rewrite (key_ltb_total _ _ E3 E4). by rewrite E1, E2.
      * rewrite (key_ltb_total _ _ E1 E2).
        destruct (key_ltb k' k0) eqn:E3.
        { rewrite (key_ltb_antisym _ _ E3). done. }
        by destruct (key_ltb k0 k').
Qed.

Lemma find_put_eq k v m : sorted m -> find k (put k v m) = Some v.
Proof. intros. by rewrite find_put, key_ltb_irrefl. Qed.

Lemma find_put_ne k k' v m : sorted m -> k <> k' -> find k' (put k v m) = find k' m.
Proof.
  intros Hs Hne. rewrite find_put by done.
  destruct (key_ltb k k') eqn:E1; [done|].
  destruct (key_ltb k' k) eqn:E2; [done|].
  by pose proof (key_ltb_total _ _ E1 E2).
Qed.

Lemma elem_of_put kv k v m : kv ∈ put k v m -> kv = (k, v) \/ kv ∈ m.
Proof.
  induction m as [|[k0 v0] m IH]; simpl.
  - intros ?%list_elem_of_singleton. by left.
  - repeat case_match; rewrite ?elem_of_cons; tauto.
Qed.

Lemma elem_of_erase kv k m : kv ∈ erase k m -> kv ∈ m.
Proof.
  induction m as [|[k0 v0] m IH]; simpl; [done|].
  repeat case_match; rewrite ?elem_of_cons; tauto.
Qed.

Lemma sorted_put k v m : sorted m -> sorted (put k v m).
Proof.
  induction m as [|[k0 v0] m IH]; simpl; intros Hs.
  - repeat constructor.
  - pose proof (sorted_cons_inv _ _ Hs) as [Hs' Hall].
    destruct (key_ltb k k0) eqn:E1.
    + constructor; [done|]. constructor; [done|].
      eapply Forall_impl; [exact Hall|]. intros kv Hlt.
      by apply (key_ltb_trans _ k0).
    + destruct (key_ltb k0 k) eqn:E2.
      * constructor; [by apply IH|]. rewrite Forall_forall in *.
        intros kv [->|Hin]%elem_of_put; [done|auto].
      * rewrite (key_ltb_total _ _ E1 E2). by constructor.
Qed.

Lemma sorted_emplace k v m : sorted m -> sorted (emplace k v m).
Proof. unfold emplace. case_match; auto using sorted_put. Qed.

Lemma sorted_erase k m : sorted m -> sorted (erase k m).
Proof.
  induction m as [|[k0 v0] m IH]; simpl; intros Hs; [done|].
  pose proof (sorted_cons_inv _ _ Hs) as [Hs' Hall].
  repeat case_match; [done| |done].
  constructor; [by apply IH|]. rewrite Forall_forall in *.
  intros kv ?%elem_of_erase. auto.
Qed.

Lemma find_erase_eq k m : sorted m -> find k (erase k m) = None.
Proof.
  induction m as [|[k0 v0] m IH]; simpl; [done|].
  intros [Hs Hall]%sorted_cons_inv.
  destruct (key_ltb k k0) eqn:E1; simpl; [by rewrite E1|].
  destruct (key_ltb k0 k) eqn:E2; simpl; [rewrite E1, E2; auto|].
  apply find_below. by rewrite (key_ltb_total _ _ E1 E2).
Qed.

Lemma find_erase_ne k k' m : sorted m -> k <> k' -> find k' (erase k m) = find k' m.
Proof.
  induction m as [|[k0 v0] m IH]; simpl; [done|].
  intros [Hs Hall]%sorted_cons_inv Hne.
  destruct (key_ltb k k0) eqn:E1; simpl; [done|].
  destruct (key_ltb k0 k) eqn:E2; simpl; [by rewrite IH|].
  rewrite <- (key_ltb_total _ _ E1 E2) in *.
  destruct (key_ltb k' k) eqn:E3.
  - apply find_below. eapply Forall_impl; [exact Hall|].
    intros kv Hlt. by apply (key_ltb_trans _ k).
  - destruct (key_ltb k k') eqn:E4; [done|].
    by rewrite (key_ltb_total _ _ E3 E4) in Hne.
Qed.

Lemma elem_of_put_iff k' v' k v m :
  sorted m ->
  (k', v') ∈ put k v m <-> (k' = k /\ v' = v) \/ (k' <> k /\ (k', v') ∈ m).
Proof.
  intros Hs. rewrite elem_find_iff by auto using sorted_put.
  destruct (key_ltb k k') eqn:E1, (key_ltb k' k) eqn:E2;
    rewrite find_put, ?E1, ?E2 by done; rewrite <- ?elem_find_iff by done.
  1-3: assert (k' <> k) by (intros ->; rewrite key_ltb_irrefl in *; done); tauto.
  rewrite (key_ltb_total _ _ E1 E2). split; [intros [= ->]; tauto|].
  intros [[_ ->]|[? _]]; done.
Qed.

Lemma elem_of_erase_iff k' v' k m :
  sorted m -> (k', v') ∈ erase k m <-> k' <> k /\ (k', v') ∈ m.
Proof.
  intros Hs. rewrite elem_find_iff by auto using sorted_erase.
  destruct (key_ltb k k') eqn:E1.
  2: destruct (key_ltb k' k) eqn:E2.
  1-2: assert (k' <> k) by (intros ->; rewrite key_ltb_irrefl in *; done);
       rewrite find_erase_ne, <- elem_find_iff by auto; tauto.
  rewrite (key_ltb_total _ _ E1 E2), find_erase_eq by done.
  split; [done|tauto].
Qed.

Lemma find_put_inv k' v' k v m :
  sorted m -> find k' (put k v m) = Some v' ->
  (k' = k /\ v' = v) \/ (k' <> k /\ find k' m = Some v').
Proof. intros Hs. rewrite <- !elem_find_iff by auto using sorted_put. by apply elem_of_put_iff. Qed.

Lemma find_erase_inv k' v' k m :
  sorted m -> find k' (erase k m) = Some v' -> k' <> k /\ find k' m = Some v'.
Proof.
  intros Hs. rewrite <- !elem_find_iff by auto using sorted_erase. by apply elem_of_erase_iff.
Qed.

Lemma put_fresh_perm k v m : find k m = None -> sorted m -> put k v m ≡ₚ (k, v) :: m.
Proof.
  induction m as [|[k0 v0] m IH]; simpl; [done|].
  intros Hf [Hs Hall]%sorted_cons_inv.
  destruct (key_ltb k k0) eqn:E1; [done|]. destruct (key_ltb k0 k) eqn:E2; [|done].
  rewrite IH by done. apply Permutation_swap.
Qed.

Lemma erase_absent k m : find k m = None -> erase k m = m.
Proof.
  induction m as [|[k' v'] m IH]; simpl; [done|].
  destruct (key_ltb k k'); [done|]. destruct (key_ltb k' k); intros Hf; [by rewrite IH|done].
Qed.

Lemma erase_perm k v m : find k m = Some v -> sorted m -> m ≡ₚ (k, v) :: erase k m.
Proof.
  induction m as [|[k' v'] m IH]; simpl; [done|].
  destruct (key_ltb k k') eqn:E1; [done|]. destruct (key_ltb k' k) eqn:E2; intros Hf Hs.
  - rewrite (IH Hf) at 1 by apply (sorted_cons_inv _ _ Hs). apply Permutation_swap.
  - rewrite (key_ltb_total _ _ E1 E2). by simplify_eq.
Qed.

Lemma put_perm k v m : sorted m -> put k v m ≡ₚ (k, v) :: erase k m.
Proof.
  induction m as [|[k' v'] m IH]; simpl; [done|]. intros Hs.
  destruct (key_ltb k k') eqn:E1; [done|]. destruct (key_ltb k' k) eqn:E2; [|done].
  rewrite IH by apply (sorted_cons_inv _ _ Hs). apply Permutation_swap.
Qed.

Lemma put_erase k v m : sorted m -> put k v (erase k m) = put k v m.
Proof.
  induction m as [|[k' v'] m IH]; simpl; [done|]. intros [Hs Hall]%sorted_cons_inv.
  destruct (key_ltb k k') eqn:E1; simpl; [by rewrite E1|].
  destruct (key_ltb k' k) eqn:E2; simpl; [by rewrite E1, E2, IH|].
  rewrite (key_ltb_total _ _ E1 E2). destruct Hall as [|[k2 v2] m2 Hlt]; [done|].
  unfold key_lt in Hlt. simpl in *. by rewrite Hlt.
Qed.

(** An assignment that a projection of the entries does not see. *)
Lemma fmap_put_same {A} (f : K * V -> A) k v v' m :
  find k m = Some v -> f (k, v') = f (k, v) -> f <$> put k v' m = f <$> m.
Proof.
  intros Hf Heq. induction m as [|[k' w] m IH]; simpl in *; [done|].
  destruct (key_ltb k k') eqn:E1; [done|]. destruct (key_ltb k' k) eqn:E2; simpl.
  - f_equal. by apply IH.
  - simplify_eq. by rewrite Heq, (key_ltb_total _ _ E1 E2).
Qed.

Lemma sorted_NoDup_keys m : sorted m -> NoDup m.*1.
Proof.
  induction m as [|[k v] m IH]; simpl; [constructor|].
  intros [Hs Hall]%sorted_cons_inv. constructor; [|auto].
  rewrite list_elem_of_fmap. intros ([k' v'] & ? & Hin). simplify_eq/=.
  rewrite Forall_forall in Hall. specialize (Hall _ Hin).
  unfold key_lt in Hall. simpl in Hall. by rewrite key_ltb_irrefl in Hall.
Qed.

(** An entry emplaced between smaller and larger keys lands there. *)
Lemma put_middle k v m1 m2 :
  Forall (fun kv => key_ltb kv.1 k = true) m1 ->
  Forall (fun kv => key_ltb k kv.1 = true) m2 ->
  put k v (m1 ++ m2) = m1 ++ (k, v) :: m2.
Proof.
  intros H1 H2. induction H1 as [|[k0 v0] m1 Hk _ IH]; simpl in *.
  - destruct H2 as [|[k0 v0] m2 Hk _]; simpl in *; [done|]. by rewrite Hk.
  - by rewrite (key_ltb_antisym _ _ Hk), Hk, IH.
Qed.

Lemma find_middle k m1 m2 :
  Forall (fun kv => key_ltb kv.1 k = true) m1 ->
  Forall (fun kv => key_ltb k kv.1 = true) m2 ->
  find k (m1 ++ m2) = None.
Proof.
  intros H1 H2. induction H1 as [|[k0 v0] m1 Hk _ IH]; simpl in *.
  - by apply find_below.
  - by rewrite (key_ltb_antisym _ _ Hk), Hk, IH.
Qed.

Lemma emplace_middle k v m1 m2 :
  Forall (fun kv => key_ltb kv.1 k = true) m1 ->
  Forall (fun kv => key_ltb k kv.1 = true) m2 ->
  emplace k v (m1 ++ m2) = m1 ++ (k, v) :: m2.
Proof.
  intros. unfold emplace. rewrite find_middle, put_middle by done. done.
Qed.

Lemma upper_bound_app k m :
  (upper_bound k m).1 ++ (upper_bound k m).2 = m.
Proof.
  induction m as [|[k0 v0] m IH]; simpl; [done|].
  case_match; [done|]. destruct (upper_bound k m). simpl in *. by rewrite IH.
Qed.

Lemma upper_bound_before k m :
  Forall (fun kv => key_ltb k kv.1 = false) (upper_bound k m).1.
Proof.
  induction m as [|[k0 v0] m IH]; simpl; [done|].
  case_match; [done|]. destruct (upper_bound k m). by constructor.
Qed.

Lemma upper_bound_from k m :
  sorted m -> Forall (fun kv => key_ltb k kv.1 = true) (upper_bound k m).2.
Proof.
  induction m as [|[k0 v0] m IH]; simpl; [done|].
  intros [Hs Hall]%sorted_cons_inv. case_match.
  - constructor; [done|]. eapply Forall_impl; [exact Hall|].
    intros kv Hlt. by apply (key_ltb_trans _ k0).
  - destruct (upper_bound k m). simpl in *. auto.
Qed.
End laws.

Section map_values.
Context {K V W : Type} `{KeyOrder K} (f : K -> V -> W).
Implicit Types (k : K) (m : stdmap K V).

Lemma elem_of_map_values k w m :
  (k, w) ∈ map_values f m <-> exists v, (k, v) ∈ m /\ w = f k v.
Proof.
  unfold map_values. rewrite list_elem_of_fmap. split.
  - intros ([k' v] & ? & Hin). simplify_eq/=. eauto.
  - intros (v & Hin & ->). by exists (k, v).
Qed.

Lemma keys_map_values m : (map_values f m).*1 = m.*1.
Proof. unfold map_values. rewrite <- list_fmap_compose. done. Qed.

Lemma sorted_map_values m : sorted m -> sorted (map_values f m).
Proof.
  induction 1 as [|kv m Hs IH Hall]; simpl; constructor; [done|].
  unfold map_values. rewrite Forall_fmap. exact Hall.
Qed.
End map_values.

Section omap_values.
Context {K V W : Type} `{KeyOrderLaws K} (f : K -> V -> option W).
Implicit Types (k : K) (m : stdmap K V).

Lemma elem_of_omap_values k w m :
  (k, w) ∈ omap_values f m <-> exists v, (k, v) ∈ m /\ f k v = Some w.
Proof.
  unfold omap_values. rewrite list_elem_of_omap. split.
  - intros ([k' v] & Hin & (w' & Hf & ?)%fmap_Some). simplify_eq/=. eauto.
  - intros (v & Hin & Hf). exists (k, v). simpl. by rewrite Hf.
Qed.

Lemma sorted_omap_values m : sorted m -> sorted (omap_values f m).
Proof.
  induction 1 as [|[k v] m Hs IH Hall]; [constructor|]. unfold omap_values. simpl.
  destruct (f k v) as [w|]; simpl; [|done]. constructor; [done|].
  apply Forall_forall. intros [k' w'] (v' & Hin & _)%elem_of_omap_values.
  by apply (proj1 (Forall_forall _ _) Hall (k', v')).
Qed.

Lemma find_omap_values k m : sorted m -> find k (omap_values f m) = find k m ≫= f k.
Proof.
  intros Hs. apply option_eq. intros w.
  rewrite <- elem_find_iff, elem_of_omap_values, bind_Some by by apply sorted_omap_values.
  by setoid_rewrite elem_find_iff.
Qed.
End omap_values.

(** [auto with aria2] knows that maps stay sorted. *)
#[export] Hint Extern 1 (sorted []) => apply sorted_nil : aria2.
#[export] Hint Extern 1 (sorted (put _ _ _)) => apply sorted_put : aria2.
#[export] Hint Extern 1 (sorted (emplace _ _ _)) => apply sorted_emplace : aria2.
#[export] Hint Extern 1 (sorted (erase _ _)) => apply sorted_erase : aria2.
#[export] Hint Extern 1 (sorted (map_values _ _)) => apply sorted_map_values : aria2.
#[export] Hint Extern 1 (sorted (omap_values _ _)) => apply sorted_omap_values : aria2.
