(* ===== verification/Double.v ===== *)
(** * [double]: IEEE 754 binary64

    Speeds, times and quotients of the program are [double]s. They are modelled
    by the Standard Library's specification of IEEE arithmetic ([SpecFloat]) at
    53 bits of precision and exponents up to 1024, which computes and needs no
    axiom: every operation below rounds to nearest even, as the C++ operators
    do. Only the order of values is reasoned about; the theorems hold whatever
    the rounding does. *)

From Stdlib Require Import SpecFloat.
From S2P Require Import Prelude.

Definition double : Type := spec_float.

Declare Scope double_scope.
Delimit Scope double_scope with double.
Bind Scope double_scope with double.

Definition prec : Z := 53.
Definition emax : Z := 1024.

(** [static_cast<double>(z)]. *)
Definition of_int (z : Z) : double := binary_normalize prec emax z 0 false.
Definition dadd (x y : double) : double := SFadd prec emax x y.
Definition dsub (x y : double) : double := SFsub prec emax x y.
Definition dmul (x y : double) : double := SFmul prec emax x y.
Definition ddiv (x y : double) : double := SFdiv prec emax x y.
Definition dsqrt (x : double) : double := SFsqrt prec emax x.
(** The decimal literal [p / q] (of exact [p] and [q]), correctly rounded. *)
Definition literal (p q : Z) : double := ddiv (of_int p) (of_int q).

(** [x < y], [x <= y]; both are false when an operand is not a number. *)
Definition dltb (x y : double) : bool := SFltb x y.
Definition dleb (x y : double) : bool := SFleb x y.

Notation "x + y" := (dadd x y) : double_scope.
Notation "x - y" := (dsub x y) : double_scope.
Notation "x * y" := (dmul x y) : double_scope.
Notation "x / y" := (ddiv x y) : double_scope.
Notation "x <? y" := (dltb x y) : double_scope.
Notation "x <=? y" := (dleb x y) : double_scope.

Definition dzero : double := S754_zero false.

(** [std::max], [std::min] and [std::clamp] on doubles, by [operator<]. *)
Definition dmax (x y : double) : double := if (x <? y)%double then y else x.
Definition dmin (x y : double) : double := if (y <? x)%double then y else x.
Definition dclamp (v lo hi : double) : double :=
  if (v <? lo)%double then lo else if (hi <? v)%double then hi else v.

(** The value rounded towards zero, when there is one. *)
Definition truncate (x : double) : option Z :=
  match x with
  | S754_zero _ => Some 0
  | S754_finite s m e =>
      let magnitude := if 0 <=? e then Z.pos m * 2 ^ e else Z.pos m / 2 ^ (- e) in
      Some (if s then - magnitude else magnitude)
  | S754_infinity _ | S754_nan => None
  end.

(** [static_cast<int64_t>(x)]. The language leaves the cast of a value outside
    [int64_t] undefined; [undefined] stands for what the machine then yields,
    and the theorems hold for every such function. *)
Definition to_int64 (undefined : double -> Z) (x : double) : Z :=
  match truncate x with
  | Some z => if decide (int64 z) then z else undefined x
  | None => undefined x
  end.

(** ** The order of doubles *)

Lemma compare_cont_Eq (m n : positive) : Pos.compare_cont Eq m n = Pos.compare m n.
Proof. reflexivity. Qed.

(** A key that orders numbers as [SFcompare] does: the sign and class, then
    the exponent, then the mantissa. *)
Definition order_key (x : double) : option (Z * Z * Z) :=
  match x with
  | S754_nan => None
  | S754_infinity true => Some (-2, 0, 0)
  | S754_finite true m e => Some (-1, - e, - Z.pos m)
  | S754_zero _ => Some (0, 0, 0)
  | S754_finite false m e => Some (1, e, Z.pos m)
  | S754_infinity false => Some (2, 0, 0)
  end.

Definition key_lt3 (k l : Z * Z * Z) : Prop :=
  let '(a, b, c) := k in
  let '(a', b', c') := l in
  a < a' \/ (a = a' /\ (b < b' \/ (b = b' /\ c < c'))).

Lemma dltb_key x y :
  dltb x y = true <->
  exists k l, order_key x = Some k /\ order_key y = Some l /\ key_lt3 k l.
Proof.
  unfold dltb, SFltb, SFcompare.
  destruct x as [sx|sx| |sx mx ex], y as [sy|sy| |sy my ey];
    try destruct sx; try destruct sy; simpl; rewrite ?compare_cont_Eq;
    try (split; [discriminate|intros (? & ? & ? & ? & ?); simplify_eq/=; lia]);
    try (split; [intros _; eexists _, _; split_and!; [done..|]; simpl; lia|done]).
  - destruct (Z.compare_spec ex ey); simpl.
    + destruct (Pos.compare_spec mx my); simpl; split; try discriminate;
        try (intros (? & ? & ? & ? & ?); simplify_eq/=; lia);
        intros _; eexists _, _; split_and!; [done..|]; simpl; lia.
    + split; [discriminate|intros (? & ? & ? & ? & ?); simplify_eq/=; lia].
    + split; [intros _; eexists _, _; split_and!; [done..|]; simpl; lia|done].
  - destruct (Z.compare_spec ex ey); simpl.
    + destruct (Pos.compare_spec mx my); simpl; split; try discriminate;
        try (intros (? & ? & ? & ? & ?); simplify_eq/=; lia);
        intros _; eexists _, _; split_and!; [done..|]; simpl; lia.
    + split; [intros _; eexists _, _; split_and!; [done..|]; simpl; lia|done].
    + split; [discriminate|intros (? & ? & ? & ? & ?); simplify_eq/=; lia].
Qed.

Lemma dltb_trans x y z : dltb x y = true -> dltb y z = true -> dltb x z = true.
Proof.
  rewrite !dltb_key. intros (k & l & Hk & Hl & Hkl) (l' & m & Hl' & Hm & Hlm).
  rewrite Hl in Hl'. injection Hl' as <-. exists k, m. split_and!; [done..|].
  destruct k as [[? ?] ?], l as [[? ?] ?], m as [[? ?] ?]. simpl in *. lia.
Qed.

Lemma dltb_irrefl x : dltb x x = false.
Proof.
  apply not_true_is_false. rewrite dltb_key. intros (k & l & Hk & Hl & Hkl).
  rewrite Hk in Hl. injection Hl as <-. destruct k as [[? ?] ?]. simpl in *. lia.
Qed.

Lemma dltb_asym x y : dltb x y = true -> dltb y x = false.
Proof.
  intros Hxy. apply not_true_is_false. intros Hyx.
  pose proof (dltb_trans _ _ _ Hxy Hyx) as Hxx. by rewrite dltb_irrefl in Hxx.
Qed.
