(* ===== verification/Bytes.v ===== *)
(** * Byte strings

    [std::string] and [std::string_view] as lists of bytes, the parts of the
    standard library the sources use on them, and decimal and hexadecimal
    numbers as [fmt::format], [std::to_string] and [std::from_chars] treat
    them. *)

From Stdlib Require Import Ascii String.
From S2P Require Import Prelude.

Module Bytes.

Abbreviation bytes := (list Z).

Definition byte_ok (b : Z) : Prop := 0 <= b < 256.
Definition bytes_ok (l : bytes) : Prop := Forall byte_ok l.

Definition len {A} (l : list A) : Z := Z.of_nat (length l).

(** The bytes of a literal. *)
Fixpoint str (s : string) : bytes :=
  match s with
  | EmptyString => []
  | String c s' => Z.of_N (N_of_ascii c) :: str s'
  end.

(** [static_cast<unsigned char>], [uint16_t], [uint32_t], [uint64_t] and
    [int64_t]. *)
Definition u8 (v : Z) : Z := v mod 2 ^ 8.
Definition u16 (v : Z) : Z := v mod 2 ^ 16.
Definition u32 (v : Z) : Z := v mod 2 ^ 32.
Definition u64 (v : Z) : Z := v mod 2 ^ 64.
Definition i64 (v : Z) : Z := (v + 2 ^ 63) mod 2 ^ 64 - 2 ^ 63.

(** [s.starts_with(p)]. *)
Fixpoint starts_with (p s : bytes) : bool :=
  match p, s with
  | [], _ => true
  | x :: p', y :: s' => (x =? y) && starts_with p' s'
  | _ :: _, [] => false
  end.

(** The parts of [s] between the separators, as the loops over
    [find(separator, begin)] cut them. *)
Fixpoint parts (sep : Z) (s : bytes) : list bytes :=
  match s with
  | [] => [[]]
  | x :: s' =>
      if x =? sep then [] :: parts sep s'
      else match parts sep s' with
           | [] => [[x]]
           | p :: ps => (x :: p) :: ps
           end
  end.

(** ** Numbers *)

(** Digits of [n], most significant first; [n < base ^ fuel]. *)
Fixpoint digits (fuel : nat) (base n : Z) : list Z :=
  match fuel with
  | O => []
  | S fuel' => digits fuel' base (n / base) ++ [n mod base]
  end.

Definition digitChar (d : Z) : Z := if d <? 10 then 48 + d else 87 + d.

(** [std::to_string] and [{}] of a natural number. *)
Fixpoint dec_go (fuel : nat) (n : Z) : bytes :=
  match fuel with
  | O => []
  | S fuel' => if n <? 10 then [48 + n] else dec_go fuel' (n / 10) ++ [48 + n mod 10]
  end.
Definition dec (n : Z) : bytes :=
  if n <? 0 then 45 :: dec_go 20 (- n) else dec_go 20 n.

(** The digits [std::from_chars] takes, and what is left. *)
Definition digitValue (base c : Z) : option Z :=
  let v :=
    if (48 <=? c) && (c <=? 57) then c - 48
    else if (97 <=? c) && (c <=? 122) then c - 87
    else if (65 <=? c) && (c <=? 90) then c - 55
    else base in
  if v <? base then Some v else None.

Fixpoint takeDigits (base acc : Z) (s : bytes) : Z * bytes :=
  match s with
  | [] => (acc, [])
  | c :: s' =>
      match digitValue base c with
      | Some v => takeDigits base (acc * base + v) s'
      | None => (acc, s)
      end
  end.

(** Whether the pattern is matched: a digit comes first. *)
Definition digitFirst (base : Z) (s : bytes) : bool :=
  match s with c :: _ => bool_decide (is_Some (digitValue base c)) | [] => false end.

(** [std::from_chars] into [uint64_t]: the value and what is left. *)
Definition fromCharsU64 (base : Z) (s : bytes) : option (Z * bytes) :=
  if digitFirst base s then
    let '(v, rest) := takeDigits base 0 s in
    if v <? 2 ^ 64 then Some (v, rest) else None
  else None.

(** [std::from_chars] into [int64_t], base 10. *)
Definition fromCharsI64 (s : bytes) : option (Z * bytes) :=
  let negative := match s with c :: _ => c =? 45 | [] => false end in
  let s' := if negative then drop 1 s else s in
  if digitFirst 10 s' then
    let '(v, rest) := takeDigits 10 0 s' in
    let v := if negative then - v else v in
    if (- 2 ^ 63 <=? v) && (v <? 2 ^ 63) then Some (v, rest) else None
  else None.

(** ** Lemmas *)

(** [lia] with division by constants. *)
Ltac dlia := Z.to_euclidean_division_equations; lia.

Lemma len_app {A} (l k : list A) : len (l ++ k) = len l + len k.
Proof. unfold len. rewrite length_app. lia. Qed.
Lemma len_nil {A} : len (@nil A) = 0.
Proof. done. Qed.
Lemma len_cons {A} (x : A) l : len (x :: l) = 1 + len l.
Proof. unfold len. simpl. lia. Qed.
Lemma len_nonneg {A} (l : list A) : 0 <= len l.
Proof. unfold len. lia. Qed.

Lemma str_ok s : bytes_ok (str s).
Proof.
  induction s as [|c s IH]; simpl; constructor; [|done].
  split; [lia|]. pose proof (N_ascii_bounded c). lia.
Qed.

(** *** Bits *)

Lemma shiftl_lor h l n : 0 <= n -> 0 <= l < 2 ^ n -> Z.lor (Z.shiftl h n) l = h * 2 ^ n + l.
Proof.
  intros Hn Hl. rewrite <- (Z.shiftl_mul_pow2 h n Hn), <- Z.add_lor_land.
  enough (Z.land (Z.shiftl h n) l = 0) as -> by lia.
  destruct (Z.eq_dec l 0) as [->|Hl0]; [apply Z.land_0_r|].
  apply Z.bits_inj'. intros i Hi. rewrite Z.land_spec, Z.bits_0.
  destruct (Z.lt_ge_cases i n) as [Hlt|Hge].
  - by rewrite Z.shiftl_spec_low.
  - rewrite (Z.bits_above_log2 l i), andb_false_r; [done|lia|].
    apply Z.log2_lt_pow2; [lia|].
    eapply Z.lt_le_trans; [apply Hl|]. by apply Z.pow_le_mono_r.
Qed.

Lemma land_low v n : 0 <= n -> Z.land v (2 ^ n - 1) = v mod 2 ^ n.
Proof. intros Hn. rewrite <- Z.land_ones by done. f_equal. rewrite Z.ones_equiv. lia. Qed.

Lemma shiftr_div v n : 0 <= n -> Z.shiftr v n = v / 2 ^ n.
Proof. apply Z.shiftr_div_pow2. Qed.

Lemma u8_small v : 0 <= v < 256 -> u8 v = v.
Proof. apply Z.mod_small. Qed.
Lemma u16_small v : 0 <= v < 2 ^ 16 -> u16 v = v.
Proof. apply Z.mod_small. Qed.
Lemma u32_small v : 0 <= v < 2 ^ 32 -> u32 v = v.
Proof. apply Z.mod_small. Qed.
Lemma u64_small v : 0 <= v < 2 ^ 64 -> u64 v = v.
Proof. apply Z.mod_small. Qed.

(** *** Decimal numbers *)

Definition digit (c : Z) : Prop := 48 <= c <= 57.

Lemma digitValue_digit base v : 0 <= v < 10 -> 10 <= base -> digitValue base (48 + v) = Some v.
Proof.
  intros Hv Hb. unfold digitValue. zcase; try lia. simpl. zcase; f_equal; lia.
Qed.

Lemma takeDigits_app base acc s t v :
  takeDigits base acc s = (v, []) -> takeDigits base acc (s ++ t) = takeDigits base v t.
Proof.
  revert acc. induction s as [|c s IH]; intros acc; simpl; [by intros [= ->]|].
  destruct (digitValue base c); [apply IH|done].
Qed.

Lemma dec_go_digits fuel n : 0 <= n -> Forall digit (dec_go fuel n).
Proof.
  revert n. induction fuel as [|fuel IH]; intros n Hn; simpl; [constructor|].
  destruct (Z.ltb_spec n 10).
  - constructor; [unfold digit; lia|constructor].
  - apply Forall_app. split; [apply IH; apply Z.div_pos; lia|].
    constructor; [|constructor]. unfold digit. pose proof (Z.mod_pos_bound n 10). lia.
Qed.

Lemma dec_go_nonempty fuel n : fuel <> O -> dec_go fuel n <> [].
Proof. destruct fuel; [done|]. intros _. simpl. destruct (n <? 10); [done|]. by destruct (dec_go _ _). Qed.

Lemma takeDigits_dec_go fuel n :
  0 <= n < 10 ^ Z.of_nat fuel -> fuel <> O -> takeDigits 10 0 (dec_go fuel n) = (n, []).
Proof.
  revert n. induction fuel as [|fuel IH]; intros n Hn Hf; [done|]. simpl.
  destruct (Z.ltb_spec n 10) as [Hlt|Hge].
  - simpl. by rewrite digitValue_digit by lia.
  - assert (fuel <> O) as Hf' by (intros ->; simpl in Hn; lia).
    rewrite Nat2Z.inj_succ, Z.pow_succ_r in Hn by lia.
    rewrite (takeDigits_app _ _ _ _ (n / 10)).
    + simpl. rewrite digitValue_digit by (pose proof (Z.mod_pos_bound n 10); lia).
      pose proof (Z.div_mod n 10). f_equal. lia.
    + apply IH; [|done]. split; [apply Z.div_pos; lia|]. apply Z.div_lt_upper_bound; lia.
Qed.

Lemma digitFirst_digits s : s <> [] -> Forall digit s -> digitFirst 10 s = true.
Proof.
  destruct s as [|c s]; [done|]. intros _ [Hc _]%Forall_cons. simpl. apply bool_decide_eq_true.
  unfold digit in Hc. replace c with (48 + (c - 48)) by lia. rewrite digitValue_digit by lia. by eexists.
Qed.

Lemma dec_digits n : 0 <= n -> Forall digit (dec n).
Proof. intros Hn. unfold dec. destruct (Z.ltb_spec n 0); [lia|]. by apply dec_go_digits. Qed.
Lemma dec_nonempty n : 0 <= n -> dec n <> [].
Proof. intros Hn. unfold dec. destruct (Z.ltb_spec n 0); [lia|]. by apply dec_go_nonempty. Qed.

Lemma fromCharsI64_dec n : 0 <= n < 2 ^ 63 -> fromCharsI64 (dec n) = Some (n, []).
Proof.
  intros Hn. pose proof (dec_digits n ltac:(lia)) as Hd. pose proof (dec_nonempty n ltac:(lia)) as Hne.
  pose proof (digitFirst_digits _ Hne Hd) as Hf.
  assert (takeDigits 10 0 (dec n) = (n, [])) as Ht.
  { unfold dec. destruct (Z.ltb_spec n 0); [lia|]. apply takeDigits_dec_go; [|done].
    change (10 ^ Z.of_nat 20) with 100000000000000000000. lia. }
  unfold fromCharsI64. destruct (dec n) as [|c s] eqn:E; [done|].
  apply Forall_cons in Hd as [Hc _]. unfold digit in Hc. destruct (Z.eqb_spec c 45); [lia|].
  rewrite Hf, Ht. destruct (Z.leb_spec (- 2 ^ 63) n); [|lia]. destruct (Z.ltb_spec n (2 ^ 63)); [done|lia].
Qed.

(** *** Separators *)

Lemma parts_nonempty sep s : parts sep s <> [].
Proof. destruct s as [|x s]; simpl; [done|]. destruct (x =? sep); [done|]. by destruct (parts sep s). Qed.

Lemma parts_last sep p : sep ∉ p -> parts sep p = [p].
Proof.
  induction p as [|x p IH]; intros Hp; [done|]. apply not_elem_of_cons in Hp as [Hx Hp]. simpl.
  destruct (Z.eqb_spec x sep); [congruence|]. by rewrite IH.
Qed.

Lemma parts_app sep p s : sep ∉ p -> parts sep (p ++ sep :: s) = p :: parts sep s.
Proof.
  induction p as [|x p IH]; intros Hp; simpl.
  - by rewrite Z.eqb_refl.
  - apply not_elem_of_cons in Hp as [Hx Hp]. destruct (Z.eqb_spec x sep); [congruence|]. by rewrite IH.
Qed.

Lemma digits_no c s : Forall digit s -> ~ digit c -> c ∉ s.
Proof. intros Hs Hc Hin. rewrite Forall_forall in Hs. auto. Qed.

(** *** Hexadecimal numbers *)

Lemma digitValue_char base d :
  0 <= d < base -> 10 <= base <= 36 -> digitValue base (digitChar d) = Some d.
Proof.
  intros Hd Hb. unfold digitValue, digitChar. zcase; try lia; f_equal; lia.
Qed.

Lemma length_digits fuel base n : length (digits fuel base n) = fuel.
Proof.
  revert n. induction fuel as [|fuel IH]; intros n; simpl; [done|]. rewrite length_app, IH. simpl. lia.
Qed.

Lemma takeDigits_digits fuel base n :
  10 <= base <= 36 -> 0 <= n < base ^ Z.of_nat fuel ->
  takeDigits base 0 (digitChar <$> digits fuel base n) = (n, []).
Proof.
  intros Hb. revert n. induction fuel as [|fuel IH]; intros n Hn.
  { simpl in *. f_equal. lia. }
  rewrite Nat2Z.inj_succ, Z.pow_succ_r in Hn by lia. simpl digits. rewrite fmap_app.
  rewrite (takeDigits_app _ _ _ _ (n / base)).
  - simpl. rewrite digitValue_char by (try apply Z.mod_pos_bound; lia).
    f_equal. pose proof (Z.div_mod n base). lia.
  - apply IH. split; [apply Z.div_pos; lia|]. apply Z.div_lt_upper_bound; lia.
Qed.
End Bytes.
