(* ===== verification/Text.v ===== *)
(** * Text: [src/base/Text.h], [src/base/Text.cc]

    Splitting, comparing and encoding byte strings. [toSize], [toDouble] and
    [formatSize], which read and print floating-point numbers, are left out. *)

From Stdlib Require Import String.
From S2P Require Import Prelude Bytes.

Module Text.
Import Bytes.

(** ** Pieces *)

Definition isSpace (c : Z) : bool := existsb (Z.eqb c) [32; 9; 13; 10; 11; 12].

Fixpoint trimFront (s : bytes) : bytes :=
  match s with
  | [] => []
  | c :: s' => if isSpace c then trimFront s' else s
  end.
Definition trim (s : bytes) : bytes := reverse (trimFront (reverse (trimFront s))).

Definition split (s : bytes) (separator : Z) (keepEmpty : bool) : list bytes :=
  filter (fun part => keepEmpty || negb (bool_decide (part = [])) = true)
    (trim <$> parts separator s).

Definition join (values : list bytes) (glue : bytes) : bytes :=
  foldl (fun result value => (if bool_decide (result = []) then result else result ++ glue) ++ value)
    [] values.

Definition lowerChar (c : Z) : Z := if (65 <=? c) && (c <=? 90) then c - 65 + 97 else c.
Definition lower (s : bytes) : bytes := lowerChar <$> s.

Definition iequals (a b : bytes) : bool := (len a =? len b) && bool_decide (lower a = lower b).

Definition istartsWith (s prefix : bytes) : bool :=
  (len prefix <=? len s) && iequals (take (length prefix) s) prefix.

(** [skip] bytes at the front belong to the occurrence just replaced. *)
Fixpoint replace_from (skip : nat) (from to s : bytes) : bytes :=
  match s with
  | [] => []
  | c :: s' =>
      match skip with
      | S skip' => replace_from skip' from to s'
      | O =>
          if starts_with from s then to ++ replace_from (length from - 1) from to s'
          else c :: replace_from 0 from to s'
      end
  end.
Definition replaceAll (s from to : bytes) : bytes :=
  if bool_decide (from = []) then s else replace_from 0 from to s.

(** ** UTF-8 *)

(** The length the first byte announces. *)
Definition utf8Length (c : Z) : Z :=
  if c <? 0x80 then 1
  else if Z.shiftr c 5 =? 0x6 then 2
  else if Z.shiftr c 4 =? 0xe then 3
  else if Z.shiftr c 3 =? 0x1e then 4
  else 0.

(** The code point of the sequence, if the following bytes continue it. *)
Definition utf8Code (code : Z) (following : bytes) : option Z :=
  foldl (fun code next =>
    code ← code;
    if Z.land next 0xc0 =? 0x80 then Some (Z.lor (Z.shiftl code 6) (Z.land next 0x3f)) else None)
    (Some code) following.

(** Length of the well-formed sequence at the start of [s], or 0. *)
Definition utf8Sequence (s : bytes) : Z :=
  match s with
  | [] => 0
  | c :: s' =>
      let length := utf8Length c in
      if (length =? 0) || (len s <? length) || ((length =? 2) && (c <? 0xc2)) ||
         ((length =? 4) && (0xf4 <? c)) then 0
      else
        let code := if length =? 1 then c else Z.land c (Z.shiftr 0x7f length) in
        match utf8Code code (take (Z.to_nat (length - 1)) s') with
        | None => 0
        | Some code =>
            if ((length =? 3) && ((code <? 0x800) || ((0xd800 <=? code) && (code <=? 0xdfff)))) ||
               ((length =? 4) && ((code <? 0x10000) || (0x10ffff <? code)))
            then 0 else length
        end
  end.

(** [skip] bytes at the front belong to a sequence that has been checked. *)
Fixpoint isUtf8_from (skip : nat) (s : bytes) : bool :=
  match s with
  | [] => true
  | _ :: s' =>
      match skip with
      | S skip' => isUtf8_from skip' s'
      | O => let length := utf8Sequence s in
             if length =? 0 then false else isUtf8_from (Z.to_nat (length - 1)) s'
      end
  end.
Definition isUtf8 (s : bytes) : bool := isUtf8_from 0 s.

(** U+FFFD. *)
Definition replacement : bytes := [0xEF; 0xBF; 0xBD].

Fixpoint repair_from (skip : nat) (s : bytes) : bytes :=
  match s with
  | [] => []
  | c :: s' =>
      match skip with
      | S skip' => c :: repair_from skip' s'
      | O => let length := utf8Sequence s in
             if length =? 0 then replacement ++ repair_from 0 s'
             else c :: repair_from (Z.to_nat (length - 1)) s'
      end
  end.
Definition repairUtf8 (s : bytes) : bytes := repair_from 0 s.

Definition latin1ToUtf8 (s : bytes) : bytes :=
  c ← s;
  if c <? 0x80 then [c] else [Z.lor 0xc0 (Z.shiftr c 6); Z.lor 0x80 (Z.land c 0x3f)].

(** ** Percent, hexadecimal and base64 encoding *)

Definition hexValue (c : Z) : Z :=
  if (48 <=? c) && (c <=? 57) then c - 48
  else if (97 <=? c) && (c <=? 102) then c - 97 + 10
  else if (65 <=? c) && (c <=? 70) then c - 65 + 10
  else -1.

Fixpoint percentDecode (s : bytes) : bytes :=
  match s with
  | c :: ((h :: l :: rest) as s') =>
      if (c =? 37) && (0 <=? hexValue h) && (0 <=? hexValue l)
      then u8 (Z.lor (Z.shiftl (hexValue h) 4) (hexValue l)) :: percentDecode rest
      else c :: percentDecode s'
  | c :: s' => c :: percentDecode s'
  | [] => []
  end.

Definition unreserved (c : Z) : bool :=
  ((65 <=? c) && (c <=? 90)) || ((97 <=? c) && (c <=? 122)) || ((48 <=? c) && (c <=? 57)) ||
  (c =? 45) || (c =? 46) || (c =? 95) || (c =? 126).

Definition upperHex : bytes := str "0123456789ABCDEF".
Definition lowerHex : bytes := str "0123456789abcdef".
(** [digits[i]] of a table the index is inside of. *)
Definition charAt (table : bytes) (i : Z) : Z := default 0 (table !! Z.to_nat i).

Definition percentEncode (s : bytes) : bytes :=
  c ← s;
  if unreserved c then [c]
  else [37; charAt upperHex (Z.shiftr c 4); charAt upperHex (Z.land c 0xf)].

Definition toHex (s : bytes) : bytes :=
  c ← s; [charAt lowerHex (Z.shiftr c 4); charAt lowerHex (Z.land c 0xf)].

Fixpoint fromHex_pairs (hex : bytes) : option bytes :=
  match hex with
  | h :: l :: rest =>
      if (hexValue h <? 0) || (hexValue l <? 0) then None
      else result ← fromHex_pairs rest;
           Some (u8 (Z.lor (Z.shiftl (hexValue h) 4) (hexValue l)) :: result)
  | _ => Some []
  end.
Definition fromHex (hex : bytes) : option bytes :=
  if negb (len hex mod 2 =? 0) then None else fromHex_pairs hex.

Definition alphabet : bytes :=
  str "ABCDEFGHIJKLMNOPQRSTUVWXYZabcdefghijklmnopqrstuvwxyz0123456789+/".

Definition base64Char (block shift : Z) : Z := charAt alphabet (Z.land (Z.shiftr block shift) 63).

Fixpoint base64Encode (s : bytes) : bytes :=
  match s with
  | a :: b :: c :: rest =>
      let block := Z.lor (Z.lor (Z.shiftl a 16) (Z.shiftl b 8)) c in
      base64Char block 18 :: base64Char block 12 :: base64Char block 6 :: base64Char block 0 ::
        base64Encode rest
  | [a; b] =>
      let block := Z.lor (Z.shiftl a 16) (Z.shiftl b 8) in
      [base64Char block 18; base64Char block 12; base64Char block 6; 61]
  | [a] =>
      let block := Z.shiftl a 16 in
      [base64Char block 18; base64Char block 12; 61; 61]
  | [] => []
  end.

(** The table of [base64Decode], the URL-safe alphabet included. *)
Definition base64Value (c : Z) : Z :=
  if c =? 45 then 62 else if c =? 95 then 63
  else match list_find (fun x => x = c) alphabet with Some (i, _) => Z.of_nat i | None => -1 end.

Fixpoint decode_from (block bits : Z) (text : bytes) : option bytes :=
  match text with
  | [] => Some []
  | c :: text' =>
      if (c =? 61) || (c =? 13) || (c =? 10) || (c =? 32) then decode_from block bits text'
      else if base64Value c <? 0 then None
      else
        let block := Z.lor (u32 (Z.shiftl block 6)) (base64Value c) in
        let bits := bits + 6 in
        if 8 <=? bits then
          let bits := bits - 8 in
          result ← decode_from block bits text';
          Some (Z.land (Z.shiftr block bits) 0xff :: result)
        else decode_from block bits text'
  end.
Definition base64Decode (text : bytes) : option bytes := decode_from 0 0 text.

(** ** Numbers *)

Definition toInt (s : bytes) : option Z :=
  match fromCharsI64 s with
  | Some (result, rest) =>
      if bool_decide (s = []) || negb (bool_decide (rest = [])) || (result <? 0) then None
      else Some result
  | None => None
  end.

Definition formatDuration (seconds : Z) : bytes :=
  if 3600 <=? seconds then
    dec (seconds / 3600) ++ str "h" ++ dec (seconds mod 3600 / 60) ++ str "m" ++
      dec (seconds mod 60) ++ str "s"
  else if 60 <=? seconds then
    dec (seconds / 60) ++ str "m" ++ dec (seconds mod 60) ++ str "s"
  else dec seconds ++ str "s".

(** ** Encodings are inverted *)

Ltac bits :=
  repeat (rewrite shiftr_div by lia || rewrite Z.shiftr_0_r);
  repeat match goal with
  | |- context [Z.land ?v 15] => change (Z.land v 15) with (Z.land v (2 ^ 4 - 1)); rewrite (land_low v 4) by lia
  | |- context [Z.land ?v 63] => change (Z.land v 63) with (Z.land v (2 ^ 6 - 1)); rewrite (land_low v 6) by lia
  | |- context [Z.land ?v 255] => change (Z.land v 255) with (Z.land v (2 ^ 8 - 1)); rewrite (land_low v 8) by lia
  end; change (2 ^ 4) with 16; change (2 ^ 6) with 64; change (2 ^ 8) with 256.

(** A property of all digits is checked on each. *)
Lemma forall_below (n : nat) (P : Z -> bool) :
  forallb P (Z.of_nat <$> seq 0 n) = true -> forall i, 0 <= i < Z.of_nat n -> P i = true.
Proof.
  intros Hall i Hi. rewrite forallb_forall in Hall. apply Hall.
  apply list_elem_of_In, list_elem_of_fmap. exists (Z.to_nat i). split; [lia|].
  apply elem_of_seq. lia.
Qed.

Lemma hexValue_upper i : 0 <= i < 16 -> hexValue (charAt upperHex i) = i.
Proof.
  intros Hi. apply Z.eqb_eq.
  by apply (forall_below 16 (fun i => hexValue (charAt upperHex i) =? i)).
Qed.
Lemma hexValue_lower i : 0 <= i < 16 -> hexValue (charAt lowerHex i) = i.
Proof.
  intros Hi. apply Z.eqb_eq.
  by apply (forall_below 16 (fun i => hexValue (charAt lowerHex i) =? i)).
Qed.
Lemma base64Value_char i :
  0 <= i < 64 -> let c := charAt alphabet i in
  base64Value c = i /\ ((c =? 61) || (c =? 13) || (c =? 10) || (c =? 32)) = false.
Proof.
  intros Hi c. subst c.
  pose proof (forall_below 64 (fun i => let c := charAt alphabet i in
    (base64Value c =? i) && negb ((c =? 61) || (c =? 13) || (c =? 10) || (c =? 32))) eq_refl i Hi) as H.
  cbv zeta in H. apply andb_prop in H as [H1%Z.eqb_eq H2%negb_true_iff]. done.
Qed.

Lemma nibbles c : byte_ok c -> 0 <= c / 16 < 16 /\ 0 <= c mod 16 < 16 /\ c / 16 * 16 + c mod 16 = c.
Proof. unfold byte_ok. intros. dlia. Qed.

Lemma hexByte h l :
  0 <= h < 16 -> 0 <= l < 16 -> u8 (Z.lor (Z.shiftl h 4) l) = h * 16 + l.
Proof. intros Hh Hl. rewrite shiftl_lor by lia. change (2 ^ 4) with 16. apply u8_small. lia. Qed.

Lemma fromHex_toHex s : bytes_ok s -> fromHex (toHex s) = Some s.
Proof.
  intros Hs. unfold fromHex.
  assert (len (toHex s) mod 2 = 0) as ->.
  { clear. induction s as [|c s IH]; [done|]. unfold toHex in *. rewrite bind_cons, len_app.
    change (len [_; _]) with 2. by rewrite <- Zplus_mod_idemp_r, IH. }
  simpl. induction Hs as [|c s Hc Hs IH]; [done|]. unfold toHex in *. rewrite bind_cons. simpl. bits.
  destruct (nibbles c Hc) as (H1 & H2 & H3).
  rewrite !hexValue_lower, IH by done. destruct (Z.ltb_spec (c / 16) 0); [lia|].
  destruct (Z.ltb_spec (c mod 16) 0); [lia|]. simpl. rewrite hexByte by done. by rewrite H3.
Qed.

Lemma percentDecode_cons c s : c <> 37 -> percentDecode (c :: s) = c :: percentDecode s.
Proof. intros Hc. destruct s as [|h [|l s]]; simpl; try done. by destruct (Z.eqb_spec c 37). Qed.

Lemma percentDecode_encode s : bytes_ok s -> percentDecode (percentEncode s) = s.
Proof.
  induction 1 as [|c s Hc Hs IH]; [done|]. unfold percentEncode in *. rewrite bind_cons.
  destruct (unreserved c) eqn:Hu.
  - simpl app. rewrite percentDecode_cons, IH; [done|]. by intros ->.
  - simpl app. bits. destruct (nibbles c Hc) as (H1 & H2 & H3). simpl percentDecode.
    rewrite !hexValue_upper, IH by done. destruct (Z.leb_spec 0 (c / 16)); [|lia].
    destruct (Z.leb_spec 0 (c mod 16)); [|lia]. simpl. rewrite hexByte by done. by rewrite H3.
Qed.

Lemma base64Value_other c : base64Value c < 64.
Proof.
  unfold base64Value. destruct (c =? 45); [lia|]. destruct (c =? 95); [lia|].
  destruct (list_find _ _) as [[i x]|] eqn:E; [|lia].
  apply list_find_Some in E as (Hl & _ & _). apply lookup_lt_Some in Hl.
  change (length alphabet) with 64%nat in Hl. lia.
Qed.

(** One character of the alphabet: what leaves the buffer depends on its
    lowest six bits and the new ones. *)
Lemma decode_char block bits v t :
  0 <= v < 64 -> exists x, x mod 64 = block mod 64 /\
  decode_from block bits (charAt alphabet v :: t) =
    (if 8 <=? bits + 6
     then result ← decode_from (x * 64 + v) (bits + 6 - 8) t;
          Some ((x * 64 + v) / 2 ^ (bits + 6 - 8) mod 256 :: result)
     else decode_from (x * 64 + v) (bits + 6) t).
Proof.
  intros Hv. exists (block mod 2 ^ 26). split.
  { change (2 ^ 26) with 67108864. dlia. }
  destruct (base64Value_char v Hv) as [Hval Hno]. simpl decode_from. rewrite Hval, Hno.
  destruct (Z.ltb_spec v 0); [lia|].
  assert (Z.lor (u32 (Z.shiftl block 6)) v = block mod 2 ^ 26 * 64 + v) as ->.
  { unfold u32. rewrite Z.shiftl_mul_pow2 by lia.
    replace (block * 2 ^ 6 mod 2 ^ 32) with (Z.shiftl (block mod 2 ^ 26) 6).
    - by rewrite shiftl_lor by lia.
    - rewrite Z.shiftl_mul_pow2 by lia. change (2 ^ 6) with 64. change (2 ^ 26) with 67108864.
      change (2 ^ 32) with 4294967296. dlia. }
  destruct (Z.leb_spec 8 (bits + 6)); [|done]. rewrite shiftr_div by lia. by bits.
Qed.

Ltac decode_step v :=
  match goal with
  | |- context [decode_from ?b ?k (charAt alphabet v :: ?t)] =>
      let x := fresh "x" in let Hx := fresh "Hx" in let E := fresh "E" in
      destruct (decode_char b k v t) as (x & Hx & E); [lia|]; rewrite E; clear E;
      let k6 := eval vm_compute in (k + 6) in let k2 := eval vm_compute in (k + 6 - 8) in
      change (k + 6 - 8) with k2; change (k + 6) with k6;
      let r := eval vm_compute in (8 <=? k6) in change (8 <=? k6) with r; cbv iota
  end.

Lemma decode_four block v1 v2 v3 v4 t :
  0 <= v1 < 64 -> 0 <= v2 < 64 -> 0 <= v3 < 64 -> 0 <= v4 < 64 -> exists block',
  decode_from block 0
    (charAt alphabet v1 :: charAt alphabet v2 :: charAt alphabet v3 :: charAt alphabet v4 :: t) =
  (result ← decode_from block' 0 t;
   Some (v1 * 4 + v2 / 16 :: v2 mod 16 * 16 + v3 / 4 :: v3 mod 4 * 64 + v4 :: result)).
Proof.
  intros H1 H2 H3 H4. decode_step v1. decode_step v2. decode_step v3. decode_step v4.
  exists (x2 * 64 + v4). destruct (decode_from (x2 * 64 + v4) 0 t); simpl; [|done]. f_equal. f_equal; [|f_equal; [|f_equal]].
  all: change (2 ^ 4) with 16; change (2 ^ 2) with 4; change (2 ^ 0) with 1; dlia.
Qed.

Lemma decode_padding block bits t : decode_from block bits (61 :: t) = decode_from block bits t.
Proof. done. Qed.

Lemma decode_three block v1 v2 v3 :
  0 <= v1 < 64 -> 0 <= v2 < 64 -> 0 <= v3 < 64 ->
  decode_from block 0 [charAt alphabet v1; charAt alphabet v2; charAt alphabet v3; 61] =
  Some [v1 * 4 + v2 / 16; v2 mod 16 * 16 + v3 / 4].
Proof.
  intros H1 H2 H3. decode_step v1. decode_step v2. decode_step v3. rewrite decode_padding. simpl.
  f_equal. f_equal; [|f_equal]. all: change (2 ^ 4) with 16; change (2 ^ 2) with 4; dlia.
Qed.

Lemma decode_two block v1 v2 :
  0 <= v1 < 64 -> 0 <= v2 < 64 ->
  decode_from block 0 [charAt alphabet v1; charAt alphabet v2; 61; 61] = Some [v1 * 4 + v2 / 16].
Proof.
  intros H1 H2. decode_step v1. decode_step v2. rewrite !decode_padding. simpl.
  f_equal. f_equal. change (2 ^ 4) with 16. dlia.
Qed.

Lemma base64Char_eq block shift :
  0 <= shift -> base64Char block shift = charAt alphabet (block / 2 ^ shift mod 64).
Proof. intros Hs. unfold base64Char. by bits. Qed.

Lemma block_eq a b c :
  0 <= b < 256 -> 0 <= c < 256 ->
  Z.lor (Z.shiftl a 16) (Z.shiftl b 8) = a * 65536 + b * 256 /\
  Z.lor (Z.lor (Z.shiftl a 16) (Z.shiftl b 8)) c = a * 65536 + b * 256 + c.
Proof.
  intros Hb Hc.
  assert (Z.lor (Z.shiftl a 16) (Z.shiftl b 8) = a * 65536 + b * 256) as E.
  { rewrite (Z.shiftl_mul_pow2 b) by lia. change (b * 2 ^ 8) with (b * 256).
    rewrite (shiftl_lor a (b * 256) 16); [done|lia|].
    change (2 ^ 16) with 65536. lia. }
  split; [done|]. rewrite E. trans (Z.lor (Z.shiftl (a * 256 + b) 8) c).
  - f_equal. rewrite Z.shiftl_mul_pow2 by lia. change (2 ^ 8) with 256. lia.
  - rewrite shiftl_lor by lia. change (2 ^ 8) with 256. lia.
Qed.

Lemma decode_encode n : forall s block,
  (length s <= n)%nat -> bytes_ok s -> decode_from block 0 (base64Encode s) = Some s.
Proof.
  induction n as [|n IH]; intros s block Hlen Hs.
  { by destruct s; [|simpl in Hlen; lia]. }
  unfold bytes_ok, byte_ok in *.
  destruct s as [|a [|b [|c s]]]; [done|..];
    repeat match goal with H : Forall _ (_ :: _) |- _ => apply Forall_cons in H as [? H] end;
    simpl base64Encode; rewrite !base64Char_eq by lia;
    change (2 ^ 18) with 262144; change (2 ^ 12) with 4096; change (2 ^ 6) with 64; change (2 ^ 0) with 1.
  - rewrite Z.shiftl_mul_pow2 by lia. rewrite decode_two by dlia. do 2 f_equal. dlia.
  - rewrite (proj1 (block_eq a b 0 ltac:(lia) ltac:(lia))).
    rewrite decode_three by dlia. f_equal. f_equal; [|f_equal]; dlia.
  - rewrite (proj2 (block_eq a b c ltac:(lia) ltac:(lia))).
    destruct (decode_four block ((a * 65536 + b * 256 + c) / 262144 mod 64)
      ((a * 65536 + b * 256 + c) / 4096 mod 64) ((a * 65536 + b * 256 + c) / 64 mod 64)
      ((a * 65536 + b * 256 + c) / 1 mod 64) (base64Encode s)) as [block' E];
      [by apply Z.mod_pos_bound..|].
    etrans; [exact E|]. rewrite IH by (done || simpl in Hlen; lia). simpl. f_equal.
    f_equal; [|f_equal; [|f_equal]]; dlia.
Qed.

(** ** UTF-8 *)

(** The encoding form of a Unicode scalar value. *)
Definition scalar (code : Z) : Prop := 0 <= code < 0xd800 \/ 0xdfff < code <= 0x10ffff.
Definition encodeUtf8 (code : Z) : bytes :=
  if code <? 0x80 then [code]
  else if code <? 0x800 then [0xc0 + code / 64; 0x80 + code mod 64]
  else if code <? 0x10000 then [0xe0 + code / 4096; 0x80 + code / 64 mod 64; 0x80 + code mod 64]
  else [0xf0 + code / 262144; 0x80 + code / 4096 mod 64; 0x80 + code / 64 mod 64; 0x80 + code mod 64].

Lemma byte_fact (P : Z -> bool) c :
  byte_ok c -> forallb P (Z.of_nat <$> seq 0 256) = true -> P c = true.
Proof. intros Hc HP. by apply (forall_below 256 P HP). Qed.

Lemma utf8Length_eq c :
  byte_ok c -> utf8Length c =
    if c <? 0x80 then 1 else if c <? 0xc0 then 0 else if c <? 0xe0 then 2
    else if c <? 0xf0 then 3 else if c <? 0xf8 then 4 else 0.
Proof.
  intros Hc. apply Z.eqb_eq. apply (byte_fact (fun c => utf8Length c =?
    if c <? 0x80 then 1 else if c <? 0xc0 then 0 else if c <? 0xe0 then 2
    else if c <? 0xf0 then 3 else if c <? 0xf8 then 4 else 0)); [done|by vm_compute].
Qed.

Lemma continues c : byte_ok c -> (Z.land c 0xc0 =? 0x80) = (0x80 <=? c) && (c <? 0xc0).
Proof.
  intros Hc. apply eqb_prop. apply (byte_fact (fun c =>
    Bool.eqb (Z.land c 0xc0 =? 0x80) ((0x80 <=? c) && (c <? 0xc0)))); [done|by vm_compute].
Qed.

(** What the loop over the following bytes computes. *)
Fixpoint utf8Value (code : Z) (following : bytes) : option Z :=
  match following with
  | [] => Some code
  | c :: rest => if (0x80 <=? c) && (c <? 0xc0) then utf8Value (code * 64 + (c - 0x80)) rest else None
  end.

Lemma utf8Code_eq code following :
  bytes_ok following -> utf8Code code following = utf8Value code following.
Proof.
  intros Hf. unfold utf8Code.
  assert (forall l, foldl (fun code next => code ← code;
    if Z.land next 0xc0 =? 0x80 then Some (Z.lor (Z.shiftl code 6) (Z.land next 0x3f)) else None)
    None l = None) as Hnone by (induction l; done).
  revert code. induction Hf as [|c rest Hc Hf IH]; intros code; [done|]. simpl.
  rewrite continues by done. unfold byte_ok in Hc.
  destruct (Z.leb_spec 0x80 c); simpl; [|apply Hnone]. destruct (Z.ltb_spec c 0xc0); [|apply Hnone].
  bits. rewrite shiftl_lor by (change (2 ^ 6) with 64; try lia; by apply Z.mod_pos_bound).
  rewrite IH. f_equal. change (2 ^ 6) with 64. dlia.
Qed.

(** [utf8Sequence], case by case. *)
Definition continuation (c : Z) : bool := (0x80 <=? c) && (c <? 0xc0).
Definition sequenceCases (s : bytes) : Z :=
  match s with
  | [] => 0
  | c :: s' =>
      if c <? 0x80 then 1
      else if c <? 0xc2 then 0
      else if c <? 0xe0 then
        match s' with d :: _ => if continuation d then 2 else 0 | _ => 0 end
      else if c <? 0xf0 then
        match s' with
        | d :: e :: _ =>
            let code := ((c - 0xe0) * 64 + (d - 0x80)) * 64 + (e - 0x80) in
            if continuation d && continuation e && (0x800 <=? code) &&
               negb ((0xd800 <=? code) && (code <=? 0xdfff)) then 3 else 0
        | _ => 0
        end
      else if c <? 0xf5 then
        match s' with
        | d :: e :: f :: _ =>
            let code := (((c - 0xf0) * 64 + (d - 0x80)) * 64 + (e - 0x80)) * 64 + (f - 0x80) in
            if continuation d && continuation e && continuation f && (0x10000 <=? code) &&
               (code <=? 0x10ffff) then 4 else 0
        | _ => 0
        end
      else 0
  end.

Lemma lowBits c :
  byte_ok c -> Z.land c 0x1f = c mod 32 /\ Z.land c 0xf = c mod 16 /\ Z.land c 0x7 = c mod 8.
Proof.
  intros _. split_and!; [apply (land_low c 5)|apply (land_low c 4)|apply (land_low c 3)]; lia.
Qed.

Lemma utf8Sequence_eq s : bytes_ok s -> utf8Sequence s = sequenceCases s.
Proof.
  intros Hs. destruct s as [|c s']; [done|]. apply Forall_cons in Hs as [Hc Hs]. unfold utf8Sequence.
  rewrite utf8Length_eq by done. destruct (lowBits c Hc) as (L2 & L3 & L4). unfold byte_ok in Hc.
  assert (forall n, utf8Code n (take 0 s') = Some n) as T0 by done.
  assert (forall n k, utf8Code n (take k s') = utf8Value n (take k s')) as T
    by (intros n k; apply utf8Code_eq, Forall_take, Hs).
  unfold sequenceCases. destruct (Z.ltb_spec c 0x80).
  { rewrite len_cons. pose proof (len_nonneg s'). destruct (Z.ltb_spec (1 + len s') 1); [lia|]. done. }
  destruct (Z.ltb_spec c 0xc0); [destruct (Z.ltb_spec c 0xc2); [done|lia]|].
  destruct (Z.ltb_spec c 0xe0).
  { destruct (Z.ltb_spec c 0xc2); [by rewrite orb_true_r|].
    destruct s' as [|d s']; [done|]. rewrite T, !len_cons. pose proof (len_nonneg s').
    destruct (Z.ltb_spec (1 + (1 + len s')) 2); [lia|]. simpl. unfold continuation. by destruct (_ && _). }
  destruct (Z.ltb_spec c 0xc2); [lia|]. destruct (Z.ltb_spec c 0xf0).
  { destruct s' as [|d [|e s']]; [done|done|]. rewrite T, !len_cons. pose proof (len_nonneg s').
    destruct (Z.ltb_spec (1 + (1 + (1 + len s'))) 3); [lia|]. simpl. change (Z.shiftr 127 3) with 0xf.
    rewrite L3. replace (c mod 16) with (c - 0xe0) by dlia. unfold continuation.
    destruct ((0x80 <=? d) && (d <? 0xc0)); [|done]. destruct ((0x80 <=? e) && (e <? 0xc0)); [|done].
    simpl. set (code := _ + (e - 128)). destruct (Z.ltb_spec code 0x800), (Z.leb_spec 0x800 code); try lia; [done|].
    simpl. by destruct ((0xd800 <=? code) && (code <=? 0xdfff)). }
  destruct (Z.ltb_spec c 0xf8).
  2: { destruct (Z.ltb_spec c 0xf5); [lia|]. done. }
  destruct (Z.ltb_spec c 0xf5).
  2: { destruct (Z.ltb_spec 0xf4 c); [|lia]. by rewrite !orb_true_r. }
  destruct (Z.ltb_spec 0xf4 c); [lia|].
  destruct s' as [|d [|e [|f s']]]; [done..|]. rewrite T, !len_cons. pose proof (len_nonneg s').
  destruct (Z.ltb_spec (1 + (1 + (1 + (1 + len s')))) 4); [lia|]. simpl. change (Z.shiftr 127 4) with 0x7.
  rewrite L4. replace (c mod 8) with (c - 0xf0) by dlia. unfold continuation.
  destruct ((0x80 <=? d) && (d <? 0xc0)); [|done]. destruct ((0x80 <=? e) && (e <? 0xc0)); [|done].
  destruct ((0x80 <=? f) && (f <? 0xc0)); [|done].
  simpl. set (code := _ + (f - 128)). destruct (Z.ltb_spec code 0x10000), (Z.leb_spec 0x10000 code); try lia; [done|].
  destruct (Z.ltb_spec 0x10ffff code), (Z.leb_spec code 0x10ffff); try lia; done.
Qed.

Lemma encodeUtf8_ok code : scalar code -> bytes_ok (encodeUtf8 code).
Proof.
  unfold scalar, encodeUtf8, bytes_ok, byte_ok. intros Hcode. zcase; repeat constructor; dlia.
Qed.

Lemma sequence_encode code rest :
  scalar code -> sequenceCases (encodeUtf8 code ++ rest) = len (encodeUtf8 code).
Proof.
  unfold scalar, encodeUtf8. intros Hcode.
  destruct (Z.ltb_spec code 0x80); [|destruct (Z.ltb_spec code 0x800); [|destruct (Z.ltb_spec code 0x10000)]];
    unfold sequenceCases, continuation; simpl app; cbv beta iota zeta;
    repeat match goal with
    | |- context [?a <? ?b] => destruct (Z.ltb_spec a b); [try (exfalso; dlia)|try (exfalso; dlia)]; cbv beta iota
    | |- context [?a <=? ?b] => destruct (Z.leb_spec a b); [try (exfalso; dlia)|try (exfalso; dlia)]; cbv beta iota
    end; done.
Qed.

Lemma sequence_decode s :
  sequenceCases s <> 0 -> bytes_ok s ->
  exists code rest, scalar code /\ s = encodeUtf8 code ++ rest /\ sequenceCases s = len (encodeUtf8 code).
Proof.
  intros Hne Hs. enough (exists code rest, scalar code /\ s = encodeUtf8 code ++ rest) as (code & rest & Hc & ->).
  { exists code, rest. split_and!; [done|done|by apply sequence_encode]. }
  destruct s as [|c s]; [done|]. apply Forall_cons in Hs as [Hc Hs]. unfold byte_ok in Hc.
  unfold sequenceCases, continuation in Hne. unfold scalar, encodeUtf8.
  destruct (Z.ltb_spec c 0x80).
  { exists c, s. destruct (Z.ltb_spec c 0x80); [split; [lia|done]|lia]. }
  destruct (Z.ltb_spec c 0xc2); [done|]. destruct (Z.ltb_spec c 0xe0).
  { destruct s as [|d s]; [done|]. exists ((c - 0xc0) * 64 + (d - 0x80)), s.
    destruct (_ && _) eqn:Hd; [|done]. zprop. destruct (Z.ltb_spec ((c - 0xc0) * 64 + (d - 0x80)) 0x80); [lia|].
    destruct (Z.ltb_spec ((c - 0xc0) * 64 + (d - 0x80)) 0x800); [|lia].
    split; [lia|]. simpl. f_equal; [dlia|f_equal; dlia]. }
  destruct (Z.ltb_spec c 0xf0).
  { destruct s as [|d [|e s]]; [done|done|]. cbv zeta in Hne.
    set (code := ((c - 0xe0) * 64 + (d - 0x80)) * 64 + (e - 0x80)) in Hne. exists code, s.
    destruct (_ && _) eqn:Hd; [|done]. zprop.
    match goal with H : _ && _ = false |- _ => apply andb_false_iff in H; rewrite !Z.leb_gt in H end.
    destruct (Z.ltb_spec code 0x80); [lia|]. destruct (Z.ltb_spec code 0x800); [lia|].
    destruct (Z.ltb_spec code 0x10000); [|subst code; lia].
    split; [lia|]. simpl. subst code. f_equal; [dlia|f_equal; [dlia|f_equal; dlia]]. }
  destruct (Z.ltb_spec c 0xf5); [|done]. destruct s as [|d [|e [|f s]]]; [done..|]. cbv zeta in Hne.
  set (code := (((c - 0xf0) * 64 + (d - 0x80)) * 64 + (e - 0x80)) * 64 + (f - 0x80)) in Hne. exists code, s.
  destruct (_ && _) eqn:Hd; [|done]. zprop.
  destruct (Z.ltb_spec code 0x80); [lia|]. destruct (Z.ltb_spec code 0x800); [lia|].
  destruct (Z.ltb_spec code 0x10000); [lia|].
  split; [lia|]. simpl. subst code. f_equal; [dlia|f_equal; [dlia|f_equal; [dlia|f_equal; dlia]]].
Qed.

Lemma isUtf8_skip l rest : isUtf8_from (length l) (l ++ rest) = isUtf8_from 0 rest.
Proof. induction l as [|c l IH]; [by destruct rest|done]. Qed.
Lemma repair_skip l rest : repair_from (length l) (l ++ rest) = l ++ repair_from 0 rest.
Proof. induction l as [|c l IH]; simpl; [by destruct rest|by rewrite IH]. Qed.

Lemma isUtf8_step c s :
  isUtf8 (c :: s) = if utf8Sequence (c :: s) =? 0 then false
                    else isUtf8_from (Z.to_nat (utf8Sequence (c :: s) - 1)) s.
Proof. reflexivity. Qed.
Lemma repair_step c s :
  repairUtf8 (c :: s) = if utf8Sequence (c :: s) =? 0 then replacement ++ repairUtf8 s
                        else c :: repair_from (Z.to_nat (utf8Sequence (c :: s) - 1)) s.
Proof. reflexivity. Qed.

Lemma encodeUtf8_cons code :
  exists c l, encodeUtf8 code = c :: l /\ Z.to_nat (len (encodeUtf8 code) - 1) = length l /\
  len (encodeUtf8 code) <> 0.
Proof. unfold encodeUtf8. repeat case_match; eauto. Qed.

Lemma encoded_first code rest :
  scalar code -> bytes_ok rest ->
  isUtf8 (encodeUtf8 code ++ rest) = isUtf8 rest /\
  repairUtf8 (encodeUtf8 code ++ rest) = encodeUtf8 code ++ repairUtf8 rest.
Proof.
  intros Hc Hr. pose proof (sequence_encode code rest Hc) as Hseq.
  rewrite <- utf8Sequence_eq in Hseq by (apply Forall_app; split; [by apply encodeUtf8_ok|done]).
  destruct (encodeUtf8_cons code) as (c & l & E & Hl & Hne). rewrite E in *. simpl app in *.
  rewrite isUtf8_step, repair_step, Hseq.
  destruct (Z.eqb_spec (len (c :: l)) 0); [done|]. by rewrite Hl, isUtf8_skip, repair_skip.
Qed.

Lemma invalid_first c s :
  utf8Sequence (c :: s) = 0 ->
  isUtf8 (c :: s) = false /\ repairUtf8 (c :: s) = encodeUtf8 0xfffd ++ repairUtf8 s.
Proof. intros Hs. by rewrite isUtf8_step, repair_step, Hs. Qed.

(** A byte string starts with a well-formed sequence or a byte that is in none. *)
Lemma utf8_ind (P : bytes -> Prop) :
  P [] ->
  (forall code rest, scalar code -> bytes_ok rest -> P rest -> P (encodeUtf8 code ++ rest)) ->
  (forall c s, utf8Sequence (c :: s) = 0 -> bytes_ok s -> P s -> P (c :: s)) ->
  forall s, bytes_ok s -> P s.
Proof.
  intros H0 H1 H2 s. remember (length s) as n eqn:Hn. revert s Hn.
  induction (lt_wf n) as [n _ IH]. intros s -> Hs. destruct s as [|c s]; [done|].
  destruct (decide (utf8Sequence (c :: s) = 0)) as [Hz|Hnz].
  - apply Forall_cons in Hs as [_ Hs]. apply H2; [done|done|]. apply (IH (length s)); simpl; [lia|done|done].
  - rewrite utf8Sequence_eq in Hnz by done.
    destruct (sequence_decode _ Hnz Hs) as (code & rest & Hc & E & _). rewrite E in *.
    apply Forall_app in Hs as [_ Hr]. apply H1; [done|done|]. apply (IH (length rest)); [|done|done].
    destruct (encodeUtf8_cons code) as (c' & l & -> & _). rewrite length_app. simpl. lia.
Qed.

Lemma concat_ok codes : Forall scalar codes -> bytes_ok (codes ≫= encodeUtf8).
Proof.
  induction 1 as [|code codes Hc Hcs IH]; [constructor|]. rewrite bind_cons. apply Forall_app.
  split; [by apply encodeUtf8_ok|done].
Qed.

Lemma isUtf8_encoded codes :
  Forall scalar codes -> isUtf8 (codes ≫= encodeUtf8) = true /\
  repairUtf8 (codes ≫= encodeUtf8) = codes ≫= encodeUtf8.
Proof.
  induction 1 as [|code codes Hc Hcs [IH1 IH2]]; [done|]. rewrite bind_cons.
  destruct (encoded_first code (codes ≫= encodeUtf8) Hc (concat_ok _ Hcs)) as [-> ->]. by rewrite IH2.
Qed.

(** ** Numbers *)

Lemma toInt_dec n : 0 <= n < 2 ^ 63 -> toInt (dec n) = Some n.
Proof.
  intros Hn. unfold toInt. rewrite fromCharsI64_dec by done.
  rewrite bool_decide_eq_false_2 by (apply dec_nonempty; lia). simpl.
  destruct (Z.ltb_spec n 0); [lia|done].
Qed.

(** ** Properties *)

(** Hexadecimal, percent and base64 encoding are inverted by their
    decoders on every byte string. *)
Lemma text_encodings_roundtrip s :
  bytes_ok s ->
  fromHex (toHex s) = Some s /\ percentDecode (percentEncode s) = s /\
  base64Decode (base64Encode s) = Some s.
Proof.
  intros Hs. split_and!; [by apply fromHex_toHex|by apply percentDecode_encode|].
  by apply (decode_encode (length s)).
Qed.

(** [isUtf8] accepts exactly the encodings of sequences of Unicode scalar
    values; [repairUtf8] always produces one and changes none. *)
Lemma utf8_exact s :
  bytes_ok s ->
  (isUtf8 s = true <-> exists codes, Forall scalar codes /\ s = codes ≫= encodeUtf8) /\
  isUtf8 (repairUtf8 s) = true /\ (isUtf8 s = true -> repairUtf8 s = s).
Proof.
  intros Hs.
  assert (isUtf8 s = true -> exists codes, Forall scalar codes /\ s = codes ≫= encodeUtf8) as Hsound.
  { revert s Hs. apply (utf8_ind (fun s => isUtf8 s = true -> _)); [by exists []|..].
    - intros code rest Hc Hr IH. rewrite (proj1 (encoded_first code rest Hc Hr)). intros Hu.
      destruct (IH Hu) as (codes & Hcs & ->). exists (code :: codes). by split; [constructor|].
    - intros c s Hz _ _. by rewrite (proj1 (invalid_first c s Hz)). }
  assert (exists codes, Forall scalar codes /\ repairUtf8 s = codes ≫= encodeUtf8) as Hrep.
  { clear Hsound. revert s Hs. apply (utf8_ind (fun s => exists codes, _ /\ repairUtf8 s = _)); [by exists []|..].
    - intros code rest Hc Hr (codes & Hcs & E). exists (code :: codes).
      rewrite (proj2 (encoded_first code rest Hc Hr)), E. by split; [constructor|].
    - intros c s Hz _ (codes & Hcs & E). exists (0xfffd :: codes).
      rewrite (proj2 (invalid_first c s Hz)), E. split; [|done]. constructor; [|done]. right. lia. }
  split_and!; [split; [done|]| |].
  - intros (codes & Hcs & ->). by apply isUtf8_encoded.
  - destruct Hrep as (codes & Hcs & ->). by apply isUtf8_encoded.
  - intros Hu. destruct (Hsound Hu) as (codes & Hcs & ->). by apply isUtf8_encoded.
Qed.
End Text.

Module TextExamples.
Import Bytes Text.

Lemma text_encodings_roundtrip_witness :
  percentEncode [97; 32; 255] = str "a%20%FF" /\ base64Encode [97; 32; 255] = str "YSD/" /\
  percentDecode (percentEncode [97; 32; 255]) = [97; 32; 255].
Proof.
  split_and!; [reflexivity|reflexivity|].
  apply (text_encodings_roundtrip [97; 32; 255]). repeat constructor; lia.
Defined.

(** A lone continuation byte between two characters is replaced. *)
Lemma utf8_exact_witness :
  repairUtf8 [97; 0xa9; 0xc3; 0xa9] = [97; 0xef; 0xbf; 0xbd; 0xc3; 0xa9] /\
  isUtf8 (repairUtf8 [97; 0xa9; 0xc3; 0xa9]) = true.
Proof.
  split; [reflexivity|]. apply (utf8_exact [97; 0xa9; 0xc3; 0xa9]). repeat constructor; lia.
Defined.

(** Boundary cases. *)
Example fromHex_odd : fromHex (str "abc") = None.
Proof. reflexivity. Qed.
Example split_trims : split (str " a, ,b ") 44 false = [str "a"; str "b"].
Proof. reflexivity. Qed.
Example split_keeps_empty : split (str "a,,b") 44 true = [str "a"; []; str "b"].
Proof. reflexivity. Qed.
Example toInt_overflow : toInt (str "9223372036854775808") = None.
Proof. reflexivity. Qed.

(** The header says that [toInt] takes no signs; it takes this one. *)
Example toInt_minus_zero : toInt (str "-0") = Some 0.
Proof. reflexivity. Qed.
End TextExamples.
