(* ===== verification/Gid.v ===== *)
(** * Task identifiers: [src/core/Gid.cc], [Engine::find] of [src/core/Engine.cc]

    The text form of a GID and the search for a task by a GID or a prefix. *)

From Stdlib Require Import String.
From S2P Require Import Prelude StdMap Bytes.

Module Gid.
Import Bytes.

(** [{:016x}]. *)
Definition gidText (gid : Z) : bytes := digitChar <$> digits 16 16 gid.

Definition parseGid (text : bytes) : option Z :=
  match fromCharsU64 16 text with
  | Some (gid, rest) =>
      if negb (len text =? 16) || negb (bool_decide (rest = [])) || (gid =? 0) then None else Some gid
  | None => None
  end.

Definition hexDigits : bytes := str "0123456789abcdefABCDEF".

(** The loop over [tasks_]; [found] is [match]. *)
Fixpoint prefixLoop (text : bytes) (found : option Z) (tasks : stdmap Z Z) : option Z :=
  match tasks with
  | [] => found
  | (gid, task) :: rest =>
      if starts_with text (gidText gid) then
        match found with
        | Some _ => None (* ambiguous prefix *)
        | None => prefixLoop text (Some task) rest
        end
      else prefixLoop text found rest
  end.

Definition find_text (text : bytes) (tasks : stdmap Z Z) : option Z :=
  match parseGid text with
  | Some gid => find gid tasks
  | None =>
      if bool_decide (text = []) || (16 <? len text) ||
         negb (forallb (fun c => bool_decide (c ∈ hexDigits)) text)
      then None
      else prefixLoop text None tasks
  end.

(** ** Lemmas *)

Lemma parse_gidText g : 0 < g < 2 ^ 64 -> parseGid (gidText g) = Some g.
Proof.
  intros Hg. unfold parseGid, fromCharsU64.
  assert (takeDigits 16 0 (gidText g) = (g, [])) as Ht.
  { apply takeDigits_digits; [lia|]. change (16 ^ Z.of_nat 16) with (2 ^ 64). lia. }
  assert (len (gidText g) = 16) as Hl.
  { unfold len, gidText. by rewrite length_fmap, length_digits. }
  assert (digitFirst 16 (gidText g) = true) as Hf.
  { destruct (gidText g) as [|c s] eqn:E; [done|]. simpl. apply bool_decide_eq_true.
    destruct (digitValue 16 c) eqn:Ev; [by eexists|]. simpl in Ht. rewrite Ev in Ht. done. }
  rewrite Hf, Ht, Hl. destruct (Z.ltb_spec g (2 ^ 64)); [|lia].
  destruct (Z.eqb_spec g 0); [lia|]. done.
Qed.

Lemma prefixLoop_found text t tasks :
  prefixLoop text (Some t) tasks =
  if existsb (fun '(g, _) => starts_with text (gidText g)) tasks then None else Some t.
Proof.
  induction tasks as [|[g x] tasks IH]; simpl; [done|]. by destruct (starts_with text (gidText g)).
Qed.

Lemma prefixLoop_spec text tasks t :
  prefixLoop text None tasks = Some t <->
  exists l1 g l2, tasks = l1 ++ (g, t) :: l2 /\ starts_with text (gidText g) = true /\
    Forall (fun e => starts_with text (gidText e.1) = false) (l1 ++ l2).
Proof.
  induction tasks as [|[g x] tasks IH]; simpl.
  { split; [done|]. intros ([] & ? & ? & ? & _); done. }
  destruct (starts_with text (gidText g)) eqn:Hg.
  - rewrite prefixLoop_found. destruct (existsb _ tasks) eqn:He.
    + split; [done|]. intros ([|e l1] & g' & l2 & E & Hg' & Hall); exfalso; simplify_eq/=.
      * apply existsb_exists in He as ([g2 x2] & Hin & H2). apply list_elem_of_In in Hin.
        rewrite Forall_forall in Hall. specialize (Hall _ Hin). simpl in Hall. congruence.
      * apply Forall_cons in Hall as [Hc _]. simpl in Hc. congruence.
    + split.
      * intros [= <-]. exists [], g, tasks. split_and!; [done|done|]. simpl. apply Forall_forall.
        intros [g2 x2] Hin. simpl. destruct (starts_with text (gidText g2)) eqn:H2; [|done].
        enough (existsb (fun '(g, _) => starts_with text (gidText g)) tasks = true) by congruence.
        apply existsb_exists. exists (g2, x2). split; [by apply list_elem_of_In|done].
      * intros ([|e l1] & g' & l2 & E & Hg' & Hall); simplify_eq/=; [done|].
        apply Forall_cons in Hall as [Hc _]. simpl in Hc. congruence.
  - rewrite IH. split.
    + intros (l1 & g' & l2 & -> & Hg' & Hall). exists ((g, x) :: l1), g', l2.
      split_and!; [done|done|by constructor].
    + intros ([|e l1] & g' & l2 & E & Hg' & Hall); simplify_eq/=; [congruence|].
      apply Forall_cons in Hall as [_ Hall]. by exists l1, g', l2.
Qed.

Lemma gidText_lower g : Forall (fun c => 48 <= c <= 57 \/ 97 <= c <= 102) (gidText g).
Proof.
  unfold gidText. generalize 16%nat. intros fuel. revert g.
  induction fuel as [|fuel IH]; intros g; simpl; [constructor|]. rewrite fmap_app. apply Forall_app.
  split; [done|]. constructor; [|constructor]. pose proof (Z.mod_pos_bound g 16 ltac:(lia)).
  unfold digitChar. zcase; lia.
Qed.

Lemma starts_with_app p s : starts_with p s = true <-> exists t, s = p ++ t.
Proof.
  revert s. induction p as [|x p IH]; intros s; simpl; [split; [by exists s|done]|].
  destruct s as [|y s]; [split; [done|by intros (t & ?)]|].
  rewrite andb_true_iff, Z.eqb_eq, IH. split.
  - intros [-> [t ->]]. by exists t.
  - intros [t [= -> ->]]. split; [done|by exists t].
Qed.

(** An upper-case prefix passes the check of its digits and finds nothing. *)
Lemma uppercase_prefix text tasks c :
  c ∈ text -> 65 <= c <= 70 -> parseGid text = None -> find_text text tasks = None.
Proof.
  intros Hin Hc Hp. unfold find_text. rewrite Hp. destruct (_ || _); [done|].
  destruct (prefixLoop text None tasks) as [t|] eqn:E; [|done]. exfalso.
  apply prefixLoop_spec in E as (l1 & g & l2 & _ & Hs & _).
  apply starts_with_app in Hs as [rest Hs]. pose proof (gidText_lower g) as Hl. rewrite Hs in Hl.
  apply Forall_app in Hl as [Hl _]. rewrite Forall_forall in Hl. specialize (Hl c Hin). lia.
Qed.
(** ** Properties *)

(** The text of a GID names its task; any other text finds a task exactly
    if it is a non-empty string of hexadecimal digits that begins the GID of
    this task and of no other. As a GID is printed in lower case, a prefix with
    an upper-case digit passes the check of its digits and finds nothing,
    although a full GID in upper case is accepted. *)
Lemma find_by_text text tasks :
  Forall (fun e => 0 < e.1 < 2 ^ 64) tasks ->
  (forall g, 0 < g < 2 ^ 64 -> find_text (gidText g) tasks = find g tasks) /\
  (parseGid text = None -> forall t,
    find_text text tasks = Some t <->
    (text <> [] /\ len text <= 16 /\ Forall (fun c => c ∈ hexDigits) text) /\
    exists l1 g l2, tasks = l1 ++ (g, t) :: l2 /\ (exists rest, gidText g = text ++ rest) /\
      Forall (fun e => ~ exists rest, gidText e.1 = text ++ rest) (l1 ++ l2)) /\
  (parseGid text = None -> forall c, c ∈ text -> 65 <= c <= 70 -> find_text text tasks = None).
Proof.
  intros Hall. split_and!.
  { intros g Hg. unfold find_text. by rewrite parse_gidText. }
  2:{ intros Hp c Hc Hr. by apply uppercase_prefix with c. }
  intros Hp t. unfold find_text. rewrite Hp.
  assert (forall e : Z * Z, starts_with text (gidText e.1) = false <->
    ~ exists rest, gidText e.1 = text ++ rest) as Hn.
  { intros e. rewrite <- not_true_iff_false, starts_with_app. done. }
  assert (forallb (fun c => bool_decide (c ∈ hexDigits)) text = true <->
    Forall (fun c => c ∈ hexDigits) text) as Hh.
  { rewrite forallb_forall, Forall_forall.
    split; intros H x Hx; [apply (bool_decide_eq_true (x ∈ hexDigits))|apply bool_decide_eq_true];
      by apply H, list_elem_of_In. }
  destruct (_ || _) eqn:Hg.
  - split; [done|]. intros [(H1 & H2 & H3) _]. apply Hh in H3. rewrite H3, orb_false_r in Hg.
    apply orb_true_iff in Hg as [Hg%bool_decide_eq_true|Hg%Z.ltb_lt]; [done|lia].
  - apply orb_false_iff in Hg as [[H1%bool_decide_eq_false H2%Z.ltb_ge]%orb_false_iff H3%negb_false_iff].
    rewrite prefixLoop_spec. apply Hh in H3. split.
    + intros (l1 & g & l2 & E & Hs & Hf). split; [done|]. exists l1, g, l2.
      split_and!; [done|by apply starts_with_app|]. eapply Forall_impl; [exact Hf|]. exact (fun e => proj1 (Hn e)).
    + intros [_ (l1 & g & l2 & E & Hs & Hf)]. exists l1, g, l2.
      split_and!; [done|by apply starts_with_app|]. eapply Forall_impl; [exact Hf|]. exact (fun e => proj2 (Hn e)).
Qed.

End Gid.

Module GidExamples.
Import Bytes Gid.

Definition someTasks : stdmap Z Z := [(0xabc, 3); (0x2089b05ecca3d829, 1); (0x2089b05ecca3d82a, 2)].

Lemma find_by_text_witness :
  gidText 0x2089b05ecca3d829 = str "2089b05ecca3d829" /\
  find_text (str "2089b05ecca3d829") someTasks = Some 1 /\
  find_text (str "2089") someTasks = None /\
  find_text (gidText 0xabc) someTasks = find 0xabc someTasks /\
  find_text (str "0000000000000ab") someTasks = Some 3 /\
  find_text (str "0000000000000AB") someTasks = None /\
  find_text (str "0000000000000ABC") someTasks = Some 3.
Proof.
  destruct (find_by_text (str "0000000000000AB") someTasks) as (H1 & _ & H3);
    [repeat constructor; simpl; lia|].
  do 3 (split; [reflexivity|]). split; [apply H1; lia|]. split; [reflexivity|].
  split; [|reflexivity]. apply (H3 eq_refl 65); [|lia]. vm_compute. do 13 right. left.
Defined.
End GidExamples.
