(* ===== verification/Wire.v ===== *)
(** * Reading and writing protocol data

    The parsers of [src/ed2k] walk through a [std::string] with an offset they
    pass by reference: a reader is a function of the data and the offset. It
    returns a value and the new offset, or an error: a thrown [ProtocolError],
    an access outside the data, a loop that has not ended, or memory that was
    refused. The lemmas say
    when a reader reads back what was written, and that it never leaves the
    data. *)

From Stdlib Require Import String.
From S2P Require Import Prelude Bytes.

Module Wire.
Import Bytes.

Inductive exn :=
| ProtocolError (message : string)
| OutOfBounds
| OutOfFuel
| BadAlloc.

Inductive result (A : Type) :=
| Ok (a : A)
| Err (e : exn).
Arguments Ok {A} a.
Arguments Err {A} e.

Definition reader (A : Type) : Type := bytes -> Z -> result (A * Z).

#[export] Instance result_ret : MRet result := fun A a => Ok a.
#[export] Instance result_bind : MBind result :=
  fun A B k r => match r with Ok a => k a | Err e => Err e end.
#[export] Instance reader_ret : MRet reader := fun A a data offset => Ok (a, offset).
#[export] Instance reader_bind : MBind reader := fun A B k r data offset =>
  match r data offset with Ok (a, offset') => k a data offset' | Err e => Err e end.

Definition throw {A} (message : string) : reader A := fun _ _ => Err (ProtocolError message).
Definition lift {A} (r : result A) : reader A :=
  fun _ offset => match r with Ok a => Ok (a, offset) | Err e => Err e end.
(** [data.size()], [offset] and [offset = v]. *)
Definition size : reader Z := fun data offset => Ok (len data, offset).
Definition tell : reader Z := fun _ offset => Ok (offset, offset).
Definition seek (v : Z) : reader unit := fun _ _ => Ok (tt, v).
(** The data itself. *)
Definition whole : reader bytes := fun data offset => Ok (data, offset).

(** Runs a reader from the start. *)
Definition parse {A} (r : reader A) (data : bytes) : result A :=
  match r data 0 with Ok (a, _) => Ok a | Err e => Err e end.

(** [p[i]] for a pointer to the first byte of [p]. *)
Definition at_ (p : bytes) (i : Z) : result Z :=
  if i <? 0 then Err OutOfBounds
  else match p !! Z.to_nat i with Some b => Ok b | None => Err OutOfBounds end.

(** [values.reserve(n)] for a number that was read and not checked: [alloc]
    says for how many values there is memory. *)
Definition reserve (alloc : Z -> bool) (n : Z) : reader unit :=
  fun _ offset => if alloc n then Ok (tt, offset) else Err BadAlloc.

(** The loop [for (i = 0; i < n; ++i) values.push_back(r())]. *)
Fixpoint readMany {A} (n : nat) (r : reader A) : reader (list A) :=
  match n with
  | O => mret []
  | S n' => x ← r; xs ← readMany n' r; mret (x :: xs)
  end.

(** [while (offset < data.size()) body]; the body goes on with a new state, or
    returns from the function that has the loop. *)
Fixpoint whileMore {A B} (fuel : nat) (body : A -> reader (A + B)) (state : A) : reader (A + B) :=
  match fuel with
  | O => fun _ _ => Err OutOfFuel
  | S fuel =>
      offset ← tell; n ← size;
      if offset <? n then
        s ← body state;
        match s with inl state => whileMore fuel body state | inr b => mret (inr b) end
      else mret (inl state)
  end.
(** Each round reads a byte, so the data's length bounds the rounds. *)
Definition loop {A B} (body : A -> reader (A + B)) (state : A) : reader (A + B) :=
  data ← whole; whileMore (S (length data)) body state.

(** The loop [for (const auto& x : l) payload += write(x)]. *)
Fixpoint appendAll {A} (write : A -> result bytes) (l : list A) (payload : bytes) : result bytes :=
  match l with
  | [] => mret payload
  | x :: l => b ← write x; appendAll write l (payload ++ b)
  end.

(** ** Reading back what was written *)

(** [rest] lies ahead. *)
Definition ahead (data : bytes) (offset : Z) (rest : bytes) : Prop :=
  0 <= offset <= len data /\ drop (Z.to_nat offset) data = rest.

Definition reads {A} (r : reader A) (b : bytes) (v : A) : Prop :=
  forall data offset rest, ahead data offset (b ++ rest) -> r data offset = Ok (v, offset + len b).

Lemma ahead_start data : ahead data 0 data.
Proof. split; [pose proof (len_nonneg data); lia|]. apply drop_0. Qed.

Lemma ahead_step data offset b rest :
  ahead data offset (b ++ rest) -> ahead data (offset + len b) rest.
Proof.
  intros [Ho Hd]. apply (f_equal length) in Hd as Hl. rewrite length_drop, length_app in Hl.
  unfold ahead, len in *. split; [lia|]. rewrite Z2Nat.inj_add, <- drop_drop, Hd, Nat2Z.id by lia.
  apply drop_app_length.
Qed.

Lemma ahead_end data offset : ahead data offset [] -> offset = len data.
Proof.
  intros [Ho Hd]. apply (f_equal length) in Hd. rewrite length_drop in Hd. unfold len in *.
  simpl in Hd. lia.
Qed.

Lemma reads_ret {A} (v : A) : reads (mret v) [] v.
Proof. intros data offset rest _. unfold mret, reader_ret. rewrite len_nil. do 2 f_equal. lia. Qed.

Lemma reads_bind {A B} (r : reader A) (k : A -> reader B) b c v w :
  reads r b v -> reads (k v) c w -> reads (x ← r; k x) (b ++ c) w.
Proof.
  intros Hr Hk data offset rest Ha. rewrite <- app_assoc in Ha. unfold mbind, reader_bind.
  rewrite (Hr _ _ _ Ha). rewrite (Hk _ _ _ (ahead_step _ _ _ _ Ha)), len_app. do 2 f_equal. lia.
Qed.

Lemma reads_last {A B} (r : reader A) (k : A -> reader B) b v w :
  reads r b v -> reads (k v) [] w -> reads (x ← r; k x) b w.
Proof. intros Hr Hk. rewrite <- (app_nil_r b). by eapply reads_bind. Qed.
Lemma reads_first {A B} (r : reader A) (k : A -> reader B) b v w :
  reads r [] v -> reads (k v) b w -> reads (x ← r; k x) b w.
Proof. intros Hr Hk. by apply (reads_bind r k [] b v w). Qed.

Lemma reads_lift {A} (r : result A) v : r = Ok v -> reads (lift r) [] v.
Proof. intros -> data offset rest _. simpl. do 2 f_equal. rewrite len_nil. lia. Qed.

Lemma reads_parse {A} (r : reader A) b v : reads r b v -> parse r b = Ok v.
Proof.
  intros Hr. unfold parse. rewrite (Hr b 0 []); [done|]. rewrite app_nil_r. apply ahead_start.
Qed.

Lemma reads_many {A} (r : reader A) (write : A -> bytes) l :
  (forall x, x ∈ l -> reads r (write x) x) -> reads (readMany (length l) r) (l ≫= write) l.
Proof.
  induction l as [|x l IH]; intros Hl; [apply reads_ret|]. rewrite bind_cons. simpl.
  eapply reads_bind; [apply Hl; left|]. rewrite <- (app_nil_r (l ≫= write)).
  eapply reads_bind; [apply IH; intros y Hy; apply Hl; by right|]. apply reads_ret.
Qed.

(** What a loop wrote is read by a loop; [f] is what the reader makes of an
    element, and [n] what an element takes. *)
Lemma appendAll_reads {A B} (r : reader B) (write : A -> result bytes) (f : A -> B) n l payload :
  (forall x, x ∈ l -> exists b, write x = Ok b /\ len b = n /\ reads r b (f x)) ->
  exists b, appendAll write l payload = Ok (payload ++ b) /\ len b = n * len l /\
    reads (readMany (length l) r) b (f <$> l).
Proof.
  revert payload. induction l as [|x l IH]; intros payload Hl.
  - exists []. rewrite app_nil_r, !len_nil. split_and!; [done|by rewrite Z.mul_0_r|apply reads_ret].
  - destruct (Hl x) as (b & Hb & Hn & Hr); [left|].
    destruct (IH (payload ++ b)) as (c & Hc & Hm & Hrs); [intros y Hy; apply Hl; by right|].
    exists (b ++ c). simpl appendAll. unfold mbind, result_bind. rewrite Hb, Hc, <- app_assoc.
    split; [done|]. rewrite len_app, len_cons, Hn, Hm. split; [ring|]. simpl.
    eapply reads_bind; [done|]. eapply reads_last; [done|]. apply reads_ret.
Qed.

Lemma ahead_room data offset b rest :
  ahead data offset (b ++ rest) -> offset + len b + len rest = len data.
Proof.
  intros [Ho Hd]. apply (f_equal length) in Hd. rewrite length_drop, length_app in Hd. unfold len in *. lia.
Qed.

(** The reader reads [b], the last data, from offset [o] to the end [n]. *)
Definition ends {A} (r : reader A) (o n : Z) (b : bytes) (v : A) : Prop :=
  forall data, ahead data o b -> len data = n -> r data o = Ok (v, n).

Lemma ends_parse {A} (r : reader A) b v : ends r 0 (len b) b v -> parse r b = Ok v.
Proof. intros Hr. unfold parse. by rewrite (Hr b (ahead_start b) eq_refl). Qed.
Lemma ends_bind {A B} (r : reader A) (k : A -> reader B) o n b c v w :
  reads r b v -> ends (k v) (o + len b) n c w -> ends (x ← r; k x) o n (b ++ c) w.
Proof.
  intros Hr Hk data Ha Hn. unfold mbind, reader_bind. rewrite (Hr _ _ _ Ha).
  by rewrite (Hk data (ahead_step _ _ _ _ Ha) Hn).
Qed.
Lemma ends_last {A B} (r : reader A) (k : A -> reader B) o n b v w :
  reads r b v -> ends (k v) (o + len b) n [] w -> ends (x ← r; k x) o n b w.
Proof. intros Hr Hk. rewrite <- (app_nil_r b). by eapply ends_bind. Qed.
Lemma ends_ret {A} (v : A) o n : ends (mret v) o n [] v.
Proof. intros data Ha Hn. unfold mret, reader_ret. do 2 f_equal. rewrite (ahead_end _ _ Ha). done. Qed.
Lemma ends_tell {A} (k : Z -> reader A) o n b v : ends (k o) o n b v -> ends (x ← tell; k x) o n b v.
Proof. done. Qed.
Lemma ends_size {A} (k : Z -> reader A) o n b v : ends (k n) o n b v -> ends (x ← size; k x) o n b v.
Proof. intros Hk data Ha Hn. unfold mbind, reader_bind, size. rewrite Hn. by apply Hk. Qed.
Lemma ends_reads {A} (r : reader A) o b v : reads r b v -> ends r o (o + len b) b v.
Proof. intros Hr data Ha _. apply (Hr data o []). by rewrite app_nil_r. Qed.

(** ** Staying inside the data *)

Definition within (data : bytes) (offset : Z) : Prop := 0 <= offset <= len data.

Definition harmless (e : exn) : Prop := exists message, e = ProtocolError message.

Definition safe {A} (r : reader A) : Prop :=
  forall data offset, within data offset ->
  match r data offset with
  | Ok (_, offset') => offset <= offset' /\ within data offset'
  | Err e => harmless e
  end.

(** A result that is no access outside the data and no endless loop. *)
Definition sane {A} (r : result A) : Prop :=
  match r with Ok _ => True | Err e => harmless e end.

Create HintDb wire.

(** Runs the binds of a computation whose parts are known. *)
Ltac monad := unfold mbind, mret, result_bind, result_ret, reader_bind, reader_ret; cbv beta iota.

Lemma sane_bind {A B} (r : result A) (k : A -> result B) :
  sane r -> (forall v, sane (k v)) -> sane (x ← r; k x).
Proof. intros Hr Hk. destruct r; [apply Hk|done]. Qed.
Lemma safe_ret {A} (v : A) : safe (mret v).
Proof. intros data offset Hw. simpl. split; [lia|done]. Qed.
Lemma safe_throw {A} message : safe (@throw A message).
Proof. intros data offset _. by eexists. Qed.
Lemma safe_bind {A B} (r : reader A) (k : A -> reader B) :
  safe r -> (forall v, safe (k v)) -> safe (x ← r; k x).
Proof.
  intros Hr Hk data offset Hw. unfold mbind, reader_bind. specialize (Hr data offset Hw).
  destruct (r data offset) as [[a o]|e]; [|done]. destruct Hr as [Ho Hw'].
  specialize (Hk a data o Hw'). destruct (k a data o) as [[b o']|e]; [|done].
  split; [lia|apply Hk].
Qed.
Lemma safe_lift {A} (r : result A) : sane r -> safe (lift r).
Proof. intros Hr data offset Hw. destruct r; simpl in *; [split; [lia|done]|done]. Qed.
Lemma safe_size : safe size.
Proof. intros data offset Hw. simpl. split; [lia|done]. Qed.
Lemma safe_tell : safe tell.
Proof. intros data offset Hw. simpl. split; [lia|done]. Qed.
Lemma safe_whole : safe whole.
Proof. intros data offset Hw. simpl. split; [lia|done]. Qed.
Lemma safe_if {A} (c : bool) (r r' : reader A) : safe r -> safe r' -> safe (if c then r else r').
Proof. by destruct c. Qed.
Lemma safe_many {A} n (r : reader A) : safe r -> safe (readMany n r).
Proof.
  intros Hr. induction n as [|n IH]; simpl; [apply safe_ret|].
  apply safe_bind; [done|]. intros x. apply safe_bind; [done|]. intros xs. apply safe_ret.
Qed.
Lemma safe_parse {A} (r : reader A) data : safe r -> sane (parse r data).
Proof.
  intros Hr. unfold parse, sane. specialize (Hr data 0).
  destruct (r data 0) as [[a o]|e]; [done|]. apply Hr. split; [done|]. apply len_nonneg.
Qed.

(** *** Memory *)

(** The first reader is the second, but for memory that is refused. *)
Definition allocates {A} (alloc : Z -> bool) (r r0 : reader A) : Prop :=
  forall data offset, r data offset = r0 data offset \/
    (r data offset = Err BadAlloc /\ exists n, alloc n = false).

Lemma allocates_refl {A} alloc (r : reader A) : allocates alloc r r.
Proof. intros data offset. by left. Qed.
Lemma allocates_bind {A B} alloc (r r0 : reader A) (k k0 : A -> reader B) :
  allocates alloc r r0 -> (forall v, allocates alloc (k v) (k0 v)) -> allocates alloc (x ← r; k x) (x ← r0; k0 x).
Proof.
  intros Hr Hk data offset. monad. destruct (Hr data offset) as [->|[-> ?]]; [|by right].
  destruct (r0 data offset) as [[v o]|]; [apply Hk|by left].
Qed.
Lemma allocates_many {A} alloc n (r r0 : reader A) : allocates alloc r r0 -> allocates alloc (readMany n r) (readMany n r0).
Proof.
  intros Hr. induction n as [|n IH]; [apply allocates_refl|]. cbn [readMany].
  apply allocates_bind; [done|]. intros x. apply allocates_bind; [done|]. intros xs. apply allocates_refl.
Qed.
Lemma allocates_reserve alloc n : allocates alloc (reserve alloc n) (mret tt).
Proof. intros data offset. unfold reserve. destruct (alloc n) eqn:E; [by left|right]. split; [done|by exists n]. Qed.
Lemma allocates_if {A} alloc (c : bool) (r r0 q q0 : reader A) :
  allocates alloc r r0 -> allocates alloc q q0 -> allocates alloc (if c then r else q) (if c then r0 else q0).
Proof. by destruct c. Qed.
Lemma allocates_parse {A} alloc (r r0 : reader A) data :
  allocates alloc r r0 -> parse r data = parse r0 data \/ (parse r data = Err BadAlloc /\ exists n, alloc n = false).
Proof. intros Hr. unfold parse. destruct (Hr data 0) as [->|[-> ?]]; [by left|by right]. Qed.
Lemma reads_reserve alloc n : alloc n = true -> reads (reserve alloc n) [] tt.
Proof. intros E data offset rest _. unfold reserve. rewrite E, len_nil. do 2 f_equal. lia. Qed.

(** A reader that reads at least a byte. *)
Definition eats {A} (r : reader A) : Prop :=
  forall data offset v offset', within data offset -> r data offset = Ok (v, offset') -> offset < offset'.

Lemma eats_bind {A B} (r : reader A) (k : A -> reader B) :
  safe r -> eats r -> (forall v, safe (k v)) -> eats (x ← r; k x).
Proof.
  intros Hs Hr Hk data offset v o' Hw. unfold mbind, reader_bind. specialize (Hs data offset Hw).
  destruct (r data offset) as [[a o]|e] eqn:E; [|done]. specialize (Hr _ _ _ _ Hw E). destruct Hs as [_ Hw'].
  specialize (Hk a data o Hw'). intros E'. rewrite E' in Hk. lia.
Qed.

Lemma safe_whileMore {A B} fuel (body : A -> reader (A + B)) state data offset :
  (forall s, safe (body s)) -> (forall s, eats (body s)) -> within data offset ->
  len data - offset < Z.of_nat fuel ->
  match whileMore fuel body state data offset with
  | Ok (_, offset') => offset <= offset' /\ within data offset'
  | Err e => harmless e
  end.
Proof.
  intros Hs He. revert state offset. induction fuel as [|fuel IH]; intros state offset Hw Hf.
  { destruct Hw. lia. }
  simpl. unfold tell, size. monad. destruct (Z.ltb_spec offset (len data)); [|split; [lia|done]].
  pose proof (Hs state data offset Hw) as H1.
  destruct (body state data offset) as [[s o]|e] eqn:E; [|done]. destruct H1 as [H1 H2].
  pose proof (He state _ _ _ _ Hw E) as H3. destruct s as [s|b]; [|split; [lia|done]].
  specialize (IH s o H2 ltac:(lia)). destruct (whileMore fuel body s data o) as [[? ?]|]; [|done].
  split; [lia|apply IH].
Qed.

Lemma safe_loop {A B} (body : A -> reader (A + B)) state :
  (forall s, safe (body s)) -> (forall s, eats (body s)) -> safe (loop body state).
Proof.
  intros Hs He data offset Hw. unfold loop, whole. monad. apply safe_whileMore; [done..|].
  unfold within, len in *. lia.
Qed.

(** Writing a list of values, each of which can be written. *)
Lemma appendAll_written {A} (write : A -> result bytes) (w : A -> bytes) l payload :
  Forall (fun x => write x = Ok (w x)) l -> appendAll write l payload = Ok (payload ++ (l ≫= w)).
Proof.
  intros Hl. revert payload. induction Hl as [|x l Hx Hl IH]; intros payload; cbn [appendAll].
  { by rewrite app_nil_r. }
  rewrite Hx. monad. by rewrite IH, bind_cons, app_assoc.
Qed.

End Wire.
