(* ===== verification/Packet.v ===== *)
(** * Packets, tags and endpoints: [src/ed2k/Packet.cc], [src/ed2k/Endpoint.cc]

    The primitives the protocol parsers share. Numbers are little-endian. *)

From Stdlib Require Import String.
From S2P Require Import Prelude Bytes Text Wire.

Module Packet.
Import Bytes Text Wire.

Definition HASH_LENGTH : Z := 16.
Definition AICH_HASH_LENGTH : Z := 20.

(** ** Reading *)

Definition truncated : string := "Truncated ED2K data.".

Definition readByte : reader Z := fun data offset =>
  if len data <=? offset then Err (ProtocolError truncated)
  else match at_ data offset with Ok b => Ok (b, offset + 1) | Err e => Err e end.

(** The length is a [size_t]. *)
Definition readBytes (length : Z) : reader bytes := fun data offset =>
  let length := u64 length in
  if (len data <? length) || (len data - length <? offset) then Err (ProtocolError truncated)
  else Ok (take (Z.to_nat length) (drop (Z.to_nat offset) data), offset + length).

Definition readUInt16 (p : bytes) : result Z :=
  b0 ← at_ p 0; b1 ← at_ p 1; mret (u16 (Z.lor b0 (Z.shiftl b1 8))).

Definition readUInt32 (p : bytes) : result Z :=
  b0 ← at_ p 0; b1 ← at_ p 1; b2 ← at_ p 2; b3 ← at_ p 3;
  mret (Z.lor (Z.lor (Z.lor (u32 b0) (u32 (Z.shiftl (u32 b1) 8))) (u32 (Z.shiftl (u32 b2) 16)))
          (u32 (Z.shiftl (u32 b3) 24))).

Definition readUInt64 (p : bytes) : result Z :=
  foldl (fun value i =>
    value ← value; b ← at_ p i; mret (Z.lor value (u64 (Z.shiftl (u64 b) (i * 8)))))
    (Ok 0) [0; 1; 2; 3; 4; 5; 6; 7].

(** [readUInt16(readBytes(data, offset, 2).data())] and the like. *)
Definition readU16 : reader Z := b ← readBytes 2; lift (readUInt16 b).
Definition readU32 : reader Z := b ← readBytes 4; lift (readUInt32 b).
Definition readU64 : reader Z := b ← readBytes 8; lift (readUInt64 b).

(** ** Writing *)

(** [static_cast<char>(value >> (i * 8))] for each [i < n]. *)
Definition pack (n : nat) (value : Z) : bytes :=
  (fun i => u8 (Z.shiftr value (Z.of_nat i * 8))) <$> seq 0 n.
Definition packUInt16 (value : Z) : bytes := pack 2 (u16 value).
Definition packUInt32 (value : Z) : bytes := pack 4 (u32 value).
Definition packUInt64 (value : Z) : bytes := pack 8 (u64 value).

Definition createPacket (protocol opcode : Z) (payload : bytes) : bytes :=
  [u8 protocol] ++ packUInt32 (len payload + 1) ++ [u8 opcode] ++ payload.

Definition createDatagram (protocol opcode : Z) (payload : bytes) : bytes :=
  [u8 protocol] ++ [u8 opcode] ++ payload.

Record PacketHeader := mkHeader { protocol : Z; headerSize : Z; opcode : Z }.
Definition payloadSize (h : PacketHeader) : Z := if headerSize h =? 0 then 0 else headerSize h - 1.

(** The header is written before the size is judged. *)
Definition readPacketHeader (header : PacketHeader) (data : bytes) : result (bool * PacketHeader) :=
  if len data <? 6 then mret (false, header)
  else
    p ← at_ data 0; s ← readUInt32 (drop 1 data); o ← at_ data 5;
    mret (0 <? s, mkHeader p s o).

Definition readDatagramHeader (header : PacketHeader) (data : bytes) : result (bool * PacketHeader) :=
  if len data <? 2 then mret (false, header)
  else
    p ← at_ data 0; o ← at_ data 1;
    mret (true, mkHeader p (u32 (len data - 1)) o).

(** ** Tags *)

Inductive TagValueType := UNKNOWN | STRING | UINT | HASH | BLOB.
#[export] Instance TagValueType_eq_dec : EqDecision TagValueType.
Proof. solve_decision. Defined.

Record Tag := mkTag {
  id : Z;
  name : bytes;
  rawType : Z;
  valueType : TagValueType;
  stringValue : bytes;
  intValue : Z;
  binaryValue : bytes;
}.

(** The part of [readTag] that reads the value. *)
Definition readTagValue (tagType : Z) : reader (TagValueType * bytes * Z * bytes) :=
  if tagType =? 0x01 then
    b ← readBytes HASH_LENGTH; mret (HASH, [], 0, b)
  else if tagType =? 0x02 then
    size ← readU16; s ← readBytes size; mret (STRING, s, 0, [])
  else if tagType =? 0x03 then
    v ← readU32; mret (UINT, [], v, [])
  else if tagType =? 0x07 then
    size ← readU32; b ← readBytes size; mret (BLOB, [], 0, b)
  else if tagType =? 0x08 then
    v ← readU16; mret (UINT, [], v, [])
  else if tagType =? 0x09 then
    v ← readByte; mret (UINT, [], v, [])
  else if tagType =? 0x0b then
    v ← readU64; mret (UINT, [], v, [])
  else if (0x11 <=? tagType) && (tagType <=? 0x20) then
    s ← readBytes (tagType - 0x11 + 1); mret (STRING, s, 0, [])
  else mret (UNKNOWN, [], 0, []).

Definition readTagName (tagTypeWithName : Z) : reader (Z * bytes) :=
  if negb (Z.land tagTypeWithName 0x80 =? 0) then
    id ← readByte; mret (id, [])
  else
    nameSize ← readU16; name ← readBytes nameSize;
    mret (match name with [c] => c | _ => 0 end, name).

Definition readTag : reader Tag :=
  tagTypeWithName ← readByte;
  let tagType := Z.land tagTypeWithName 0x7f in
  '(id, name) ← readTagName tagTypeWithName;
  '(vt, s, v, b) ← readTagValue tagType;
  mret (mkTag id name tagType vt s v b).

Definition createTagHeader (type id : Z) : bytes := [u8 (Z.lor type 0x80)] ++ [u8 id].
Definition createUInt32Tag (id value : Z) : bytes := createTagHeader 0x03 id ++ packUInt32 value.
Definition createUInt64Tag (id value : Z) : bytes := createTagHeader 0x0b id ++ packUInt64 value.
Definition createStringTag (id : Z) (value : bytes) : bytes :=
  if negb (bool_decide (value = [])) && (len value <=? 16)
  then createTagHeader (u8 (0x11 + len value - 1)) id ++ value
  else createTagHeader 0x02 id ++ packUInt16 (u16 (len value)) ++ value.

(** [tags] is the vector passed by reference. *)
Definition parseTagList (tags : list Tag) (payload : bytes) : result (bool * list Tag) :=
  if len payload <? 4 then mret (false, tags)
  else parse (
    count ← readU32;
    if 10000 <? count then mret (false, tags)
    else
      tags ← readMany (Z.to_nat count) readTag;
      offset ← tell; n ← size;
      mret (offset =? n, tags)) payload.

Definition validateHashLength (hash : bytes) : result unit :=
  if negb (len hash =? HASH_LENGTH) then Err (ProtocolError "Bad ED2K hash length.") else mret tt.

(** ** Endpoints *)

Record Endpoint := mkEndpoint {
  host : bytes;
  port : Z;
  cryptOptions : Z;
  userHash : bytes;
}.
Definition noEndpoint : Endpoint := mkEndpoint [] 0 0 [].

Definition ipv4FromEndpoint (ip : Z) : bytes :=
  dec (Z.land ip 0xff) ++ str "." ++ dec (Z.land (Z.shiftr ip 8) 0xff) ++ str "." ++
  dec (Z.land (Z.shiftr ip 16) 0xff) ++ str "." ++ dec (Z.land (Z.shiftr ip 24) 0xff).

Definition badAddress : string := "Bad ED2K IPv4 address".

(** [std::getline] gives the parts between the dots, but no empty part after
    the last one. *)
Definition getlines (s : bytes) : list bytes :=
  let l := parts 46 s in
  if bool_decide (last l = Some []) then take (length l - 1) l else l.

Definition ipv4ToEndpointValue (host : bytes) : result Z :=
  match getlines host with
  | [p0; p1; p2; p3] =>
      let octet p := match toInt p with
                     | Some v => if (v <? 0) || (255 <? v) then Err (ProtocolError badAddress) else Ok v
                     | None => Err (ProtocolError badAddress)
                     end in
      v0 ← octet p0; v1 ← octet p1; v2 ← octet p2; v3 ← octet p3;
      mret (Z.lor (Z.lor (Z.lor v0 (Z.shiftl v1 8)) (Z.shiftl v2 16)) (Z.shiftl v3 24))
  | _ => Err (ProtocolError badAddress)
  end.

Definition readEndpoint : reader Endpoint :=
  ip ← readU32; port ← readU16; mret (mkEndpoint (ipv4FromEndpoint ip) port 0 []).

Definition packEndpoint (endpoint : Endpoint) : result bytes :=
  ip ← ipv4ToEndpointValue (host endpoint);
  mret (packUInt32 ip ++ packUInt16 (port endpoint)).

(** ** Lemmas *)

(** *** Reading back *)

Lemma ahead_lookup data offset b rest :
  ahead data offset (b :: rest) -> offset < len data /\ at_ data offset = Ok b.
Proof.
  intros [Ho Hd]. assert (data !! Z.to_nat offset = Some b) as Hl.
  { rewrite <- (Nat.add_0_r (Z.to_nat offset)), <- lookup_drop, Hd. done. }
  apply lookup_lt_Some in Hl as Hlt. unfold len. split; [lia|]. unfold at_.
  destruct (Z.ltb_spec offset 0); [lia|]. by rewrite Hl.
Qed.

Lemma reads_byte b : reads readByte [b] b.
Proof.
  intros data offset rest Ha. destruct (ahead_lookup data offset b rest Ha) as [Hlt Hat].
  unfold readByte. destruct (Z.leb_spec (len data) offset); [lia|]. by rewrite Hat.
Qed.

Lemma reads_bytes n b : len b = n -> n < 2 ^ 64 -> reads (readBytes n) b b.
Proof.
  intros <- Hn data offset rest [Ho Hd]. unfold readBytes.
  rewrite u64_small by (pose proof (len_nonneg b); lia).
  apply (f_equal length) in Hd as Hl. rewrite length_drop, length_app in Hl. unfold len in *.
  destruct (Z.ltb_spec (Z.of_nat (length data)) (Z.of_nat (length b))); [lia|].
  destruct (Z.ltb_spec (Z.of_nat (length data) - Z.of_nat (length b)) offset); [lia|].
  simpl. rewrite Hd, Nat2Z.id, take_app_length. done.
Qed.

Lemma lor_shiftl v b n : 0 <= n -> 0 <= v < 2 ^ n -> Z.lor v (Z.shiftl b n) = v + b * 2 ^ n.
Proof. intros Hn Hv. rewrite Z.lor_comm, shiftl_lor by done. lia. Qed.
Lemma lor_mul v b n : 0 <= n -> 0 <= v < 2 ^ n -> Z.lor v (b * 2 ^ n) = v + b * 2 ^ n.
Proof. intros Hn Hv. rewrite <- (Z.shiftl_mul_pow2 b n Hn) at 1. by apply lor_shiftl. Qed.

(** The bytes of a number, lowest first. *)
Fixpoint littleEndian (n : nat) (v : Z) : bytes :=
  match n with O => [] | S n' => v mod 256 :: littleEndian n' (v / 256) end.

Lemma pack_littleEndian n v : pack n v = littleEndian n v.
Proof.
  unfold pack. assert (forall k, (fun i => u8 (Z.shiftr v (Z.of_nat i * 8))) <$> seq k n =
    littleEndian n (v / 2 ^ (Z.of_nat k * 8))) as H; [|rewrite H; by rewrite Z.div_1_r].
  induction n as [|n IH]; intros k; [done|]. simpl. rewrite Z.shiftr_div_pow2 by lia. unfold u8 at 1.
  f_equal. rewrite IH. f_equal. rewrite Z.div_div by lia. f_equal.
  change 256 with (2 ^ 8). rewrite <- Z.pow_add_r by lia. f_equal. lia.
Qed.

Lemma readUInt16_pack v : 0 <= v < 2 ^ 16 -> readUInt16 (pack 2 v) = Ok v.
Proof.
  intros Hv. rewrite pack_littleEndian. unfold readUInt16. simpl. f_equal.
  rewrite lor_shiftl by (change (2 ^ 8) with 256; dlia). rewrite u16_small; change (2 ^ 8) with 256; dlia.
Qed.

Lemma readUInt32_pack v : 0 <= v < 2 ^ 32 -> readUInt32 (pack 4 v) = Ok v.
Proof.
  intros Hv. rewrite pack_littleEndian. unfold readUInt32. simpl. f_equal.
  assert (forall x n, 0 <= x < 256 -> 0 <= n <= 24 -> u32 (Z.shiftl (u32 x) n) = Z.shiftl x n) as Hu.
  { intros x n Hx Hn. rewrite (u32_small x) by lia. apply u32_small.
    rewrite Z.shiftl_mul_pow2 by lia. split; [apply Z.mul_nonneg_nonneg; lia|].
    apply (Z.lt_le_trans _ (256 * 2 ^ n)); [apply Z.mul_lt_mono_pos_r; lia|].
    change (2 ^ 32) with (256 * 2 ^ 24). apply Z.mul_le_mono_nonneg_l; [lia|]. apply Z.pow_le_mono_r; lia. }
  rewrite !Hu by (try apply Z.mod_pos_bound; lia). clear Hu.
  rewrite u32_small by (change (2 ^ 32) with 4294967296; dlia). change (2 ^ 32) with 4294967296 in Hv.
  rewrite (lor_shiftl _ _ 8), (lor_shiftl _ _ 16), (lor_shiftl _ _ 24);
    change (2 ^ 8) with 256; change (2 ^ 16) with 65536; change (2 ^ 24) with 16777216; dlia.
Qed.

(** The loop of [readUInt64], a byte at a time. *)
Lemma readUInt64_step p value b k :
  at_ p k = Ok b -> 0 <= k < 8 -> 0 <= b < 256 -> 0 <= value < 2 ^ (k * 8) ->
  (value ← Ok value; b ← at_ p k; mret (Z.lor value (u64 (Z.shiftl (u64 b) (k * 8))))) =
    Ok (value + b * 2 ^ (k * 8)) /\ 0 <= value + b * 2 ^ (k * 8) < 2 ^ ((k + 1) * 8).
Proof.
  intros Hat Hk Hb Hv. simpl. rewrite Hat. simpl.
  assert (2 ^ ((k + 1) * 8) = 256 * 2 ^ (k * 8)) as E.
  { rewrite Z.mul_add_distr_r, Z.pow_add_r by lia. change (2 ^ (1 * 8)) with 256. lia. }
  assert (0 <= b * 2 ^ (k * 8) <= 255 * 2 ^ (k * 8)) as Hm by nia.
  assert (2 ^ (k * 8) <= 2 ^ 56) as Hk56 by (apply Z.pow_le_mono_r; lia).
  rewrite (u64_small b) by lia. rewrite Z.shiftl_mul_pow2, u64_small by lia.
  rewrite lor_mul by lia. split; [done|]. lia.
Qed.

Lemma readUInt64_pack v : 0 <= v < 2 ^ 64 -> readUInt64 (pack 8 v) = Ok v.
Proof.
  intros Hv. rewrite pack_littleEndian. unfold readUInt64.
  set (p := littleEndian 8 v).
  assert (exists b0 b1 b2 b3 b4 b5 b6 b7, p = [b0; b1; b2; b3; b4; b5; b6; b7] /\
    Forall byte_ok p /\ b0 + b1 * 2 ^ (1 * 8) + b2 * 2 ^ (2 * 8) + b3 * 2 ^ (3 * 8) + b4 * 2 ^ (4 * 8) +
      b5 * 2 ^ (5 * 8) + b6 * 2 ^ (6 * 8) + b7 * 2 ^ (7 * 8) = v) as
    (b0 & b1 & b2 & b3 & b4 & b5 & b6 & b7 & Ep & Hb & <-).
  { do 8 eexists. split; [reflexivity|]. split.
    - unfold p. simpl. repeat constructor; unfold byte_ok; by apply Z.mod_pos_bound.
    - simpl. dlia. }
  clearbody p. subst p. unfold byte_ok in Hb.
  repeat match goal with H : Forall _ (_ :: _) |- _ => apply Forall_cons in H as [? H] end.
  cbn [foldl]. clear Hv.
  destruct (readUInt64_step [b0; b1; b2; b3; b4; b5; b6; b7] 0 b0 0) as [E0 R0]; [done|lia..|].
  destruct (readUInt64_step [b0; b1; b2; b3; b4; b5; b6; b7] _ b1 1 eq_refl ltac:(lia) ltac:(lia) R0) as [E1 R1].
  destruct (readUInt64_step [b0; b1; b2; b3; b4; b5; b6; b7] _ b2 2 eq_refl ltac:(lia) ltac:(lia) R1) as [E2 R2].
  destruct (readUInt64_step [b0; b1; b2; b3; b4; b5; b6; b7] _ b3 3 eq_refl ltac:(lia) ltac:(lia) R2) as [E3 R3].
  destruct (readUInt64_step [b0; b1; b2; b3; b4; b5; b6; b7] _ b4 4 eq_refl ltac:(lia) ltac:(lia) R3) as [E4 R4].
  destruct (readUInt64_step [b0; b1; b2; b3; b4; b5; b6; b7] _ b5 5 eq_refl ltac:(lia) ltac:(lia) R4) as [E5 R5].
  destruct (readUInt64_step [b0; b1; b2; b3; b4; b5; b6; b7] _ b6 6 eq_refl ltac:(lia) ltac:(lia) R5) as [E6 R6].
  destruct (readUInt64_step [b0; b1; b2; b3; b4; b5; b6; b7] _ b7 7 eq_refl ltac:(lia) ltac:(lia) R6) as [E7 _].
  rewrite E0, E1, E2, E3, E4, E5, E6, E7. f_equal. lia.
Qed.

Lemma len_pack n v : len (pack n v) = Z.of_nat n.
Proof. unfold len, pack. by rewrite length_fmap, length_seq. Qed.

Lemma reads_u16 v : 0 <= v < 2 ^ 16 -> reads readU16 (packUInt16 v) v.
Proof.
  intros Hv. unfold readU16, packUInt16. rewrite u16_small by done.
  eapply reads_last; [by apply reads_bytes; [apply len_pack|]|]. apply reads_lift. by apply readUInt16_pack.
Qed.
Lemma reads_u32 v : 0 <= v < 2 ^ 32 -> reads readU32 (packUInt32 v) v.
Proof.
  intros Hv. unfold readU32, packUInt32. rewrite u32_small by done.
  eapply reads_last; [by apply reads_bytes; [apply len_pack|]|]. apply reads_lift. by apply readUInt32_pack.
Qed.
Lemma reads_u64 v : 0 <= v < 2 ^ 64 -> reads readU64 (packUInt64 v) v.
Proof.
  intros Hv. unfold readU64, packUInt64. rewrite u64_small by done.
  eapply reads_last; [by apply reads_bytes; [apply len_pack|]|]. apply reads_lift. by apply readUInt64_pack.
Qed.
Lemma reads_byte_u8 v : 0 <= v < 256 -> reads readByte [u8 v] v.
Proof. intros Hv. rewrite u8_small by done. apply reads_byte. Qed.

#[export] Hint Resolve reads_byte reads_byte_u8 reads_u16 reads_u32 reads_u64 reads_ret : wire.

(** *** Addresses *)

Lemma getlines_four a b c d :
  Forall (Forall digit) [a; b; c; d] -> d <> [] ->
  getlines (a ++ str "." ++ b ++ str "." ++ c ++ str "." ++ d) = [a; b; c; d].
Proof.
  intros Hall Hd. repeat match goal with H : Forall _ (_ :: _) |- _ => apply Forall_cons in H as [? H] end.
  assert (forall s, Forall digit s -> 46 ∉ s) as Hno by (intros s Hs; apply digits_no; [done|]; unfold digit; lia).
  unfold getlines. change (str ".") with [46]. simpl app.
  rewrite !parts_app, parts_last by auto. simpl. rewrite bool_decide_eq_false_2; [done|]. congruence.
Qed.

Lemma octets ip :
  0 <= ip < 2 ^ 32 ->
  Z.land ip 0xff = ip mod 256 /\ Z.land (Z.shiftr ip 8) 0xff = ip / 256 mod 256 /\
  Z.land (Z.shiftr ip 16) 0xff = ip / 65536 mod 256 /\ Z.land (Z.shiftr ip 24) 0xff = ip / 16777216 mod 256.
Proof.
  intros _. rewrite !Z.shiftr_div_pow2 by lia.
  split_and!; (etrans; [apply (land_low _ 8); lia|done]).
Qed.

Lemma ipv4_roundtrip ip : 0 <= ip < 2 ^ 32 -> ipv4ToEndpointValue (ipv4FromEndpoint ip) = Ok ip.
Proof.
  intros Hip. unfold ipv4ToEndpointValue, ipv4FromEndpoint.
  destruct (octets ip Hip) as (-> & -> & -> & ->).
  assert (forall v, 0 <= v mod 256 < 2 ^ 63) as Hm by (intros v; pose proof (Z.mod_pos_bound v 256); lia).
  rewrite getlines_four.
  2: { repeat constructor; apply dec_digits, Hm. }
  2: { apply dec_nonempty, Hm. }
  rewrite !toInt_dec by apply Hm.
  assert (forall v, (v mod 256 <? 0) || (255 <? v mod 256) = false) as Hr.
  { intros v. pose proof (Z.mod_pos_bound v 256 ltac:(lia)).
    destruct (Z.ltb_spec (v mod 256) 0); [lia|]. destruct (Z.ltb_spec 255 (v mod 256)); [lia|done]. }
  rewrite !Hr. simpl. unfold mret, result_ret. f_equal. change (2 ^ 32) with 4294967296 in Hip.
  rewrite (lor_shiftl _ _ 8), (lor_shiftl _ _ 16), (lor_shiftl _ _ 24);
    change (2 ^ 8) with 256; change (2 ^ 16) with 65536; change (2 ^ 24) with 16777216; dlia.
Qed.

(** An endpoint as [readEndpoint] makes them. *)
Definition plainEndpoint (e : Endpoint) : Prop :=
  0 <= port e < 2 ^ 16 /\ cryptOptions e = 0 /\ userHash e = [] /\
  exists ip, 0 <= ip < 2 ^ 32 /\ host e = ipv4FromEndpoint ip.

Lemma reads_endpoint e :
  plainEndpoint e -> exists b, packEndpoint e = Ok b /\ len b = 6 /\ reads readEndpoint b e.
Proof.
  destruct e as [h p c u]. intros (Hp & Hc & Hu & ip & Hip & Hh). simpl in *. subst.
  unfold packEndpoint. monad. cbn [host port]. rewrite ipv4_roundtrip by done.
  eexists. split; [reflexivity|].
  split; [unfold packUInt32, packUInt16; by rewrite len_app, !len_pack|].
  unfold readEndpoint. eapply reads_bind; [by apply reads_u32|].
  eapply reads_last; [by apply reads_u16|]. apply reads_ret.
Qed.

(** *** Tags *)

Lemma tagHeader type :
  0 <= type < 128 -> let h := u8 (Z.lor type 0x80) in
  Z.land h 0x7f = type /\ Z.land h 0x80 <> 0 /\ 0 <= h < 256.
Proof.
  intros Ht h. subst h.
  pose proof (forall_below 128 (fun type => let h := u8 (Z.lor type 0x80) in
    (Z.land h 0x7f =? type) && negb (Z.land h 0x80 =? 0) && (0 <=? h) && (h <? 256)) eq_refl type Ht) as H.
  cbv beta zeta in H. zprop. split_and!; lia.
Qed.

Lemma reads_tag type id value vt s v b :
  0 <= type < 128 -> 0 <= id < 256 -> reads (readTagValue type) value (vt, s, v, b) ->
  reads readTag (createTagHeader type id ++ value) (mkTag id [] type vt s v b).
Proof.
  intros Ht Hid Hv. destruct (tagHeader type Ht) as (H1 & H2 & H3). unfold readTag, createTagHeader.
  rewrite <- app_assoc. eapply reads_bind; [apply reads_byte|]. cbv beta zeta. rewrite H1.
  eapply (reads_bind _ _ [u8 id] _ (id, [])).
  - unfold readTagName. destruct (Z.eqb_spec (Z.land (u8 (Z.lor type 128)) 128) 0) as [E|E]; [done|]. simpl negb.
    cbv iota. eapply reads_last; [by apply reads_byte_u8|apply reads_ret].
  - eapply reads_last; [exact Hv|]. apply reads_ret.
Qed.

Lemma reads_uint32Tag id v :
  0 <= id < 256 -> 0 <= v < 2 ^ 32 -> reads readTag (createUInt32Tag id v) (mkTag id [] 3 UINT [] v []).
Proof.
  intros Hid Hv. apply reads_tag; [lia|done|]. unfold readTagValue. simpl Z.eqb. cbv iota.
  eapply reads_last; [by apply reads_u32|apply reads_ret].
Qed.

Lemma reads_uint64Tag id v :
  0 <= id < 256 -> 0 <= v < 2 ^ 64 -> reads readTag (createUInt64Tag id v) (mkTag id [] 0xb UINT [] v []).
Proof.
  intros Hid Hv. apply reads_tag; [lia|done|]. unfold readTagValue. simpl Z.eqb. cbv iota.
  eapply reads_last; [by apply reads_u64|apply reads_ret].
Qed.

Definition stringTagType (value : bytes) : Z :=
  if negb (bool_decide (value = [])) && (len value <=? 16) then 0x10 + len value else 2.

Lemma reads_stringTag id value :
  0 <= id < 256 -> len value < 2 ^ 16 ->
  reads readTag (createStringTag id value) (mkTag id [] (stringTagType value) STRING value 0 []).
Proof.
  intros Hid Hl. pose proof (len_nonneg value) as Hn. unfold createStringTag, stringTagType.
  destruct (negb _ && _) eqn:Hs.
  - zprop. apply bool_decide_eq_false in H. assert (1 <= len value) as H1.
    { destruct value; [done|]. rewrite len_cons. pose proof (len_nonneg value). lia. }
    replace (u8 (0x11 + len value - 1)) with (0x10 + len value) by (rewrite u8_small; lia).
    apply reads_tag; [lia|done|]. unfold readTagValue. set (n := 0x10 + len value).
    repeat match goal with |- context [n =? ?k] => destruct (Z.eqb_spec n k); [lia|] end. destruct (Z.leb_spec 0x11 n); [|lia].
    destruct (Z.leb_spec n 0x20); [|lia]. simpl andb. cbv iota.
    eapply reads_last; [apply reads_bytes; lia|]. apply reads_ret.
  - apply reads_tag; [lia|done|]. unfold readTagValue. simpl Z.eqb. cbv iota.
    rewrite u16_small by lia. eapply reads_bind; [apply reads_u16; lia|].
    eapply reads_last; [apply reads_bytes; lia|]. apply reads_ret.
Qed.

(** A list of tags behind its number. *)
Lemma parseTagList_written tags l (write : Tag -> bytes) :
  (forall t, t ∈ l -> reads readTag (write t) t) -> len l <= 10000 ->
  parseTagList tags (packUInt32 (len l) ++ (l ≫= write)) = Ok (true, l).
Proof.
  intros Hl Hc. pose proof (len_nonneg l) as Hn. unfold parseTagList. rewrite len_app.
  unfold packUInt32 at 1. rewrite len_pack. pose proof (len_nonneg (l ≫= write)) as Hw.
  destruct (Z.ltb_spec (Z.of_nat 4 + len (l ≫= write)) 4); [lia|].
  set (data := packUInt32 (len l) ++ (l ≫= write)). unfold parse. monad.
  rewrite (reads_u32 (len l) ltac:(lia) data 0 (l ≫= write) (ahead_start data)).
  destruct (Z.ltb_spec 10000 (len l)); [lia|]. monad.
  pose proof (ahead_step data 0 (packUInt32 (len l)) (l ≫= write) (ahead_start data)) as Ha.
  rewrite <- (app_nil_r (l ≫= write)) in Ha.
  replace (Z.to_nat (len l)) with (length l) by (unfold len; lia).
  rewrite (reads_many readTag write l Hl data _ [] Ha). unfold tell, size.
  rewrite (ahead_end _ _ (ahead_step _ _ _ _ Ha)), Z.eqb_refl. done.
Qed.

(** *** Staying inside the data *)

Lemma safe_byte : safe readByte.
Proof.
  intros data offset [H0 H1]. unfold readByte, at_. destruct (Z.leb_spec (len data) offset); [by eexists|].
  destruct (Z.ltb_spec offset 0); [lia|]. unfold len in *.
  destruct (lookup_lt_is_Some_2 data (Z.to_nat offset)) as [b ->]; [lia|]. unfold within, len. lia.
Qed.

Lemma safe_bytes n : safe (readBytes n).
Proof.
  intros data offset [H0 H1]. unfold readBytes.
  assert (0 <= u64 n) as Hn by by apply Z.mod_pos_bound.
  destruct (Z.ltb_spec (len data) (u64 n)); [by eexists|].
  destruct (Z.ltb_spec (len data - u64 n) offset); [by eexists|]. simpl. unfold within. lia.
Qed.

(** What [readBytes] gives has the length asked for. *)
Lemma bytes_length n data offset b o :
  within data offset -> 0 <= n < 2 ^ 64 -> readBytes n data offset = Ok (b, o) -> len b = n.
Proof.
  intros [H0 H1] Hn. unfold readBytes. rewrite u64_small by done.
  destruct (Z.ltb_spec (len data) n); [done|]. destruct (Z.ltb_spec (len data - n) offset); [done|].
  intros [= <- _]. unfold len in *. rewrite length_take, length_drop. lia.
Qed.

(** A fixed number of bytes, then a pointer to them. *)
Lemma safe_fixed {A} n (f : bytes -> result A) :
  0 <= n < 2 ^ 64 -> (forall b, len b = n -> sane (f b)) -> safe (b ← readBytes n; lift (f b)).
Proof.
  intros Hn Hf data offset Hw. pose proof (safe_bytes n data offset Hw) as Hs. monad.
  destruct (readBytes n data offset) as [[b o]|e] eqn:E; [|done].
  specialize (Hf b (bytes_length _ _ _ _ _ Hw Hn E)). unfold lift. by destruct (f b).
Qed.

Lemma safe_bytes_len {A} n (k : bytes -> reader A) :
  0 <= n < 2 ^ 64 -> (forall b, len b = n -> safe (k b)) -> safe (b ← readBytes n; k b).
Proof.
  intros Hn Hk data offset Hw. pose proof (safe_bytes n data offset Hw) as Hs. monad.
  destruct (readBytes n data offset) as [[b o]|e] eqn:E; [|done]. destruct Hs as [Ho Hw'].
  specialize (Hk b (bytes_length _ _ _ _ _ Hw Hn E) data o Hw').
  destruct (k b data o) as [[? ?]|]; [|done]. split; [lia|apply Hk].
Qed.

Lemma at_inside p i : 0 <= i < len p -> exists b, at_ p i = Ok b.
Proof.
  intros Hi. unfold at_. destruct (Z.ltb_spec i 0); [lia|]. unfold len in Hi.
  destruct (lookup_lt_is_Some_2 p (Z.to_nat i)) as [b ->]; [lia|]. by eexists.
Qed.

Lemma sane_u16 p : 2 <= len p -> sane (readUInt16 p).
Proof.
  intros Hp. unfold readUInt16. destruct (at_inside p 0) as [b0 ->]; [lia|].
  by destruct (at_inside p 1) as [b1 ->]; [lia|].
Qed.
Lemma sane_u32 p : 4 <= len p -> sane (readUInt32 p).
Proof.
  intros Hp. unfold readUInt32. destruct (at_inside p 0) as [b0 ->]; [lia|].
  destruct (at_inside p 1) as [b1 ->]; [lia|]. destruct (at_inside p 2) as [b2 ->]; [lia|].
  by destruct (at_inside p 3) as [b3 ->]; [lia|].
Qed.
Lemma sane_u64 p : 8 <= len p -> sane (readUInt64 p).
Proof.
  intros Hp. unfold readUInt64. cbn [foldl].
  destruct (at_inside p 0) as [b0 ->]; [lia|]. destruct (at_inside p 1) as [b1 ->]; [lia|].
  destruct (at_inside p 2) as [b2 ->]; [lia|]. destruct (at_inside p 3) as [b3 ->]; [lia|].
  destruct (at_inside p 4) as [b4 ->]; [lia|]. destruct (at_inside p 5) as [b5 ->]; [lia|].
  destruct (at_inside p 6) as [b6 ->]; [lia|]. by destruct (at_inside p 7) as [b7 ->]; [lia|].
Qed.

Lemma safe_u16 : safe readU16.
Proof. apply safe_fixed; [lia|]. intros b Hb. apply sane_u16. lia. Qed.
Lemma safe_u32 : safe readU32.
Proof. apply safe_fixed; [lia|]. intros b Hb. apply sane_u32. lia. Qed.
Lemma safe_u64 : safe readU64.
Proof. apply safe_fixed; [lia|]. intros b Hb. apply sane_u64. lia. Qed.

Lemma u16_range p v : readUInt16 p = Ok v -> 0 <= v < 2 ^ 16.
Proof.
  unfold readUInt16. monad. destruct (at_ p 0); [|done]. destruct (at_ p 1); [|done].
  intros [= <-]. by apply Z.mod_pos_bound.
Qed.
Lemma safe_u16_range {A} (k : Z -> reader A) :
  (forall v, 0 <= v < 2 ^ 16 -> safe (k v)) -> safe (v ← readU16; k v).
Proof.
  intros Hk data offset Hw. pose proof (safe_u16 data offset Hw) as Hs. monad.
  destruct (readU16 data offset) as [[v o]|e] eqn:E; [|done]. destruct Hs as [Ho Hw'].
  assert (0 <= v < 2 ^ 16) as Hv.
  { unfold readU16 in E. revert E. monad. destruct (readBytes 2 data offset) as [[b o']|]; [|done].
    unfold lift. destruct (readUInt16 b) eqn:E'; [|done]. intros [= <- _]. by eapply u16_range. }
  specialize (Hk v Hv data o Hw'). destruct (k v data o) as [[? ?]|]; [|done]. split; [lia|apply Hk].
Qed.
Lemma eats_byte : eats readByte.
Proof.
  intros data offset v o' Hw. unfold readByte. destruct (_ <=? _); [done|]. destruct (at_ data offset); [|done].
  intros [= _ <-]. lia.
Qed.

#[export] Hint Resolve safe_ret safe_throw safe_size safe_tell safe_whole safe_byte safe_bytes safe_u16
  safe_u32 safe_u64 safe_many safe_lift : wire.

(** Goes through a reader. *)
Ltac solve_safe :=
  repeat match goal with
  | |- safe (mbind _ _) => apply safe_bind; [|intros ?]
  | |- safe (if _ then _ else _) => apply safe_if
  | |- safe (let '(_, _) := ?x in _) => destruct x
  | |- safe (match ?x with _ => _ end) => destruct x
  | |- safe _ => solve [auto with wire nocore]
  end.

Lemma safe_tag : safe readTag.
Proof. unfold readTag, readTagName, readTagValue. solve_safe. Qed.
Lemma safe_endpoint : safe readEndpoint.
Proof. unfold readEndpoint. solve_safe. Qed.
#[export] Hint Resolve safe_tag safe_endpoint : wire.

Lemma sane_tagList tags payload : sane (parseTagList tags payload).
Proof.
  unfold parseTagList. destruct (_ <? _); [done|]. apply safe_parse. solve_safe.
Qed.
Lemma sane_validateHashLength hash : sane (validateHashLength hash).
Proof. unfold validateHashLength. destruct (negb _); [by eexists|done]. Qed.
Lemma sane_ipv4 h : sane (ipv4ToEndpointValue h).
Proof.
  unfold ipv4ToEndpointValue. destruct (getlines h) as [|p0 [|p1 [|p2 [|p3 [|]]]]]; try by eexists.
  assert (forall p, sane (match toInt p with
    | Some v => if (v <? 0) || (255 <? v) then Err (ProtocolError badAddress) else Ok v
    | None => Err (ProtocolError badAddress) end)) as Ho.
  { intros p. destruct (toInt p); [|by eexists]. destruct (_ || _); [by eexists|done]. }
  cbv beta zeta. repeat (apply sane_bind; [apply Ho|intros ?]). done.
Qed.
#[export] Hint Resolve sane_tagList sane_validateHashLength sane_ipv4 : wire.

(** *** Hashes and whole messages *)

Lemma hash_valid hash : len hash = HASH_LENGTH -> validateHashLength hash = Ok tt.
Proof. intros H. unfold validateHashLength. by rewrite H. Qed.
Lemma reads_hash hash : len hash = HASH_LENGTH -> reads (readBytes HASH_LENGTH) hash hash.
Proof. intros H. by apply reads_bytes. Qed.
Lemma same_hash (hash : bytes) : bool_decide (hash <> hash) = false.
Proof. apply bool_decide_eq_false_2. by intros []. Qed.


(** A reader that starts inside the data. *)
Lemma sane_seek {A} v (r : reader A) data :
  within data v -> safe r -> sane (parse (_ ← seek v; r) data).
Proof.
  intros Hw Hr. unfold parse, seek, sane. monad. specialize (Hr data v Hw). by destruct (r data v) as [[? ?]|].
Qed.

Ltac solve_sane := repeat first
  [ apply sane_bind; [solve [auto with wire nocore]|intros ?]
  | match goal with |- sane (if ?c then _ else _) => destruct c end
  | match goal with |- sane (let '(_, _) := ?x in _) => destruct x end
  | apply safe_parse; solve_safe
  | done ].

(** A reader of [k] bytes, which succeeds where there are [k] bytes. *)
Definition fits {A} (k : Z) (r : reader A) : Prop :=
  forall data offset, within data offset -> offset + k <= len data -> exists v, r data offset = Ok (v, offset + k).

Lemma fits_ret {A} (v : A) : fits 0 (mret v).
Proof. intros data offset Hw Hk. exists v. unfold mret, reader_ret. do 2 f_equal. lia. Qed.
Lemma fits_bind {A B} k m (r : reader A) (f : A -> reader B) :
  0 <= k -> 0 <= m -> fits k r -> (forall v, fits m (f v)) -> fits (k + m) (v ← r; f v).
Proof.
  intros Hk Hm Hr Hf data offset [H0 H1] Hl. destruct (Hr data offset) as [v Ev]; [done|lia|].
  destruct (Hf v data (offset + k)) as [w Ew]; [unfold within; lia|lia|]. exists w. monad. rewrite Ev, Ew.
  do 2 f_equal. lia.
Qed.
Lemma fits_bytes n : 0 <= n < 2 ^ 64 -> fits n (readBytes n).
Proof.
  intros Hn data offset [H0 H1] Hl. unfold readBytes. rewrite u64_small by done.
  destruct (Z.ltb_spec (len data) n); [lia|]. destruct (Z.ltb_spec (len data - n) offset); [lia|]. by eexists.
Qed.
Lemma fits_byte : fits 1 readByte.
Proof.
  intros data offset [H0 H1] Hl. unfold readByte. destruct (Z.leb_spec (len data) offset); [lia|].
  destruct (at_inside data offset) as [b ->]; [lia|]. by eexists.
Qed.
Lemma fits_fixed {A} n (f : bytes -> result A) :
  0 <= n < 2 ^ 64 -> (forall b, len b = n -> exists v, f b = Ok v) -> fits n (b ← readBytes n; lift (f b)).
Proof.
  intros Hn Hf data offset Hw Hl. destruct (fits_bytes n Hn data offset Hw Hl) as [b Eb]. monad.
  rewrite Eb. destruct (Hf b (bytes_length _ _ _ _ _ Hw Hn Eb)) as [v Ev]. exists v. unfold lift. by rewrite Ev.
Qed.
Lemma u16_ok p : 2 <= len p -> exists v, readUInt16 p = Ok v.
Proof.
  intros Hp. unfold readUInt16. destruct (at_inside p 0) as [b0 ->]; [lia|].
  destruct (at_inside p 1) as [b1 ->]; [lia|]. by eexists.
Qed.
Lemma u32_ok p : 4 <= len p -> exists v, readUInt32 p = Ok v.
Proof.
  intros Hp. unfold readUInt32. destruct (at_inside p 0) as [b0 ->]; [lia|].
  destruct (at_inside p 1) as [b1 ->]; [lia|]. destruct (at_inside p 2) as [b2 ->]; [lia|].
  destruct (at_inside p 3) as [b3 ->]; [lia|]. by eexists.
Qed.
Lemma fits_u16 : fits 2 readU16.
Proof. apply fits_fixed; [lia|]. intros b Hb. apply u16_ok. lia. Qed.
Lemma fits_u32 : fits 4 readU32.
Proof. apply fits_fixed; [lia|]. intros b Hb. apply u32_ok. lia. Qed.
Lemma fits_many {A} k n (r : reader A) : 0 <= k -> fits k r -> fits (k * Z.of_nat n) (readMany n r).
Proof.
  intros Hk Hr. induction n as [|n IH]; [rewrite Z.mul_0_r; apply fits_ret|]. cbn [readMany].
  replace (k * Z.of_nat (S n)) with (k + (k * Z.of_nat n + 0)) by lia.
  apply fits_bind; [lia|lia|done|]. intros v. apply fits_bind; [lia|lia|done|]. intros vs. apply fits_ret.
Qed.
Lemma fits_parse {A} k (r : reader A) data : fits k r -> k <= len data -> exists v, parse r data = Ok v.
Proof.
  intros Hr Hl. destruct (Hr data 0) as [v Ev]; [split; [done|apply len_nonneg]|lia|]. exists v. unfold parse. by rewrite Ev.
Qed.
End Packet.
