(* ===== verification/PeerProtocol.v ===== *)
(** * Messages between peers: [src/ed2k/PeerProtocol.cc]

    Each [create] function gives the payload it writes, or the error it
    throws. Each [parse] function takes the object it fills, and gives the
    returned [bool] with the object as the function leaves it. What an object
    holds after an exception is not stated. *)

From Stdlib Require Import String.
From S2P Require Import Prelude Bytes Text Wire Packet.

Module PeerProtocol.
Import Bytes Text Wire Packet.

Definition SOURCE_EXCHANGE2_VERSION : Z := 4.

Definition OP_SETREQFILEID : Z := 0x4f.
Definition OP_FILESTATUS : Z := 0x50.
Definition OP_REQUESTFILENAME : Z := 0x58.
Definition OP_REQFILENAMEANSWER : Z := 0x59.
Definition OP_REQUESTSOURCES : Z := 0x81.
Definition OP_REQUESTSOURCES2 : Z := 0x83.
Definition OP_AICHFILEHASHANS : Z := 0x9d.
Definition OP_AICHFILEHASHREQ : Z := 0x9e.

Definition ET_COMPRESSION : Z := 0x20.
Definition ET_UDPPORT : Z := 0x21.
Definition ET_UDPVER : Z := 0x22.
Definition ET_SOURCEEXCHANGE : Z := 0x23.
Definition ET_COMMENTS : Z := 0x24.
Definition ET_EXTENDEDREQUEST : Z := 0x25.
Definition ET_COMPATIBLECLIENT : Z := 0x26.
Definition ET_FEATURES : Z := 0x27.
Definition ET_MOD_VERSION : Z := 0x55.
Definition CT_EMULECOMPAT_OPTIONS : Z := 0xef.
Definition CT_EMULE_UDPPORTS : Z := 0xf9.
Definition CT_EMULE_MISCOPTIONS1 : Z := 0xfa.
Definition CT_EMULE_VERSION : Z := 0xfb.
Definition CT_EMULE_MISCOPTIONS2 : Z := 0xfe.
Definition SO_AMULE : Z := 0x03.
Definition KADEMLIA_VERSION : Z := 0x08.
Definition ARIA2_NEXT_EMULE_VERSION : Z := Z.shiftl 3 17.

(** ** Data *)

Record PartRange := mkRange { begin_ : Z; end_ : Z }.

Record SourceExchangeEntry := mkEntry {
  endpoint : Endpoint;
  server : Endpoint;
  entryHash : bytes;
  entryCrypt : Z;
}.

Record SourceExchangeAnswer := mkAnswer {
  answerVersion : Z;
  entries : list SourceExchangeEntry;
}.

Record SourceExchangeRequest := mkRequest { requestOpcode : Z; requestPayload : bytes }.

Record EmuleMiscOptions := mkMisc {
  aichVersion : Z;
  unicode : bool;
  udpVersion : Z;
  dataCompressionVersion : Z;
  secureIdentVersion : Z;
  sourceExchange1Version : Z;
  extendedRequestsVersion : Z;
  multiPacket : bool;
}.

Record EmuleMiscOptions2 := mkMisc2 {
  kadVersion : Z;
  supportsLargeFiles : bool;
  supportsExtendedMultipacket : bool;
  supportsSourceExchange2 : bool;
  supportsCryptLayer : bool;
  requestsCryptLayer : bool;
  requiresCryptLayer : bool;
  supportsDirectCallback : bool;
}.

#[export] Instance EmuleMiscOptions2_eq_dec : EqDecision EmuleMiscOptions2.
Proof. solve_decision. Defined.

Record EmulePeerInfo := mkInfo {
  peerHash : bytes;
  version : Z;
  protocolVersion : Z;
  udpPort : Z;
  miscOptions : EmuleMiscOptions;
  miscOptions2 : EmuleMiscOptions2;
}.

Record UdpReask := mkReask {
  fileHash : bytes;
  reaskStatus : list bool;
  completeSources : Z;
  hasCompleteSources : bool;
}.

Record UdpReaskAck := mkAck { bitfield : list bool; rank : Z }.

Record MultipacketAnswer := mkMultipacket {
  hasFileName : bool;
  fileName : bytes;
  hasFileStatus : bool;
  partStatus : list bool;
  completeSource : bool;
  hasAichRootHash : bool;
  aichRootHash : bytes;
}.

Definition noMisc : EmuleMiscOptions := mkMisc 0 false 0 0 0 0 0 false.
Definition noMisc2 : EmuleMiscOptions2 := mkMisc2 0 false false false false false false false.
Definition noInfo : EmulePeerInfo := mkInfo [] 0 0 0 noMisc noMisc2.

(** ** Option words *)

Definition bit (b : bool) : Z := if b then 1 else 0.
(** [(value >> n) & 0x01] as a [bool]. *)
Definition flag (value n : Z) : bool := negb (Z.land (Z.shiftr value n) 0x01 =? 0).

Definition emuleMiscOptionsValue (o : EmuleMiscOptions) : Z :=
  Z.lor (Z.lor (Z.lor (Z.lor (Z.lor (Z.lor (Z.lor
    (Z.shiftl (Z.land (aichVersion o) 0x07) 29)
    (Z.shiftl (bit (unicode o)) 28))
    (Z.shiftl (Z.land (udpVersion o) 0x0f) 24))
    (Z.shiftl (Z.land (dataCompressionVersion o) 0x0f) 20))
    (Z.shiftl (Z.land (secureIdentVersion o) 0x0f) 16))
    (Z.shiftl (Z.land (sourceExchange1Version o) 0x0f) 12))
    (Z.shiftl (Z.land (extendedRequestsVersion o) 0x0f) 8))
    (Z.shiftl (bit (multiPacket o)) 1).

Definition parseEmuleMiscOptions (value : Z) : EmuleMiscOptions :=
  let value := u32 value in
  mkMisc (Z.land (Z.shiftr value 29) 0x07) (flag value 28) (Z.land (Z.shiftr value 24) 0x0f)
    (Z.land (Z.shiftr value 20) 0x0f) (Z.land (Z.shiftr value 16) 0x0f) (Z.land (Z.shiftr value 12) 0x0f)
    (Z.land (Z.shiftr value 8) 0x0f) (flag value 1).

Definition emuleMiscOptions2Value (o : EmuleMiscOptions2) : Z :=
  Z.lor (Z.lor (Z.lor (Z.lor (Z.lor (Z.lor (Z.lor
    (Z.land (kadVersion o) 0x0f)
    (Z.shiftl (bit (supportsLargeFiles o)) 4))
    (Z.shiftl (bit (supportsExtendedMultipacket o)) 5))
    (Z.shiftl (bit (supportsCryptLayer o)) 7))
    (Z.shiftl (bit (requestsCryptLayer o)) 8))
    (Z.shiftl (bit (requiresCryptLayer o)) 9))
    (Z.shiftl (bit (supportsSourceExchange2 o)) 10))
    (Z.shiftl (bit (supportsDirectCallback o)) 12).

Definition parseEmuleMiscOptions2 (value : Z) : EmuleMiscOptions2 :=
  let value := u32 value in
  let supports := flag value 7 in
  let requests := supports && flag value 8 in
  let requires := requests && flag value 9 in
  mkMisc2 (Z.land value 0x0f) (flag value 4) (flag value 5) (flag value 10) supports requests requires
    (flag value 12).

(** ** Part status *)

Definition byteCount (bitCount : Z) : Z := (bitCount + 7) / 8.

(** [bits[i]] becomes bit [mask (i & 7)] of byte [i / 8]. *)
Definition setBits (mask : Z -> Z) (bits : list bool) (data : bytes) : bytes :=
  foldl (fun data i =>
    if default false (bits !! i)
    then alter (fun b => Z.lor b (u8 (mask (Z.land (Z.of_nat i) 7)))) (i / 8)%nat data
    else data) data (seq 0 (length bits)).
Definition getBits (mask : Z -> Z) (bitCount : nat) (raw : bytes) : result (list bool) :=
  foldl (fun bits i =>
    bits ← bits; b ← at_ raw (Z.of_nat i / 8);
    mret (bits ++ [negb (Z.land b (u8 (mask (Z.land (Z.of_nat i) 7))) =? 0)])) (Ok []) (seq 0 bitCount).

Definition lowFirst (k : Z) : Z := Z.shiftl 1 k.
Definition highFirst (k : Z) : Z := Z.shiftr 0x80 k.

Definition tooLarge : string := "ED2K file status bitfield is too large.".

Definition appendPartStatus (payload : bytes) (bits : list bool) : result bytes :=
  if 65535 <? len bits then Err (ProtocolError tooLarge)
  else mret (payload ++ packUInt16 (len bits) ++
             setBits lowFirst bits (replicate (Z.to_nat (byteCount (len bits))) 0)).

Definition readPartStatus (bits : list bool) : reader (bool * list bool) :=
  offset ← tell; n ← size;
  if n <? offset + 2 then mret (false, bits)
  else
    bitCount ← readU16;
    offset ← tell;
    if n <? offset + byteCount bitCount then mret (false, bits)
    else
      raw ← readBytes (byteCount bitCount);
      bits ← lift (getBits lowFirst (Z.to_nat bitCount) raw);
      mret (true, bits).

Definition parsePartStatusPayload (bits : list bool) : reader (bool * list bool) := readPartStatus bits.

Definition readUInt16String : reader bytes := length ← readU16; readBytes length.

(** ** Files *)

Definition createFileStatusPayload (fileHash : bytes) (bits : list bool) : result bytes :=
  _ ← validateHashLength fileHash; appendPartStatus fileHash bits.

Definition parseFileStatus (bits : list bool) (payload expectedFileHash : bytes) :
    result (bool * list bool) :=
  _ ← validateHashLength expectedFileHash;
  parse (
    hash ← readBytes HASH_LENGTH;
    if bool_decide (hash <> expectedFileHash) then mret (false, bits)
    else
      '(ok, bits) ← readPartStatus bits;
      offset ← tell; n ← size;
      mret (ok && (offset =? n), bits)) payload.

Definition parseFileStatusPayload (bits : list bool) (payload expectedFileHash : bytes)
    (expectedPartCount : Z) : result (bool * list bool) :=
  '(ok, bits) ← parseFileStatus bits payload expectedFileHash;
  if negb ok then mret (false, bits)
  else
    let bits := if bool_decide (bits = []) && (0 <? expectedPartCount)
                then replicate (Z.to_nat expectedPartCount) true else bits in
    mret (bool_decide (bits = []) || (len bits =? expectedPartCount), bits).

Definition createHashSetAnswerPayload (fileHash : bytes) (pieceHashes : list bytes) : result bytes :=
  _ ← validateHashLength fileHash;
  if 65535 <? len pieceHashes then Err (ProtocolError "ED2K hash set is too large.")
  else appendAll (fun hash => _ ← validateHashLength hash; mret hash) pieceHashes
         (fileHash ++ packUInt16 (len pieceHashes)).

Definition parseHashSetAnswerPayload (pieceHashes : list bytes) (payload expectedFileHash : bytes) :
    result (bool * list bytes) :=
  _ ← validateHashLength expectedFileHash;
  parse (
    hash ← readBytes HASH_LENGTH;
    if bool_decide (hash <> expectedFileHash) then mret (false, pieceHashes)
    else
      count ← readU16;
      hashes ← readMany (Z.to_nat count) (readBytes HASH_LENGTH);
      mret (true, hashes)) payload.

Definition badRange : string := "Bad ED2K part range.".
Definition packOffset (use64BitOffsets : bool) (value : Z) : bytes :=
  if use64BitOffsets then packUInt64 value else packUInt32 value.
Definition badOffset (use64BitOffsets : bool) (value : Z) : bool :=
  (value <? 0) || (negb use64BitOffsets && (2 ^ 32 - 1 <? value)).

Definition createRequestPartsPayload (fileHash : bytes) (ranges : list PartRange)
    (use64BitOffsets : bool) : result bytes :=
  _ ← validateHashLength fileHash;
  if 3 <? len ranges then Err (ProtocolError "Too many ED2K part ranges.")
  else
    payload ← appendAll (fun i =>
      let value := match ranges !! i with Some r => begin_ r | None => 0 end in
      if badOffset use64BitOffsets value then Err (ProtocolError badRange)
      else mret (packOffset use64BitOffsets value)) [0; 1; 2]%nat fileHash;
    appendAll (fun i =>
      let value := match ranges !! i with Some r => end_ r | None => 0 end in
      if badOffset use64BitOffsets value ||
         match ranges !! i with Some r => value <=? begin_ r | None => false end
      then Err (ProtocolError badRange)
      else mret (packOffset use64BitOffsets value)) [0; 1; 2]%nat payload.

Definition createQueueRankPayload (rank : Z) : bytes := packUInt32 rank.

Definition parseQueueRankPayload (rank : Z) (payload : bytes) : result (bool * Z) :=
  if len payload =? 2 then
    rank ← readUInt16 payload; mret (true, rank)
  else if len payload =? 4 then
    value ← readUInt32 payload;
    if 65535 <? value then mret (false, rank) else mret (true, u16 value)
  else mret (false, rank).

(** ** Source exchange *)

Definition createRequestSources2Payload (fileHash : bytes) : result bytes :=
  _ ← validateHashLength fileHash;
  mret ([SOURCE_EXCHANGE2_VERSION] ++ packUInt16 0 ++ fileHash).

Definition createRequestSourcesPayload (fileHash : bytes) (peerInfo : EmulePeerInfo) :
    result SourceExchangeRequest :=
  if supportsSourceExchange2 (miscOptions2 peerInfo) then
    payload ← createRequestSources2Payload fileHash; mret (mkRequest OP_REQUESTSOURCES2 payload)
  else if 1 <? sourceExchange1Version (miscOptions peerInfo) then
    mret (mkRequest OP_REQUESTSOURCES fileHash)
  else mret (mkRequest 0 []).

Definition parseRequestSources2Payload (version : Z) (payload expectedFileHash : bytes) :
    result (bool * Z) :=
  _ ← validateHashLength expectedFileHash;
  if len payload =? HASH_LENGTH then mret (bool_decide (payload = expectedFileHash), 1)
  else if negb (len payload =? HASH_LENGTH + 3) then mret (false, version)
  else parse (
    parsedVersion ← readByte;
    _ ← readU16;
    hash ← readBytes HASH_LENGTH;
    if (parsedVersion =? 0) || (SOURCE_EXCHANGE2_VERSION <? parsedVersion) ||
       bool_decide (hash <> expectedFileHash)
    then mret (false, version)
    else mret (true, parsedVersion)) payload.

Definition createMultipacketFileRequestPayload (fileHash : bytes) (fileSize : Z)
    (localPartStatus : list bool) (peerInfo : EmulePeerInfo) (extendedMultipacket : bool) :
    result bytes :=
  _ ← validateHashLength fileHash;
  if fileSize <? 0 then Err (ProtocolError "Bad ED2K multipacket file size.")
  else
    let misc := miscOptions peerInfo in
    let payload := fileHash ++ (if extendedMultipacket then packUInt64 fileSize else []) ++
                   [OP_REQUESTFILENAME] in
    payload ← (if 0 <? extendedRequestsVersion misc then appendPartStatus payload localPartStatus
               else mret payload);
    mret (payload ++
      (if 1 <? extendedRequestsVersion misc then packUInt16 0 else []) ++
      (if 1 <? len localPartStatus then [OP_SETREQFILEID] else []) ++
      (if supportsSourceExchange2 (miscOptions2 peerInfo)
       then [OP_REQUESTSOURCES2] ++ [SOURCE_EXCHANGE2_VERSION] ++ packUInt16 0
       else if 1 <? sourceExchange1Version misc then [OP_REQUESTSOURCES] else []) ++
      (if 0 <? aichVersion misc then [OP_AICHFILEHASHREQ] else [])).

(** One round of the loop of [parseMultipacketAnswerPayload]; [inr tt] is
    [return false]. *)
Definition multipacketRound (a : MultipacketAnswer) : reader (MultipacketAnswer + unit) :=
  opcode ← readByte;
  if opcode =? OP_REQFILENAMEANSWER then
    name ← readUInt16String;
    mret (inl (mkMultipacket true name (hasFileStatus a) (partStatus a) (completeSource a)
                 (hasAichRootHash a) (aichRootHash a)))
  else if opcode =? OP_FILESTATUS then
    '(ok, bits) ← readPartStatus (partStatus a);
    if negb ok then mret (inr tt)
    else mret (inl (mkMultipacket (hasFileName a) (fileName a) true bits
                      (bool_decide (bits = []) || completeSource a) (hasAichRootHash a) (aichRootHash a)))
  else if opcode =? OP_AICHFILEHASHANS then
    offset ← tell; n ← size;
    if n <? offset + 20 then mret (inr tt)
    else
      hash ← readBytes 20;
      mret (inl (mkMultipacket (hasFileName a) (fileName a) (hasFileStatus a) (partStatus a)
                   (completeSource a) true hash))
  else mret (inr tt).

Definition noMultipacket : MultipacketAnswer := mkMultipacket false [] false [] false false [].

Definition parseMultipacketAnswerPayload (answer : MultipacketAnswer)
    (payload expectedFileHash : bytes) : result (bool * MultipacketAnswer) :=
  _ ← validateHashLength expectedFileHash;
  if (len payload <? HASH_LENGTH) || bool_decide (take 16 payload <> expectedFileHash)
  then mret (false, answer)
  else parse (
    _ ← seek HASH_LENGTH;
    parsed ← loop multipacketRound noMultipacket;
    match parsed with
    | inl parsed => mret (true, parsed)
    | inr _ => mret (false, answer)
    end) payload.

Definition badVersion : string := "Bad ED2K source exchange version.".
Definition tooMany : string := "Too many ED2K source exchange entries.".

(** The body of the loops of the two [createAnswerSources] functions. *)
Definition packEntry (version : Z) (e : SourceExchangeEntry) : result bytes :=
  e1 ← packEndpoint (endpoint e);
  e2 ← packEndpoint (server e);
  h ← (if 2 <=? version then _ ← validateHashLength (entryHash e); mret (entryHash e) else mret []);
  mret (e1 ++ e2 ++ h ++ (if 4 <=? version then [u8 (entryCrypt e)] else [])).

Definition createAnswerSourcesPayload (fileHash : bytes) (version : Z)
    (entries : list SourceExchangeEntry) : result bytes :=
  _ ← validateHashLength fileHash;
  if (version =? 0) || (SOURCE_EXCHANGE2_VERSION <? version) then Err (ProtocolError badVersion)
  else if 500 <? len entries then Err (ProtocolError tooMany)
  else appendAll (packEntry version) entries (fileHash ++ packUInt16 (len entries)).

Definition createAnswerSources2Payload (fileHash : bytes) (version : Z)
    (entries : list SourceExchangeEntry) : result bytes :=
  _ ← validateHashLength fileHash;
  if (version =? 0) || (SOURCE_EXCHANGE2_VERSION <? version) then Err (ProtocolError badVersion)
  else if 500 <? len entries then Err (ProtocolError tooMany)
  else appendAll (packEntry version) entries ([u8 version] ++ fileHash ++ packUInt16 (len entries)).

Definition entrySize (version : Z) : Z :=
  if version =? 1 then 12 else if version <? 4 then 28 else 29.

(** The body of the loop of [parseAnswerSourcesPayload]. *)
Definition readEntry (version : Z) : reader SourceExchangeEntry :=
  endpoint ← readEndpoint;
  server ← readEndpoint;
  '(endpoint, hash) ← (if 2 <=? version then
      hash ← readBytes HASH_LENGTH;
      mret (mkEndpoint (host endpoint) (port endpoint) (cryptOptions endpoint) hash, hash)
    else mret (endpoint, []));
  '(endpoint, crypt) ← (if 4 <=? version then
      crypt ← readByte;
      mret (mkEndpoint (host endpoint) (port endpoint) crypt (userHash endpoint), crypt)
    else mret (endpoint, 0));
  mret (mkEntry endpoint server hash crypt).

Definition parseAnswerSourcesPayload (answer : SourceExchangeAnswer)
    (payload expectedFileHash : bytes) (sourceExchangeVersion : Z) :
    result (bool * SourceExchangeAnswer) :=
  _ ← validateHashLength expectedFileHash;
  if (sourceExchangeVersion =? 0) || (SOURCE_EXCHANGE2_VERSION <? sourceExchangeVersion) ||
     (len payload <? HASH_LENGTH + 2)
  then mret (false, answer)
  else parse (
    hash ← readBytes HASH_LENGTH;
    if bool_decide (hash <> expectedFileHash) then mret (false, answer)
    else
      count ← readU16;
      if 500 <? count then mret (false, answer)
      else
        offset ← tell; n ← size;
        if negb (n - offset =? entrySize sourceExchangeVersion * count) then mret (false, answer)
        else
          entries ← readMany (Z.to_nat count) (readEntry sourceExchangeVersion);
          mret (true, mkAnswer sourceExchangeVersion entries)) payload.

(** The body of the loop of [parseAnswerSources2Payload], which gives the
    endpoint the hash in version 4 only. *)
Definition readEntry2 (version : Z) : reader SourceExchangeEntry :=
  endpoint ← readEndpoint;
  server ← readEndpoint;
  hash ← (if 2 <=? version then readBytes HASH_LENGTH else mret []);
  '(endpoint, crypt) ← (if 4 <=? version then
      crypt ← readByte;
      mret (mkEndpoint (host endpoint) (port endpoint) crypt hash, crypt)
    else mret (endpoint, 0));
  mret (mkEntry endpoint server hash crypt).

Definition parseAnswerSources2Payload (answer : SourceExchangeAnswer)
    (payload expectedFileHash : bytes) : result (bool * SourceExchangeAnswer) :=
  _ ← validateHashLength expectedFileHash;
  parse (
    version ← readByte;
    hash ← readBytes HASH_LENGTH;
    if bool_decide (hash <> expectedFileHash) || (version =? 0) || (SOURCE_EXCHANGE2_VERSION <? version)
    then mret (false, answer)
    else
      count ← readU16;
      if 500 <? count then mret (false, answer)
      else
        offset ← tell; n ← size;
        if negb (n - offset =? entrySize version * count) then mret (false, answer)
        else
          entries ← readMany (Z.to_nat count) (readEntry2 version);
          mret (true, mkAnswer version entries)) payload.

(** ** Handshake *)

Definition createEmuleInfoPayload (info : EmulePeerInfo) : bytes :=
  let misc := miscOptions info in
  [u8 (version info)] ++ [u8 (protocolVersion info)] ++ packUInt32 9 ++
  createUInt32Tag ET_COMPRESSION (dataCompressionVersion misc) ++
  createUInt32Tag ET_UDPPORT (udpPort info) ++
  createUInt32Tag ET_UDPVER (udpVersion misc) ++
  createUInt32Tag ET_SOURCEEXCHANGE (sourceExchange1Version misc) ++
  createUInt32Tag ET_COMMENTS 0 ++
  createUInt32Tag ET_EXTENDEDREQUEST (extendedRequestsVersion misc) ++
  createUInt32Tag ET_COMPATIBLECLIENT SO_AMULE ++
  createUInt32Tag ET_FEATURES (Z.land (secureIdentVersion misc) 0x03) ++
  createStringTag ET_MOD_VERSION (str "aria2-next").

Definition setMisc (m : EmuleMiscOptions) (i : EmulePeerInfo) : EmulePeerInfo :=
  mkInfo (peerHash i) (version i) (protocolVersion i) (udpPort i) m (miscOptions2 i).
Definition setMisc2 (m : EmuleMiscOptions2) (i : EmulePeerInfo) : EmulePeerInfo :=
  mkInfo (peerHash i) (version i) (protocolVersion i) (udpPort i) (miscOptions i) m.
Definition setUdpPort (p : Z) (i : EmulePeerInfo) : EmulePeerInfo :=
  mkInfo (peerHash i) (version i) (protocolVersion i) p (miscOptions i) (miscOptions2 i).
Definition setUdpVersion (v : Z) (m : EmuleMiscOptions) : EmuleMiscOptions :=
  mkMisc (aichVersion m) (unicode m) v (dataCompressionVersion m) (secureIdentVersion m)
    (sourceExchange1Version m) (extendedRequestsVersion m) (multiPacket m).
Definition setCompression (v : Z) (m : EmuleMiscOptions) : EmuleMiscOptions :=
  mkMisc (aichVersion m) (unicode m) (udpVersion m) v (secureIdentVersion m)
    (sourceExchange1Version m) (extendedRequestsVersion m) (multiPacket m).
Definition setSecureIdent (v : Z) (m : EmuleMiscOptions) : EmuleMiscOptions :=
  mkMisc (aichVersion m) (unicode m) (udpVersion m) (dataCompressionVersion m) v
    (sourceExchange1Version m) (extendedRequestsVersion m) (multiPacket m).
Definition setSourceExchange1 (v : Z) (m : EmuleMiscOptions) : EmuleMiscOptions :=
  mkMisc (aichVersion m) (unicode m) (udpVersion m) (dataCompressionVersion m) (secureIdentVersion m)
    v (extendedRequestsVersion m) (multiPacket m).
Definition setExtendedRequests (v : Z) (m : EmuleMiscOptions) : EmuleMiscOptions :=
  mkMisc (aichVersion m) (unicode m) (udpVersion m) (dataCompressionVersion m) (secureIdentVersion m)
    (sourceExchange1Version m) v (multiPacket m).

(** The body of the loop over the tags of an info packet. *)
Definition applyInfoTag (i : EmulePeerInfo) (tag : Tag) : EmulePeerInfo :=
  let v := intValue tag in
  if bool_decide (valueType tag <> UINT) then i
  else if id tag =? ET_COMPRESSION then setMisc (setCompression (Z.land v 0xff) (miscOptions i)) i
  else if id tag =? ET_UDPPORT then setUdpPort (Z.land v 0xffff) i
  else if id tag =? ET_UDPVER then setMisc (setUdpVersion (Z.land v 0xff) (miscOptions i)) i
  else if id tag =? ET_SOURCEEXCHANGE then setMisc (setSourceExchange1 (Z.land v 0xff) (miscOptions i)) i
  else if id tag =? ET_EXTENDEDREQUEST then setMisc (setExtendedRequests (Z.land v 0xff) (miscOptions i)) i
  else if id tag =? ET_FEATURES then setMisc (setSecureIdent (Z.land v 0x03) (miscOptions i)) i
  else if id tag =? CT_EMULE_MISCOPTIONS1 then setMisc (parseEmuleMiscOptions v) i
  else if id tag =? CT_EMULE_MISCOPTIONS2 then setMisc2 (parseEmuleMiscOptions2 v) i
  else i.

Definition parseEmuleInfoPayload (info : EmulePeerInfo) (payload : bytes) :
    result (bool * EmulePeerInfo) :=
  if len payload <? 6 then mret (false, info)
  else
    v ← at_ payload 0; pv ← at_ payload 1;
    let info := mkInfo (peerHash info) v pv (udpPort info) (miscOptions info) (miscOptions2 info) in
    '(ok, tags) ← parseTagList [] (drop 2 payload);
    if negb ok then mret (false, info)
    else mret (true, foldl applyInfoTag info tags).

Definition createLocalEmulePeerInfo : EmulePeerInfo :=
  mkInfo [] 0x3c 0x01 0
    (mkMisc 1 true 0 1 0 3 2 true)
    (mkMisc2 KADEMLIA_VERSION true true true true true false false).

Definition createPeerHelloPayload (clientHash : bytes) (clientId listenPort : Z) (server : Endpoint)
    (clientName : bytes) (info : EmulePeerInfo) (helloPacket : bool) : result bytes :=
  _ ← validateHashLength clientHash;
  let payload := (if helloPacket then [HASH_LENGTH] else []) ++ clientHash ++
    packUInt32 clientId ++ packUInt16 listenPort ++ packUInt32 7 ++
    createStringTag 0x01 clientName ++
    createUInt32Tag 0x11 0x3c ++
    createUInt32Tag CT_EMULE_UDPPORTS (Z.lor (Z.shiftl (udpPort info) 16) (udpPort info)) ++
    createUInt32Tag CT_EMULE_VERSION (Z.lor (Z.shiftl SO_AMULE 24) ARIA2_NEXT_EMULE_VERSION) ++
    createUInt32Tag CT_EMULE_MISCOPTIONS1 (emuleMiscOptionsValue (miscOptions info)) ++
    createUInt32Tag CT_EMULE_MISCOPTIONS2 (emuleMiscOptions2Value (miscOptions2 info)) ++
    createUInt32Tag CT_EMULECOMPAT_OPTIONS 1 in
  if bool_decide (host server = []) || (port server =? 0) then mret (payload ++ replicate 6 0)
  else e ← packEndpoint server; mret (payload ++ e).

(** The body of the loop over the tags of a hello packet. *)
Definition applyHelloTag (i : EmulePeerInfo) (tag : Tag) : EmulePeerInfo :=
  let v := intValue tag in
  if bool_decide (valueType tag <> UINT) then i
  else if id tag =? CT_EMULE_MISCOPTIONS1 then setMisc (parseEmuleMiscOptions v) i
  else if id tag =? CT_EMULE_MISCOPTIONS2 then setMisc2 (parseEmuleMiscOptions2 v) i
  else if id tag =? CT_EMULE_UDPPORTS then setUdpPort (Z.land v 0xffff) i
  else if id tag =? ET_UDPPORT then setUdpPort (Z.land v 0xffff) i
  else if id tag =? ET_UDPVER then setMisc (setUdpVersion (Z.land v 0xff) (miscOptions i)) i
  else i.

Definition parsePeerHelloPayload (info : EmulePeerInfo) (payload : bytes) (helloPacket : bool) :
    result (bool * EmulePeerInfo) :=
  let prefixSize := bit helloPacket in
  if len payload <? prefixSize + HASH_LENGTH + 4 + 2 + 6 then mret (false, info)
  else parse (
    _ ← seek prefixSize;
    hash ← readBytes HASH_LENGTH;
    let info := mkInfo hash (version info) (protocolVersion info) (udpPort info) (miscOptions info)
                  (miscOptions2 info) in
    offset ← tell; n ← size;
    let offset := offset + (4 + 2) in
    let serverOffset := n - 6 in
    if serverOffset <? offset then mret (false, info)
    else
      data ← whole;
      '(ok, tags) ← lift (parseTagList [] (take (Z.to_nat (serverOffset - offset)) (drop (Z.to_nat offset) data)));
      if negb ok then mret (false, info)
      else mret (true, foldl applyHelloTag info tags)) payload.

Definition parsePeerHelloUserHash (userHash payload : bytes) (helloPacket : bool) : bool * bytes :=
  if len payload <? bit helloPacket + HASH_LENGTH then (false, userHash)
  else (true, take 16 (drop (Z.to_nat (bit helloPacket)) payload)).

(** ** Asking again over UDP *)

(** The overload without a part status. *)
Definition createUdpReaskFilePing (fileHash : bytes) (completeSources : Z) : result bytes :=
  _ ← validateHashLength fileHash; mret (fileHash ++ packUInt16 completeSources).

Definition createUdpReaskFilePingPayload (fileHash : bytes) (partStatus : list bool)
    (completeSources : Z) : result bytes :=
  _ ← validateHashLength fileHash;
  payload ← appendPartStatus fileHash partStatus;
  mret (payload ++ packUInt16 completeSources).

Definition parseUdpReaskFilePingPayload (reask : UdpReask) (payload : bytes) : result (bool * UdpReask) :=
  if len payload <? HASH_LENGTH then mret (false, reask)
  else parse (
    hash ← readBytes HASH_LENGTH;
    n ← size; offset ← tell;
    parsed ← (
      if n =? HASH_LENGTH + 2 then
        sources ← readU16; mret (Some (mkReask hash [] sources true))
      else if offset <? n then
        '(ok, bits) ← parsePartStatusPayload [];
        offset ← tell;
        if negb ok || (2 <? n - offset) then mret None
        else if n - offset =? 2 then
          sources ← readU16; mret (Some (mkReask hash bits sources true))
        else mret (Some (mkReask hash bits 0 false))
      else mret (Some (mkReask hash [] 0 false)));
    offset ← tell;
    match parsed with
    | Some parsed => if negb (offset =? n) then mret (false, reask) else mret (true, parsed)
    | None => mret (false, reask)
    end) payload.

(** The overload without a part status. *)
Definition createUdpReaskAck (rank : Z) : bytes := packUInt16 rank.

Definition createUdpReaskAckPayload (bitfield : list bool) (rank : Z) : result bytes :=
  if 65535 <? len bitfield then Err (ProtocolError tooLarge)
  else mret (packUInt16 (len bitfield) ++
             setBits highFirst bitfield (replicate (Z.to_nat (byteCount (len bitfield))) 0) ++
             packUInt16 rank).

Definition parseUdpReaskAckPayload (ack : UdpReaskAck) (payload : bytes) : result (bool * UdpReaskAck) :=
  if negb (len payload =? 2) && (len payload <? 4) then mret (false, ack)
  else parse (
    n ← size;
    bits ← (
      if 2 <? n then
        bitCount ← readU16;
        offset ← tell;
        if negb (n - offset =? byteCount bitCount + 2) then mret None
        else
          raw ← readBytes (byteCount bitCount);
          bits ← lift (getBits highFirst (Z.to_nat bitCount) raw);
          mret (Some bits)
      else mret (Some []));
    match bits with
    | None => mret (false, ack)
    | Some bits => rank ← readU16; mret (true, mkAck bits rank)
    end) payload.

(** ** Lemmas *)

(** *** Option words *)

Lemma bit_bounds b : 0 <= bit b < 2.
Proof. destruct b; simpl; lia. Qed.

Lemma flag_bit value n : 0 <= n -> flag value n = negb (value / 2 ^ n mod 2 =? 0).
Proof.
  intros Hn. unfold flag. rewrite Z.shiftr_div_pow2 by done. by rewrite (land_low _ 1) by lia.
Qed.
Lemma flag_of_bit value n b : 0 <= n -> value / 2 ^ n mod 2 = bit b -> flag value n = b.
Proof. intros Hn E. rewrite flag_bit, E by done. by destruct b. Qed.
Lemma nibble value n : 0 <= n -> Z.land (Z.shiftr value n) 0x0f = value / 2 ^ n mod 16.
Proof. intros Hn. rewrite Z.shiftr_div_pow2 by done. by rewrite (land_low _ 4) by lia. Qed.

Definition misc_ok (o : EmuleMiscOptions) : Prop :=
  0 <= aichVersion o < 8 /\ 0 <= udpVersion o < 16 /\ 0 <= dataCompressionVersion o < 16 /\
  0 <= secureIdentVersion o < 16 /\ 0 <= sourceExchange1Version o < 16 /\
  0 <= extendedRequestsVersion o < 16.

(** A peer that asks for encryption supports it, and one that needs it asks
    for it. *)
Definition misc2_ok (o : EmuleMiscOptions2) : Prop :=
  0 <= kadVersion o < 16 /\ (requestsCryptLayer o = true -> supportsCryptLayer o = true) /\
  (requiresCryptLayer o = true -> requestsCryptLayer o = true).

Lemma misc_value o :
  misc_ok o ->
  emuleMiscOptionsValue o =
    aichVersion o * 536870912 + bit (unicode o) * 268435456 + udpVersion o * 16777216 +
    dataCompressionVersion o * 1048576 + secureIdentVersion o * 65536 +
    sourceExchange1Version o * 4096 + extendedRequestsVersion o * 256 + bit (multiPacket o) * 2.
Proof.
  intros (H1 & H2 & H3 & H4 & H5 & H6). unfold emuleMiscOptionsValue.
  change 0x07 with (2 ^ 3 - 1). change 0x0f with (2 ^ 4 - 1). rewrite !land_low by lia.
  change (2 ^ 3) with 8. change (2 ^ 4) with 16. rewrite !Z.mod_small by lia.
  pose proof (bit_bounds (unicode o)). pose proof (bit_bounds (multiPacket o)).
  rewrite <- !Z.lor_assoc. rewrite (Z.shiftl_mul_pow2 _ 1) by lia. change (2 ^ 1) with 2.
  rewrite (shiftl_lor _ _ 8), (shiftl_lor _ _ 12), (shiftl_lor _ _ 16), (shiftl_lor _ _ 20),
    (shiftl_lor _ _ 24), (shiftl_lor _ _ 28), (shiftl_lor _ _ 29); lia.
Qed.

Lemma misc_roundtrip o :
  misc_ok o -> 0 <= emuleMiscOptionsValue o < 2 ^ 32 /\ parseEmuleMiscOptions (emuleMiscOptionsValue o) = o.
Proof.
  intros Ho. rewrite (misc_value o Ho). destruct Ho as (H1 & H2 & H3 & H4 & H5 & H6).
  pose proof (bit_bounds (unicode o)). pose proof (bit_bounds (multiPacket o)).
  match goal with |- 0 <= ?v < _ /\ _ => set (value := v) end.
  assert (0 <= value < 2 ^ 32) as Hv by (subst value; lia).
  split; [done|]. unfold parseEmuleMiscOptions. rewrite u32_small by done. clear Hv.
  destruct o as [a u ud d si se e m]. simpl in *. subst value.
  change 0x07 with (2 ^ 3 - 1). rewrite !nibble, Z.shiftr_div_pow2, land_low by lia.
  f_equal; first [apply flag_of_bit; [lia|]|idtac]; dlia.
Qed.

Lemma misc2_roundtrip o :
  misc2_ok o -> 0 <= emuleMiscOptions2Value o < 2 ^ 32 /\ parseEmuleMiscOptions2 (emuleMiscOptions2Value o) = o.
Proof.
  intros (Hk & H1 & H2). destruct o as [k f1 f2 f3 f4 f5 f6 f7]. simpl in *.
  set (o k := mkMisc2 k f1 f2 f3 f4 f5 f6 f7). fold (o k).
  set (P k := (0 <=? emuleMiscOptions2Value (o k)) && (emuleMiscOptions2Value (o k) <? 2 ^ 32) &&
    bool_decide (parseEmuleMiscOptions2 (emuleMiscOptions2Value (o k)) = o k)).
  enough (P k = true) as H.
  { subst P. cbv beta in H. zprop. by apply bool_decide_eq_true in H0. }
  apply (forall_below 16 P); [|done].
  assert (negb f5 || f4 = true) as Hi by (destruct f5; [by rewrite H1|done]).
  assert (negb f6 || f5 = true) as Hj by (destruct f6; [by rewrite H2|done]).
  clear H1 H2 Hk. subst P o. revert Hi Hj.
  destruct f1, f2, f3, f4, f5, f6, f7; intros Hi Hj; first [discriminate Hi | discriminate Hj | vm_compute; reflexivity].
Qed.

(** *** Part status *)

(** The masks of two places of a byte have no bit in common. *)
Definition mask_ok (mask : Z -> Z) : Prop :=
  forall i j, 0 <= i < 8 -> 0 <= j < 8 -> (Z.land (u8 (mask i)) (u8 (mask j)) =? 0) = negb (i =? j).

Lemma mask_ok_check mask :
  forallb (fun i => forallb (fun j => eqb (Z.land (u8 (mask i)) (u8 (mask j)) =? 0) (negb (i =? j)))
    (Z.of_nat <$> seq 0 8)) (Z.of_nat <$> seq 0 8) = true -> mask_ok mask.
Proof.
  intros H i j Hi Hj. apply eqb_prop.
  pose proof (forall_below 8 _ H i Hi) as H1. exact (forall_below 8 _ H1 j Hj).
Qed.
Lemma lowFirst_ok : mask_ok lowFirst.
Proof. by apply mask_ok_check. Qed.
Lemma highFirst_ok : mask_ok highFirst.
Proof. by apply mask_ok_check. Qed.

Section bits.
Context (mask : Z -> Z) (Hmask : mask_ok mask).
Implicit Types (bits : list bool) (data raw : bytes) (i j n : nat).

Definition place (i : nat) : Z := u8 (mask (Z.land (Z.of_nat i) 7)).

Lemma place_bits_ok i j : (i / 8 = j / 8)%nat -> (Z.land (place i) (place j) =? 0) = negb (i =? j)%nat.
Proof.
  intros E. unfold place. change 7 with (2 ^ 3 - 1). rewrite !land_low by lia. change (2 ^ 3) with 8.
  rewrite Hmask by (apply Z.mod_pos_bound; lia). f_equal.
  destruct (Nat.eqb_spec i j) as [->|Hne]; [apply Z.eqb_refl|]. apply Z.eqb_neq.
  apply (f_equal Z.of_nat) in E. rewrite !Nat2Z.inj_div in E. dlia.
Qed.

(** Bit [i] of the data. *)
Definition has (data : bytes) (i : nat) (v : bool) : Prop :=
  exists b, data !! (i / 8)%nat = Some b /\ negb (Z.land b (place i) =? 0) = v.

Lemma has_alter data i j v :
  has data i v -> has (alter (fun b => Z.lor b (place j)) (j / 8)%nat data) i (v || (i =? j)%nat).
Proof.
  intros (b & Hb & <-). unfold has. destruct (decide (j / 8 = i / 8)%nat) as [E|E].
  - rewrite E. exists (Z.lor b (place j)). rewrite list_lookup_alter_eq, Hb. split; [done|].
    rewrite Z.land_lor_distr_l. pose proof (place_bits_ok j i E) as Hp. rewrite (Nat.eqb_sym i j).
    destruct (Z.eqb_spec (Z.land b (place i)) 0) as [->|Hn].
    + rewrite Z.lor_0_l, Hp. by destruct (j =? i)%nat.
    + simpl. destruct (Z.eqb_spec (Z.lor (Z.land b (place i)) (Z.land (place j) (place i))) 0) as [E'|]; [|done].
      apply Z.lor_eq_0_iff in E' as [? _]. done.
  - exists b. rewrite list_lookup_alter_ne by done. split; [done|].
    destruct (Nat.eqb_spec i j) as [->|]; [done|]. by rewrite orb_false_r.
Qed.

Lemma setBits_has bits data n i :
  (forall i, (i < length bits)%nat -> has data i false) -> (n <= length bits)%nat -> (i < length bits)%nat ->
  has (foldl (fun data i => if default false (bits !! i) then
         alter (fun b => Z.lor b (place i)) (i / 8)%nat data else data) data (seq 0 n)) i
      ((i <? n)%nat && default false (bits !! i)).
Proof.
  intros H0. induction n as [|n IH]; intros Hn Hi; [by apply H0|].
  rewrite seq_S, foldl_app. cbn [foldl]. simpl plus. specialize (IH ltac:(lia) Hi).
  assert ((i <? S n) = (i <? n) || (i =? n))%nat as ->.
  { destruct (Nat.ltb_spec i n), (Nat.ltb_spec i (S n)), (Nat.eqb_spec i n); done || lia. }
  destruct (Nat.eqb_spec i n) as [->|Hne].
  - rewrite Nat.ltb_irrefl in *. simpl. destruct (default false (bits !! n)) eqn:En; [|done].
    apply (has_alter _ _ n) in IH. by rewrite Nat.eqb_refl in IH.
  - rewrite orb_false_r. destruct (default false (bits !! n)); [|done].
    apply (has_alter _ _ n) in IH. destruct (Nat.eqb_spec i n); [done|]. by rewrite orb_false_r in IH.
Qed.

Lemma byteCount_nat i n : (i < n)%nat -> (i / 8 < Z.to_nat (byteCount (Z.of_nat n)))%nat.
Proof.
  intros Hi. unfold byteCount. apply Nat2Z.inj_lt. rewrite Nat2Z.inj_div, Z2Nat.id by (apply Z.div_pos; lia).
  dlia.
Qed.

Lemma at_byte raw i : at_ raw (Z.of_nat i / 8) = match raw !! (i / 8)%nat with Some b => Ok b | None => Err OutOfBounds end.
Proof.
  unfold at_. destruct (Z.ltb_spec (Z.of_nat i / 8) 0); [dlia|].
  change 8 with (Z.of_nat 8). by rewrite <- Nat2Z.inj_div, Nat2Z.id.
Qed.

Lemma getBits_S raw n :
  getBits mask (S n) raw =
    (bits ← getBits mask n raw; b ← at_ raw (Z.of_nat n / 8);
     mret (bits ++ [negb (Z.land b (place n) =? 0)])).
Proof. unfold getBits. rewrite seq_S, foldl_app. done. Qed.

Lemma getBits_has bits raw n :
  (n <= length bits)%nat ->
  (forall i, (i < n)%nat -> has raw i (default false (bits !! i))) -> getBits mask n raw = Ok (take n bits).
Proof.
  induction n as [|n IH]; intros Hn Hh; [done|]. rewrite getBits_S, IH by (try lia; intros; apply Hh; lia).
  destruct (Hh n ltac:(lia)) as (b & Hb & Hv). monad. rewrite at_byte, Hb, Hv.
  destruct (lookup_lt_is_Some_2 bits n) as [v Ev]; [lia|]. rewrite Ev. by rewrite (take_S_r _ _ _ Ev).
Qed.

(** The bits written are the bits read. *)
Lemma getBits_setBits bits :
  getBits mask (length bits) (setBits mask bits (replicate (Z.to_nat (byteCount (len bits))) 0)) = Ok bits.
Proof.
  rewrite (getBits_has bits), firstn_all; [done|lia|]. intros i Hi.
  pose proof (setBits_has bits (replicate (Z.to_nat (byteCount (len bits))) 0) (length bits) i) as H.
  destruct (Nat.ltb_spec i (length bits)); [|lia]. apply H; [|lia|done].
  intros j Hj. exists 0. rewrite lookup_replicate_2; [done|]. by apply byteCount_nat.
Qed.

Lemma length_setBits bits data : length (setBits mask bits data) = length data.
Proof.
  unfold setBits. generalize (seq 0 (length bits)). intros l. revert data.
  induction l as [|i l IH]; intros data; [done|]. cbn [foldl]. rewrite IH. destruct (default false _); [|done].
  apply length_alter.
Qed.

Lemma getBits_sane raw n : byteCount (Z.of_nat n) <= len raw -> sane (getBits mask n raw).
Proof.
  intros Hr. assert (forall m, (m <= n)%nat -> exists l, getBits mask m raw = Ok l) as H.
  { induction m as [|m IH]; intros Hm; [by eexists|]. destruct (IH ltac:(lia)) as [l E].
    rewrite getBits_S, E. monad. rewrite at_byte. pose proof (byteCount_nat m n ltac:(lia)). unfold len in Hr.
    destruct (lookup_lt_is_Some_2 raw (m / 8)%nat) as [b ->]; [lia|]. by eexists. }
  by destruct (H n ltac:(lia)) as [l ->].
Qed.
End bits.

Lemma byteCount_bounds n : 0 <= n < 2 ^ 16 -> 0 <= byteCount n < 2 ^ 14.
Proof. unfold byteCount. change (2 ^ 16) with 65536. change (2 ^ 14) with 16384. intros. dlia. Qed.

Lemma partStatus_ok bits :
  len bits < 2 ^ 16 ->
  exists b, (forall payload, appendPartStatus payload bits = Ok (payload ++ b)) /\
    len b = 2 + byteCount (len bits) /\ forall old, reads (readPartStatus old) b (true, bits).
Proof.
  intros Hl. pose proof (len_nonneg bits) as H0. pose proof (byteCount_bounds (len bits)) as Hb.
  set (raw := setBits lowFirst bits (replicate (Z.to_nat (byteCount (len bits))) 0)).
  assert (len raw = byteCount (len bits)) as Hr.
  { unfold raw, len at 1. rewrite length_setBits, length_replicate. lia. }
  exists (packUInt16 (len bits) ++ raw). split_and!.
  - intros payload. unfold appendPartStatus. destruct (Z.ltb_spec 65535 (len bits)); [lia|]. done.
  - unfold packUInt16. rewrite len_app, len_pack. lia.
  - intros old data offset rest Ha. pose proof (ahead_room _ _ _ _ Ha) as Hn. pose proof (len_nonneg rest).
    rewrite len_app in *. assert (len (packUInt16 (len bits)) = 2) as Hp by apply len_pack.
    unfold readPartStatus, tell, size. monad. destruct (Z.ltb_spec (len data) (offset + 2)); [lia|].
    rewrite <- app_assoc in Ha. rewrite (reads_u16 (len bits) ltac:(lia) _ _ _ Ha), Hp.
    destruct (Z.ltb_spec (len data) (offset + 2 + byteCount (len bits))); [lia|].
    apply ahead_step in Ha. rewrite Hp in Ha. rewrite (reads_bytes _ raw Hr ltac:(lia) _ _ _ Ha).
    replace (Z.to_nat (len bits)) with (length bits) by (unfold len; lia).
    unfold raw at 1. rewrite (getBits_setBits _ lowFirst_ok). simpl. do 2 f_equal. lia.
Qed.

(** *** Files *)

Lemma fileStatus_ok hash bits old :
  len hash = HASH_LENGTH -> len bits < 2 ^ 16 ->
  exists payload, createFileStatusPayload hash bits = Ok payload /\
    parseFileStatus old payload hash = Ok (true, bits).
Proof.
  intros Hh Hb. destruct (partStatus_ok bits Hb) as (b & Hw & _ & Hr). exists (hash ++ b).
  unfold createFileStatusPayload, parseFileStatus. monad. rewrite hash_valid, Hw by done. split; [done|].
  apply ends_parse. eapply ends_bind; [by apply reads_hash|]. cbv beta. rewrite same_hash.
  eapply ends_last; [apply Hr|]. apply ends_tell, ends_size. cbv beta iota.
  rewrite len_app, Z.eqb_refl. apply ends_ret.
Qed.

Lemma hashSet_ok hash hashes old :
  len hash = HASH_LENGTH -> len hashes < 2 ^ 16 -> Forall (fun h => len h = HASH_LENGTH) hashes ->
  exists payload, createHashSetAnswerPayload hash hashes = Ok payload /\
    parseHashSetAnswerPayload old payload hash = Ok (true, hashes).
Proof.
  intros Hh Hn Hall. rewrite Forall_forall in Hall. pose proof (len_nonneg hashes).
  unfold createHashSetAnswerPayload, parseHashSetAnswerPayload. monad. rewrite hash_valid by done.
  destruct (Z.ltb_spec 65535 (len hashes)); [lia|].
  edestruct (appendAll_reads (readBytes HASH_LENGTH) (fun hash => _ ← validateHashLength hash; mret hash)
    (fun h => h) HASH_LENGTH hashes (hash ++ packUInt16 (len hashes))) as (b & Hb & _ & Hr).
  { intros h Hin. specialize (Hall h Hin). exists h. monad. rewrite hash_valid by done.
    split_and!; [done..|by apply reads_hash]. }
  exists ((hash ++ packUInt16 (len hashes)) ++ b). split; [exact Hb|]. apply ends_parse. rewrite <- app_assoc.
  eapply ends_bind; [by apply reads_hash|]. cbv beta. rewrite same_hash.
  eapply ends_bind; [apply reads_u16; lia|]. cbv beta.
  replace (Z.to_nat (len hashes)) with (length hashes) by (unfold len; lia).
  eapply ends_last; [exact Hr|]. rewrite list_fmap_id. apply ends_ret.
Qed.

Lemma queueRank_ok rank old :
  0 <= rank < 2 ^ 16 -> parseQueueRankPayload old (createQueueRankPayload rank) = Ok (true, rank).
Proof.
  intros Hr. unfold parseQueueRankPayload, createQueueRankPayload, packUInt32. rewrite len_pack.
  change (Z.of_nat 4 =? 2) with false. change (Z.of_nat 4 =? 4) with true. monad.
  rewrite u32_small, readUInt32_pack by lia. destruct (Z.ltb_spec 65535 rank); [lia|].
  by rewrite u16_small by lia.
Qed.

Lemma requestSources2_ok hash old :
  len hash = HASH_LENGTH ->
  exists payload, createRequestSources2Payload hash = Ok payload /\
    parseRequestSources2Payload old payload hash = Ok (true, SOURCE_EXCHANGE2_VERSION).
Proof.
  intros Hh. unfold createRequestSources2Payload, parseRequestSources2Payload. monad. rewrite hash_valid by done.
  eexists. split; [reflexivity|]. rewrite !len_app, Hh. change (len (packUInt16 0)) with 2.
  change (_ =? HASH_LENGTH) with false. change (negb (_ =? _)) with false. cbv iota. apply ends_parse.
  eapply ends_bind; [apply reads_byte|]. eapply ends_bind; [by apply reads_u16|].
  eapply ends_last; [by apply reads_hash|]. rewrite same_hash. apply ends_ret.
Qed.

Lemma reaskPing_ok hash bits sources old :
  len hash = HASH_LENGTH -> len bits < 2 ^ 16 -> 0 <= sources < 2 ^ 16 ->
  exists payload, createUdpReaskFilePingPayload hash bits sources = Ok payload /\
    parseUdpReaskFilePingPayload old payload = Ok (true, mkReask hash bits sources true).
Proof.
  intros Hh Hb Hs. destruct (partStatus_ok bits Hb) as (b & Hw & Hn & Hr).
  unfold createUdpReaskFilePingPayload, parseUdpReaskFilePingPayload. monad. rewrite hash_valid, Hw by done.
  eexists. split; [reflexivity|]. pose proof (len_nonneg bits).
  pose proof (byteCount_bounds (len bits) ltac:(lia)) as Hc. rewrite !len_app, Hh.
  change (len (packUInt16 sources)) with 2. destruct (Z.ltb_spec (HASH_LENGTH + len b + 2) HASH_LENGTH); [lia|].
  apply ends_parse. rewrite <- app_assoc, len_app, len_app, Hh. change (len (packUInt16 sources)) with 2.
  eapply ends_bind; [by apply reads_hash|]. apply ends_size, ends_tell. cbv beta. rewrite Hh.
  destruct (Z.eqb_spec (HASH_LENGTH + (len b + 2)) (HASH_LENGTH + 2)); [lia|].
  destruct (Z.ltb_spec (0 + HASH_LENGTH) (HASH_LENGTH + (len b + 2))); [|lia].
  intros data Ha Hd. unfold parsePartStatusPayload, tell. monad. rewrite (Hr [] _ _ _ Ha). apply ahead_step in Ha. simpl negb. cbv beta iota.
  set (o := 0 + HASH_LENGTH + len b) in *. replace (_ - o) with 2 by (unfold o; lia).
  change (negb true || (2 <? 2)) with false. change (2 =? 2) with true. cbv beta iota. rewrite <- (app_nil_r (packUInt16 sources)) in Ha.
  rewrite (reads_u16 sources Hs _ _ _ Ha). change (len (packUInt16 sources)) with 2.
  destruct (Z.eqb_spec (o + 2) (HASH_LENGTH + (len b + 2))) as [->|]; [done|lia].
Qed.

Lemma reaskAck_ok bits rank old :
  len bits < 2 ^ 16 -> 0 <= rank < 2 ^ 16 ->
  exists payload, createUdpReaskAckPayload bits rank = Ok payload /\
    parseUdpReaskAckPayload old payload = Ok (true, mkAck bits rank).
Proof.
  intros Hb Hrk. pose proof (len_nonneg bits). pose proof (byteCount_bounds (len bits) ltac:(lia)) as Hc.
  set (raw := setBits highFirst bits (replicate (Z.to_nat (byteCount (len bits))) 0)).
  assert (len raw = byteCount (len bits)) as Hr.
  { unfold raw, len at 1. rewrite length_setBits, length_replicate. lia. }
  exists (packUInt16 (len bits) ++ raw ++ packUInt16 rank).
  unfold createUdpReaskAckPayload, parseUdpReaskAckPayload.
  destruct (Z.ltb_spec 65535 (len bits)); [lia|]. split; [done|].
  set (n := len (packUInt16 (len bits) ++ raw ++ packUInt16 rank)).
  assert (n = 2 + byteCount (len bits) + 2) as Hn.
  { unfold n. rewrite !len_app, Hr. change (len (packUInt16 rank)) with 2.
    change (len (packUInt16 (len bits))) with 2. lia. }
  destruct (Z.eqb_spec n 2); [lia|]. destruct (Z.ltb_spec n 4); [lia|]. cbv iota beta delta [negb andb].
  apply ends_parse. fold n. apply ends_size. destruct (Z.ltb_spec 2 n); [|lia].
  intros data Ha Hd. unfold tell. monad. rewrite (reads_u16 (len bits) ltac:(lia) _ _ _ Ha).
  apply ahead_step in Ha. change (len (packUInt16 (len bits))) with 2 in *.
  destruct (Z.eqb_spec (n - (0 + 2)) (byteCount (len bits) + 2)); [|lia]. simpl negb. cbv iota.
  rewrite (reads_bytes _ raw Hr ltac:(lia) _ _ _ Ha). apply ahead_step in Ha. rewrite Hr in *.
  replace (Z.to_nat (len bits)) with (length bits) by (unfold len; lia).
  unfold raw at 1, lift. rewrite (getBits_setBits _ highFirst_ok).
  rewrite <- (app_nil_r (packUInt16 rank)) in Ha. rewrite (reads_u16 rank Hrk _ _ _ Ha).
  change (len (packUInt16 rank)) with 2. do 2 f_equal. lia.
Qed.

(** *** Source exchange *)

Definition address_ok (e : Endpoint) : Prop :=
  0 <= port e < 2 ^ 16 /\ exists ip, 0 <= ip < 2 ^ 32 /\ host e = ipv4FromEndpoint ip.

Lemma reads_address e :
  address_ok e ->
  exists b, packEndpoint e = Ok b /\ len b = 6 /\ reads readEndpoint b (mkEndpoint (host e) (port e) 0 []).
Proof.
  intros (Hp & ip & Hip). apply (reads_endpoint (mkEndpoint (host e) (port e) 0 [])).
  unfold plainEndpoint. split_and!; [apply Hp..|done|done|by exists ip].
Qed.

(** An entry as the parsers make them; the endpoint has the user hash from
    version [hashFrom] on. *)
Definition entry_ok (hashFrom version : Z) (e : SourceExchangeEntry) : Prop :=
  address_ok (endpoint e) /\ plainEndpoint (server e) /\
  (if 2 <=? version then len (entryHash e) = HASH_LENGTH else entryHash e = []) /\
  (if 4 <=? version then 0 <= entryCrypt e < 256 else entryCrypt e = 0) /\
  cryptOptions (endpoint e) = entryCrypt e /\
  userHash (endpoint e) = (if hashFrom <=? version then entryHash e else []).

(** The bytes of the options. *)
Definition cryptPart (version : Z) (e : SourceExchangeEntry) : bytes :=
  if 4 <=? version then [u8 (entryCrypt e)] else [].

Lemma packEntry_written hashFrom version e :
  entry_ok hashFrom version e -> 1 <= version <= 4 ->
  exists b1 b2, packEntry version e = Ok (b1 ++ b2 ++ entryHash e ++ cryptPart version e) /\
    len (b1 ++ b2 ++ entryHash e ++ cryptPart version e) = entrySize version /\
    reads readEndpoint b1 (mkEndpoint (host (endpoint e)) (port (endpoint e)) 0 []) /\
    reads readEndpoint b2 (server e).
Proof.
  intros (He & Hs & Hh & Hc & _) Hv.
  destruct (reads_address _ He) as (b1 & Hb1 & Hl1 & Hr1). destruct (reads_endpoint _ Hs) as (b2 & Hb2 & Hl2 & Hr2).
  exists b1, b2. unfold packEntry, entrySize, cryptPart. monad. rewrite Hb1, Hb2, !len_app, Hl1, Hl2.
  destruct (Z.leb_spec 2 version), (Z.leb_spec 4 version), (Z.eqb_spec version 1), (Z.ltb_spec version 4); try lia;
    rewrite ?hash_valid, Hh by done; done.
Qed.

Lemma reads_cryptPart version e f :
  (if 4 <=? version then 0 <= entryCrypt e < 256 else entryCrypt e = 0) ->
  reads (if 4 <=? version then crypt ← readByte; mret (f crypt, crypt) else mret (f 0, 0))
    (cryptPart version e) (f (entryCrypt e) : Endpoint, entryCrypt e).
Proof.
  intros Hc. unfold cryptPart. destruct (4 <=? version); [|rewrite Hc; apply reads_ret].
  eapply reads_last; [by apply reads_byte_u8|]. apply reads_ret.
Qed.

Lemma reads_entry version e b1 b2 :
  entry_ok 2 version e -> reads readEndpoint b1 (mkEndpoint (host (endpoint e)) (port (endpoint e)) 0 []) ->
  reads readEndpoint b2 (server e) ->
  reads (readEntry version) (b1 ++ b2 ++ entryHash e ++ cryptPart version e) e.
Proof.
  intros (_ & _ & Hh & Hc & E1 & E2) H1 H2. destruct e as [[h p c u] srv hash crypt]. simpl in *. subst c u.
  unfold readEntry. eapply reads_bind; [exact H1|]. eapply reads_bind; [exact H2|].
  eapply (reads_bind _ _ hash _ (mkEndpoint h p 0 (if 2 <=? version then hash else []), hash)).
  - destruct (2 <=? version); [|subst hash; apply reads_ret].
    eapply reads_last; [by apply reads_hash|]. apply reads_ret.
  - cbn [host port userHash]. eapply (reads_last _ _ _ (mkEndpoint h p crypt (if 2 <=? version then hash else []), crypt)); [|apply reads_ret].
    apply (reads_cryptPart version (mkEntry (mkEndpoint [] 0 0 []) srv hash crypt)
      (fun crypt => mkEndpoint h p crypt (if 2 <=? version then hash else []))). exact Hc.
Qed.

Lemma reads_entry2 version e b1 b2 :
  entry_ok 4 version e -> reads readEndpoint b1 (mkEndpoint (host (endpoint e)) (port (endpoint e)) 0 []) ->
  reads readEndpoint b2 (server e) ->
  reads (readEntry2 version) (b1 ++ b2 ++ entryHash e ++ cryptPart version e) e.
Proof.
  intros (_ & _ & Hh & Hc & E1 & E2) H1 H2. destruct e as [[h p c u] srv hash crypt]. simpl in *. subst c u.
  unfold readEntry2, cryptPart. eapply reads_bind; [exact H1|]. eapply reads_bind; [exact H2|].
  eapply (reads_bind _ _ hash _ hash).
  - destruct (2 <=? version); [by apply reads_hash|subst hash; apply reads_ret].
  - cbn [host port userHash entryCrypt] in *. destruct (4 <=? version).
    + rewrite <- (app_nil_r [u8 crypt]). eapply (reads_bind _ _ _ _ (mkEndpoint h p crypt hash, crypt)); [|apply reads_ret].
      eapply reads_last; [by apply reads_byte_u8|]. apply reads_ret.
    + subst crypt. eapply reads_first; apply reads_ret.
Qed.

Lemma packEntries_ok hashFrom (r : Z -> reader SourceExchangeEntry) version entries payload :
  (forall e b1 b2, entry_ok hashFrom version e ->
    reads readEndpoint b1 (mkEndpoint (host (endpoint e)) (port (endpoint e)) 0 []) ->
    reads readEndpoint b2 (server e) -> reads (r version) (b1 ++ b2 ++ entryHash e ++ cryptPart version e) e) ->
  1 <= version <= 4 -> Forall (entry_ok hashFrom version) entries ->
  exists b, appendAll (packEntry version) entries payload = Ok (payload ++ b) /\
    len b = entrySize version * len entries /\ reads (readMany (length entries) (r version)) b entries.
Proof.
  intros Hr Hv Hall. rewrite Forall_forall in Hall.
  edestruct (appendAll_reads (r version) (packEntry version) (fun e => e) (entrySize version) entries payload)
    as (b & Hb); [|rewrite list_fmap_id in Hb; by exists b]. intros e He. specialize (Hall e He).
  destruct (packEntry_written _ _ _ Hall Hv) as (b1 & b2 & Hw & Hl & H1 & H2).
  eexists. split_and!; [exact Hw|done|]. by apply Hr.
Qed.

Lemma answerSources_ok hash version entries old :
  len hash = HASH_LENGTH -> 1 <= version <= 4 -> len entries <= 500 -> Forall (entry_ok 2 version) entries ->
  exists payload, createAnswerSourcesPayload hash version entries = Ok payload /\
    parseAnswerSourcesPayload old payload hash version = Ok (true, mkAnswer version entries).
Proof.
  intros Hh Hv Hn Hall. pose proof (len_nonneg entries). set (prefix := hash ++ packUInt16 (len entries)).
  destruct (packEntries_ok 2 readEntry version entries prefix (reads_entry version) Hv Hall) as (b & Hb & Hl & Hr).
  unfold createAnswerSourcesPayload, parseAnswerSourcesPayload, SOURCE_EXCHANGE2_VERSION. fold prefix. monad.
  rewrite hash_valid by done. destruct (Z.eqb_spec version 0); [lia|]. destruct (Z.ltb_spec 4 version); [lia|].
  destruct (Z.ltb_spec 500 (len entries)); [lia|]. exists (prefix ++ b). split; [exact Hb|].
  pose proof (len_nonneg b) as Hb0. assert (len (prefix ++ b) = HASH_LENGTH + 2 + len b) as Hp.
  { unfold prefix. by rewrite !len_app, Hh. }
  destruct (Z.ltb_spec (len (prefix ++ b)) (HASH_LENGTH + 2)); [lia|]. cbv iota beta delta [orb].
  apply ends_parse. rewrite Hp. unfold prefix. rewrite <- app_assoc.
  eapply ends_bind; [by apply reads_hash|]. rewrite same_hash. eapply ends_bind; [apply reads_u16; lia|].
  cbv beta. destruct (Z.ltb_spec 500 (len entries)); [lia|]. apply ends_tell, ends_size. rewrite Hh.
  change (len (packUInt16 (len entries))) with 2.
  match goal with |- context [?x =? ?y] => destruct (Z.eqb_spec x y); [|lia] end. simpl negb. cbv iota.
  replace (Z.to_nat (len entries)) with (length entries) by (unfold len; lia).
  eapply ends_last; [exact Hr|]. apply ends_ret.
Qed.

Lemma answerSources2_ok hash version entries old :
  len hash = HASH_LENGTH -> 1 <= version <= 4 -> len entries <= 500 -> Forall (entry_ok 4 version) entries ->
  exists payload, createAnswerSources2Payload hash version entries = Ok payload /\
    parseAnswerSources2Payload old payload hash = Ok (true, mkAnswer version entries).
Proof.
  intros Hh Hv Hn Hall. pose proof (len_nonneg entries).
  set (prefix := [u8 version] ++ hash ++ packUInt16 (len entries)).
  destruct (packEntries_ok 4 readEntry2 version entries prefix (reads_entry2 version) Hv Hall) as (b & Hb & Hl & Hr).
  unfold createAnswerSources2Payload, parseAnswerSources2Payload, SOURCE_EXCHANGE2_VERSION. fold prefix. monad.
  rewrite hash_valid by done. destruct (Z.eqb_spec version 0); [lia|]. destruct (Z.ltb_spec 4 version); [lia|].
  destruct (Z.ltb_spec 500 (len entries)); [lia|]. exists (prefix ++ b). split; [exact Hb|].
  pose proof (len_nonneg b) as Hb0. assert (len (prefix ++ b) = 1 + HASH_LENGTH + 2 + len b) as Hp.
  { unfold prefix. by rewrite !len_app, Hh. }
  apply ends_parse. rewrite Hp. unfold prefix. rewrite <- !app_assoc.
  eapply ends_bind; [apply reads_byte_u8; lia|].
  eapply ends_bind; [by apply reads_hash|]. rewrite same_hash.
  destruct (Z.eqb_spec version 0); [lia|]. destruct (Z.ltb_spec 4 version); [lia|]. cbv iota beta delta [orb].
  eapply ends_bind; [apply reads_u16; lia|].
  cbv beta. destruct (Z.ltb_spec 500 (len entries)); [lia|]. apply ends_tell, ends_size. rewrite Hh.
  change (len (packUInt16 (len entries))) with 2. change (len [u8 version]) with 1.
  match goal with |- context [?x =? ?y] => destruct (Z.eqb_spec x y); [|lia] end. simpl negb. cbv iota.
  replace (Z.to_nat (len entries)) with (length entries) by (unfold len; lia).
  eapply ends_last; [exact Hr|]. apply ends_ret.
Qed.

(** *** Handshake *)

(** The tags the handshakes are made of. *)
Definition writeTag (t : Tag) : bytes :=
  if bool_decide (valueType t = STRING) then createStringTag (id t) (stringValue t)
  else createUInt32Tag (id t) (intValue t).
Definition uintTag (id value : Z) : Tag := mkTag id [] 3 UINT [] value [].
Definition stringTag (id : Z) (value : bytes) : Tag := mkTag id [] (stringTagType value) STRING value 0 [].

Definition plainTag (t : Tag) : Prop :=
  0 <= id t < 256 /\
  ((exists v, t = uintTag (id t) v /\ 0 <= v < 2 ^ 32) \/ (exists s, t = stringTag (id t) s /\ len s < 2 ^ 16)).

Lemma tagList_ok tags l :
  Forall plainTag l -> len l <= 10000 -> parseTagList tags (packUInt32 (len l) ++ (l ≫= writeTag)) = Ok (true, l).
Proof.
  intros Hall Hl. apply parseTagList_written; [|done]. rewrite Forall_forall in Hall. intros t Ht.
  destruct (Hall t Ht) as (Hid & [(v & E & Hv) | (s & E & Hs)]); rewrite E; cbn [id] in *.
  - by apply reads_uint32Tag.
  - by apply reads_stringTag.
Qed.

Lemma plain_uint id v : 0 <= id < 256 -> 0 <= v < 2 ^ 32 -> plainTag (uintTag id v).
Proof. intros Hid Hv. split; [done|]. left. by exists v. Qed.
Lemma plain_string id s : 0 <= id < 256 -> len s < 2 ^ 16 -> plainTag (stringTag id s).
Proof. intros Hid Hv. split; [done|]. right. by exists s. Qed.

Ltac plain_tags :=
  repeat (apply Forall_cons; split; [first [apply plain_uint|apply plain_string]; first [done|lia]|]);
  apply Forall_nil; exact I.

Definition infoTags (i : EmulePeerInfo) : list Tag :=
  let m := miscOptions i in
  [uintTag ET_COMPRESSION (dataCompressionVersion m); uintTag ET_UDPPORT (udpPort i);
   uintTag ET_UDPVER (udpVersion m); uintTag ET_SOURCEEXCHANGE (sourceExchange1Version m);
   uintTag ET_COMMENTS 0; uintTag ET_EXTENDEDREQUEST (extendedRequestsVersion m);
   uintTag ET_COMPATIBLECLIENT SO_AMULE; uintTag ET_FEATURES (Z.land (secureIdentVersion m) 0x03);
   stringTag ET_MOD_VERSION (str "aria2-next")].

Definition helloTags (name : bytes) (i : EmulePeerInfo) : list Tag :=
  [stringTag 0x01 name; uintTag 0x11 0x3c;
   uintTag CT_EMULE_UDPPORTS (Z.lor (Z.shiftl (udpPort i) 16) (udpPort i));
   uintTag CT_EMULE_VERSION (Z.lor (Z.shiftl SO_AMULE 24) ARIA2_NEXT_EMULE_VERSION);
   uintTag CT_EMULE_MISCOPTIONS1 (emuleMiscOptionsValue (miscOptions i));
   uintTag CT_EMULE_MISCOPTIONS2 (emuleMiscOptions2Value (miscOptions2 i));
   uintTag CT_EMULECOMPAT_OPTIONS 1].

Lemma createEmuleInfo_tags i :
  createEmuleInfoPayload i =
    [u8 (version i); u8 (protocolVersion i)] ++ packUInt32 (len (infoTags i)) ++ (infoTags i ≫= writeTag).
Proof. unfold createEmuleInfoPayload, infoTags. rewrite !bind_cons.
  change ([] ≫= writeTag) with ([] : bytes). by rewrite app_nil_r. Qed.

Definition info_ok (i : EmulePeerInfo) : Prop :=
  0 <= version i < 256 /\ 0 <= protocolVersion i < 256 /\ 0 <= udpPort i < 2 ^ 16 /\
  misc_ok (miscOptions i) /\ misc2_ok (miscOptions2 i).

Lemma land_byte v n : 0 <= n -> 0 <= v < 2 ^ n -> Z.land v (2 ^ n - 1) = v.
Proof. intros Hn Hv. rewrite land_low by done. by apply Z.mod_small. Qed.

Section info_tags.
Context (i : EmulePeerInfo) (v : Z).
Lemma tag_compression :
  applyInfoTag i (uintTag ET_COMPRESSION v) = setMisc (setCompression (Z.land v 0xff) (miscOptions i)) i.
Proof. reflexivity. Qed.
Lemma tag_udpPort : applyInfoTag i (uintTag ET_UDPPORT v) = setUdpPort (Z.land v 0xffff) i.
Proof. reflexivity. Qed.
Lemma tag_udpVersion :
  applyInfoTag i (uintTag ET_UDPVER v) = setMisc (setUdpVersion (Z.land v 0xff) (miscOptions i)) i.
Proof. reflexivity. Qed.
Lemma tag_sourceExchange :
  applyInfoTag i (uintTag ET_SOURCEEXCHANGE v) = setMisc (setSourceExchange1 (Z.land v 0xff) (miscOptions i)) i.
Proof. reflexivity. Qed.
Lemma tag_extendedRequests :
  applyInfoTag i (uintTag ET_EXTENDEDREQUEST v) = setMisc (setExtendedRequests (Z.land v 0xff) (miscOptions i)) i.
Proof. reflexivity. Qed.
Lemma tag_features :
  applyInfoTag i (uintTag ET_FEATURES v) = setMisc (setSecureIdent (Z.land v 0x03) (miscOptions i)) i.
Proof. reflexivity. Qed.
Lemma tag_ignored t :
  valueType t = STRING \/ id t = ET_COMMENTS \/ id t = ET_COMPATIBLECLIENT -> applyInfoTag i t = i.
Proof. unfold applyInfoTag. intros [-> | [-> | ->]]; [done|by destruct (bool_decide _)..]. Qed.
End info_tags.

Ltac tag_step :=
  cbv [setMisc setMisc2 setUdpPort setSecureIdent setExtendedRequests setSourceExchange1 setUdpVersion
       setCompression peerHash version protocolVersion udpPort miscOptions miscOptions2 aichVersion unicode
       udpVersion dataCompressionVersion secureIdentVersion sourceExchange1Version extendedRequestsVersion
       multiPacket].

(** What an info packet tells; the other fields stay. *)
Lemma emuleInfo_ok i old :
  info_ok i -> secureIdentVersion (miscOptions i) < 4 ->
  parseEmuleInfoPayload old (createEmuleInfoPayload i) =
    Ok (true, mkInfo (peerHash old) (version i) (protocolVersion i) (udpPort i)
      (mkMisc (aichVersion (miscOptions old)) (unicode (miscOptions old)) (udpVersion (miscOptions i))
         (dataCompressionVersion (miscOptions i)) (secureIdentVersion (miscOptions i))
         (sourceExchange1Version (miscOptions i)) (extendedRequestsVersion (miscOptions i))
         (multiPacket (miscOptions old))) (miscOptions2 old)).
Proof.
  intros (Hv & Hp & Hu & (_ & M1 & M2 & M3 & M4 & M5) & _) Hs. rewrite createEmuleInfo_tags.
  assert (Forall plainTag (infoTags i)) as Hall.
  { assert (0 <= Z.land (secureIdentVersion (miscOptions i)) 3 < 2 ^ 32).
    { change 3 with (2 ^ 2 - 1). rewrite land_byte; lia. }
    plain_tags. }
  unfold parseEmuleInfoPayload.
  set (rest := packUInt32 _ ++ _). assert (4 <= len rest) as Hr.
  { unfold rest. rewrite len_app. change (len (packUInt32 _)) with 4. pose proof (len_nonneg (infoTags i ≫= writeTag)). lia. }
  rewrite len_app. change (len [_; _]) with 2. destruct (Z.ltb_spec (2 + len rest) 6); [lia|].
  change (drop 2 _) with rest. unfold rest. rewrite tagList_ok by done.
  change (at_ _ 0) with (Ok (u8 (version i)) : result Z). change (at_ _ 1) with (Ok (u8 (protocolVersion i)) : result Z).
  rewrite !u8_small by done. unfold infoTags. monad. simpl negb. cbv iota. do 2 f_equal.
  destruct old as [h v p u [a uu uv d si se er m] m2], i as [ih iv ip iu [ia iu' iuv id' isi ise ier im] im2].
  clear Hall Hr H. cbn in Hv, Hp, Hu, M1, M2, M3, M4, M5, Hs. cbn [foldl].
  rewrite tag_compression; tag_step. rewrite tag_udpPort; tag_step. rewrite tag_udpVersion; tag_step.
  rewrite tag_sourceExchange; tag_step. rewrite (tag_ignored _ (uintTag ET_COMMENTS 0)) by auto.
  rewrite tag_extendedRequests; tag_step. rewrite (tag_ignored _ (uintTag ET_COMPATIBLECLIENT SO_AMULE)) by auto.
  rewrite tag_features; tag_step. rewrite tag_ignored by auto.
  change 255 with (2 ^ 8 - 1). change 3 with (2 ^ 2 - 1). change 65535 with (2 ^ 16 - 1).
  rewrite (land_byte isi 2) by lia. by rewrite !land_byte by lia.
Qed.

Lemma middle (p m q : bytes) : take (length m) (drop (length p) (p ++ m ++ q)) = m.
Proof. by rewrite drop_app_length, take_app_length. Qed.

(** The parts of a hello packet. *)
Lemma createPeerHello_parts hash clientId listenPort server name i helloPacket :
  len hash = HASH_LENGTH -> address_ok server \/ host server = [] ->
  exists e, len e = 6 /\
    createPeerHelloPayload hash clientId listenPort server name i helloPacket =
      Ok (((if helloPacket then [HASH_LENGTH] else []) ++ hash ++ packUInt32 clientId ++ packUInt16 listenPort) ++
          (packUInt32 (len (helloTags name i)) ++ (helloTags name i ≫= writeTag)) ++ e).
Proof.
  intros Hh Hs. unfold createPeerHelloPayload. monad. rewrite hash_valid by done.
  unfold helloTags. rewrite !bind_cons. change ([] ≫= writeTag) with ([] : bytes).
  rewrite app_nil_r. change (packUInt32 (len (_ :: _))) with (packUInt32 7).
  destruct (bool_decide (host server = []) || (port server =? 0)) eqn:E.
  - exists (replicate 6 0). split; [done|]. f_equal. by rewrite <- !app_assoc.
  - apply orb_false_elim in E as [E _]. apply bool_decide_eq_false in E. destruct Hs as [Hs|Hs]; [|done].
    destruct (reads_address _ Hs) as (b & Hb & Hl & _). exists b. split; [done|]. rewrite Hb.
    f_equal. by rewrite <- !app_assoc.
Qed.

Section hello_tags.
Context (i : EmulePeerInfo) (v : Z).
Lemma tag_misc1 : applyHelloTag i (uintTag CT_EMULE_MISCOPTIONS1 v) = setMisc (parseEmuleMiscOptions v) i.
Proof. reflexivity. Qed.
Lemma tag_misc2 : applyHelloTag i (uintTag CT_EMULE_MISCOPTIONS2 v) = setMisc2 (parseEmuleMiscOptions2 v) i.
Proof. reflexivity. Qed.
Lemma tag_udpPorts : applyHelloTag i (uintTag CT_EMULE_UDPPORTS v) = setUdpPort (Z.land v 0xffff) i.
Proof. reflexivity. Qed.
Lemma hello_ignored t :
  valueType t = STRING \/ id t = 0x11 \/ id t = CT_EMULE_VERSION \/ id t = CT_EMULECOMPAT_OPTIONS ->
  applyHelloTag i t = i.
Proof. unfold applyHelloTag. intros [-> | [-> | [-> | ->]]]; [done|by destruct (bool_decide _)..]. Qed.
End hello_tags.

Lemma helloTags_apply name i old :
  info_ok i ->
  foldl applyHelloTag old (helloTags name i) =
    mkInfo (peerHash old) (version old) (protocolVersion old) (udpPort i) (miscOptions i) (miscOptions2 i).
Proof.
  intros (_ & _ & Hu & Hm & Hm2). unfold helloTags. cbn [foldl].
  rewrite (hello_ignored _ (stringTag 1 name)), (hello_ignored _ (uintTag 17 60)) by auto.
  rewrite tag_udpPorts, (hello_ignored _ (uintTag CT_EMULE_VERSION _)), tag_misc1, tag_misc2, hello_ignored by auto.
  destruct (misc_roundtrip _ Hm) as [_ ->]. destruct (misc2_roundtrip _ Hm2) as [_ ->].
  rewrite shiftl_lor by lia. change 65535 with (2 ^ 16 - 1). rewrite land_low by lia.
  rewrite Z.add_comm, Z.mod_add, Z.mod_small by lia. done.
Qed.

Lemma helloTags_plain name i : info_ok i -> len name < 2 ^ 16 -> Forall plainTag (helloTags name i).
Proof.
  intros (_ & _ & Hu & Hm & Hm2) Hn. destruct (misc_roundtrip _ Hm) as [H1 _].
  destruct (misc2_roundtrip _ Hm2) as [H2 _].
  assert (0 <= Z.lor (Z.shiftl (udpPort i) 16) (udpPort i) < 2 ^ 32) by (rewrite shiftl_lor by lia; lia).
  unfold helloTags. plain_tags.
Qed.

Lemma peerHello_ok hash clientId listenPort server name i helloPacket old :
  len hash = HASH_LENGTH -> address_ok server \/ host server = [] -> info_ok i -> len name < 2 ^ 16 ->
  exists payload, createPeerHelloPayload hash clientId listenPort server name i helloPacket = Ok payload /\
    parsePeerHelloPayload old payload helloPacket =
      Ok (true, mkInfo hash (version old) (protocolVersion old) (udpPort i) (miscOptions i) (miscOptions2 i)) /\
    parsePeerHelloUserHash [] payload helloPacket = (true, hash).
Proof.
  intros Hh Hs Hi Hn.
  destruct (createPeerHello_parts hash clientId listenPort server name i helloPacket Hh Hs) as (e & He & Hc).
  eexists. split; [exact Hc|]. set (tags := packUInt32 _ ++ (_ ≫= writeTag)).
  set (prefix := if helloPacket then [HASH_LENGTH] else []).
  assert (len prefix = bit helloPacket) as Hp by by destruct helloPacket.
  set (front := prefix ++ hash ++ packUInt32 clientId ++ packUInt16 listenPort).
  assert (len front = bit helloPacket + HASH_LENGTH + 6) as Hf.
  { unfold front. rewrite !len_app, Hp, Hh. change (len (packUInt32 clientId)) with 4.
    change (len (packUInt16 listenPort)) with 2. lia. }
  pose proof (len_nonneg tags) as Ht. pose proof (bit_bounds helloPacket) as Hb.
  assert (len (front ++ tags ++ e) = len front + len tags + 6) as Hl by (rewrite !len_app; lia).
  assert (ahead (front ++ tags ++ e) (bit helloPacket) (hash ++ (packUInt32 clientId ++ packUInt16 listenPort) ++ tags ++ e)) as Ha.
  { rewrite <- Hp, <- (Z.add_0_l (len prefix)). apply ahead_step. unfold front. rewrite <- !app_assoc. apply ahead_start. }
  split.
  - unfold parsePeerHelloPayload. destruct (Z.ltb_spec (len (front ++ tags ++ e)) (bit helloPacket + HASH_LENGTH + 4 + 2 + 6)); [lia|].
    unfold parse, seek, tell, size, whole, lift. monad.
    rewrite (reads_hash hash Hh _ _ _ Ha), Hh, Hl, Hf.
    match goal with |- context [?x <? ?y] => destruct (Z.ltb_spec x y); [lia|] end.
    replace (bit helloPacket + HASH_LENGTH + (4 + 2)) with (len front) by lia.
    replace (bit helloPacket + HASH_LENGTH + 6 + len tags + 6 - 6 - len front) with (len tags) by lia.
    unfold len at 1 2. rewrite !Nat2Z.id, middle. unfold tags.
    rewrite tagList_ok by (done || by apply helloTags_plain). simpl negb. cbv iota.
    by rewrite helloTags_apply by done.
  - unfold parsePeerHelloUserHash. destruct (Z.ltb_spec (len (front ++ tags ++ e)) (bit helloPacket + HASH_LENGTH)); [lia|].
    destruct Ha as [_ Hd]. rewrite Hd. f_equal. apply take_app_length'. unfold len, HASH_LENGTH in Hh. lia.
Qed.

(** *** Staying inside the data *)

Lemma safe_bits {A} mask bitCount (k : list bool -> reader A) :
  0 <= bitCount < 2 ^ 16 -> (forall l, safe (k l)) ->
  safe (raw ← readBytes (byteCount bitCount); bits ← lift (getBits mask (Z.to_nat bitCount) raw); k bits).
Proof.
  intros Hb Hk. pose proof (byteCount_bounds bitCount Hb). apply safe_bytes_len; [lia|]. intros raw Hr.
  apply safe_bind; [|done]. apply safe_lift, getBits_sane. rewrite Z2Nat.id; lia.
Qed.

Lemma safe_partStatus bits : safe (readPartStatus bits).
Proof.
  unfold readPartStatus. apply safe_bind; [apply safe_tell|]. intros o. apply safe_bind; [apply safe_size|].
  intros n. apply safe_if; [apply safe_ret|]. apply safe_u16_range. intros v Hv.
  apply safe_bind; [apply safe_tell|]. intros o'. apply safe_if; [apply safe_ret|].
  apply safe_bits; [done|]. intros l. apply safe_ret.
Qed.
#[export] Hint Resolve safe_partStatus : wire.

Lemma safe_multipacketRound a : safe (multipacketRound a).
Proof. unfold multipacketRound, readUInt16String. solve_safe. Qed.
Lemma eats_multipacketRound a : eats (multipacketRound a).
Proof.
  apply eats_bind; [apply safe_byte|apply eats_byte|]. intros opcode. unfold readUInt16String. solve_safe.
Qed.
Lemma safe_readEntry version : safe (readEntry version).
Proof. unfold readEntry. solve_safe. Qed.
Lemma safe_readEntry2 version : safe (readEntry2 version).
Proof. unfold readEntry2. solve_safe. Qed.
#[export] Hint Resolve safe_readEntry safe_readEntry2 : wire.


(** ** Properties *)

(** C36. What one peer writes about a file, another peer reads: the part status
    of a file (also in the order of bits of the UDP answer), the hashes of its
    parts, the rank in the queue, the request for sources and the UDP request
    come back as they were sent, and none of the writers throws. The bounds
    are those of the fields: a hash has 16 bytes, a count and a rank 16
    bits. *)
Theorem peer_messages_roundtrip hash bits hashes sources rank :
  len hash = HASH_LENGTH -> len bits < 2 ^ 16 -> len hashes < 2 ^ 16 ->
  Forall (fun h => len h = HASH_LENGTH) hashes -> 0 <= sources < 2 ^ 16 -> 0 <= rank < 2 ^ 16 ->
  (exists p, createFileStatusPayload hash bits = Ok p /\
     forall old, parseFileStatusPayload old p hash (len bits) = Ok (true, bits)) /\
  (exists p, createHashSetAnswerPayload hash hashes = Ok p /\
     forall old, parseHashSetAnswerPayload old p hash = Ok (true, hashes)) /\
  (forall old, parseQueueRankPayload old (createQueueRankPayload rank) = Ok (true, rank)) /\
  (exists p, createRequestSources2Payload hash = Ok p /\
     forall old, parseRequestSources2Payload old p hash = Ok (true, SOURCE_EXCHANGE2_VERSION)) /\
  (exists p, createUdpReaskFilePingPayload hash bits sources = Ok p /\
     forall old, parseUdpReaskFilePingPayload old p = Ok (true, mkReask hash bits sources true)) /\
  (exists p, createUdpReaskAckPayload bits rank = Ok p /\
     forall old, parseUdpReaskAckPayload old p = Ok (true, mkAck bits rank)).
Proof.
  intros Hh Hb Hn Hall Hs Hr. split_and!.
  - destruct (fileStatus_ok hash bits [] Hh Hb) as (p & Hp & _). exists p. split; [done|]. intros old.
    destruct (fileStatus_ok hash bits old Hh Hb) as (q & Hq & Hpq). rewrite Hp in Hq. injection Hq as <-.
    unfold parseFileStatusPayload. monad. rewrite Hpq. simpl negb. cbv iota.
    destruct bits as [|b bits]; [done|]. rewrite bool_decide_eq_false_2 by done. simpl andb. cbv iota.
    by rewrite Z.eqb_refl, orb_true_r.
  - destruct (hashSet_ok hash hashes [] Hh Hn Hall) as (p & Hp & _). exists p. split; [done|]. intros old.
    destruct (hashSet_ok hash hashes old Hh Hn Hall) as (q & Hq & Hpq). rewrite Hp in Hq. by injection Hq as <-.
  - intros old. by apply queueRank_ok.
  - destruct (requestSources2_ok hash 0 Hh) as (p & Hp & _). exists p. split; [done|]. intros old.
    destruct (requestSources2_ok hash old Hh) as (q & Hq & Hpq). rewrite Hp in Hq. by injection Hq as <-.
  - destruct (reaskPing_ok hash bits sources (mkReask [] [] 0 false) Hh Hb Hs) as (p & Hp & _). exists p.
    split; [done|]. intros old. destruct (reaskPing_ok hash bits sources old Hh Hb Hs) as (q & Hq & Hpq).
    rewrite Hp in Hq. by injection Hq as <-.
  - destruct (reaskAck_ok bits rank (mkAck [] 0) Hb Hr) as (p & Hp & _). exists p. split; [done|]. intros old.
    destruct (reaskAck_ok bits rank old Hb Hr) as (q & Hq & Hpq). rewrite Hp in Hq. by injection Hq as <-.
Qed.

(** A source exchange answer, in each of its versions 1 to 4 and in both
    packets, is read as the version and the entries it was made of. *)
Lemma source_exchange_roundtrip hash version entries old :
  len hash = HASH_LENGTH -> 1 <= version <= 4 -> len entries <= 500 ->
  (Forall (entry_ok 2 version) entries ->
   exists p, createAnswerSourcesPayload hash version entries = Ok p /\
     parseAnswerSourcesPayload old p hash version = Ok (true, mkAnswer version entries)) /\
  (Forall (entry_ok 4 version) entries ->
   exists p, createAnswerSources2Payload hash version entries = Ok p /\
     parseAnswerSources2Payload old p hash = Ok (true, mkAnswer version entries)).
Proof.
  intros Hh Hv Hn. split; intros Hall; [by apply answerSources_ok|by apply answerSources2_ok].
Qed.

(** A peer that reads a hello learns the sender's hash, UDP port and both
    words of options, whatever the sender's server, name and ids are; one that
    reads the older info packet learns the versions it carries and keeps the
    rest of what it knew. *)
Lemma handshake_roundtrip hash clientId listenPort server name i helloPacket old :
  len hash = HASH_LENGTH -> address_ok server \/ host server = [] -> info_ok i -> len name < 2 ^ 16 ->
  (exists p, createPeerHelloPayload hash clientId listenPort server name i helloPacket = Ok p /\
     parsePeerHelloPayload old p helloPacket =
       Ok (true, mkInfo hash (version old) (protocolVersion old) (udpPort i) (miscOptions i) (miscOptions2 i)) /\
     parsePeerHelloUserHash [] p helloPacket = (true, hash)) /\
  (secureIdentVersion (miscOptions i) < 4 ->
   parseEmuleInfoPayload old (createEmuleInfoPayload i) =
     Ok (true, mkInfo (peerHash old) (version i) (protocolVersion i) (udpPort i)
       (mkMisc (aichVersion (miscOptions old)) (unicode (miscOptions old)) (udpVersion (miscOptions i))
          (dataCompressionVersion (miscOptions i)) (secureIdentVersion (miscOptions i))
          (sourceExchange1Version (miscOptions i)) (extendedRequestsVersion (miscOptions i))
          (multiPacket (miscOptions old))) (miscOptions2 old))).
Proof. intros Hh Hs Hi Hn. split; [by apply peerHello_ok|by apply emuleInfo_ok]. Qed.

(** C31. Whatever a peer sends, the parsers of its messages return, or throw a
    [ProtocolError]: no parser reads outside the payload, and the loop over
    the parts of a multipacket answer ends. *)
Theorem peer_parsers_safe payload hash count version helloPacket bits hashes rank answer multi info reask ack :
  sane (parseFileStatusPayload bits payload hash count) /\
  sane (parseHashSetAnswerPayload hashes payload hash) /\
  sane (parseQueueRankPayload rank payload) /\
  sane (parseRequestSources2Payload version payload hash) /\
  sane (parseMultipacketAnswerPayload multi payload hash) /\
  sane (parseAnswerSourcesPayload answer payload hash version) /\
  sane (parseAnswerSources2Payload answer payload hash) /\
  sane (parseEmuleInfoPayload info payload) /\
  sane (parsePeerHelloPayload info payload helloPacket) /\
  sane (parseUdpReaskFilePingPayload reask payload) /\
  sane (parseUdpReaskAckPayload ack payload).
Proof.
  pose proof (len_nonneg payload) as H0. split_and!.
  - unfold parseFileStatusPayload, parseFileStatus. apply sane_bind; [|intros []]; solve_sane.
  - unfold parseHashSetAnswerPayload. solve_sane.
  - unfold parseQueueRankPayload. destruct (Z.eqb_spec (len payload) 2).
    { apply sane_bind; [apply sane_u16; lia|done]. }
    destruct (Z.eqb_spec (len payload) 4); [|done]. apply sane_bind; [apply sane_u32; lia|].
    intros v. by destruct (_ <? _).
  - unfold parseRequestSources2Payload. solve_sane.
  - unfold parseMultipacketAnswerPayload. apply sane_bind; [apply sane_validateHashLength|]. intros _.
    destruct (Z.ltb_spec (len payload) HASH_LENGTH); [done|]. destruct (bool_decide _); [done|].
    apply sane_seek; [done|]. apply safe_bind; [|intros []; apply safe_ret].
    apply safe_loop; [apply safe_multipacketRound|apply eats_multipacketRound].
  - unfold parseAnswerSourcesPayload. solve_sane.
  - unfold parseAnswerSources2Payload. solve_sane.
  - unfold parseEmuleInfoPayload. destruct (Z.ltb_spec (len payload) 6); [done|].
    destruct (at_inside payload 0) as [b0 ->]; [lia|]. destruct (at_inside payload 1) as [b1 ->]; [lia|]. monad.
    pose proof (sane_tagList [] (drop 2 payload)) as Ht.
    destruct (parseTagList [] (drop 2 payload)) as [[ok tags]|]; [|done]. by destruct ok.
  - unfold parsePeerHelloPayload. pose proof (bit_bounds helloPacket).
    match goal with |- context [?x <? ?y] => destruct (Z.ltb_spec x y); [done|] end.
    apply sane_seek; [unfold within, HASH_LENGTH in *; lia|]. solve_safe.
  - unfold parseUdpReaskFilePingPayload, parsePartStatusPayload. solve_sane.
  - unfold parseUdpReaskAckPayload. destruct (_ && _); [done|]. apply safe_parse.
    apply safe_bind; [apply safe_size|]. intros n. apply safe_bind.
    + apply safe_if; [|apply safe_ret]. apply safe_u16_range. intros v Hv. apply safe_bind; [apply safe_tell|].
      intros o. apply safe_if; [apply safe_ret|]. apply safe_bits; [done|]. intros l. apply safe_ret.
    + intros []; solve_safe.
Qed.
End PeerProtocol.

Module PeerExamples.
Import Bytes Text Wire Packet PeerProtocol.

Definition hash : bytes := str "0123456789abcdef".
Definition address : Endpoint := mkEndpoint (str "10.0.0.1") 4662 0 [].

Lemma address_good : address_ok address.
Proof. split; [done|]. exists 0x0100000a. done. Qed.
Lemma address_plain : plainEndpoint address.
Proof. split_and!; [done..|]. exists 0x0100000a. done. Qed.

Lemma peer_messages_roundtrip_witness :
  exists p, createFileStatusPayload hash [true; false; true; true; false; false; false; false; true] = Ok p /\
    forall old, parseFileStatusPayload old p hash 9 =
      Ok (true, [true; false; true; true; false; false; false; false; true]).
Proof.
  refine (proj1 (peer_messages_roundtrip hash [true; false; true; true; false; false; false; false; true]
    [hash] 1 7 eq_refl eq_refl eq_refl _ _ _)); [by repeat constructor|done|done].
Defined.

Definition entry : SourceExchangeEntry :=
  mkEntry (mkEndpoint (str "10.0.0.1") 4662 3 hash) address hash 3.

Lemma source_exchange_roundtrip_witness :
  exists p, createAnswerSources2Payload hash 4 [entry; entry] = Ok p /\
    parseAnswerSources2Payload (mkAnswer 0 []) p hash = Ok (true, mkAnswer 4 [entry; entry]).
Proof.
  apply (proj2 (source_exchange_roundtrip hash 4 [entry; entry] (mkAnswer 0 []) eq_refl ltac:(lia) ltac:(done))).
  assert (entry_ok 4 4 entry) as H.
  { split_and!; [apply address_good|apply address_plain|done..]. }
  apply Forall_cons; split; [exact H|]. apply Forall_cons; split; [exact H|]. by apply Forall_nil.
Defined.

Lemma local_ok : info_ok createLocalEmulePeerInfo.
Proof. split_and!; try done; split_and!; done. Qed.

Lemma handshake_roundtrip_witness :
  exists p, createPeerHelloPayload hash 1 4662 address (str "aria2") createLocalEmulePeerInfo true = Ok p /\
    parsePeerHelloPayload noInfo p true =
      Ok (true, mkInfo hash 0 0 0 (miscOptions createLocalEmulePeerInfo) (miscOptions2 createLocalEmulePeerInfo)) /\
    parsePeerHelloUserHash [] p true = (true, hash).
Proof.
  exact (proj1 (handshake_roundtrip hash 1 4662 address (str "aria2") createLocalEmulePeerInfo true noInfo
    eq_refl (or_introl address_good) local_ok eq_refl)).
Defined.
End PeerExamples.
