(* ===== verification/ServerProtocol.v ===== *)
(** * Messages of the servers: [src/ed2k/ServerProtocol.cc]

    The list of servers a file holds ([server.met]), the packets a server sends
    and the packets it is sent, and the saved state of a server. Reserving
    memory is not modelled. *)

From Stdlib Require Import String.
From S2P Require Import Prelude Bytes Text Wire Packet.

Module ServerProtocol.
Import Bytes Text Wire Packet.

Definition PROTO_EDONKEY : Z := 0xe3.
Definition OP_GLOBFOUNDSOURCES : Z := 0x9b.
Definition SOURCE_CRYPT_HAS_USER_HASH : Z := 0x80.
Definition SERVER_STATE_MAGIC : bytes := str "A2ED2KSRV".
Definition SERVER_STATE_VERSION : Z := 4.
Definition SERVER_TAG_NAME : Z := 0x01.
Definition SERVER_TAG_DESCRIPTION : Z := 0x0b.
Definition SERVER_TAG_DYNIP : Z := 0x85.
Definition SERVER_TAG_MAX_USERS : Z := 0x87.
Definition SERVER_TAG_SOFT_FILES : Z := 0x88.
Definition SERVER_TAG_HARD_FILES : Z := 0x89.
Definition SERVER_TAG_UDP_FLAGS : Z := 0x92.
Definition SERVER_TAG_LOW_ID_USERS : Z := 0x94.
Definition SERVER_TAG_UDP_KEY : Z := 0x95.
Definition SERVER_TAG_TCP_OBFUSCATION_PORT : Z := 0x97.
Definition SERVER_TAG_UDP_OBFUSCATION_PORT : Z := 0x98.

(** ** Data *)

Record FoundSource := mkSource { source : Endpoint; sourceId : Z; lowId : bool }.

Record ServerIdChange := mkIdChange {
  idClientId : Z;
  idTcpFlags : Z;
  auxPort : Z;
  idTcpObfuscationPort : Z;
  idHighId : bool;
  idIpAddress : bytes;
}.

Record ServerStatus := mkStatus {
  challenge : Z;
  statusUsers : Z;
  statusFiles : Z;
  statusMaxUsers : Z;
  statusSoftFiles : Z;
  statusHardFiles : Z;
  statusUdpFlags : Z;
  statusLowIdUsers : Z;
  statusUdpObfuscationPort : Z;
  statusTcpObfuscationPort : Z;
  statusUdpKey : Z;
}.

Record ServerState := mkState {
  endpoint : Endpoint;
  name : bytes;
  description : bytes;
  connecting : bool;
  connected : bool;
  handshakeCompleted : bool;
  tcpObfuscationFailed : bool;
  clientId : Z;
  highId : bool;
  ipAddress : bytes;
  tcpFlags : Z;
  users : Z;
  files : Z;
  maxUsers : Z;
  softFiles : Z;
  hardFiles : Z;
  udpFlags : Z;
  lowIdUsers : Z;
  udpObfuscationPort : Z;
  tcpObfuscationPort : Z;
  udpKey : Z;
  udpStatusChallenge : Z;
  lastUdpStatusTime : Z;
  nextSourceRequestTime : Z;
  lastSourceResponseTime : Z;
  lastSourceCount : Z;
  lastUdpSourceRequestTime : Z;
  failCount : Z;
  lastFailureTime : Z;
  nextRetryTime : Z;
  lastMessage : bytes;
}.

Record ServerMetEntry := mkMet {
  metEndpoint : Endpoint;
  metName : bytes;
  metDescription : bytes;
  metUsers : Z;
  metFiles : Z;
  metMaxUsers : Z;
  metSoftFiles : Z;
  metHardFiles : Z;
  metUdpFlags : Z;
  metLowIdUsers : Z;
  metUdpObfuscationPort : Z;
  metTcpObfuscationPort : Z;
  metUdpKey : Z;
}.

Record ServerIdent := mkIdent {
  identEndpoint : Endpoint;
  identName : bytes;
  identDescription : bytes;
}.

Definition noStatus : ServerStatus := mkStatus 0 0 0 0 0 0 0 0 0 0 0.

Definition setMetEndpoint (v : Endpoint) (e : ServerMetEntry) : ServerMetEntry :=
  mkMet v (metName e) (metDescription e) (metUsers e) (metFiles e) (metMaxUsers e) (metSoftFiles e)
    (metHardFiles e) (metUdpFlags e) (metLowIdUsers e) (metUdpObfuscationPort e) (metTcpObfuscationPort e)
    (metUdpKey e).
Definition setMetName (v : bytes) (e : ServerMetEntry) : ServerMetEntry :=
  mkMet (metEndpoint e) v (metDescription e) (metUsers e) (metFiles e) (metMaxUsers e) (metSoftFiles e)
    (metHardFiles e) (metUdpFlags e) (metLowIdUsers e) (metUdpObfuscationPort e) (metTcpObfuscationPort e)
    (metUdpKey e).
Definition setMetDescription (v : bytes) (e : ServerMetEntry) : ServerMetEntry :=
  mkMet (metEndpoint e) (metName e) v (metUsers e) (metFiles e) (metMaxUsers e) (metSoftFiles e)
    (metHardFiles e) (metUdpFlags e) (metLowIdUsers e) (metUdpObfuscationPort e) (metTcpObfuscationPort e)
    (metUdpKey e).
Definition setMetUsers (v : Z) (e : ServerMetEntry) : ServerMetEntry :=
  mkMet (metEndpoint e) (metName e) (metDescription e) v (metFiles e) (metMaxUsers e) (metSoftFiles e)
    (metHardFiles e) (metUdpFlags e) (metLowIdUsers e) (metUdpObfuscationPort e) (metTcpObfuscationPort e)
    (metUdpKey e).
Definition setMetFiles (v : Z) (e : ServerMetEntry) : ServerMetEntry :=
  mkMet (metEndpoint e) (metName e) (metDescription e) (metUsers e) v (metMaxUsers e) (metSoftFiles e)
    (metHardFiles e) (metUdpFlags e) (metLowIdUsers e) (metUdpObfuscationPort e) (metTcpObfuscationPort e)
    (metUdpKey e).
Definition setMetMaxUsers (v : Z) (e : ServerMetEntry) : ServerMetEntry :=
  mkMet (metEndpoint e) (metName e) (metDescription e) (metUsers e) (metFiles e) v (metSoftFiles e)
    (metHardFiles e) (metUdpFlags e) (metLowIdUsers e) (metUdpObfuscationPort e) (metTcpObfuscationPort e)
    (metUdpKey e).
Definition setMetSoftFiles (v : Z) (e : ServerMetEntry) : ServerMetEntry :=
  mkMet (metEndpoint e) (metName e) (metDescription e) (metUsers e) (metFiles e) (metMaxUsers e) v
    (metHardFiles e) (metUdpFlags e) (metLowIdUsers e) (metUdpObfuscationPort e) (metTcpObfuscationPort e)
    (metUdpKey e).
Definition setMetHardFiles (v : Z) (e : ServerMetEntry) : ServerMetEntry :=
  mkMet (metEndpoint e) (metName e) (metDescription e) (metUsers e) (metFiles e) (metMaxUsers e)
    (metSoftFiles e) v (metUdpFlags e) (metLowIdUsers e) (metUdpObfuscationPort e) (metTcpObfuscationPort e)
    (metUdpKey e).
Definition setMetUdpFlags (v : Z) (e : ServerMetEntry) : ServerMetEntry :=
  mkMet (metEndpoint e) (metName e) (metDescription e) (metUsers e) (metFiles e) (metMaxUsers e)
    (metSoftFiles e) (metHardFiles e) v (metLowIdUsers e) (metUdpObfuscationPort e)
    (metTcpObfuscationPort e) (metUdpKey e).
Definition setMetLowIdUsers (v : Z) (e : ServerMetEntry) : ServerMetEntry :=
  mkMet (metEndpoint e) (metName e) (metDescription e) (metUsers e) (metFiles e) (metMaxUsers e)
    (metSoftFiles e) (metHardFiles e) (metUdpFlags e) v (metUdpObfuscationPort e) (metTcpObfuscationPort e)
    (metUdpKey e).
Definition setMetUdpObfuscationPort (v : Z) (e : ServerMetEntry) : ServerMetEntry :=
  mkMet (metEndpoint e) (metName e) (metDescription e) (metUsers e) (metFiles e) (metMaxUsers e)
    (metSoftFiles e) (metHardFiles e) (metUdpFlags e) (metLowIdUsers e) v (metTcpObfuscationPort e)
    (metUdpKey e).
Definition setMetTcpObfuscationPort (v : Z) (e : ServerMetEntry) : ServerMetEntry :=
  mkMet (metEndpoint e) (metName e) (metDescription e) (metUsers e) (metFiles e) (metMaxUsers e)
    (metSoftFiles e) (metHardFiles e) (metUdpFlags e) (metLowIdUsers e) (metUdpObfuscationPort e) v
    (metUdpKey e).
Definition setMetUdpKey (v : Z) (e : ServerMetEntry) : ServerMetEntry :=
  mkMet (metEndpoint e) (metName e) (metDescription e) (metUsers e) (metFiles e) (metMaxUsers e)
    (metSoftFiles e) (metHardFiles e) (metUdpFlags e) (metLowIdUsers e) (metUdpObfuscationPort e)
    (metTcpObfuscationPort e) v.

(** ** Fields *)

Definition appendByte (payload : bytes) (value : Z) : bytes := payload ++ [u8 value].
Definition appendInt64 (payload : bytes) (value : Z) : bytes := payload ++ packUInt64 (u64 value).
Definition readInt64 : reader Z := v ← readU64; mret (i64 v).

Definition appendString (payload value : bytes) : result bytes :=
  if 65535 <? len value then Err (ProtocolError "ED2K string is too long.")
  else mret (payload ++ packUInt16 (len value) ++ value).
Definition readString : reader bytes := length ← readU16; readBytes length.

Definition appendServerStateEndpoint (payload : bytes) (endpoint : Endpoint) : result bytes :=
  payload ← appendString payload (host endpoint); mret (payload ++ packUInt16 (port endpoint)).
Definition readServerStateEndpoint : reader Endpoint :=
  host ← readString; port ← readU16; mret (mkEndpoint host port 0 []).

Definition tagMatchesName (tag : Tag) (n : bytes) : bool := bool_decide (Packet.name tag = n).
Definition tagMatches (tag : Tag) (i : Z) (n : bytes) : bool := (id tag =? i) || tagMatchesName tag n.

(** The value, or the old one. *)
Definition readTagUInt (value : Z) (tag : Tag) : Z :=
  if bool_decide (valueType tag <> UINT) || (2 ^ 32 - 1 <? intValue tag) then value else u32 (intValue tag).
Definition readTagUInt16 (value : Z) (tag : Tag) : Z :=
  if bool_decide (valueType tag <> UINT) || (2 ^ 16 - 1 <? intValue tag) then value else u16 (intValue tag).

(** ** Lists of servers *)

(** The body of the loop over the tags of an entry. *)
Definition applyMetTag (e : ServerMetEntry) (tag : Tag) : ServerMetEntry :=
  if bool_decide (valueType tag = STRING) then
    if tagMatches tag SERVER_TAG_NAME (str "name") then setMetName (stringValue tag) e
    else if tagMatches tag SERVER_TAG_DESCRIPTION (str "description")
    then setMetDescription (stringValue tag) e
    else if tagMatches tag SERVER_TAG_DYNIP (str "dynip") &&
            bool_decide (host (metEndpoint e) = str "0.0.0.0")
    then let p := metEndpoint e in
         setMetEndpoint (mkEndpoint (stringValue tag) (port p) (cryptOptions p) (userHash p)) e
    else e
  else if tagMatchesName tag (str "users") then setMetUsers (readTagUInt (metUsers e) tag) e
  else if tagMatchesName tag (str "files") then setMetFiles (readTagUInt (metFiles e) tag) e
  else if tagMatches tag SERVER_TAG_MAX_USERS (str "maxusers")
  then setMetMaxUsers (readTagUInt (metMaxUsers e) tag) e
  else if tagMatches tag SERVER_TAG_SOFT_FILES (str "softfiles")
  then setMetSoftFiles (readTagUInt (metSoftFiles e) tag) e
  else if tagMatches tag SERVER_TAG_HARD_FILES (str "hardfiles")
  then setMetHardFiles (readTagUInt (metHardFiles e) tag) e
  else if tagMatches tag SERVER_TAG_UDP_FLAGS (str "udpflags")
  then setMetUdpFlags (readTagUInt (metUdpFlags e) tag) e
  else if tagMatches tag SERVER_TAG_LOW_ID_USERS (str "lowusers")
  then setMetLowIdUsers (readTagUInt (metLowIdUsers e) tag) e
  else if tagMatches tag SERVER_TAG_UDP_KEY (str "udpkey")
  then setMetUdpKey (readTagUInt (metUdpKey e) tag) e
  else if tagMatches tag SERVER_TAG_TCP_OBFUSCATION_PORT (str "tcpportobfuscation")
  then setMetTcpObfuscationPort (readTagUInt16 (metTcpObfuscationPort e) tag) e
  else if tagMatches tag SERVER_TAG_UDP_OBFUSCATION_PORT (str "udpportobfuscation")
  then setMetUdpObfuscationPort (readTagUInt16 (metUdpObfuscationPort e) tag) e
  else e.

(** The body of the loop over the entries. *)
Definition readMetEntry : reader ServerMetEntry :=
  endpoint ← readEndpoint;
  tagCount ← readU32;
  tags ← readMany (Z.to_nat tagCount) readTag;
  mret (foldl applyMetTag (mkMet endpoint [] [] 0 0 0 0 0 0 0 0 0 0) tags).

Definition metEntryKept (e : ServerMetEntry) : bool :=
  negb (bool_decide (host (metEndpoint e) = [])) && negb (port (metEndpoint e) =? 0).

(** [alloc] says for how many entries there is memory. *)
Definition parseServerMetEntries (alloc : Z -> bool) (data : bytes) : result (list ServerMetEntry) :=
  parse (
    header ← readByte;
    _ ← (if negb (header =? 0x0e) && negb (header =? 0x0f) && negb (header =? 0xe0) then seek 0
         else mret tt);
    count ← readU32;
    _ ← reserve alloc count;
    entries ← readMany (Z.to_nat count) readMetEntry;
    mret (filter metEntryKept entries)) data.

Definition parseServerMet (alloc : Z -> bool) (data : bytes) : result (list Endpoint) :=
  entries ← parseServerMetEntries alloc data; mret (map metEndpoint entries).

(** ** Requests *)

Definition createLoginRequestPayload (clientHash : bytes) (clientId listenPort : Z) (clientName : bytes) :
    result bytes :=
  _ ← validateHashLength clientHash;
  mret (clientHash ++ packUInt32 clientId ++ packUInt16 listenPort ++ packUInt32 4 ++
        createUInt32Tag 0x11 0x3c ++ createUInt32Tag 0x20 0x071d ++ createStringTag 0x01 clientName ++
        createUInt32Tag 0xfb (Z.lor (Z.shiftl 3 24) (Z.shiftl 3 17))).

Definition createGetSourcesPayload (fileHash : bytes) (fileSize : Z) : result bytes :=
  _ ← validateHashLength fileHash;
  if fileSize <? 0 then Err (ProtocolError "Bad ED2K file size.")
  else if 2 ^ 32 - 1 <? fileSize then
    mret (fileHash ++ packUInt32 0 ++ packUInt32 (u32 fileSize) ++ packUInt32 (u32 (Z.shiftr (u64 fileSize) 32)))
  else mret (fileHash ++ packUInt32 (u32 fileSize)).

Definition createGlobGetSourcesPayload (fileHash : bytes) (fileSize : Z) (extGetSources2 : bool) : result bytes :=
  if negb extGetSources2 then _ ← validateHashLength fileHash; mret fileHash
  else createGetSourcesPayload fileHash fileSize.

Definition createCallbackRequestPayload (clientId : Z) : bytes := packUInt32 clientId.

(** ** Found sources *)

Definition createFoundSourcesPayload (fileHash : bytes) (sources : list Endpoint) : result bytes :=
  _ ← validateHashLength fileHash;
  if 255 <? len sources then Err (ProtocolError "Too many ED2K sources.")
  else appendAll packEndpoint sources (fileHash ++ [u8 (len sources)]).

(** The overload that returns the sources, and the one that checks the hash. *)
Definition parseFoundSources (payload : bytes) : result (list Endpoint) :=
  parse (
    _ ← readBytes HASH_LENGTH;
    count ← readByte;
    readMany (Z.to_nat count) readEndpoint) payload.
Definition parseFoundSourcesOf (sources : list Endpoint) (payload expectedFileHash : bytes) :
    result (bool * list Endpoint) :=
  _ ← validateHashLength expectedFileHash;
  parse (
    hash ← readBytes HASH_LENGTH;
    if bool_decide (hash <> expectedFileHash) then mret (false, sources)
    else
      count ← readByte;
      sources ← readMany (Z.to_nat count) readEndpoint;
      mret (true, sources)) payload.

(** A source of a datagram. *)
Definition readFoundSource : reader FoundSource :=
  endpoint ← readEndpoint;
  clientId ← lift (ipv4ToEndpointValue (host endpoint));
  mret (mkSource endpoint clientId (clientId <=? 0x00ffffff)).

(** One round of the loop of [parsePackedFoundSourcesPayloads]; its two
    overloads differ in what they make of a source. *)
Definition packedRound {A} (readSource : reader A) (expectedFileHash : bytes) (sources : list A) :
    reader (list A + (bool * list A)) :=
  n ← size; offset ← tell;
  if n - offset <? HASH_LENGTH + 1 then mret (inr (false, sources))
  else
    hash ← readBytes HASH_LENGTH;
    count ← readByte;
    offset ← tell;
    if n - offset <? count * 6 then mret (inr (false, sources))
    else
      found ← readMany (Z.to_nat count) readSource;
      let sources := if bool_decide (hash = expectedFileHash) then sources ++ found else sources in
      offset ← tell;
      if offset =? n then mret (inr (true, sources))
      else if n - offset <? 2 then mret (inr (true, sources))
      else
        data ← whole;
        protocol ← lift (at_ data offset);
        opcode ← lift (at_ data (offset + 1));
        if negb (protocol =? PROTO_EDONKEY) || negb (opcode =? OP_GLOBFOUNDSOURCES)
        then mret (inr (true, sources))
        else _ ← seek (offset + 2); mret (inl sources).

Definition parsePackedFoundSourcesPayloads {A} (readSource : reader A) (payload expectedFileHash : bytes) :
    result (bool * list A) :=
  _ ← validateHashLength expectedFileHash;
  parse (
    r ← loop (packedRound readSource expectedFileHash) [];
    match r with inl sources => mret (true, sources) | inr r => mret r end) payload.

(** A source of a packet. *)
Definition readPacketSource (obfuscated : bool) : reader FoundSource :=
  endpoint ← readEndpoint;
  endpoint ← (if obfuscated then
      crypt ← readByte;
      if negb (Z.land crypt SOURCE_CRYPT_HAS_USER_HASH =? 0) then
        hash ← readBytes HASH_LENGTH; mret (mkEndpoint (host endpoint) (port endpoint) crypt hash)
      else mret (mkEndpoint (host endpoint) (port endpoint) crypt (userHash endpoint))
    else mret endpoint);
  clientId ← lift (ipv4ToEndpointValue (host endpoint));
  mret (mkSource endpoint clientId (clientId <=? 0x00ffffff)).

Definition parseFoundSourcesPayload (sources : list FoundSource) (payload expectedFileHash : bytes)
    (obfuscated : bool) : result (bool * list FoundSource) :=
  _ ← validateHashLength expectedFileHash;
  parse (
    hash ← readBytes HASH_LENGTH;
    if bool_decide (hash <> expectedFileHash) then mret (false, sources)
    else
      count ← readByte;
      sources ← readMany (Z.to_nat count) (readPacketSource obfuscated);
      offset ← tell; n ← size;
      mret (offset =? n, sources)) payload.

(** ** What a server says *)

Definition parseCallbackRequestIncomingPayload (endpoint : Endpoint) (payload : bytes) :
    result (bool * Endpoint) :=
  if negb (len payload =? 6) && (len payload <? 23) then mret (false, endpoint)
  else parse (
    endpoint ← readEndpoint;
    if 23 <=? len payload then
      crypt ← readByte; hash ← readBytes HASH_LENGTH;
      mret (true, mkEndpoint (host endpoint) (port endpoint) crypt hash)
    else mret (true, endpoint)) payload.

(** [if (payload.size() >= n) field = r]. *)
Definition readIf (n : Z) (payload : bytes) (r : reader Z) : reader Z :=
  if n <=? len payload then r else mret 0.

Definition parseServerIdChangePayload (idChange : ServerIdChange) (payload : bytes) :
    result (bool * ServerIdChange) :=
  if len payload <? 4 then mret (false, idChange)
  else parse (
    clientId ← readU32;
    tcpFlags ← readIf 8 payload readU32;
    auxPort ← readIf 12 payload readU32;
    '(ip, port) ← (if 20 <=? len payload then
        reportedIp ← readU32; obfuscationPort ← readU32;
        mret (if 0x00ffffff <? reportedIp then ipv4FromEndpoint reportedIp else [],
              if obfuscationPort <=? 65535 then obfuscationPort else 0)
      else mret ([], 0));
    let highId := 0x00ffffff <? clientId in
    let ip := if bool_decide (ip = []) && highId then ipv4FromEndpoint clientId else ip in
    mret (true, mkIdChange clientId tcpFlags auxPort port highId ip)) payload.

Definition parseServerStatusPayload (status : ServerStatus) (payload : bytes) : result (bool * ServerStatus) :=
  if len payload <? 8 then mret (false, status)
  else parse (
    users ← readU32; files ← readU32;
    mret (true, mkStatus 0 users files 0 0 0 0 0 0 0 0)) payload.

Definition parseServerUdpStatusPayload (status : ServerStatus) (payload : bytes) : result (bool * ServerStatus) :=
  if len payload <? 12 then mret (false, status)
  else parse (
    challenge ← readU32; users ← readU32; files ← readU32;
    maxUsers ← readIf 16 payload readU32;
    softFiles ← readIf 24 payload readU32; hardFiles ← readIf 24 payload readU32;
    udpFlags ← readIf 28 payload readU32;
    lowIdUsers ← readIf 32 payload readU32;
    udpPort ← readIf 40 payload readU16; tcpPort ← readIf 40 payload readU16;
    udpKey ← readIf 40 payload readU32;
    mret (true, mkStatus challenge users files maxUsers softFiles hardFiles udpFlags lowIdUsers
                  udpPort tcpPort udpKey)) payload.

Definition parseServerMessagePayload (message payload : bytes) : result (bool * bytes) :=
  if len payload <? 2 then mret (false, message)
  else
    length ← readUInt16 payload;
    if negb (length =? len payload - 2) then mret (false, message) else mret (true, drop 2 payload).

(** The body of the loop over the tags of a server. *)
Definition applyIdentTag (i : ServerIdent) (tag : Tag) : ServerIdent :=
  if bool_decide (valueType tag <> STRING) then i
  else if tagMatches tag SERVER_TAG_NAME (str "name")
  then mkIdent (identEndpoint i) (stringValue tag) (identDescription i)
  else if tagMatches tag SERVER_TAG_DESCRIPTION (str "description")
  then mkIdent (identEndpoint i) (identName i) (stringValue tag)
  else i.

(** A tag and the bytes it was read from. *)
Definition readTagBytes : reader bytes :=
  before ← tell;
  _ ← readTag;
  offset ← tell; data ← whole;
  mret (take (Z.to_nat (offset - before)) (drop (Z.to_nat before) data)).

Definition parseServerIdentPayload (ident : ServerIdent) (payload : bytes) : result (bool * ServerIdent) :=
  if len payload <? HASH_LENGTH + 6 + 4 then mret (false, ident)
  else parse (
    _ ← seek HASH_LENGTH;
    endpoint ← readEndpoint;
    tagCount ← readU32;
    chunks ← readMany (Z.to_nat tagCount) readTagBytes;
    '(ok, tags) ← lift (parseTagList [] (packUInt32 tagCount ++ concat chunks));
    if negb ok then mret (false, ident)
    else mret (true, foldl applyIdentTag (mkIdent endpoint [] []) tags)) payload.

Definition createServerListPayload (servers : list Endpoint) : result bytes :=
  if 255 <? len servers then Err (ProtocolError "Too many ED2K servers.")
  else appendAll packEndpoint servers [u8 (len servers)].

Definition parseServerListPayload (servers : list Endpoint) (payload : bytes) : result (bool * list Endpoint) :=
  if len payload =? 0 then mret (false, servers)
  else parse (
    count ← readByte;
    n ← size; offset ← tell;
    if n - offset <? count * 6 then mret (false, servers)
    else servers ← readMany (Z.to_nat count) readEndpoint; mret (true, servers)) payload.

(** ** The saved state *)

Definition flagByte (b : bool) : Z := if b then 1 else 0.

Definition createServerStatePayload (s : ServerState) : result bytes :=
  let payload := SERVER_STATE_MAGIC ++ packUInt32 SERVER_STATE_VERSION in
  payload ← appendServerStateEndpoint payload (endpoint s);
  payload ← appendString payload (name s);
  payload ← appendString payload (description s);
  let payload := appendByte payload (flagByte (connected s)) in
  let payload := appendByte payload (flagByte (handshakeCompleted s)) in
  let payload := payload ++ packUInt32 (clientId s) in
  let payload := appendByte payload (flagByte (highId s)) in
  payload ← appendString payload (ipAddress s);
  let payload := payload ++ packUInt32 (tcpFlags s) in
  let payload := payload ++ packUInt32 (users s) in
  let payload := payload ++ packUInt32 (files s) in
  let payload := payload ++ packUInt32 (maxUsers s) in
  let payload := payload ++ packUInt32 (softFiles s) in
  let payload := payload ++ packUInt32 (hardFiles s) in
  let payload := payload ++ packUInt32 (udpFlags s) in
  let payload := payload ++ packUInt32 (lowIdUsers s) in
  let payload := payload ++ packUInt16 (udpObfuscationPort s) in
  let payload := payload ++ packUInt16 (tcpObfuscationPort s) in
  let payload := payload ++ packUInt32 (udpKey s) in
  let payload := payload ++ packUInt32 (udpStatusChallenge s) in
  let payload := appendInt64 payload (lastUdpStatusTime s) in
  let payload := appendInt64 payload (nextSourceRequestTime s) in
  let payload := appendInt64 payload (lastSourceResponseTime s) in
  let payload := payload ++ packUInt32 (lastSourceCount s) in
  let payload := appendInt64 payload (lastUdpSourceRequestTime s) in
  let payload := payload ++ packUInt32 (failCount s) in
  let payload := appendInt64 payload (lastFailureTime s) in
  let payload := appendInt64 payload (nextRetryTime s) in
  appendString payload (lastMessage s).

Definition readFlag : reader bool := b ← readByte; mret (negb (b =? 0)).

(** The fields behind the version. *)
Definition readServerState (version : Z) : reader ServerState :=
  endpoint ← readServerStateEndpoint;
  name ← (if 3 <=? version then readString else mret []);
  description ← (if 3 <=? version then readString else mret []);
  connected ← readFlag;
  handshakeCompleted ← readFlag;
  clientId ← readU32;
  highId ← readFlag;
  ipAddress ← readString;
  tcpFlags ← readU32;
  users ← readU32;
  files ← readU32;
  maxUsers ← readU32;
  softFiles ← readU32;
  hardFiles ← readU32;
  udpFlags ← readU32;
  lowIdUsers ← readU32;
  udpObfuscationPort ← readU16;
  tcpObfuscationPort ← readU16;
  udpKey ← readU32;
  udpStatusChallenge ← readU32;
  lastUdpStatusTime ← readInt64;
  nextSourceRequestTime ← (if 2 <=? version then readInt64 else mret 0);
  lastSourceResponseTime ← (if 4 <=? version then readInt64 else mret 0);
  lastSourceCount ← (if 4 <=? version then readU32 else mret 0);
  lastUdpSourceRequestTime ← (if 4 <=? version then readInt64 else mret 0);
  failCount ← readU32;
  lastFailureTime ← readInt64;
  nextRetryTime ← readInt64;
  lastMessage ← readString;
  mret (mkState endpoint name description false connected handshakeCompleted false clientId highId
    ipAddress tcpFlags users files maxUsers softFiles hardFiles udpFlags lowIdUsers udpObfuscationPort
    tcpObfuscationPort udpKey udpStatusChallenge lastUdpStatusTime nextSourceRequestTime
    lastSourceResponseTime lastSourceCount lastUdpSourceRequestTime failCount lastFailureTime
    nextRetryTime lastMessage).

(** The body of the [try] block. *)
Definition readServerStatePayload (state : ServerState) : reader (bool * ServerState) :=
  magic ← readBytes (len SERVER_STATE_MAGIC);
  if bool_decide (magic <> SERVER_STATE_MAGIC) then mret (false, state)
  else
    version ← readU32;
    if negb (version =? 1) && negb (version =? 2) && negb (version =? SERVER_STATE_VERSION)
    then mret (false, state)
    else
      parsed ← readServerState version;
      offset ← tell; n ← size;
      if negb (offset =? n) then mret (false, state) else mret (true, parsed).

Definition parseServerStatePayload (state : ServerState) (payload : bytes) : result (bool * ServerState) :=
  match parse (readServerStatePayload state) payload with
  | Err (ProtocolError _) => mret (false, state)
  | r => r
  end.

(** ** Lemmas *)

(** *** Fields *)

Lemma i64_u64 v : - 2 ^ 63 <= v < 2 ^ 63 -> i64 (u64 v) = v.
Proof.
  intros Hv. unfold i64, u64. change (2 ^ 63) with 9223372036854775808 in *.
  change (2 ^ 64) with 18446744073709551616 in *. dlia.
Qed.

Definition packString (s : bytes) : bytes := packUInt16 (len s) ++ s.

Lemma reads_string s : len s < 2 ^ 16 -> reads readString (packString s) s.
Proof.
  intros Hs. pose proof (len_nonneg s). eapply reads_bind; [apply reads_u16; lia|]. apply reads_bytes; [done|lia].
Qed.
Lemma reads_int64 v : - 2 ^ 63 <= v < 2 ^ 63 -> reads readInt64 (packUInt64 (u64 v)) v.
Proof.
  intros Hv. unfold readInt64. eapply reads_last; [apply reads_u64; by apply Z.mod_pos_bound|].
  rewrite i64_u64 by done. apply reads_ret.
Qed.
Lemma reads_flag b : reads readFlag [u8 (flagByte b)] b.
Proof. destruct b; (eapply reads_last; [apply reads_byte|apply reads_ret]). Qed.
Lemma appendString_ok payload s :
  len s < 2 ^ 16 -> appendString payload s = Ok (payload ++ packString s).
Proof. intros Hs. unfold appendString. by destruct (Z.ltb_spec 65535 (len s)); [lia|]. Qed.
Lemma reads_stateEndpoint e :
  len (host e) < 2 ^ 16 -> 0 <= port e < 2 ^ 16 ->
  reads readServerStateEndpoint (packString (host e) ++ packUInt16 (port e))
    (mkEndpoint (host e) (port e) 0 []).
Proof.
  intros Hh Hp. eapply reads_bind; [by apply reads_string|]. eapply reads_last; [by apply reads_u16|]. apply reads_ret.
Qed.

#[local] Hint Resolve reads_string reads_int64 reads_flag reads_stateEndpoint : wire.

(** *** The saved state *)

Definition state_ok (s : ServerState) : Prop :=
  (len (host (endpoint s)) < 2 ^ 16 /\ 0 <= port (endpoint s) < 2 ^ 16) /\
  Forall (fun t => len t < 2 ^ 16) [name s; description s; ipAddress s; lastMessage s] /\
  Forall (fun v => 0 <= v < 2 ^ 32) [clientId s; tcpFlags s; users s; files s; maxUsers s; softFiles s;
    hardFiles s; udpFlags s; lowIdUsers s; udpKey s; udpStatusChallenge s; lastSourceCount s; failCount s] /\
  Forall (fun v => 0 <= v < 2 ^ 16) [udpObfuscationPort s; tcpObfuscationPort s] /\
  Forall (fun v => - 2 ^ 63 <= v < 2 ^ 63) [lastUdpStatusTime s; nextSourceRequestTime s;
    lastSourceResponseTime s; lastUdpSourceRequestTime s; lastFailureTime s; nextRetryTime s].

(** What is kept of a state: a connection attempt and a failed obfuscation are
    forgotten. *)
Definition saved (s : ServerState) : ServerState :=
  mkState (mkEndpoint (host (endpoint s)) (port (endpoint s)) 0 []) (name s) (description s) false
    (connected s) (handshakeCompleted s) false (clientId s) (highId s) (ipAddress s) (tcpFlags s) (users s)
    (files s) (maxUsers s) (softFiles s) (hardFiles s) (udpFlags s) (lowIdUsers s) (udpObfuscationPort s)
    (tcpObfuscationPort s) (udpKey s) (udpStatusChallenge s) (lastUdpStatusTime s)
    (nextSourceRequestTime s) (lastSourceResponseTime s) (lastSourceCount s) (lastUdpSourceRequestTime s)
    (failCount s) (lastFailureTime s) (nextRetryTime s) (lastMessage s).

Ltac forall_split :=
  repeat match goal with H : Forall _ (_ :: _) |- _ => apply Forall_cons in H as [? H] end.

Lemma serverState_written s :
  state_ok s -> exists b, createServerStatePayload s =
    Ok (SERVER_STATE_MAGIC ++ packUInt32 SERVER_STATE_VERSION ++ b) /\
    reads (readServerState SERVER_STATE_VERSION) b (saved s).
Proof.
  intros ([H1 H2] & H3 & H4 & H5 & H6). forall_split. unfold createServerStatePayload, appendServerStateEndpoint.
  unfold appendByte, appendInt64. monad. repeat (rewrite appendString_ok by done). rewrite <- !app_assoc.
  eexists. split; [reflexivity|]. unfold readServerState, SERVER_STATE_VERSION. simpl Z.leb. cbv iota.
  rewrite (app_assoc (packString (host (endpoint s)))).
  eapply reads_bind; [by apply reads_stateEndpoint|].
  repeat (eapply reads_bind; [solve [eauto with wire nocore]|]; cbv beta).
  eapply reads_last; [solve [eauto with wire nocore]|]. apply reads_ret.
Qed.

Lemma serverState_ok s old :
  state_ok s -> exists p, createServerStatePayload s = Ok p /\ parseServerStatePayload old p = Ok (true, saved s).
Proof.
  intros Hs. destruct (serverState_written s Hs) as (b & Hb & Hr). eexists. split; [exact Hb|].
  unfold parseServerStatePayload.
  enough (parse (readServerStatePayload old) (SERVER_STATE_MAGIC ++ packUInt32 SERVER_STATE_VERSION ++ b) =
    Ok (true, saved s)) as -> by done.
  apply ends_parse. unfold readServerStatePayload. eapply ends_bind; [by apply reads_bytes|]. cbv beta.
  rewrite bool_decide_eq_false_2 by (by intros []). eapply ends_bind; [by apply reads_u32|].
  change (negb (_ =? 1) && _ && _) with false. cbv iota. eapply ends_last; [exact Hr|].
  apply ends_tell, ends_size. rewrite !len_app.
  match goal with |- context [?x =? ?y] => destruct (Z.eqb_spec x y); [|lia] end. apply ends_ret.
Qed.

(** *** Lists of endpoints *)

Lemma endpoints_written l payload :
  Forall plainEndpoint l ->
  exists b, appendAll packEndpoint l payload = Ok (payload ++ b) /\ len b = 6 * len l /\
    reads (readMany (length l) readEndpoint) b l.
Proof.
  intros Hall. rewrite Forall_forall in Hall.
  destruct (appendAll_reads readEndpoint packEndpoint (fun e => e) 6 l payload) as (b & Hb).
  { intros e He. apply reads_endpoint. by apply Hall. }
  rewrite list_fmap_id in Hb. by exists b.
Qed.

Lemma reads_foundSource b e ip :
  reads readEndpoint b e -> 0 <= ip < 2 ^ 32 -> host e = ipv4FromEndpoint ip ->
  reads readFoundSource b (mkSource e ip (ip <=? 0x00ffffff)) /\
  reads (readPacketSource false) b (mkSource e ip (ip <=? 0x00ffffff)).
Proof.
  intros Hr Hip Hh. split; (eapply reads_last; [exact Hr|]); try (eapply reads_first; [apply reads_ret|]);
    rewrite Hh, ipv4_roundtrip by done; (eapply reads_first; [by apply reads_lift|]); apply reads_ret.
Qed.

(** The client id of a plain endpoint. *)
Definition idOf (e : Endpoint) : Z := match ipv4ToEndpointValue (host e) with Ok v => v | Err _ => 0 end.
Definition foundSource (e : Endpoint) : FoundSource := mkSource e (idOf e) (idOf e <=? 0x00ffffff).

Lemma sources_written l payload :
  Forall plainEndpoint l ->
  exists b, appendAll packEndpoint l payload = Ok (payload ++ b) /\ len b = 6 * len l /\
    reads (readMany (length l) (readPacketSource false)) b (foundSource <$> l).
Proof.
  intros Hall. rewrite Forall_forall in Hall. apply appendAll_reads.
  intros e He. specialize (Hall e He). destruct (reads_endpoint e Hall) as (b & Hb & Hl & Hr).
  destruct Hall as (_ & _ & _ & ip & Hip & Hh). exists b. split_and!; [done..|].
  unfold foundSource, idOf. rewrite Hh, ipv4_roundtrip by done. by apply reads_foundSource.
Qed.

Lemma foundSources_ok hash l old olds :
  len hash = HASH_LENGTH -> len l < 256 -> Forall plainEndpoint l ->
  exists p, createFoundSourcesPayload hash l = Ok p /\ parseFoundSources p = Ok l /\
    parseFoundSourcesOf old p hash = Ok (true, l) /\
    parseFoundSourcesPayload olds p hash false = Ok (true, foundSource <$> l).
Proof.
  intros Hh Hl Hall. pose proof (len_nonneg l).
  destruct (endpoints_written l (hash ++ [u8 (len l)]) Hall) as (b & Hb & Hlb & Hr).
  destruct (sources_written l (hash ++ [u8 (len l)]) Hall) as (b' & Hb' & _ & Hr').
  assert (b' = b) as -> by (rewrite Hb in Hb'; injection Hb' as E; by apply app_inv_head in E).
  unfold createFoundSourcesPayload, parseFoundSources, parseFoundSourcesOf, parseFoundSourcesPayload. monad.
  rewrite hash_valid by done. destruct (Z.ltb_spec 255 (len l)); [lia|].
  eexists. split; [exact Hb|]. rewrite <- app_assoc.
  assert (Z.to_nat (len l) = length l) as En by (unfold len; lia).
  split_and!; apply ends_parse; (eapply ends_bind; [by apply reads_hash|]); cbv beta;
    rewrite ?same_hash; (eapply ends_bind; [apply reads_byte_u8; lia|]); cbv beta; rewrite En.
  - rewrite len_app, len_app, Z.add_0_l, Z.add_assoc. by apply ends_reads.
  - eapply ends_last; [exact Hr|]. apply ends_ret.
  - eapply ends_last; [exact Hr'|]. apply ends_tell, ends_size. rewrite !len_app.
    match goal with |- context [?x =? ?y] => destruct (Z.eqb_spec x y); [|lia] end. apply ends_ret.
Qed.

Lemma serverList_ok l old :
  len l < 256 -> Forall plainEndpoint l ->
  exists p, createServerListPayload l = Ok p /\ parseServerListPayload old p = Ok (true, l).
Proof.
  intros Hl Hall. pose proof (len_nonneg l). destruct (endpoints_written l [u8 (len l)] Hall) as (b & Hb & Hlb & Hr).
  unfold createServerListPayload, parseServerListPayload. destruct (Z.ltb_spec 255 (len l)); [lia|].
  eexists. split; [exact Hb|]. pose proof (len_nonneg b). rewrite len_app. change (len [u8 (len l)]) with 1.
  destruct (Z.eqb_spec (1 + len b) 0); [lia|]. apply ends_parse. eapply ends_bind; [apply reads_byte_u8; lia|].
  apply ends_size, ends_tell. rewrite len_app. change (len [u8 (len l)]) with 1.
  match goal with |- context [?x <? ?y] => destruct (Z.ltb_spec x y); [lia|] end.
  replace (Z.to_nat (len l)) with (length l) by (unfold len; lia). eapply ends_last; [exact Hr|]. apply ends_ret.
Qed.

(** The size a server reads behind the hash: a zero stands before a size of 64
    bits. *)
Definition readFileSize : reader Z := low ← readU32; n ← size; offset ← tell; if (low =? 0) && (offset <? n) then readU64 else mret low.

Lemma littleEndian_mod n v : littleEndian n (v mod 256 ^ Z.of_nat n) = littleEndian n v.
Proof.
  revert v. induction n as [|n IH]; intros v; [done|]. cbn [littleEndian].
  rewrite Nat2Z.inj_succ, Z.pow_succ_r by lia. rewrite Z.rem_mul_r by lia.
  rewrite (Z.mul_comm 256), Z.mod_add, Z.mod_mod by lia. f_equal.
  rewrite Z.div_add, Z.div_small by (try apply Z.mod_pos_bound; lia). apply IH.
Qed.
Lemma littleEndian_app n m v :
  littleEndian (n + m) v = littleEndian n v ++ littleEndian m (v / 256 ^ Z.of_nat n).
Proof.
  revert v. induction n as [|n IH]; intros v; [by rewrite Z.div_1_r|]. cbn [littleEndian Nat.add app]. f_equal.
  rewrite IH. do 2 f_equal. rewrite Z.div_div by lia. f_equal. rewrite Nat2Z.inj_succ, Z.pow_succ_r; lia.
Qed.

Lemma pack8 v : 0 <= v < 2 ^ 64 -> packUInt32 (u32 v) ++ packUInt32 (u32 (Z.shiftr (u64 v) 32)) = packUInt64 v.
Proof.
  intros Hv. unfold packUInt32, packUInt64. rewrite !pack_littleEndian, Z.shiftr_div_pow2 by lia.
  rewrite (u64_small v) by done. unfold u32. rewrite !Z.mod_mod by lia.
  change (2 ^ 32) with (256 ^ Z.of_nat 4). rewrite !littleEndian_mod. symmetry. apply (littleEndian_app 4 4).
Qed.

Lemma getSources_ok hash fileSize :
  len hash = HASH_LENGTH -> 0 <= fileSize < 2 ^ 63 ->
  exists p, createGetSourcesPayload hash fileSize = Ok p /\
    parse (h ← readBytes HASH_LENGTH; s ← readFileSize; mret (h, s)) p = Ok (hash, fileSize).
Proof.
  intros Hh Hs. unfold createGetSourcesPayload. monad. rewrite hash_valid by done.
  destruct (Z.ltb_spec fileSize 0); [lia|]. destruct (Z.ltb_spec (2 ^ 32 - 1) fileSize).
  - rewrite pack8 by lia. eexists. split; [reflexivity|]. apply ends_parse.
    eapply ends_bind; [by apply reads_hash|]. cbv beta. intros data Ha Hd. unfold readFileSize, size, tell. monad.
    rewrite (reads_u32 0 ltac:(lia) _ _ _ Ha). apply ahead_step in Ha as Ha'. change (len (packUInt32 0)) with 4 in *.
    rewrite Hd, !len_app. change (len (packUInt32 0)) with 4. change (len (packUInt64 fileSize)) with 8. rewrite Hh.
    change (_ && _) with true. cbv iota. rewrite <- (app_nil_r (packUInt64 fileSize)) in Ha'.
    rewrite Hh in Ha'. rewrite (reads_u64 fileSize ltac:(lia) _ _ _ Ha'). done.
  - eexists. split; [reflexivity|]. apply ends_parse. rewrite u32_small by lia.
    eapply ends_bind; [by apply reads_hash|]. cbv beta. intros data Ha Hd. unfold readFileSize, size, tell. monad.
    rewrite <- (app_nil_r (packUInt32 fileSize)) in Ha. rewrite (reads_u32 fileSize ltac:(lia) _ _ _ Ha).
    rewrite Hd, len_app. change (len (packUInt32 fileSize)) with 4. rewrite Hh. change (_ <? _) with false.
    rewrite andb_false_r. done.
Qed.

(** *** Staying inside the data *)

Lemma safe_string : safe readString.
Proof. unfold readString. solve_safe. Qed.
Lemma safe_int64 : safe readInt64.
Proof. unfold readInt64. solve_safe. Qed.
Lemma safe_flag : safe readFlag.
Proof. unfold readFlag. solve_safe. Qed.
#[local] Hint Resolve safe_string safe_int64 safe_flag : wire.
Lemma safe_stateEndpoint : safe readServerStateEndpoint.
Proof. unfold readServerStateEndpoint. solve_safe. Qed.
#[local] Hint Resolve safe_stateEndpoint : wire.
Lemma safe_serverState version : safe (readServerState version).
Proof. unfold readServerState. solve_safe. Qed.
#[local] Hint Resolve safe_serverState : wire.
Lemma safe_foundSource : safe readFoundSource.
Proof. unfold readFoundSource. solve_safe. Qed.
Lemma safe_packetSource obfuscated : safe (readPacketSource obfuscated).
Proof. unfold readPacketSource. solve_safe. Qed.
Lemma safe_metEntry : safe readMetEntry.
Proof. unfold readMetEntry. solve_safe. Qed.
Lemma safe_tagBytes : safe readTagBytes.
Proof. unfold readTagBytes. solve_safe. Qed.
#[local] Hint Resolve safe_foundSource safe_packetSource safe_metEntry safe_tagBytes : wire.
Lemma safe_readIf n payload r : safe r -> safe (readIf n payload r).
Proof. intros Hr. unfold readIf. by destruct (_ <=? _); [|apply safe_ret]. Qed.
#[local] Hint Resolve safe_readIf : wire.

(** The end of a round: [n] is the size of the data. *)
Lemma packedRound_ok {A} (r : reader A) expected sources data offset :
  safe r -> within data offset ->
  match packedRound r expected sources data offset with
  | Ok (inl _, offset') => offset < offset' /\ within data offset'
  | Ok (inr _, offset') => offset <= offset' /\ within data offset'
  | Err e => harmless e
  end.
Proof.
  intros Hr Hw. unfold packedRound, size, tell, whole, seek, lift. monad.
  destruct (len data - offset <? HASH_LENGTH + 1); [split; [lia|done]|].
  pose proof (safe_bytes HASH_LENGTH data offset Hw) as H1.
  destruct (readBytes HASH_LENGTH data offset) as [[hash o1]|]; [|done]. destruct H1 as [H1 W1].
  pose proof (safe_byte data o1 W1) as H2. pose proof (eats_byte data o1) as E2.
  destruct (readByte data o1) as [[count o2]|]; [|done]. destruct H2 as [_ W2].
  specialize (E2 _ _ W1 eq_refl).
  destruct (len data - o2 <? count * 6); [split; [lia|done]|].
  pose proof (safe_many (Z.to_nat count) r Hr data o2 W2) as H3.
  destruct (readMany (Z.to_nat count) r data o2) as [[found o3]|]; [|done]. destruct H3 as [H3 W3].
  destruct (o3 =? len data); [split; [lia|done]|].
  destruct (Z.ltb_spec (len data - o3) 2); [split; [lia|done]|]. destruct W3 as [W3 W3'].
  destruct (at_inside data o3) as [p ->]; [lia|]. destruct (at_inside data (o3 + 1)) as [q ->]; [lia|].
  destruct (_ || _); [split; [lia|done]|]. unfold within. lia.
Qed.

Lemma safe_packed {A} (r : reader A) expected sources : safe r -> safe (loop (packedRound r expected) sources).
Proof.
  intros Hr data offset Hw. unfold loop, whole. monad.
  assert (forall fuel sources offset, within data offset -> len data - offset < Z.of_nat fuel ->
    match whileMore fuel (packedRound r expected) sources data offset with
    | Ok (_, offset') => offset <= offset' /\ within data offset'
    | Err e => harmless e
    end) as H; [|apply H; [done|unfold within, len in *; lia]].
  clear sources offset Hw. induction fuel as [|fuel IH]; intros sources offset Hw Hf; [destruct Hw; lia|].
  simpl. unfold tell, size. monad. destruct (Z.ltb_spec offset (len data)); [|split; [lia|done]].
  pose proof (packedRound_ok r expected sources data offset Hr Hw) as H1.
  destruct (packedRound r expected sources data offset) as [[[s|b] o]|e]; [|done..].
  destruct H1 as [H1 H2]. specialize (IH s o H2 ltac:(lia)).
  destruct (whileMore fuel (packedRound r expected) s data o) as [[? ?]|]; [|done]. split; [lia|apply IH].
Qed.

(** Behind the header, if there is one. *)
Lemma serverMet_inside {A} (k : reader A) data :
  safe k ->
  sane (parse (header ← readByte;
    _ ← (if negb (header =? 0x0e) && negb (header =? 0x0f) && negb (header =? 0xe0) then seek 0 else mret tt); k) data).
Proof.
  intros Hk. unfold parse, seek. monad. assert (within data 0) as H0 by (split; [done|apply len_nonneg]).
  pose proof (safe_byte data 0 H0) as H1. destruct (readByte data 0) as [[h o]|]; [|done].
  destruct H1 as [_ W1]. destruct (_ && _).
  - specialize (Hk data 0 H0). by destruct (k data 0) as [[? ?]|].
  - specialize (Hk data o W1). by destruct (k data o) as [[? ?]|].
Qed.

Lemma serverMet_sane alloc payload :
  sane (parseServerMet alloc payload) \/
  (parseServerMet alloc payload = Err BadAlloc /\ exists count, alloc count = false).
Proof.
  unfold parseServerMet, parseServerMetEntries.
  match goal with |- context [parse (header ← readByte; @?k header) payload] =>
    destruct (allocates_parse alloc (header ← readByte; k header)
      (header ← readByte;
       _ ← (if negb (header =? 0x0e) && negb (header =? 0x0f) && negb (header =? 0xe0) then seek 0 else mret tt);
       count ← readU32; _ ← mret tt; entries ← readMany (Z.to_nat count) readMetEntry;
       mret (filter metEntryKept entries)) payload) as [->|[-> ?]]
  end.
  - apply allocates_bind; [apply allocates_refl|]. intros header.
    apply allocates_bind; [apply allocates_refl|]. intros _. apply allocates_bind; [apply allocates_refl|]. intros count.
    apply allocates_bind; [apply allocates_reserve|]. intros _. apply allocates_refl.
  - left. apply sane_bind; [|done]. apply serverMet_inside. solve_safe.
  - by right.
Qed.

(** *** Text instead of a list *)

(** A reader that reads at least [k] bytes. *)
Definition takes {A} (k : Z) (r : reader A) : Prop :=
  forall data offset v offset', within data offset -> r data offset = Ok (v, offset') -> offset + k <= offset'.

Lemma takes_bytes n : 0 <= n < 2 ^ 64 -> takes n (readBytes n).
Proof.
  intros Hn data offset v o' _. unfold readBytes. rewrite u64_small by done.
  destruct (_ || _); [done|]. intros [= _ <-]. lia.
Qed.
Lemma takes_bind {A B} k m (r : reader A) (f : A -> reader B) :
  safe r -> takes k r -> (forall v, takes m (f v)) -> takes (k + m) (v ← r; f v).
Proof.
  intros Hs Hr Hf data offset v o' Hw. monad. pose proof (Hs data offset Hw) as H1.
  destruct (r data offset) as [[a o]|] eqn:E; [|done]. intros E'. apply Hr in E; [|done].
  apply Hf in E'; [lia|]. apply H1.
Qed.
Lemma takes_safe {A} (r : reader A) : safe r -> takes 0 r.
Proof. intros Hs data offset v o' Hw E. specialize (Hs data offset Hw). rewrite E in Hs. lia. Qed.
Lemma takes_u32 : takes 4 readU32.
Proof. apply (takes_bind 4 0); [apply safe_bytes|by apply takes_bytes|]. intros b data offset v o' _.
  unfold lift. destruct (readUInt32 b); [|done]. intros [= _ <-]. lia.
Qed.
Lemma takes_u16 : takes 2 readU16.
Proof. apply (takes_bind 2 0); [apply safe_bytes|by apply takes_bytes|]. intros b data offset v o' _.
  unfold lift. destruct (readUInt16 b); [|done]. intros [= _ <-]. lia.
Qed.
Lemma takes_metEntry : takes 10 readMetEntry.
Proof.
  apply (takes_bind 6 4); [apply safe_endpoint| |].
  - apply (takes_bind 4 2); [apply safe_u32|apply takes_u32|]. intros ip.
    apply (takes_bind 2 0); [apply safe_u16|apply takes_u16|]. intros port. apply takes_safe, safe_ret.
  - intros e. apply (takes_bind 4 0); [apply safe_u32|apply takes_u32|]. intros n. apply takes_safe. solve_safe.
Qed.
Lemma takes_many {A} k n (r : reader A) : safe r -> takes k r -> takes (k * Z.of_nat n) (readMany n r).
Proof.
  intros Hs Hr. induction n as [|n IH]; [rewrite Z.mul_0_r; apply takes_safe, safe_ret|]. cbn [readMany].
  replace (k * Z.of_nat (S n)) with (k + (k * Z.of_nat n + 0)) by lia.
  apply takes_bind; [done..|]. intros v. apply takes_bind; [by apply safe_many|done|].
  intros vs. apply takes_safe, safe_ret.
Qed.

(** A list that says it has more entries than fit the data. *)
Lemma readMet_throws alloc data o b0 b1 b2 b3 rest :
  ahead data o (b0 :: b1 :: b2 :: b3 :: rest) -> Forall (fun b => 0x0a <= b < 256) [b0; b1; b2; b3] ->
  len data < 0x64646464 ->
  exists e, (count ← readU32; _ ← reserve alloc count; entries ← readMany (Z.to_nat count) readMetEntry;
             mret (filter metEntryKept entries)) data o = Err e /\ (e = BadAlloc \/ harmless e).
Proof.
  intros Ha Hb Hl. forall_split.
  assert (within data o) as Hw by apply Ha.
  assert (packUInt32 (b0 + b1 * 256 + b2 * 65536 + b3 * 16777216) = [b0; b1; b2; b3]) as Ep.
  { unfold packUInt32. rewrite u32_small, pack_littleEndian by lia. cbn [littleEndian]. repeat f_equal; dlia. }
  change (b0 :: b1 :: b2 :: b3 :: rest) with ([b0; b1; b2; b3] ++ rest) in Ha. rewrite <- Ep in Ha.
  set (count := b0 + b1 * 256 + b2 * 65536 + b3 * 16777216) in *. assert (0x0a0a0a0a <= count < 2 ^ 32) as Hc by (unfold count; lia). clearbody count.
  monad. rewrite (reads_u32 count ltac:(lia) _ _ _ Ha). apply ahead_step in Ha as Ha'.
  change (len (packUInt32 count)) with 4 in Ha'. change (len (packUInt32 count)) with 4.
  assert (within data (o + 4)) as Hw' by apply Ha'.
  unfold reserve. destruct (alloc count); [|exists BadAlloc; split; [done|by left]].
  pose proof (safe_many (Z.to_nat count) readMetEntry safe_metEntry data (o + 4) Hw') as Hs.
  destruct (readMany (Z.to_nat count) readMetEntry data (o + 4)) as [[l o']|e] eqn:E.
  - apply (takes_many 10 (Z.to_nat count) _ safe_metEntry takes_metEntry) in E; [|done].
    destruct Hs as [_ [_ Hs]]. destruct Hw'. rewrite Z2Nat.id in E; lia.
  - exists e. split; [done|by right].
Qed.

(** ** Properties *)

(** The state of a server that is saved is the state that is loaded: all
    that the file keeps comes back, and what it does not keep (a connection
    attempt, a failed obfuscation) is at its initial value. Loading never
    throws, whatever the file holds, and a file it refuses leaves the state as
    it was. *)
Lemma server_state_roundtrip s old data :
  state_ok s ->
  (exists p, createServerStatePayload s = Ok p /\ parseServerStatePayload old p = Ok (true, saved s)) /\
  saved (saved s) = saved s /\
  exists r, parseServerStatePayload old data = Ok r /\ (r.1 = false -> r.2 = old).
Proof.
  intros Hs. split; [by apply serverState_ok|]. split; [done|].
  unfold parseServerStatePayload.
  assert (safe (readServerStatePayload old)) as Hr by (unfold readServerStatePayload; solve_safe).
  pose proof (safe_parse _ data Hr) as Hd.
  destruct (parse (readServerStatePayload old) data) as [[ok s']|e] eqn:E.
  - eexists. split; [reflexivity|]. intros Hok. simpl in *. subst ok. revert E. unfold parse, readServerStatePayload.
    monad. destruct (readBytes _ data 0) as [[magic o]|]; [|done]. destruct (bool_decide _); [by intros [= <-]|].
    destruct (readU32 data o) as [[v o']|]; [|done]. destruct (_ && _); [by intros [= <-]|].
    destruct (readServerState v data o') as [[p o'']|]; [|done]. unfold tell, size. cbv beta iota.
    by destruct (negb _); intros [= <-].
  - destruct Hd as [m ->]. by eexists.
Qed.

(** What is written about sources and servers is what is read: sources of
    a file (with the client id that is the address), the list of servers, and
    the size of a file in a request for sources, whose 64-bit form is used
    from 4 GiB on only. *)
Lemma server_messages_roundtrip hash l fileSize old olds :
  len hash = HASH_LENGTH -> len l < 256 -> Forall plainEndpoint l -> 0 <= fileSize < 2 ^ 63 ->
  (exists p, createFoundSourcesPayload hash l = Ok p /\ parseFoundSources p = Ok l /\
     parseFoundSourcesOf old p hash = Ok (true, l) /\
     parseFoundSourcesPayload olds p hash false = Ok (true, foundSource <$> l)) /\
  (exists p, createServerListPayload l = Ok p /\ parseServerListPayload old p = Ok (true, l)) /\
  (exists p, createGetSourcesPayload hash fileSize = Ok p /\
     parse (h ← readBytes HASH_LENGTH; s ← readFileSize; mret (h, s)) p = Ok (hash, fileSize)).
Proof.
  intros Hh Hl Hall Hs. split_and!;
    [by apply foundSources_ok|by apply serverList_ok|by apply getSources_ok].
Qed.

(** C32. Whatever a server sends or a [server.met] file holds, the parsers
    return or throw a [ProtocolError]: none reads outside the data, and the
    loop over packed answers ends. One more outcome is left to [server.met]
    alone, whose number of entries is reserved before it is checked: it throws
    [std::bad_alloc], and only where the allocator refuses some number. *)
Theorem server_parsers_safe alloc payload hash obfuscated endpoints sources endpoint idChange status message ident :
  (sane (parseServerMet alloc payload) \/
   (parseServerMet alloc payload = Err BadAlloc /\ exists count, alloc count = false)) /\
  sane (parseFoundSources payload) /\
  sane (parseFoundSourcesOf endpoints payload hash) /\
  sane (parsePackedFoundSourcesPayloads readEndpoint payload hash) /\
  sane (parsePackedFoundSourcesPayloads readFoundSource payload hash) /\
  sane (parseFoundSourcesPayload sources payload hash obfuscated) /\
  sane (parseCallbackRequestIncomingPayload endpoint payload) /\
  sane (parseServerIdChangePayload idChange payload) /\
  sane (parseServerStatusPayload status payload) /\
  sane (parseServerUdpStatusPayload status payload) /\
  sane (parseServerMessagePayload message payload) /\
  sane (parseServerIdentPayload ident payload) /\
  sane (parseServerListPayload endpoints payload).
Proof.
  pose proof (len_nonneg payload) as H0. split_and!.
  - apply serverMet_sane.
  - unfold parseFoundSources. solve_sane.
  - unfold parseFoundSourcesOf. solve_sane.
  - apply sane_bind; [apply sane_validateHashLength|]. intros _. apply safe_parse.
    apply safe_bind; [apply safe_packed, safe_endpoint|]. intros []; apply safe_ret.
  - apply sane_bind; [apply sane_validateHashLength|]. intros _. apply safe_parse.
    apply safe_bind; [apply safe_packed, safe_foundSource|]. intros []; apply safe_ret.
  - unfold parseFoundSourcesPayload. solve_sane.
  - unfold parseCallbackRequestIncomingPayload. solve_sane.
  - unfold parseServerIdChangePayload. solve_sane.
  - unfold parseServerStatusPayload. solve_sane.
  - unfold parseServerUdpStatusPayload. solve_sane.
  - unfold parseServerMessagePayload. destruct (Z.ltb_spec (len payload) 2); [done|].
    apply sane_bind; [apply sane_u16; lia|]. intros n. by destruct (negb _).
  - unfold parseServerIdentPayload. destruct (Z.ltb_spec (len payload) (HASH_LENGTH + 6 + 4)); [done|].
    apply sane_seek; [unfold within, HASH_LENGTH in *; lia|]. solve_safe.
  - unfold parseServerListPayload. solve_sane.
Qed.
End ServerProtocol.

Module ServerExamples.
Import Bytes Text Wire Packet ServerProtocol.

Definition hash : bytes := str "0123456789abcdef".
Definition address : Endpoint := mkEndpoint (str "10.0.0.1") 4661 0 [].

Definition state : ServerState :=
  mkState (mkEndpoint (str "server.example") 4661 3 hash) (str "one") [] true true true true 7 false (str "10.0.0.1")
    1 2 3 4 5 6 7 8 9 10 11 12 (-1) 14 15 16 17 18 19 20 (str "welcome").

Lemma server_state_roundtrip_witness :
  exists p, createServerStatePayload state = Ok p /\ parseServerStatePayload (saved state) p = Ok (true, saved state).
Proof.
  refine (proj1 (server_state_roundtrip state (saved state) [] _)).
  split; [done|]. split_and!; repeat (apply Forall_cons; split; [done|]); by apply Forall_nil.
Defined.

Lemma server_messages_roundtrip_witness :
  exists p, createServerListPayload [address; address] = Ok p /\
    parseServerListPayload [] p = Ok (true, [address; address]).
Proof.
  refine (proj1 (proj2 (server_messages_roundtrip hash [address; address] (2 ^ 40) [] [] eq_refl eq_refl _ _))).
  - assert (plainEndpoint address) as H.
    { split_and!; [done..|]. exists 0x0100000a. done. }
    apply Forall_cons; split; [exact H|]. apply Forall_cons; split; [exact H|]. by apply Forall_nil.
  - lia.
Defined.
End ServerExamples.
