(* ===== verification/Link.v ===== *)
(** * Links: [src/ed2k/Link.cc], and the servers a user names ([addBootstrap] of
    [src/ed2k/Network.cc])

    The messages of the errors leave out the text they quote. *)

From Stdlib Require Import String.
From S2P Require Import Prelude Bytes Text Wire Packet ServerProtocol.

Module Link.
Import Bytes Text Wire Packet ServerProtocol.

Inductive LinkType := FILE | SERVER | SERVER_LIST | NODES_LIST | SEARCH.
#[export] Instance LinkType_eq_dec : EqDecision LinkType.
Proof. solve_decision. Defined.



(** ** Fields *)



Definition parsePort (value : bytes) : result Z :=
  match toInt value with
  | Some port => if (port <=? 0) || (65535 <? port) then Err (ProtocolError "Bad ED2K port") else Ok (u16 port)
  | None => Err (ProtocolError "Bad ED2K port")
  end.




(** ** Base 32 *)







(** ** Sources *)

Definition badEndpoint : string := "Bad ED2K endpoint".





(** ** Reading a link *)










(** [HOST:PORT], cut at the last colon. *)
Definition parseEndpoint (value : bytes) : result Endpoint :=
  match reverse (parts 58 value) with
  | port :: ((_ :: _) as before) =>
      let host := take (length value - length port - 1) value in
      if bool_decide (host = []) || bool_decide (port = []) then Err (ProtocolError badEndpoint)
      else port ← parsePort port; mret (mkEndpoint (percentDecode host) port 0 [])
  | _ => Err (ProtocolError badEndpoint)
  end.

(** ** Writing a link *)



(** ** The servers a user names *)

Definition metEntry (e : Endpoint) : ServerMetEntry := mkMet e [] [] 0 0 0 0 0 0 0 0 0 0.

(** The loops that parse a value, and go on to the next when it throws. *)
Definition endpointsOf (values : list bytes) : list ServerMetEntry :=
  values ≫= fun value => match parseEndpoint value with Ok e => [metEntry e] | Err _ => [] end.

(** The names of [bootstrapped_]: a name that is there is not used again. *)
Fixpoint insertNew (seen : list bytes) (values : list (bytes * bytes)) : list bytes * list bytes :=
  match values with
  | [] => (seen, [])
  | (key, value) :: values =>
      if bool_decide (value = []) || bool_decide (key ∈ seen) then insertNew seen values
      else let '(seen, fresh) := insertNew (key :: seen) values in (seen, value :: fresh)
  end.

(** The lists [addBootstrap] gives to [addServers], each with whether the user
    named the servers; the file is what [readFile] returns, and the nodes are
    those it gives to [Kad]. *)
Record Bootstrap := mkBootstrap {
  bootstrapped : list bytes;
  added : list (list ServerMetEntry * bool);
  nodeLists : list bytes;
}.

(** The entries of a file: [server.met], or lines of text. *)
Definition serversOfFile (alloc : Z -> bool) (data : bytes) : result (list ServerMetEntry) :=
  listed ← parseServerMetEntries alloc data;
  match listed with
  | [] =>
      mret (endpointsOf (filter (fun value => value <> [] /\ head value <> Some 35)
              (trim <$> split data 10 false)))
  | _ => mret listed
  end.

Definition addBootstrap (alloc : Z -> bool) (readFile : bytes -> option bytes) (b : Bootstrap)
    (servers serverList nodeList : bytes) : result Bootstrap :=
  let values := trim <$> split servers 44 false in
  let '(seen, fresh) := insertNew (bootstrapped b) ((fun v => (str "server:" ++ v, v)) <$> values) in
  let entries := endpointsOf fresh in
  let added0 := if bool_decide (entries = []) then added b else added b ++ [(entries, true)] in
  let key := str "list:" ++ serverList in
  '(seen, added1) ← (
    if bool_decide (serverList = []) || bool_decide (key ∈ seen) then mret (seen, added0)
    else match readFile serverList with
         | Some data => listed ← serversOfFile alloc data; mret (key :: seen, added0 ++ [(listed, false)])
         | None => mret (key :: seen, added0)
         end);
  let nkey := str "nodes:" ++ nodeList in
  if bool_decide (nodeList = []) || bool_decide (nkey ∈ seen) then mret (mkBootstrap seen added1 (nodeLists b))
  else mret (mkBootstrap (nkey :: seen) added1 (nodeLists b ++ [nodeList])).

(** ** Lemmas *)

(** *** Base 32 *)












(** *** Fields *)








(** *** Links *)




















(** *** Lists of servers *)

Lemma insertNew_keys seen values k :
  k ∈ (insertNew seen values).1 -> k ∈ seen \/ k ∈ values.*1.
Proof.
  revert seen. induction values as [|[key value] values IH]; intros seen Hk; [by left|]. simpl in Hk.
  destruct (_ || _).
  - apply IH in Hk as [?|?]; [by left|right; by right].
  - destruct (insertNew (key :: seen) values) as [seen' fresh] eqn:E. simpl in Hk.
    specialize (IH (key :: seen)). rewrite E in IH. apply IH in Hk as [Hk|Hk]; [|right; by right].
    apply elem_of_cons in Hk as [->|?]; [right; left|by left].
Qed.

(** A file of [HOST:PORT] lines cannot be used as the list of servers: the
    bytes of the text are read as the number of entries of a [server.met]
    file; the memory for them is refused or reading them leaves the file, and
    the error escapes before the lines are looked at. This is so for each text of less than 1.6 GB whose
    first four characters are no control characters below the line feed (and
    whose first is none of the three header bytes). *)
Lemma text_server_list_throws alloc readFile b servers serverList nodeList b0 b1 b2 b3 rest :
  readFile serverList = Some (b0 :: b1 :: b2 :: b3 :: rest) -> serverList <> [] ->
  (str "list:" ++ serverList ∉ bootstrapped b) ->
  Forall (fun c => 0x0a <= c < 256) [b0; b1; b2; b3] -> (b0 ∉ [0x0e; 0x0f; 0xe0]) ->
  len (b0 :: b1 :: b2 :: b3 :: rest) < 0x64646464 ->
  exists e, addBootstrap alloc readFile b servers serverList nodeList = Err e /\ (e = BadAlloc \/ harmless e).
Proof.
  intros Hf Hne Hkey Hb H0 Hl. unfold addBootstrap.
  set (values := (fun v => (str "server:" ++ v, v)) <$> (trim <$> split servers 44 false)).
  pose proof (insertNew_keys (bootstrapped b) values (str "list:" ++ serverList)) as Hk.
  destruct (insertNew (bootstrapped b) values) as [seen fresh]. simpl in Hk.
  rewrite (bool_decide_eq_false_2 (serverList = [])) by done.
  rewrite (bool_decide_eq_false_2 (str "list:" ++ serverList ∈ seen)).
  2: { intros Hin. destruct (Hk Hin) as [?|Hv]; [done|]. unfold values in Hv. rewrite <- list_fmap_compose in Hv.
       apply list_elem_of_fmap in Hv as (v & Hv & _). discriminate Hv. }
  cbn [orb]. rewrite Hf. unfold serversOfFile, parseServerMetEntries, parse, seek.
  set (data := b0 :: b1 :: b2 :: b3 :: rest) in *. monad.
  rewrite (reads_byte b0 data 0 (b1 :: b2 :: b3 :: rest) (ahead_start data)).
  rewrite !not_elem_of_cons in H0. destruct H0 as (Ha & Hc & Hd & _).
  destruct (Z.eqb_spec b0 0x0e); [done|]. destruct (Z.eqb_spec b0 0x0f); [done|].
  destruct (Z.eqb_spec b0 0xe0); [done|]. cbn [negb andb].
  destruct (readMet_throws alloc data 0 b0 b1 b2 b3 rest (ahead_start data) Hb Hl) as (e & He & Hthrown).
  revert He. monad. intros ->. by exists e.
Qed.
End Link.

Module LinkExamples.
Import Bytes Text Wire Packet ServerProtocol Link.



Definition listed : bytes := str "10.0.0.1:4661
10.0.0.2:4661
".

Lemma text_server_list_throws_witness :
  exists e, addBootstrap (fun n => n <? 2 ^ 24) (fun _ => Some listed) (mkBootstrap [] [] []) [] (str "servers.txt") [] = Err e /\
    (e = BadAlloc \/ harmless e).
Proof.
  refine (text_server_list_throws _ _ _ _ _ _ _ _ _ _ _ (eq_refl (Some listed)) _ _ _ _ _).
  - done.
  - apply not_elem_of_nil.
  - by repeat (apply Forall_cons; split; [done|]); apply Forall_nil.
  - by apply (bool_decide_unpack _).
  - done.
Defined.
End LinkExamples.
