(* ===== verification/KadProtocol.v ===== *)
(** * Messages of the Kad network: [src/ed2k/KadProtocol.cc], and the cipher
    that hides them ([src/ed2k/Cipher.cc])

    [md5Digest] is computed by OpenSSL: it is a parameter, of which the proofs
    use that a digest has 16 bytes. *)

From Stdlib Require Import String.
From S2P Require Import Prelude Bytes Text Wire Packet ServerProtocol.

Module KadProtocol.
Import Bytes Text Wire Packet.
Import ServerProtocol(appendByte, appendInt64, readInt64, readString, readFlag, flagByte).

Definition PROTO_EDONKEY : Z := 0xe3.
Definition PROTO_PACKED : Z := 0xd4.
Definition PROTO_EMULE : Z := 0xc5.
Definition KAD_PACKED_PROTOCOL : Z := 0xe5.
Definition KAD_PROTOCOL : Z := 0xe4.
Definition KAD_ROUTING_STATE_MAGIC : bytes := str "A2ED2KKAD".
Definition KAD_ROUTING_STATE_VERSION : Z := 6.
Definition KAD_UDP_SYNC_CLIENT : Z := 0x395f2ec1.

(** ** Data *)

Record KadContact := mkContact {
  contactId : bytes;
  contactHost : bytes;
  contactUdpPort : Z;
  contactTcpPort : Z;
  contactVersion : Z;
  contactUdpKey : Z;
}.

Record KadHello := mkHello {
  helloId : bytes;
  helloTcpPort : Z;
  helloVersion : Z;
  helloTags : list Tag;
  requestsAck : bool;
  tcpFirewalled : bool;
  udpFirewalled : bool;
}.

Record KadBootstrapResponse := mkBootstrapResponse {
  bootstrapId : bytes;
  bootstrapTcpPort : Z;
  bootstrapVersion : Z;
  bootstrapContacts : list KadContact;
}.

Record KadRequest := mkKadRequest { searchType : Z; requestTarget : bytes; receiverId : bytes }.
Record KadResponse := mkResponse { responseTarget : bytes; responseContacts : list KadContact }.
Record KadPublishResult := mkPublish { publishFile : bytes; publishCount : Z }.
Record KadFirewalledRequest := mkFirewalledRequest { fwPort : Z; fwId : bytes; fwOptions : Z }.
Record KadFirewalledUdp := mkFirewalledUdp { errorCode : Z; fwUdpPort : Z }.
Record KadCallbackRequest := mkCallback { callbackBuddy : bytes; callbackFile : bytes; callbackPort : Z }.
Record DirectCallbackRequest := mkDirect { directPort : Z; directHash : bytes; connectOptions : Z }.
Record BuddyCallback := mkBuddy { buddyId : bytes; buddyFile : bytes; buddyEndpoint : Endpoint }.

Record KadObfuscatedDatagram := mkObfuscated {
  datagram : bytes;
  receiverVerifyKey : Z;
  senderVerifyKey : Z;
}.

Record NodesDat := mkNodes {
  nodesVersion : Z;
  bootstrapEdition : Z;
  nodesContacts : list KadContact;
  nodesVerified : list bool;
}.

Record KadRoutingNode := mkNode {
  contact : KadContact;
  confirmed : bool;
  seed : bool;
  failCount : Z;
  firstSeen : Z;
  lastSeen : Z;
}.

Record KadRoutingBucketSnapshot := mkBucket {
  live : list KadRoutingNode;
  replacements : list KadRoutingNode;
  lastActive : Z;
}.

Record KadRoutingSnapshot := mkSnapshot {
  selfId : bytes;
  buckets : list KadRoutingBucketSnapshot;
  routerNodes : list Endpoint;
  routerContacts : list KadContact;
  lastBootstrap : Z;
  lastRefresh : Z;
  lastSelfRefresh : Z;
  lastFirewalledCheck : Z;
  lastSourcePublish : Z;
  lastSourceSearch : Z;
  sourceSearchCount : Z;
  udpVerifyKey : Z;
  observedAddresses : list bytes;
  firewalled : bool;
}.

(** ** Addresses and ids *)

(** The number of an address is the other way round. *)
Definition ipv4FromKadContactValue (ip : Z) : bytes :=
  dec (Z.land (Z.shiftr ip 24) 0xff) ++ str "." ++ dec (Z.land (Z.shiftr ip 16) 0xff) ++ str "." ++
  dec (Z.land (Z.shiftr ip 8) 0xff) ++ str "." ++ dec (Z.land ip 0xff).

Definition swapBytes (ip : Z) : Z :=
  Z.lor (Z.lor (Z.lor (u32 (Z.shiftl (Z.land ip 0x000000ff) 24)) (u32 (Z.shiftl (Z.land ip 0x0000ff00) 8)))
    (Z.shiftr (Z.land ip 0x00ff0000) 8)) (Z.shiftr (Z.land ip 0xff000000) 24).
Definition ipv4ToKadContactValue (host : bytes) : result Z :=
  ip ← ipv4ToEndpointValue host; mret (swapBytes ip).

(** The loop over groups of four bytes. *)
Fixpoint swapGroups (s : bytes) : bytes :=
  match s with
  | a :: b :: c :: d :: s => d :: c :: b :: a :: swapGroups s
  | _ => []
  end.
Definition ed2kHashToKadId (hash : bytes) : result bytes :=
  _ ← validateHashLength hash; mret (swapGroups hash).
Definition kadIdToEd2kHash (id : bytes) : result bytes :=
  _ ← validateHashLength id; ed2kHashToKadId id.
Definition kadIdToObfuscationKeyBytes (id : bytes) : result bytes :=
  _ ← validateHashLength id; mret id.

(** ** Contacts *)

Definition readKadContact : reader KadContact :=
  id ← readBytes HASH_LENGTH;
  ip ← readU32;
  udpPort ← readU16;
  tcpPort ← readU16;
  version ← readByte;
  mret (mkContact id (ipv4FromKadContactValue ip) udpPort tcpPort version 0).

Definition packKadContact (c : KadContact) : result bytes :=
  _ ← validateHashLength (contactId c);
  ip ← ipv4ToKadContactValue (contactHost c);
  mret (contactId c ++ packUInt32 ip ++ packUInt16 (contactUdpPort c) ++ packUInt16 (contactTcpPort c) ++
        [u8 (contactVersion c)]).

(** ** Messages *)

Definition helloOptions (requestAck tcpFirewalled udpFirewalled : bool) : Z :=
  Z.lor (Z.lor (if requestAck then 0x04 else 0) (if tcpFirewalled then 0x02 else 0))
    (if udpFirewalled then 0x01 else 0).

Definition createKadHelloPayload (id : bytes) (tcpPort version : Z)
    (requestAck tcpFirewalled udpFirewalled : bool) : result bytes :=
  _ ← validateHashLength id;
  let options := helloOptions requestAck tcpFirewalled udpFirewalled in
  mret (id ++ packUInt16 tcpPort ++ [u8 version] ++ [if options =? 0 then 0 else 1] ++
        (if negb (options =? 0) then createUInt32Tag 0xf2 options else [])).

(** The body of the loop over the tags of a hello. *)
Definition applyKadTag (h : KadHello) (tag : Tag) : KadHello :=
  if negb (id tag =? 0xf2) || bool_decide (valueType tag <> UINT) then h
  else
    let options := u8 (intValue tag) in
    mkHello (helloId h) (helloTcpPort h) (helloVersion h) (helloTags h) (negb (Z.land options 0x04 =? 0))
      (negb (Z.land options 0x02 =? 0)) (negb (Z.land options 0x01 =? 0)).

Definition parseKadHelloPayload (h : KadHello) (payload : bytes) : result (bool * KadHello) :=
  if len payload <? HASH_LENGTH + 4 then mret (false, h)
  else parse (
    id ← readBytes HASH_LENGTH;
    tcpPort ← readU16;
    version ← readByte;
    tagCount ← readByte;
    let h := mkHello id tcpPort version (helloTags h) (requestsAck h) (tcpFirewalled h) (udpFirewalled h) in
    offset ← tell; n ← size; data ← whole;
    if n - offset <? tagCount * 2 then mret (false, h)
    else
      '(ok, tags) ← lift (parseTagList (helloTags h) (packUInt32 tagCount ++ drop (Z.to_nat offset) data));
      let h := mkHello (helloId h) (helloTcpPort h) (helloVersion h) tags (requestsAck h) (tcpFirewalled h)
                 (udpFirewalled h) in
      if negb ok then mret (false, h) else mret (true, foldl applyKadTag h tags)) payload.

Definition createKadHelloAckPayload (id : bytes) : result bytes :=
  _ ← validateHashLength id; mret (id ++ [0]).
Definition parseKadHelloAckPayload (id payload : bytes) : result (bool * bytes) :=
  if len payload <? HASH_LENGTH + 1 then mret (false, id)
  else
    b ← at_ payload HASH_LENGTH;
    if negb (b =? 0) then mret (false, id) else mret (true, take 16 payload).

Definition tooManyContacts : string := "Too many ED2K Kad contacts.".

Definition createKadBootstrapResponsePayload (id : bytes) (tcpPort version : Z) (contacts : list KadContact) :
    result bytes :=
  _ ← validateHashLength id;
  if 65535 <? len contacts then Err (ProtocolError tooManyContacts)
  else appendAll packKadContact contacts
         (id ++ packUInt16 tcpPort ++ [u8 version] ++ packUInt16 (len contacts)).

Definition parseKadBootstrapResponsePayload (r : KadBootstrapResponse) (payload : bytes) :
    result (bool * KadBootstrapResponse) :=
  if len payload <? HASH_LENGTH + 5 then mret (false, r)
  else parse (
    id ← readBytes HASH_LENGTH;
    tcpPort ← readU16;
    version ← readByte;
    count ← readU16;
    offset ← tell; n ← size;
    if negb (n - offset =? count * 25)
    then mret (false, mkBootstrapResponse id tcpPort version (bootstrapContacts r))
    else
      contacts ← readMany (Z.to_nat count) readKadContact;
      mret (true, mkBootstrapResponse id tcpPort version contacts)) payload.

Definition createKadRequestPayload (searchType : Z) (targetId receiverId : bytes) : result bytes :=
  _ ← validateHashLength targetId; _ ← validateHashLength receiverId;
  mret ([u8 searchType] ++ targetId ++ receiverId).
Definition parseKadRequestPayload (r : KadRequest) (payload : bytes) : result (bool * KadRequest) :=
  if negb (len payload =? HASH_LENGTH * 2 + 1) then mret (false, r)
  else parse (
    searchType ← readByte; target ← readBytes HASH_LENGTH; receiver ← readBytes HASH_LENGTH;
    mret (true, mkKadRequest searchType target receiver)) payload.

Definition createKadResponsePayload (targetId : bytes) (contacts : list KadContact) : result bytes :=
  _ ← validateHashLength targetId;
  if 255 <? len contacts then Err (ProtocolError "Too many ED2K Kad response contacts.")
  else appendAll packKadContact contacts (targetId ++ [u8 (len contacts)]).
Definition parseKadResponsePayload (r : KadResponse) (payload : bytes) : result (bool * KadResponse) :=
  if len payload <? HASH_LENGTH + 1 then mret (false, r)
  else parse (
    target ← readBytes HASH_LENGTH;
    count ← readByte;
    offset ← tell; n ← size;
    if negb (n - offset =? count * 25) then mret (false, mkResponse target (responseContacts r))
    else
      contacts ← readMany (Z.to_nat count) readKadContact;
      mret (true, mkResponse target contacts)) payload.

Definition createKadPublishResultPayload (fileId : bytes) (count : Z) : result bytes :=
  _ ← validateHashLength fileId; mret (fileId ++ [u8 count]).
Definition parseKadPublishResultPayload (r : KadPublishResult) (payload : bytes) :
    result (bool * KadPublishResult) :=
  if negb (len payload =? HASH_LENGTH + 1) then mret (false, r)
  else parse (
    file ← readBytes HASH_LENGTH; count ← readByte; mret (true, mkPublish file count)) payload.

Definition createKadFirewalledRequestPayload (tcpPort : Z) (id : bytes) (options : Z) : result bytes :=
  _ ← validateHashLength id; mret (packUInt16 tcpPort ++ id ++ [u8 options]).
Definition parseKadFirewalledRequestPayload (r : KadFirewalledRequest) (payload : bytes) :
    result (bool * KadFirewalledRequest) :=
  if negb (len payload =? HASH_LENGTH + 3) then mret (false, r)
  else parse (
    port ← readU16; id ← readBytes HASH_LENGTH; options ← readByte;
    mret (true, mkFirewalledRequest port id options)) payload.

Definition createKadFirewalledResponsePayload (ipAddress : bytes) : result bytes :=
  ip ← ipv4ToKadContactValue ipAddress; mret (packUInt32 ip).
(** The response is its address. *)
Definition parseKadFirewalledResponsePayload (ipAddress payload : bytes) : result (bool * bytes) :=
  if negb (len payload =? 4) then mret (false, ipAddress)
  else ip ← readUInt32 payload; mret (true, ipv4FromKadContactValue ip).

Definition createKadFirewalledUdpPayload (errorCode tcpPort : Z) : bytes :=
  [u8 errorCode] ++ packUInt16 tcpPort.
Definition parseKadFirewalledUdpPayload (r : KadFirewalledUdp) (payload : bytes) :
    result (bool * KadFirewalledUdp) :=
  if negb (len payload =? 3) then mret (false, r)
  else parse (code ← readByte; port ← readU16; mret (true, mkFirewalledUdp code port)) payload.

Definition createKadCallbackRequestPayload (buddyId fileId : bytes) (tcpPort : Z) : result bytes :=
  _ ← validateHashLength buddyId; _ ← validateHashLength fileId;
  mret (buddyId ++ fileId ++ packUInt16 tcpPort).
Definition parseKadCallbackRequestPayload (r : KadCallbackRequest) (payload : bytes) :
    result (bool * KadCallbackRequest) :=
  if negb (len payload =? HASH_LENGTH * 2 + 2) then mret (false, r)
  else parse (
    buddy ← readBytes HASH_LENGTH; file ← readBytes HASH_LENGTH; port ← readU16;
    mret (true, mkCallback buddy file port)) payload.

Definition createDirectCallbackRequestPayload (tcpPort : Z) (userHash : bytes) (connectOptions : Z) :
    result bytes :=
  _ ← validateHashLength userHash; mret (packUInt16 tcpPort ++ userHash ++ [u8 connectOptions]).
Definition parseDirectCallbackRequestPayload (r : DirectCallbackRequest) (payload : bytes) :
    result (bool * DirectCallbackRequest) :=
  if negb (len payload =? HASH_LENGTH + 3) then mret (false, r)
  else parse (
    port ← readU16; hash ← readBytes HASH_LENGTH; options ← readByte;
    mret (true, mkDirect port hash options)) payload.

Definition createBuddyCallbackPayload (buddyId fileId : bytes) (endpoint : Endpoint) : result bytes :=
  _ ← validateHashLength buddyId; _ ← validateHashLength fileId;
  ip ← ipv4ToEndpointValue (host endpoint);
  mret (buddyId ++ fileId ++ packUInt32 ip ++ packUInt16 (port endpoint)).
(** The endpoint keeps its options and its user hash. *)
Definition parseBuddyCallbackPayload (r : BuddyCallback) (payload : bytes) : result (bool * BuddyCallback) :=
  if negb (len payload =? HASH_LENGTH * 2 + 6) then mret (false, r)
  else parse (
    buddy ← readBytes HASH_LENGTH; file ← readBytes HASH_LENGTH; ip ← readU32; port ← readU16;
    let e := buddyEndpoint r in
    mret (negb (port =? 0),
          mkBuddy buddy file (mkEndpoint (ipv4FromEndpoint ip) port (cryptOptions e) (userHash e)))) payload.

(** ** The cipher *)

Record Rc4 := mkRc4 { state_ : list Z; i_ : Z; j_ : Z }.

(** [state_[i]]: the index is a byte, and the array has 256 elements. *)
Definition cell (state : list Z) (i : Z) : Z := charAt state i.
Definition swapCells (state : list Z) (i j : Z) : list Z :=
  <[Z.to_nat i := cell state j]> (<[Z.to_nat j := cell state i]> state).

Definition initStep (key : bytes) (r : list Z * Z) (i : nat) : list Z * Z :=
  let '(state, j) := r in
  let j := u8 (j + cell state (Z.of_nat i) + charAt key (Z.of_nat i mod len key)) in
  (swapCells state (Z.of_nat i) j, j).
Definition init (key : bytes) : Rc4 :=
  let '(state, _) := foldl (initStep key) (Z.of_nat <$> seq 0 256, 0) (seq 0 256) in mkRc4 state 0 0.

(** A round of the loop of [encrypt]: the cipher and the byte that hides one. *)
Definition keyByte (r : Rc4) : Rc4 * Z :=
  let i := u8 (i_ r + 1) in
  let j := u8 (j_ r + cell (state_ r) i) in
  let state := swapCells (state_ r) i j in
  (mkRc4 state i j, cell state (u8 (cell state i + cell state j))).
Fixpoint encrypt (r : Rc4) (data : bytes) : bytes :=
  match data with
  | [] => []
  | c :: data => let '(r, k) := keyByte r in Z.lxor c k :: encrypt r data
  end.
Definition rc4Crypt (data key : bytes) : bytes := encrypt (init key) data.

(** ** Hidden datagrams *)

Definition kadObfuscationMarker (receiverKeyUsed : bool) : Z := if receiverKeyUsed then 0x0a else 0x08.

Definition possibleKadObfuscatedDatagram (datagram : bytes) : result bool :=
  if len datagram <=? 16 then mret false
  else
    marker ← at_ datagram 0;
    mret (if bool_decide (marker ∈ [PROTO_EDONKEY; KAD_PROTOCOL; KAD_PACKED_PROTOCOL; PROTO_PACKED; PROTO_EMULE])
          then false else Z.land marker 0x01 =? 0).

Section obfuscation.
Context (md5Digest : bytes -> bytes).

Definition kadObfuscationKey (targetId : bytes) (randomKeyPart : Z) : result bytes :=
  _ ← validateHashLength targetId;
  keyData ← kadIdToObfuscationKeyBytes targetId;
  mret (md5Digest (keyData ++ packUInt16 randomKeyPart)).
Definition kadVerifyKeyObfuscationKey (receiverVerifyKey randomKeyPart : Z) : bytes :=
  md5Digest (packUInt32 receiverVerifyKey ++ packUInt16 randomKeyPart).

Definition createWithKey (datagram key : bytes) (randomKeyPart : Z) (receiverKeyUsed : bool)
    (receiverVerifyKey senderVerifyKey : Z) : bytes :=
  let plain := packUInt32 KAD_UDP_SYNC_CLIENT ++ [0] ++ packUInt32 receiverVerifyKey ++
               packUInt32 senderVerifyKey ++ datagram in
  [kadObfuscationMarker receiverKeyUsed] ++ packUInt16 randomKeyPart ++ encrypt (init key) plain.

(** For a node whose id is known, and for one whose key is. *)
Definition createKadObfuscatedDatagram (datagram targetId : bytes)
    (randomKeyPart receiverVerifyKey senderVerifyKey : Z) : result bytes :=
  _ ← validateHashLength targetId;
  key ← kadObfuscationKey targetId randomKeyPart;
  mret (createWithKey datagram key randomKeyPart false receiverVerifyKey senderVerifyKey).
Definition createForReceiver (datagram : bytes) (receiverVerifyKey senderVerifyKey randomKeyPart : Z) : bytes :=
  createWithKey datagram (kadVerifyKeyObfuscationKey receiverVerifyKey randomKeyPart) randomKeyPart true
    receiverVerifyKey senderVerifyKey.

Definition parseWithKey (parsed : KadObfuscatedDatagram) (data key : bytes) :
    result (bool * KadObfuscatedDatagram) :=
  possible ← possibleKadObfuscatedDatagram data;
  if negb possible then mret (false, parsed)
  else
    marker ← at_ data 0;
    if negb (Z.land marker 0x01 =? 0) then mret (false, parsed)
    else
      let decrypted := rc4Crypt (drop 3 data) key in
      if len decrypted <=? 13 then mret (false, parsed)
      else
        sync ← readUInt32 decrypted;
        if negb (sync =? KAD_UDP_SYNC_CLIENT) then mret (false, parsed)
        else
          padLen ← at_ decrypted 4;
          if len decrypted <=? 13 + padLen then mret (false, parsed)
          else
            let offset := 5 + padLen in
            receiver ← readUInt32 (drop (Z.to_nat offset) decrypted);
            sender ← readUInt32 (drop (Z.to_nat (offset + 4)) decrypted);
            mret (true, mkObfuscated (drop (Z.to_nat (offset + 8)) decrypted) receiver sender).

Definition parseKadObfuscatedDatagram (parsed : KadObfuscatedDatagram) (data targetId : bytes) :
    result (bool * KadObfuscatedDatagram) :=
  possible ← possibleKadObfuscatedDatagram data;
  if negb possible || negb (len targetId =? HASH_LENGTH) then mret (false, parsed)
  else
    marker ← at_ data 0;
    if negb (Z.land marker 0x03 =? 0) then mret (false, parsed)
    else
      randomKeyPart ← readUInt16 (drop 1 data);
      key ← kadObfuscationKey targetId randomKeyPart;
      parseWithKey parsed data key.
Definition parseForReceiver (parsed : KadObfuscatedDatagram) (data : bytes) (receiverVerifyKey : Z) :
    result (bool * KadObfuscatedDatagram) :=
  possible ← possibleKadObfuscatedDatagram data;
  if negb possible then mret (false, parsed)
  else
    marker ← at_ data 0;
    if negb (Z.land marker 0x03 =? 2) then mret (false, parsed)
    else
      randomKeyPart ← readUInt16 (drop 1 data);
      parseWithKey parsed data (kadVerifyKeyObfuscationKey receiverVerifyKey randomKeyPart).

Definition createKadUdpVerifyKey (baseKey : Z) (host : bytes) : result Z :=
  if (baseKey =? 0) || bool_decide (host = []) then mret 0
  else
    ip ← ipv4ToEndpointValue host;
    let data := Z.lor (u64 (Z.shiftl baseKey 32)) ip in
    let digest := md5Digest (pack 8 data) in
    a ← readUInt32 digest; b ← readUInt32 (drop 4 digest);
    c ← readUInt32 (drop 8 digest); d ← readUInt32 (drop 12 digest);
    mret (u32 (Z.lxor (Z.lxor (Z.lxor a b) c) d mod 0xfffffffe + 1)).
End obfuscation.

(** ** The saved routing table *)

Definition appendString (payload value : bytes) : result bytes :=
  if 65535 <? len value then Err (ProtocolError "ED2K Kad routing state string is too large.")
  else mret (payload ++ packUInt16 (len value) ++ value).

Definition appendEndpoint (payload : bytes) (e : Endpoint) : result bytes :=
  payload ← appendString payload (host e); mret (payload ++ packUInt16 (port e)).
Definition readStateEndpoint : reader Endpoint :=
  host ← readString; port ← readU16; mret (mkEndpoint host port 0 []).

Definition appendKadContact (payload : bytes) (c : KadContact) : result bytes :=
  _ ← validateHashLength (contactId c);
  payload ← appendString (payload ++ contactId c) (contactHost c);
  let payload := payload ++ packUInt16 (contactUdpPort c) in
  let payload := payload ++ packUInt16 (contactTcpPort c) in
  let payload := appendByte payload (contactVersion c) in
  mret (payload ++ packUInt32 (contactUdpKey c)).

Definition appendKadRoutingNode (payload : bytes) (n : KadRoutingNode) : result bytes :=
  let c := contact n in
  _ ← validateHashLength (contactId c);
  payload ← appendString (payload ++ contactId c) (contactHost c);
  let payload := payload ++ packUInt16 (contactUdpPort c) in
  let payload := payload ++ packUInt16 (contactTcpPort c) in
  let payload := appendByte payload (contactVersion c) in
  let payload := appendByte payload (flagByte (confirmed n)) in
  let payload := appendByte payload (flagByte (seed n)) in
  let payload := payload ++ packUInt32 (failCount n) in
  let payload := appendInt64 payload (firstSeen n) in
  mret (appendInt64 payload (lastSeen n)).

Definition readKadRoutingNode : reader KadRoutingNode :=
  id ← readBytes HASH_LENGTH;
  host ← readString;
  udpPort ← readU16;
  tcpPort ← readU16;
  version ← readByte;
  confirmed ← readFlag;
  seed ← readFlag;
  failCount ← readU32;
  firstSeen ← readInt64;
  lastSeen ← readInt64;
  mret (mkNode (mkContact id host udpPort tcpPort version 0) confirmed seed failCount firstSeen lastSeen).

(** The loop [for (const auto& x : l) append(payload, x)]. *)
Fixpoint appendEach {A} (append : bytes -> A -> result bytes) (l : list A) (payload : bytes) : result bytes :=
  match l with
  | [] => mret payload
  | x :: l => payload ← append payload x; appendEach append l payload
  end.

Definition appendKadRoutingNodes (payload : bytes) (nodes : list KadRoutingNode) : result bytes :=
  if 2 ^ 32 - 1 <? len nodes then Err (ProtocolError "ED2K Kad routing state has too many nodes.")
  else appendEach appendKadRoutingNode nodes (payload ++ packUInt32 (u32 (len nodes))).
(** [alloc] says for how many nodes there is memory. *)
Definition readKadRoutingNodes (alloc : Z -> bool) : reader (list KadRoutingNode) :=
  count ← readU32; _ ← reserve alloc count; readMany (Z.to_nat count) readKadRoutingNode.

Definition appendBucket (payload : bytes) (b : KadRoutingBucketSnapshot) : result bytes :=
  payload ← appendKadRoutingNodes (appendInt64 payload (lastActive b)) (live b);
  appendKadRoutingNodes payload (replacements b).
Definition readBucket (alloc : Z -> bool) : reader KadRoutingBucketSnapshot :=
  lastActive ← readInt64;
  live ← readKadRoutingNodes alloc;
  replacements ← readKadRoutingNodes alloc;
  mret (mkBucket live replacements lastActive).

Definition createKadRoutingStatePayload (s : KadRoutingSnapshot) : result bytes :=
  _ ← validateHashLength (selfId s);
  if (65535 <? len (buckets s)) || (65535 <? len (routerNodes s)) || (65535 <? len (routerContacts s)) ||
     (65535 <? len (observedAddresses s))
  then Err (ProtocolError "ED2K Kad routing state is too large.")
  else
    let payload := KAD_ROUTING_STATE_MAGIC ++ packUInt32 KAD_ROUTING_STATE_VERSION ++ selfId s in
    let payload := appendInt64 payload (lastBootstrap s) in
    let payload := appendInt64 payload (lastRefresh s) in
    let payload := appendInt64 payload (lastSelfRefresh s) in
    let payload := appendInt64 payload (lastFirewalledCheck s) in
    let payload := appendInt64 payload (lastSourcePublish s) in
    let payload := appendInt64 payload (lastSourceSearch s) in
    let payload := payload ++ packUInt32 (sourceSearchCount s) in
    let payload := payload ++ packUInt32 (udpVerifyKey s) in
    let payload := appendByte payload (flagByte (firewalled s)) in
    payload ← appendEach appendString (observedAddresses s) (payload ++ packUInt16 (len (observedAddresses s)));
    payload ← appendEach appendEndpoint (routerNodes s) (payload ++ packUInt16 (len (routerNodes s)));
    payload ← appendEach appendKadContact (routerContacts s) (payload ++ packUInt16 (len (routerContacts s)));
    appendEach appendBucket (buckets s) (payload ++ packUInt16 (len (buckets s))).

(** A contact of the list of routers, whose key was added in version 5. *)
Definition readRouterContact (version : Z) : reader KadContact :=
  id ← readBytes HASH_LENGTH;
  host ← readString;
  udpPort ← readU16;
  tcpPort ← readU16;
  v ← readByte;
  udpKey ← (if 5 <=? version then readU32 else mret 0);
  mret (mkContact id host udpPort tcpPort v udpKey).

Definition readRoutingState (alloc : Z -> bool) (version : Z) : reader KadRoutingSnapshot :=
  selfId ← readBytes HASH_LENGTH;
  lastBootstrap ← readInt64;
  lastRefresh ← readInt64;
  lastSelfRefresh ← readInt64;
  lastFirewalledCheck ← (if 2 <=? version then readInt64 else mret 0);
  lastSourcePublish ← (if 2 <=? version then readInt64 else mret 0);
  lastSourceSearch ← (if 3 <=? version then readInt64 else mret 0);
  sourceSearchCount ← (if 3 <=? version then readU32 else mret 0);
  udpVerifyKey ← (if 6 <=? version then readU32 else mret 0);
  firewalled ← (if 2 <=? version then readFlag else mret true);
  observedCount ← (if 2 <=? version then readU16 else mret 0);
  observed ← readMany (Z.to_nat observedCount) readString;
  routerCount ← readU16;
  routers ← readMany (Z.to_nat routerCount) readStateEndpoint;
  contactCount ← (if 4 <=? version then readU16 else mret 0);
  contacts ← readMany (Z.to_nat contactCount) (readRouterContact version);
  bucketCount ← readU16;
  buckets ← readMany (Z.to_nat bucketCount) (readBucket alloc);
  mret (mkSnapshot selfId buckets routers contacts lastBootstrap lastRefresh lastSelfRefresh
          lastFirewalledCheck lastSourcePublish lastSourceSearch sourceSearchCount udpVerifyKey observed
          firewalled).

(** The body of the [try] block. *)
Definition readRoutingStatePayload (alloc : Z -> bool) (s : KadRoutingSnapshot) : reader (bool * KadRoutingSnapshot) :=
  magic ← readBytes (len KAD_ROUTING_STATE_MAGIC);
  if bool_decide (magic <> KAD_ROUTING_STATE_MAGIC) then mret (false, s)
  else
    version ← readU32;
    if negb (version =? 1) && ((version <? 3) || (KAD_ROUTING_STATE_VERSION <? version)) then mret (false, s)
    else
      parsed ← readRoutingState alloc version;
      offset ← tell; n ← size;
      if negb (offset =? n) then mret (false, s) else mret (true, parsed).

(** The [catch] block takes a [ProtocolError] only. *)
Definition parseKadRoutingStatePayload (alloc : Z -> bool) (s : KadRoutingSnapshot) (payload : bytes) :
    result (bool * KadRoutingSnapshot) :=
  match parse (readRoutingStatePayload alloc s) payload with
  | Err (ProtocolError _) => mret (false, s)
  | r => r
  end.

(** ** The file of nodes *)

Definition validNodesDatContact (c : KadContact) : bool :=
  if negb (len (contactId c) =? HASH_LENGTH) || bool_decide (contactHost c = []) ||
     bool_decide (contactHost c = str "0.0.0.0") || (contactUdpPort c =? 0) || (contactVersion c <=? 1)
  then false
  else negb (contactUdpPort c =? 53) || (5 <? contactVersion c).

(** The body of the loop: a contact, and whether it was verified. *)
Definition readNode (hasVerifiedData : bool) : reader (KadContact * bool) :=
  contact ← readKadContact;
  verified ← (if hasVerifiedData then _ ← readBytes 8; readFlag else mret true);
  mret (contact, verified).

(** The contacts behind the header. *)
Definition readContacts (version edition count : Z) : reader (bool * NodesDat) :=
  let hasVerifiedData := (2 <=? version) && (edition =? 0) in
  let entrySize := if hasVerifiedData then 25 + 9 else 25 in
  offset ← tell; n ← size;
  if n - offset <? count * entrySize then mret (false, mkNodes version edition [] [])
  else
    nodes ← readMany (Z.to_nat count) (readNode hasVerifiedData);
    let kept := filter (fun node => validNodesDatContact node.1 = true) nodes in
    let anyVerified := existsb snd kept in
    let verified := if negb hasVerifiedData || negb anyVerified then map (fun _ => true) kept
                    else map snd kept in
    offset ← tell;
    mret (offset =? n, mkNodes version edition (map fst kept) verified).

(** The body of the [try] block. *)
Definition readNodesDat : reader (bool * NodesDat) :=
  count ← readU32;
  offset ← tell; n ← size;
  if negb (count =? 0) then readContacts 0 0 count
  else if n - offset <? 4 then mret (false, mkNodes 0 0 [] [])
  else
    version ← readU32;
    if (1 <=? version) && (version <=? 3) then
      offset ← tell;
      if (3 <=? version) && (n - offset <? 4) then mret (false, mkNodes version 0 [] [])
      else
        edition ← (if 3 <=? version then readU32 else mret 0);
        offset ← tell;
        if n - offset <? 4 then mret (false, mkNodes version edition [] [])
        else count ← readU32; readContacts version edition count
    else readContacts version 0 0.

(** The [catch] block is never reached, so what it leaves does not matter. *)
Definition parseNodesDat (nodes : NodesDat) (payload : bytes) : result (bool * NodesDat) :=
  if len payload <? 4 then mret (false, nodes)
  else match parse readNodesDat payload with
       | Err (ProtocolError _) => mret (false, nodes)
       | r => r
       end.

(** ** Lemmas *)

(** *** Addresses and ids *)

Lemma land_mask v k : 0 <= k -> Z.land v (Z.shiftl 255 k) = (v / 2 ^ k mod 256) * 2 ^ k.
Proof.
  intros Hk. rewrite <- Z.shiftr_div_pow2 by done. change 256 with (2 ^ 8). rewrite <- land_low by lia.
  rewrite <- Z.shiftl_mul_pow2 by done. apply Z.bits_inj'. intros n Hn.
  rewrite Z.land_spec, !Z.shiftl_spec, Z.land_spec by lia. change (2 ^ 8 - 1) with 255.
  destruct (Z.ltb_spec n k).
  - by rewrite !(Z.testbit_neg_r _ (n - k)), andb_false_r by lia.
  - rewrite Z.shiftr_spec by lia. by replace (n - k + k) with n by lia.
Qed.

Lemma swapBytes_eq v :
  0 <= v < 2 ^ 32 ->
  swapBytes v = (v mod 256) * 16777216 + (v / 256 mod 256) * 65536 + (v / 65536 mod 256) * 256 + v / 16777216 mod 256.
Proof.
  intros Hv. unfold swapBytes. change 0x000000ff with (Z.shiftl 255 0). change 0x0000ff00 with (Z.shiftl 255 8).
  change 0x00ff0000 with (Z.shiftl 255 16). change 0xff000000 with (Z.shiftl 255 24). rewrite !land_mask by lia.
  change (2 ^ 0) with 1. change (2 ^ 8) with 256. change (2 ^ 16) with 65536. change (2 ^ 24) with 16777216.
  rewrite Z.div_1_r, Z.mul_1_r. set (a := v mod 256). set (b := v / 256 mod 256). set (c := v / 65536 mod 256).
  set (d := v / 16777216 mod 256).
  assert (0 <= a < 256 /\ 0 <= b < 256 /\ 0 <= c < 256 /\ 0 <= d < 256) as (Ha & Hb & Hc & Hd)
    by (split_and!; by apply Z.mod_pos_bound). clearbody a b c d.
  rewrite !Z.shiftl_mul_pow2, !Z.shiftr_div_pow2 by lia. change (2 ^ 8) with 256. change (2 ^ 24) with 16777216.
  rewrite Z.div_mul by lia. replace (c * 65536 / 256) with (c * 256) by (change 65536 with (256 * 256); dlia).
  rewrite !u32_small by (change (2 ^ 32) with 4294967296; lia). rewrite <- !Z.lor_assoc.
  replace (c * 256) with (c * 2 ^ 8) at 1 by (change (2 ^ 8) with 256; lia).
  rewrite (Z.lor_comm (c * 2 ^ 8)), (lor_mul d c 8) by (change (2 ^ 8) with 256; lia).
  change (2 ^ 8) with 256. replace (b * 256 * 256) with (b * 2 ^ 16) by (change (2 ^ 16) with 65536; lia).
  rewrite (Z.lor_comm (b * 2 ^ 16)), (lor_mul _ b 16) by (change (2 ^ 16) with 65536; lia).
  replace (a * 16777216) with (a * 2 ^ 24) at 1 by (change (2 ^ 24) with 16777216; lia).
  rewrite (Z.lor_comm (a * 2 ^ 24)), (lor_mul _ a 24) by (change (2 ^ 16) with 65536; change (2 ^ 24) with 16777216; lia).
  change (2 ^ 16) with 65536. change (2 ^ 24) with 16777216. lia.
Qed.

Lemma four_bytes a b c d :
  0 <= a < 256 -> 0 <= b < 256 -> 0 <= c < 256 -> 0 <= d < 256 ->
  let x := a * 16777216 + b * 65536 + c * 256 + d in
  x mod 256 = d /\ x / 256 mod 256 = c /\ x / 65536 mod 256 = b /\ x / 16777216 mod 256 = a.
Proof. intros Ha Hb Hc Hd. cbv zeta. split_and!; dlia. Qed.

Lemma swapBytes_range v : 0 <= v < 2 ^ 32 -> 0 <= swapBytes v < 2 ^ 32.
Proof. intros Hv. rewrite swapBytes_eq by done. change (2 ^ 32) with 4294967296 in *. dlia. Qed.
Lemma swapBytes_twice v : 0 <= v < 2 ^ 32 -> swapBytes (swapBytes v) = v.
Proof.
  intros Hv. pose proof (swapBytes_range v Hv) as Hr. rewrite (swapBytes_eq (swapBytes v)) by done.
  rewrite swapBytes_eq by done. change (2 ^ 32) with 4294967296 in *.
  destruct (four_bytes (v mod 256) (v / 256 mod 256) (v / 65536 mod 256) (v / 16777216 mod 256)) as (-> & -> & -> & ->);
    [by apply Z.mod_pos_bound..|]. dlia.
Qed.

Lemma kadAddress_swap ip : 0 <= ip < 2 ^ 32 -> ipv4FromKadContactValue ip = ipv4FromEndpoint (swapBytes ip).
Proof.
  intros Hip. unfold ipv4FromKadContactValue, ipv4FromEndpoint. pose proof (swapBytes_range ip Hip) as Hr.
  destruct (octets ip Hip) as (-> & -> & -> & ->). destruct (octets _ Hr) as (-> & -> & -> & ->).
  rewrite swapBytes_eq by done.
  destruct (four_bytes (ip mod 256) (ip / 256 mod 256) (ip / 65536 mod 256) (ip / 16777216 mod 256)) as (-> & -> & -> & ->);
    [by apply Z.mod_pos_bound..|]. done.
Qed.
Lemma kadAddress_roundtrip ip : 0 <= ip < 2 ^ 32 -> ipv4ToKadContactValue (ipv4FromKadContactValue ip) = Ok ip.
Proof.
  intros Hip. unfold ipv4ToKadContactValue. rewrite kadAddress_swap by done. monad.
  rewrite ipv4_roundtrip by by apply swapBytes_range. by rewrite swapBytes_twice.
Qed.

Lemma swapGroups_twice s : forall n, length s = (4 * n)%nat -> swapGroups (swapGroups s) = s /\ length (swapGroups s) = length s.
Proof.
  intros n. revert s. induction n as [|n IH]; intros s Hs.
  - destruct s; [done|simpl in Hs; lia].
  - destruct s as [|a [|b [|c [|d s]]]]; simpl in Hs; try lia. destruct (IH s) as [E1 E2]; [lia|].
    simpl. by rewrite E1, E2.
Qed.
Lemma kadId_roundtrip hash :
  len hash = HASH_LENGTH -> exists id, ed2kHashToKadId hash = Ok id /\ kadIdToEd2kHash id = Ok hash.
Proof.
  intros Hh. unfold ed2kHashToKadId, kadIdToEd2kHash, ed2kHashToKadId. monad. rewrite hash_valid by done.
  eexists. split; [reflexivity|]. unfold len, HASH_LENGTH in Hh.
  destruct (swapGroups_twice hash 4) as [E1 E2]; [lia|].
  rewrite hash_valid by (unfold len; rewrite E2; unfold HASH_LENGTH; lia). by rewrite E1.
Qed.

(** *** Contacts *)

(** A contact as they are read: the key is not part of a message. *)
Definition contact_ok (c : KadContact) : Prop :=
  len (contactId c) = HASH_LENGTH /\ (exists ip, 0 <= ip < 2 ^ 32 /\ contactHost c = ipv4FromKadContactValue ip) /\
  0 <= contactUdpPort c < 2 ^ 16 /\ 0 <= contactTcpPort c < 2 ^ 16 /\ 0 <= contactVersion c < 256 /\
  contactUdpKey c = 0.

Lemma packContact_ok c :
  contact_ok c -> exists b, packKadContact c = Ok b /\ len b = 25 /\ reads readKadContact b c.
Proof.
  destruct c as [id h up tp v k]. intros (Hid & (ip & Hip & Hh) & Hu & Ht & Hv & Hk). simpl in *. subst h k.
  unfold packKadContact. monad. cbn [contactId contactHost contactUdpPort contactTcpPort contactVersion].
  rewrite hash_valid, kadAddress_roundtrip by done. eexists. split; [reflexivity|]. split.
  - rewrite !len_app, Hid. reflexivity.
  - unfold readKadContact. eapply reads_bind; [by apply reads_hash|]. eapply reads_bind; [by apply reads_u32|].
    eapply reads_bind; [by apply reads_u16|]. eapply reads_bind; [by apply reads_u16|].
    eapply reads_last; [by apply reads_byte_u8|]. apply reads_ret.
Qed.
Lemma packContacts_ok l payload :
  Forall contact_ok l ->
  exists b, appendAll packKadContact l payload = Ok (payload ++ b) /\ len b = 25 * len l /\
    reads (readMany (length l) readKadContact) b l.
Proof.
  intros Hall. rewrite Forall_forall in Hall.
  destruct (appendAll_reads readKadContact packKadContact (fun c => c) 25 l payload) as (b & Hb).
  { intros c Hc. apply packContact_ok. by apply Hall. }
  rewrite list_fmap_id in Hb. by exists b.
Qed.

(** *** Messages *)

Lemma kadHello_ok hid tcpPort version ack tcp udp :
  len hid = HASH_LENGTH -> 0 <= tcpPort < 2 ^ 16 -> 0 <= version < 256 ->
  exists p, createKadHelloPayload hid tcpPort version ack tcp udp = Ok p /\
    exists tags, parseKadHelloPayload (mkHello [] 0 0 [] false false false) p =
      Ok (true, mkHello hid tcpPort version tags ack tcp udp).
Proof.
  intros Hid Hp Hv. unfold createKadHelloPayload, parseKadHelloPayload. monad. rewrite hash_valid by done.
  eexists. split; [reflexivity|]. set (options := helloOptions ack tcp udp).
  set (l := if options =? 0 then [] else [mkTag 0xf2 [] 3 UINT [] options []]).
  set (w := fun t => createUInt32Tag (id t) (intValue t)).
  assert ((if negb (options =? 0) then createUInt32Tag 0xf2 options else []) = l ≫= w) as ->.
  { unfold l, w. destruct (options =? 0); [done|]. simpl negb. cbv iota. by rewrite bind_cons, app_nil_r. }
  assert ((if options =? 0 then 0 else 1) = len l) as -> by (unfold l; by destruct (options =? 0)).
  assert (0 <= options < 8) as Ho by (unfold options; destruct ack, tcp, udp; done).
  assert (forall t, t ∈ l -> reads readTag (w t) t) as Hl.
  { intros t Ht. unfold l in Ht. destruct (options =? 0); [by apply not_elem_of_nil in Ht|].
    apply list_elem_of_singleton in Ht as ->. apply reads_uint32Tag; lia. }
  assert (0 <= len l <= 1 /\ 2 * len l <= len (l ≫= w)) as [Hn Hw].
  { unfold l, w. destruct (options =? 0); [done|]. by rewrite bind_cons. }
  exists l. set (payload := hid ++ _). assert (len payload = 20 + len (l ≫= w)) as Hlen.
  { unfold payload. rewrite !len_app, Hid. unfold HASH_LENGTH. change (len [u8 version]) with 1.
    change (len [len l]) with 1. change (len (packUInt16 tcpPort)) with 2. lia. }
  destruct (Z.ltb_spec (len payload) (HASH_LENGTH + 4)); [unfold HASH_LENGTH in *; lia|].
  pose proof (ahead_start payload) as Ha. unfold parse, tell, size, whole, lift. monad.
  unfold payload in Ha at 2. rewrite (reads_hash hid Hid _ _ _ Ha). apply ahead_step in Ha. rewrite Hid in *.
  rewrite (reads_u16 tcpPort Hp _ _ _ Ha). apply ahead_step in Ha. change (len (packUInt16 tcpPort)) with 2 in *.
  rewrite (reads_byte_u8 version Hv _ _ _ Ha). apply ahead_step in Ha. change (len [u8 version]) with 1 in *.
  rewrite (reads_byte (len l) _ _ _ Ha). apply ahead_step in Ha. change (len [len l]) with 1 in *.
  cbn [helloTags requestsAck tcpFirewalled udpFirewalled helloId helloTcpPort helloVersion].
  destruct (Z.ltb_spec (len payload - (0 + HASH_LENGTH + 2 + 1 + 1)) (len l * 2)); [unfold HASH_LENGTH in *; lia|].
  destruct Ha as [_ ->]. rewrite (parseTagList_written [] l w) by (done || lia). simpl negb. cbv iota.
  do 3 f_equal. clear -Ho. unfold l. destruct (Z.eqb_spec options 0) as [E|E].
  - simpl. unfold options in E. by destruct ack, tcp, udp.
  - cbn [foldl]. unfold applyKadTag, options. simpl. by destruct ack, tcp, udp.
Qed.

Lemma kadBootstrap_ok bid tcpPort version l old :
  len bid = HASH_LENGTH -> 0 <= tcpPort < 2 ^ 16 -> 0 <= version < 256 -> len l < 2 ^ 16 -> Forall contact_ok l ->
  exists p, createKadBootstrapResponsePayload bid tcpPort version l = Ok p /\
    parseKadBootstrapResponsePayload old p = Ok (true, mkBootstrapResponse bid tcpPort version l).
Proof.
  intros Hid Hp Hv Hn Hall. pose proof (len_nonneg l).
  destruct (packContacts_ok l (bid ++ packUInt16 tcpPort ++ [u8 version] ++ packUInt16 (len l)) Hall) as (b & Hb & Hl & Hr).
  unfold createKadBootstrapResponsePayload, parseKadBootstrapResponsePayload. monad. rewrite hash_valid by done.
  destruct (Z.ltb_spec 65535 (len l)); [lia|]. eexists. split; [exact Hb|]. rewrite <- !app_assoc.
  pose proof (len_nonneg b). set (payload := bid ++ _).
  assert (len payload = 21 + len b) as Hlen.
  { unfold payload. rewrite !len_app, Hid. unfold HASH_LENGTH. change (len [u8 version]) with 1.
    change (len (packUInt16 _)) with 2. lia. }
  destruct (Z.ltb_spec (len payload) (HASH_LENGTH + 5)); [unfold HASH_LENGTH in *; lia|].
  apply ends_parse. rewrite Hlen. unfold payload. eapply ends_bind; [by apply reads_hash|].
  eapply ends_bind; [by apply reads_u16|]. eapply ends_bind; [by apply reads_byte_u8|].
  eapply ends_bind; [apply reads_u16; lia|]. apply ends_tell, ends_size. rewrite Hid.
  change (len [u8 version]) with 1. change (len (packUInt16 _)) with 2.
  match goal with |- context [?x =? ?y] => destruct (Z.eqb_spec x y); [|unfold HASH_LENGTH in *; lia] end.
  replace (Z.to_nat (len l)) with (length l) by (unfold len; lia). simpl negb. cbv iota.
  eapply ends_last; [exact Hr|]. apply ends_ret.
Qed.

Lemma kadResponse_ok target l old :
  len target = HASH_LENGTH -> len l < 256 -> Forall contact_ok l ->
  exists p, createKadResponsePayload target l = Ok p /\ parseKadResponsePayload old p = Ok (true, mkResponse target l).
Proof.
  intros Hid Hn Hall. pose proof (len_nonneg l).
  destruct (packContacts_ok l (target ++ [u8 (len l)]) Hall) as (b & Hb & Hl & Hr).
  unfold createKadResponsePayload, parseKadResponsePayload. monad. rewrite hash_valid by done.
  destruct (Z.ltb_spec 255 (len l)); [lia|]. eexists. split; [exact Hb|]. rewrite <- !app_assoc.
  pose proof (len_nonneg b). set (payload := target ++ _).
  assert (len payload = 17 + len b) as Hlen.
  { unfold payload. rewrite !len_app, Hid. unfold HASH_LENGTH. change (len [u8 (len l)]) with 1. lia. }
  destruct (Z.ltb_spec (len payload) (HASH_LENGTH + 1)); [unfold HASH_LENGTH in *; lia|].
  apply ends_parse. rewrite Hlen. unfold payload. eapply ends_bind; [by apply reads_hash|].
  eapply ends_bind; [apply reads_byte_u8; lia|]. apply ends_tell, ends_size. rewrite Hid.
  change (len [u8 (len l)]) with 1.
  match goal with |- context [?x =? ?y] => destruct (Z.eqb_spec x y); [|unfold HASH_LENGTH in *; lia] end.
  replace (Z.to_nat (len l)) with (length l) by (unfold len; lia). simpl negb. cbv iota.
  eapply ends_last; [exact Hr|]. apply ends_ret.
Qed.

(** The messages of a fixed size. *)
Ltac fixed_message :=
  monad; rewrite ?hash_valid by done; try (eexists; split; [reflexivity|]);
  match goal with |- context [negb (len ?p =? ?n)] =>
    assert (len p = n) as -> by (rewrite !len_app, ?len_app; repeat match goal with H : len _ = HASH_LENGTH |- _ => rewrite H end; reflexivity);
    rewrite Z.eqb_refl; simpl negb; cbv iota end;
  apply reads_parse.

Lemma kadFixed_ok a b tcpPort code :
  len a = HASH_LENGTH -> len b = HASH_LENGTH -> 0 <= tcpPort < 2 ^ 16 -> 0 <= code < 256 ->
  (exists p, createKadRequestPayload code a b = Ok p /\
     forall old, parseKadRequestPayload old p = Ok (true, mkKadRequest code a b)) /\
  (exists p, createKadPublishResultPayload a code = Ok p /\
     forall old, parseKadPublishResultPayload old p = Ok (true, mkPublish a code)) /\
  (exists p, createKadFirewalledRequestPayload tcpPort a code = Ok p /\
     forall old, parseKadFirewalledRequestPayload old p = Ok (true, mkFirewalledRequest tcpPort a code)) /\
  (forall old, parseKadFirewalledUdpPayload old (createKadFirewalledUdpPayload code tcpPort) =
     Ok (true, mkFirewalledUdp code tcpPort)) /\
  (exists p, createKadCallbackRequestPayload a b tcpPort = Ok p /\
     forall old, parseKadCallbackRequestPayload old p = Ok (true, mkCallback a b tcpPort)) /\
  (exists p, createDirectCallbackRequestPayload tcpPort a code = Ok p /\
     forall old, parseDirectCallbackRequestPayload old p = Ok (true, mkDirect tcpPort a code)).
Proof.
  intros Ha Hb Hp Hc.
  split_and!; unfold createKadRequestPayload, parseKadRequestPayload, createKadPublishResultPayload,
    parseKadPublishResultPayload, createKadFirewalledRequestPayload, parseKadFirewalledRequestPayload,
    createKadFirewalledUdpPayload, parseKadFirewalledUdpPayload, createKadCallbackRequestPayload,
    parseKadCallbackRequestPayload, createDirectCallbackRequestPayload, parseDirectCallbackRequestPayload.
  - monad. rewrite !hash_valid by done. eexists. split; [reflexivity|]. intros old. fixed_message.
    eapply reads_bind; [by apply reads_byte_u8|]. eapply reads_bind; [by apply reads_hash|].
    eapply reads_last; [by apply reads_hash|]. apply reads_ret.
  - monad. rewrite !hash_valid by done. eexists. split; [reflexivity|]. intros old. fixed_message.
    eapply reads_bind; [by apply reads_hash|]. eapply reads_last; [by apply reads_byte_u8|]. apply reads_ret.
  - monad. rewrite !hash_valid by done. eexists. split; [reflexivity|]. intros old. fixed_message.
    eapply reads_bind; [by apply reads_u16|]. eapply reads_bind; [by apply reads_hash|].
    eapply reads_last; [by apply reads_byte_u8|]. apply reads_ret.
  - intros old. fixed_message. eapply reads_bind; [by apply reads_byte_u8|].
    eapply reads_last; [by apply reads_u16|]. apply reads_ret.
  - monad. rewrite !hash_valid by done. eexists. split; [reflexivity|]. intros old. fixed_message.
    eapply reads_bind; [by apply reads_hash|]. eapply reads_bind; [by apply reads_hash|].
    eapply reads_last; [by apply reads_u16|]. apply reads_ret.
  - monad. rewrite !hash_valid by done. eexists. split; [reflexivity|]. intros old. fixed_message.
    eapply reads_bind; [by apply reads_u16|]. eapply reads_bind; [by apply reads_hash|].
    eapply reads_last; [by apply reads_byte_u8|]. apply reads_ret.
Qed.

(** *** The cipher *)

Lemma encrypt_twice data : forall r, encrypt r (encrypt r data) = data.
Proof.
  induction data as [|c data IH]; intros r; [done|]. cbn [encrypt]. destruct (keyByte r) as [r' k] eqn:E.
  cbn [encrypt]. rewrite E, IH. by rewrite Z.lxor_assoc, Z.lxor_nilpotent, Z.lxor_0_r.
Qed.
Lemma encrypt_length data : forall r, len (encrypt r data) = len data.
Proof.
  induction data as [|c data IH]; intros r; [done|]. cbn [encrypt]. destruct (keyByte r) as [r' k].
  by rewrite !len_cons, IH.
Qed.

(** The array is a permutation of the bytes, so no index is outside of it. *)
Definition rc4_ok (state : list Z) : Prop := state ≡ₚ Z.of_nat <$> seq 0 256.

Lemma rc4_length state : rc4_ok state -> length state = 256%nat.
Proof. intros H. apply Permutation_length in H. by rewrite H, length_fmap, length_seq. Qed.
Lemma rc4_cell state i : rc4_ok state -> 0 <= i < 256 -> state !! Z.to_nat i = Some (cell state i) /\ byte_ok (cell state i).
Proof.
  intros Hs Hi. pose proof (rc4_length state Hs) as Hl. unfold cell, charAt.
  destruct (lookup_lt_is_Some_2 state (Z.to_nat i)) as [v Ev]; [lia|]. rewrite Ev. split; [done|]. simpl.
  apply list_elem_of_lookup_2 in Ev. unfold rc4_ok in Hs. rewrite Hs in Ev. apply list_elem_of_fmap in Ev as (k & -> & Hk).
  apply elem_of_seq in Hk. unfold byte_ok. lia.
Qed.

Lemma swapCells_ok state i j : rc4_ok state -> 0 <= i < 256 -> 0 <= j < 256 -> rc4_ok (swapCells state i j).
Proof.
  intros Hs Hi Hj. pose proof (rc4_length state Hs) as Hl. unfold rc4_ok. etrans; [|exact Hs].
  destruct (rc4_cell state i Hs Hi) as [Ei _]. destruct (rc4_cell state j Hs Hj) as [Ej _].
  unfold swapCells. apply Permutation_inj. split; [by rewrite !length_insert|].
  exists (fun k => if decide (k = Z.to_nat i) then Z.to_nat j else if decide (k = Z.to_nat j) then Z.to_nat i else k).
  split.
  - intros x y. repeat case_decide; congruence.
  - intros k. case_decide as H1; [|case_decide as H2].
    + subst k. rewrite list_lookup_insert_eq by (rewrite length_insert; lia). done.
    + subst k. rewrite list_lookup_insert_ne by done. rewrite list_lookup_insert_eq by lia. done.
    + by rewrite !list_lookup_insert_ne by done.
Qed.

Lemma u8_byte v : 0 <= u8 v < 256.
Proof. by apply Z.mod_pos_bound. Qed.

Lemma init_ok key : rc4_ok (state_ (init key)).
Proof.
  unfold init. assert (forall n state j, (n <= 256)%nat -> rc4_ok state ->
    rc4_ok (foldl (initStep key) (state, j) (seq (256 - n) n)).1) as H.
  { induction n as [|n IH]; intros state j Hn Hs; [done|]. cbn [seq foldl initStep].
    replace (S (256 - S n)) with (256 - n)%nat by lia. apply IH; [lia|].
    apply swapCells_ok; [done|lia|apply u8_byte]. }
  specialize (H 256%nat (Z.of_nat <$> seq 0 256) 0 ltac:(lia)).
  change (256 - 256)%nat with 0%nat in H. destruct (foldl _ _ _) as [state j]. apply H. unfold rc4_ok. reflexivity.
Qed.
Lemma keyByte_ok r : rc4_ok (state_ r) -> rc4_ok (state_ (keyByte r).1) /\ byte_ok (keyByte r).2.
Proof.
  intros Hs. unfold keyByte. cbn [fst snd state_]. assert (rc4_ok (swapCells (state_ r) (u8 (i_ r + 1)) (u8 (j_ r + cell (state_ r) (u8 (i_ r + 1)))))) as H
    by (apply swapCells_ok; [done|apply u8_byte..]).
  split; [done|]. by apply rc4_cell; [|apply u8_byte].
Qed.
Lemma lxor_byte a b : byte_ok a -> byte_ok b -> byte_ok (Z.lxor a b).
Proof.
  unfold byte_ok. intros Ha Hb. assert (0 <= Z.lxor a b) as H0 by (apply Z.lxor_nonneg; lia).
  split; [done|]. destruct (decide (Z.lxor a b = 0)) as [->|Hne]; [done|]. change 256 with (2 ^ 8).
  apply Z.log2_lt_pow2; [lia|]. pose proof (Z.log2_lxor a b ltac:(lia) ltac:(lia)).
  pose proof (Z.log2_le_mono a 255 ltac:(lia)). pose proof (Z.log2_le_mono b 255 ltac:(lia)).
  change (Z.log2 255) with 7 in *. lia.
Qed.
Lemma encrypt_bytes data : bytes_ok data -> forall r, rc4_ok (state_ r) -> bytes_ok (encrypt r data).
Proof.
  induction 1 as [|c data Hc Hd IH]; intros r Hr; [by apply Forall_nil|]. cbn [encrypt].
  pose proof (keyByte_ok r Hr) as [H1 H2]. destruct (keyByte r) as [r' k]. constructor; [by apply lxor_byte|by apply IH].
Qed.

(** *** Hidden datagrams *)

Lemma at_app p q i : 0 <= i < len p -> at_ (p ++ q) i = at_ p i.
Proof.
  intros Hi. unfold at_. destruct (Z.ltb_spec i 0); [lia|]. unfold len in Hi. by rewrite lookup_app_l by lia.
Qed.
Lemma readUInt32_app v q : 0 <= v < 2 ^ 32 -> readUInt32 (packUInt32 v ++ q) = Ok v.
Proof.
  intros Hv. rewrite <- (readUInt32_pack v Hv). unfold packUInt32. rewrite u32_small by done.
  unfold readUInt32. by rewrite !at_app by (rewrite len_pack; lia).
Qed.
Lemma readUInt16_app v q : 0 <= v < 2 ^ 16 -> readUInt16 (packUInt16 v ++ q) = Ok v.
Proof.
  intros Hv. rewrite <- (readUInt16_pack v Hv). unfold packUInt16. rewrite u16_small by done.
  unfold readUInt16. by rewrite !at_app by (rewrite len_pack; lia).
Qed.

Lemma withKey_ok d key part used receiver sender old :
  d <> [] -> 0 <= receiver < 2 ^ 32 -> 0 <= sender < 2 ^ 32 ->
  possibleKadObfuscatedDatagram (createWithKey d key part used receiver sender) = Ok true /\
  parseWithKey old (createWithKey d key part used receiver sender) key = Ok (true, mkObfuscated d receiver sender).
Proof.
  intros Hd Hr Hs. assert (1 <= len d) as Hl.
  { destruct d; [done|]. rewrite len_cons. pose proof (len_nonneg d). lia. }
  set (plain := packUInt32 KAD_UDP_SYNC_CLIENT ++ [0] ++ packUInt32 receiver ++ packUInt32 sender ++ d).
  assert (len plain = 13 + len d) as Hp.
  { unfold plain. rewrite !len_app. change (len (packUInt32 _)) with 4. change (len [0]) with 1. lia. }
  set (data := createWithKey d key part used receiver sender).
  assert (possibleKadObfuscatedDatagram data = Ok true) as Hpos.
  { unfold possibleKadObfuscatedDatagram, data, createWithKey. fold plain.
    rewrite !len_app, encrypt_length, Hp. change (len [_]) with 1. change (len (packUInt16 _)) with 2.
    destruct (Z.leb_spec (1 + (2 + (13 + len d))) 16); [lia|]. by destruct used. }
  split; [done|]. unfold parseWithKey. rewrite Hpos. monad. change (negb true) with false. cbv iota.
  change (at_ data 0) with (Ok (kadObfuscationMarker used) : result Z). cbv beta iota.
  assert (negb (Z.land (kadObfuscationMarker used) 1 =? 0) = false) as -> by (by destruct used). cbv iota.
  change (drop 3 data) with (encrypt (init key) plain). unfold rc4Crypt. rewrite encrypt_twice, Hp.
  destruct (Z.leb_spec (13 + len d) 13); [lia|]. assert (readUInt32 plain = Ok KAD_UDP_SYNC_CLIENT) as -> by (apply readUInt32_app; unfold KAD_UDP_SYNC_CLIENT; lia).
  rewrite Z.eqb_refl. change (negb true) with false. cbv iota.
  change (at_ plain 4) with (Ok 0 : result Z). cbv beta iota. destruct (Z.leb_spec (13 + len d) (13 + 0)); [lia|].
  change (drop (Z.to_nat (5 + 0)) plain) with (packUInt32 receiver ++ packUInt32 sender ++ d).
  change (drop (Z.to_nat (5 + 0 + 4)) plain) with (packUInt32 sender ++ d).
  change (drop (Z.to_nat (5 + 0 + 8)) plain) with d. clearbody plain data.
  rewrite (readUInt32_app receiver) by done. by rewrite (readUInt32_app sender) by done.
Qed.

Section obfuscation_ok.
Context (md5Digest : bytes -> bytes).

Lemma obfuscated_ok d target part receiver sender old :
  d <> [] -> len target = HASH_LENGTH -> 0 <= part < 2 ^ 16 -> 0 <= receiver < 2 ^ 32 -> 0 <= sender < 2 ^ 32 ->
  exists p, createKadObfuscatedDatagram md5Digest d target part receiver sender = Ok p /\
    parseKadObfuscatedDatagram md5Digest old p target = Ok (true, mkObfuscated d receiver sender) /\
    (forall key, parseForReceiver md5Digest old p key = Ok (false, old)).
Proof.
  intros Hd Ht Hp Hr Hs. unfold createKadObfuscatedDatagram, kadObfuscationKey, kadIdToObfuscationKeyBytes.
  monad. rewrite !hash_valid by done. eexists. split; [reflexivity|].
  set (key := md5Digest _). destruct (withKey_ok d key part false receiver sender old Hd Hr Hs) as [H1 H2].
  unfold parseKadObfuscatedDatagram, parseForReceiver. rewrite H1. monad. rewrite Ht. split; [|done].
  change (negb true || negb (HASH_LENGTH =? HASH_LENGTH)) with false. cbv iota.
  change (at_ (createWithKey d key part false receiver sender) 0) with (Ok 8 : result Z). cbv beta iota.
  change (negb (Z.land 8 3 =? 0)) with false. cbv iota.
  unfold createWithKey at 1. change (drop 1 _) with (packUInt16 part ++ encrypt (init key) (packUInt32 KAD_UDP_SYNC_CLIENT ++ [0] ++ packUInt32 receiver ++ packUInt32 sender ++ d)).
  rewrite readUInt16_app by done. unfold kadObfuscationKey, kadIdToObfuscationKeyBytes. monad.
  rewrite !hash_valid by done. exact H2.
Qed.

Lemma forReceiver_ok d part receiver sender old :
  d <> [] -> 0 <= part < 2 ^ 16 -> 0 <= receiver < 2 ^ 32 -> 0 <= sender < 2 ^ 32 ->
  let p := createForReceiver md5Digest d receiver sender part in
  parseForReceiver md5Digest old p receiver = Ok (true, mkObfuscated d receiver sender) /\
  (forall target, parseKadObfuscatedDatagram md5Digest old p target = Ok (false, old)).
Proof.
  intros Hd Hp Hr Hs p. unfold p, createForReceiver. set (key := kadVerifyKeyObfuscationKey _ _ _).
  destruct (withKey_ok d key part true receiver sender old Hd Hr Hs) as [H1 H2].
  unfold parseKadObfuscatedDatagram, parseForReceiver. rewrite H1. monad. split.
  - change (at_ (createWithKey d key part true receiver sender) 0) with (Ok 10 : result Z). cbv beta iota.
    change (negb true) with false. change (negb (Z.land 10 3 =? 2)) with false. cbv iota.
    unfold createWithKey at 1. change (drop 1 _) with (packUInt16 part ++ encrypt (init key) (packUInt32 KAD_UDP_SYNC_CLIENT ++ [0] ++ packUInt32 receiver ++ packUInt32 sender ++ d)).
    rewrite readUInt16_app by done. exact H2.
  - intros target. by destruct (negb true || _).
Qed.

(** A key that is asked for is never zero, which stands for no key. *)
Lemma verifyKey_range baseKey ip :
  (forall data, len (md5Digest data) = 16) -> baseKey <> 0 -> 0 <= ip < 2 ^ 32 ->
  exists k, createKadUdpVerifyKey md5Digest baseKey (ipv4FromEndpoint ip) = Ok k /\ 1 <= k <= 0xfffffffe.
Proof.
  intros Hm Hb Hip. unfold createKadUdpVerifyKey. destruct (Z.eqb_spec baseKey 0); [done|].
  rewrite bool_decide_eq_false_2.
  2: { unfold ipv4FromEndpoint. intros E. apply app_nil in E as [E _]. revert E. apply dec_nonempty. apply Z.land_nonneg. lia. }
  monad. cbn [orb]. rewrite ipv4_roundtrip by done. set (digest := md5Digest _). specialize (Hm (pack 8 (Z.lor (u64 (Z.shiftl baseKey 32)) ip))). fold digest in Hm.
  assert (forall n, (n <= 12)%nat -> exists v, readUInt32 (drop n digest) = Ok v) as Hd.
  { intros k Hk. apply u32_ok. unfold len in *. rewrite length_drop. lia. }
  destruct (Hd 0%nat) as [a Ea]; [lia|]. rewrite drop_0 in Ea. destruct (Hd 4%nat) as [b Eb]; [lia|].
  destruct (Hd 8%nat) as [c Ec]; [lia|]. destruct (Hd 12%nat) as [e Ee]; [lia|]. rewrite Ea, Eb, Ec, Ee.
  eexists. split; [reflexivity|]. pose proof (Z.mod_pos_bound (Z.lxor (Z.lxor (Z.lxor a b) c) e) 0xfffffffe ltac:(lia)).
  rewrite u32_small by lia. lia.
Qed.
End obfuscation_ok.

(** *** The saved routing table *)

Lemma appendEach_reads {A B} (r : reader B) append (f : A -> B) l :
  (forall x, x ∈ l -> exists b, (forall payload, append payload x = Ok (payload ++ b)) /\ reads r b (f x)) ->
  exists b, (forall payload, appendEach append l payload = Ok (payload ++ b)) /\
    reads (readMany (length l) r) b (f <$> l).
Proof.
  induction l as [|x l IH]; intros Hl.
  - exists []. split; [intros payload; by rewrite app_nil_r|apply reads_ret].
  - destruct (Hl x) as (b & Hb & Hr); [left|]. destruct IH as (c & Hc & Hrs); [intros y Hy; apply Hl; by right|].
    exists (b ++ c). split.
    + intros payload. cbn [appendEach]. monad. by rewrite Hb, Hc, <- app_assoc.
    + simpl. eapply reads_bind; [done|]. eapply reads_last; [done|]. apply reads_ret.
Qed.
(** A list behind its number. *)
Lemma counted_reads {A B} (r : reader B) append (f : A -> B) l :
  len l < 2 ^ 16 ->
  (forall x, x ∈ l -> exists b, (forall payload, append payload x = Ok (payload ++ b)) /\ reads r b (f x)) ->
  exists b, (forall payload, appendEach append l (payload ++ packUInt16 (len l)) = Ok (payload ++ b)) /\
    reads (count ← readU16; readMany (Z.to_nat count) r) b (f <$> l).
Proof.
  intros Hn Hl. destruct (appendEach_reads r append f l Hl) as (b & Hb & Hr). pose proof (len_nonneg l).
  exists (packUInt16 (len l) ++ b). split; [intros payload; by rewrite Hb, <- app_assoc|].
  eapply reads_bind; [apply reads_u16; lia|]. cbv beta. by replace (Z.to_nat (len l)) with (length l) by (unfold len; lia).
Qed.

Lemma kad_appendString_ok payload s :
  len s < 2 ^ 16 -> appendString payload s = Ok (payload ++ ServerProtocol.packString s).
Proof. intros Hs. unfold appendString. by destruct (Z.ltb_spec 65535 (len s)); [lia|]. Qed.

#[local] Hint Resolve ServerProtocol.reads_string ServerProtocol.reads_int64 ServerProtocol.reads_flag reads_hash : wire.
Ltac read_fields :=
  repeat (eapply reads_bind; [solve [eauto with wire nocore]|]; cbv beta);
  eapply reads_last; [solve [eauto with wire nocore]|]; apply reads_ret.

Definition node_ok (n : KadRoutingNode) : Prop :=
  let c := contact n in
  len (contactId c) = HASH_LENGTH /\ len (contactHost c) < 2 ^ 16 /\ 0 <= contactUdpPort c < 2 ^ 16 /\
  0 <= contactTcpPort c < 2 ^ 16 /\ 0 <= contactVersion c < 256 /\ 0 <= failCount n < 2 ^ 32 /\
  - 2 ^ 63 <= firstSeen n < 2 ^ 63 /\ - 2 ^ 63 <= lastSeen n < 2 ^ 63.
(** The key of a node is not saved. *)
Definition savedNode (n : KadRoutingNode) : KadRoutingNode :=
  let c := contact n in
  mkNode (mkContact (contactId c) (contactHost c) (contactUdpPort c) (contactTcpPort c) (contactVersion c) 0)
    (confirmed n) (seed n) (failCount n) (firstSeen n) (lastSeen n).
Definition savedBucket (b : KadRoutingBucketSnapshot) : KadRoutingBucketSnapshot :=
  mkBucket (savedNode <$> live b) (savedNode <$> replacements b) (lastActive b).

Lemma node_written n :
  node_ok n -> exists b, (forall payload, appendKadRoutingNode payload n = Ok (payload ++ b)) /\
    reads readKadRoutingNode b (savedNode n).
Proof.
  intros (H1 & H2 & H3 & H4 & H5 & H6 & H7 & H8). eexists. split.
  - intros payload. unfold appendKadRoutingNode, appendByte, appendInt64. monad. rewrite hash_valid, kad_appendString_ok by done.
    rewrite <- !app_assoc, (u8_small (contactVersion _)) by done. reflexivity.
  - unfold readKadRoutingNode. read_fields.
Qed.
Lemma nodes_written alloc l :
  Forall node_ok l -> len l < 2 ^ 32 -> alloc (len l) = true ->
  exists b, (forall payload, appendKadRoutingNodes payload l = Ok (payload ++ b)) /\
    reads (readKadRoutingNodes alloc) b (savedNode <$> l).
Proof.
  intros Hall Hn Hm. pose proof (len_nonneg l). rewrite Forall_forall in Hall.
  destruct (appendEach_reads readKadRoutingNode appendKadRoutingNode savedNode l) as (b & Hb & Hr).
  { intros n Hin. apply node_written. by apply Hall. }
  exists (packUInt32 (len l) ++ b). unfold appendKadRoutingNodes. split.
  - intros payload. destruct (Z.ltb_spec (2 ^ 32 - 1) (len l)); [lia|]. rewrite u32_small by lia.
    by rewrite Hb, <- app_assoc.
  - unfold readKadRoutingNodes. eapply reads_bind; [apply reads_u32; lia|]. cbv beta.
    apply (reads_first _ _ _ tt); [by apply reads_reserve|].
    by replace (Z.to_nat (len l)) with (length l) by (unfold len; lia).
Qed.

Definition bucket_ok (b : KadRoutingBucketSnapshot) : Prop :=
  Forall node_ok (live b) /\ len (live b) < 2 ^ 32 /\ Forall node_ok (replacements b) /\
  len (replacements b) < 2 ^ 32 /\ - 2 ^ 63 <= lastActive b < 2 ^ 63.

(** There is memory for the nodes of the bucket. *)
Definition hasRoom (alloc : Z -> bool) (b : KadRoutingBucketSnapshot) : Prop :=
  alloc (len (live b)) = true /\ alloc (len (replacements b)) = true.

Lemma bucket_written alloc b :
  bucket_ok b -> hasRoom alloc b -> exists c, (forall payload, appendBucket payload b = Ok (payload ++ c)) /\
    reads (readBucket alloc) c (savedBucket b).
Proof.
  intros (H1 & H2 & H3 & H4 & H5) [A1 A2]. destruct (nodes_written alloc _ H1 H2 A1) as (c1 & W1 & R1).
  destruct (nodes_written alloc _ H3 H4 A2) as (c2 & W2 & R2). exists (packUInt64 (u64 (lastActive b)) ++ c1 ++ c2). split.
  - intros payload. unfold appendBucket, appendInt64. monad. rewrite W1, W2. by rewrite <- !app_assoc.
  - unfold readBucket. eapply reads_bind; [by apply ServerProtocol.reads_int64|]. eapply reads_bind; [exact R1|].
    eapply reads_last; [exact R2|]. apply reads_ret.
Qed.

Definition routerContact_ok (c : KadContact) : Prop :=
  len (contactId c) = HASH_LENGTH /\ len (contactHost c) < 2 ^ 16 /\ 0 <= contactUdpPort c < 2 ^ 16 /\
  0 <= contactTcpPort c < 2 ^ 16 /\ 0 <= contactVersion c < 256 /\ 0 <= contactUdpKey c < 2 ^ 32.

Lemma routerContact_written c :
  routerContact_ok c -> exists b, (forall payload, appendKadContact payload c = Ok (payload ++ b)) /\
    reads (readRouterContact KAD_ROUTING_STATE_VERSION) b c.
Proof.
  destruct c as [i h u t v k]. intros (H1 & H2 & H3 & H4 & H5 & H6). simpl in *. eexists. split.
  - intros payload. unfold appendKadContact, appendByte. monad.
    cbn [contactId contactHost contactUdpPort contactTcpPort contactVersion contactUdpKey].
    rewrite hash_valid, kad_appendString_ok by done. rewrite <- !app_assoc, (u8_small v) by done. reflexivity.
  - unfold readRouterContact. change (5 <=? KAD_ROUTING_STATE_VERSION) with true. cbv iota. read_fields.
Qed.
Lemma routerNode_written e :
  len (host e) < 2 ^ 16 /\ 0 <= port e < 2 ^ 16 ->
  exists b, (forall payload, appendEndpoint payload e = Ok (payload ++ b)) /\
    reads readStateEndpoint b (mkEndpoint (host e) (port e) 0 []).
Proof.
  intros [H1 H2]. eexists. split.
  - intros payload. unfold appendEndpoint. monad. rewrite kad_appendString_ok, <- app_assoc by done. reflexivity.
  - unfold readStateEndpoint. read_fields.
Qed.

Definition snapshot_ok (s : KadRoutingSnapshot) : Prop :=
  len (selfId s) = HASH_LENGTH /\
  Forall (fun v => - 2 ^ 63 <= v < 2 ^ 63) [lastBootstrap s; lastRefresh s; lastSelfRefresh s;
    lastFirewalledCheck s; lastSourcePublish s; lastSourceSearch s] /\
  Forall (fun v => 0 <= v < 2 ^ 32) [sourceSearchCount s; udpVerifyKey s] /\
  (len (buckets s) < 2 ^ 16 /\ Forall bucket_ok (buckets s)) /\
  (len (routerNodes s) < 2 ^ 16 /\ Forall (fun e => len (host e) < 2 ^ 16 /\ 0 <= port e < 2 ^ 16) (routerNodes s)) /\
  (len (routerContacts s) < 2 ^ 16 /\ Forall routerContact_ok (routerContacts s)) /\
  (len (observedAddresses s) < 2 ^ 16 /\ Forall (fun a => len a < 2 ^ 16) (observedAddresses s)).

Definition savedSnapshot (s : KadRoutingSnapshot) : KadRoutingSnapshot :=
  mkSnapshot (selfId s) (savedBucket <$> buckets s) ((fun e => mkEndpoint (host e) (port e) 0 []) <$> routerNodes s)
    (routerContacts s) (lastBootstrap s) (lastRefresh s) (lastSelfRefresh s) (lastFirewalledCheck s)
    (lastSourcePublish s) (lastSourceSearch s) (sourceSearchCount s) (udpVerifyKey s) (observedAddresses s)
    (firewalled s).

(** The readers of the lists, with their numbers. *)
Lemma reads_counted {A B} (r : reader A) (k : list A -> reader B) b c l v :
  reads (count ← readU16; readMany (Z.to_nat count) r) b l -> reads (k l) c v ->
  reads (count ← readU16; l ← readMany (Z.to_nat count) r; k l) (b ++ c) v.
Proof.
  intros Hl Hk data offset rest Ha. pose proof (reads_bind _ k b c l v Hl Hk data offset rest Ha) as H.
  revert H. unfold mbind, reader_bind. destruct (readU16 data offset) as [[n o]|]; done.
Qed.

Lemma snapshot_written alloc s :
  snapshot_ok s -> Forall (hasRoom alloc) (buckets s) -> exists b, createKadRoutingStatePayload s =
    Ok (KAD_ROUTING_STATE_MAGIC ++ packUInt32 KAD_ROUTING_STATE_VERSION ++ b) /\
    reads (readRoutingState alloc KAD_ROUTING_STATE_VERSION) b (savedSnapshot s).
Proof.
  intros (Hid & H64 & H32 & [Hb Hball] & [Hn Hnall] & [Hc Hcall] & [Ho Hoall]) Hroom. ServerProtocol.forall_split.
  destruct (counted_reads (readBucket alloc) appendBucket savedBucket (buckets s) Hb) as (b1 & W1 & R1).
  { rewrite Forall_forall in Hball. rewrite Forall_forall in Hroom. intros x Hx. apply bucket_written; auto. }
  destruct (counted_reads readStateEndpoint appendEndpoint (fun e => mkEndpoint (host e) (port e) 0 []) (routerNodes s) Hn) as (b2 & W2 & R2).
  { rewrite Forall_forall in Hnall. intros x Hx. apply routerNode_written. by apply Hnall. }
  destruct (counted_reads (readRouterContact KAD_ROUTING_STATE_VERSION) appendKadContact (fun c => c) (routerContacts s) Hc) as (b3 & W3 & R3).
  { rewrite Forall_forall in Hcall. intros x Hx. apply routerContact_written. by apply Hcall. }
  destruct (counted_reads readString appendString (fun a => a) (observedAddresses s) Ho) as (b4 & W4 & R4).
  { rewrite Forall_forall in Hoall. intros x Hx. exists (ServerProtocol.packString x). split.
    - intros payload. by apply kad_appendString_ok, Hoall.
    - by apply ServerProtocol.reads_string, Hoall. }
  rewrite list_fmap_id in R3. rewrite list_fmap_id in R4. unfold createKadRoutingStatePayload, appendByte, appendInt64. monad. rewrite hash_valid by done.
  destruct (Z.ltb_spec 65535 (len (buckets s))); [lia|]. destruct (Z.ltb_spec 65535 (len (routerNodes s))); [lia|].
  destruct (Z.ltb_spec 65535 (len (routerContacts s))); [lia|]. destruct (Z.ltb_spec 65535 (len (observedAddresses s))); [lia|].
  cbn [orb]. rewrite W4, W2, W3, W1. rewrite <- !app_assoc. eexists. split; [reflexivity|].
  unfold readRoutingState. change (2 <=? KAD_ROUTING_STATE_VERSION) with true.
  change (3 <=? KAD_ROUTING_STATE_VERSION) with true. change (4 <=? KAD_ROUTING_STATE_VERSION) with true.
  change (6 <=? KAD_ROUTING_STATE_VERSION) with true. cbv iota.
  do 10 (eapply reads_bind; [solve [eauto with wire nocore]|]; cbv beta).
  eapply reads_counted; [exact R4|]. eapply reads_counted; [exact R2|]. eapply reads_counted; [exact R3|].
  rewrite <- (app_nil_r b1). eapply reads_counted; [exact R1|]. apply reads_ret.
Qed.

Lemma snapshot_read alloc s old :
  snapshot_ok s -> Forall (hasRoom alloc) (buckets s) -> exists p, createKadRoutingStatePayload s = Ok p /\
    parseKadRoutingStatePayload alloc old p = Ok (true, savedSnapshot s).
Proof.
  intros Hs Hroom. destruct (snapshot_written alloc s Hs Hroom) as (b & Hb & Hr). eexists. split; [exact Hb|].
  unfold parseKadRoutingStatePayload.
  enough (parse (readRoutingStatePayload alloc old) (KAD_ROUTING_STATE_MAGIC ++ packUInt32 KAD_ROUTING_STATE_VERSION ++ b) =
    Ok (true, savedSnapshot s)) as -> by done.
  apply ends_parse. unfold readRoutingStatePayload. eapply ends_bind; [by apply reads_bytes|]. cbv beta.
  rewrite bool_decide_eq_false_2 by (by intros []). eapply ends_bind; [by apply reads_u32|].
  change (negb (_ =? 1) && _) with false. cbv iota. eapply ends_last; [exact Hr|].
  apply ends_tell, ends_size. rewrite !len_app.
  match goal with |- context [?x =? ?y] => destruct (Z.eqb_spec x y); [|lia] end. apply ends_ret.
Qed.

(** *** Staying inside the data *)

Lemma fits_contact : fits 25 readKadContact.
Proof.
  change 25 with (16 + (4 + (2 + (2 + (1 + 0))))). unfold readKadContact.
  apply fits_bind; [lia|lia|by apply fits_bytes|]. intros i. apply fits_bind; [lia|lia|apply fits_u32|]. intros ip.
  apply fits_bind; [lia|lia|apply fits_u16|]. intros u. apply fits_bind; [lia|lia|apply fits_u16|]. intros t.
  apply fits_bind; [lia|lia|apply fits_byte|]. intros v. apply fits_ret.
Qed.
Lemma fits_node (b : bool) : fits (if b then 25 + 9 else 25) (readNode b).
Proof.
  unfold readNode. destruct b.
  - change (25 + 9) with (25 + ((8 + (1 + 0)) + 0)). apply fits_bind; [lia|lia|apply fits_contact|]. intros c.
    apply fits_bind; [lia|lia| |intros v; apply fits_ret].
    apply fits_bind; [lia|lia|by apply fits_bytes|]. intros r. apply fits_bind; [lia|lia|apply fits_byte|].
    intros v. apply fits_ret.
  - change 25 with (25 + (0 + 0)). apply fits_bind; [lia|lia|apply fits_contact|]. intros c.
    apply fits_bind; [lia|lia|apply fits_ret|]. intros v. apply fits_ret.
Qed.

Lemma contacts_returns version edition count data offset :
  0 <= count -> within data offset -> exists v o, readContacts version edition count data offset = Ok (v, o).
Proof.
  intros Hc Hw. unfold readContacts, tell, size. monad.
  set (has := (2 <=? version) && (edition =? 0)). pose proof (fits_node has) as Hf.
  set (k := if has then 25 + 9 else 25) in *. assert (0 <= k) as Hk by (unfold k; destruct has; lia).
  destruct (Z.ltb_spec (len data - offset) (count * k)); [by do 2 eexists|].
  destruct (fits_many k (Z.to_nat count) _ Hk Hf data offset Hw) as [l El]; [rewrite Z2Nat.id; lia|].
  rewrite El. by do 2 eexists.
Qed.

Lemma u32_nonneg data offset v o : readU32 data offset = Ok (v, o) -> 0 <= v.
Proof.
  unfold readU32, lift, readUInt32. monad. destruct (readBytes 4 data offset) as [[b o']|]; [|done].
  destruct (at_ b 0), (at_ b 1), (at_ b 2), (at_ b 3); try done. intros [= <- _].
  rewrite !Z.lor_nonneg. split_and!; by apply Z.mod_pos_bound.
Qed.
Lemma readU32_at data offset :
  within data offset -> 4 <= len data - offset ->
  exists v, readU32 data offset = Ok (v, offset + 4) /\ 0 <= v /\ within data (offset + 4).
Proof.
  intros [H0 H1] Hl. destruct (fits_u32 data offset) as [v Ev]; [done|lia|]. exists v.
  split; [done|]. split; [by eapply u32_nonneg|]. unfold within. lia.
Qed.

(** The [catch] block of [parseNodesDat] is never reached. *)
Lemma nodesDat_returns data : 4 <= len data -> exists r, parse readNodesDat data = Ok r.
Proof.
  intros Hl. enough (exists v o, readNodesDat data 0 = Ok (v, o)) as (v & o & E) by (exists v; unfold parse; by rewrite E).
  unfold readNodesDat, tell, size. monad.
  destruct (readU32_at data 0) as (c & -> & Hc & Hw); [split; [done|apply len_nonneg]|lia|].
  destruct (negb (c =? 0)); [by apply contacts_returns|].
  destruct (Z.ltb_spec (len data - (0 + 4)) 4); [by do 2 eexists|].
  destruct (readU32_at data (0 + 4)) as (v & -> & Hv & Hw2); [done|lia|].
  destruct ((1 <=? v) && (v <=? 3)); [|by apply contacts_returns].
  destruct (3 <=? v); cbn [andb]; cbv beta iota.
  - destruct (Z.ltb_spec (len data - (0 + 4 + 4)) 4); [by do 2 eexists|].
    destruct (readU32_at data (0 + 4 + 4)) as (e & -> & He & Hw3); [done|lia|].
    destruct (Z.ltb_spec (len data - (0 + 4 + 4 + 4)) 4); [by do 2 eexists|].
    destruct (readU32_at data (0 + 4 + 4 + 4)) as (n & -> & Hn & Hw4); [done|lia|]. by apply contacts_returns.
  - destruct (Z.ltb_spec (len data - (0 + 4 + 4)) 4); [by do 2 eexists|].
    destruct (readU32_at data (0 + 4 + 4)) as (n & -> & Hn & Hw4); [done|lia|]. by apply contacts_returns.
Qed.

Lemma safe_contact : safe readKadContact.
Proof. unfold readKadContact. solve_safe. Qed.
#[local] Hint Resolve safe_contact ServerProtocol.safe_string ServerProtocol.safe_int64 ServerProtocol.safe_flag : wire.
Lemma safe_routingNode : safe readKadRoutingNode.
Proof. unfold readKadRoutingNode. solve_safe. Qed.
#[local] Hint Resolve safe_routingNode : wire.
Lemma safe_kadStateEndpoint : safe readStateEndpoint.
Proof. unfold readStateEndpoint. solve_safe. Qed.
Lemma safe_routerContact version : safe (readRouterContact version).
Proof. unfold readRouterContact. solve_safe. Qed.
(** With memory for any number of nodes. *)
Lemma safe_plenty n : safe (reserve (fun _ => true) n).
Proof. intros data offset Hw. simpl. split; [lia|done]. Qed.
#[local] Hint Resolve safe_plenty : wire.
Lemma safe_bucket : safe (readBucket (fun _ => true)).
Proof. unfold readBucket, readKadRoutingNodes. solve_safe. Qed.
#[local] Hint Resolve safe_kadStateEndpoint safe_routerContact safe_bucket : wire.
Lemma safe_routingState version : safe (readRoutingState (fun _ => true) version).
Proof. unfold readRoutingState. solve_safe. Qed.
#[local] Hint Resolve safe_routingState : wire.

#[local] Hint Resolve allocates_refl allocates_reserve allocates_many allocates_if : wire.
Lemma allocates_nodes alloc : allocates alloc (readKadRoutingNodes alloc) (readKadRoutingNodes (fun _ => true)).
Proof.
  apply allocates_bind; [auto with wire|]. intros n. apply allocates_bind; [|auto with wire].
  apply allocates_reserve.
Qed.
Lemma allocates_state alloc version :
  allocates alloc (readRoutingState alloc version) (readRoutingState (fun _ => true) version).
Proof.
  unfold readRoutingState. do 17 (apply allocates_bind; [apply allocates_refl|intros ?]).
  apply allocates_bind; [|auto with wire]. apply allocates_many. unfold readBucket.
  apply allocates_bind; [apply allocates_refl|]. intros ?.
  do 2 (apply allocates_bind; [apply allocates_nodes|intros ?]). apply allocates_refl.
Qed.
Lemma allocates_statePayload alloc old :
  allocates alloc (readRoutingStatePayload alloc old) (readRoutingStatePayload (fun _ => true) old).
Proof.
  unfold readRoutingStatePayload. apply allocates_bind; [apply allocates_refl|]. intros magic.
  apply allocates_if; [apply allocates_refl|]. apply allocates_bind; [apply allocates_refl|]. intros version.
  apply allocates_if; [apply allocates_refl|]. apply allocates_bind; [apply allocates_state|]. intros parsed.
  apply allocates_refl.
Qed.

Lemma bootstrap_returns old payload : exists r, parseKadBootstrapResponsePayload old payload = Ok r.
Proof.
  unfold parseKadBootstrapResponsePayload. destruct (Z.ltb_spec (len payload) (HASH_LENGTH + 5)); [by eexists|].
  unfold HASH_LENGTH in *. unfold parse, tell, size. monad.
  assert (within payload 0) as Hw by (split; [done|apply len_nonneg]).
  destruct (fits_bytes 16 ltac:(lia) payload 0 Hw) as [i ->]; [lia|].
  assert (within payload (0 + 16)) as Hw1 by (unfold within; lia).
  destruct (fits_u16 payload _ Hw1) as [t ->]; [lia|]. assert (within payload (0 + 16 + 2)) as Hw2 by (unfold within; lia).
  destruct (fits_byte payload _ Hw2) as [v ->]; [lia|]. assert (within payload (0 + 16 + 2 + 1)) as Hw3 by (unfold within; lia).
  destruct (fits_u16 payload _ Hw3) as [c ->]; [lia|].
  assert (within payload (0 + 16 + 2 + 1 + 2)) as Hw4 by (unfold within; lia).
  match goal with |- context [?x =? ?y] => destruct (Z.eqb_spec x y); [|by eexists] end. cbn [negb].
  destruct (fits_many 25 (Z.to_nat c) _ ltac:(lia) fits_contact payload _ Hw4) as [l ->]; [lia|]. by eexists.
Qed.
Lemma response_returns old payload : exists r, parseKadResponsePayload old payload = Ok r.
Proof.
  unfold parseKadResponsePayload. destruct (Z.ltb_spec (len payload) (HASH_LENGTH + 1)); [by eexists|].
  unfold HASH_LENGTH in *. unfold parse, tell, size. monad.
  assert (within payload 0) as Hw by (split; [done|apply len_nonneg]).
  destruct (fits_bytes 16 ltac:(lia) payload 0 Hw) as [i ->]; [lia|].
  assert (within payload (0 + 16)) as Hw1 by (unfold within; lia).
  destruct (fits_byte payload _ Hw1) as [c ->]; [lia|]. assert (within payload (0 + 16 + 1)) as Hw2 by (unfold within; lia).
  match goal with |- context [?x =? ?y] => destruct (Z.eqb_spec x y); [|by eexists] end. cbn [negb].
  destruct (fits_many 25 (Z.to_nat c) _ ltac:(lia) fits_contact payload _ Hw2) as [l ->]; [lia|]. by eexists.
Qed.

(** A parser that checks the size of the message first. *)
Ltac fits_fields :=
  repeat first
    [ apply fits_ret
    | apply fits_bind; [lia|lia|first [apply fits_byte|apply fits_u16|apply fits_u32|by apply fits_bytes]|intros ?] ].
Ltac fixed_returns k :=
  match goal with |- exists r, ?f ?old ?p = Ok r => unfold f end;
  match goal with |- context [?x =? ?y] => destruct (Z.eqb_spec x y); [|by eexists] end; cbn [negb];
  apply (fits_parse k); [|unfold HASH_LENGTH in *; lia]; fits_fields.

(** ** Properties *)

(** What a Kad node sends is what the other node reads: the hello with its
    flags, the answers to a bootstrap and to a lookup with their contacts, the
    requests, callbacks and firewall messages, and the address a firewall
    answer tells; turning a hash into a Kad id and back gives the hash. *)
Lemma kad_messages_roundtrip a b tcpPort version ip ack tcp udp l :
  len a = HASH_LENGTH -> len b = HASH_LENGTH -> 0 <= tcpPort < 2 ^ 16 -> 0 <= version < 256 ->
  0 <= ip < 2 ^ 32 -> len l < 256 -> Forall contact_ok l ->
  (exists p, createKadHelloPayload a tcpPort version ack tcp udp = Ok p /\
     exists tags, parseKadHelloPayload (mkHello [] 0 0 [] false false false) p =
       Ok (true, mkHello a tcpPort version tags ack tcp udp)) /\
  (forall old, exists p, createKadBootstrapResponsePayload a tcpPort version l = Ok p /\
     parseKadBootstrapResponsePayload old p = Ok (true, mkBootstrapResponse a tcpPort version l)) /\
  (forall old, exists p, createKadResponsePayload a l = Ok p /\
     parseKadResponsePayload old p = Ok (true, mkResponse a l)) /\
  (exists p, createKadRequestPayload version a b = Ok p /\
     forall old, parseKadRequestPayload old p = Ok (true, mkKadRequest version a b)) /\
  (exists p, createKadCallbackRequestPayload a b tcpPort = Ok p /\
     forall old, parseKadCallbackRequestPayload old p = Ok (true, mkCallback a b tcpPort)) /\
  (exists p, createDirectCallbackRequestPayload tcpPort a version = Ok p /\
     forall old, parseDirectCallbackRequestPayload old p = Ok (true, mkDirect tcpPort a version)) /\
  (exists p, createKadFirewalledResponsePayload (ipv4FromKadContactValue ip) = Ok p /\
     forall old, parseKadFirewalledResponsePayload old p = Ok (true, ipv4FromKadContactValue ip)) /\
  (exists id, ed2kHashToKadId a = Ok id /\ kadIdToEd2kHash id = Ok a).
Proof.
  intros Ha Hb Hp Hv Hip Hl Hall. destruct (kadFixed_ok a b tcpPort version Ha Hb Hp Hv) as (H1 & _ & _ & _ & H2 & H3).
  split_and!; [by apply kadHello_ok| | |exact H1|exact H2|exact H3| |by apply kadId_roundtrip].
  - intros old. apply kadBootstrap_ok; (done || lia).
  - intros old. by apply kadResponse_ok.
  - unfold createKadFirewalledResponsePayload, parseKadFirewalledResponsePayload. monad.
    rewrite kadAddress_roundtrip by done. eexists. split; [reflexivity|]. intros old.
    change (len (packUInt32 ip)) with 4. change (negb (4 =? 4)) with false. cbv iota. unfold packUInt32.
    by rewrite u32_small, readUInt32_pack by lia.
Qed.

(** A hidden datagram is the datagram for the node it was made for. One
    made with the id of a node is read with that id, with the keys it
    carries, and is never taken for one made with a key, and the other way
    round; this holds for whatever OpenSSL's digest is. The array of the
    cipher always is a permutation of the bytes, so the cipher writes bytes
    and never indexes outside the array. *)
Lemma kad_obfuscation_roundtrip md5Digest d target part receiver sender old key data :
  d <> [] -> len target = HASH_LENGTH -> 0 <= part < 2 ^ 16 -> 0 <= receiver < 2 ^ 32 -> 0 <= sender < 2 ^ 32 ->
  bytes_ok data ->
  (exists p, createKadObfuscatedDatagram md5Digest d target part receiver sender = Ok p /\
     parseKadObfuscatedDatagram md5Digest old p target = Ok (true, mkObfuscated d receiver sender) /\
     (forall k, parseForReceiver md5Digest old p k = Ok (false, old))) /\
  (let p := createForReceiver md5Digest d receiver sender part in
   parseForReceiver md5Digest old p receiver = Ok (true, mkObfuscated d receiver sender) /\
   (forall t, parseKadObfuscatedDatagram md5Digest old p t = Ok (false, old))) /\
  (rc4_ok (state_ (init key)) /\ bytes_ok (rc4Crypt data key) /\ rc4Crypt (rc4Crypt data key) key = data).
Proof.
  intros Hd Ht Hp Hr Hs Hb. split; [by apply obfuscated_ok|]. split; [by apply forReceiver_ok|].
  split; [apply init_ok|]. split; [apply encrypt_bytes; [done|apply init_ok]|apply encrypt_twice].
Qed.

(** The routing table that is saved is the one that is loaded, but for the
    UDP keys of the nodes in the buckets and the options of router endpoints,
    which the file has no room for. Whatever the file holds, loading throws
    nothing but [std::bad_alloc], when the number of nodes of a bucket is
    reserved before it is checked and the allocator refuses it: the [catch]
    does not take that. *)
Lemma kad_routing_state_roundtrip alloc s old data :
  snapshot_ok s -> Forall (hasRoom alloc) (buckets s) ->
  (exists p, createKadRoutingStatePayload s = Ok p /\ parseKadRoutingStatePayload alloc old p = Ok (true, savedSnapshot s)) /\
  ((exists r, parseKadRoutingStatePayload alloc old data = Ok r) \/
   (parseKadRoutingStatePayload alloc old data = Err BadAlloc /\ exists n, alloc n = false)).
Proof.
  intros Hs Hroom. split; [by apply snapshot_read|]. unfold parseKadRoutingStatePayload.
  assert (safe (readRoutingStatePayload (fun _ => true) old)) as Hr by (unfold readRoutingStatePayload; solve_safe).
  destruct (allocates_parse alloc _ _ data (allocates_statePayload alloc old)) as [->|[-> ?]]; [|by right]. left.
  pose proof (safe_parse _ data Hr) as Hd. destruct (parse (readRoutingStatePayload _ old) data) as [r|e]; [by eexists|].
  destruct Hd as [m ->]. by eexists.
Qed.

(** C30. Whatever a Kad datagram or a file of nodes holds, the parsers return:
    only the one that reads tags can throw, and it throws a [ProtocolError].
    The check of the size before the contacts makes the [catch] of
    [parseNodesDat] unreachable, and a verify key is never the zero that
    stands for no key. *)
Theorem kad_parsers_safe md5Digest payload target key hello bootstrap request response publish fw fwUdp
    callback direct buddy nodes address ip :
  (forall data, len (md5Digest data) = 16) -> key <> 0 -> 0 <= ip < 2 ^ 32 ->
  sane (parseKadHelloPayload hello payload) /\
  (exists r, parseKadHelloAckPayload target payload = Ok r) /\
  (exists r, parseKadBootstrapResponsePayload bootstrap payload = Ok r) /\
  (exists r, parseKadRequestPayload request payload = Ok r) /\
  (exists r, parseKadResponsePayload response payload = Ok r) /\
  (exists r, parseKadPublishResultPayload publish payload = Ok r) /\
  (exists r, parseKadFirewalledRequestPayload fw payload = Ok r) /\
  (exists r, parseKadFirewalledResponsePayload address payload = Ok r) /\
  (exists r, parseKadFirewalledUdpPayload fwUdp payload = Ok r) /\
  (exists r, parseKadCallbackRequestPayload callback payload = Ok r) /\
  (exists r, parseDirectCallbackRequestPayload direct payload = Ok r) /\
  (exists r, parseBuddyCallbackPayload buddy payload = Ok r) /\
  (exists r, parseNodesDat nodes payload = Ok r) /\
  (exists k, createKadUdpVerifyKey md5Digest key (ipv4FromEndpoint ip) = Ok k /\ 1 <= k <= 0xfffffffe).
Proof.
  intros Hm Hk Hip. pose proof (len_nonneg payload) as H0. split_and!.
  - unfold parseKadHelloPayload. solve_sane.
  - unfold parseKadHelloAckPayload. destruct (Z.ltb_spec (len payload) (HASH_LENGTH + 1)); [by eexists|].
    destruct (at_inside payload HASH_LENGTH) as [b ->]; [unfold HASH_LENGTH in *; lia|]. monad.
    destruct (negb _); by eexists.
  - by apply bootstrap_returns.
  - fixed_returns (1 + (16 + (16 + 0))).
  - by apply response_returns.
  - fixed_returns (16 + (1 + 0)).
  - fixed_returns (2 + (16 + (1 + 0))).
  - unfold parseKadFirewalledResponsePayload. destruct (Z.eqb_spec (len payload) 4); [|by eexists]. monad.
    destruct (u32_ok payload) as [v ->]; [lia|]. by eexists.
  - fixed_returns (1 + (2 + 0)).
  - fixed_returns (16 + (16 + (2 + 0))).
  - fixed_returns (2 + (16 + (1 + 0))).
  - fixed_returns (16 + (16 + (4 + (2 + 0)))).
  - unfold parseNodesDat. destruct (Z.ltb_spec (len payload) 4); [by eexists|].
    destruct (nodesDat_returns payload) as [r ->]; [lia|]. by eexists.
  - by apply verifyKey_range.
Qed.
End KadProtocol.

Module KadExamples.
Import Bytes Text Wire Packet KadProtocol.

Definition hash : bytes := str "0123456789abcdef".
Definition md5 (data : bytes) : bytes := take 16 (data ++ replicate 16 0).
Definition node : KadContact := mkContact hash (str "10.0.0.1") 4672 4662 8 0.

Lemma node_good : contact_ok node.
Proof. split_and!; try done. exists 0x0a000001. done. Qed.

Lemma kad_messages_roundtrip_witness :
  exists p, createKadHelloPayload hash 4662 8 true false true = Ok p /\
    exists tags, parseKadHelloPayload (mkHello [] 0 0 [] false false false) p =
      Ok (true, mkHello hash 4662 8 tags true false true).
Proof.
  refine (proj1 (kad_messages_roundtrip hash hash 4662 8 0x0a000001 true false true [node; node] eq_refl eq_refl
    _ _ _ eq_refl _)); [lia|lia|lia|].
  apply Forall_cons; split; [apply node_good|]. apply Forall_cons; split; [apply node_good|]. by apply Forall_nil.
Defined.

Lemma kad_obfuscation_roundtrip_witness :
  exists p, createKadObfuscatedDatagram md5 (str "hello") hash 7 1 2 = Ok p /\
    parseKadObfuscatedDatagram md5 (mkObfuscated [] 0 0) p hash = Ok (true, mkObfuscated (str "hello") 1 2) /\
    (forall k, parseForReceiver md5 (mkObfuscated [] 0 0) p k = Ok (false, mkObfuscated [] 0 0)).
Proof.
  refine (proj1 (kad_obfuscation_roundtrip md5 (str "hello") hash 7 1 2 (mkObfuscated [] 0 0) hash (str "data")
    _ eq_refl _ _ _ _)); [done|lia|lia|lia|apply str_ok].
Defined.

Definition snapshot : KadRoutingSnapshot :=
  mkSnapshot hash [mkBucket [mkNode node true false 1 2 3] [] 4] [mkEndpoint (str "router.example") 4672 0 []]
    [node] 1 2 3 4 5 6 7 8 [str "10.0.0.2"] false.

Lemma kad_routing_state_roundtrip_witness :
  exists p, createKadRoutingStatePayload snapshot = Ok p /\
    parseKadRoutingStatePayload (fun n => n <? 2) snapshot p = Ok (true, savedSnapshot snapshot).
Proof.
  refine (proj1 (kad_routing_state_roundtrip (fun n => n <? 2) snapshot snapshot [] _ _)).
  2: { apply Forall_cons; split; [by split|by apply Forall_nil]. }
  assert (node_ok (mkNode node true false 1 2 3)) as Hn by (by split_and!).
  assert (bucket_ok (mkBucket [mkNode node true false 1 2 3] [] 4)) as Hb.
  { split_and!; try done. apply Forall_cons; split; [exact Hn|by apply Forall_nil]. }
  split; [done|]. split_and!; try done; repeat (apply Forall_cons; split; [done|]); by apply Forall_nil.
Defined.

Lemma kad_parsers_safe_witness :
  exists k, createKadUdpVerifyKey md5 5 (ipv4FromEndpoint 0x0100000a) = Ok k /\ 1 <= k <= 0xfffffffe.
Proof.
  refine (proj2 (proj2 (proj2 (proj2 (proj2 (proj2 (proj2 (proj2 (proj2 (proj2 (proj2 (proj2 (proj2
    (kad_parsers_safe md5 [] [] 5 (mkHello [] 0 0 [] false false false) (mkBootstrapResponse [] 0 0 [])
      (mkKadRequest 0 [] []) (mkResponse [] []) (mkPublish [] 0) (mkFirewalledRequest 0 [] 0) (mkFirewalledUdp 0 0)
      (mkCallback [] [] 0) (mkDirect 0 [] 0) (mkBuddy [] [] noEndpoint) (mkNodes 0 0 [] [])
      [] 0x0100000a _ _ _)))))))))))))); [|done|lia].
  intros data. unfold md5, len. rewrite length_take, length_app, length_replicate. lia.
Defined.
End KadExamples.
