(* ===== verification/KadRouting.v ===== *)
(** * The Kad routing table: [src/ed2k/KadRouting.h], [src/ed2k/KadRouting.cc]

    Contacts by XOR distance from our own id. An id is a string of 16 bytes,
    read as four little-endian words, the first of them the most significant;
    bad lengths throw, and an index outside the buckets is an access outside
    the vector, so every operation returns a [result]. The nodes, the snapshot
    and its file are those of [KadProtocol]. Random words are an argument. *)

From Stdlib Require Import String.
From S2P Require Import Prelude Bytes Wire Packet KadProtocol.

Module KadRouting.
Import Bytes Wire Packet KadProtocol.

(** ** Contacts and ids *)

Definition sameContact (lhs rhs : KadContact) : bool :=
  (negb (bool_decide (contactId lhs = [])) && bool_decide (contactId lhs = contactId rhs)) ||
  (bool_decide (contactHost lhs = contactHost rhs) && (contactUdpPort lhs =? contactUdpPort rhs)).

Definition sameEndpoint (lhs rhs : Endpoint) : bool :=
  bool_decide (host lhs = host rhs) && (port lhs =? port rhs).

(** The overload of [sameEndpoint] for contacts. *)
Definition sameContactEndpoint (lhs rhs : KadContact) : bool :=
  bool_decide (contactHost lhs = contactHost rhs) && (contactUdpPort lhs =? contactUdpPort rhs).

Definition validId (id : bytes) : bool := len id =? HASH_LENGTH.

Definition validRoutingContact (c : KadContact) : bool :=
  if negb (validId (contactId c)) || bool_decide (contactHost c = []) ||
     bool_decide (contactHost c = str "0.0.0.0") || (contactUdpPort c =? 0) || (contactVersion c <=? 1)
  then false
  else negb (contactUdpPort c =? 53) || (5 <? contactVersion c).

Definition validateId (id : bytes) : result unit :=
  if validId id then mret tt else Err (ProtocolError "Bad ED2K Kad id length.").

(** [readUInt32(id.data() + i)] *)
Definition wordAt (id : bytes) (i : Z) : result Z := readUInt32 (drop (Z.to_nat i) id).

(** The loop of [distanceCompare] over the word offsets. *)
Fixpoint compareWords (offsets : list Z) (lhs rhs target : bytes) : result Z :=
  match offsets with
  | [] => mret 0
  | i :: offsets =>
      l ← wordAt lhs i; t ← wordAt target i; r ← wordAt rhs i;
      let ld := Z.lxor l t in
      let rd := Z.lxor r t in
      if ld <? rd then mret (-1)
      else if rd <? ld then mret 1
      else compareWords offsets lhs rhs target
  end.

Definition distanceCompare (lhs rhs target : bytes) : result Z :=
  _ ← validateId lhs; _ ← validateId rhs; _ ← validateId target;
  compareWords [0; 4; 8; 12] lhs rhs target.

(** ** Nodes *)

(** [std::find_if] with what is before and behind the element. *)
Fixpoint findSplit {A} (p : A -> bool) (l : list A) : option (list A * A * list A) :=
  match l with
  | [] => None
  | x :: l =>
      if p x then Some ([], x, l)
      else '(before, y, behind) ← findSplit p l; Some (x :: before, y, behind)
  end.

Definition findNode (nodes : list KadRoutingNode) (c : KadContact) :
    option (list KadRoutingNode * KadRoutingNode * list KadRoutingNode) :=
  findSplit (fun node => sameContact (contact node) c) nodes.

Definition withUdpKey (c : KadContact) (key : Z) : KadContact :=
  mkContact (contactId c) (contactHost c) (contactUdpPort c) (contactTcpPort c) (contactVersion c) key.

Definition updateNode (node : KadRoutingNode) (c : KadContact) (confirm : bool) (now : Z) : KadRoutingNode :=
  let c := if contactUdpKey c =? 0 then withUdpKey c (contactUdpKey (contact node)) else c in
  mkNode c (confirmed node || confirm) (seed node) (if confirm then 0 else failCount node)
    (if firstSeen node =? 0 then now else firstSeen node) now.

(** ** The table *)

Definition splitLevels : Z := 4.
Definition farBuckets : Z := Z.shiftl 1 splitLevels - 1.
Definition bucketCount : Z := farBuckets + 128 - splitLevels.

(** A bucket has the fields of its snapshot. *)
Record KadRoutingTable := mkTable {
  ownId : bytes;
  bucketSize : Z;
  tableBuckets : list KadRoutingBucketSnapshot;
  tableRouterNodes : list Endpoint;
  tableRouterContacts : list KadContact;
  tableLastBootstrap : Z;
  tableLastRefresh : Z;
  tableLastSelfRefresh : Z;
}.

Definition emptyBucket : KadRoutingBucketSnapshot := mkBucket [] [] 0.

Definition create (self : bytes) (size : Z) : result KadRoutingTable :=
  _ ← validateId self;
  mret (mkTable self (if size =? 0 then 10 else size)
    (replicate (Z.to_nat bucketCount) emptyBucket) [] [] 0 0 0).

Definition with_buckets (b : list KadRoutingBucketSnapshot) (t : KadRoutingTable) : KadRoutingTable :=
  mkTable (ownId t) (bucketSize t) b (tableRouterNodes t) (tableRouterContacts t)
    (tableLastBootstrap t) (tableLastRefresh t) (tableLastSelfRefresh t).
Definition with_routers (n : list Endpoint) (c : list KadContact) (t : KadRoutingTable) : KadRoutingTable :=
  mkTable (ownId t) (bucketSize t) (tableBuckets t) n c
    (tableLastBootstrap t) (tableLastRefresh t) (tableLastSelfRefresh t).
Definition with_times (b r s : Z) (t : KadRoutingTable) : KadRoutingTable :=
  mkTable (ownId t) (bucketSize t) (tableBuckets t) (tableRouterNodes t) (tableRouterContacts t) b r s.

(** The first [bit] with [x & (0x80000000u >> bit)]. *)
Fixpoint firstBit (x : Z) (bits : list Z) : option Z :=
  match bits with
  | [] => None
  | bit :: bits =>
      if negb (Z.land x (Z.shiftr 0x80000000 bit) =? 0) then Some bit else firstBit x bits
  end.

Fixpoint bucketIndexFrom (self id : bytes) (chunks : list Z) : result Z :=
  match chunks with
  | [] => mret (bucketCount - 1)
  | chunk :: chunks =>
      let offset := chunk * 4 in
      a ← wordAt self offset; b ← wordAt id offset;
      let x := Z.lxor a b in
      if x =? 0 then bucketIndexFrom self id chunks
      else if (chunk =? 0) && negb (Z.shiftr x (32 - splitLevels) =? 0) then
        mret (Z.shiftr x (32 - splitLevels) - 1)
      else match firstBit x (seqZ 0 32) with
           | Some bit => mret (farBuckets + chunk * 32 + bit - splitLevels)
           | None => bucketIndexFrom self id chunks
           end
  end.

Definition bucketIndex (self id : bytes) : result Z :=
  _ ← validateId id; bucketIndexFrom self id [0; 1; 2; 3].

(** [auto& bucket = buckets_[index]]: what [f] makes of it. *)
Definition atBucket (index : Z) (f : KadRoutingBucketSnapshot -> KadRoutingBucketSnapshot)
    (t : KadRoutingTable) : result KadRoutingTable :=
  match tableBuckets t !! Z.to_nat index with
  | Some bucket => mret (with_buckets (<[Z.to_nat index := f bucket]> (tableBuckets t)) t)
  | None => Err OutOfBounds
  end.

(** [addNode], in its bucket. *)
Definition addToBucket (size : Z) (c : KadContact) (confirm : bool) (now : Z)
    (bucket : KadRoutingBucketSnapshot) : KadRoutingBucketSnapshot :=
  match findNode (live bucket) c with
  | Some (before, node, behind) =>
      mkBucket (before ++ behind ++ [updateNode node c confirm now]) (replacements bucket) now
  | None =>
      match findNode (replacements bucket) c with
      | Some (before, node, behind) =>
          let node := updateNode node c confirm now in
          if confirm && (len (live bucket) <? size)
          then mkBucket (live bucket ++ [node]) (before ++ behind) now
          else mkBucket (live bucket) (before ++ node :: behind) now
      | None =>
          let node := mkNode c confirm false 0 now now in
          if len (live bucket) <? size then mkBucket (live bucket ++ [node]) (replacements bucket) now
          else
            let kept := if len (replacements bucket) =? size then tail (replacements bucket)
                        else replacements bucket in
            mkBucket (live bucket) (kept ++ [node]) now
      end
  end.

Definition addNode (c : KadContact) (confirm : bool) (now : Z) (t : KadRoutingTable) : result KadRoutingTable :=
  if negb (validRoutingContact c) || bool_decide (contactId c = ownId t) then mret t
  else
    index ← bucketIndex (ownId t) (contactId c);
    atBucket index (addToBucket (bucketSize t) c confirm now) t.

Definition heardAbout (c : KadContact) (now : Z) (t : KadRoutingTable) : result KadRoutingTable := addNode c false now t.
Definition nodeSeen (c : KadContact) (now : Z) (t : KadRoutingTable) : result KadRoutingTable := addNode c true now t.

Definition failedAgain (node : KadRoutingNode) : KadRoutingNode :=
  mkNode (contact node) (confirmed node) (seed node) (u32 (failCount node + 1)) (firstSeen node) (lastSeen node).

(** [nodeFailed], in its bucket. *)
Definition failInBucket (c : KadContact) (bucket : KadRoutingBucketSnapshot) : KadRoutingBucketSnapshot :=
  match findNode (live bucket) c with
  | Some (before, node, behind) =>
      if negb (confirmed node) then mkBucket (before ++ behind) (replacements bucket) (lastActive bucket)
      else
        let node := failedAgain node in
        match replacements bucket with
        | front :: rest => mkBucket (before ++ front :: behind) rest (lastActive bucket)
        | [] =>
            if 20 <=? failCount node then mkBucket (before ++ behind) [] (lastActive bucket)
            else mkBucket (before ++ node :: behind) [] (lastActive bucket)
        end
  | None =>
      match findNode (replacements bucket) c with
      | Some (before, _, behind) => mkBucket (live bucket) (before ++ behind) (lastActive bucket)
      | None => bucket
      end
  end.

Definition nodeFailed (c : KadContact) (t : KadRoutingTable) : result KadRoutingTable :=
  if negb (validId (contactId c)) then mret t
  else index ← bucketIndex (ownId t) (contactId c); atBucket index (failInBucket c) t.

(** ** Queries *)

(** [std::sort] with a comparison that may throw; the order of equal elements
    is open in the standard. *)
Fixpoint insertBy {A} (lt : A -> A -> result bool) (x : A) (l : list A) : result (list A) :=
  match l with
  | [] => mret [x]
  | y :: l' =>
      less ← lt y x;
      match less with
      | true => l' ← insertBy lt x l'; mret (y :: l')
      | false => mret (x :: l)
      end
  end.
Fixpoint sortBy {A} (lt : A -> A -> result bool) (l : list A) : result (list A) :=
  match l with
  | [] => mret []
  | x :: l => l ← sortBy lt l; insertBy lt x l
  end.

Definition eligible (excludedId : bytes) (includeUnconfirmed : bool) (node : KadRoutingNode) : bool :=
  (includeUnconfirmed || confirmed node) && negb (bool_decide (contactId (contact node) = excludedId)).

Definition liveNodes (t : KadRoutingTable) : list KadRoutingNode := tableBuckets t ≫= live.

Definition findClosestExcluding (targetId excludedId : bytes) (limit : Z) (includeUnconfirmed : bool)
    (t : KadRoutingTable) : result (list KadContact) :=
  _ ← validateId targetId;
  _ ← (if bool_decide (excludedId = []) then mret tt else validateId excludedId);
  let nodes := List.filter (eligible excludedId includeUnconfirmed) (liveNodes t) in
  sorted ← sortBy (fun lhs rhs =>
    order ← distanceCompare (contactId (contact lhs)) (contactId (contact rhs)) targetId;
    mret (order <? 0)) nodes;
  let sorted := if (0 <? limit) && (limit <? len sorted) then take (Z.to_nat limit) sorted else sorted in
  mret (contact <$> sorted).

Definition findClosest (targetId : bytes) (limit : Z) (includeUnconfirmed : bool) (t : KadRoutingTable) :
    result (list KadContact) :=
  findClosestExcluding targetId [] limit includeUnconfirmed t.

Definition liveSize (t : KadRoutingTable) : Z := zsum ((fun b => len (live b)) <$> tableBuckets t).
Definition replacementSize (t : KadRoutingTable) : Z := zsum ((fun b => len (replacements b)) <$> tableBuckets t).
Definition usefulSize (t : KadRoutingTable) : Z := liveSize t + replacementSize t.

Definition isAt (endpoint : Endpoint) (c : KadContact) : bool :=
  bool_decide (contactHost c = host endpoint) && (contactUdpPort c =? port endpoint).

Definition findByEndpoint (endpoint : Endpoint) (t : KadRoutingTable) : option KadContact :=
  List.find (isAt endpoint)
    ((contact <$> (tableBuckets t ≫= fun b => live b ++ replacements b)) ++ tableRouterContacts t).

(** ** Keeping the table fresh *)

Definition needBootstrap (now : Z) (t : KadRoutingTable) : bool * KadRoutingTable :=
  if negb (liveSize t =? 0) || (bucketSize t <=? replacementSize t) then (false, t)
  else if (tableLastBootstrap t =? 0) || (2 <=? now - tableLastBootstrap t)
  then (true, with_times now (tableLastRefresh t) (tableLastSelfRefresh t) t)
  else (false, t).

(** The loop of [needRefresh]: the bucket that was quiet for the longest time. *)
Fixpoint oldestBucket (now index : Z) (oldest : option (Z * Z)) (l : list KadRoutingBucketSnapshot) :
    option (Z * Z) :=
  match l with
  | [] => oldest
  | b :: l =>
      let oldest :=
        if (lastActive b =? 0) || (now - lastActive b <? 900) then oldest
        else match oldest with
             | Some (_, active) => if lastActive b <? active then Some (index, lastActive b) else oldest
             | None => Some (index, lastActive b)
             end in
      oldestBucket now (index + 1) oldest l
  end.

(** The words of the distance; [random] are four random words. *)
Definition distanceWords (index : Z) (random : list Z) : list Z :=
  if index <? farBuckets then
    <[0%nat := Z.lor (u32 (Z.shiftl (index + 1) (32 - splitLevels)))
                     (Z.shiftr (default 0 (random !! 0%nat)) splitLevels)]> random
  else
    let prefix := Z.min (index - farBuckets + splitLevels) 127 in
    let chunk := Z.to_nat (prefix / 32) in
    let words := replicate chunk 0 ++ drop chunk random in
    let bit := Z.shiftr 0x80000000 (prefix mod 32) in
    <[chunk := Z.lor bit (Z.land (default 0 (words !! chunk)) (bit - 1))]> words.

Fixpoint xorWords (self : bytes) (words : list Z) : result bytes :=
  match words with
  | [] => mret self
  | w :: words =>
      a ← wordAt self 0;
      rest ← xorWords (drop 4 self) words;
      mret (packUInt32 (Z.lxor a w) ++ rest)
  end.

Definition randomIdIn (self : bytes) (index : Z) (random : list Z) : result bytes :=
  xorWords self (distanceWords index random).

(** The target when a lookup is due. *)
Definition needRefresh (now : Z) (random : list Z) (t : KadRoutingTable) : result (option bytes * KadRoutingTable) :=
  if (tableLastSelfRefresh t =? 0) || (900 <=? now - tableLastSelfRefresh t) then
    mret (Some (ownId t), with_times (tableLastBootstrap t) (tableLastRefresh t) now t)
  else if negb (tableLastRefresh t =? 0) && (now - tableLastRefresh t <? 45) then mret (None, t)
  else match oldestBucket now 0 None (tableBuckets t) with
       | None => mret (None, t)
       | Some (index, _) =>
           target ← randomIdIn (ownId t) index random;
           mret (Some target, with_times (tableLastBootstrap t) now (tableLastSelfRefresh t) t)
       end.

(** ** Routers *)

Definition addRouterEndpoint (e : Endpoint) (t : KadRoutingTable) : KadRoutingTable :=
  if bool_decide (host e = []) || (port e =? 0) then t
  else if existsb (fun item => sameEndpoint item e) (tableRouterNodes t) then t
  else with_routers (tableRouterNodes t ++ [e]) (tableRouterContacts t) t.

Definition addRouterNode (c : KadContact) (t : KadRoutingTable) : KadRoutingTable :=
  if negb (validRoutingContact c) then t
  else
    let t := addRouterEndpoint (mkEndpoint (contactHost c) (contactUdpPort c) 0 []) t in
    match findSplit (fun item => sameContact item c || sameContactEndpoint item c) (tableRouterContacts t) with
    | None => with_routers (tableRouterNodes t) (tableRouterContacts t ++ [c]) t
    | Some (before, _, behind) => with_routers (tableRouterNodes t) (before ++ c :: behind) t
    end.

(** ** Snapshots *)

(** The fields that [Kad] fills in are those of [other]. *)
Definition snapshot (other : KadRoutingSnapshot) (t : KadRoutingTable) : KadRoutingSnapshot :=
  mkSnapshot (ownId t) (tableBuckets t) (tableRouterNodes t) (tableRouterContacts t)
    (tableLastBootstrap t) (tableLastRefresh t) (tableLastSelfRefresh t)
    (lastFirewalledCheck other) (lastSourcePublish other) (lastSourceSearch other)
    (sourceSearchCount other) (udpVerifyKey other) (observedAddresses other) (firewalled other).

(** A node of a saved bucket, in the bucket it belongs to. *)
Definition place (size : Z) (isLive : bool) (active : Z) (node : KadRoutingNode)
    (bucket : KadRoutingBucketSnapshot) : KadRoutingBucketSnapshot :=
  let active := Z.max (lastActive bucket) active in
  if isLive && (len (live bucket) <? size) then mkBucket (live bucket ++ [node]) (replacements bucket) active
  else if len (replacements bucket) <? size then mkBucket (live bucket) (replacements bucket ++ [node]) active
  else mkBucket (live bucket) (replacements bucket) active.

Fixpoint restoreNodes (isLive : bool) (active : Z) (nodes : list KadRoutingNode) (t : KadRoutingTable) :
    result KadRoutingTable :=
  match nodes with
  | [] => mret t
  | node :: nodes =>
      t ← (if negb (validId (contactId (contact node))) then mret t
           else index ← bucketIndex (ownId t) (contactId (contact node));
                atBucket index (place (bucketSize t) isLive active node) t);
      restoreNodes isLive active nodes t
  end.

Fixpoint restoreBuckets (saved : list KadRoutingBucketSnapshot) (t : KadRoutingTable) : result KadRoutingTable :=
  match saved with
  | [] => mret t
  | b :: saved =>
      t ← restoreNodes true (lastActive b) (live b) t;
      t ← restoreNodes false (lastActive b) (replacements b) t;
      restoreBuckets saved t
  end.

Definition restore (s : KadRoutingSnapshot) (t : KadRoutingTable) : result KadRoutingTable :=
  _ ← validateId (selfId s);
  restoreBuckets (buckets s)
    (mkTable (ownId t) (bucketSize t) (replicate (Z.to_nat bucketCount) emptyBucket)
      (routerNodes s) (routerContacts s) (lastBootstrap s) (lastRefresh s) (lastSelfRefresh s)).

(** ** Lemmas on ids *)

Lemma validId_spec id : validId id = true <-> len id = HASH_LENGTH.
Proof. apply Z.eqb_eq. Qed.

Lemma log2_below x n : 0 < n -> 0 <= x < 2 ^ n -> Z.log2 x < n.
Proof.
  intros Hn Hx. destruct (Z.eq_dec x 0) as [->|]; [done|]. apply Z.log2_lt_pow2; lia.
Qed.

Lemma below_log2 x n : 0 < n -> 0 <= x -> Z.log2 x < n -> 0 <= x < 2 ^ n.
Proof.
  intros Hn Hx Hl. split; [done|]. destruct (Z.eq_dec x 0) as [->|]; [by apply Z.pow_pos_nonneg; lia|].
  apply Z.log2_lt_pow2; lia.
Qed.

Lemma lor_below x y n : 0 < n -> 0 <= x < 2 ^ n -> 0 <= y < 2 ^ n -> 0 <= Z.lor x y < 2 ^ n.
Proof.
  intros Hn Hx Hy. apply below_log2; [done|apply Z.lor_nonneg; lia|]. rewrite Z.log2_lor by lia.
  pose proof (log2_below x n Hn Hx). pose proof (log2_below y n Hn Hy). lia.
Qed.

Lemma lxor_below x y n : 0 < n -> 0 <= x < 2 ^ n -> 0 <= y < 2 ^ n -> 0 <= Z.lxor x y < 2 ^ n.
Proof.
  intros Hn Hx Hy. apply below_log2; [done|apply Z.lxor_nonneg; lia|].
  pose proof (Z.log2_lxor x y ltac:(lia) ltac:(lia)).
  pose proof (log2_below x n Hn Hx). pose proof (log2_below y n Hn Hy). lia.
Qed.

Lemma u32_range p v : readUInt32 p = Ok v -> 0 <= v < 2 ^ 32.
Proof.
  unfold readUInt32. monad. destruct (at_ p 0); [|done]. destruct (at_ p 1); [|done].
  destruct (at_ p 2); [|done]. destruct (at_ p 3); [|done]. intros [= <-].
  repeat apply lor_below; try done; by apply Z.mod_pos_bound.
Qed.

(** The word at an offset. *)
Definition word (id : bytes) (i : Z) : Z := match wordAt id i with Ok w => w | Err _ => 0 end.

Lemma wordAt_ok id i : len id = HASH_LENGTH -> 0 <= i <= 12 -> wordAt id i = Ok (word id i).
Proof.
  intros Hl Hi. unfold word, wordAt. destruct (u32_ok (drop (Z.to_nat i) id)) as [v ->]; [|done].
  unfold len, HASH_LENGTH in *. rewrite length_drop. lia.
Qed.

Lemma word_range id i : 0 <= word id i < 2 ^ 32.
Proof.
  unfold word, wordAt. destruct (readUInt32 _) eqn:E; [by apply u32_range in E|done].
Qed.

(** The XOR metric: the words of the distance as one number. *)
Definition difference (self id : bytes) (i : Z) : Z := Z.lxor (word self i) (word id i).
Definition distance (id target : bytes) : Z :=
  ((difference id target 0 * 2 ^ 32 + difference id target 4) * 2 ^ 32 + difference id target 8) * 2 ^ 32
    + difference id target 12.

Lemma difference_range self id i : 0 <= difference self id i < 2 ^ 32.
Proof. apply lxor_below; [done|apply word_range..]. Qed.

Lemma validateId_ok id : len id = HASH_LENGTH -> validateId id = Ok tt.
Proof. intros H%validId_spec. unfold validateId. by rewrite H. Qed.

Lemma distanceCompare_ok lhs rhs target :
  len lhs = HASH_LENGTH -> len rhs = HASH_LENGTH -> len target = HASH_LENGTH ->
  exists order, distanceCompare lhs rhs target = Ok order /\
    (order <? 0) = (distance lhs target <? distance rhs target).
Proof.
  intros Hl Hr Ht. unfold distanceCompare. rewrite !validateId_ok by done. monad.
  cbn [compareWords]. rewrite !wordAt_ok by lia. monad.
  change (Z.lxor (word ?a ?i) (word target ?i)) with (difference a target i).
  unfold distance.
  pose proof (difference_range lhs target 0). pose proof (difference_range rhs target 0).
  pose proof (difference_range lhs target 4). pose proof (difference_range rhs target 4).
  pose proof (difference_range lhs target 8). pose proof (difference_range rhs target 8).
  pose proof (difference_range lhs target 12). pose proof (difference_range rhs target 12).
  change (2 ^ 32) with 4294967296 in *.
  repeat match goal with
  | |- context [if ?a <? ?b then _ else _] => destruct (Z.ltb_spec a b)
  end; (eexists; split; [reflexivity|]);
    symmetry; first [apply Z.ltb_lt; lia | apply Z.ltb_ge; lia].
Qed.

(** ** Lemmas on bucket indices *)

Lemma land_pow2 x k : 0 <= k -> negb (Z.land x (2 ^ k) =? 0) = Z.testbit x k.
Proof.
  intros Hk. destruct (Z.testbit x k) eqn:E; destruct (Z.eqb_spec (Z.land x (2 ^ k)) 0) as [E0|E0]; try done.
  - apply (f_equal (fun z => Z.testbit z k)) in E0.
    by rewrite Z.land_spec, E, Z.pow2_bits_true, Z.bits_0 in E0 by lia.
  - exfalso. apply E0. apply Z.bits_inj_iff'. intros i Hi.
    rewrite Z.land_spec, Z.bits_0, Z.pow2_bits_eqb by lia.
    destruct (Z.eqb_spec k i) as [<-|]; [by rewrite E|by rewrite andb_false_r].
Qed.

Lemma firstBit_spec x : 0 < x < 2 ^ 32 -> firstBit x (seqZ 0 32) = Some (31 - Z.log2 x).
Proof.
  intros Hx. assert (Hl : 0 <= Z.log2 x < 32).
  { split; [apply Z.log2_nonneg|]. apply Z.log2_lt_pow2; lia. }
  assert (Hbit : forall b, 0 <= b <= 31 ->
    negb (Z.land x (Z.shiftr 0x80000000 b) =? 0) = Z.testbit x (31 - b)).
  { intros b Hb. change 0x80000000 with (2 ^ 31). rewrite Z.shiftr_div_pow2 by lia.
    rewrite <- Z.pow_sub_r by lia. apply land_pow2. lia. }
  assert (H : forall n k, Z.of_nat n = 32 - k -> 0 <= k <= 31 - Z.log2 x ->
    firstBit x (seqZ k (32 - k)) = Some (31 - Z.log2 x)).
  { induction n as [|n IH]; intros k Hn Hk; [lia|]. rewrite seqZ_cons by lia. cbn [firstBit].
    rewrite Hbit by lia. destruct (Z.eq_dec k (31 - Z.log2 x)) as [->|Hne].
    - replace (31 - (31 - Z.log2 x)) with (Z.log2 x) by lia. by rewrite Z.bit_log2 by lia.
    - rewrite Z.bits_above_log2 by lia. replace (Z.pred (32 - k)) with (32 - Z.succ k) by lia.
      apply IH; lia. }
  apply (H 32%nat 0); lia.
Qed.

(** The bucket by the words of the distance, the first of them word [chunk]. *)
Fixpoint indexFrom (chunk : Z) (words : list Z) : Z :=
  match words with
  | [] => bucketCount - 1
  | x :: words =>
      if x =? 0 then indexFrom (chunk + 1) words
      else if (chunk =? 0) && negb (x / 2 ^ 28 =? 0) then x / 2 ^ 28 - 1
      else farBuckets + chunk * 32 + (31 - Z.log2 x) - splitLevels
  end.

Definition differences (self id : bytes) : list Z := difference self id <$> [0; 4; 8; 12].

Lemma bucketIndexFrom_ok self id chunks chunk :
  len self = HASH_LENGTH -> len id = HASH_LENGTH ->
  Forall (fun c => 0 <= c <= 3) chunks ->
  (forall i c, chunks !! i = Some c -> c = chunk + Z.of_nat i) ->
  bucketIndexFrom self id chunks = Ok (indexFrom chunk ((fun c => difference self id (c * 4)) <$> chunks)).
Proof.
  intros Hs Hi Hc. revert chunk. induction Hc as [|c chunks Hc _ IH]; intros chunk Hn; [done|].
  assert (c = chunk) as -> by (specialize (Hn 0%nat c eq_refl); lia).
  cbn [bucketIndexFrom fmap list_fmap indexFrom]. rewrite !wordAt_ok by lia. monad.
  change (Z.lxor (word self _) (word id _)) with (difference self id (chunk * 4)).
  pose proof (difference_range self id (chunk * 4)) as Hr.
  destruct (Z.eqb_spec (difference self id (chunk * 4)) 0).
  - apply IH. intros i c Hl. rewrite (Hn (S i) c Hl). lia.
  - rewrite Z.shiftr_div_pow2 by done. change (2 ^ (32 - splitLevels)) with (2 ^ 28).
    destruct (_ && _); [done|]. rewrite firstBit_spec by lia. done.
Qed.

Lemma bucketIndex_words self id :
  len self = HASH_LENGTH -> len id = HASH_LENGTH ->
  bucketIndex self id = Ok (indexFrom 0 (differences self id)).
Proof.
  intros Hs Hi. unfold bucketIndex. rewrite validateId_ok by done. monad.
  rewrite (bucketIndexFrom_ok self id _ 0); [done..| |].
  - repeat constructor; lia.
  - intros i c Hl. do 4 (destruct i as [|i]; [simplify_eq/=; lia|]). done.
Qed.

Lemma log2_word x : 0 < x < 2 ^ 32 -> 0 <= Z.log2 x <= 31.
Proof.
  intros Hx. split; [apply Z.log2_nonneg|]. pose proof (log2_below x 32 ltac:(lia) ltac:(lia)). lia.
Qed.

Lemma log2_small_word x : 0 < x < 2 ^ 32 -> x / 2 ^ 28 = 0 -> Z.log2 x <= 27.
Proof.
  intros Hx Hd. pose proof (log2_below x 28 ltac:(lia)) as H. apply Z.div_small_iff in Hd; lia.
Qed.

Lemma indexFrom_range chunk words :
  0 <= chunk -> chunk + Z.of_nat (length words) = 4 -> Forall (fun x => 0 <= x < 2 ^ 32) words ->
  0 <= indexFrom chunk words < bucketCount.
Proof.
  intros Hc Hl Hw. revert chunk Hc Hl. induction Hw as [|x words Hx _ IH]; intros chunk Hc Hl; [done|].
  cbn [indexFrom]. simpl in Hl. destruct (Z.eqb_spec x 0); [apply IH; lia|].
  pose proof (log2_word x ltac:(lia)). unfold bucketCount, farBuckets, splitLevels.
  change (Z.shiftl 1 4) with 16.
  destruct (Z.eqb_spec chunk 0); cbn [andb].
  - destruct (Z.eqb_spec (x / 2 ^ 28) 0) as [E|E]; cbn [negb].
    + pose proof (log2_small_word x ltac:(lia) E). lia.
    + change (2 ^ 28) with 268435456 in *. change (2 ^ 32) with 4294967296 in *. dlia.
  - lia.
Qed.

Lemma differences_range self id : Forall (fun x => 0 <= x < 2 ^ 32) (differences self id).
Proof. repeat constructor; apply difference_range. Qed.

Lemma bucketIndex_range self id :
  len self = HASH_LENGTH -> len id = HASH_LENGTH ->
  exists i, bucketIndex self id = Ok i /\ 0 <= i < bucketCount.
Proof.
  intros Hs Hi. eexists. split; [by apply bucketIndex_words|].
  apply indexFrom_range; [done|done|apply differences_range].
Qed.

Lemma bucketIndex_valid self id i : bucketIndex self id = Ok i -> len id = HASH_LENGTH.
Proof.
  unfold bucketIndex, validateId. destruct (validId id) eqn:E; [|done]. intros _. by apply validId_spec.
Qed.

(** ** Random ids *)

Lemma word_packed v rest : 0 <= v < 2 ^ 32 -> word (packUInt32 v ++ rest) 0 = v.
Proof.
  intros Hv. unfold word, wordAt. change (drop (Z.to_nat 0) ?l) with l.
  unfold packUInt32. rewrite u32_small by done.
  replace (readUInt32 (pack 4 v ++ rest)) with (readUInt32 (pack 4 v)) by done.
  by rewrite readUInt32_pack.
Qed.

Lemma word_drop id i k : 0 <= i -> 0 <= k -> word (drop (Z.to_nat k) id) i = word id (k + i).
Proof. intros Hi Hk. unfold word, wordAt. by rewrite drop_drop, Z2Nat.inj_add. Qed.

Lemma xorWords_ok self words :
  len self = 4 * len words -> Forall (fun x => 0 <= x < 2 ^ 32) words ->
  exists id, xorWords self words = Ok id /\ len id = len self /\
    forall i x, words !! i = Some x -> difference self id (Z.of_nat i * 4) = x.
Proof.
  intros Hl Hw. revert self Hl. induction Hw as [|w words Hx _ IH]; intros self Hl.
  { exists self. split; [done|]. split; [done|]. intros i x Hi. done. }
  rewrite len_cons in Hl. pose proof (len_nonneg words). cbn [xorWords].
  destruct (u32_ok self) as [a Ea]; [lia|].
  assert (Hd : len (drop 4 self) = 4 * len words) by (unfold len in *; rewrite length_drop; lia).
  destruct (IH _ Hd) as (rest & Er & Lr & Hr). unfold wordAt. change (drop (Z.to_nat 0) self) with self.
  rewrite Ea. monad. rewrite Er. eexists. split; [reflexivity|].
  assert (Hp : len (packUInt32 (Z.lxor a w)) = 4) by apply len_pack.
  split; [rewrite len_app, Hp, Lr; lia|]. intros [|i] x Hi.
  - injection Hi as <-. change (Z.of_nat 0 * 4) with 0. unfold difference.
    assert (Ha : word self 0 = a) by (unfold word, wordAt; change (drop (Z.to_nat 0) self) with self; by rewrite Ea).
    rewrite Ha, word_packed by (apply lxor_below; [lia|by apply u32_range in Ea|done]).
    by rewrite <- Z.lxor_assoc, Z.lxor_nilpotent, Z.lxor_0_l.
  - rewrite <- (Hr i x Hi). unfold difference. replace (Z.of_nat (S i) * 4) with (4 + Z.of_nat i * 4) by lia.
    rewrite <- !(word_drop _ _ 4) by lia. done.
Qed.

Lemma randomIdIn_words self words :
  len self = HASH_LENGTH -> length words = 4%nat -> Forall (fun x => 0 <= x < 2 ^ 32) words ->
  exists id, xorWords self words = Ok id /\ len id = HASH_LENGTH /\ differences self id = words.
Proof.
  intros Hs Hl Hw. destruct (xorWords_ok self words) as (id & Hx & Hi & Hd); [|done|].
  { unfold len. rewrite Hl. done. }
  exists id. split; [done|]. split; [by rewrite Hi|].
  destruct words as [|a [|b [|c [|d [|]]]]]; try done. unfold differences. cbn [fmap list_fmap].
  f_equal; [exact (Hd 0%nat a eq_refl)|]. f_equal; [exact (Hd 1%nat b eq_refl)|].
  f_equal; [exact (Hd 2%nat c eq_refl)|]. f_equal. exact (Hd 3%nat d eq_refl).
Qed.

Lemma replicate_index chunk n words :
  0 <= chunk -> indexFrom chunk (replicate n 0 ++ words) = indexFrom (chunk + Z.of_nat n) words.
Proof.
  revert chunk. induction n as [|n IH]; intros chunk Hc.
  - simpl. f_equal. lia.
  - cbn [replicate app indexFrom]. rewrite Z.eqb_refl, IH by lia. f_equal. lia.
Qed.

Lemma bit_or_rest k w : 0 <= k -> Z.lor (2 ^ k) (Z.land w (2 ^ k - 1)) = 2 ^ k + w mod 2 ^ k.
Proof.
  intros Hk. rewrite Z.sub_1_r, <- Z.ones_equiv, Z.land_ones by done.
  rewrite <- (Z.mul_1_l (2 ^ k)) at 1. rewrite Z.lor_comm, lor_mul; [lia|done|].
  apply Z.mod_pos_bound, Z.pow_pos_nonneg; lia.
Qed.

(** The distance of a random id picks the bucket. *)
Definition picks (index : Z) (words : list Z) : Prop :=
  length words = 4%nat /\ Forall (fun x => 0 <= x < 2 ^ 32) words /\ indexFrom 0 words = index.

Lemma farWords_pick index w words :
  0 <= index < 15 -> length words = 3%nat -> 0 <= w < 2 ^ 32 -> Forall (fun x => 0 <= x < 2 ^ 32) words ->
  picks index (Z.lor (u32 (Z.shiftl (index + 1) 28)) (Z.shiftr w 4) :: words).
Proof.
  intros Hi Hl Hw Hws.
  assert (Ew : Z.lor (u32 (Z.shiftl (index + 1) 28)) (Z.shiftr w 4) = (index + 1) * 268435456 + w / 16).
  { rewrite Z.shiftl_mul_pow2, Z.shiftr_div_pow2 by done.
    rewrite u32_small by (change (2 ^ 28) with 268435456; change (2 ^ 32) with 4294967296; lia).
    rewrite Z.lor_comm, lor_mul by (change (2 ^ 28) with 268435456; change (2 ^ 32) with 4294967296 in Hw; dlia).
    change (2 ^ 4) with 16. change (2 ^ 28) with 268435456. lia. }
  rewrite Ew. unfold picks. change (2 ^ 32) with 4294967296 in *.
  split; [simpl; lia|]. split; [constructor; [dlia|done]|]. cbn [indexFrom].
  change (2 ^ 28) with 268435456. destruct (Z.eqb_spec ((index + 1) * 268435456 + w / 16) 0); [dlia|].
  assert (E : ((index + 1) * 268435456 + w / 16) / 268435456 = index + 1) by dlia. rewrite E.
  destruct (Z.eqb_spec (index + 1) 0); [lia|]. simpl. lia.
Qed.

Lemma nearWords_pick prefix w rest :
  4 <= prefix <= 127 -> length rest = (3 - Z.to_nat (prefix / 32))%nat ->
  Forall (fun x => 0 <= x < 2 ^ 32) rest ->
  let bit := 2 ^ (31 - prefix mod 32) in
  picks (prefix + 11) (replicate (Z.to_nat (prefix / 32)) 0 ++ Z.lor bit (Z.land w (bit - 1)) :: rest).
Proof.
  intros Hp Hl Hr bit. assert (Hc : 0 <= prefix / 32 <= 3) by dlia.
  assert (Hm : 0 <= prefix mod 32 <= 31) by (pose proof (Z.mod_pos_bound prefix 32); lia).
  unfold bit. set (k := 31 - prefix mod 32). assert (Hk : 0 <= k <= 31) by lia.
  rewrite bit_or_rest by lia. assert (Hpos : 0 < 2 ^ k) by (apply Z.pow_pos_nonneg; lia).
  assert (Hv : 2 ^ k <= 2 ^ k + w mod 2 ^ k < 2 ^ (k + 1)).
  { pose proof (Z.mod_pos_bound w (2 ^ k) Hpos). rewrite Z.pow_add_r by lia. lia. }
  set (v := 2 ^ k + w mod 2 ^ k) in *.
  assert (Hlog : Z.log2 v = k) by (apply Z.log2_unique; [lia|]; rewrite <- Z.add_1_r; lia).
  assert (H32 : 2 ^ (k + 1) <= 2 ^ 32) by (apply Z.pow_le_mono_r; lia).
  split; [rewrite length_app, length_replicate; simpl; lia|].
  split; [apply Forall_app; split; [by apply Forall_replicate|constructor; [lia|done]]|].
  rewrite replicate_index by lia. cbn [indexFrom]. destruct (Z.eqb_spec v 0); [lia|].
  rewrite Hlog. change farBuckets with 15. change splitLevels with 4.
  assert (Hf : (0 + Z.of_nat (Z.to_nat (prefix / 32)) =? 0) && negb (v / 2 ^ 28 =? 0) = false).
  { destruct (Z.eqb_spec (0 + Z.of_nat (Z.to_nat (prefix / 32))) 0) as [E|]; [|done]. simpl.
    rewrite Z.div_small; [done|]. split; [lia|]. eapply Z.lt_le_trans; [apply Hv|].
    apply Z.pow_le_mono_r; [lia|]. unfold k. dlia. }
  rewrite Hf. unfold k. dlia.
Qed.

Lemma distanceWords_pick index random :
  0 <= index < bucketCount -> length random = 4%nat -> Forall (fun x => 0 <= x < 2 ^ 32) random ->
  picks index (distanceWords index random).
Proof.
  intros Hi Hl Hr. unfold distanceWords. change bucketCount with 139 in Hi. change farBuckets with 15.
  change splitLevels with 4. destruct (Z.ltb_spec index 15) as [Hlt|Hge].
  - destruct random as [|w words]; [done|]. inv Hr. simpl in Hl. apply farWords_pick; [lia|lia|done..].
  - rewrite Z.min_l by lia. set (prefix := index - 15 + 4). replace index with (prefix + 11) by lia.
    assert (Hc : 0 <= prefix / 32 <= 3) by (unfold prefix; dlia).
    assert (Hm : 0 <= prefix mod 32 <= 31) by (pose proof (Z.mod_pos_bound prefix 32); lia).
    replace (Z.shiftr 2147483648 (prefix mod 32)) with (2 ^ (31 - prefix mod 32))
      by (change 2147483648 with (2 ^ 31); by rewrite Z.shiftr_div_pow2, Z.pow_sub_r by lia).
    destruct (drop (Z.to_nat (prefix / 32)) random) as [|w rest] eqn:Ed;
      apply (f_equal length) in Ed as Hlen; rewrite length_drop in Hlen; simpl in Hlen; [lia|].
    assert (Hw : Forall (fun x => 0 <= x < 2 ^ 32) (w :: rest)) by (rewrite <- Ed; by apply Forall_drop).
    inv Hw.
    rewrite lookup_app_r, insert_app_r_alt by (rewrite length_replicate; lia).
    rewrite length_replicate, Nat.sub_diag. apply nearWords_pick; [unfold prefix; lia|lia|done].
Qed.

(** ** Sorting *)

Lemma insertBy_ok {A} (lt : A -> A -> result bool) (key : A -> Z) x l :
  (forall y, y ∈ l -> lt y x = Ok (key y <? key x)) ->
  StronglySorted (fun a b => key a <= key b) l ->
  exists l', insertBy lt x l = Ok l' /\ l' ≡ₚ x :: l /\ StronglySorted (fun a b => key a <= key b) l'.
Proof.
  induction l as [|y l IH]; intros Hlt Hs.
  { exists [x]. split; [done|]. split; [done|]. by repeat constructor. }
  cbn [insertBy]. rewrite Hlt by left. monad. apply StronglySorted_inv in Hs as [Hs Hall].
  destruct (Z.ltb_spec (key y) (key x)) as [Hyx|Hyx].
  - destruct IH as (l' & -> & Hp & Hs'); [intros z Hz; apply Hlt; by right|done|].
    exists (y :: l'). split; [done|]. split; [rewrite Hp; apply Permutation_swap|].
    constructor; [done|]. rewrite Hp. constructor; [lia|done].
  - exists (x :: y :: l). split; [done|]. split; [done|]. repeat constructor; try done.
    eapply Forall_impl; [exact Hall|]. simpl. lia.
Qed.

Lemma sortBy_ok {A} (lt : A -> A -> result bool) (key : A -> Z) l :
  (forall x y, x ∈ l -> y ∈ l -> lt x y = Ok (key x <? key y)) ->
  exists l', sortBy lt l = Ok l' /\ l' ≡ₚ l /\ StronglySorted (fun a b => key a <= key b) l'.
Proof.
  induction l as [|x l IH]; intros Hlt.
  { exists []. split; [done|]. split; [done|constructor]. }
  cbn [sortBy]. destruct IH as (l1 & -> & Hp & Hs); [intros; apply Hlt; by right|]. monad.
  destruct (insertBy_ok lt key x l1) as (l2 & -> & Hp2 & Hs2); [|done|].
  - intros y Hy. rewrite Hp in Hy. apply Hlt; [by right|left].
  - exists l2. split; [done|]. split; [by rewrite Hp2, Hp|done].
Qed.

(** ** The invariant of the table *)

Section invariant.
(** The contacts a snapshot may hold: [restore] takes nodes as they were saved,
    every other operation only usable contacts other than ourselves. *)
Variable saved : KadContact -> Prop.

Definition usable (self : bytes) (c : KadContact) : Prop :=
  validRoutingContact c = true /\ contactId c <> self.

Definition belongs (self : bytes) (index : Z) (node : KadRoutingNode) : Prop :=
  bucketIndex self (contactId (contact node)) = Ok index /\ (usable self (contact node) \/ saved (contact node)).

Record bucket_good (self : bytes) (size index : Z) (b : KadRoutingBucketSnapshot) : Prop := mkGood {
  good_live : len (live b) <= size;
  good_replacements : len (replacements b) <= size;
  good_nodes : Forall (belongs self index) (live b ++ replacements b);
}.

Record table_ok (t : KadRoutingTable) : Prop := mkTableOk {
  table_self : len (ownId t) = HASH_LENGTH;
  table_size : 0 < bucketSize t;
  table_count : length (tableBuckets t) = Z.to_nat bucketCount;
  table_buckets : forall i b, tableBuckets t !! i = Some b ->
    bucket_good (ownId t) (bucketSize t) (Z.of_nat i) b;
}.

Lemma findSplit_some {A} (p : A -> bool) (l : list A) before x behind :
  findSplit p l = Some (before, x, behind) -> l = before ++ x :: behind /\ p x = true.
Proof.
  revert before. induction l as [|y l IH]; intros before; simpl; [done|].
  destruct (p y) eqn:E; [by intros [= <- <- <-]|].
  destruct (findSplit p l) as [[[b z] k]|]; [|done]. intros [= <- <- <-].
  destruct (IH b eq_refl) as [-> ?]. done.
Qed.

Lemma belongs_updated self index node c confirm now :
  bucketIndex self (contactId c) = Ok index -> usable self c ->
  belongs self index (updateNode node c confirm now).
Proof.
  intros Hb Hu. unfold updateNode. destruct (contactUdpKey c =? 0); (split; [done|by left]).
Qed.

Lemma good_addToBucket self size index c confirm now b :
  0 < size -> bucketIndex self (contactId c) = Ok index -> usable self c ->
  bucket_good self size index b -> bucket_good self size index (addToBucket size c confirm now b).
Proof.
  intros Hs Hb Hu [H1 H2 H3]. apply Forall_app in H3 as [H3 H4]. unfold addToBucket.
  destruct (findNode (live b) c) as [[[before node] behind]|] eqn:El.
  { apply findSplit_some in El as [E _]. rewrite E in H1, H3. apply Forall_app in H3 as [H5 H6].
    inv H6. unfold len in *. rewrite length_app in H1. simpl in H1.
    split; simpl; [unfold len; rewrite !length_app; simpl; lia|done|].
    repeat (apply Forall_app; split); try done. constructor; [by apply belongs_updated|done]. }
  destruct (findNode (replacements b) c) as [[[before node] behind]|] eqn:Er.
  { apply findSplit_some in Er as [E _]. rewrite E in H2, H4. apply Forall_app in H4 as [H5 H6]. inv H6.
    assert (Hn : belongs self index (updateNode node c confirm now)) by (by apply belongs_updated).
    unfold len in *. rewrite length_app in H2. simpl in H2.
    destruct (_ && _) eqn:Ec; zprop; (split; simpl; unfold len;
      [rewrite ?length_app; simpl; lia | rewrite ?length_app; simpl; lia |]);
      repeat (apply Forall_app; split); try done; constructor; done. }
  assert (Hn : belongs self index (mkNode c confirm false 0 now now)) by (split; [done|by left]).
  destruct (Z.ltb_spec (len (live b)) size); (split; simpl; [| |repeat (apply Forall_app; split)]); try done.
  - unfold len in *. rewrite length_app. simpl. lia.
  - by constructor.
  - unfold len in *. rewrite length_app. simpl.
    destruct (Z.eqb_spec (Z.of_nat (length (replacements b))) size); destruct (replacements b); simpl in *; lia.
  - destruct (_ =? _); [|done]. by destruct H4.
  - by constructor.
Qed.

Lemma good_fewer self size index b live' replacements' active :
  bucket_good self size index b ->
  len live' <= len (live b) -> len replacements' <= len (replacements b) ->
  (forall n, n ∈ live' ++ replacements' -> n ∈ live b ++ replacements b \/ belongs self index n) ->
  bucket_good self size index (mkBucket live' replacements' active).
Proof.
  intros [H1 H2 H3] Hl Hr Hn. split; simpl; [lia|lia|]. apply Forall_forall. intros n Hin.
  rewrite Forall_forall in H3. destruct (Hn n Hin); [by apply H3|done].
Qed.

Lemma good_failInBucket self size index c b :
  bucket_good self size index b -> bucket_good self size index (failInBucket c b).
Proof.
  intros Hg. unfold failInBucket.
  destruct (findNode (live b) c) as [[[before node] behind]|] eqn:El.
  - apply findSplit_some in El as [E _].
    assert (Hn : belongs self index node).
    { destruct Hg as [_ _ H3]. rewrite E in H3. rewrite Forall_forall in H3. apply H3. set_solver. }
    destruct (negb (confirmed node)).
    { eapply good_fewer; [exact Hg|..]; rewrite ?E; unfold len; rewrite ?length_app; simpl; [lia|lia|set_solver]. }
    destruct (replacements b) as [|front rest] eqn:Er.
    + destruct (20 <=? _); (eapply good_fewer; [exact Hg|..]; rewrite ?E, ?Er; unfold len;
        rewrite ?length_app; simpl; [lia|lia|]); [set_solver|].
      intros n. rewrite !elem_of_app, !elem_of_cons. intros [[?|[->|?]]|?]; auto 6.
    + eapply good_fewer; [exact Hg|..]; rewrite ?E, ?Er; unfold len; rewrite ?length_app; simpl; [lia|lia|set_solver].
  - destruct (findNode (replacements b) c) as [[[before node] behind]|] eqn:Er; [|done].
    apply findSplit_some in Er as [E _].
    eapply good_fewer; [exact Hg|..]; rewrite ?E; unfold len; rewrite ?length_app; simpl; [lia|lia|set_solver].
Qed.

Lemma good_place self size index isLive active node b :
  belongs self index node -> bucket_good self size index b ->
  bucket_good self size index (place size isLive active node b).
Proof.
  intros Hn [H1 H2 H3]. apply Forall_app in H3 as [H3 H4]. unfold place.
  destruct (isLive && (len (live b) <? size)) eqn:E1;
    [|destruct (Z.ltb_spec (len (replacements b)) size) as [E2|E2]].
  - apply andb_true_iff in E1 as [_ E1%Z.ltb_lt]. unfold len in *. split; simpl; unfold len.
    + rewrite length_app. simpl. lia.
    + done.
    + repeat (apply Forall_app; split); try done. by constructor.
  - unfold len in *. split; simpl; unfold len.
    + done.
    + rewrite length_app. simpl. lia.
    + repeat (apply Forall_app; split); try done. by constructor.
  - split; simpl; [done|done|]. by apply Forall_app.
Qed.

(** A bucket that an operation reaches is there. *)
Lemma atBucket_ok id f t :
  table_ok t -> len id = HASH_LENGTH ->
  (forall index b, bucketIndex (ownId t) id = Ok index ->
    bucket_good (ownId t) (bucketSize t) index b -> bucket_good (ownId t) (bucketSize t) index (f b)) ->
  exists t', (index ← bucketIndex (ownId t) id; atBucket index f t) = Ok t' /\ table_ok t' /\
    ownId t' = ownId t /\ bucketSize t' = bucketSize t.
Proof.
  intros [H1 H2 H3 H4] Hid Hf. destruct (bucketIndex_range (ownId t) id H1 Hid) as (i & Hi & Hr).
  rewrite Hi. monad. unfold atBucket.
  destruct (lookup_lt_is_Some_2 (tableBuckets t) (Z.to_nat i)) as [b Hb]; [rewrite H3; lia|].
  rewrite Hb. eexists. split; [reflexivity|]. split; [|done]. split; simpl; [done|done|by rewrite length_insert|].
  intros j b' [(<- & <- & _)|[Hne Hl]]%list_lookup_insert_Some; [|by apply H4].
  rewrite Z2Nat.id by lia. apply Hf; [done|]. specialize (H4 _ _ Hb). by rewrite Z2Nat.id in H4 by lia.
Qed.

Lemma table_ok_same t t' :
  ownId t' = ownId t -> bucketSize t' = bucketSize t -> tableBuckets t' = tableBuckets t ->
  table_ok t -> table_ok t'.
Proof.
  intros E1 E2 E3 [H1 H2 H3 H4]. split; rewrite ?E1, ?E2, ?E3; try done.
Qed.

Lemma addNode_ok c confirm now t :
  table_ok t -> exists t', addNode c confirm now t = Ok t' /\ table_ok t' /\ ownId t' = ownId t.
Proof.
  intros Ht. unfold addNode. destruct (negb _ || _) eqn:E; [by exists t|].
  apply orb_false_iff in E as [Ev%negb_false_iff Eo%bool_decide_eq_false_1].
  edestruct (atBucket_ok (contactId c) (addToBucket (bucketSize t) c confirm now) t) as (t' & -> & Hok & Eq & _).
  - done.
  - unfold validRoutingContact in Ev. apply validId_spec. by destruct (validId (contactId c)).
  - intros index b Hi Hb. apply good_addToBucket; [by destruct Ht|done|by split|done].
  - by exists t'.
Qed.

Lemma nodeFailed_ok c t :
  table_ok t -> exists t', nodeFailed c t = Ok t' /\ table_ok t' /\ ownId t' = ownId t.
Proof.
  intros Ht. unfold nodeFailed. destruct (validId (contactId c)) eqn:E; [|by exists t].
  edestruct (atBucket_ok (contactId c) (failInBucket c) t) as (t' & -> & Hok & Eq & _).
  - done.
  - by apply validId_spec.
  - intros index b _. apply good_failInBucket.
  - by exists t'.
Qed.

Lemma addRouterNode_ok c t : table_ok t -> table_ok (addRouterNode c t).
Proof.
  intros Ht. unfold addRouterNode, addRouterEndpoint. repeat case_match; by eapply table_ok_same; [..|exact Ht].
Qed.

Lemma restoreNodes_ok isLive active nodes t :
  table_ok t -> Forall (fun n => saved (contact n)) nodes ->
  exists t', restoreNodes isLive active nodes t = Ok t' /\ table_ok t' /\ ownId t' = ownId t.
Proof.
  intros Ht Hn. revert t Ht. induction Hn as [|node nodes Hnode _ IH]; intros t Ht; cbn [restoreNodes]; [by exists t|].
  destruct (validId _) eqn:E; [|by apply IH].
  edestruct (atBucket_ok (contactId (contact node)) (place (bucketSize t) isLive active node) t)
    as (t' & -> & Hok & Eo & _); [done|by apply validId_spec| |].
  - intros index b Hi. apply good_place. split; [done|by right].
  - monad. cbn [negb]. destruct (IH t' Hok) as (t2 & -> & Hok2 & Eo2). exists t2.
    split; [done|]. split; [done|congruence].
Qed.

Lemma restoreBuckets_ok bs t :
  table_ok t -> Forall (fun b => Forall (fun n => saved (contact n)) (live b ++ replacements b)) bs ->
  exists t', restoreBuckets bs t = Ok t' /\ table_ok t' /\ ownId t' = ownId t.
Proof.
  intros Ht Hn. revert t Ht.
  induction Hn as [|b bs [Hl Hr]%Forall_app _ IH]; intros t Ht; cbn [restoreBuckets]; [by exists t|].
  destruct (restoreNodes_ok true (lastActive b) (live b) t Ht Hl) as (t1 & -> & H1 & E1). monad.
  destruct (restoreNodes_ok false (lastActive b) (replacements b) t1 H1 Hr) as (t2 & -> & H2 & E2).
  monad. destruct (IH t2 H2) as (t3 & -> & H3 & E3).
  exists t3. split; [done|]. split; [done|congruence].
Qed.

Lemma empty_ok self size rn rc b r sr :
  len self = HASH_LENGTH -> 0 < size ->
  table_ok (mkTable self size (replicate (Z.to_nat bucketCount) emptyBucket) rn rc b r sr).
Proof.
  intros Hs Hz. split; cbn [ownId bucketSize tableBuckets]; [done|done|by rewrite length_replicate|].
  intros i bucket [-> _]%lookup_replicate. split; simpl; [unfold len; simpl; lia..|constructor].
Qed.

End invariant.

(** The table after a sequence of calls. *)
Inductive call :=
| HeardAbout (c : KadContact) (now : Z)
| NodeSeen (c : KadContact) (now : Z)
| NodeFailed (c : KadContact)
| Bootstrap (now : Z)
| Refresh (now : Z) (random : list Z)
| AddRouterEndpoint (e : Endpoint)
| AddRouterNode (c : KadContact)
| Restore (s : KadRoutingSnapshot).

Definition exec (o : call) (t : KadRoutingTable) : result KadRoutingTable :=
  match o with
  | HeardAbout c now => heardAbout c now t
  | NodeSeen c now => nodeSeen c now t
  | NodeFailed c => nodeFailed c t
  | Bootstrap now => mret (needBootstrap now t).2
  | Refresh now random => r ← needRefresh now random t; mret r.2
  | AddRouterEndpoint e => mret (addRouterEndpoint e t)
  | AddRouterNode c => mret (addRouterNode c t)
  | Restore s => restore s t
  end.

(** A call that throws leaves the table as it was: [restore], the only one that
    does, checks the id of the snapshot before it writes anything. *)
Definition attempt (t : KadRoutingTable) (o : call) : KadRoutingTable :=
  match exec o t with Ok t' => t' | Err _ => t end.

Definition attempts (os : list call) (t : KadRoutingTable) : KadRoutingTable := foldl attempt t os.

(** [randomIdIn] draws four words of 32 bits. *)
Definition words_ok (o : call) : Prop :=
  match o with
  | Refresh _ random => length random = 4%nat /\ Forall (fun x => 0 <= x < 2 ^ 32) random
  | _ => True
  end.

(** The contact was saved in a snapshot that one of the calls restores. *)
Definition restoredBy (os : list call) (c : KadContact) : Prop :=
  exists s, Restore s ∈ os /\
    Exists (fun b => Exists (fun n => contact n = c) (live b ++ replacements b)) (buckets s).

Definition throws (o : call) : Prop :=
  exists s, o = Restore s /\ len (selfId s) <> HASH_LENGTH.

Lemma oldestBucket_range now index oldest l i active :
  oldestBucket now index oldest l = Some (i, active) ->
  (oldest = Some (i, active)) \/ index <= i < index + len l.
Proof.
  revert index oldest. induction l as [|b l IH]; intros index oldest; cbn [oldestBucket]; [by left|].
  rewrite len_cons. pose proof (len_nonneg l). intros H1. apply IH in H1 as [H1|H1]; [|right; lia].
  destruct (_ || _); [by left|]. destruct oldest as [[j v]|]; [|simplify_eq; right; lia].
  destruct (_ <? _); simplify_eq; [right; lia|by left].
Qed.

(** Neither our own id is due nor was a bucket refreshed just now. *)
Definition bucketDue (now : Z) (t : KadRoutingTable) : bool :=
  negb ((tableLastSelfRefresh t =? 0) || (900 <=? now - tableLastSelfRefresh t)) &&
  negb (negb (tableLastRefresh t =? 0) && (now - tableLastRefresh t <? 45)).

Lemma needRefresh_bucket saved now random t index active :
  table_ok saved t -> length random = 4%nat -> Forall (fun x => 0 <= x < 2 ^ 32) random ->
  bucketDue now t = true -> oldestBucket now 0 None (tableBuckets t) = Some (index, active) ->
  exists id, bucketIndex (ownId t) id = Ok index /\
    needRefresh now random t = Ok (Some id, with_times (tableLastBootstrap t) now (tableLastSelfRefresh t) t).
Proof.
  intros [H1 H2 H3 H4] Hl Hr Hd Hold. unfold bucketDue in Hd.
  apply andb_true_iff in Hd as [Hd1%negb_true_iff Hd2%negb_true_iff].
  unfold needRefresh. rewrite Hd1, Hd2, Hold.
  apply oldestBucket_range in Hold as [?|Hi]; [done|]. unfold len in Hi. rewrite H3 in Hi.
  destruct (distanceWords_pick index random) as (P1 & P2 & P3); [change bucketCount with 139 in *; lia|done..|].
  destruct (randomIdIn_words (ownId t) (distanceWords index random) H1 P1 P2) as (id & Hx & Hid & Hw).
  exists id. unfold randomIdIn. rewrite Hx, bucketIndex_words by done. by rewrite Hw, P3.
Qed.

Lemma needRefresh_ok saved now random t :
  table_ok saved t -> length random = 4%nat -> Forall (fun x => 0 <= x < 2 ^ 32) random ->
  exists r, needRefresh now random t = Ok r /\ table_ok saved r.2 /\ ownId r.2 = ownId t /\
    (r.1 = None \/ r.1 = Some (ownId t) \/
     exists id index active, r.1 = Some id /\ bucketDue now t = true /\
       r.2 = with_times (tableLastBootstrap t) now (tableLastSelfRefresh t) t /\
       oldestBucket now 0 None (tableBuckets t) = Some (index, active) /\
       bucketIndex (ownId t) id = Ok index).
Proof.
  intros Ht Hl Hr. destruct (bucketDue now t) eqn:Ed.
  - destruct (oldestBucket now 0 None (tableBuckets t)) as [[index active]|] eqn:Eo.
    + destruct (needRefresh_bucket saved now random t index active Ht Hl Hr Ed Eo) as (id & Hi & ->).
      eexists. split; [done|]. split; [by eapply table_ok_same; [..|exact Ht]|]. split; [done|].
      right. right. by exists id, index, active.
    + unfold needRefresh, bucketDue in *. apply andb_true_iff in Ed as [->%negb_true_iff ->%negb_true_iff].
      rewrite Eo. eexists. split; [done|]. auto.
  - unfold needRefresh, bucketDue in *. destruct (_ || _); cbn [negb andb] in Ed.
    { eexists. split; [done|]. split; [by eapply table_ok_same; [..|exact Ht]|auto]. }
    apply negb_false_iff in Ed. rewrite Ed. eexists. split; [done|]. auto.
Qed.

Lemma table_ok_impl saved saved' t :
  (forall c, saved c -> saved' c) -> table_ok saved t -> table_ok saved' t.
Proof.
  intros Hi [H1 H2 H3 H4]. split; [done..|]. intros i b Hb. destruct (H4 i b Hb) as [G1 G2 G3]. split; [done..|].
  eapply Forall_impl; [exact G3|]. intros n [Hn [?|?]]; (split; [done|]); [by left|right; auto].
Qed.

#[export] Instance throws_dec o : Decision (throws o).
Proof.
  destruct o as [| | | | | | |s]; try (right; by intros (? & ? & _)).
  destruct (decide (len (selfId s) = HASH_LENGTH)) as [E|E]; [right|left; by exists s].
  by intros (? & [= <-] & ?).
Defined.

Lemma restoredBy_intro os s :
  Restore s ∈ os -> Forall (fun b => Forall (fun n => restoredBy os (contact n)) (live b ++ replacements b)) (buckets s).
Proof.
  intros Hs. apply Forall_forall. intros b Hb. apply Forall_forall. intros n Hn.
  exists s. split; [done|]. apply Exists_exists. exists b. split; [done|]. apply Exists_exists. by exists n.
Qed.

Lemma exec_throws o t : throws o -> exists e, exec o t = Err e.
Proof.
  intros (s & -> & Hs). cbn [exec]. unfold restore, validateId, validId.
  rewrite (proj2 (Z.eqb_neq _ _) Hs). by eexists.
Qed.

Lemma table_exec_ok saved o t :
  table_ok saved t -> words_ok o ->
  (forall s, o = Restore s -> len (selfId s) = HASH_LENGTH /\
     Forall (fun b => Forall (fun n => saved (contact n)) (live b ++ replacements b)) (buckets s)) ->
  exists t', exec o t = Ok t' /\ table_ok saved t' /\ ownId t' = ownId t.
Proof.
  intros Ht Ho Hr. destruct o as [c now|c now|c|now|now random|e|c|sn]; cbn [exec].
  - by apply addNode_ok.
  - by apply addNode_ok.
  - by apply nodeFailed_ok.
  - eexists. split; [done|]. unfold needBootstrap. destruct (_ || _); [done|].
    destruct (_ || _); [|done]. split; [|done]. by eapply table_ok_same; [..|exact Ht].
  - destruct Ho as [Hl Hw]. destruct (needRefresh_ok saved now random t Ht Hl Hw) as (r & E & Hok & Eo & _).
    exists r.2. by rewrite E.
  - eexists. split; [done|]. unfold addRouterEndpoint.
    repeat case_match; (split; [by eapply table_ok_same; [..|exact Ht]|done]).
  - eexists. split; [done|]. split; [by apply addRouterNode_ok|].
    unfold addRouterNode, addRouterEndpoint. by repeat case_match.
  - destruct (Hr sn eq_refl) as [Hs Hn]. unfold restore. rewrite validateId_ok by done. monad.
    set (t0 := mkTable _ _ _ _ _ _ _ _).
    destruct (restoreBuckets_ok saved (buckets sn) t0) as (t' & E & Hok & Eo);
      [apply empty_ok; by destruct Ht|done|by exists t'].
Qed.

Lemma table_attempts_ok calls os t :
  os ⊆ calls -> table_ok (restoredBy calls) t -> Forall words_ok os ->
  table_ok (restoredBy calls) (attempts os t) /\ ownId (attempts os t) = ownId t.
Proof.
  revert t. induction os as [|o os IH]; intros t Hsub Ht Ho; [done|].
  inv Ho as [|? ? H1 H2]. unfold attempts. cbn [foldl]. fold (attempts os (attempt t o)).
  assert (Ha : table_ok (restoredBy calls) (attempt t o) /\ ownId (attempt t o) = ownId t).
  { destruct (decide (throws o)) as [Hb|Hb].
    - unfold attempt. destruct (exec_throws o t Hb) as [e ->]. done.
    - destruct (table_exec_ok (restoredBy calls) o t Ht H1) as (t1 & E & Ht1 & E1).
      + intros s ->. destruct (decide (len (selfId s) = HASH_LENGTH)) as [Hs|Hs]; [|exfalso; apply Hb; by exists s].
        split; [done|]. apply restoredBy_intro, Hsub. left.
      + unfold attempt. by rewrite E. }
  destruct Ha as [Ha Eo]. destruct (IH (attempt t o)) as [H3 E3]; [set_solver|done|done|].
  split; [done|congruence].
Qed.

(** ** What a restart keeps *)

(** A bucket of a snapshot in the new table; a bucket without nodes is not
    known to have been active. *)
Definition restored (b : KadRoutingBucketSnapshot) : KadRoutingBucketSnapshot :=
  mkBucket (live b) (replacements b)
    (match live b ++ replacements b with [] => 0 | _ => Z.max 0 (lastActive b) end).

Definition grown (isLive : bool) (active : Z) (nodes : list KadRoutingNode) (b : KadRoutingBucketSnapshot) :
    KadRoutingBucketSnapshot :=
  let active := match nodes with [] => lastActive b | _ => Z.max (lastActive b) active end in
  if isLive then mkBucket (live b ++ nodes) (replacements b) active
  else mkBucket (live b) (replacements b ++ nodes) active.

Lemma grown_cons isLive active node nodes b :
  grown isLive active (node :: nodes) b =
    grown isLive active nodes (grown isLive active [node] b).
Proof.
  destruct b as [l r a], isLive, nodes; unfold grown; simpl; f_equal; rewrite <- ?app_assoc; try done; lia.
Qed.

Lemma restoreNodes_exact (isLive : bool) active nodes t i b :
  tableBuckets t !! i = Some b ->
  Forall (fun n => bucketIndex (ownId t) (contactId (contact n)) = Ok (Z.of_nat i)) nodes ->
  len (if isLive then live b else replacements b) + len nodes <= bucketSize t ->
  restoreNodes isLive active nodes t =
    Ok (with_buckets (<[i := grown isLive active nodes b]> (tableBuckets t)) t).
Proof.
  revert t b. induction nodes as [|node nodes IH]; intros t b Hb Hn Hl; cbn [restoreNodes].
  { rewrite list_insert_id; [by destruct t|]. rewrite Hb. unfold grown.
    destruct b, isLive; simpl; by rewrite app_nil_r. }
  inv Hn as [|? ? H1 H2]. rewrite (proj2 (validId_spec _)) by (by eapply bucketIndex_valid).
  cbn [negb]. rewrite H1. monad. unfold atBucket. rewrite Nat2Z.id, Hb. monad.
  rewrite len_cons in Hl. pose proof (len_nonneg nodes).
  assert (Hp : place (bucketSize t) isLive active node b = grown isLive active [node] b).
  { unfold place, grown. destruct isLive; cbn [andb]; by rewrite (proj2 (Z.ltb_lt _ _)) by lia. }
  rewrite Hp. apply lookup_lt_Some in Hb as Hlt.
  rewrite (IH _ (grown isLive active [node] b)).
  - cbn [tableBuckets with_buckets]. by rewrite list_insert_insert_eq, (grown_cons isLive active node nodes b).
  - cbn [tableBuckets with_buckets]. by rewrite list_lookup_insert_eq.
  - done.
  - simpl. destruct isLive; simpl; rewrite len_app, len_cons, len_nil; lia.
Qed.

Lemma grown_restored b :
  grown false (lastActive b) (replacements b) (grown true (lastActive b) (live b) emptyBucket) = restored b.
Proof.
  destruct b as [l r a]. unfold grown, restored, emptyBucket. cbn [live replacements lastActive].
  f_equal. destruct l, r; simpl; lia.
Qed.

(** The buckets of a snapshot lie where they belong, from bucket [k] on. *)
Definition placed (self : bytes) (size : Z) (k : nat) (bs : list KadRoutingBucketSnapshot) : Prop :=
  forall j b, bs !! j = Some b ->
    len (live b) <= size /\ len (replacements b) <= size /\
    Forall (fun n => bucketIndex self (contactId (contact n)) = Ok (Z.of_nat (k + j))) (live b ++ replacements b).

Lemma restoreBuckets_exact bs pre rest t :
  tableBuckets t = pre ++ replicate (length bs) emptyBucket ++ rest ->
  placed (ownId t) (bucketSize t) (length pre) bs ->
  restoreBuckets bs t = Ok (with_buckets (pre ++ (restored <$> bs) ++ rest) t).
Proof.
  revert pre t. induction bs as [|b bs IH]; intros pre t Ht Hp; cbn [restoreBuckets].
  { destruct t. simpl in *. by subst. }
  destruct (Hp 0%nat b eq_refl) as (H1 & H2 & H3). rewrite Nat.add_0_r in H3.
  apply Forall_app in H3 as [H3 H4]. cbn [length replicate] in Ht.
  assert (Hl : tableBuckets t !! length pre = Some emptyBucket).
  { rewrite Ht, lookup_app_r, Nat.sub_diag by done. done. }
  rewrite (restoreNodes_exact true _ _ t (length pre) emptyBucket) by (done || (simpl; rewrite len_nil; lia)).
  monad. set (t1 := with_buckets _ t).
  rewrite (restoreNodes_exact false _ _ t1 (length pre) (grown true (lastActive b) (live b) emptyBucket)).
  - monad. unfold t1. rewrite grown_restored. cbn [tableBuckets with_buckets]. rewrite list_insert_insert_eq.
    rewrite Ht, insert_app_r_alt, Nat.sub_diag by done. cbn [insert list_insert].
    rewrite (IH (pre ++ [restored b])); [simpl; by rewrite <- app_assoc| |].
    + simpl. by rewrite <- app_assoc.
    + cbn [ownId bucketSize with_buckets]. intros j b' Hj. rewrite length_app. simpl.
      specialize (Hp (S j) b' Hj). by replace (length pre + 1 + j)%nat with (length pre + S j)%nat by lia.
  - unfold t1. simpl. apply list_lookup_insert_eq. by eapply lookup_lt_Some.
  - done.
  - unfold t1. simpl. rewrite len_nil. lia.
Qed.

Lemma placed_saved self size bs : placed self size 0 bs -> placed self size 0 (savedBucket <$> bs).
Proof.
  intros Hp j b Hj. apply list_lookup_fmap_Some in Hj as (b0 & -> & Hb).
  destruct (Hp j b0 Hb) as (H1 & H2 & H3). unfold savedBucket. cbn [live replacements].
  unfold len in *. rewrite !length_fmap. split; [done|]. split; [done|].
  rewrite <- fmap_app. apply Forall_fmap. eapply Forall_impl; [exact H3|]. done.
Qed.

Lemma table_placed saved t : table_ok saved t -> placed (ownId t) (bucketSize t) 0 (tableBuckets t).
Proof.
  intros [H1 H2 H3 H4] j b Hj. destruct (H4 j b Hj) as [G1 G2 G3]. split; [done|]. split; [done|].
  eapply Forall_impl; [exact G3|]. by intros n [Hn _].
Qed.

(** ** Quiet buckets *)

Definition quiet (now : Z) (b : KadRoutingBucketSnapshot) : Prop :=
  lastActive b <> 0 /\ 900 <= now - lastActive b.

Lemma quiet_spec now b : ((lastActive b =? 0) || (now - lastActive b <? 900)) = false <-> quiet now b.
Proof. unfold quiet. rewrite orb_false_iff, Z.eqb_neq, Z.ltb_ge. lia. Qed.

(** The loop keeps the least [lastActive] of the quiet buckets it has seen. *)
Lemma oldestBucket_least now l : forall index oldest i active,
  oldestBucket now index oldest l = Some (i, active) ->
  Forall (fun b => quiet now b -> active <= lastActive b) l /\
  (forall j v, oldest = Some (j, v) -> active <= v).
Proof.
  induction l as [|b l IH]; intros index oldest i active; cbn [oldestBucket].
  - intros ->. split; [constructor|]. intros j v [= -> ->]. done.
  - intros Ho. apply IH in Ho as [H1 H2]. destruct (_ || _) eqn:Eq.
    { split; [constructor; [|done]|done]. intros Hq%quiet_spec. congruence. }
    apply quiet_spec in Eq. destruct oldest as [[j v]|].
    + destruct (Z.ltb_spec (lastActive b) v).
      * specialize (H2 _ _ eq_refl). split; [by constructor|]. intros ? ? [= -> ->]. lia.
      * specialize (H2 _ _ eq_refl). split; [constructor; [lia|done]|]. intros ? ? [= -> ->]. done.
    + specialize (H2 _ _ eq_refl). split; [by constructor|done].
Qed.

(** Where the search has come to at [now] and at a later time. *)
Definition in_step (now : Z) (early late : option (Z * Z)) : Prop :=
  match early with
  | Some (i, v) => late = early /\ v <= now - 900
  | None => match late with Some (_, v) => now - 900 < v | None => True end
  end.

Lemma oldestBucket_later now later l : now <= later -> forall index early late,
  in_step now early late ->
  in_step now (oldestBucket now index early l) (oldestBucket later index late l).
Proof.
  intros Hle. induction l as [|b l IH]; intros index early late Hs; cbn [oldestBucket]; [done|].
  apply IH. clear IH. unfold in_step in *.
  destruct (Z.eqb_spec (lastActive b) 0); cbn [orb]; [done|].
  destruct (Z.ltb_spec (now - lastActive b) 900), (Z.ltb_spec (later - lastActive b) 900); try lia.
  - done.
  - destruct early as [[i v]|].
    + destruct Hs as [-> Hv]. destruct (Z.ltb_spec (lastActive b) v); [lia|done].
    + destruct late as [[j w]|]; [|lia]. destruct (_ <? _); lia.
  - destruct early as [[i v]|].
    + destruct Hs as [-> Hv]. destruct (Z.ltb_spec (lastActive b) v); (split; [done|lia]).
    + destruct late as [[j w]|]; [|split; [done|lia]].
      destruct (Z.ltb_spec (lastActive b) w); [split; [done|lia]|lia].
Qed.

(** ** Theorems *)

(** C8. The routing table keeps its shape. It starts empty under any 16-byte id
    of ours; then the calls run in any order, a restore of any snapshot among
    them. Afterwards there are 139 buckets, each holds at most [bucketSize_]
    live nodes and as many replacements, and every node lies in the bucket of
    its distance, so that no operation reaches outside the buckets. Every node
    is a usable contact other than ourselves, or was restored from a snapshot,
    which [restore] does not check. No further call throws but [restore], and
    that exactly when the own id of the snapshot does not have 16 bytes. *)
Theorem routing_table_invariant self size calls :
  len self = HASH_LENGTH -> 0 <= size -> Forall words_ok calls ->
  exists t, create self size = Ok t /\ table_ok (restoredBy calls) (attempts calls t) /\
    ownId (attempts calls t) = self /\
    forall o, words_ok o ->
      ((exists e, exec o (attempts calls t) = Err e) <-> throws o).
Proof.
  intros Hs Hz Hc. unfold create. rewrite validateId_ok by done. monad.
  set (t := mkTable self _ _ _ _ _ _ _). exists t. split; [done|].
  assert (Ht : forall saved, table_ok saved t) by (intros; apply empty_ok; [done|destruct (Z.eqb_spec size 0); lia]).
  destruct (table_attempts_ok calls calls t) as [Hok Eo]; [done..|]. split; [done|]. split; [done|].
  intros o Ho. split; [|by apply exec_throws]. intros [e He].
  destruct (decide (throws o)) as [|Hn]; [done|exfalso].
  destruct (table_exec_ok (fun _ => True) o (attempts calls t)) as (t' & E & _); [by eapply table_ok_impl|done| |congruence].
  intros s ->. split; [destruct (decide (len (selfId s) = HASH_LENGTH)); [done|exfalso; apply Hn; by exists s]|].
  by repeat (apply Forall_forall; intros).
Qed.

(** C24. [findClosestExcluding] answers with the closest nodes: the eligible live
    nodes in the order of their XOR distance from the target, cut off at the
    limit. *)
Theorem find_closest_exact saved target excluded limit unconfirmed t :
  table_ok saved t -> len target = HASH_LENGTH -> excluded = [] \/ len excluded = HASH_LENGTH ->
  exists nodes,
    findClosestExcluding target excluded limit unconfirmed t =
      Ok (contact <$> (if 0 <? limit then take (Z.to_nat limit) nodes else nodes)) /\
    nodes ≡ₚ List.filter (eligible excluded unconfirmed) (liveNodes t) /\
    StronglySorted (fun a b => distance (contactId (contact a)) target <= distance (contactId (contact b)) target) nodes.
Proof.
  intros Ht Htar Hex. unfold findClosestExcluding. rewrite (validateId_ok target) by done.
  assert (He : (if bool_decide (excluded = []) then mret tt else validateId excluded) = Ok tt).
  { case_bool_decide; [done|]. destruct Hex; [done|by apply validateId_ok]. }
  rewrite He. monad.
  destruct (sortBy_ok (fun lhs rhs =>
    match distanceCompare (contactId (contact lhs)) (contactId (contact rhs)) target with
    | Ok order => Ok (order <? 0) | Err e => Err e end)
    (fun n => distance (contactId (contact n)) target)
    (List.filter (eligible excluded unconfirmed) (liveNodes t))) as (nodes & Hn & Hp & Hs).
  { assert (Hv : forall n, n ∈ List.filter (eligible excluded unconfirmed) (liveNodes t) ->
      len (contactId (contact n)) = HASH_LENGTH).
    { intros n. rewrite list_elem_of_In, filter_In, <- list_elem_of_In. intros [Hin _].
      apply list_elem_of_bind in Hin as (b & Hn & (i & Hb)%list_elem_of_lookup).
      destruct (table_buckets _ _ Ht i b Hb) as [_ _ G]. rewrite Forall_forall in G.
      destruct (G n) as [Hx _]; [set_solver|]. by eapply bucketIndex_valid. }
    intros x y Hx Hy. destruct (distanceCompare_ok (contactId (contact x)) (contactId (contact y)) target)
      as (order & -> & <-); auto. }
  exists nodes. rewrite Hn. split; [|done]. do 2 f_equal.
  destruct (0 <? limit) eqn:E1; cbn [andb]; [|done].
  destruct (Z.ltb_spec limit (len nodes)); [done|]. symmetry. apply take_ge. unfold len in *. lia.
Qed.

(** What a lookup refreshes: [needRefresh] asks for our own id, or for a
    random id that falls into the bucket which was quiet for the longest time,
    whatever the random words are. *)
Lemma refresh_targets_oldest_bucket saved now random t :
  table_ok saved t -> length random = 4%nat -> Forall (fun x => 0 <= x < 2 ^ 32) random ->
  exists target t', needRefresh now random t = Ok (target, t') /\
    (target = None \/ target = Some (ownId t) \/
     exists id index active, target = Some id /\ bucketIndex (ownId t) id = Ok index /\
       oldestBucket now 0 None (tableBuckets t) = Some (index, active) /\
       Forall (fun b => quiet now b -> active <= lastActive b) (tableBuckets t)).
Proof.
  intros Ht Hl Hr. destruct (needRefresh_ok saved now random t Ht Hl Hr) as ([target t'] & E & _ & _ & Hc).
  exists target, t'. split; [done|]. destruct Hc as [Hc|[Hc|(id & index & active & H1 & _ & _ & H2 & H3)]]; [auto..|].
  right. right. exists id, index, active. split; [done|]. split; [done|]. split; [done|].
  by apply (oldestBucket_least _ _ _ _ _ _ H2).
Qed.

Lemma table_hasRoom saved alloc other t :
  table_ok saved t -> (forall n, 0 <= n <= bucketSize t -> alloc n = true) ->
  Forall (hasRoom alloc) (buckets (snapshot other t)).
Proof.
  intros Ht Ha. apply Forall_forall. intros b [i Hi]%list_elem_of_lookup.
  destruct (table_buckets _ _ Ht i b Hi) as [G1 G2 _].
  split; apply Ha; (split; [apply len_nonneg|done]).
Qed.

Lemma restart_exact saved alloc other old t t0 :
  table_ok saved t -> snapshot_ok (snapshot other t) -> (forall n, 0 <= n <= bucketSize t -> alloc n = true) ->
  ownId t0 = ownId t -> bucketSize t0 = bucketSize t ->
  exists payload s t',
    createKadRoutingStatePayload (snapshot other t) = Ok payload /\
    parseKadRoutingStatePayload alloc old payload = Ok (true, s) /\
    restore s t0 = Ok t' /\
    tableBuckets t' = (fun b => restored (savedBucket b)) <$> tableBuckets t /\
    tableRouterContacts t' = tableRouterContacts t /\
    tableRouterNodes t' = (fun e => mkEndpoint (host e) (port e) 0 []) <$> tableRouterNodes t /\
    (tableLastBootstrap t', tableLastRefresh t', tableLastSelfRefresh t') =
    (tableLastBootstrap t, tableLastRefresh t, tableLastSelfRefresh t).
Proof.
  intros Ht Hs Ha Ho Hz. destruct (snapshot_read alloc (snapshot other t) old Hs (table_hasRoom _ _ _ _ Ht Ha)) as (payload & H1 & H2).
  exists payload, (savedSnapshot (snapshot other t)). unfold restore.
  change (selfId (savedSnapshot (snapshot other t))) with (ownId t).
  rewrite validateId_ok by (by destruct Ht). monad.
  rewrite (restoreBuckets_exact _ [] []).
  - eexists. split; [done|]. split; [done|]. split; [reflexivity|].
    cbn [tableBuckets with_buckets savedSnapshot snapshot buckets]. rewrite app_nil_l, app_nil_r.
    split; [by rewrite <- list_fmap_compose|done].
  - cbn [tableBuckets]. rewrite app_nil_l, app_nil_r. f_equal.
    cbn [savedSnapshot snapshot buckets]. rewrite length_fmap. by destruct Ht as [_ _ -> _].
  - cbn [ownId bucketSize savedSnapshot snapshot buckets length]. rewrite Ho, Hz.
    apply placed_saved. by eapply table_placed.
Qed.

(** C25. A routing table survives a restart: what [snapshot] saves to the file is
    read back and put by [restore] into the same buckets, in the same order,
    with the same routers. Only the UDP keys of the nodes, the options of router
    endpoints and the times of empty buckets are lost. The loading side needs
    memory for the nodes of a bucket, as its size is reserved. *)
Theorem routing_table_survives_restart saved alloc other old t t0 :
  table_ok saved t -> snapshot_ok (snapshot other t) -> (forall n, 0 <= n <= bucketSize t -> alloc n = true) ->
  ownId t0 = ownId t -> bucketSize t0 = bucketSize t ->
  exists payload s t',
    createKadRoutingStatePayload (snapshot other t) = Ok payload /\
    parseKadRoutingStatePayload alloc old payload = Ok (true, s) /\
    restore s t0 = Ok t' /\
    tableBuckets t' = (fun b => restored (savedBucket b)) <$> tableBuckets t /\
    tableRouterContacts t' = tableRouterContacts t /\
    tableRouterNodes t' = (fun e => mkEndpoint (host e) (port e) 0 []) <$> tableRouterNodes t /\
    (tableLastBootstrap t', tableLastRefresh t', tableLastSelfRefresh t') =
    (tableLastBootstrap t, tableLastRefresh t, tableLastSelfRefresh t).
Proof. apply restart_exact. Qed.

(** After a restart of the host, a restored table is not refreshed. The
    times of the table are those of a clock that starts with the host
    ([Clock], a [steady_clock]), yet they are saved and restored: until the
    new clock has passed the old one, [needRefresh] asks for nothing. *)
Lemma restored_table_waits_for_old_clock saved alloc other old t t0 :
  table_ok saved t -> snapshot_ok (snapshot other t) -> (forall n, 0 <= n <= bucketSize t -> alloc n = true) -> ownId t0 = ownId t -> bucketSize t0 = bucketSize t ->
  tableLastRefresh t <> 0 -> tableLastSelfRefresh t <> 0 ->
  exists payload s t',
    createKadRoutingStatePayload (snapshot other t) = Ok payload /\
    parseKadRoutingStatePayload alloc old payload = Ok (true, s) /\
    restore s t0 = Ok t' /\
    forall now random, now < tableLastRefresh t + 45 -> now < tableLastSelfRefresh t + 900 ->
      needRefresh now random t' = Ok (None, t').
Proof.
  intros Ht Hs Ha Ho Hz Hr Hsr. destruct (restart_exact saved alloc other old t t0 Ht Hs Ha Ho Hz)
    as (payload & s & t' & H1 & H2 & H3 & _ & _ & _ & E). injection E as _ E1 E2.
  exists payload, s, t'. split_and!; [done..|]. intros now random Hn Hn'. unfold needRefresh. rewrite E1, E2.
  destruct (Z.eqb_spec (tableLastSelfRefresh t) 0); [done|]. destruct (Z.leb_spec 900 (now - tableLastSelfRefresh t)); [lia|].
  destruct (Z.eqb_spec (tableLastRefresh t) 0); [done|]. destruct (Z.ltb_spec (now - tableLastRefresh t) 45); [|lia]. done.
Qed.

(** A bucket that gets no answer keeps all refreshes to itself: the bucket
    that [needRefresh] picked is the one it picks again, at any later time, as
    long as no contact was added, since picking a bucket does not make it
    active. *)
Lemma refresh_repeats_bucket saved now later random random' id t t' :
  table_ok saved t -> length random' = 4%nat -> Forall (fun x => 0 <= x < 2 ^ 32) random' ->
  length random = 4%nat -> Forall (fun x => 0 <= x < 2 ^ 32) random ->
  needRefresh now random t = Ok (Some id, t') -> id <> ownId t -> 0 < now -> now + 45 <= later ->
  later - tableLastSelfRefresh t < 900 ->
  exists id' t'', needRefresh later random' t' = Ok (Some id', t'') /\
    bucketIndex (ownId t) id' = bucketIndex (ownId t) id.
Proof.
  intros Ht Hl' Hr' Hl Hr Hn Hid Hpos Hle Hself.
  destruct (needRefresh_ok saved now random t Ht Hl Hr) as ([target t1] & E & _ & _ & Hc).
  rewrite Hn in E. simplify_eq/=.
  destruct Hc as [?|[?|(id1 & index & active & ? & Hdue & -> & Hold & Hidx)]]; [done|congruence|]. simplify_eq.
  pose proof (oldestBucket_later now later (tableBuckets t) ltac:(lia) 0 None None I) as Hstep.
  rewrite Hold in Hstep. destruct Hstep as [Hlater _].
  set (t1 := with_times _ now _ t). rewrite Hidx.
  destruct (needRefresh_bucket saved later random' t1 index active) as (id' & Hi & E'); [|done..| |done|].
  - by eapply table_ok_same; [..|exact Ht].
  - unfold bucketDue in *. apply andb_true_iff in Hdue as [Hd%negb_true_iff _].
    apply orb_false_iff in Hd as [Hd1 _]. unfold t1. cbn [tableLastSelfRefresh tableLastRefresh with_times].
    rewrite Hd1, (proj2 (Z.leb_gt 900 _)), (proj2 (Z.ltb_ge (later - now) 45)) by lia.
    by rewrite andb_false_r.
  - exists id'. eexists. by split.
Qed.

End KadRouting.

Module KadRoutingExamples.
Import Bytes Wire Packet KadProtocol KadRouting.

Definition self : bytes := replicate 16 7.
(** An id whose first word differs from ours in the bits of [x]. *)
Definition idAt (x : Z) : bytes := packUInt32 (Z.lxor 0x07070707 x) ++ replicate 12 7.
Definition peer (x : Z) : KadContact := mkContact (idAt x) (str "10.0.0.1") (4000 + x mod 1000) 4662 8 0.

Definition calls : list call :=
  [NodeSeen (peer 0xf0000000) 100; HeardAbout (peer 5) 200; NodeSeen (peer 9) 300;
   NodeFailed (peer 5); Bootstrap 400; Refresh 500 [1; 2; 3; 4];
   Refresh 1250 [1; 2; 3; 4]].

Lemma calls_ok : Forall words_ok calls.
Proof. repeat constructor; lia. Qed.

Definition fresh : KadRoutingTable :=
  mkTable self 10 (replicate (Z.to_nat bucketCount) emptyBucket) [] [] 0 0 0.
Definition table : KadRoutingTable := attempts calls fresh.

Lemma aTable_ok : table_ok (restoredBy calls) table.
Proof. by apply table_attempts_ok; [|apply empty_ok|apply calls_ok]. Qed.

(** A snapshot with an unusable node (port 0) and an id too short to place. *)
Definition doubtful : KadRoutingSnapshot :=
  mkSnapshot self [mkBucket [mkNode (mkContact (idAt 3) [] 0 0 8 0) true false 0 1 1;
    mkNode (mkContact [1] [] 0 0 8 0) true false 0 1 1] [] 1] [] [] 0 0 0 0 0 0 0 0 [] true.
Definition nameless : KadRoutingSnapshot := mkSnapshot [1] [] [] [] 0 0 0 0 0 0 0 0 [] true.

(** The first is restored without its second node, the other is refused. *)
Lemma routing_table_invariant_witness :
  (exists t, create self 10 = Ok t /\
    table_ok (restoredBy (Restore doubtful :: Restore nameless :: calls))
      (attempts (Restore doubtful :: Restore nameless :: calls) t)) /\
  liveSize (attempts (Restore doubtful :: Restore nameless :: calls) fresh) = 3 /\
  throws (Restore nameless).
Proof.
  split; [|split; [vm_compute; reflexivity|exists nameless; split; [reflexivity|discriminate]]].
  destruct (routing_table_invariant self 10 (Restore doubtful :: Restore nameless :: calls)) as (t & E & Hok & _);
    [reflexivity|lia|repeat constructor; lia|].
  exists t. split; [exact E|exact Hok].
Defined.

(** Two nodes are left, the closer one first. *)
Lemma find_closest_exact_witness :
  (exists nodes, findClosestExcluding (idAt 8) [] 1 false table = Ok (contact <$> take 1 nodes) /\
    nodes ≡ₚ List.filter (eligible [] false) (liveNodes table)) /\
  findClosest (idAt 8) 0 false table = Ok [peer 9; peer 0xf0000000].
Proof.
  split; [|vm_compute; reflexivity].
  destruct (find_closest_exact (restoredBy calls) (idAt 8) [] 1 false table) as (nodes & H1 & H2 & _);
    [apply aTable_ok|reflexivity|by left|].
  exists nodes. split; [exact H1|exact H2].
Defined.

Lemma refresh_targets_oldest_bucket_witness :
  exists target t', needRefresh 1300 [1; 2; 3; 4] table = Ok (target, t').
Proof.
  destruct (refresh_targets_oldest_bucket (restoredBy calls) 1300 [1; 2; 3; 4] table) as (target & t' & H & _);
    [apply aTable_ok|reflexivity|repeat constructor; lia|].
  exists target, t'. exact H.
Defined.

Definition other : KadRoutingSnapshot := mkSnapshot [] [] [] [] 0 0 0 0 0 0 0 0 [] true.

Lemma table_holds :
  tableBuckets table =
    replicate 14 emptyBucket ++ [mkBucket [mkNode (peer 0xf0000000) true false 0 100 100] [] 100] ++
    replicate 24 emptyBucket ++ [mkBucket [mkNode (peer 9) true false 0 300 300] [] 300; mkBucket [] [] 200] ++
    replicate 98 emptyBucket.
Proof. vm_compute. reflexivity. Qed.

Lemma snapshot_is_ok : snapshot_ok (snapshot other table).
Proof.
  assert (Hn : forall x t, x = 9 \/ x = 0xf0000000 -> t = 100 \/ t = 300 ->
    bucket_ok (mkBucket [mkNode (peer x) true false 0 t t] [] t)).
  { intros x t [-> | ->] [-> | ->]; split_and!; try done; (apply Forall_cons; split; [by split_and!|by apply Forall_nil]). }
  assert (He : forall n, Forall bucket_ok (replicate n emptyBucket)).
  { intros n. apply Forall_replicate. split_and!; try done; apply Forall_nil; done. }
  unfold snapshot_ok. cbn [buckets snapshot]. rewrite table_holds. split_and!; try done.
  1-2: repeat (apply Forall_cons; split; [cbv beta; vm_compute; split; [discriminate|reflexivity]|]); by apply Forall_nil.
  - rewrite !Forall_app. split_and!; [apply He| |apply He| |apply He].
    + apply Forall_cons. split; [auto|by apply Forall_nil].
    + apply Forall_cons. split; [auto|]. apply Forall_cons. split; [|by apply Forall_nil].
      split_and!; try done; by apply Forall_nil.
Qed.

Lemma granted n : 0 <= n <= bucketSize table -> (n <=? 10) = true.
Proof. change (bucketSize table) with 10. lia. Qed.

Lemma routing_table_survives_restart_witness :
  exists payload s t',
    createKadRoutingStatePayload (snapshot other table) = Ok payload /\
    parseKadRoutingStatePayload (fun n => n <=? 10) other payload = Ok (true, s) /\ restore s fresh = Ok t'.
Proof.
  destruct (routing_table_survives_restart (restoredBy calls) (fun n => n <=? 10) other other table fresh)
    as (payload & s & t' & H1 & H2 & H3 & _); [apply aTable_ok|apply snapshot_is_ok|apply granted|reflexivity..|].
  exists payload, s, t'. split; [exact H1|]. split; [exact H2|exact H3].
Defined.

(** The table was refreshed at 1250 last; at 7 of a new clock it waits. *)
Lemma restored_table_waits_for_old_clock_witness :
  exists payload s t',
    createKadRoutingStatePayload (snapshot other table) = Ok payload /\
    parseKadRoutingStatePayload (fun n => n <=? 10) other payload = Ok (true, s) /\ restore s fresh = Ok t' /\
    needRefresh 7 [1; 2; 3; 4] t' = Ok (None, t').
Proof.
  destruct (restored_table_waits_for_old_clock (restoredBy calls) (fun n => n <=? 10) other other table fresh)
    as (payload & s & t' & H1 & H2 & H3 & H4);
    [apply aTable_ok|apply snapshot_is_ok|apply granted|reflexivity|reflexivity|vm_compute; discriminate|vm_compute; discriminate|].
  exists payload, s, t'. split; [exact H1|]. split; [exact H2|]. split; [exact H3|].
  apply H4; vm_compute; reflexivity.
Defined.

(** At 1300 the far bucket was quiet for 1200 seconds, and again at 1350. *)
Definition refreshed : result (option bytes * KadRoutingTable) := needRefresh 1300 [1; 2; 3; 4] table.

Lemma refresh_repeats_bucket_witness :
  exists id t' id' t'', refreshed = Ok (Some id, t') /\ needRefresh 1350 [5; 6; 7; 8] t' = Ok (Some id', t'') /\
    bucketIndex self id' = bucketIndex self id.
Proof.
  destruct refreshed as [[[id|] t']|] eqn:E; [|vm_compute in E; discriminate E..].
  destruct (refresh_repeats_bucket (restoredBy calls) 1300 1350 [1; 2; 3; 4] [5; 6; 7; 8] id table t')
    as (id' & t'' & H1 & H2); [apply aTable_ok|reflexivity|repeat constructor; lia|reflexivity
      |repeat constructor; lia|exact E| |lia|lia|vm_compute; reflexivity|].
  - vm_compute in E. injection E as <- _. intros H. vm_compute in H. discriminate H.
  - exists id, t', id', t''. split; [reflexivity|]. split; [exact H1|exact H2].
Defined.

End KadRoutingExamples.
