(* ===== verification/KadTraversal.v ===== *)
(** * Kad lookups and transactions: [KadTraversal] and [KadTransactionTable] of
      [src/ed2k/KadRouting.h], [src/ed2k/KadRouting.cc]

    A lookup walks toward a target: it asks the closest contacts it knows for
    closer ones until the closest that did not fail have answered, and searches
    those that are close enough. The caller sends the requests that an
    operation returns and reports each answer or timeout once, which the table
    of open transactions makes sure of. [std::lower_bound] is modelled on the
    sorted vector it is called with, as the position of the first element that
    is not less. *)

From Stdlib Require Import String.
From S2P Require Import Prelude Bytes Wire Packet KadProtocol KadRouting.

Module KadTraversal.
Import Bytes Wire Packet KadProtocol KadRouting.

(** ** Data *)

Record Observer := mkObserver {
  ocontact : KadContact;
  queried : bool;
  alive : bool;
  failed : bool;
  searched : bool;
}.

(** [KadTraversalAction] *)
Inductive action :=
| FIND_NODE (c : KadContact)
| SEARCH (c : KadContact).

(** [searchable] is [None] for an empty [std::function]. *)
Record traversal := mkTraversal {
  targetId : bytes;
  searchable : option (KadContact -> bool);
  maxSearches : Z;
  branchFactor : Z;
  targetNodes : Z;
  inFlight : Z;
  extra : Z;
  queriedCount : Z;
  answered : Z;
  searches : Z;
  searchInFlight : Z;
  converged : bool;
  done_ : bool;
  observers : list Observer;
}.

Definition with_observers os tr := mkTraversal (targetId tr) (searchable tr) (maxSearches tr) (branchFactor tr) (targetNodes tr) (inFlight tr) (extra tr) (queriedCount tr) (answered tr) (searches tr) (searchInFlight tr) (converged tr) (done_ tr) os.
Definition with_asked n q tr := mkTraversal (targetId tr) (searchable tr) (maxSearches tr) (branchFactor tr) (targetNodes tr) n (extra tr) q (answered tr) (searches tr) (searchInFlight tr) (converged tr) (done_ tr) (observers tr).
Definition with_answered n tr := mkTraversal (targetId tr) (searchable tr) (maxSearches tr) (branchFactor tr) (targetNodes tr) (inFlight tr) (extra tr) (queriedCount tr) n (searches tr) (searchInFlight tr) (converged tr) (done_ tr) (observers tr).
Definition with_extra n tr := mkTraversal (targetId tr) (searchable tr) (maxSearches tr) (branchFactor tr) (targetNodes tr) (inFlight tr) n (queriedCount tr) (answered tr) (searches tr) (searchInFlight tr) (converged tr) (done_ tr) (observers tr).
Definition with_searches n f tr := mkTraversal (targetId tr) (searchable tr) (maxSearches tr) (branchFactor tr) (targetNodes tr) (inFlight tr) (extra tr) (queriedCount tr) (answered tr) n f (converged tr) (done_ tr) (observers tr).
Definition with_ending c d tr := mkTraversal (targetId tr) (searchable tr) (maxSearches tr) (branchFactor tr) (targetNodes tr) (inFlight tr) (extra tr) (queriedCount tr) (answered tr) (searches tr) (searchInFlight tr) c d (observers tr).

(** ** Operations *)

Definition create (target : bytes) (search : option (KadContact -> bool)) (max branch nodes : Z) : result traversal :=
  _ ← validateId target;
  mret (mkTraversal target search max (if branch =? 0 then 3 else branch) (if nodes =? 0 then 8 else nodes)
    0 0 0 0 0 0 false false []).

Definition matches (c : KadContact) (o : Observer) : bool :=
  sameContact (ocontact o) c || sameContactEndpoint (ocontact o) c.

(** [find]: the observer, and those before and behind it. *)
Definition find (c : KadContact) (os : list Observer) : option (list Observer * Observer * list Observer) :=
  findSplit (matches c) os.

(** [if (inFlight_ > 0) --inFlight_] *)
Definition oneLess (n : Z) : Z := if 0 <? n then n - 1 else n.

Definition mayAsk (tr : traversal) (anyAnswered : bool) (o : Observer) : bool :=
  negb (searched o || (maxSearches tr <=? searches tr) ||
        match searchable tr with
        | None => true
        | Some test => negb anyAnswered && negb (test (ocontact o))
        end).

(** [search], for the observer at hand. *)
Definition search (anyAnswered : bool) (o : Observer) (tr : traversal) : traversal * Observer * list action :=
  if mayAsk tr anyAnswered o then
    (with_searches (searches tr + 1) (searchInFlight tr + 1) tr,
     mkObserver (ocontact o) (queried o) (alive o) (failed o) true, [SEARCH (ocontact o)])
  else (tr, o, []).

(** What a known contact learns from a new one. *)
Definition learn (c : KadContact) (o : Observer) : Observer :=
  let k := ocontact o in
  mkObserver
    (mkContact (contactId k) (contactHost k) (contactUdpPort k)
      (if contactTcpPort k =? 0 then contactTcpPort c else contactTcpPort k)
      (if contactVersion k =? 0 then contactVersion c else contactVersion k)
      (if contactUdpKey k =? 0 then contactUdpKey c else contactUdpKey k))
    (queried o) (alive o) (failed o) (searched o).

(** [lower_bound] and [insert]. *)
Fixpoint insertObserver (target : bytes) (o : Observer) (os : list Observer) : result (list Observer) :=
  match os with
  | [] => mret [o]
  | x :: os' =>
      order ← distanceCompare (contactId (ocontact x)) (contactId (ocontact o)) target;
      match order <? 0 with
      | true => os' ← insertObserver target o os'; mret (x :: os')
      | false => mret (o :: os)
      end
  end.

(** The loop that drops far contacts, from the back. *)
Fixpoint popFar (size : Z) (reversed : list Observer) : list Observer :=
  match reversed with
  | [] => []
  | o :: rest => if (128 <? size) && negb (queried o) then popFar (size - 1) rest else reversed
  end.
Definition trim (os : list Observer) : list Observer := reverse (popFar (len os) (reverse os)).

Definition addContact (c : KadContact) (tr : traversal) : result traversal :=
  if negb (validId (contactId c)) || bool_decide (contactHost c = []) || (contactUdpPort c =? 0) then mret tr
  else match find c (observers tr) with
       | Some (before, known, behind) => mret (with_observers (before ++ learn c known :: behind) tr)
       | None =>
           os ← insertObserver (targetId tr) (mkObserver c false false false false) (observers tr);
           mret (with_observers (trim os) tr)
       end.

Fixpoint addContacts (cs : list KadContact) (tr : traversal) : result traversal :=
  match cs with
  | [] => mret tr
  | c :: cs => tr ← addContact c tr; addContacts cs tr
  end.

(** The first loop of [nextActions]: the observers, the requests in flight, how
    many were sent, whether the walk converged, and the requests. *)
Fixpoint walk (nodes limit considered flight : Z) (os : list Observer) :
    list Observer * Z * Z * bool * list action :=
  match os with
  | [] => ([], flight, 0, true, [])
  | o :: rest =>
      if failed o then
        let '(rest, flight, asked, conv, actions) := walk nodes limit considered flight rest in
        (o :: rest, flight, asked, conv, actions)
      else if nodes <? considered + 1 then (os, flight, 0, true, [])
      else if alive o then
        let '(rest, flight, asked, conv, actions) := walk nodes limit (considered + 1) flight rest in
        (o :: rest, flight, asked, conv, actions)
      else if negb (queried o) && (flight <? limit) then
        let '(rest, flight, asked, _, actions) := walk nodes limit (considered + 1) (flight + 1) rest in
        (mkObserver (ocontact o) true (alive o) (failed o) (searched o) :: rest,
         flight, asked + 1, false, FIND_NODE (ocontact o) :: actions)
      else
        let '(rest, flight, asked, _, actions) := walk nodes limit (considered + 1) flight rest in
        (o :: rest, flight, asked, false, actions)
  end.

(** The last loop of [nextActions]: [considered] counts the answers. *)
Fixpoint searchClosest (considered : Z) (os : list Observer) (tr : traversal) :
    list Observer * traversal * list action :=
  match os with
  | [] => ([], tr, [])
  | o :: os =>
      if alive o then
        let '(tr, o, first) := if considered + 1 <=? targetNodes tr then search true o tr else (tr, o, []) in
        let '(os, tr, rest) := searchClosest (considered + 1) os tr in
        (o :: os, tr, first ++ rest)
      else let '(os, tr, rest) := searchClosest considered os tr in (o :: os, tr, rest)
  end.

Definition nextActions (tr : traversal) : list action * traversal :=
  if done_ tr || converged tr then ([], tr)
  else
    let '(os, flight, asked, conv, actions) :=
      walk (targetNodes tr) (branchFactor tr + extra tr) 0 (inFlight tr) (observers tr) in
    let tr := with_observers os (with_asked flight (queriedCount tr + asked) tr) in
    if negb conv then (actions, tr)
    else
      let '(os, tr, more) := searchClosest 0 os tr in
      (actions ++ more,
       with_ending true (done_ tr || (searchInFlight tr =? 0)) (with_observers os tr)).

Definition start (seeds : list KadContact) (tr : traversal) : result (list action * traversal) :=
  tr ← addContacts seeds tr; mret (nextActions tr).

Definition onResponse (c : KadContact) (closer : list KadContact) (tr : traversal) :
    result (list action * traversal) :=
  if done_ tr then mret ([], tr)
  else
    let '(tr, actions) :=
      match find c (observers tr) with
      | Some (before, o, behind) =>
          if queried o && negb (alive o) then
            let o := mkObserver (ocontact o) (queried o) true false (searched o) in
            let tr := with_answered (answered tr + 1) (with_asked (oneLess (inFlight tr)) (queriedCount tr) tr) in
            let '(tr, o, actions) := search false o tr in
            (with_observers (before ++ o :: behind) tr, actions)
          else (tr, [])
      | None => (tr, [])
      end in
    tr ← addContacts closer tr;
    let '(next, tr) := nextActions tr in
    mret (actions ++ next, tr).

Definition onFailure (c : KadContact) (tr : traversal) : list action * traversal :=
  nextActions
    match find c (observers tr) with
    | Some (before, o, behind) =>
        if negb (failed o) && negb (alive o) then
          with_observers (before ++ mkObserver (ocontact o) (queried o) (alive o) true (searched o) :: behind)
            (with_asked (oneLess (inFlight tr)) (queriedCount tr) tr)
        else tr
    | None => tr
    end.

Definition stalled (tr : traversal) : list action * traversal :=
  nextActions (if extra tr <? 2 * branchFactor tr then with_extra (extra tr + 1) tr else tr).

Definition finishSearch (c : KadContact) (hasFailed : bool) (tr : traversal) : traversal :=
  let tr := match find c (observers tr) with
            | Some (before, o, behind) =>
                if hasFailed then
                  with_observers (before ++ mkObserver (ocontact o) (queried o) (alive o) true (searched o) :: behind) tr
                else tr
            | None => tr
            end in
  let tr := with_searches (searches tr) (oneLess (searchInFlight tr)) tr in
  if converged tr && (searchInFlight tr =? 0) then with_ending (converged tr) true tr else tr.

Definition onSearchResponse (c : KadContact) (tr : traversal) : traversal := finishSearch c false tr.
Definition onSearchFailure (c : KadContact) (tr : traversal) : traversal := finishSearch c true tr.

(** ** Transactions *)

Record KadTransaction := mkTransaction {
  endpoint : Endpoint;
  tcontact : KadContact;
  purpose : Z;
  expectedOpcode : Z;
  transactionTarget : bytes;
  sentTime : Z;
}.

Definition add (x : KadTransaction) (l : list KadTransaction) : list KadTransaction := l ++ [x].

(** Both overloads of [complete]; [target] is [None] for the first. *)
Definition complete (e : Endpoint) (opcode : Z) (target : option bytes) (l : list KadTransaction) :
    option (KadTransaction * list KadTransaction) :=
  '(before, x, behind) ← findSplit (fun item =>
    (expectedOpcode item =? opcode) &&
    match target with None => true | Some t => bool_decide (transactionTarget item = t) end &&
    sameEndpoint (endpoint item) e) l;
  Some (x, before ++ behind).

Fixpoint expire (now timeout : Z) (l : list KadTransaction) : list KadTransaction * list KadTransaction :=
  match l with
  | [] => ([], [])
  | x :: l =>
      let '(expired, kept) := expire now timeout l in
      if timeout <=? now - sentTime x then (x :: expired, kept) else (expired, x :: kept)
  end.

(** ** Lemmas on a specification *)

Definition count (p : Observer -> bool) (os : list Observer) : Z := len (List.filter p os).

Lemma count_cons p o os : count p (o :: os) = (if p o then 1 else 0) + count p os.
Proof. unfold count. simpl. destruct (p o); rewrite ?len_cons; lia. Qed.

Lemma count_app p os os' : count p (os ++ os') = count p os + count p os'.
Proof. unfold count. by rewrite List.filter_app, len_app. Qed.

Lemma count_nonneg p os : 0 <= count p os.
Proof. apply len_nonneg. Qed.

Lemma count_perm p os os' : os ≡ₚ os' -> count p os = count p os'.
Proof. induction 1; rewrite ?count_cons; lia. Qed.

(** A request without an answer, and a contact that has neither answered nor
    failed. *)
Definition outstanding (o : Observer) : bool := queried o && negb (alive o) && negb (failed o).
Definition pending (o : Observer) : bool := negb (alive o) && negb (failed o).

Definition oid (o : Observer) : bytes := contactId (ocontact o).
Definition oend (o : Observer) : bytes * Z := (contactHost (ocontact o), contactUdpPort (ocontact o)).

Record state_ok (o : Observer) : Prop := mkStateOk {
  so_alive : alive o = true -> queried o = true;
  so_failed : failed o = true -> queried o = true;
  so_searched : searched o = true -> alive o = true;
}.

Definition nearer (target : bytes) (a b : Observer) : Prop := distance (oid a) target <= distance (oid b) target.

(** The observers are sorted, known once, and in a proper state. *)
Record observers_ok (target : bytes) (os : list Observer) : Prop := mkObserversOk {
  oo_ids : Forall (fun o => len (oid o) = HASH_LENGTH) os;
  oo_sorted : StronglySorted (nearer target) os;
  oo_once : NoDup (oid <$> os);
  oo_ends : NoDup (oend <$> os);
  oo_states : Forall state_ok os;
}.

Record tr_ok (tr : traversal) : Prop := mkTrOk {
  ok_target : len (targetId tr) = HASH_LENGTH;
  ok_observers : observers_ok (targetId tr) (observers tr);
  ok_branch : 0 < branchFactor tr;
  ok_nodes : 0 < targetNodes tr;
  ok_extra : 0 <= extra tr <= 2 * branchFactor tr;
  ok_flight : inFlight tr = count outstanding (observers tr);
  ok_limit : inFlight tr <= branchFactor tr + extra tr;
  ok_searched : searches tr = count searched (observers tr);
  ok_max : searches tr <= maxSearches tr;
  ok_searching : 0 <= searchInFlight tr <= searches tr;
}.

(** Something is on its way until the lookup is done. *)
Definition busy (tr : traversal) : Prop :=
  done_ tr = false -> if converged tr then 0 < searchInFlight tr else 0 < inFlight tr.

(** ** Observers that change *)

(** Who an observer is does not change. *)
Definition same_keys (os os' : list Observer) : Prop := oid <$> os = oid <$> os' /\ oend <$> os = oend <$> os'.

Lemma same_keys_ok target os os' :
  same_keys os os' -> Forall state_ok os' -> observers_ok target os -> observers_ok target os'.
Proof.
  intros [Hi He] Hst [H1 H2 H3 H4 _]. split; [| |by rewrite <- Hi|by rewrite <- He|done].
  - apply (Forall_fmap oid (fun i => len i = HASH_LENGTH) os'). rewrite <- Hi. by apply Forall_fmap.
  - clear - H2 Hi. revert os' Hi. induction H2 as [|o os _ IH Ho]; intros os' Hi.
    + destruct os'; [constructor|done].
    + destruct os' as [|o' os']; [done|]. injection Hi as Ho' Hi. change (oid <$> os = oid <$> os') in Hi. constructor; [by apply IH|].
      unfold nearer. change (contactId (ocontact ?x)) with (oid x) in Ho'.
      apply (Forall_fmap oid (fun i => distance (oid o') target <= distance i target) os').
      rewrite <- Hi, <- Ho'. by apply Forall_fmap.
Qed.

(** Some that were never asked are asked now. *)
Definition ask (o : Observer) : Observer := mkObserver (ocontact o) true (alive o) (failed o) (searched o).

Inductive asks : list Observer -> list Observer -> list KadContact -> Prop :=
| asks_nil : asks [] [] []
| asks_keep o os os' cs : asks os os' cs -> asks (o :: os) (o :: os') cs
| asks_one o os os' cs :
    queried o = false -> pending o = true -> asks os os' cs ->
    asks (o :: os) (ask o :: os') (ocontact o :: cs).

Lemma asks_none os : asks os os [].
Proof. induction os; by constructor. Qed.

Lemma asks_keys os os' cs : asks os os' cs -> same_keys os os'.
Proof.
  induction 1 as [|o os os' cs _ [IH1 IH2]|o os os' cs _ _ _ [IH1 IH2]]; [done| |];
    split; rewrite !fmap_cons, ?IH1, ?IH2; done.
Qed.

Lemma asks_states os os' cs : asks os os' cs -> Forall state_ok os -> Forall state_ok os'.
Proof.
  induction 1 as [|o os os' cs _ IH|o os os' cs _ _ _ IH]; intros Hf; [done|inv Hf; constructor; auto..].
  destruct H1. by split.
Qed.

Lemma asks_counts os os' cs :
  asks os os' cs ->
  count outstanding os' = count outstanding os + len cs /\ count searched os' = count searched os /\
  count pending os' = count pending os.
Proof.
  induction 1 as [|o os os' cs _ (I1 & I2 & I3)|o os os' cs Hq Hp _ (I1 & I2 & I3)]; [done| |];
    rewrite ?count_cons, ?len_cons; [lia|].
  replace (outstanding (ask o)) with true by (symmetry; unfold outstanding, ask; simpl; by apply Hp).
  replace (outstanding o) with false by (unfold outstanding; by rewrite Hq).
  replace (pending (ask o)) with (pending o) by done. simpl. lia.
Qed.

(** The ids that were asked. *)
Definition asked (os : list Observer) : list bytes := oid <$> List.filter queried os.

Lemma asked_app os os' : asked (os ++ os') = asked os ++ asked os'.
Proof. unfold asked. by rewrite List.filter_app, fmap_app. Qed.

Lemma asked_perm os os' : os ≡ₚ os' -> asked os ≡ₚ asked os'.
Proof.
  unfold asked. induction 1 as [|o os os' _ IH|o o' os|os1 os2 os3 _ IH1 _ IH2]; simpl.
  - done.
  - destruct (queried o); [|done]. rewrite !fmap_cons. by rewrite IH.
  - destruct (queried o), (queried o'); rewrite ?fmap_cons; try done. apply Permutation_swap.
  - by etrans.
Qed.

Lemma asks_asked os os' cs : asks os os' cs -> asked os' ≡ₚ (contactId <$> cs) ++ asked os.
Proof.
  unfold asked. induction 1 as [|o os os' cs _ IH|o os os' cs Hq Hp _ IH]; [done| |]; simpl.
  - destruct (queried o); simpl; [|done]. rewrite IH. solve_Permutation.
  - rewrite Hq, IH. done.
Qed.

(** Some that answered are searched now. *)
Definition mark (o : Observer) : Observer := mkObserver (ocontact o) (queried o) (alive o) (failed o) true.

Inductive seeks : list Observer -> list Observer -> list KadContact -> Prop :=
| seeks_nil : seeks [] [] []
| seeks_keep o os os' cs : seeks os os' cs -> seeks (o :: os) (o :: os') cs
| seeks_one o os os' cs :
    alive o = true -> searched o = false -> seeks os os' cs ->
    seeks (o :: os) (mark o :: os') (ocontact o :: cs).

Lemma seeks_keys os os' cs : seeks os os' cs -> same_keys os os'.
Proof.
  induction 1 as [|o os os' cs _ [IH1 IH2]|o os os' cs _ _ _ [IH1 IH2]]; [done| |];
    split; rewrite !fmap_cons, ?IH1, ?IH2; done.
Qed.

Lemma seeks_states os os' cs : seeks os os' cs -> Forall state_ok os -> Forall state_ok os'.
Proof.
  induction 1 as [|o os os' cs _ IH|o os os' cs Ha _ _ IH]; intros Hf; [done|inv Hf; constructor; auto..].
  destruct H1. by split.
Qed.

Lemma seeks_counts os os' cs :
  seeks os os' cs ->
  count outstanding os' = count outstanding os /\ count searched os' = count searched os + len cs /\
  count pending os' = count pending os /\ asked os' = asked os.
Proof.
  unfold asked. induction 1 as [|o os os' cs _ (I1 & I2 & I3 & I4)|o os os' cs Ha Hs _ (I1 & I2 & I3 & I4)];
    [done| |]; rewrite ?count_cons, ?len_cons; simpl.
  - split_and!; [lia..|]. destruct (queried o); [|done]. rewrite !fmap_cons. by rewrite I4.
  - rewrite Hs. change (outstanding (mark o)) with (outstanding o). change (pending (mark o)) with (pending o).
    split_and!; [lia..|]. destruct (queried o); [|done]. rewrite !fmap_cons. by rewrite I4.
Qed.

Lemma search_spec any o tr tr' o' actions :
  search any o tr = (tr', o', actions) -> alive o = true ->
  exists cs, actions = SEARCH <$> cs /\ seeks [o] [o'] cs /\
    tr' = with_searches (searches tr + len cs) (searchInFlight tr + len cs) tr /\
    (searches tr <= maxSearches tr -> searches tr + len cs <= maxSearches tr).
Proof.
  unfold search. destruct (mayAsk tr any o) eqn:E; intros [= <- <- <-] Ha.
  - unfold mayAsk in E. apply negb_true_iff, orb_false_iff in E as [E _].
    apply orb_false_iff in E as [E1 E2%Z.leb_gt]. exists [ocontact o].
    split; [done|]. split; [apply (seeks_one o); [done|done|constructor]|]. split; [done|].
    unfold len. simpl. lia.
  - exists []. split; [done|]. split; [repeat constructor|]. split; [|rewrite len_nil; lia].
    destruct tr. unfold with_searches. simpl. by rewrite !len_nil, !Z.add_0_r.
Qed.

Lemma seeks_cons o o' os os' cs ds : seeks [o] [o'] cs -> seeks os os' ds -> seeks (o :: os) (o' :: os') (cs ++ ds).
Proof.
  intros H1 H2. inv H1 as [|? ? ? ? H3|? ? ? ? Ha Hs H3]; inv H3; by constructor.
Qed.

Lemma searchClosest_spec os : forall considered tr os' tr' actions,
  searchClosest considered os tr = (os', tr', actions) -> searches tr <= maxSearches tr ->
  exists cs, actions = SEARCH <$> cs /\ seeks os os' cs /\
    tr' = with_searches (searches tr + len cs) (searchInFlight tr + len cs) tr /\
    searches tr + len cs <= maxSearches tr.
Proof.
  assert (Hnone : forall tr, tr = with_searches (searches tr + len (@nil KadContact)) (searchInFlight tr + len (@nil KadContact)) tr).
  { intros []. unfold with_searches. simpl. by rewrite len_nil, !Z.add_0_r. }
  induction os as [|o os IH]; intros considered tr os' tr' actions; cbn [searchClosest].
  { intros [= <- <- <-] Hm. exists []. split_and!; [done|constructor|apply Hnone|rewrite len_nil; lia]. }
  destruct (alive o) eqn:Ea.
  - destruct (if considered + 1 <=? targetNodes tr then search true o tr else (tr, o, [])) as [[tr1 o1] first] eqn:E1.
    assert (H1 : exists cs, first = SEARCH <$> cs /\ seeks [o] [o1] cs /\
      tr1 = with_searches (searches tr + len cs) (searchInFlight tr + len cs) tr /\
      (searches tr <= maxSearches tr -> searches tr + len cs <= maxSearches tr)).
    { destruct (_ <=? _); [by eapply search_spec|]. injection E1 as <- <- <-. exists [].
      split_and!; [done|repeat constructor|apply Hnone|rewrite len_nil; lia]. }
    destruct H1 as (cs & -> & Hs1 & -> & Hm1).
    destruct (searchClosest (considered + 1) os _) as [[os2 tr2] rest] eqn:E2.
    intros [= <- <- <-] Hm. apply IH in E2 as (ds & -> & Hs2 & -> & Hm2); [|simpl; auto].
    exists (cs ++ ds). split; [by rewrite fmap_app|]. split; [by apply seeks_cons|].
    simpl in *. unfold with_searches. simpl. rewrite len_app, !Z.add_assoc. done.
  - destruct (searchClosest considered os tr) as [[os2 tr2] rest] eqn:E2. intros [= <- <- <-] Hm.
    apply IH in E2 as (ds & -> & Hs2 & -> & Hm2); [|done]. exists ds.
    split_and!; [done|by constructor|done|done].
Qed.

(** The closest contacts that did not fail have answered. *)
Definition reached (nodes : Z) (os : list Observer) : Prop :=
  Forall (fun o => alive o = true) (take (Z.to_nat nodes) (List.filter (fun o => negb (failed o)) os)).

Record walked (nodes limit considered flight : Z) (os os' : list Observer) (flight' : Z) (conv : bool)
    (cs : list KadContact) : Prop := mkWalked {
  w_asks : asks os os' cs;
  w_flight : flight' = flight + len cs;
  w_limit : flight <= limit -> flight' <= limit;
  w_converged : conv = true -> os' = os /\ cs = [] /\ reached (nodes - considered) os;
  w_busy : conv = false -> 0 <= flight -> 0 < limit -> 0 < flight' \/ 0 < count outstanding os';
}.

Lemma walked_stop nodes limit considered flight os :
  os = [] \/ nodes < considered + 1 -> walked nodes limit considered flight os os flight true [].
Proof.
  intros Hs. split; [apply asks_none|rewrite len_nil; lia|done| |done].
  intros _. split_and!; [done..|]. unfold reached. destruct Hs as [->|Hs].
  - simpl. rewrite take_nil. constructor.
  - replace (Z.to_nat (nodes - considered)) with 0%nat by lia. constructor.
Qed.

(** An observer that failed, and one that answered, are passed. *)
Lemma walked_pass nodes limit considered flight o os os' flight' conv cs :
  failed o = true \/ (failed o = false /\ alive o = true /\ considered + 1 <= nodes) ->
  walked nodes limit (if failed o then considered else considered + 1) flight os os' flight' conv cs ->
  walked nodes limit considered flight (o :: os) (o :: os') flight' conv cs.
Proof.
  intros Ho [H1 H2 H3 H4 H5]. split; [by constructor|done|done| |].
  - intros Hc. destruct (H4 Hc) as (-> & -> & Hr). split_and!; [done..|]. unfold reached in *. simpl.
    destruct (failed o) eqn:Ef; [done|]. simpl. destruct Ho as [?|(_ & Ha & Hn)]; [done|].
    replace (Z.to_nat (nodes - considered)) with (S (Z.to_nat (nodes - (considered + 1)))) by lia.
    simpl. by constructor.
  - intros Hc Hf Hl. destruct (H5 Hc Hf Hl); [by left|right]. rewrite count_cons. destruct (outstanding o); lia.
Qed.

Lemma walked_ask nodes limit considered flight o os os' flight' conv cs :
  queried o = false -> pending o = true -> flight < limit ->
  walked nodes limit (considered + 1) (flight + 1) os os' flight' conv cs ->
  walked nodes limit considered flight (o :: os) (ask o :: os') flight' false (ocontact o :: cs).
Proof.
  intros Hq Hp Hl [H1 H2 H3 _ _]. pose proof (len_nonneg cs).
  split; [by constructor|rewrite len_cons; lia|intros _; apply H3; lia|done|intros; left; lia].
Qed.

Lemma walked_wait nodes limit considered flight o os os' flight' conv cs :
  pending o = true -> queried o = true \/ limit <= flight ->
  walked nodes limit (considered + 1) flight os os' flight' conv cs ->
  walked nodes limit considered flight (o :: os) (o :: os') flight' false cs.
Proof.
  intros Hp Hq [H1 H2 H3 _ _]. pose proof (len_nonneg cs). pose proof (count_nonneg outstanding os').
  split; [by constructor|done|done|done|]. intros _ Hf Hl.
  destruct Hq as [Hq|Hq]; [right|left; lia]. rewrite count_cons.
  replace (outstanding o) with true; [lia|]. unfold outstanding. rewrite Hq. symmetry. exact Hp.
Qed.

Lemma walk_spec nodes limit os : forall considered flight os' flight' n conv actions,
  walk nodes limit considered flight os = (os', flight', n, conv, actions) ->
  exists cs, walked nodes limit considered flight os os' flight' conv cs /\
    actions = FIND_NODE <$> cs /\ n = len cs.
Proof.
  induction os as [|o os IH]; intros considered flight os' flight' n conv actions; cbn [walk].
  { intros [= <- <- <- <- <-]. exists []. split; [apply walked_stop; by left|done]. }
  destruct (failed o) eqn:Ef.
  { destruct (walk _ _ _ _ os) as [[[[os2 f2] n2] c2] a2] eqn:E.
    intros [= <- <- <- <- <-]. apply IH in E as (cs & Hw & -> & ->). exists cs. split; [|done].
    apply walked_pass; [by left|by rewrite Ef]. }
  destruct (Z.ltb_spec nodes (considered + 1)) as [Hn|Hn].
  { intros [= <- <- <- <- <-]. exists []. split; [apply walked_stop; by right|done]. }
  destruct (alive o) eqn:Ea.
  { destruct (walk _ _ _ _ os) as [[[[os2 f2] n2] c2] a2] eqn:E.
    intros [= <- <- <- <- <-]. apply IH in E as (cs & Hw & -> & ->). exists cs. split; [|done].
    apply walked_pass; [right; split_and!; [done..|lia]|by rewrite Ef]. }
  assert (Hp : pending o = true) by (unfold pending; by rewrite Ea, Ef).
  destruct (negb (queried o) && (flight <? limit)) eqn:Eq.
  - apply andb_true_iff in Eq as [Eq%negb_true_iff El%Z.ltb_lt].
    destruct (walk _ _ _ _ os) as [[[[os2 f2] n2] c2] a2] eqn:E.
    intros [= <- <- <- <- <-]. apply IH in E as (cs & Hw & -> & ->).
    exists (ocontact o :: cs). rewrite len_cons. split; [|split; [done|lia]].
    replace (mkObserver (ocontact o) true false false (searched o)) with (ask o) by (unfold ask; by rewrite Ea, Ef).
    by eapply walked_ask.
  - destruct (walk _ _ _ _ os) as [[[[os2 f2] n2] c2] a2] eqn:E.
    intros [= <- <- <- <- <-]. apply IH in E as (cs & Hw & -> & ->). exists cs. split; [|done].
    eapply walked_wait; [done| |done].
    apply andb_false_iff in Eq as [Eq%negb_false_iff|Eq%Z.ltb_ge]; [by left|by right].
Qed.

(** ** The next requests *)

(** What is left to do: it never grows but for new contacts. *)
Definition work (tr : traversal) : Z :=
  count pending (observers tr) + searchInFlight tr + 2 * (maxSearches tr - searches tr).

Definition find_id (a : action) : option bytes :=
  match a with FIND_NODE c => Some (contactId c) | SEARCH _ => None end.

Lemma find_ids_nodes (cs : list KadContact) : omap find_id (FIND_NODE <$> cs) = contactId <$> cs.
Proof. induction cs as [|c cs IH]; [done|]. cbn. f_equal. exact IH. Qed.
Lemma find_ids_searches (cs : list KadContact) : omap find_id (SEARCH <$> cs) = [].
Proof. by induction cs. Qed.

Lemma seeks_reached nodes os os' cs : seeks os os' cs -> reached nodes os -> reached nodes os'.
Proof.
  unfold reached. generalize (Z.to_nat nodes) as n. intros n H. revert n.
  induction H as [|o os os' cs _ IH|o os os' cs Ha Hs _ IH]; intros n; [done| |]; simpl;
    (destruct (failed o); simpl; [apply IH|]); (destruct n as [|n]; simpl; [done|]);
    intros Hf; inv Hf; constructor; auto.
Qed.

Lemma tr_ok_observers tr os :
  tr_ok tr -> observers_ok (targetId tr) os -> count outstanding os = inFlight tr ->
  count searched os = searches tr -> tr_ok (with_observers os tr).
Proof. intros [] Hos Ho Hs. by split. Qed.

Record advanced (tr : traversal) (actions : list action) (tr' : traversal) : Prop := mkAdvanced {
  adv_ok : tr_ok tr';
  adv_busy : busy tr';
  adv_work : work tr' <= work tr;
  adv_asked : asked (observers tr') ≡ₚ omap find_id actions ++ asked (observers tr);
  adv_reached : done_ tr = false -> converged tr = false -> converged tr' = true ->
    reached (targetNodes tr') (observers tr');
}.

Lemma nextActions_ok tr :
  tr_ok tr -> (converged tr = true -> busy tr) ->
  advanced tr (nextActions tr).1 (nextActions tr).2.
Proof.
  intros Hok Hb. unfold nextActions. destruct (done_ tr || converged tr) eqn:Ed.
  { split; simpl; [done| |lia|done|congruence]. intros Hd. rewrite Hd in Ed. simpl in Ed. by apply Hb. }
  apply orb_false_iff in Ed as [Ed Ec]. pose proof Hok as [K1 K2 K3 K4 K5 K6 K7 K8 K9 K10].
  destruct (walk _ _ _ _ _) as [[[[os flight] n] conv] actions] eqn:Ew.
  apply walk_spec in Ew as (cs & [W1 W2 W3 W4 W5] & -> & ->).
  destruct (asks_counts _ _ _ W1) as (C1 & C2 & C3). pose proof (count_nonneg outstanding (observers tr)).
  set (tr1 := with_observers os (with_asked flight (queriedCount tr + len cs) tr)).
  assert (Hok1 : tr_ok tr1).
  { split; simpl; try done; try lia.
    eapply same_keys_ok; [by eapply asks_keys|eapply asks_states; [done|by destruct K2]|done]. }
  destruct conv; cbn [negb].
  - destruct (W4 eq_refl) as (-> & -> & Hr). destruct (searchClosest 0 _ tr1) as [[os2 tr2] more] eqn:Es.
    apply searchClosest_spec in Es as (ds & -> & Hs & -> & Hm); [|done].
    destruct (seeks_counts _ _ _ Hs) as (D1 & D2 & D3 & D4). pose proof (len_nonneg ds). simpl in *.
    split; simpl.
    + split; simpl; try done; try lia.
      eapply same_keys_ok; [by eapply seeks_keys|eapply seeks_states; [done|by destruct K2]|done].
    + unfold busy. simpl. intros [_ Hn%Z.eqb_neq]%orb_false_iff. lia.
    + unfold work. simpl. lia.
    + rewrite D4, find_ids_searches. done.
    + intros _ _ _. rewrite Z.sub_0_r in Hr. by eapply seeks_reached.
  - split; simpl; [done| |unfold work; simpl; lia| |congruence].
    + unfold busy. simpl. rewrite Ec. intros _. destruct (W5 eq_refl); lia.
    + rewrite find_ids_nodes. by apply asks_asked.
Qed.

(** ** New contacts *)

Lemma matches_spec c o :
  len (oid o) = HASH_LENGTH ->
  matches c o = false <-> oid o <> contactId c /\ oend o <> (contactHost c, contactUdpPort c).
Proof.
  intros Hl. assert (Hne : bool_decide (oid o = []) = false).
  { apply bool_decide_eq_false. intros E. rewrite E in Hl. done. }
  unfold matches, sameContact, sameContactEndpoint, oend. unfold oid in *. rewrite Hne. cbn [negb andb].
  rewrite !orb_false_iff, !andb_false_iff, !bool_decide_eq_false, !Z.eqb_neq.
  assert (Hp : (contactHost (ocontact o), contactUdpPort (ocontact o)) <> (contactHost c, contactUdpPort c) <->
    contactHost (ocontact o) <> contactHost c \/ contactUdpPort (ocontact o) <> contactUdpPort c).
  { split; [|by intros [H|H] [= ? ?]]. intros H.
    destruct (decide (contactHost (ocontact o) = contactHost c)) as [E1|]; [|by left].
    destruct (decide (contactUdpPort (ocontact o) = contactUdpPort c)) as [E2|]; [|by right].
    exfalso. apply H. congruence. }
  tauto.
Qed.

Lemma find_some c os before o behind : find c os = Some (before, o, behind) -> os = before ++ o :: behind.
Proof. intros H. by apply findSplit_some in H as [-> _]. Qed.

Lemma findSplit_none {A} (p : A -> bool) (l : list A) : findSplit p l = None -> Forall (fun x => p x = false) l.
Proof.
  induction l as [|x l IH]; simpl; [constructor|]. destruct (p x) eqn:E; [done|].
  destruct (findSplit p l) as [[[b y] k]|]; [done|]. intros _. constructor; auto.
Qed.

Lemma same_keys_replace before o o' behind :
  oid o' = oid o -> oend o' = oend o -> same_keys (before ++ o :: behind) (before ++ o' :: behind).
Proof. intros Hi He. split; rewrite !fmap_app, !fmap_cons; congruence. Qed.

(** An observer that stays who it is. *)
Lemma observers_ok_replace target before o o' behind :
  oid o' = oid o -> oend o' = oend o -> state_ok o' ->
  observers_ok target (before ++ o :: behind) -> observers_ok target (before ++ o' :: behind).
Proof.
  intros Hi He Hs Hok. eapply same_keys_ok; [| |exact Hok].
  - by apply same_keys_replace.
  - destruct Hok as [_ _ _ _ Hst]. apply Forall_app in Hst as [H1 H2]. inv H2. apply Forall_app.
    split; [done|by constructor].
Qed.

Lemma observers_state target before o behind :
  observers_ok target (before ++ o :: behind) -> state_ok o.
Proof. intros [_ _ _ _ Hst]. rewrite Forall_app in Hst. destruct Hst as [_ H]. by inv H. Qed.

Lemma insertObserver_ok target o os :
  len target = HASH_LENGTH -> len (oid o) = HASH_LENGTH -> Forall (fun o => len (oid o) = HASH_LENGTH) os ->
  StronglySorted (nearer target) os ->
  exists os', insertObserver target o os = Ok os' /\ os' ≡ₚ o :: os /\ StronglySorted (nearer target) os'.
Proof.
  intros Ht Ho Hos Hs. induction Hs as [|x os Hs IH Hx]; cbn [insertObserver].
  { exists [o]. split; [done|]. split; [done|]. by repeat constructor. }
  inv Hos as [|? ? Hl Hos']. destruct (distanceCompare_ok (oid x) (oid o) target Hl Ho Ht) as (order & Hd & Hlt).
  change (contactId (ocontact ?y)) with (oid y). rewrite Hd. monad. rewrite Hlt.
  destruct (Z.ltb_spec (distance (oid x) target) (distance (oid o) target)).
  - destruct (IH Hos') as (os' & -> & Hp & Hs'). eexists. split; [done|]. split; [rewrite Hp; constructor|].
    constructor; [done|]. rewrite Hp. constructor; [unfold nearer; lia|done].
  - eexists. split; [done|]. split; [done|]. repeat constructor; try done.
    eapply Forall_impl; [exact Hx|]. unfold nearer. simpl. lia.
Qed.

Lemma popFar_spec size os :
  exists dropped, os = dropped ++ popFar size os /\ Forall (fun o => queried o = false) dropped.
Proof.
  revert size. induction os as [|o os IH]; intros size; cbn [popFar]; [by exists []|].
  destruct (_ && _) eqn:E; [|by exists []]. apply andb_true_iff in E as [_ E%negb_true_iff].
  destruct (IH (size - 1)) as (d & Hd & Hq). exists (o :: d). split; [simpl; by rewrite <- Hd|by constructor].
Qed.

Lemma trim_keeps os :
  exists dropped, os = trim os ++ dropped /\ Forall (fun o => queried o = false) dropped.
Proof.
  destruct (popFar_spec (len os) (reverse os)) as (d & Hd & Hq). exists (reverse d). unfold trim.
  split; [by rewrite <- reverse_app, <- Hd, reverse_involutive|by apply Forall_reverse].
Qed.

Lemma observers_ok_prefix target os os' : observers_ok target (os ++ os') -> observers_ok target os.
Proof.
  intros [H1 H2 H3 H4 H5]. rewrite fmap_app in H3. rewrite fmap_app in H4. split.
  - by apply Forall_app in H1 as [? _].
  - by apply StronglySorted_app in H2 as (_ & ? & _).
  - by apply NoDup_app in H3 as (? & _).
  - by apply NoDup_app in H4 as (? & _).
  - by apply Forall_app in H5 as [? _].
Qed.

(** Contacts that were never asked count nowhere but as pending. *)
Lemma unasked_counts os :
  Forall (fun o => queried o = false) os -> Forall state_ok os ->
  count outstanding os = 0 /\ count searched os = 0 /\ asked os = [].
Proof.
  intros Hq Hs. induction Hs as [|o os Ho _ IH]; [done|]. inv Hq as [|? ? Hqo Hqs].
  destruct (IH Hqs) as (I1 & I2 & I3). unfold asked in *. rewrite !count_cons. simpl. rewrite Hqo.
  unfold outstanding at 1. rewrite Hqo. simpl. destruct (searched o) eqn:E; [|split_and!; [lia..|done]].
  destruct Ho as [Ha _ Hse]. rewrite Ha in Hqo; [done|auto].
Qed.

(** What new contacts leave as it is. *)
Record enriched (known : Prop) (tr tr' : traversal) : Prop := mkEnriched {
  en_ok : tr_ok tr';
  en_rest : tr' = with_observers (observers tr') tr;
  en_asked : asked (observers tr') ≡ₚ asked (observers tr);
  en_pending : known -> count pending (observers tr') = count pending (observers tr);
  en_keys : known -> same_keys (observers tr) (observers tr');
}.

Lemma enriched_refl known tr : tr_ok tr -> enriched known tr tr.
Proof. intros Hok. by split; [|destruct tr|..]. Qed.

(** A contact that the lookup knows, or does not take. *)
Definition no_news (tr : traversal) (c : KadContact) : Prop :=
  (find c (observers tr) <> None) \/
  (negb (validId (contactId c)) || bool_decide (contactHost c = []) || (contactUdpPort c =? 0)) = true.

Lemma learned_ok c tr before o behind :
  tr_ok tr -> observers tr = before ++ o :: behind ->
  enriched True tr (with_observers (before ++ learn c o :: behind) tr).
Proof.
  intros Hok Ef. pose proof (ok_observers _ Hok) as Ho. rewrite Ef in Ho.
  assert (Hc : forall p, p (learn c o) = p o -> count p (before ++ learn c o :: behind) = count p (observers tr)).
  { intros p Hp. by rewrite Ef, !count_app, !count_cons, Hp. }
  split; [apply tr_ok_observers; [done| | |]|done| |intros _; by apply Hc|].
  - eapply observers_ok_replace; [| | |exact Ho]; [done|done|].
    apply observers_state in Ho as [S1 S2 S3]. by split.
  - rewrite Hc by done. symmetry. apply Hok.
  - rewrite Hc by done. symmetry. apply Hok.
  - simpl. rewrite Ef, !asked_app. unfold asked. simpl. by destruct (queried o).
  - intros _. rewrite Ef. by apply same_keys_replace.
Qed.

(** A contact that nobody in the list is. *)
Lemma fresh_keys c os :
  Forall (fun o => len (oid o) = HASH_LENGTH) os -> Forall (fun o => matches c o = false) os ->
  (contactId c ∉ (oid <$> os)) /\ ((contactHost c, contactUdpPort c) ∉ (oend <$> os)).
Proof.
  intros O1 Ef. rewrite Forall_forall in O1. rewrite Forall_forall in Ef.
  split; intros (x & Hx & Hin)%list_elem_of_fmap;
    specialize (Ef x Hin); apply matches_spec in Ef as [E1 E2]; auto.
Qed.

Lemma inserted_ok c tr os :
  tr_ok tr -> len (contactId c) = HASH_LENGTH -> Forall (fun o => matches c o = false) (observers tr) ->
  os ≡ₚ mkObserver c false false false false :: observers tr -> StronglySorted (nearer (targetId tr)) os ->
  enriched False tr (with_observers (trim os) tr).
Proof.
  intros Hok Hv Ef Hp Hs. pose proof (ok_observers _ Hok) as [O1 O2 O3 O4 O5].
  set (o := mkObserver c false false false false) in *.
  destruct (fresh_keys c (observers tr) O1 Ef) as [N1 N2].
  assert (Hos : observers_ok (targetId tr) os).
  { split; [|done| | |]; rewrite Hp; rewrite ?fmap_cons; try (by apply NoDup_cons);
      constructor; try done; by split. }
  destruct (trim_keeps os) as (dropped & Hd & Hq).
  assert (Hst : Forall state_ok dropped).
  { destruct Hos as [_ _ _ _ H]. rewrite Hd in H. by apply Forall_app in H as [_ ?]. }
  destruct (unasked_counts dropped Hq Hst) as (D1 & D2 & D3).
  assert (Hc : forall p, count p (trim os) + count p dropped = (if p o then 1 else 0) + count p (observers tr)).
  { intros p. by rewrite <- count_app, <- Hd, (count_perm p _ _ Hp), count_cons. }
  pose proof (Hc outstanding) as C1. pose proof (Hc searched) as C2. simpl in C1, C2.
  pose proof (ok_flight _ Hok). pose proof (ok_searched _ Hok).
  split; [apply tr_ok_observers; [done|rewrite Hd in Hos; by eapply observers_ok_prefix|lia|lia]|done| |done|done].
  simpl. pose proof (asked_perm _ _ Hp) as Ha. rewrite Hd, asked_app, D3, app_nil_r in Ha. exact Ha.
Qed.

Lemma addContact_ok c tr :
  tr_ok tr -> exists tr', addContact c tr = Ok tr' /\ enriched (no_news tr c) tr tr'.
Proof.
  intros Hok. unfold addContact, no_news.
  destruct (negb _ || _ || _) eqn:Ev; [exists tr; split; [done|by apply enriched_refl]|].
  destruct (find c (observers tr)) as [[[before o] behind]|] eqn:Ef.
  - apply find_some in Ef. eexists. split; [done|].
    destruct (learned_ok c tr before o behind Hok Ef) as [E1 E2 E3 E4 E5]. by split; auto.
  - apply findSplit_none in Ef. pose proof (ok_observers _ Hok) as [O1 O2 _ _ _].
    assert (Hv : len (contactId c) = HASH_LENGTH).
    { apply orb_false_iff in Ev as [[Ev _]%orb_false_iff _]. apply validId_spec. by apply negb_false_iff. }
    destruct (insertObserver_ok (targetId tr) (mkObserver c false false false false) (observers tr))
      as (os & -> & Hp & Hs); [apply Hok|done..|].
    monad. eexists. split; [done|]. destruct (inserted_ok c tr os Hok Hv Ef Hp Hs) as [E1 E2 E3 _ _].
    split; try done; by intros [?|?].
Qed.

Lemma find_known c os os' : same_keys os os' -> find c os <> None -> find c os' <> None.
Proof.
  intros [Hi He] Hf Hn. apply Hf. clear Hf. apply findSplit_none in Hn. unfold find.
  revert os Hi He. induction Hn as [|o' os' Ho _ IH]; intros [|o os] Hi He; try done.
  injection Hi as Hi1 Hi2. injection He as He1 He2 He3. cbn [findSplit].
  replace (matches c o) with false; [by rewrite IH|].
  rewrite <- Ho. unfold matches, sameContact, sameContactEndpoint. unfold oid in Hi1. by rewrite Hi1, He1, He2.
Qed.

Lemma no_news_keys tr tr' c : same_keys (observers tr) (observers tr') -> no_news tr c -> no_news tr' c.
Proof. intros Hk [Hn|Hn]; [left|by right]. by eapply find_known. Qed.

Lemma addContacts_ok cs : forall tr,
  tr_ok tr -> exists tr', addContacts cs tr = Ok tr' /\ enriched (Forall (no_news tr) cs) tr tr'.
Proof.
  induction cs as [|c cs IH]; intros tr Hok; cbn [addContacts].
  { exists tr. split; [done|by apply enriched_refl]. }
  destruct (addContact_ok c tr Hok) as (tr1 & E & [A1 A2 A3 A4 A5]). rewrite E. monad.
  destruct (IH tr1 A1) as (tr2 & -> & [B1 B2 B3 B4 B5]). exists tr2. split; [done|].
  assert (Hnews : Forall (no_news tr) (c :: cs) -> no_news tr c /\ Forall (no_news tr1) cs).
  { intros Hf. inv Hf as [|? ? H1 H2]. split; [done|]. eapply Forall_impl; [exact H2|]. intros x.
    apply no_news_keys; auto. }
  split; [done|rewrite B2, A2 at 1; done|by rewrite B3| |].
  - intros [H1 H2]%Hnews. rewrite B4, A4; auto.
  - intros [H1 H2]%Hnews. destruct (A5 H1) as [P1 P2]. destruct (B5 H2) as [Q1 Q2]. split; congruence.
Qed.

(** ** Answers *)

Inductive event :=
| Response (c : KadContact) (closer : list KadContact)
| Failure (c : KadContact)
| Stalled
| SearchResponse (c : KadContact)
| SearchFailure (c : KadContact).

Definition exec (e : event) (tr : traversal) : result (list action * traversal) :=
  match e with
  | Response c closer => onResponse c closer tr
  | Failure c => mret (onFailure c tr)
  | Stalled => mret (stalled tr)
  | SearchResponse c => mret ([], onSearchResponse c tr)
  | SearchFailure c => mret ([], onSearchFailure c tr)
  end.

(** What the caller reports: the answer or timeout of a request that is on its
    way, once, and the end of a search that is on its way. *)
Definition expected (e : event) (tr : traversal) : Prop :=
  match e with
  | Response c _ | Failure c =>
      exists before o behind, find c (observers tr) = Some (before, o, behind) /\ outstanding o = true
  | Stalled => True
  | SearchResponse c | SearchFailure c =>
      0 < searchInFlight tr /\
      forall before o behind, find c (observers tr) = Some (before, o, behind) -> alive o = true
  end.

(** An observer changes its state. *)
Lemma replaced_ok tr before o o' behind flight asked_ :
  tr_ok tr -> observers tr = before ++ o :: behind ->
  ocontact o' = ocontact o -> searched o' = searched o -> state_ok o' ->
  flight = inFlight tr - (if outstanding o then 1 else 0) + (if outstanding o' then 1 else 0) ->
  flight <= branchFactor tr + extra tr ->
  tr_ok (with_observers (before ++ o' :: behind) (with_asked flight asked_ tr)).
Proof.
  intros [K1 K2 K3 K4 K5 K6 K7 K8 K9 K10] Ho Hc Hse Hst Hf Hl. rewrite Ho in K2, K6, K8.
  rewrite count_app, count_cons in K6. rewrite count_app, count_cons in K8.
  split; simpl; try done.
  - eapply observers_ok_replace; [| | |exact K2]; [by unfold oid; rewrite Hc|by unfold oend; rewrite Hc|done].
  - rewrite count_app, count_cons. lia.
  - rewrite count_app, count_cons, Hse. lia.
Qed.

Lemma asked_replaced before o o' behind :
  ocontact o' = ocontact o -> queried o' = queried o -> asked (before ++ o' :: behind) = asked (before ++ o :: behind).
Proof.
  intros Hc Hq. rewrite !asked_app. f_equal. unfold asked. simpl. rewrite Hq.
  destruct (queried o); [|done]. rewrite !fmap_cons. unfold oid at 1 3. by rewrite Hc.
Qed.

Lemma outstanding_spec o :
  outstanding o = true <-> queried o = true /\ alive o = false /\ failed o = false.
Proof. unfold outstanding. rewrite !andb_true_iff, !negb_true_iff. tauto. Qed.

(** A request that is answered or given up: one less is on its way. *)
Record settled (tr tr' : traversal) : Prop := mkSettled {
  se_ok : tr_ok tr';
  se_work : work tr' < work tr;
  se_asked : asked (observers tr') ≡ₚ asked (observers tr);
  se_flags : done_ tr' = done_ tr /\ converged tr' = converged tr;
  se_busy : searchInFlight tr <= searchInFlight tr';
  se_keys : same_keys (observers tr) (observers tr');
}.

Lemma inFlight_positive tr before o behind :
  tr_ok tr -> observers tr = before ++ o :: behind -> outstanding o = true -> 0 < inFlight tr.
Proof.
  intros Hok Ho Hout. rewrite (ok_flight _ Hok), Ho, count_app, count_cons, Hout.
  pose proof (count_nonneg outstanding before). pose proof (count_nonneg outstanding behind). lia.
Qed.

Lemma failed_settled tr before o behind :
  tr_ok tr -> observers tr = before ++ o :: behind -> outstanding o = true ->
  settled tr (with_observers (before ++ mkObserver (ocontact o) (queried o) (alive o) true (searched o) :: behind)
    (with_asked (oneLess (inFlight tr)) (queriedCount tr) tr)).
Proof.
  intros Hok Ho Hout. pose proof (inFlight_positive _ _ _ _ Hok Ho Hout) as Hpos.
  apply outstanding_spec in Hout as Hf. destruct Hf as (Hq & Ha & Hnf).
  unfold oneLess. rewrite (proj2 (Z.ltb_lt _ _) Hpos). pose proof (ok_observers _ Hok) as Hos.
  rewrite Ho in Hos. apply observers_state in Hos as [S1 S2 S3].
  split; [|unfold work| |done|done|].
  - eapply replaced_ok; [done|exact Ho|done|done|by split| |].
    + rewrite Hout. unfold outstanding. simpl. rewrite andb_false_r. lia.
    + pose proof (ok_limit _ Hok). lia.
  - simpl. rewrite Ho, !count_app, !count_cons. unfold pending at 2 5. simpl. rewrite Ha, Hnf. simpl. lia.
  - simpl. rewrite Ho. by rewrite (asked_replaced before o) by done.
  - rewrite Ho. by apply same_keys_replace.
Qed.

Lemma answered_settled tr before o behind tr' o' actions :
  tr_ok tr -> observers tr = before ++ o :: behind -> outstanding o = true ->
  search false (mkObserver (ocontact o) (queried o) true false (searched o))
    (with_answered (answered tr + 1) (with_asked (oneLess (inFlight tr)) (queriedCount tr) tr)) = (tr', o', actions) ->
  settled tr (with_observers (before ++ o' :: behind) tr') /\ omap find_id actions = [].
Proof.
  intros Hok Ho Hout Hs. pose proof (inFlight_positive _ _ _ _ Hok Ho Hout) as Hpos.
  apply outstanding_spec in Hout as Hf. destruct Hf as (Hq & Ha & Hnf).
  revert Hs. unfold oneLess. rewrite (proj2 (Z.ltb_lt _ _) Hpos). intros Hs.
  apply search_spec in Hs as (cs & -> & Hse & -> & Hm); [|done]. split; [|apply find_ids_searches].
  pose proof (len_nonneg cs). pose proof Hok as [K1 K2 K3 K4 K5 K6 K7 K8 K9 K10].
  rewrite Ho in K2, K6, K8. rewrite count_app, count_cons, Hout in K6. rewrite count_app, count_cons in K8.
  pose proof (observers_state _ _ _ _ K2) as [S1 S2 S3].
  destruct (seeks_counts _ _ _ Hse) as (C1 & C2 & C3 & C4). rewrite !count_cons in C1, C2, C3. simpl in Hm.
  assert (E : ocontact o' = ocontact o /\ queried o' = queried o /\ state_ok o').
  { inv Hse; (split; [done|]; split; [done|]; by split). }
  destruct E as (E1 & E2 & E3). change (count _ []) with 0 in C1, C2, C3.
  unfold outstanding at 2 in C1. unfold pending at 2 in C3. simpl in C1, C2, C3. rewrite andb_false_r in C1. simpl in C1.
  split; [split; simpl; try done; try lia| | |done|simpl; lia|].
  - eapply observers_ok_replace; [| | |exact K2]; [by unfold oid; rewrite E1|by unfold oend; rewrite E1|done].
  - rewrite count_app, count_cons. lia.
  - rewrite count_app, count_cons. lia.
  - unfold work. simpl. rewrite Ho, !count_app, !count_cons. unfold pending at 5. rewrite Ha, Hnf. simpl. lia.
  - simpl. rewrite Ho. by rewrite (asked_replaced before o).
  - rewrite Ho. apply same_keys_replace; [unfold oid|unfold oend]; by rewrite E1.
Qed.

Lemma settled_busy tr tr' : settled tr tr' -> busy tr -> converged tr' = true -> busy tr'.
Proof.
  intros [_ _ _ [Hd Hc] Hs _] Hb Hcv Hdn. rewrite Hcv. rewrite Hd in Hdn. specialize (Hb Hdn).
  rewrite <- Hc, Hcv in Hb. lia.
Qed.

(** What an event does to a lookup; [work] says when less is left to do. *)
Record stepped (less : Prop) (tr : traversal) (actions : list action) (tr' : traversal) : Prop := mkStepped {
  st_ok : tr_ok tr';
  st_busy : busy tr';
  st_asked : asked (observers tr') ≡ₚ omap find_id actions ++ asked (observers tr);
  st_work : less -> work tr' < work tr;
  st_reached : done_ tr = false -> converged tr = false -> converged tr' = true ->
    reached (targetNodes tr') (observers tr');
}.

Lemma stepped_next (less : Prop) tr tr1 :
  tr_ok tr1 -> (converged tr1 = true -> busy tr1) -> asked (observers tr1) ≡ₚ asked (observers tr) ->
  (less -> work tr1 < work tr) -> done_ tr1 = done_ tr -> converged tr1 = converged tr ->
  stepped less tr (nextActions tr1).1 (nextActions tr1).2.
Proof.
  intros Hok Hb Ha Hw Hd Hc. destruct (nextActions_ok tr1 Hok Hb) as [A1 A2 A3 A4 A5].
  split; [done|done|by rewrite A4, Ha|intros Hl; specialize (Hw Hl); lia|]. rewrite <- Hd, <- Hc. done.
Qed.

Lemma onResponse_ok c closer tr :
  tr_ok tr -> busy tr -> expected (Response c closer) tr ->
  exists r, onResponse c closer tr = Ok r /\
    stepped (done_ tr = false /\ Forall (no_news tr) closer) tr r.1 r.2.
Proof.
  intros Hok Hb (before & o & behind & Hf & Hout). unfold onResponse. destruct (done_ tr) eqn:Ed.
  { eexists. split; [done|]. split; simpl; [done|done|done|by intros [? _]|congruence]. }
  rewrite Hf. apply find_some in Hf. pose proof (proj1 (outstanding_spec o) Hout) as (Hq & Ha & _).
  assert (Hcond : queried o && negb (alive o) = true) by (by rewrite Hq, Ha). rewrite Hcond.
  destruct (search false _ _) as [[tr1 o1] actions] eqn:Es.
  destruct (answered_settled _ _ _ _ _ _ _ Hok Hf Hout Es) as [Hset Hnone].
  destruct (addContacts_ok closer _ (se_ok _ _ Hset)) as (tr2 & -> & [E1 E2 E3 E4 _]). monad.
  assert (Hn : stepped (false = false /\ Forall (no_news tr) closer) tr
    (nextActions tr2).1 (nextActions tr2).2).
  { pose proof Hset as [_ S2 S3 [S4 S5] S6 S7]. apply stepped_next; [done| |by rewrite E3| | |].
    - rewrite E2. simpl. intros Hc. by apply (settled_busy _ _ Hset Hb).
    - intros [_ Hnews]. unfold work in *. rewrite E4; [rewrite E2; simpl in *; lia|].
      eapply Forall_impl; [exact Hnews|]. intros x. by apply no_news_keys.
    - rewrite E2. simpl. simpl in S4. congruence.
    - by rewrite E2. }
  destruct (nextActions tr2) as [next tr3]. eexists. split; [done|]. destruct Hn as [N1 N2 N3 N4 N5]. simpl in *.
  split; simpl; try done. rewrite omap_app, Hnone. done.
Qed.

Lemma onFailure_ok c tr :
  tr_ok tr -> busy tr -> expected (Failure c) tr -> stepped True tr (onFailure c tr).1 (onFailure c tr).2.
Proof.
  intros Hok Hb (before & o & behind & Hf & Hout). unfold onFailure. rewrite Hf. apply find_some in Hf.
  pose proof (proj1 (outstanding_spec o) Hout) as (_ & Ha & Hnf).
  assert (Hcond : negb (failed o) && negb (alive o) = true) by (by rewrite Hnf, Ha). rewrite Hcond.
  pose proof (failed_settled _ _ _ _ Hok Hf Hout) as Hset. pose proof Hset as [S1 S2 S3 [S4 S5] S6 _].
  apply stepped_next; try done. intros Hc. by apply (settled_busy _ _ Hset Hb).
Qed.

Lemma stalled_ok tr : tr_ok tr -> busy tr -> stepped False tr (stalled tr).1 (stalled tr).2.
Proof.
  intros Hok Hb. unfold stalled. apply stepped_next; try done.
  - destruct (Z.ltb_spec (extra tr) (2 * branchFactor tr)); [|done]. destruct Hok. split; simpl; try done; lia.
  - by destruct (_ <? _).
  - by destruct (_ <? _).
  - by destruct (_ <? _).
  - by destruct (_ <? _).
Qed.

Lemma finishSearch_ok c hasFailed tr :
  tr_ok tr -> busy tr -> expected (SearchResponse c) tr ->
  stepped True tr [] (finishSearch c hasFailed tr).
Proof.
  intros Hok Hb [Hpos Hal]. unfold finishSearch.
  set (tr1 := match find c (observers tr) with Some _ => _ | None => tr end).
  assert (H1 : tr_ok tr1 /\ asked (observers tr1) ≡ₚ asked (observers tr) /\
    count pending (observers tr1) = count pending (observers tr) /\ tr1 = with_observers (observers tr1) tr).
  { unfold tr1. destruct (find c (observers tr)) as [[[before o] behind]|] eqn:Ef; [|by destruct tr].
    destruct hasFailed; [|by destruct tr]. specialize (Hal _ _ _ eq_refl). apply find_some in Ef.
    pose proof (ok_observers _ Hok) as Hos. rewrite Ef in Hos. apply observers_state in Hos as [S1 S2 S3].
    assert (Ho : outstanding o = false) by (unfold outstanding; rewrite Hal; by rewrite andb_false_r).
    split_and!; [|simpl; rewrite Ef; by rewrite (asked_replaced before o)| |done].
    - replace (with_observers _ tr) with (with_observers (before ++ mkObserver (ocontact o) (queried o) (alive o) true (searched o) :: behind)
        (with_asked (inFlight tr) (queriedCount tr) tr)) by (by destruct tr).
      eapply replaced_ok; [done|exact Ef|done|done|split; simpl; auto| |apply Hok].
      rewrite Ho. unfold outstanding. simpl. rewrite Hal, andb_false_r. simpl. lia.
    - simpl. rewrite Ef, !count_app, !count_cons. unfold pending at 2 5. simpl. rewrite Hal. simpl. lia. }
  destruct H1 as ([K1 K2 K3 K4 K5 K6 K7 K8 K9 K10] & Ha & Hp & E).
  assert (Es : searchInFlight tr1 = searchInFlight tr) by (by rewrite E). unfold oneLess.
  rewrite (proj2 (Z.ltb_lt 0 (searchInFlight tr1))) by lia.
  set (tr2 := with_searches _ _ tr1).
  assert (Hok2 : tr_ok tr2) by (split; simpl; try done; lia).
  assert (Hw : work tr2 < work tr).
  { unfold work, tr2. simpl. rewrite Hp, E. simpl. lia. }
  assert (Hc : converged tr2 = converged tr /\ done_ tr2 = done_ tr) by (unfold tr2; simpl; by rewrite E).
  destruct Hc as [Hc Hd]. destruct (converged tr2 && (searchInFlight tr2 =? 0)) eqn:Ee.
  - apply andb_true_iff in Ee as [Ec _]. split; simpl; [by destruct Hok2|by intros ?|done|done|].
    simpl in Hc. intros _ ? ?. congruence.
  - split; simpl; [done| |done|done|intros _ ? ?; simpl in Hc; congruence].
    intros Hdn. specialize (Hb ltac:(congruence)). rewrite Hc. destruct (converged tr) eqn:Ec.
    + rewrite Hc in Ee. apply Z.eqb_neq in Ee. pose proof (ok_searching _ Hok2). lia.
    + unfold tr2. simpl. by rewrite E.
Qed.

(** ** Runs *)

Fixpoint exec_all (es : list event) (tr : traversal) : result (list action * traversal) :=
  match es with
  | [] => mret ([], tr)
  | e :: es =>
      '(actions, tr) ← exec e tr;
      '(rest, tr) ← exec_all es tr;
      mret (actions ++ rest, tr)
  end.

Fixpoint expected_all (es : list event) (tr : traversal) : Prop :=
  match es with
  | [] => True
  | e :: es => expected e tr /\ forall actions tr', exec e tr = Ok (actions, tr') -> expected_all es tr'
  end.

(** An answer that brings the lookup closer to its end. *)
Definition progresses (e : event) (tr : traversal) : Prop :=
  match e with
  | Response _ closer => done_ tr = false /\ Forall (no_news tr) closer
  | Stalled => False
  | _ => True
  end.

Fixpoint progresses_all (es : list event) (tr : traversal) : Prop :=
  match es with
  | [] => True
  | e :: es => progresses e tr /\ forall actions tr', exec e tr = Ok (actions, tr') -> progresses_all es tr'
  end.

Lemma lookup_exec_ok e tr :
  tr_ok tr -> busy tr -> expected e tr ->
  exists actions tr', exec e tr = Ok (actions, tr') /\ stepped (progresses e tr) tr actions tr'.
Proof.
  intros Hok Hb He. destruct e as [c closer|c| |c|c]; cbn [exec progresses].
  - destruct (onResponse_ok c closer tr Hok Hb He) as ([a tr'] & -> & Hs). by exists a, tr'.
  - pose proof (onFailure_ok c tr Hok Hb He) as Hs. destruct (onFailure c tr) as [a tr']. by exists a, tr'.
  - pose proof (stalled_ok tr Hok Hb) as Hs. destruct (stalled tr) as [a tr']. by exists a, tr'.
  - exists [], (onSearchResponse c tr). split; [done|]. by apply finishSearch_ok.
  - exists [], (onSearchFailure c tr). split; [done|]. by apply finishSearch_ok.
Qed.

Lemma lookup_exec_all_ok es : forall tr,
  tr_ok tr -> busy tr -> expected_all es tr ->
  exists actions tr', exec_all es tr = Ok (actions, tr') /\ tr_ok tr' /\ busy tr' /\
    asked (observers tr') ≡ₚ omap find_id actions ++ asked (observers tr) /\
    (progresses_all es tr -> len es <= work tr - work tr').
Proof.
  induction es as [|e es IH]; intros tr Hok Hb He; cbn [exec_all].
  { exists [], tr. split_and!; [done..|]. rewrite len_nil. lia. }
  destruct He as [He Hes]. destruct (lookup_exec_ok e tr Hok Hb He) as (a & tr1 & E & [S1 S2 S3 S4 _]).
  destruct (IH tr1 S1 S2 (Hes _ _ E)) as (b & tr2 & E2 & T1 & T2 & T3 & T4). rewrite E. monad. rewrite E2. monad.
  exists (a ++ b), tr2. split_and!; [done..| |].
  - rewrite T3, S3, omap_app. solve_Permutation.
  - intros [P1 P2]. specialize (S4 P1). specialize (T4 (P2 _ _ E)). rewrite len_cons. lia.
Qed.

Lemma lookup_start_ok target test max branch nodes seeds tr :
  len target = HASH_LENGTH -> 0 <= max -> 0 <= branch -> 0 <= nodes ->
  create target test max branch nodes = Ok tr ->
  exists actions tr', start seeds tr = Ok (actions, tr') /\ tr_ok tr' /\ busy tr' /\
    asked (observers tr') ≡ₚ omap find_id actions.
Proof.
  intros Ht Hm Hb Hn. unfold create. rewrite validateId_ok by done. monad. intros [= <-].
  set (tr0 := mkTraversal _ _ _ _ _ _ _ _ _ _ _ _ _ _).
  assert (Hok : tr_ok tr0).
  { unfold tr0. split; simpl; try done; try lia.
    - split; simpl; constructor.
    - destruct (Z.eqb_spec branch 0); lia.
    - destruct (Z.eqb_spec nodes 0); lia.
    - destruct (Z.eqb_spec branch 0); lia.
    - destruct (Z.eqb_spec branch 0); lia. }
  destruct (addContacts_ok seeds tr0 Hok) as (tr1 & E & [E1 E2 E3 _ _]). unfold start. rewrite E. monad.
  destruct (nextActions_ok tr1 E1) as [A1 A2 A3 A4 A5]; [rewrite E2; done|].
  destruct (nextActions tr1) as [actions tr2]. exists actions, tr2. split_and!; try done.
  simpl in A4. rewrite A4, E3. by rewrite app_nil_r.
Qed.

Lemma asked_NoDup target os : observers_ok target os -> NoDup (asked os).
Proof.
  intros [_ _ H _ _]. unfold asked. eapply sublist_NoDup; [exact H|].
  clear H. induction os as [|o os IH]; simpl; [done|]. destruct (queried o); by constructor.
Qed.

(** *** The end of a lookup *)

(** A request or a search that is on its way and gets no answer. *)
Definition timeout (e : event) (tr : traversal) : Prop :=
  match e with
  | Failure c => exists o, o ∈ observers tr /\ ocontact o = c /\ outstanding o = true
  | SearchFailure c => exists o, o ∈ observers tr /\ ocontact o = c /\ searched o = true /\ 0 < searchInFlight tr
  | _ => False
  end.

Lemma count_positive p os : 0 < count p os -> exists o, o ∈ os /\ p o = true.
Proof.
  induction os as [|o os IH]; [done|]. rewrite count_cons. destruct (p o) eqn:E; [exists o; split; [left|done]|].
  intros H. destruct IH as (x & ? & ?); [lia|]. exists x. split; [by right|done].
Qed.

Lemma work_nonneg tr : tr_ok tr -> 0 <= work tr.
Proof. intros [_ _ _ _ _ _ _ _ H1 H2]. unfold work. pose proof (count_nonneg pending (observers tr)). lia. Qed.

Lemma same_field {A} (f : Observer -> A) os x y : NoDup (f <$> os) -> x ∈ os -> y ∈ os -> f x = f y -> x = y.
Proof.
  intros Hn [i Hi]%list_elem_of_lookup [j Hj]%list_elem_of_lookup E.
  assert (i = j) as ->; [|congruence].
  eapply (NoDup_lookup (f <$> os)); [done|by rewrite list_lookup_fmap, Hi|by rewrite list_lookup_fmap, Hj, E].
Qed.

(** The contact of an observer finds that observer. *)
Lemma find_own target os o :
  observers_ok target os -> o ∈ os -> exists before behind, find (ocontact o) os = Some (before, o, behind).
Proof.
  intros Hos Ho. pose proof Hos as [Hv _ H1 H2 _]. rewrite Forall_forall in Hv.
  destruct (find (ocontact o) os) as [[[before x] behind]|] eqn:E.
  - pose proof E as Hm. apply findSplit_some in Hm as [Ex Hm].
    assert (Hx : x ∈ os) by (rewrite Ex; apply elem_of_app; right; left).
    assert (x = o) as <-; [|by exists before, behind].
    destruct (decide (oid x = oid o)) as [Ei|Ei]; [by apply (same_field oid os)|].
    destruct (decide (oend x = oend o)) as [Ee|Ee]; [by apply (same_field oend os)|].
    rewrite (proj2 (matches_spec (ocontact o) x (Hv x Hx))) in Hm; done.
  - apply findSplit_none in E. rewrite Forall_forall in E. specialize (E o Ho). simpl in E.
    apply matches_spec in E as [E _]; [done|by apply Hv].
Qed.

Lemma timeout_left tr :
  tr_ok tr -> busy tr -> done_ tr = false -> exists e, timeout e tr /\ expected e tr /\ progresses e tr.
Proof.
  intros Hok Hb Hd. specialize (Hb Hd). pose proof (ok_observers _ Hok) as Hos. destruct (converged tr).
  - destruct (count_positive searched (observers tr)) as (o & Ho & Hs); [destruct Hok; lia|].
    exists (SearchFailure (ocontact o)). split; [by exists o|]. split; [|done]. split; [done|].
    intros before x behind E. destruct (find_own _ _ _ Hos Ho) as (b & k & E'). rewrite E in E'.
    injection E' as -> -> ->. pose proof (oo_states _ _ Hos) as Hst. rewrite Forall_forall in Hst.
    by apply (Hst o Ho).
  - destruct (count_positive outstanding (observers tr)) as (o & Ho & Hs); [destruct Hok; lia|].
    exists (Failure (ocontact o)). split; [by exists o|]. split; [|done].
    destruct (find_own _ _ _ Hos Ho) as (b & k & E'). by exists b, o, k.
Qed.

Lemma timeouts_end tr :
  tr_ok tr -> busy tr ->
  exists rest more tr2, expected_all rest tr /\ progresses_all rest tr /\
    exec_all rest tr = Ok (more, tr2) /\ done_ tr2 = true /\ len rest <= work tr.
Proof.
  remember (Z.to_nat (work tr)) as n eqn:En. revert tr En.
  induction n as [n IH] using lt_wf_ind. intros tr En Hok Hb. pose proof (work_nonneg tr Hok) as Hw.
  destruct (done_ tr) eqn:Ed; [exists [], [], tr; by split_and!|].
  destruct (timeout_left tr Hok Hb Ed) as (e & _ & He & Hp).
  destruct (lookup_exec_ok e tr Hok Hb He) as (a & tr1 & E & [S1 S2 _ S4 _]). specialize (S4 Hp).
  pose proof (work_nonneg tr1 S1).
  destruct (IH (Z.to_nat (work tr1)) ltac:(lia) tr1 eq_refl S1 S2) as (rest & more & tr2 & R1 & R2 & R3 & R4 & R5).
  exists (e :: rest), (a ++ more), tr2. cbn [exec_all expected_all progresses_all]. rewrite len_cons.
  split_and!; [done|intros a' tr' [= -> ->]%(eq_trans (eq_sym E)); done|done
    |intros a' tr' [= -> ->]%(eq_trans (eq_sym E)); done| |done|lia].
  rewrite E. monad. rewrite R3. by monad.
Qed.

(** ** Theorems *)

(** C11. A lookup is never stuck: if every request that an operation returns is
    answered or times out at most once, nothing throws, the observers stay
    sorted by distance and distinct, at most three times [branchFactor]
    requests are on their way and at most [maxSearches] contacts are searched,
    no contact is asked twice, and until the lookup is done some request or
    search is on its way. *)
Theorem lookup_never_stalls target test max branch nodes seeds tr es :
  len target = HASH_LENGTH -> 0 <= max -> 0 <= branch -> 0 <= nodes ->
  create target test max branch nodes = Ok tr ->
  (forall first tr', start seeds tr = Ok (first, tr') -> expected_all es tr') ->
  exists first tr1 rest tr2,
    start seeds tr = Ok (first, tr1) /\ exec_all es tr1 = Ok (rest, tr2) /\
    tr_ok tr2 /\ busy tr2 /\ inFlight tr2 <= 3 * branchFactor tr2 /\
    NoDup (omap find_id (first ++ rest)).
Proof.
  intros Ht Hm Hb Hn Hc He.
  destruct (lookup_start_ok target test max branch nodes seeds tr Ht Hm Hb Hn Hc) as (first & tr1 & E1 & S1 & S2 & S3).
  destruct (lookup_exec_all_ok es tr1 S1 S2 (He _ _ E1)) as (rest & tr2 & E2 & T1 & T2 & T3 & _).
  exists first, tr1, rest, tr2. split_and!; try done.
  - destruct T1. lia.
  - rewrite omap_app. pose proof (asked_NoDup _ _ (ok_observers _ T1)) as Hnd.
    rewrite T3, S3 in Hnd. by rewrite Permutation_app_comm in Hnd.
Qed.

(** C22. A lookup ends. Answers that bring no new contacts, failures and search
    results can come at most as often as [work] says: the contacts that have
    not answered, the searches on their way, and twice those still allowed. As
    long as the lookup is not done, there is a contact whose request or search
    can still time out, which is one more such event; so the lookup is done
    once nothing more can come, and timeouts alone, within the same bound,
    bring it there from wherever it is. *)
Theorem lookup_terminates tr es :
  tr_ok tr -> busy tr -> expected_all es tr -> progresses_all es tr ->
  len es <= work tr /\
  exists actions tr', exec_all es tr = Ok (actions, tr') /\
    (done_ tr' = false -> exists e, timeout e tr' /\ expected e tr' /\ progresses e tr') /\
    exists rest more tr2, expected_all rest tr' /\ progresses_all rest tr' /\
      exec_all rest tr' = Ok (more, tr2) /\ done_ tr2 = true /\ len es + len rest <= work tr.
Proof.
  intros Hok Hb He Hp. destruct (lookup_exec_all_ok es tr Hok Hb He) as (actions & tr' & E & T1 & T2 & _ & T4).
  specialize (T4 Hp). pose proof (work_nonneg tr' T1). split; [lia|]. exists actions, tr'. split; [done|].
  split; [intros Hd; by apply timeout_left|].
  destruct (timeouts_end tr' T1 T2) as (rest & more & tr2 & R1 & R2 & R3 & R4 & R5).
  exists rest, more, tr2. split_and!; [done..|lia].
Qed.

(** C23. A lookup that converges has found the closest contacts: when an answer
    makes the walk converge, the closest [targetNodes] contacts that did not
    fail have all answered. *)
Theorem lookup_converges_on_closest e tr :
  tr_ok tr -> busy tr -> expected e tr -> done_ tr = false -> converged tr = false ->
  exists actions tr', exec e tr = Ok (actions, tr') /\
    (converged tr' = true -> reached (targetNodes tr') (observers tr') /\
      StronglySorted (nearer (targetId tr')) (observers tr')).
Proof.
  intros Hok Hb He Hd Hc. destruct (lookup_exec_ok e tr Hok Hb He) as (actions & tr' & E & [S1 S2 S3 S4 S5]).
  exists actions, tr'. split; [done|]. intros Hcv. split; [by apply S5|]. by destruct (ok_observers _ S1).
Qed.

(** A transaction is completed or expires, and only once: [complete] takes
    out one transaction with the endpoint, the opcode and the target that were
    asked for, [expire] takes out exactly those that are too old, and nothing
    else is lost. *)
Lemma transactions_end_once l :
  (forall e opcode target x l', complete e opcode target l = Some (x, l') ->
    l ≡ₚ x :: l' /\ expectedOpcode x = opcode /\ sameEndpoint (endpoint x) e = true /\
    (forall t, target = Some t -> transactionTarget x = t)) /\
  (forall now timeout, let '(expired, kept) := expire now timeout l in
    l ≡ₚ expired ++ kept /\ Forall (fun x => timeout <= now - sentTime x) expired /\
    Forall (fun x => now - sentTime x < timeout) kept).
Proof.
  split.
  - intros e opcode target x l' Hc. unfold complete in Hc.
    destruct (findSplit _ l) as [[[before y] behind]|] eqn:E; [|done]. injection Hc as <- <-.
    apply findSplit_some in E as [-> Hp]. apply andb_true_iff in Hp as [[Ho%Z.eqb_eq Ht]%andb_true_iff He].
    split; [solve_Permutation|]. split; [done|]. split; [done|]. intros t ->. by apply bool_decide_eq_true in Ht.
  - intros now timeout. induction l as [|x l IH]; cbn [expire]; [by repeat constructor|].
    destruct (expire now timeout l) as [expired kept]. destruct IH as (H1 & H2 & H3).
    destruct (Z.leb_spec timeout (now - sentTime x)).
    + split; [by rewrite H1|]. split; [by constructor|done].
    + split; [rewrite H1; solve_Permutation|]. split; [done|by constructor].
Qed.

End KadTraversal.

Module KadTraversalExamples.
Import Bytes Wire Packet KadProtocol KadRouting KadTraversal.

Definition id (x : Z) : bytes := packUInt32 x ++ replicate 12 0.
Definition peer (x : Z) : KadContact := mkContact (id x) (str "10.0.0.1") (4000 + x) 4662 8 0.

(** A lookup for 1 that may search two contacts, from two seeds. *)
Definition lookup0 : traversal := mkTraversal (id 1) (Some (fun _ => true)) 2 3 8 0 0 0 0 0 0 false false [].
Definition started : list action * traversal :=
  match start [peer 9; peer 5] lookup0 with Ok r => r | Err _ => ([], lookup0) end.

(** One seed answers with a closer contact, the other fails. *)
Definition events : list event :=
  [Response (peer 5) [peer 3]; Failure (peer 9); Response (peer 3) []; SearchResponse (peer 5);
   SearchFailure (peer 3)].

Ltac run_event :=
  split; [first [eexists _, _, _; split; vm_compute; reflexivity
                |split; [vm_compute; reflexivity|]; intros ? ? ? Hf; vm_compute in Hf; injection Hf as <- <- <-; reflexivity]
         |]; intros ? ? He; vm_compute in He; injection He as <- <-.

Lemma events_expected : expected_all events started.2.
Proof. vm_compute started. do 5 run_event. exact I. Qed.

Lemma lookup_never_stalls_witness :
  exists first tr1 rest tr2,
    start [peer 9; peer 5] lookup0 = Ok (first, tr1) /\ exec_all events tr1 = Ok (rest, tr2) /\ tr_ok tr2.
Proof.
  destruct (lookup_never_stalls (id 1) (Some (fun _ => true)) 2 0 0 [peer 9; peer 5] lookup0 events)
    as (first & tr1 & rest & tr2 & H1 & H2 & H3 & _); [reflexivity|lia|lia|lia|reflexivity| |].
  - intros first tr' E. assert (Es : started = (first, tr')) by (unfold started; rewrite E; reflexivity).
    replace tr' with started.2 by (rewrite Es; reflexivity). apply events_expected.
  - exists first, tr1, rest, tr2. split; [exact H1|]. split; [exact H2|exact H3].
Defined.

Lemma started_ok : tr_ok started.2 /\ busy started.2.
Proof.
  destruct (lookup_start_ok (id 1) (Some (fun _ => true)) 2 0 0 [peer 9; peer 5] lookup0)
    as (first & tr' & E & H1 & H2 & _); [reflexivity|lia|lia|lia|reflexivity|].
  unfold started. rewrite E. done.
Qed.

(** Two contacts and two searches: six answers at most. One contact fails and
    the other answers; then timeouts end the lookup. *)
Definition answers : list event := [Failure (peer 9); Response (peer 5) []].

Lemma lookup_terminates_witness :
  len answers <= work started.2 /\
  exists actions tr' rest more tr2, exec_all answers started.2 = Ok (actions, tr') /\
    exec_all rest tr' = Ok (more, tr2) /\ done_ tr' = false /\ done_ tr2 = true /\ 2 + len rest <= 6.
Proof.
  destruct (lookup_terminates started.2 answers) as [H1 (actions & tr' & H2 & _ & rest & more & tr2 & _ & _ & H3 & H4 & H5)];
    [exact (proj1 started_ok)|exact (proj2 started_ok)| | |].
  - vm_compute started. do 2 run_event. exact I.
  - vm_compute started. split; [exact I|]. intros ? ? He; vm_compute in He; injection He as <- <-.
    split; [split; [reflexivity|constructor]|]. intros. exact I.
  - split; [exact H1|]. exists actions, tr', rest, more, tr2. split; [exact H2|]. split; [exact H3|].
    split; [vm_compute in H2; injection H2 as _ <-; reflexivity|]. split; [exact H4|exact H5].
Defined.

(** One contact failed, the other is to answer. *)
Definition almost : traversal :=
  match exec (Failure (peer 9)) started.2 with Ok r => r.2 | Err _ => lookup0 end.

Lemma almost_ok : tr_ok almost /\ busy almost.
Proof.
  destruct (lookup_exec_ok (Failure (peer 9)) started.2) as (actions & tr' & E & [H1 H2 _ _ _]);
    [exact (proj1 started_ok)|exact (proj2 started_ok)|eexists _, _, _; split; vm_compute; reflexivity|].
  unfold almost. rewrite E. split; [exact H1|exact H2].
Qed.

Lemma lookup_converges_on_closest_witness :
  exists actions tr', exec (Response (peer 5) []) almost = Ok (actions, tr') /\ converged tr' = true /\
    reached (targetNodes tr') (observers tr').
Proof.
  destruct (lookup_converges_on_closest (Response (peer 5) []) almost) as (actions & tr' & E & H);
    [exact (proj1 almost_ok)|exact (proj2 almost_ok)|eexists _, _, _; split; vm_compute; reflexivity|reflexivity|reflexivity|].
  exists actions, tr'. assert (Hc : converged tr' = true).
  { vm_compute in E. injection E as _ <-. reflexivity. }
  split; [exact E|]. split; [exact Hc|]. apply (H Hc).
Defined.

End KadTraversalExamples.
