(* ===== verification/KadSearch.v ===== *)
(** * Kad searches and the index of sources: [src/ed2k/KadSearch.cc], the class
      [KadSourceIndex] of [src/ed2k/KadRouting.cc] and its two handlers in
      [src/ed2k/Kad.cc]

    What nodes tell each other about the sources of a file: entries of an id
    and tags, in search results and in publish requests, and the index that a
    node keeps of what was published to it. A parser that returns [false] or
    catches a [ProtocolError] gives [None]; the callers do not look at the
    argument it was to fill. *)

From Stdlib Require Import String.
From S2P Require Import Prelude Bytes Text Wire Packet KadProtocol KadRouting.

Module KadSearch.
Import Bytes Text Wire Packet KadProtocol KadRouting.

(** ** Data *)

Record KadSearchEntry := mkEntry { entryId : bytes; tags : list Tag }.

Record KadSearchSourcesRequest := mkSourcesRequest {
  requestTarget : bytes;
  startPosition : Z;
  requestSize : Z;
}.

Record KadSearchResult := mkResult {
  sourceId : bytes;
  resultTarget : bytes;
  entries : list KadSearchEntry;
}.

Record KadSourceEndpoint := mkSource {
  sourceEndpoint : Endpoint;
  sourceUdpPort : Z;
  sourceType : Z;
  buddyIp : Z;
  buddyPort : Z;
  buddyHash : bytes;
  buddyId : bytes;
}.

Record KadPublishSourceRequest := mkPublishSource { fileId : bytes; source : KadSearchEntry }.

Definition isSupportedSourceType (t : Z) : bool :=
  (t =? 0) || (t =? 1) || (t =? 3) || (t =? 4) || (t =? 5) || (t =? 6).

Definition isDirectKadTcpSourceType (t : Z) : bool := (t =? 0) || (t =? 1) || (t =? 4).

(** The hash, if [value] is one; else the caller keeps what it has. *)
Definition decodeHexHash (value : bytes) : option bytes :=
  if len value =? HASH_LENGTH * 2 then fromHex value else None.

Definition reverseUInt32Bytes (value : Z) : Z :=
  Z.lor (Z.lor (Z.lor (u32 (Z.shiftl (Z.land value 0x000000ff) 24)) (u32 (Z.shiftl (Z.land value 0x0000ff00) 8)))
    (Z.shiftr (Z.land value 0x00ff0000) 8)) (Z.shiftr (Z.land value 0xff000000) 24).

(** ** Entries *)

(** The loop of [readKadSearchEntry]: the bytes that [n] tags take. *)
Fixpoint copyTags (n : nat) : reader bytes :=
  match n with
  | O => mret []
  | S n =>
      before ← tell;
      _ ← readTag;
      after ← tell;
      data ← whole;
      rest ← copyTags n;
      mret (take (Z.to_nat (after - before)) (drop (Z.to_nat before) data) ++ rest)
  end.

Definition readKadSearchEntry : reader KadSearchEntry :=
  id ← readBytes HASH_LENGTH;
  tagCount ← readByte;
  copied ← copyTags (Z.to_nat tagCount);
  parsed ← lift (parseTagList [] (packUInt32 tagCount ++ copied));
  if negb parsed.1 then throw "Bad Kad search tags." else mret (mkEntry id parsed.2).

Definition packTag (tag : Tag) : result bytes :=
  match valueType tag with
  | STRING => mret (createStringTag (id tag) (stringValue tag))
  | UINT =>
      if 2 ^ 32 - 1 <? intValue tag then mret (createUInt64Tag (id tag) (intValue tag))
      else mret (createUInt32Tag (id tag) (u32 (intValue tag)))
  | _ => Err (ProtocolError "Unsupported Kad search tag.")
  end.

Definition packKadSearchEntry (entry : KadSearchEntry) : result bytes :=
  _ ← validateHashLength (entryId entry);
  if 255 <? len (tags entry) then Err (ProtocolError "Too many Kad search tags.")
  else appendAll packTag (tags entry) (entryId entry ++ [u8 (len (tags entry))]).

(** ** Messages *)

Definition createKadSearchSourcesRequestPayload (target : bytes) (start size : Z) : result bytes :=
  _ ← validateHashLength target; mret (target ++ packUInt16 start ++ packUInt64 size).

Definition parseKadSearchSourcesRequestPayload (payload : bytes) : result (option KadSearchSourcesRequest) :=
  if negb (len payload =? HASH_LENGTH + 10) then mret None
  else parse (
    target ← readBytes HASH_LENGTH; start ← readU16; size ← readU64;
    mret (Some (mkSourcesRequest target start size))) payload.

Definition createKadSearchKeysRequestPayload (target : bytes) (start : Z) : result bytes :=
  _ ← validateHashLength target; mret (target ++ packUInt16 start).

(** [catch (const ProtocolError&) { return false; }] *)
Definition caught {A} (r : result (option A)) : result (option A) :=
  match r with Err (ProtocolError _) => mret None | r => r end.

Definition parseKadSearchResultPayload (payload : bytes) : result (option KadSearchResult) :=
  if len payload <? HASH_LENGTH * 2 + 2 then mret None
  else caught (parse (
    sender ← readBytes HASH_LENGTH;
    target ← readBytes HASH_LENGTH;
    count ← readU16;
    found ← readMany (Z.to_nat count) readKadSearchEntry;
    offset ← tell; n ← size;
    mret (if offset =? n then Some (mkResult sender target found) else None)) payload).

Definition createKadSearchResultPayload (sender target : bytes) (found : list KadSearchEntry) : result bytes :=
  _ ← validateHashLength sender;
  _ ← validateHashLength target;
  if 65535 <? len found then Err (ProtocolError "Too many Kad search results.")
  else appendAll packKadSearchEntry found (sender ++ target ++ packUInt16 (len found)).

(** ** Sources *)

(** The variables of the loop of [extractKadSourceEndpoint]. *)
Record Found := mkFound {
  ip : Z;
  tcp : Z;
  udp : Z;
  crypt : Z;
  kind : Z;
  bIp : Z;
  bPort : Z;
  bId : bytes;
  hasIp : bool;
  hasPort : bool;
}.

Definition seeTag (f : Found) (tag : Tag) : Found :=
  match valueType tag with
  | STRING =>
      if id tag =? 0xf8 then
        mkFound (ip f) (tcp f) (udp f) (crypt f) (kind f) (bIp f) (bPort f)
          (default (bId f) (decodeHexHash (stringValue tag))) (hasIp f) (hasPort f)
      else f
  | UINT =>
      let v := intValue tag in
      if id tag =? 0xfe then mkFound (u32 v) (tcp f) (udp f) (crypt f) (kind f) (bIp f) (bPort f) (bId f) true (hasPort f)
      else if id tag =? 0xfd then mkFound (ip f) (u16 v) (udp f) (crypt f) (kind f) (bIp f) (bPort f) (bId f) (hasIp f) true
      else if id tag =? 0xfc then mkFound (ip f) (tcp f) (u16 v) (crypt f) (kind f) (bIp f) (bPort f) (bId f) (hasIp f) (hasPort f)
      else if id tag =? 0xfb then mkFound (ip f) (tcp f) (udp f) (crypt f) (kind f) (u32 v) (bPort f) (bId f) (hasIp f) (hasPort f)
      else if id tag =? 0xfa then mkFound (ip f) (tcp f) (udp f) (crypt f) (kind f) (bIp f) (u16 v) (bId f) (hasIp f) (hasPort f)
      else if id tag =? 0xff then mkFound (ip f) (tcp f) (udp f) (crypt f) v (bIp f) (bPort f) (bId f) (hasIp f) (hasPort f)
      else if id tag =? 0xf3 then mkFound (ip f) (tcp f) (udp f) (u16 v) (kind f) (bIp f) (bPort f) (bId f) (hasIp f) (hasPort f)
      else f
  | _ => f
  end.

Definition nothingFound : Found := mkFound 0 0 0 0 0 0 0 [] false false.

(** The overload with the details. *)
Definition extractKadSource (entry : KadSearchEntry) : result (option KadSourceEndpoint) :=
  let f := foldl seeTag nothingFound (tags entry) in
  if negb (hasIp f) || negb (hasPort f) || (tcp f =? 0) || negb (isSupportedSourceType (kind f)) then mret None
  else
    hash ← kadIdToEd2kHash (entryId entry);
    mret (Some (mkSource
      (mkEndpoint (ipv4FromEndpoint (reverseUInt32Bytes (ip f))) (tcp f) (crypt f) hash)
      (udp f) (u8 (kind f)) (if bIp f =? 0 then 0 else reverseUInt32Bytes (bIp f)) (bPort f) (bId f) (bId f))).

Definition extractKadSourceEndpoint (entry : KadSearchEntry) : result (option Endpoint) :=
  found ← extractKadSource entry;
  mret (match found with
        | Some s => if isDirectKadTcpSourceType (sourceType s) then Some (sourceEndpoint s) else None
        | None => None
        end).

Fixpoint extractKadSourceEndpointDetails (found : list KadSearchEntry) : result (list KadSourceEndpoint) :=
  match found with
  | [] => mret []
  | entry :: found =>
      s ← extractKadSource entry;
      rest ← extractKadSourceEndpointDetails found;
      mret (match s with Some s => s :: rest | None => rest end)
  end.

Definition extractKadSourceEndpoints (r : KadSearchResult) : result (list Endpoint) :=
  sources ← extractKadSourceEndpointDetails (entries r);
  mret (sourceEndpoint <$> List.filter (fun s => isDirectKadTcpSourceType (sourceType s)) sources).

(** ** Publishing *)

Definition uintTag (i v : Z) : Tag := mkTag i [] 0 UINT [] v [].

Definition publishedTags (host_ : option Z) (port_ size udpPort crypt_ : Z) : list Tag :=
  [uintTag 0xff (if 2 ^ 32 - 1 <? size then 4 else 1)]
  ++ match host_ with Some v => [uintTag 0xfe (reverseUInt32Bytes v)] | None => [] end
  ++ [uintTag 0xfd port_]
  ++ (if udpPort =? 0 then [] else [uintTag 0xfc udpPort])
  ++ (if crypt_ =? 0 then [] else [uintTag 0xf3 crypt_])
  ++ (if size =? 0 then [] else [uintTag 0xd3 size]).

Definition createKadPublishSourceRequestPayload (file : bytes) (from : Endpoint) (sourceId_ : bytes)
    (size udpPort crypt_ : Z) : result bytes :=
  _ ← validateHashLength file;
  _ ← validateHashLength sourceId_;
  host_ ← (if bool_decide (host from = []) then mret None
           else v ← ipv4ToEndpointValue (host from); mret (Some v));
  entry ← packKadSearchEntry (mkEntry sourceId_ (publishedTags host_ (port from) size udpPort crypt_));
  mret (file ++ entry).

Definition parseKadPublishSourceRequestPayload (payload : bytes) : result (option KadPublishSourceRequest) :=
  if len payload <? HASH_LENGTH * 2 + 1 then mret None
  else caught (parse (
    file ← readBytes HASH_LENGTH;
    entry ← readKadSearchEntry;
    offset ← tell; n ← size;
    mret (if offset =? n then Some (mkPublishSource file entry) else None)) payload).

(** ** The index *)

(** A bucket is a file id and its sources. *)
Definition KadSourceIndex : Type := list (bytes * list KadSearchEntry).

Definition sameSourceEndpoint (lhs rhs : KadSearchEntry) : result bool :=
  l ← extractKadSourceEndpoint lhs;
  match l with
  | None => mret false
  | Some l =>
      r ← extractKadSourceEndpoint rhs;
      mret (match r with Some r => sameEndpoint l r | None => false end)
  end.

(** [find_if] and the assignment or [push_back] behind it. *)
Fixpoint replaceSource (entry : KadSearchEntry) (sources : list KadSearchEntry) : result (list KadSearchEntry) :=
  match sources with
  | [] => mret [entry]
  | item :: rest =>
      same ← (if bool_decide (entryId item = entryId entry) then mret true else sameSourceEndpoint item entry);
      match same with
      | true => mret (entry :: rest)
      | false => rest ← replaceSource entry rest; mret (item :: rest)
      end
  end.

Fixpoint storeIn (file : bytes) (entry : KadSearchEntry) (index : KadSourceIndex) : result KadSourceIndex :=
  match index with
  | [] => sources ← replaceSource entry []; mret [(file, sources)]
  | b :: index =>
      if bool_decide (b.1 = file) then sources ← replaceSource entry b.2; mret ((file, sources) :: index)
      else index ← storeIn file entry index; mret (b :: index)
  end.

Definition store (file : bytes) (entry : KadSearchEntry) (index : KadSourceIndex) : result KadSourceIndex :=
  _ ← validateId file; _ ← validateId (entryId entry); storeIn file entry index.

Definition bucketOf (file : bytes) (index : KadSourceIndex) : list KadSearchEntry :=
  match List.find (fun b => bool_decide (b.1 = file)) index with Some b => b.2 | None => [] end.

Definition find (file : bytes) (start limit : Z) (index : KadSourceIndex) : result (list KadSearchEntry) :=
  _ ← validateId file;
  let sources := bucketOf file index in
  if len sources <=? start then mret []
  else
    let last := if limit =? 0 then len sources else Z.min (len sources) (start + limit) in
    mret (take (Z.to_nat (last - start)) (drop (Z.to_nat start) sources)).

Definition indexSize (index : KadSourceIndex) : Z := zsum ((fun b => len b.2) <$> index).

(** ** The handlers *)

Definition maxIndexedSources : Z := 20000.
Definition maxSourcesPerAnswer : Z := 300.

(** [KAD_SEARCH_SOURCES_REQ]: the payload of the answer, if one is sent. *)
Definition searchSources (self : bytes) (index : KadSourceIndex) (payload : bytes) : result (option bytes) :=
  request ← parseKadSearchSourcesRequestPayload payload;
  match request with
  | None => mret None
  | Some r =>
      found ← find (requestTarget r) (Z.land (startPosition r) 0x7fff) maxSourcesPerAnswer index;
      match found with
      | [] => mret None
      | _ => answer ← createKadSearchResultPayload self (requestTarget r) found; mret (Some answer)
      end
  end.

(** Ids are of [HASH_LENGTH] bytes. *)
Definition searchTolerance : Z := Z.shiftl 1 24.
Definition withinTolerance (a target : bytes) : result bool :=
  v ← readUInt32 a; w ← readUInt32 target; mret (Z.lxor v w <=? searchTolerance).

(** Of an IPv4 address, by its bytes. *)
Definition privateAddress (address : Z) : bool :=
  let b0 := Z.land (Z.shiftr address 24) 0xff in
  let b1 := Z.land (Z.shiftr address 16) 0xff in
  (b0 =? 10) || (b0 =? 127) || ((b0 =? 172) && (Z.land b1 0xf0 =? 16)) || ((b0 =? 192) && (b1 =? 168)).

(** The source's address is the one the publish came from. *)
Definition addressed (from : Z) (entry : KadSearchEntry) : KadSearchEntry :=
  mkEntry (entryId entry)
    (uintTag 0xfe from :: List.filter (fun tag => negb (id tag =? 0xfe)) (tags entry)).

(** [KAD_PUBLISH_SOURCE_REQ] from the address [from]: the payload of the
    answer, if one is sent, and the index. *)
Definition publishSource (self : bytes) (from : Z) (index : KadSourceIndex) (payload : bytes) :
    result (option bytes * KadSourceIndex) :=
  request ← parseKadPublishSourceRequestPayload payload;
  match request with
  | None => mret (None, index)
  | Some r =>
      near ← withinTolerance self (fileId r);
      if negb near && negb (privateAddress from) then mret (None, index)
      else
        index ← (if indexSize index <? maxIndexedSources then store (fileId r) (addressed from (source r)) index
                 else mret index);
        stored ← find (fileId r) 0 0 index;
        answer ← createKadPublishResultPayload (fileId r) (u8 (Z.min (len stored) 100));
        mret (Some answer, index)
  end.

(** A packet that makes a handler throw is dropped. *)
Definition receive (self : bytes) (index : KadSourceIndex) (packet : Z * bytes) : KadSourceIndex :=
  match publishSource self packet.1 index packet.2 with Ok (_, index') => index' | Err _ => index end.

(** ** Lemmas *)

Lemma reverse_swap v : reverseUInt32Bytes v = swapBytes v.
Proof. reflexivity. Qed.

(** *** Tags that can be sent *)

(** The writer knows strings and numbers; a string has a 16-bit length. *)
Definition sendable (t : Tag) : Prop :=
  0 <= id t < 256 /\
  match valueType t with
  | STRING => len (stringValue t) < 2 ^ 16
  | UINT => 0 <= intValue t < 2 ^ 64
  | _ => False
  end.

(** The tag that is read where [t] was written. *)
Definition readBack (t : Tag) : Tag :=
  match valueType t with
  | STRING => mkTag (id t) [] (stringTagType (stringValue t)) STRING (stringValue t) 0 []
  | _ => mkTag (id t) [] (if 2 ^ 32 - 1 <? intValue t then 0xb else 3) UINT [] (intValue t) []
  end.
Definition written (t : Tag) : bytes := match packTag t with Ok b => b | Err _ => [] end.

Lemma packTag_written t : sendable t -> packTag t = Ok (written t).
Proof.
  intros [Hi Ht]. unfold written, packTag. destruct (valueType t); try done. by destruct (_ <? _).
Qed.
Lemma reads_written t : sendable t -> reads readTag (written t) (readBack t).
Proof.
  intros [Hi Ht]. unfold written, packTag, readBack. destruct (valueType t); try done.
  - by apply reads_stringTag.
  - destruct (Z.ltb_spec (2 ^ 32 - 1) (intValue t)).
    + by apply reads_uint64Tag.
    + rewrite u32_small by lia. apply reads_uint32Tag; lia.
Qed.
Lemma written_readBack t : sendable t -> written (readBack t) = written t.
Proof. intros [Hi Ht]. unfold written, packTag, readBack. by destruct (valueType t). Qed.
Lemma written_readBacks l : Forall sendable l -> (readBack <$> l) ≫= written = l ≫= written.
Proof.
  induction 1 as [|t l Ht Hl IH]; [done|]. rewrite fmap_cons, !bind_cons, IH. by rewrite written_readBack.
Qed.

(** *** Entries *)

(** The bytes of tags are copied. *)
Lemma reads_copied l (write : Tag -> bytes) :
  Forall (fun t => reads readTag (write t) t) l -> reads (copyTags (length l)) (l ≫= write) (l ≫= write).
Proof.
  induction 1 as [|t l Ht Hl IH]; [apply reads_ret|]. intros data offset rest Ha.
  rewrite bind_cons in Ha |- *. rewrite <- app_assoc in Ha. cbn [length copyTags]. unfold tell, whole. monad.
  rewrite (Ht _ _ _ Ha). monad. rewrite (IH _ _ _ (ahead_step _ _ _ _ Ha)). monad.
  destruct Ha as [Ho Hd]. rewrite Hd, len_app. do 2 f_equal; [|lia].
  replace (Z.to_nat (offset + len (write t) - offset)) with (length (write t)) by (unfold len; lia).
  by rewrite take_app_length.
Qed.

Definition entry_ok (e : KadSearchEntry) : Prop :=
  len (entryId e) = HASH_LENGTH /\ len (tags e) <= 255 /\ Forall sendable (tags e).
Definition entryBack (e : KadSearchEntry) : KadSearchEntry := mkEntry (entryId e) (readBack <$> tags e).
Definition entryBytes (e : KadSearchEntry) : bytes :=
  entryId e ++ [u8 (len (tags e))] ++ (tags e ≫= written).

Lemma packEntry_bytes e : entry_ok e -> packKadSearchEntry e = Ok (entryBytes e).
Proof.
  intros (Hi & Hn & Ht). unfold packKadSearchEntry. rewrite hash_valid by done. monad.
  destruct (Z.ltb_spec 255 (len (tags e))); [lia|]. rewrite (appendAll_written _ written).
  - unfold entryBytes. by rewrite <- app_assoc.
  - eapply Forall_impl; [exact Ht|]. apply packTag_written.
Qed.

(** An entry of any tags the reader knows. *)
Lemma reads_tagged i l (write : Tag -> bytes) :
  len i = HASH_LENGTH -> len l <= 255 -> Forall (fun t => reads readTag (write t) t) l ->
  reads readKadSearchEntry (i ++ [u8 (len l)] ++ (l ≫= write)) (mkEntry i l).
Proof.
  intros Hi Hn Hl. pose proof (len_nonneg l) as H0. unfold readKadSearchEntry.
  eapply reads_bind; [by apply reads_hash|]. eapply reads_bind; [apply reads_byte_u8; lia|].
  replace (Z.to_nat (len l)) with (length l) by (unfold len; lia).
  eapply reads_last; [by apply reads_copied|]. eapply reads_first; [apply reads_lift|].
  - apply parseTagList_written; [|lia]. by apply Forall_forall.
  - apply reads_ret.
Qed.
Lemma reads_searchEntry e : entry_ok e -> reads readKadSearchEntry (entryBytes e) (entryBack e).
Proof.
  intros (Hi & Hn & Ht). unfold entryBytes, entryBack.
  replace (len (tags e)) with (len (readBack <$> tags e)) by (unfold len; by rewrite length_fmap).
  rewrite <- written_readBacks by done. apply reads_tagged; [done|unfold len in *; by rewrite length_fmap|].
  apply Forall_fmap. eapply Forall_impl; [exact Ht|]. intros t Hs. cbn. rewrite written_readBack by done.
  by apply reads_written.
Qed.

Lemma seen_readBack f t : sendable t -> seeTag f (readBack t) = seeTag f t.
Proof. intros [_ Ht]. unfold seeTag, readBack. by destruct (valueType t). Qed.
Lemma extract_readBack e : entry_ok e -> extractKadSource (entryBack e) = extractKadSource e.
Proof.
  intros (_ & _ & Ht). unfold extractKadSource, entryBack. cbn [tags entryId].
  assert (forall f, foldl seeTag f (readBack <$> tags e) = foldl seeTag f (tags e)) as E.
  { clear -Ht. induction Ht as [|t l Ht Hl IH]; intros f; [done|]. rewrite fmap_cons. cbn [foldl].
    rewrite seen_readBack by done. apply IH. }
  by rewrite E.
Qed.

(** *** Messages *)

Lemma result_bytes sender target found :
  len sender = HASH_LENGTH -> len target = HASH_LENGTH -> len found < 2 ^ 16 -> Forall entry_ok found ->
  createKadSearchResultPayload sender target found =
    Ok (sender ++ target ++ packUInt16 (len found) ++ (found ≫= entryBytes)).
Proof.
  intros Hs Ht Hn Hf. unfold createKadSearchResultPayload. rewrite !hash_valid by done. monad.
  destruct (Z.ltb_spec 65535 (len found)); [lia|]. rewrite (appendAll_written _ entryBytes).
  - by rewrite <- !app_assoc.
  - eapply Forall_impl; [exact Hf|]. apply packEntry_bytes.
Qed.

Lemma readMany_entries l :
  Forall entry_ok l -> reads (readMany (length l) readKadSearchEntry) (l ≫= entryBytes) (entryBack <$> l).
Proof.
  induction 1 as [|e l He Hl IH]; [apply reads_ret|]. rewrite bind_cons, fmap_cons. cbn [length readMany].
  eapply reads_bind; [by apply reads_searchEntry|]. eapply reads_last; [exact IH|]. apply reads_ret.
Qed.

(** A search result is read as it was written. *)
Lemma result_roundtrip sender target found :
  len sender = HASH_LENGTH -> len target = HASH_LENGTH -> len found < 2 ^ 16 -> Forall entry_ok found ->
  exists payload, createKadSearchResultPayload sender target found = Ok payload /\
    parseKadSearchResultPayload payload = Ok (Some (mkResult sender target (entryBack <$> found))).
Proof.
  intros Hs Ht Hn Hf. eexists. split; [by apply result_bytes|]. unfold parseKadSearchResultPayload.
  pose proof (len_nonneg (found ≫= entryBytes)) as H0. pose proof (len_nonneg found) as H1.
  rewrite !len_app, Hs, Ht. unfold packUInt16 at 1. rewrite len_pack.
  destruct (Z.ltb_spec (HASH_LENGTH + (HASH_LENGTH + (Z.of_nat 2 + len (found ≫= entryBytes)))) (HASH_LENGTH * 2 + 2)); [lia|].
  erewrite ends_parse; [reflexivity|].
  eapply ends_bind; [by apply reads_hash|]. eapply ends_bind; [by apply reads_hash|].
  eapply ends_bind; [apply reads_u16; lia|].
  replace (Z.to_nat (len found)) with (length found) by (unfold len; lia).
  eapply ends_last; [by apply readMany_entries|]. apply ends_tell, ends_size.
  rewrite !len_app. destruct (Z.eqb_spec (0 + len sender + len target + len (packUInt16 (len found)) + len (found ≫= entryBytes))
    (len sender + (len target + (len (packUInt16 (len found)) + len (found ≫= entryBytes))))); [|lia].
  apply ends_ret.
Qed.

Lemma request_roundtrip target start size :
  len target = HASH_LENGTH -> 0 <= start < 2 ^ 16 -> 0 <= size < 2 ^ 64 ->
  exists payload, createKadSearchSourcesRequestPayload target start size = Ok payload /\
    parseKadSearchSourcesRequestPayload payload = Ok (Some (mkSourcesRequest target start size)).
Proof.
  intros Ht Hp Hs. unfold createKadSearchSourcesRequestPayload, parseKadSearchSourcesRequestPayload.
  rewrite hash_valid by done. eexists. split; [reflexivity|]. rewrite !len_app, Ht.
  unfold packUInt16 at 1, packUInt64 at 1. rewrite !len_pack.
  change (HASH_LENGTH + (Z.of_nat 2 + Z.of_nat 8) =? HASH_LENGTH + 10) with true. cbn [negb].
  apply reads_parse. eapply reads_bind; [by apply reads_hash|]. eapply reads_bind; [by apply reads_u16|].
  eapply reads_last; [by apply reads_u64|]. apply reads_ret.
Qed.

(** A publish request of a file and an entry. *)
Lemma publish_parsed file b e :
  len file = HASH_LENGTH -> HASH_LENGTH + 1 <= len b -> reads readKadSearchEntry b e ->
  parseKadPublishSourceRequestPayload (file ++ b) = Ok (Some (mkPublishSource file e)).
Proof.
  intros Hf Hb He. unfold parseKadPublishSourceRequestPayload. rewrite len_app.
  destruct (Z.ltb_spec (len file + len b) (HASH_LENGTH * 2 + 1)); [lia|].
  erewrite ends_parse; [reflexivity|].
  eapply ends_bind; [by apply reads_hash|]. eapply ends_last; [exact He|]. apply ends_tell, ends_size.
  rewrite len_app. destruct (Z.eqb_spec (0 + len file + len b) (len file + len b)); [|lia]. apply ends_ret.
Qed.

Lemma len_entryBytes i (l : bytes) n : len i = HASH_LENGTH -> HASH_LENGTH + 1 <= len (i ++ [u8 n] ++ l).
Proof. intros Hi. rewrite !len_app, Hi. change (len [u8 n]) with 1. pose proof (len_nonneg l). lia. Qed.

(** *** The index *)

Lemma id_valid i : len i = HASH_LENGTH -> validateId i = Ok tt.
Proof. intros H. unfold validateId, validId. by rewrite H. Qed.

Definition sized (index : KadSourceIndex) : Prop :=
  Forall (fun b => Forall (fun e => len (entryId e) = HASH_LENGTH) b.2) index.

Lemma extract_ok e : len (entryId e) = HASH_LENGTH -> exists r, extractKadSource e = Ok r.
Proof.
  intros He. unfold extractKadSource. destruct (_ || _); [by eexists|].
  unfold kadIdToEd2kHash, ed2kHashToKadId. rewrite hash_valid by done. monad. by eexists.
Qed.
Lemma extractEndpoint_ok e : len (entryId e) = HASH_LENGTH -> exists r, extractKadSourceEndpoint e = Ok r.
Proof.
  intros He. unfold extractKadSourceEndpoint. destruct (extract_ok e He) as [r ->]. monad. by eexists.
Qed.
Lemma sameSource_ok a b :
  len (entryId a) = HASH_LENGTH -> len (entryId b) = HASH_LENGTH -> exists r, sameSourceEndpoint a b = Ok r.
Proof.
  intros Ha Hb. unfold sameSourceEndpoint. destruct (extractEndpoint_ok a Ha) as [[l|] ->]; monad; [|by eexists].
  destruct (extractEndpoint_ok b Hb) as [r ->]. monad. by eexists.
Qed.

(** The new entry takes the place of one entry or comes last. *)
Lemma replaceSource_spec e l :
  len (entryId e) = HASH_LENGTH -> Forall (fun e => len (entryId e) = HASH_LENGTH) l ->
  exists l1 l2 old, replaceSource e l = Ok (l1 ++ e :: l2) /\ l = l1 ++ old ++ l2 /\
    (length old = 1%nat \/ old = [] /\ l2 = []).
Proof.
  intros He. induction 1 as [|x l Hx Hl IH]; cbn [replaceSource]; monad.
  { exists [], [], []. by split_and!; [| |right]. }
  assert (exists same, (if bool_decide (entryId x = entryId e) then Ok true else sameSourceEndpoint x e) = Ok same) as [same Es].
  { case_bool_decide; [by eexists|]. by apply sameSource_ok. }
  rewrite Es. destruct same.
  - exists [], l, [x]. by split_and!; [| |left].
  - destruct IH as (l1 & l2 & old & -> & -> & H). by exists (x :: l1), l2, old.
Qed.

(** The bucket of the file gets the entry, or a new bucket with it comes last. *)
Lemma storeIn_spec file e index :
  len (entryId e) = HASH_LENGTH -> sized index -> exists index', storeIn file e index = Ok index' /\
  ((exists i1 l l' i2, index = i1 ++ (file, l) :: i2 /\ (file ∉ i1.*1) /\ replaceSource e l = Ok l' /\
      index' = i1 ++ (file, l') :: i2) \/
   ((file ∉ index.*1) /\ index' = index ++ [(file, [e])])).
Proof.
  intros He. induction 1 as [|[f l] index Hb Hi IH]; cbn [storeIn].
  { eexists. split; [reflexivity|]. right. split; [apply not_elem_of_nil|done]. }
  cbn [fst snd] in *. case_bool_decide as Hf.
  - subst f. destruct (replaceSource_spec e l He Hb) as (l1 & l2 & old & E & _). rewrite E. monad.
    eexists. split; [reflexivity|]. left. exists [], l, (l1 ++ e :: l2), index. split_and!; try done. apply not_elem_of_nil.
  - destruct IH as (index' & -> & H). monad. eexists. split; [reflexivity|].
    destruct H as [(i1 & k & k' & i2 & -> & Hn & E & ->)|(Hn & ->)].
    + left. exists ((f, l) :: i1), k, k', i2. split_and!; try done. rewrite fmap_cons. cbn. set_solver.
    + right. split; [|done]. rewrite fmap_cons. cbn. set_solver.
Qed.

Lemma bucketOf_at file i1 l i2 : (file ∉ i1.*1) -> bucketOf file (i1 ++ (file, l) :: i2) = l.
Proof.
  induction i1 as [|[f k] i1 IH]; intros Hn; unfold bucketOf; cbn [app List.find fst].
  - by rewrite bool_decide_eq_true_2.
  - rewrite fmap_cons in Hn. cbn in Hn. rewrite bool_decide_eq_false_2 by set_solver. apply IH. set_solver.
Qed.
Lemma bucketOf_none file index : (file ∉ index.*1) -> bucketOf file index = [].
Proof.
  induction index as [|[f k] i1 IH]; intros Hn; unfold bucketOf; cbn [List.find fst]; [done|].
  rewrite fmap_cons in Hn. cbn in Hn. rewrite bool_decide_eq_false_2 by set_solver. apply IH. set_solver.
Qed.
Lemma bucketOf_sized file index : sized index -> Forall (fun e => len (entryId e) = HASH_LENGTH) (bucketOf file index).
Proof.
  induction 1 as [|[f k] i1 Hb Hi IH]; unfold bucketOf; cbn [List.find fst]; [constructor|].
  by case_bool_decide.
Qed.

Lemma storeIn_bucket file e index :
  len (entryId e) = HASH_LENGTH -> sized index -> exists index' l', storeIn file e index = Ok index' /\
    replaceSource e (bucketOf file index) = Ok l' /\ bucketOf file index' = l'.
Proof.
  intros He Hs. destruct (storeIn_spec file e index He Hs) as (index' & E & H). exists index'.
  destruct H as [(i1 & l & l' & i2 & -> & Hn & Er & ->)|(Hn & ->)].
  - exists l'. by rewrite !bucketOf_at.
  - exists [e]. by rewrite bucketOf_at, bucketOf_none.
Qed.

Lemma indexSize_app i k : indexSize (i ++ k) = indexSize i + indexSize k.
Proof.
  unfold indexSize. by rewrite fmap_app, zsum_app.
Qed.
Lemma indexSize_cons b i : indexSize (b :: i) = len b.2 + indexSize i.
Proof. reflexivity. Qed.

(** *** What is stored *)

Definition tag_range (t : Tag) : Prop :=
  0 <= id t < 256 /\ (valueType t = STRING -> len (stringValue t) < 2 ^ 16) /\
  (valueType t = UINT -> 0 <= intValue t < 2 ^ 64).

(** An entry of an id and tags, of which the first is the address it came
    from and no other is an address. *)
Definition stored_ok (e : KadSearchEntry) : Prop :=
  len (entryId e) = HASH_LENGTH /\ len (tags e) <= 256 /\ Forall tag_range (tags e) /\
  exists from rest, tags e = uintTag 0xfe from :: rest /\ 0 <= from < 2 ^ 32 /\ Forall (fun t => id t <> 0xfe) rest.
Definition bucket_ok (b : bytes * list KadSearchEntry) : Prop :=
  len b.1 = HASH_LENGTH /\ b.2 <> [] /\ Forall stored_ok b.2.
Definition index_ok (index : KadSourceIndex) : Prop :=
  NoDup index.*1 /\ Forall bucket_ok index /\ indexSize index <= maxIndexedSources.

Lemma index_sized index : index_ok index -> sized index.
Proof.
  intros (_ & Hb & _). eapply Forall_impl; [exact Hb|]. intros b (_ & _ & Hs). eapply Forall_impl; [exact Hs|].
  by intros e (Hi & _).
Qed.

Lemma replaceSource_keeps e l l' :
  stored_ok e -> Forall stored_ok l -> replaceSource e l = Ok l' ->
  l' <> [] /\ Forall stored_ok l' /\ len l <= len l' <= len l + 1.
Proof.
  intros He Hl E. destruct (replaceSource_spec e l) as (l1 & l2 & old & E' & -> & Ho).
  { apply He. } { eapply Forall_impl; [exact Hl|]. by intros x []. }
  rewrite E in E'. injection E' as ->. rewrite !Forall_app in Hl. destruct Hl as (H1 & H2 & H3). split_and!.
  - by destruct l1.
  - apply Forall_app. by split; [|constructor].
  - rewrite !len_app, len_cons. unfold len. destruct Ho as [->|[-> ->]]; cbn; lia.
  - rewrite !len_app, len_cons. unfold len. destruct Ho as [->|[-> ->]]; cbn; lia.
Qed.

(** Storing below the limit keeps the index well formed, and forgets nothing. *)
Lemma store_ok file e index :
  index_ok index -> indexSize index < maxIndexedSources -> len file = HASH_LENGTH -> stored_ok e ->
  exists index', store file e index = Ok index' /\ index_ok index' /\ indexSize index <= indexSize index' /\
    (forall f, f ∈ index.*1 -> f ∈ index'.*1).
Proof.
  intros Hi Hs Hf He. unfold store. rewrite !id_valid by (done || apply He). monad.
  destruct (storeIn_spec file e index) as (index' & -> & H); [apply He|by apply index_sized|].
  exists index'. split; [done|]. unfold index_ok. destruct Hi as (Hn & Hb & _).
  destruct H as [(i1 & l & l' & i2 & -> & Hnf & Er & ->)|(Hnf & ->)].
  - apply Forall_app in Hb as [H1 H2]. apply Forall_cons in H2 as [(Hx & Hne & Hl) H2].
    destruct (replaceSource_keeps e l l' He Hl Er) as (H3 & H4 & H5).
    rewrite !indexSize_app, !indexSize_cons in Hs |- *. cbn [snd] in *. split_and!.
    + by rewrite fmap_app, fmap_cons in Hn |- *.
    + apply Forall_app. split; [done|]. by constructor.
    + lia.
    + rewrite indexSize_app, indexSize_cons. cbn [snd]. lia.
    + intros f. by rewrite !fmap_app, !fmap_cons.
  - rewrite indexSize_app. change (indexSize [(file, [e])]) with 1. split_and!; try lia.
    + rewrite fmap_app. apply NoDup_app. split_and!; [done| |apply NoDup_singleton].
      intros f Hf1 Hf2. apply list_elem_of_singleton in Hf2 as ->. done.
    + apply Forall_app. split; [done|]. constructor; [|done]. split_and!; [done|done|by constructor].
    + intros f Hf1. rewrite fmap_app. apply elem_of_app. by left.
Qed.

(** *** What the reader gives *)

Definition yields {A} (P : A -> Prop) (r : reader A) : Prop :=
  forall data offset v o, bytes_ok data -> r data offset = Ok (v, o) -> P v.

Lemma yields_bind {A B} (P : A -> Prop) (Q : B -> Prop) (r : reader A) (k : A -> reader B) :
  yields P r -> (forall v, P v -> yields Q (k v)) -> yields Q (x ← r; k x).
Proof.
  intros Hr Hk data offset v o Hd. unfold mbind, reader_bind. destruct (r data offset) as [[a o']|] eqn:E; [|done].
  apply Hk; [|done]. by eapply Hr.
Qed.
Lemma yields_ret {A} (P : A -> Prop) v : P v -> yields P (mret v).
Proof. by intros Hv data offset w o _ [= <- _]. Qed.
Lemma yields_throw {A} (P : A -> Prop) m : yields P (throw m).
Proof. by intros data offset w o _. Qed.
Lemma yields_any {A} (r : reader A) : yields (fun _ => True) r.
Proof. by intros data offset v o _ _. Qed.
Lemma yields_lift {A} (P : A -> Prop) r : (forall v, r = Ok v -> P v) -> yields P (lift r).
Proof. intros H data offset v o _. unfold lift. destruct r; [|done]. intros [= <- _]. by apply H. Qed.

Lemma yields_byte : yields byte_ok readByte.
Proof.
  intros data offset v o Hd. unfold readByte. destruct (_ <=? _); [done|]. unfold at_. destruct (_ <? _); [done|].
  destruct (data !! _) as [b|] eqn:E; [|done]. intros [= <- _]. unfold bytes_ok in Hd. rewrite Forall_forall in Hd.
  apply Hd. by eapply list_elem_of_lookup_2.
Qed.
Lemma yields_bytes n : yields (fun b => bytes_ok b /\ len b = u64 n) (readBytes n).
Proof.
  intros data offset v o Hd. unfold readBytes. destruct (Z.ltb_spec (len data) (u64 n)); [done|].
  destruct (Z.ltb_spec (len data - u64 n) offset); [done|]. intros [= <- _]. split.
  - by apply Forall_take, Forall_drop.
  - unfold len in *. rewrite length_take, length_drop. assert (0 <= u64 n) by (apply Z.mod_pos_bound; lia). lia.
Qed.
Lemma yields_u16 : yields (fun v => 0 <= v < 2 ^ 16) readU16.
Proof. eapply yields_bind; [apply yields_any|]. intros b _. apply yields_lift. intros v. apply u16_range. Qed.

Lemma mod_range v n : 0 <= n -> 0 <= v mod 2 ^ n < 2 ^ n.
Proof. intros Hn. apply Z.mod_pos_bound. by apply Z.pow_pos_nonneg. Qed.

Lemma yields_u32 : yields (fun v => 0 <= v < 2 ^ 32) readU32.
Proof.
  eapply yields_bind; [apply yields_any|]. intros b _. apply yields_lift. intros v. unfold readUInt32. monad.
  destruct (at_ b 0), (at_ b 1), (at_ b 2), (at_ b 3); try done. intros [= <-].
  by repeat apply lor_below; try apply mod_range.
Qed.
Lemma yields_u64 : yields (fun v => 0 <= v < 2 ^ 64) readU64.
Proof.
  eapply yields_bind; [apply yields_any|]. intros b _. apply yields_lift. intros v. unfold readUInt64.
  generalize [0; 1; 2; 3; 4; 5; 6; 7]. intros l.
  assert (forall r, (forall v, r = Ok v -> 0 <= v < 2 ^ 64) -> forall v, foldl (fun value i => value ← value; b ← at_ b i;
    mret (Z.lor value (u64 (Z.shiftl (u64 b) (i * 8))))) r l = Ok v -> 0 <= v < 2 ^ 64) as H.
  { clear v. induction l as [|i l IH]; intros r Hr v; [apply Hr|]. cbn [foldl]. apply IH. clear v IH. intros v. monad.
    destruct r as [a|]; [|done]. destruct (at_ b i); [|done]. intros [= <-].
    apply lor_below; [done|by apply Hr|by apply mod_range]. }
  apply H. by intros ? [= <-].
Qed.

Lemma yields_many {A} (P : A -> Prop) n (r : reader A) :
  yields P r -> yields (fun l => Forall P l /\ length l = n) (readMany n r).
Proof.
  intros Hr. induction n as [|n IH]; cbn [readMany]; [apply yields_ret; by split|].
  eapply yields_bind; [exact Hr|]. intros x Hx. eapply yields_bind; [exact IH|]. intros l [Hl <-].
  apply yields_ret. split; [by constructor|done].
Qed.

Lemma yields_tagValue type : yields (fun '(vt, s, v, _) =>
  (vt = STRING -> len s < 2 ^ 16) /\ (vt = UINT -> 0 <= v < 2 ^ 64)) (readTagValue type).
Proof.
  assert (2 ^ 16 < 2 ^ 32 < 2 ^ 64) as Hp by done. unfold readTagValue.
  repeat match goal with |- context [if ?c then _ else _] => destruct c eqn:? end;
    try (eapply yields_bind; [apply yields_byte || apply yields_u16 || apply yields_u32 || apply yields_u64 || apply yields_bytes|]; intros ? ?);
    try (eapply yields_bind; [apply yields_bytes|]; intros ? [? ?]); try (apply yields_ret; split; intros; try done; unfold byte_ok in *; lia).
  all: apply yields_ret; split; [intros _|done]; cbv beta in *; zprop; destruct_and?.
  all: match goal with H : len _ = u64 _ |- _ => rewrite u64_small in H by lia; lia end.
Qed.
Lemma yields_tagName type : yields (fun '(i, _) => 0 <= i < 256) (readTagName type).
Proof.
  unfold readTagName. destruct (negb _).
  - eapply yields_bind; [apply yields_byte|]. intros i Hi. by apply yields_ret.
  - eapply yields_bind; [apply yields_any|]. intros n _. eapply yields_bind; [apply yields_bytes|]. intros s [Hs _].
    apply yields_ret. destruct s as [|c [|]]; [done| |done]. by apply Forall_cons in Hs as [Hc _].
Qed.
Lemma yields_tag : yields tag_range readTag.
Proof.
  unfold readTag. eapply yields_bind; [apply yields_any|]. intros b _. cbv zeta.
  eapply yields_bind; [apply yields_tagName|]. intros [i n] Hi. eapply yields_bind; [apply yields_tagValue|].
  intros [[[vt s] v] c] [Hs Hv]. by apply yields_ret.
Qed.

Lemma yields_copied n : yields bytes_ok (copyTags n).
Proof.
  induction n as [|n IH]; cbn [copyTags]; [apply yields_ret; constructor|]. intros data offset v o Hd. unfold tell, whole. monad.
  destruct (readTag data offset) as [[t o1]|]; [|done]. destruct (copyTags n data o1) as [[c o2]|] eqn:E; [|done].
  intros [= <- _]. apply Forall_app. split; [by apply Forall_take, Forall_drop|]. by eapply IH.
Qed.

Lemma bytes_pack n v : bytes_ok (pack n v).
Proof. unfold pack. apply Forall_fmap, Forall_forall. intros i _. apply mod_range. lia. Qed.

Lemma parsed_tags n b r :
  0 <= n < 256 -> bytes_ok b -> parseTagList [] (packUInt32 n ++ b) = Ok r -> Forall tag_range r.2 /\ len r.2 <= 255.
Proof.
  intros Hn Hb. unfold parseTagList. destruct (_ <? _); [intros [= <-]; split; [constructor|done]|].
  assert (bytes_ok (packUInt32 n ++ b)) as Hd by (apply Forall_app; split; [apply bytes_pack|done]).
  unfold parse. monad. rewrite (reads_u32 n ltac:(lia) _ 0 b (ahead_start _)).
  destruct (Z.ltb_spec 10000 n); [lia|]. monad. destruct (readMany _ _ _ _) as [[l o]|] eqn:E; [|done].
  unfold tell, size. intros [= <-]. cbn [snd]. destruct (yields_many _ _ _ yields_tag _ _ _ _ Hd E) as [Hl Hc].
  split; [done|]. unfold len. lia.
Qed.

Lemma yields_entry : yields (fun e => len (entryId e) = HASH_LENGTH /\ len (tags e) <= 255 /\ Forall tag_range (tags e))
  readKadSearchEntry.
Proof.
  unfold readKadSearchEntry. eapply (yields_bind (fun b => len b = HASH_LENGTH)).
  { intros data offset b o Hd E. by destruct (yields_bytes _ _ _ _ _ Hd E) as [_ ->]. }
  intros i Hi. eapply yields_bind; [apply yields_byte|]. intros n Hn. eapply yields_bind; [apply yields_copied|].
  intros b Hb. eapply yields_bind; [apply yields_lift; intros r E; exact (parsed_tags n b r Hn Hb E)|].
  intros r [H1 H2]. destruct (negb _); [apply yields_throw|]. by apply yields_ret.
Qed.

(** *** The handlers *)

Lemma safe_copied n : safe (copyTags n).
Proof. induction n as [|n IH]; cbn [copyTags]; [apply safe_ret|]. solve_safe. Qed.
Lemma safe_entry : safe readKadSearchEntry.
Proof.
  unfold readKadSearchEntry. apply safe_bind; [auto with wire|]. intros i. apply safe_bind; [auto with wire|]. intros n.
  apply safe_bind; [apply safe_copied|]. intros b. apply safe_bind; [apply safe_lift, sane_tagList|]. intros r. solve_safe.
Qed.
#[local] Hint Resolve safe_entry : wire.

Lemma caught_ok {A} (r : result (option A)) : sane r -> exists v, caught r = Ok v.
Proof. destruct r as [v|e]; [by eexists|]. intros [m ->]. by eexists. Qed.

Lemma parsePublish_ok payload :
  bytes_ok payload -> exists r, parseKadPublishSourceRequestPayload payload = Ok r /\
  match r with
  | None => True
  | Some r => len (fileId r) = HASH_LENGTH /\ len (entryId (source r)) = HASH_LENGTH /\
      len (tags (source r)) <= 255 /\ Forall tag_range (tags (source r))
  end.
Proof.
  intros Hb. unfold parseKadPublishSourceRequestPayload. destruct (_ <? _); [by eexists|].
  set (r := (file ← _; _) : reader _). assert (safe r) as Hs by (subst r; solve_safe).
  destruct (caught_ok (parse r payload)) as [v Ev]; [by apply safe_parse|]. rewrite Ev. eexists. split; [done|].
  destruct v as [v|]; [|done]. unfold parse in Ev. destruct (r payload 0) as [[w o]|[]] eqn:E; try done.
  injection Ev as ->. revert E. generalize 0. intros offset E.
  enough (yields (fun w => match w with Some v => len (fileId v) = HASH_LENGTH /\ len (entryId (source v)) = HASH_LENGTH /\
    len (tags (source v)) <= 255 /\ Forall tag_range (tags (source v)) | None => True end) r) as H by exact (H _ _ _ _ Hb E).
  clear. subst r. eapply yields_bind; [apply yields_bytes|]. intros f [_ Hf]. eapply yields_bind; [apply yields_entry|].
  intros e He. eapply yields_bind; [apply yields_any|]. intros o _. eapply yields_bind; [apply yields_any|]. intros n _.
  apply yields_ret. by destruct (_ =? _).
Qed.

Lemma addressed_ok from e :
  0 <= from < 2 ^ 32 -> len (entryId e) = HASH_LENGTH -> len (tags e) <= 255 -> Forall tag_range (tags e) ->
  stored_ok (addressed from e).
Proof.
  intros Hf Hi Hn Ht. assert (2 ^ 32 < 2 ^ 64) as Hp by done. unfold addressed. set (kept := List.filter _ _).
  assert (forall t, t ∈ kept -> t ∈ tags e /\ id t <> 0xfe) as Hk.
  { intros t Hk. apply list_elem_of_In, List.filter_In in Hk as [Hk Hd]. apply list_elem_of_In in Hk. zprop. done. }
  split_and!; cbn [tags entryId]; [done| | |].
  - rewrite len_cons. pose proof (List.filter_length_le (fun tag => negb (id tag =? 0xfe)) (tags e)). fold kept in H.
    unfold len in *. lia.
  - constructor; [by split_and!; [| | |cbn; lia]|]. rewrite Forall_forall in Ht. apply Forall_forall.
    intros t Hkt. by apply Ht, Hk.
  - exists from, kept. split_and!; [done|lia|lia|]. apply Forall_forall. intros t Hkt. by apply Hk.
Qed.

Lemma within_ok a b : len a = HASH_LENGTH -> len b = HASH_LENGTH -> exists r, withinTolerance a b = Ok r.
Proof.
  intros Ha Hb. unfold withinTolerance. destruct (u32_ok a) as [v ->]; [by rewrite Ha|].
  destruct (u32_ok b) as [w ->]; [by rewrite Hb|]. by eexists.
Qed.
Lemma find_ok file start limit index : len file = HASH_LENGTH -> exists l, find file start limit index = Ok l.
Proof. intros Hf. unfold find. rewrite id_valid by done. monad. destruct (_ <=? _); by eexists. Qed.

Lemma publishSource_ok self from index payload :
  len self = HASH_LENGTH -> 0 <= from < 2 ^ 32 -> bytes_ok payload -> index_ok index ->
  exists answer index', publishSource self from index payload = Ok (answer, index') /\ index_ok index' /\
    indexSize index <= indexSize index' /\ (forall f, f ∈ index.*1 -> f ∈ index'.*1).
Proof.
  intros Hs Hf Hb Hi. unfold publishSource. destruct (parsePublish_ok payload Hb) as (r & -> & Hr). monad.
  destruct r as [r|]; [|by exists None, index]. destruct Hr as (H1 & H2 & H3 & H4).
  destruct (within_ok self (fileId r) Hs H1) as [near ->]. destruct (_ && _); [by exists None, index|].
  assert (exists index', (if indexSize index <? maxIndexedSources then store (fileId r) (addressed from (source r)) index
    else Ok index) = Ok index' /\ index_ok index' /\ indexSize index <= indexSize index' /\
    (forall f, f ∈ index.*1 -> f ∈ index'.*1)) as (index' & -> & H).
  { destruct (Z.ltb_spec (indexSize index) maxIndexedSources); [|by exists index].
    apply store_ok; [done..|]. by apply addressed_ok. }
  destruct (find_ok (fileId r) 0 0 index' H1) as [l ->]. unfold createKadPublishResultPayload.
  rewrite hash_valid by done. monad. by eexists _, _.
Qed.

Lemma full_unchanged self from index payload answer index' :
  maxIndexedSources <= indexSize index -> publishSource self from index payload = Ok (answer, index') -> index' = index.
Proof.
  intros Hfull. unfold publishSource. monad. destruct (parseKadPublishSourceRequestPayload payload) as [[r|]|]; [|congruence|done].
  destruct (withinTolerance self (fileId r)); [|done]. destruct (_ && _); [congruence|].
  destruct (Z.ltb_spec (indexSize index) maxIndexedSources); [lia|]. destruct (find _ _ _ _); [|done].
  destruct (createKadPublishResultPayload _ _); [|done]. congruence.
Qed.

(** *** Answers *)

Definition packet_ok (packet : Z * bytes) : Prop := 0 <= packet.1 < 2 ^ 32 /\ bytes_ok packet.2.

Lemma publish_receive_ok self index packet :
  len self = HASH_LENGTH -> packet_ok packet -> index_ok index ->
  index_ok (receive self index packet) /\ indexSize index <= indexSize (receive self index packet) /\
  (forall f, f ∈ index.*1 -> f ∈ (receive self index packet).*1).
Proof.
  intros Hs [Hf Hb] Hi. unfold receive.
  destruct (publishSource_ok self packet.1 index packet.2 Hs Hf Hb Hi) as (a & index' & -> & H). done.
Qed.
Lemma receives_ok self packets index :
  len self = HASH_LENGTH -> Forall packet_ok packets -> index_ok index ->
  index_ok (foldl (receive self) index packets) /\ indexSize index <= indexSize (foldl (receive self) index packets) /\
  (forall f, f ∈ index.*1 -> f ∈ (foldl (receive self) index packets).*1).
Proof.
  intros Hs Hp. revert index. induction Hp as [|p packets Hp Hps IH]; intros index Hi; cbn [foldl]; [done|].
  destruct (publish_receive_ok self index p Hs Hp Hi) as (H1 & H2 & H3). destruct (IH _ H1) as (H4 & H5 & H6).
  split_and!; [done|lia|]. intros f Hf. by apply H6, H3.
Qed.
Lemma empty_index_ok : index_ok [].
Proof. split_and!; [constructor|constructor|done]. Qed.

(** The sources behind [start], 300 at most. *)
Lemma find_page file start index :
  len file = HASH_LENGTH -> 0 <= start < len (bucketOf file index) ->
  find file start maxSourcesPerAnswer index = Ok (take 300 (drop (Z.to_nat start) (bucketOf file index))).
Proof.
  intros Hf Hs. unfold find. rewrite id_valid by done. monad. destruct (Z.leb_spec (len (bucketOf file index)) start); [lia|].
  change (maxSourcesPerAnswer =? 0) with false. cbv iota. f_equal. unfold maxSourcesPerAnswer.
  destruct (Z.le_gt_cases (start + 300) (len (bucketOf file index))).
  - rewrite Z.min_r by lia. f_equal. lia.
  - rewrite Z.min_l by lia. unfold len in *. rewrite !take_ge; [done|rewrite length_drop; lia..].
Qed.

Lemma page_elem {A} (l : list A) n start x :
  l !! n = Some x -> 0 <= start -> start <= Z.of_nat n < start + 300 -> x ∈ take 300 (drop (Z.to_nat start) l).
Proof.
  intros Hx H0 Hs. apply list_elem_of_lookup. exists (n - Z.to_nat start)%nat. rewrite lookup_take_lt by lia.
  rewrite lookup_drop. by replace (Z.to_nat start + (n - Z.to_nat start))%nat with n by lia.
Qed.

(** What a search for [file] from position [start] is answered. *)
Lemma search_page self file start size request index :
  len file = HASH_LENGTH -> 0 <= start < len (bucketOf file index) -> start < 2 ^ 15 -> 0 <= size < 2 ^ 64 ->
  createKadSearchSourcesRequestPayload file start size = Ok request ->
  searchSources self index request =
    (answer ← createKadSearchResultPayload self file (take 300 (drop (Z.to_nat start) (bucketOf file index)));
     mret (Some answer)).
Proof.
  intros Hf Hs H15 Hz Er. destruct (request_roundtrip file start size) as (payload & E & Ep); [done|lia|done|].
  rewrite Er in E. injection E as <-. unfold searchSources. rewrite Ep. monad. cbn [requestTarget startPosition].
  replace (Z.land start 32767) with start.
  2: { change 32767 with (2 ^ 15 - 1). rewrite land_low by lia. rewrite Z.mod_small; lia. }
  rewrite find_page by done. destruct (take 300 _) eqn:E; [|done].
  apply (f_equal length) in E. rewrite length_take, length_drop in E. unfold len in Hs.
  cbn [length] in E. lia.
Qed.

Lemma appendAll_fails {A} (write : A -> result bytes) l payload x m :
  (forall y, y ∈ l -> sane (write y)) -> x ∈ l -> write x = Err (ProtocolError m) ->
  exists m', appendAll write l payload = Err (ProtocolError m').
Proof.
  intros Hw Hx Ex. revert payload. induction l as [|y l IH]; intros payload; [by apply not_elem_of_nil in Hx|].
  cbn [appendAll]. monad. destruct (write y) as [b|e] eqn:Ey.
  - apply elem_of_cons in Hx as [->|Hx]; [by rewrite Ex in Ey|]. apply IH; [|done]. intros z Hz. apply Hw. by right.
  - specialize (Hw y ltac:(left)). rewrite Ey in Hw. destruct Hw as [m' ->]. by eexists.
Qed.
Lemma sane_packTag t : sane (packTag t).
Proof. unfold packTag. destruct (valueType t); [by eexists|done| |by eexists..]. by destruct (_ <? _). Qed.
Lemma sane_appendAll {A} (write : A -> result bytes) l payload : (forall x, sane (write x)) -> sane (appendAll write l payload).
Proof.
  intros Hw. revert payload. induction l as [|x l IH]; intros payload; cbn [appendAll]; [done|].
  apply sane_bind; [apply Hw|]. intros b. apply IH.
Qed.
Lemma sane_packEntry e : sane (packKadSearchEntry e).
Proof.
  unfold packKadSearchEntry. apply sane_bind; [auto with wire|]. intros _. destruct (_ <? _); [by eexists|].
  apply sane_appendAll, sane_packTag.
Qed.

Definition answerable (e : KadSearchEntry) : Prop :=
  len (tags e) <= 255 /\ Forall (fun t => valueType t = STRING \/ valueType t = UINT) (tags e).

Lemma answerable_entry e : stored_ok e -> answerable e -> entry_ok e.
Proof.
  intros (Hi & _ & Hr & _) [Hn Ht]. split_and!; [done..|]. rewrite Forall_forall in Hr. rewrite Forall_forall in Ht.
  apply Forall_forall. intros t Hin. destruct (Hr t Hin) as (H1 & H2 & H3). split; [done|].
  destruct (Ht t Hin) as [E|E]; rewrite E; auto.
Qed.
Lemma bucketOf_stored file index : index_ok index -> Forall stored_ok (bucketOf file index).
Proof.
  intros (_ & Hb & _). induction Hb as [|[f l] index (_ & _ & Hl) Hb IH]; unfold bucketOf; cbn [List.find fst]; [constructor|].
  by case_bool_decide.
Qed.
Lemma bucketOf_size file index : len (bucketOf file index) <= indexSize index.
Proof.
  assert (forall i, 0 <= indexSize i) as H0.
  { induction i as [|b i IH]; [done|]. rewrite indexSize_cons. pose proof (len_nonneg b.2). lia. }
  induction index as [|[f l] index IH]; unfold bucketOf; cbn [List.find fst]; [done|]. rewrite indexSize_cons. cbn [snd].
  case_bool_decide; cbn [snd]; [specialize (H0 index); lia|]. pose proof (len_nonneg l). unfold bucketOf in IH. lia.
Qed.

(** *** A published source *)

(** The entry that a node stores for a publish without an address. *)
Definition storedSource (source : bytes) (port size udp crypt from : Z) : KadSearchEntry :=
  addressed from (entryBack (mkEntry source (publishedTags None port size udp crypt))).

Section Published.
Context (source user : bytes) (port size udp crypt from : Z).
Context (Hsource : len source = HASH_LENGTH) (Huser : kadIdToEd2kHash source = Ok user).
Context (Hport : 0 < port < 2 ^ 16) (Hsize : 0 <= size < 2 ^ 64) (Hudp : 0 <= udp < 2 ^ 16).
Context (Hcrypt : 0 <= crypt < 2 ^ 16) (Hfrom : 0 <= from < 2 ^ 32).

Lemma published_ok : entry_ok (mkEntry source (publishedTags None port size udp crypt)).
Proof.
  assert (2 ^ 16 < 2 ^ 64) as Hp by done. split_and!; [done| |]; cbn [tags]; unfold publishedTags.
  - destruct (udp =? 0), (crypt =? 0), (size =? 0); done.
  - assert (forall i v, 0 <= i < 256 -> 0 <= v < 2 ^ 64 -> sendable (uintTag i v)) as Hu by (by intros; split).
    rewrite !Forall_app. split_and!; try (by constructor); try (destruct (_ =? _); [by constructor|]);
      (constructor; [|by constructor]); apply Hu; try lia. by destruct (_ <? _).
Qed.

Lemma storedSource_tags :
  tags (storedSource source port size udp crypt from) =
    uintTag 0xfe from :: (readBack <$> publishedTags None port size udp crypt).
Proof.
  unfold storedSource, addressed, entryBack, publishedTags. cbn [tags]. f_equal.
  by destruct (udp =? 0), (crypt =? 0), (size =? 0).
Qed.

Lemma storedSource_ok : stored_ok (storedSource source port size udp crypt from) /\
  answerable (storedSource source port size udp crypt from).
Proof.
  destruct published_ok as (H1 & H2 & H3). cbn [entryId tags] in *. unfold storedSource. split.
  - apply addressed_ok; [done|done|cbn [tags entryBack]; unfold len in *; by rewrite length_fmap|].
    cbn [tags entryBack]. apply Forall_fmap. eapply Forall_impl; [exact H3|]. intros t [Hi Ht]. unfold compose, tag_range, readBack.
    by destruct (valueType t).
  - unfold answerable. fold (storedSource source port size udp crypt from). rewrite storedSource_tags. split.
    + rewrite len_cons. unfold publishedTags, len. rewrite length_fmap. by destruct (udp =? 0), (crypt =? 0), (size =? 0).
    + constructor; [by right|]. apply Forall_fmap. eapply Forall_impl; [exact H3|]. intros t _. unfold compose, readBack.
      destruct (valueType t); cbn; auto.
Qed.

Lemma storedSource_extracts :
  extractKadSource (storedSource source port size udp crypt from) =
    Ok (Some (mkSource (mkEndpoint (ipv4FromKadContactValue from) port crypt user) udp
      (if 2 ^ 32 - 1 <? size then 4 else 1) 0 0 [] [])).
Proof.
  unfold extractKadSource. rewrite storedSource_tags. change (entryId (storedSource _ _ _ _ _ _)) with source. rewrite Huser.
  assert (foldl seeTag nothingFound (uintTag 0xfe from :: (readBack <$> publishedTags None port size udp crypt)) =
    mkFound (u32 from) (u16 port) (u16 udp) (u16 crypt) (if 2 ^ 32 - 1 <? size then 4 else 1) 0 0 [] true true) as ->.
  - unfold publishedTags.
    destruct (Z.eqb_spec udp 0) as [->|], (Z.eqb_spec crypt 0) as [->|], (Z.eqb_spec size 0) as [->|]; reflexivity.
  - rewrite u32_small, !u16_small by lia. cbn [hasIp hasPort tcp kind ip KadSearch.udp KadSearch.crypt bIp bPort bId].
    destruct (Z.eqb_spec port 0); [lia|].
    replace (isSupportedSourceType _) with true by (by destruct (_ <? _)). cbn [negb orb]. monad.
    rewrite kadAddress_swap by done. rewrite reverse_swap. by destruct (_ <? _).
Qed.
End Published.

Lemma details_ok found :
  Forall (fun e => len (entryId e) = HASH_LENGTH) found -> exists sources,
  extractKadSourceEndpointDetails found = Ok sources /\
  forall e s, e ∈ found -> extractKadSource e = Ok (Some s) -> s ∈ sources.
Proof.
  induction 1 as [|x found Hx Hf IH]; cbn [extractKadSourceEndpointDetails]; monad.
  { exists []. split; [done|]. intros e s He. by apply not_elem_of_nil in He. }
  destruct (extract_ok x Hx) as [r Er]. rewrite Er. destruct IH as (sources & -> & H).
  eexists. split; [reflexivity|]. intros e s He Es. apply elem_of_cons in He as [->|He].
  - rewrite Er in Es. injection Es as ->. left.
  - specialize (H e s He Es). destruct r; [by right|done].
Qed.

(** A source that was stored is in what a search is answered. *)
Lemma search_finds self file start size index n e s :
  len self = HASH_LENGTH -> len file = HASH_LENGTH -> index_ok index -> Forall answerable (bucketOf file index) ->
  bucketOf file index !! n = Some e -> extractKadSource e = Ok (Some s) -> isDirectKadTcpSourceType (sourceType s) = true ->
  0 <= start -> start <= Z.of_nat n < start + 300 -> 0 <= size < 2 ^ 64 ->
  exists request answer r endpoints,
    createKadSearchSourcesRequestPayload file start size = Ok request /\
    searchSources self index request = Ok (Some answer) /\
    parseKadSearchResultPayload answer = Ok (Some r) /\
    extractKadSourceEndpoints r = Ok endpoints /\ sourceEndpoint s ∈ endpoints.
Proof.
  intros Hself Hfile Hi Ha Hn Es Hd H0 Hp Hz. set (l := bucketOf file index) in *.
  pose proof (lookup_lt_Some _ _ _ Hn) as Hlt. assert (len l <= 20000) as Hmax.
  { subst l. pose proof (bucketOf_size file index). destruct Hi as (_ & _ & Hmax). unfold maxIndexedSources in Hmax. lia. }
  assert (2 ^ 15 = 32768) as E15 by done. assert (2 ^ 16 = 65536) as E16 by done.
  destruct (request_roundtrip file start size) as (request & Er & _); [done|unfold len in *; lia|done|].
  set (page := take 300 (drop (Z.to_nat start) l)). assert (Forall entry_ok page) as Hpage.
  { apply Forall_take, Forall_drop. pose proof (bucketOf_stored file index Hi) as Hs. fold l in Hs.
    rewrite Forall_forall in Hs. rewrite Forall_forall in Ha. apply Forall_forall. intros x Hx.
    apply answerable_entry; auto. }
  destruct (result_roundtrip self file page) as (answer & Ea & Ep); [done|done| |done|].
  { subst page. unfold len. rewrite length_take. lia. }
  destruct (details_ok (entryBack <$> page)) as (sources & Esrc & Hsrc).
  { apply Forall_fmap. eapply Forall_impl; [exact Hpage|]. by intros x (Hx & _). }
  eexists request, answer, _, _. split_and!; [done| |exact Ep| |].
  - rewrite (search_page self file start size) by (done || (unfold len in *; fold l; lia)). fold l. fold page. by rewrite Ea.
  - unfold extractKadSourceEndpoints. cbn [entries]. rewrite Esrc. reflexivity.
  - apply list_elem_of_fmap. exists s. split; [done|]. apply list_elem_of_In, List.filter_In. split; [|done].
    apply list_elem_of_In. pose proof (page_elem l n start e Hn H0 Hp) as He. fold page in He.
    apply (Hsrc (entryBack e)); [apply list_elem_of_fmap; by exists e|]. rewrite Forall_forall in Hpage.
    rewrite extract_readBack by auto. done.
Qed.

(** A publish that is taken: the entry is in the bucket of the file, and the
    answer says how many are, 100 at most. *)
Lemma publish_stores self from index file b e :
  len file = HASH_LENGTH -> index_ok index -> withinTolerance self file = Ok true ->
  indexSize index < maxIndexedSources -> HASH_LENGTH + 1 <= len b -> reads readKadSearchEntry b e ->
  stored_ok (addressed from e) ->
  exists ack index' l1 old l2, publishSource self from index (file ++ b) = Ok (Some ack, index') /\ index_ok index' /\
    bucketOf file index = l1 ++ old ++ l2 /\ bucketOf file index' = l1 ++ addressed from e :: l2 /\
    forall r, exists n, parseKadPublishResultPayload r ack = Ok (true, mkPublish file n) /\ 1 <= n <= 100.
Proof.
  intros Hf Hi Hw Hmax Hb He Hst. pose proof (proj1 Hst) as Hid. pose proof (index_sized index Hi) as Hs.
  unfold publishSource. rewrite (publish_parsed file b e) by done. monad. cbn [fileId source]. rewrite Hw. cbn [negb andb].
  destruct (Z.ltb_spec (indexSize index) maxIndexedSources); [|lia].
  destruct (store_ok file (addressed from e) index Hi Hmax Hf Hst) as (index' & Es & Hi' & _).
  destruct (storeIn_bucket file (addressed from e) index Hid Hs) as (index2 & l & E2 & Er & El).
  assert (index2 = index') as ->.
  { unfold store in Es. rewrite !id_valid in Es by done. revert Es. monad. rewrite E2. by intros [= ->]. }
  destruct (replaceSource_spec (addressed from e) (bucketOf file index) Hid (bucketOf_sized file index Hs))
    as (l1 & l2 & old & E3 & E4 & _). rewrite Er in E3. injection E3 as ->.
  rewrite Es. unfold find. rewrite id_valid by done. rewrite El. set (l := l1 ++ _ :: l2) in *.
  assert (1 <= len l) as H1. { subst l. rewrite len_app, len_cons. pose proof (len_nonneg l1). pose proof (len_nonneg l2). lia. }
  destruct (Z.leb_spec (len l) 0); [lia|]. monad. change (0 =? 0) with true. cbv iota. rewrite Z.sub_0_r, drop_0.
  rewrite take_ge by (unfold len; lia). rewrite u8_small by lia.
  destruct (kadFixed_ok file file 0 (Z.min (len l) 100)) as (_ & (ack & Ea & Ep) & _); [done|done|done|lia|].
  rewrite Ea. exists ack, index', l1, old, l2. split_and!; [done..|]. intros r. eexists. split; [apply Ep|lia].
Qed.

Lemma created_publish file source user port size udp crypt :
  len file = HASH_LENGTH -> ed2kHashToKadId user = Ok source -> entry_ok (mkEntry source (publishedTags None port size udp crypt)) ->
  createKadPublishSourceRequestPayload file (mkEndpoint [] port 0 []) source size udp crypt =
    Ok (file ++ entryBytes (mkEntry source (publishedTags None port size udp crypt))).
Proof.
  intros Hf Hu He. unfold createKadPublishSourceRequestPayload. rewrite !hash_valid by (done || apply He). monad.
  cbn [host Packet.port]. rewrite bool_decide_eq_true_2 by done. by rewrite packEntry_bytes.
Qed.

(** An entry with one tag the writer does not know, a hash. *)
Definition poison (source : bytes) : KadSearchEntry :=
  mkEntry source [mkTag 1 [] 1 HASH [] 0 source].
Definition poisonBytes (source : bytes) : bytes := source ++ [u8 1] ++ (createTagHeader 1 1 ++ source).

Lemma reads_poison source : len source = HASH_LENGTH -> reads readKadSearchEntry (poisonBytes source) (poison source).
Proof.
  intros Hs. unfold poisonBytes, poison. rewrite <- (app_nil_r (createTagHeader 1 1 ++ source)).
  apply (reads_tagged source [mkTag 1 [] 1 HASH [] 0 source] (fun t => createTagHeader 1 1 ++ binaryValue t)); [done|done|].
  constructor; [|constructor]. cbn [binaryValue]. apply reads_tag; [lia|lia|]. unfold readTagValue.
  change (1 =? 1) with true. cbv iota. eapply reads_last; [by apply reads_hash|]. apply reads_ret.
Qed.
Lemma poison_fails from source : len source = HASH_LENGTH -> exists m,
  packKadSearchEntry (addressed from (poison source)) = Err (ProtocolError m).
Proof.
  intros Hs. unfold packKadSearchEntry, addressed. cbn [entryId poison]. rewrite hash_valid by done. monad.
  eapply (appendAll_fails packTag _ _ (mkTag 1 [] 1 HASH [] 0 source)).
  - intros t _. apply sane_packTag.
  - right. left.
  - reflexivity.
Qed.

(** ** Properties *)

(** C13. Whatever packets arrive, the publish handler never throws or reads
    outside a packet, and the index stays well formed: one bucket a file, at
    most 20,000 sources in all, each with an id, tags in range and one address,
    which is its first tag. What is indexed is kept for
    ever: no file is forgotten, and a full index does not change again. *)
Theorem source_index_invariant self packets :
  len self = HASH_LENGTH -> Forall packet_ok packets ->
  let index := foldl (receive self) [] packets in
  index_ok index /\
  (forall from payload, 0 <= from < 2 ^ 32 -> bytes_ok payload ->
     exists answer index', publishSource self from index payload = Ok (answer, index')) /\
  (forall more, Forall packet_ok more ->
     (forall f, f ∈ index.*1 -> f ∈ (foldl (receive self) index more).*1) /\
     (indexSize index = maxIndexedSources -> foldl (receive self) index more = index)).
Proof.
  intros Hs Hp index. destruct (receives_ok self packets [] Hs Hp empty_index_ok) as (Hi & _). fold index in Hi.
  split_and!; [done| |].
  - intros from payload Hf Hb. destruct (publishSource_ok self from index payload Hs Hf Hb Hi) as (a & i & E & _). by exists a, i.
  - intros more Hm. split; [by apply receives_ok|]. intros Hfull. induction Hm as [|[from payload] more [Hf Hb] _ IH]; [done|].
    cbn [foldl]. replace (receive self index (from, payload)) with index; [exact IH|]. unfold receive.
    destruct (publishSource_ok self from index payload Hs Hf Hb Hi) as (a & i & E & _). cbn [fst snd]. rewrite E.
    symmetry. eapply full_unchanged; [|exact E]. lia.
Qed.

(** C12. A published source is found, if the node's index is not full and the
    sources it already holds for the file can be sent. The node has received any
    publish requests before. A client with the user hash [user] that publishes
    [file] to it from the address [from], the node being near the file's id,
    fewer than 20000 sources being stored (a full index stores nothing), and
    each source stored for the file having at most 255 tags, all strings or
    integers (one other tag makes every answer for the file fail), is
    acknowledged. A search that asks that node for the page of 300 sources that
    has the client's is then answered with a message in which the searcher finds
    the client: its address as the node saw it, its port, options and user
    hash. *)
Theorem published_source_is_found self packets file user port size udp crypt from :
  let index := foldl (receive self) [] packets in
  len self = HASH_LENGTH -> Forall packet_ok packets -> len file = HASH_LENGTH -> len user = HASH_LENGTH ->
  0 < port < 2 ^ 16 -> 0 <= size < 2 ^ 64 -> 0 <= udp < 2 ^ 16 -> 0 <= crypt < 2 ^ 16 -> 0 <= from < 2 ^ 32 ->
  withinTolerance self file = Ok true -> indexSize index < maxIndexedSources -> Forall answerable (bucketOf file index) ->
  exists source payload ack index' n,
    ed2kHashToKadId user = Ok source /\
    createKadPublishSourceRequestPayload file (mkEndpoint [] port 0 []) source size udp crypt = Ok payload /\
    publishSource self from index payload = Ok (Some ack, index') /\
    (forall r, exists count, parseKadPublishResultPayload r ack = Ok (true, mkPublish file count) /\ 1 <= count <= 100) /\
    0 <= n < len (bucketOf file index') /\
    forall start, 0 <= start -> start <= n < start + 300 -> exists request answer r endpoints,
      createKadSearchSourcesRequestPayload file start size = Ok request /\
      searchSources self index' request = Ok (Some answer) /\
      parseKadSearchResultPayload answer = Ok (Some r) /\
      extractKadSourceEndpoints r = Ok endpoints /\
      mkEndpoint (ipv4FromKadContactValue from) port crypt user ∈ endpoints.
Proof.
  intros index Hself Hp Hfile Huser Hport Hsize Hudp Hcrypt Hfrom Hw Hmax Ha.
  destruct (receives_ok self packets [] Hself Hp empty_index_ok) as (Hi & _). fold index in Hi.
  destruct (kadId_roundtrip user Huser) as (source & Es & Eu).
  assert (len source = HASH_LENGTH) as Hsource.
  { revert Eu. unfold kadIdToEd2kHash, validateHashLength. monad. by destruct (Z.eqb_spec (len source) HASH_LENGTH). }
  pose proof (published_ok source port size udp crypt Hsource Hport Hsize Hudp Hcrypt) as Hok.
  destruct (storedSource_ok source port size udp crypt from Hsource Hport Hsize Hudp Hcrypt Hfrom) as [Hst Han].
  destruct (publish_stores self from index file (entryBytes (mkEntry source (publishedTags None port size udp crypt)))
    (entryBack (mkEntry source (publishedTags None port size udp crypt))) Hfile Hi Hw Hmax) as
    (ack & index' & l1 & old & l2 & Ep & Hi' & El & El' & Hack);
    [by apply len_entryBytes|by apply reads_searchEntry|exact Hst|].
  fold (storedSource source port size udp crypt from) in El'.
  exists source, (file ++ entryBytes (mkEntry source (publishedTags None port size udp crypt))), ack, index', (len l1).
  split_and!; [done|by eapply created_publish|exact Ep|exact Hack|apply len_nonneg| |].
  - rewrite El', len_app, len_cons. pose proof (len_nonneg l2). lia.
  - intros start H0 Hn.
    pose proof (storedSource_extracts source user port size udp crypt from Eu Hport Hsize Hudp Hcrypt Hfrom) as Ex.
    eapply (search_finds self file start size index' (length l1)) in Ex; try done.
    + rewrite El'. rewrite El, !Forall_app in Ha. apply Forall_app. split; [apply Ha|]. constructor; [done|apply Ha].
    + rewrite El'. by apply list_lookup_middle.
    + cbn [sourceType]. by destruct (_ <? _).
Qed.

(** C40. One packet makes a node unable to answer for a file. The handler
    stores an entry whose tag is neither a string nor a number, which the
    writer of answers refuses: every search for a page with that entry makes
    the handler throw, so that the searcher gets none of the sources. *)
Theorem poisoned_file_has_no_answer self packets file (source : bytes) from :
  let index := foldl (receive self) [] packets in
  len self = HASH_LENGTH -> Forall packet_ok packets -> len file = HASH_LENGTH -> len source = HASH_LENGTH ->
  0 <= from < 2 ^ 32 -> withinTolerance self file = Ok true -> indexSize index < maxIndexedSources ->
  exists payload ack index' n,
    publishSource self from index payload = Ok (Some ack, index') /\ 0 <= n < len (bucketOf file index') /\
    forall start size request, 0 <= start -> start <= n < start + 300 -> 0 <= size < 2 ^ 64 ->
      createKadSearchSourcesRequestPayload file start size = Ok request ->
      exists message, searchSources self index' request = Err (ProtocolError message).
Proof.
  intros index Hself Hp Hfile Hsource Hfrom Hw Hmax.
  destruct (receives_ok self packets [] Hself Hp empty_index_ok) as (Hi & _). fold index in Hi.
  assert (stored_ok (addressed from (poison source))) as Hst by (by apply addressed_ok; [..|constructor]).
  destruct (publish_stores self from index file (poisonBytes source) (poison source) Hfile Hi Hw Hmax) as
    (ack & index' & l1 & old & l2 & Ep & Hi' & El & El' & _); [by apply len_entryBytes|by apply reads_poison|done|].
  exists (file ++ poisonBytes source), ack, index', (len l1). pose proof (len_nonneg l1) as H1. pose proof (len_nonneg l2) as H2.
  assert (len l1 < len (bucketOf file index')) as Hlt by (rewrite El', len_app, len_cons; lia).
  split_and!; [done..|]. intros start size request H0 Hn Hz Er.
  pose proof (bucketOf_size file index') as Hsz. destruct Hi' as (_ & _ & Hm). unfold maxIndexedSources in Hm.
  assert (2 ^ 15 = 32768) as E15 by done. rewrite (search_page self file start size) by (done || lia).
  set (page := take 300 _). assert (addressed from (poison source) ∈ page) as Hin.
  { apply (page_elem _ (length l1)); [rewrite El'; by apply list_lookup_middle|done|exact Hn]. }
  unfold createKadSearchResultPayload. rewrite !hash_valid by done. monad.
  destruct (_ <? _); [by eexists|]. destruct (poison_fails from source Hsource) as [m Em].
  destruct (appendAll_fails packKadSearchEntry page (self ++ file ++ packUInt16 (len page)) _ m (fun y _ => sane_packEntry y) Hin Em)
    as [m' ->]. by eexists.
Qed.
End KadSearch.

(** ** Witnesses *)
Module KadSearchExamples.
Import Bytes Text Wire Packet KadProtocol KadRouting KadSearch.

Definition self : bytes := replicate 16 7.
Definition file : bytes := replicate 8 7 ++ replicate 8 9.
Definition other : bytes := replicate 16 3.

(** A publish of the file by another client. *)
Definition earlier : Z * bytes :=
  (0x0a000002, match createKadPublishSourceRequestPayload file (mkEndpoint [] 4662 0 []) other 5000 0 0 with Ok p => p | _ => [] end).
Definition indexed : KadSourceIndex := foldl (receive self) [] [earlier].

Lemma bytes_checked l : forallb (fun b => (0 <=? b) && (b <? 256)) l = true -> bytes_ok l.
Proof.
  intros H. apply Forall_forall. intros b Hb. apply list_elem_of_In in Hb. rewrite List.forallb_forall in H.
  specialize (H b Hb). zprop. split; lia.
Qed.
Lemma earlier_ok : Forall packet_ok [earlier].
Proof. constructor; [|constructor]. split; [by vm_compute|]. apply bytes_checked. by vm_compute. Qed.
Lemma indexed_one : indexSize indexed = 1 /\ Forall answerable (bucketOf file indexed).
Proof.
  split; [by vm_compute|]. set (l := bucketOf file indexed). vm_compute in l. subst l.
  constructor; [|constructor]. split; [by vm_compute|]. repeat (constructor; [by right|]). constructor.
Qed.

Lemma source_index_invariant_witness : index_ok indexed.
Proof. apply (source_index_invariant self [earlier]); [done|exact earlier_ok]. Defined.

Lemma published_source_is_found_witness :
  exists source payload ack index', ed2kHashToKadId other = Ok source /\
    createKadPublishSourceRequestPayload file (mkEndpoint [] 4663 0 []) source 5000 4672 1 = Ok payload /\
    publishSource self 0x0a000003 indexed payload = Ok (Some ack, index').
Proof.
  destruct (published_source_is_found self [earlier] file other 4663 5000 4672 1 0x0a000003)
    as (source & payload & ack & index' & n & H1 & H2 & H3 & _);
    [done|exact earlier_ok|done|done|done|done|done|done|done|by vm_compute| |exact (proj2 indexed_one)|].
  { fold indexed. rewrite (proj1 indexed_one). done. }
  exists source, payload, ack, index'. split_and!; [exact H1|exact H2|exact H3].
Defined.

Lemma poisoned_file_has_no_answer_witness :
  exists payload ack index', publishSource self 0x0a000003 indexed payload = Ok (Some ack, index').
Proof.
  destruct (poisoned_file_has_no_answer self [earlier] file other 0x0a000003)
    as (payload & ack & index' & n & H & _); [done|exact earlier_ok|done|done|done|by vm_compute| |].
  { fold indexed. rewrite (proj1 indexed_one). done. }
  exists payload, ack, index'. exact H.
Defined.
End KadSearchExamples.
