(* ===== verification/Md4Spec.v ===== *)
(** * MD4 as RFC 1320 describes it

    The specification that [Hash] refines, written from the text of the RFC and
    sharing nothing with the code: the message as words, the operations of the
    three rounds as tables of word and shift, the constants as the square roots
    of two and three. *)

From S2P Require Import Prelude Bytes.

Module Rfc1320.
Import Bytes.

(** ** 2. Words *)

(** "X + Y" is addition modulo 2^32. *)
Definition plus (x y : Z) : Z := (x + y) mod 2 ^ 32.
(** "X <<< s": the bits that leave at the top come in at the bottom. *)
Definition rotate (x s : Z) : Z := x mod 2 ^ (32 - s) * 2 ^ s + x / 2 ^ (32 - s).
(** "not(X)", the complement of each bit. *)
Definition complement (x : Z) : Z := 2 ^ 32 - 1 - x.
(** Four bytes are a word, the low-order byte first. *)
Definition word (b : bytes) : Z := foldr (fun byte w => Z.lor byte (Z.shiftl w 8)) 0 b.
(** The [n] low-order bytes, the lowest first. *)
Definition lowFirst (n : nat) (w : Z) : bytes := (fun i => w / 256 ^ Z.of_nat i mod 256) <$> seq 0 n.

(** ** 3.1 and 3.2 Padding and length *)

(** A one bit and zeros up to 448 bits modulo 512, and the length in bits as a
    number of 64 bits. *)
Definition padded (message : bytes) : bytes :=
  message ++ [0x80] ++ replicate (Z.to_nat ((55 - len message) mod 64)) 0 ++
  lowFirst 8 (8 * len message mod 2 ^ 64).

(** ** 3.3 The buffer *)

(** The registers in the order in which the next operation takes them. *)
Record registers := mkRegisters { A : Z; B : Z; C : Z; D : Z }.
Definition initial : registers :=
  mkRegisters (word [0x01; 0x23; 0x45; 0x67]) (word [0x89; 0xab; 0xcd; 0xef])
    (word [0xfe; 0xdc; 0xba; 0x98]) (word [0x76; 0x54; 0x32; 0x10]).

(** ** 3.4 The blocks of 16 words *)

Definition F (x y z : Z) : Z := Z.lor (Z.land x y) (Z.land (complement x) z).
Definition G (x y z : Z) : Z := Z.lor (Z.land x y) (Z.lor (Z.land x z) (Z.land y z)).
Definition H (x y z : Z) : Z := Z.lxor x (Z.lxor y z).

(** "[abcd k s]": a = (a + f(b,c,d) + X[k] + constant) <<< s; the operation
    behind it takes the registers as "dabc". *)
Definition operation (f : Z -> Z -> Z -> Z) (constant : Z) (X : nat -> Z) (r : registers) (ks : nat * Z) : registers :=
  let a := rotate (plus (plus (plus (A r) (f (B r) (C r) (D r))) (X ks.1)) constant) ks.2 in
  mkRegisters (D r) a (B r) (C r).

(** The words of a round, and its four shifts over and over. *)
Definition operations (words : list nat) (s1 s2 s3 s4 : Z) : list (nat * Z) :=
  zip words ([s1; s2; s3; s4] ++ [s1; s2; s3; s4] ++ [s1; s2; s3; s4] ++ [s1; s2; s3; s4]).
Definition round1 : list (nat * Z) :=
  operations [0; 1; 2; 3; 4; 5; 6; 7; 8; 9; 10; 11; 12; 13; 14; 15]%nat 3 7 11 19.
Definition round2 : list (nat * Z) :=
  operations [0; 4; 8; 12; 1; 5; 9; 13; 2; 6; 10; 14; 3; 7; 11; 15]%nat 3 5 9 13.
Definition round3 : list (nat * Z) :=
  operations [0; 8; 4; 12; 2; 10; 6; 14; 1; 9; 5; 13; 3; 11; 7; 15]%nat 3 9 11 15.

(** The square roots of two and three, 30 binary places of them. *)
Definition root2 : Z := Z.sqrt (2 * 2 ^ 60).
Definition root3 : Z := Z.sqrt (3 * 2 ^ 60).

Definition block (X : nat -> Z) (r : registers) : registers :=
  let r1 := foldl (operation F 0 X) r round1 in
  let r2 := foldl (operation G root2 X) r1 round2 in
  let r3 := foldl (operation H root3 X) r2 round3 in
  mkRegisters (plus (A r3) (A r)) (plus (B r3) (B r)) (plus (C r3) (C r)) (plus (D r3) (D r)).

(** ** 3.5 The digest *)

(** M[k] of a message of bytes. *)
Definition M (message : bytes) (k : nat) : Z := word (take 4 (drop (4 * k) message)).

Definition digest (r : registers) : bytes :=
  lowFirst 4 (A r) ++ lowFirst 4 (B r) ++ lowFirst 4 (C r) ++ lowFirst 4 (D r).

Definition md4 (message : bytes) : bytes :=
  let p := padded message in
  digest (foldl (fun r i => block (fun j => M p (16 * i + j)) r) initial (seq 0 (length p / 64))).
End Rfc1320.
