(* ===== verification/Hash.v ===== *)
(** * Hashes: [src/ed2k/Hash.cc]

    MD4, the hash of a file from the hashes of its parts, and the tree of AICH
    hashes. [sha1Digest] is computed by OpenSSL: it is a parameter. *)

From Stdlib Require Import String.
From S2P Require Import Prelude Bytes Text Wire Packet Md4Spec.

Module Hash.
Import Bytes Text Wire Packet.

Definition PIECE_LENGTH : Z := 9728000.
Definition BLOCK_LENGTH : Z := 184320.
Definition EMBLOCK_LENGTH : Z := BLOCK_LENGTH.

(** ** MD4 *)

Definition rol (n s : Z) : Z := Z.lor (u32 (Z.shiftl n s)) (Z.shiftr n (32 - s)).
(** [~x] of 32 bits. *)
Definition not32 (x : Z) : Z := 2 ^ 32 - 1 - x.
Definition f (x y z : Z) : Z := Z.lor (Z.land x y) (Z.land (not32 x) z).
Definition g (x y z : Z) : Z := Z.lor (Z.lor (Z.land x y) (Z.land x z)) (Z.land y z).
Definition h (x y z : Z) : Z := Z.lxor (Z.lxor x y) z.

Definition step1 (a b c d x s : Z) : Z := rol (u32 (a + f b c d + x)) s.
Definition step2 (a b c d x s : Z) : Z := rol (u32 (a + g b c d + x + 0x5a827999)) s.
Definition step3 (a b c d x s : Z) : Z := rol (u32 (a + h b c d + x + 0x6ed9eba1)) s.

Definition loadLe32 (p : bytes) : Z :=
  let at_ i := nth i p 0 in
  Z.lor (Z.lor (Z.lor (at_ 0%nat) (Z.shiftl (at_ 1%nat) 8)) (Z.shiftl (at_ 2%nat) 16)) (Z.shiftl (at_ 3%nat) 24).
Definition storeLe32 (n : Z) : bytes := [u8 n; u8 (Z.shiftr n 8); u8 (Z.shiftr n 16); u8 (Z.shiftr n 24)].

Record State := mkState { a_ : Z; b_ : Z; c_ : Z; d_ : Z }.

(** The statements of [transform] on its variables: [St step1 va vb vc vd k s]
    is the call [step1(a, b, c, d, x[k], s)], which assigns the first. *)
Inductive variable := va | vb | vc | vd.
Record statement := St {
  function : Z -> Z -> Z -> Z -> Z -> Z -> Z;
  target : variable; second : variable; third : variable; fourth : variable;
  index : nat; shift : Z;
}.
Definition valueOf (s : State) (v : variable) : Z :=
  match v with va => a_ s | vb => b_ s | vc => c_ s | vd => d_ s end.
Definition assign (v : variable) (x : Z) (s : State) : State :=
  match v with
  | va => mkState x (b_ s) (c_ s) (d_ s)
  | vb => mkState (a_ s) x (c_ s) (d_ s)
  | vc => mkState (a_ s) (b_ s) x (d_ s)
  | vd => mkState (a_ s) (b_ s) (c_ s) x
  end.
Definition run (x : nat -> Z) (s : State) (st : statement) : State :=
  assign (target st) (function st (valueOf s (target st)) (valueOf s (second st)) (valueOf s (third st))
    (valueOf s (fourth st)) (x (index st)) (shift st)) s.
Definition statements : list statement :=
  [St step1 va vb vc vd 0 3; St step1 vd va vb vc 1 7;
   St step1 vc vd va vb 2 11; St step1 vb vc vd va 3 19;
   St step1 va vb vc vd 4 3; St step1 vd va vb vc 5 7;
   St step1 vc vd va vb 6 11; St step1 vb vc vd va 7 19;
   St step1 va vb vc vd 8 3; St step1 vd va vb vc 9 7;
   St step1 vc vd va vb 10 11; St step1 vb vc vd va 11 19;
   St step1 va vb vc vd 12 3; St step1 vd va vb vc 13 7;
   St step1 vc vd va vb 14 11; St step1 vb vc vd va 15 19;
   St step2 va vb vc vd 0 3; St step2 vd va vb vc 4 5;
   St step2 vc vd va vb 8 9; St step2 vb vc vd va 12 13;
   St step2 va vb vc vd 1 3; St step2 vd va vb vc 5 5;
   St step2 vc vd va vb 9 9; St step2 vb vc vd va 13 13;
   St step2 va vb vc vd 2 3; St step2 vd va vb vc 6 5;
   St step2 vc vd va vb 10 9; St step2 vb vc vd va 14 13;
   St step2 va vb vc vd 3 3; St step2 vd va vb vc 7 5;
   St step2 vc vd va vb 11 9; St step2 vb vc vd va 15 13;
   St step3 va vb vc vd 0 3; St step3 vd va vb vc 8 9;
   St step3 vc vd va vb 4 11; St step3 vb vc vd va 12 15;
   St step3 va vb vc vd 2 3; St step3 vd va vb vc 10 9;
   St step3 vc vd va vb 6 11; St step3 vb vc vd va 14 15;
   St step3 va vb vc vd 1 3; St step3 vd va vb vc 9 9;
   St step3 vc vd va vb 5 11; St step3 vb vc vd va 13 15;
   St step3 va vb vc vd 3 3; St step3 vd va vb vc 11 9;
   St step3 vc vd va vb 7 11; St step3 vb vc vd va 15 15].
(** The steps on the words, added to the state. *)
Definition steps (state : State) (words : list Z) : State :=
  let s := foldl (run (fun i => nth i words 0)) state statements in
  mkState (u32 (a_ state + a_ s)) (u32 (b_ state + b_ s)) (u32 (c_ state + c_ s)) (u32 (d_ state + d_ s)).
Definition transform (state : State) (block : bytes) : State :=
  steps state ((fun i => loadLe32 (drop (i * 4) block)) <$> seq 0 16).

Definition md4Init : State := mkState 0x67452301 0xefcdab89 0x98badcfe 0x10325476.

(** The loop [while (length >= 64)] takes [length / 64] rounds; the bytes that
    are left. *)
Fixpoint blocks (rounds : nat) (state : State) (data : bytes) : State * bytes :=
  match rounds with
  | O => (state, data)
  | S rounds => blocks rounds (transform state (take 64 data)) (drop 64 data)
  end.

(** The array [tail], with the rest of the data, the mark and the length. *)
Definition tailOf (rest : bytes) (totalLength : Z) : bytes :=
  let length := length rest in
  let tail := list_inserts 0 rest (replicate 128 0) in
  let tail := <[length := 0x80]> tail in
  let lengthOffset := if (length <? 56)%nat then 56%nat else 120%nat in
  list_inserts lengthOffset (pack 8 (u64 (totalLength * 8))) tail.

Definition digestOf (s : State) : bytes :=
  storeLe32 (a_ s) ++ storeLe32 (b_ s) ++ storeLe32 (c_ s) ++ storeLe32 (d_ s).

Definition md4Digest (data : bytes) : bytes :=
  let '(state, rest) := blocks (length data / 64) md4Init data in
  let tail := tailOf rest (len data) in
  let state := transform state tail in
  let state := if (56 <=? length rest)%nat then transform state (drop 64 tail) else state in
  digestOf state.

(** ** Files *)

Definition hashSetPartCount (fileSize : Z) : Z :=
  if fileSize <=? 0 then 0
  else
    let fullParts := fileSize / PIECE_LENGTH in
    if fullParts =? 0 then 0 else fullParts + 1.

Definition rootHash (pieceHashes : list bytes) : result bytes :=
  match pieceHashes with
  | [] => mret (md4Digest [])
  | [hash] => mret hash
  | _ =>
      concat ← appendAll (fun hash => if negb (len hash =? HASH_LENGTH)
                 then Err (ProtocolError "Bad ED2K piece hash length.") else mret hash) pieceHashes [];
      mret (md4Digest concat)
  end.

Section aich.
Context (sha1Digest : bytes -> bytes).

Definition aichHash (data : bytes) : bytes := sha1Digest data.

Definition baseSizeOf (length : Z) : Z := if length <=? PIECE_LENGTH then EMBLOCK_LENGTH else PIECE_LENGTH.

(** The recursion: the halves are shorter than the data. *)
Fixpoint aichRootHashForRange (fuel : nat) (data : bytes) (baseSize : Z) (leftBranch : bool) : option bytes :=
  match fuel with
  | O => None
  | S fuel =>
      if len data <=? baseSize then Some (aichHash data)
      else
        let blockCount := (len data + baseSize - 1) / baseSize in
        let leftBlocks := (if leftBranch then blockCount + 1 else blockCount) / 2 in
        let leftLength := Z.min (len data) (leftBlocks * baseSize) in
        let rightLength := len data - leftLength in
        left ← aichRootHashForRange fuel (take (Z.to_nat leftLength) data) (baseSizeOf leftLength) true;
        right ← aichRootHashForRange fuel (drop (Z.to_nat leftLength) data) (baseSizeOf rightLength) false;
        Some (aichHash (left ++ right))
  end.

Definition aichRootHash (fuel : nat) (data : bytes) : option bytes :=
  if len data =? 0 then Some (aichHash [])
  else aichRootHashForRange fuel data (baseSizeOf (len data)) true.

Definition validateAichHashLength (hash : bytes) : result unit :=
  if negb (len hash =? AICH_HASH_LENGTH) then Err (ProtocolError "Bad ED2K AICH hash length.") else mret tt.

(** A round of the loop over the levels: neighbours become one. *)
Fixpoint nextLevel (level : list bytes) : list bytes :=
  match level with
  | a :: b :: level => aichHash (a ++ b) :: nextLevel level
  | level => level
  end.
Fixpoint levels (fuel : nat) (level : list bytes) : result bytes :=
  match level with
  | [hash] => mret hash
  | _ => match fuel with O => Err OutOfFuel | S fuel => levels fuel (nextLevel level) end
  end.

(** The overload that takes the hashes of the parts. *)
Definition aichRootOfHashes (hashes : list bytes) : result bytes :=
  match hashes with
  | [] => mret (aichHash [])
  | [hash] => _ ← validateAichHashLength hash; mret hash
  | _ =>
      _ ← appendAll (fun hash => _ ← validateAichHashLength hash; mret []) hashes [];
      levels (length hashes) hashes
  end.
End aich.

(** ** Lemmas *)

(** *** MD4 *)

(** The message with its padding: a mark, zeros up to 56 modulo 64, and the
    length in bits. *)
Definition padded (data : bytes) : bytes :=
  data ++ [0x80] ++ replicate (Z.to_nat ((55 - len data) mod 64)) 0 ++ pack 8 (u64 (len data * 8)).
(** The test suite of RFC 1320, A.5. *)
Definition rfcMessages : list bytes :=
  [[]; str "a"; str "abc"; str "message digest"; str "abcdefghijklmnopqrstuvwxyz";
   str "ABCDEFGHIJKLMNOPQRSTUVWXYZabcdefghijklmnopqrstuvwxyz0123456789";
   str "12345678901234567890123456789012345678901234567890123456789012345678901234567890"].
Definition rfcDigests : list bytes :=
  [str "31d6cfe0d16ae931b73c59d7e0c089c0"; str "bde52cb31de33e46245e05fbdbd6fb24";
   str "a448017aaf21d8525fc10ae87aa6729d"; str "d9130a8164549fe818874806e1c7014b";
   str "d79e1c308aa5bbcdeea8ed63df412da9"; str "043f8582f241db351ce627e153e7f0e4";
   str "e33b4ddc9c38f2199c3e7b164fcc0536"].

Lemma blocks_app n m state data more :
  length data = (64 * n)%nat -> blocks (n + m) state (data ++ more) = blocks m (blocks n state data).1 more.
Proof.
  revert state data. induction n as [|n IH]; intros state data Hl.
  - by destruct data; [|simpl in Hl; lia].
  - cbn [Nat.add blocks]. rewrite take_app_le, drop_app_le by lia. apply IH. rewrite length_drop. lia.
Qed.
Lemma blocks_rest n state data : (blocks n state data).2 = drop (64 * n) data.
Proof.
  revert state data. induction n as [|n IH]; intros state data; [by rewrite Nat.mul_0_r, drop_0|].
  cbn [blocks]. rewrite IH, drop_drop. f_equal. lia.
Qed.
Lemma blocks_take n state data : (blocks n state data).1 = (blocks n state (take (64 * n) data)).1.
Proof.
  revert state data. induction n as [|n IH]; intros state data; [done|]. cbn [blocks].
  rewrite (IH _ (drop 64 data)), (IH _ (drop 64 (take _ data))), take_take.
  do 2 f_equal; [f_equal; f_equal; lia|]. rewrite skipn_firstn_comm, take_take. f_equal. lia.
Qed.

(** The array that [md4Digest] fills is the end of the padded message. *)
Lemma tail_padded rest total :
  (length rest < 64)%nat ->
  exists zeros, tailOf rest total =
    rest ++ [0x80] ++ replicate (Z.to_nat ((55 - len rest) mod 64)) 0 ++ pack 8 (u64 (total * 8)) ++ zeros /\
    length zeros = if (length rest <? 56)%nat then 64%nat else 0%nat.
Proof.
  intros Hr. unfold tailOf. set (r := length rest) in *.
  assert (list_inserts 0 rest (replicate 128 0) = rest ++ replicate (128 - r) 0) as ->.
  { replace 128%nat with (r + (128 - r))%nat at 1 by lia. rewrite replicate_add.
    apply list_inserts_0_r. by rewrite length_replicate. }
  assert (<[r := 0x80]> (rest ++ replicate (128 - r) 0) = (rest ++ [0x80]) ++ replicate (127 - r) 0) as ->.
  { rewrite insert_app_r_alt by (subst r; lia). replace (r - length rest)%nat with 0%nat by (subst r; lia).
    replace (128 - r)%nat with (S (127 - r)) by lia. simpl. by rewrite <- app_assoc. }
  set (z := Z.to_nat ((55 - len rest) mod 64)). set (e := if (r <? 56)%nat then 64%nat else 0%nat).
  assert ((if (r <? 56)%nat then 56 else 120)%nat = r + 1 + z /\ 127 - r = z + (8 + e))%nat as [-> ->].
  { subst z e. assert (len rest = Z.of_nat r) as -> by done.
    destruct (Nat.ltb_spec r 56).
    - rewrite Z.mod_small by lia. lia.
    - replace (55 - Z.of_nat r) with (119 - Z.of_nat r + (-1) * 64) by lia.
      rewrite Z.mod_add, Z.mod_small by lia. lia. }
  exists (replicate e 0). split; [|by rewrite length_replicate]. rewrite !replicate_add, !app_assoc.
  replace (r + 1 + z)%nat with (length ((rest ++ [0x80%Z]) ++ replicate z 0%Z) + 0)%nat
    by (rewrite !length_app, length_replicate; simpl; lia).
  rewrite <- (app_assoc _ (replicate 8 0)), list_inserts_app_r, list_inserts_0_r by done.
  by rewrite !app_assoc.
Qed.

Lemma transform_take state block : transform state (take 64 block) = transform state block.
Proof.
  unfold transform.
  assert ((fun i => loadLe32 (drop (i * 4) (take 64 block))) <$> seq 0 16 =
          (fun i => loadLe32 (drop (i * 4) block)) <$> seq 0 16) as ->; [|done].
  apply list_fmap_ext. intros j i Hi. apply list_elem_of_lookup_2, elem_of_seq in Hi.
  unfold loadLe32. rewrite skipn_firstn_comm.
  by rewrite !nth_firstn, !(proj2 (Nat.ltb_lt _ _)) by lia.
Qed.

Lemma md4_padded data : md4Digest data = digestOf (blocks (length (padded data) / 64) md4Init (padded data)).1.
Proof.
  set (n := (length data / 64)%nat).
  assert (Hn : (64 * n <= length data < 64 * n + 64)%nat).
  { subst n. pose proof (Nat.div_mod_eq (length data) 64). pose proof (Nat.mod_upper_bound (length data) 64). lia. }
  set (d1 := take (64 * n) data). set (rest := drop (64 * n) data).
  assert (Hd1 : length d1 = (64 * n)%nat) by (subst d1; rewrite length_take; lia).
  assert (Hr : length rest = (length data - 64 * n)%nat) by (subst rest; by rewrite length_drop).
  destruct (tail_padded rest (len data)) as (zeros & Ht & Hz); [lia|].
  unfold md4Digest. fold n.
  rewrite (surjective_pairing (blocks n md4Init data)), blocks_rest, blocks_take. fold d1 rest.
  set (st := (blocks n md4Init d1).1).
  set (P := rest ++ [0x80] ++ replicate (Z.to_nat ((55 - len rest) mod 64)) 0 ++ pack 8 (u64 (len data * 8))).
  assert (padded data = d1 ++ P) as ->.
  { unfold padded, P. rewrite <- (take_drop (64 * n) data) at 1. fold d1 rest. rewrite <- app_assoc.
    do 4 f_equal. replace (55 - len data) with (55 - len rest + (- Z.of_nat n) * 64) by (unfold len in *; lia).
    by rewrite Z.mod_add. }
  assert (Ht' : tailOf rest (len data) = P ++ zeros) by (rewrite Ht; unfold P; by rewrite <- !app_assoc).
  assert (Hlen : (length P + length zeros)%nat = 128%nat).
  { rewrite <- length_app, <- Ht'. unfold tailOf. by rewrite length_inserts, length_insert, length_inserts, length_replicate. }
  rewrite Ht'. destruct (Nat.ltb_spec (length rest) 56) as [Hs|Hs].
  - rewrite (proj2 (Nat.leb_gt _ _)) by lia. replace (length (d1 ++ P) / 64)%nat with (n + 1)%nat.
    2:{ rewrite length_app. apply Nat.div_unique with 0%nat; lia. }
    rewrite blocks_app by done. cbn [blocks fst]. fold st.
    by rewrite <- (transform_take _ (P ++ zeros)), take_app_le by lia.
  - rewrite (proj2 (Nat.leb_le _ _)) by lia. replace (length (d1 ++ P) / 64)%nat with (n + 2)%nat.
    2:{ rewrite length_app. apply Nat.div_unique with 0%nat; lia. }
    rewrite blocks_app by done. destruct zeros; [|simpl in Hz; lia]. rewrite app_nil_r.
    cbn [blocks fst]. fold st. by rewrite !transform_take.
Qed.

(** *** The operations of the RFC *)

Section rfc.
Import Rfc1320.

Lemma rol_rotate y s : 0 < s < 32 -> rol (u32 y) s = rotate (y mod 2 ^ 32) s.
Proof.
  intros Hs. unfold rol, rotate, u32. set (x := y mod 2 ^ 32).
  assert (Hx : 0 <= x < 2 ^ 32) by (apply Z.mod_pos_bound; lia). clearbody x.
  assert (Hp : 2 ^ 32 = 2 ^ (32 - s) * 2 ^ s) by (rewrite <- Z.pow_add_r by lia; f_equal; lia).
  assert (0 < 2 ^ s) by (apply Z.pow_pos_nonneg; lia). assert (0 < 2 ^ (32 - s)) by (apply Z.pow_pos_nonneg; lia).
  rewrite Z.shiftl_mul_pow2, Z.shiftr_div_pow2 by lia.
  rewrite Hp, Z.mul_mod_distr_r by lia. rewrite Z.lor_comm.
  rewrite lor_mul; [apply Z.add_comm|lia|].
  split; [apply Z.div_pos; lia|]. apply Z.div_lt_upper_bound; nia.
Qed.

Lemma plus_plus a b c d : plus (plus (plus a b) c) d = (a + b + c + d) mod 2 ^ 32.
Proof. unfold plus. rewrite Zplus_mod_idemp_l, <- Z.add_assoc, Zplus_mod_idemp_l. f_equal. lia. Qed.

(** A step of the code is an operation of its round. *)
Definition isStep (step : Z -> Z -> Z -> Z -> Z -> Z -> Z) (f : Z -> Z -> Z -> Z) (constant : Z) : Prop :=
  forall X a b c d k s, 0 < s < 32 ->
    operation f constant X (mkRegisters a b c d) (k, s) = mkRegisters d (step a b c d (X k) s) b c.

Lemma step1_operation : isStep step1 F 0.
Proof.
  intros X a b c d k s Hs. unfold operation, step1. cbn [A B C D fst snd]. f_equal.
  rewrite (rol_rotate _ s Hs), plus_plus. by rewrite Z.add_0_r.
Qed.
Lemma step2_operation : isStep step2 G root2.
Proof.
  intros X a b c d k s Hs. unfold operation, step2, g, G. cbn [A B C D fst snd]. f_equal.
  rewrite (rol_rotate _ s Hs), plus_plus, Z.lor_assoc.
  by change root2 with 0x5a827999.
Qed.
Lemma step3_operation : isStep step3 H root3.
Proof.
  intros X a b c d k s Hs. unfold operation, step3, h, H. cbn [A B C D fst snd]. f_equal.
  rewrite (rol_rotate _ s Hs), plus_plus, Z.lxor_assoc.
  by change root3 with 0x6ed9eba1.
Qed.

Lemma step_left step f constant X a b c d k s l :
  isStep step f constant -> 0 < s < 32 ->
  foldl (operation f constant X) (mkRegisters a b c d) ((k, s) :: l) =
  foldl (operation f constant X) (mkRegisters d (step a b c d (X k) s) b c) l.
Proof. intros Hf Hs. cbn [foldl]. by rewrite Hf. Qed.

Definition registersOf (s : State) : registers := mkRegisters (a_ s) (b_ s) (c_ s) (d_ s).

Definition sumOf (r r' : registers) : registers :=
  mkRegisters (plus (A r') (A r)) (plus (B r') (B r)) (plus (C r') (C r)) (plus (D r') (D r)).
Lemma block_rounds X r :
  block X r = sumOf r (foldl (operation H root3 X) (foldl (operation G root2 X)
    (foldl (operation F 0 X) r round1) round2) round3).
Proof. unfold block, sumOf. reflexivity. Qed.

Section run.
Context (X : nat -> Z) (a b c d : Z) (fn : Z -> Z -> Z -> Z -> Z -> Z -> Z) (k : nat) (s : Z) (l : list statement).

Lemma run_a : foldl (run X) (mkState a b c d) (St fn va vb vc vd k s :: l) =
  foldl (run X) (mkState (fn a b c d (X k) s) b c d) l.
Proof. reflexivity. Qed.
Lemma run_b : foldl (run X) (mkState a b c d) (St fn vb vc vd va k s :: l) =
  foldl (run X) (mkState a (fn b c d a (X k) s) c d) l.
Proof. reflexivity. Qed.
Lemma run_c : foldl (run X) (mkState a b c d) (St fn vc vd va vb k s :: l) =
  foldl (run X) (mkState a b (fn c d a b (X k) s) d) l.
Proof. reflexivity. Qed.
Lemma run_d : foldl (run X) (mkState a b c d) (St fn vd va vb vc k s :: l) =
  foldl (run X) (mkState a b c (fn d a b c (X k) s)) l.
Proof. reflexivity. Qed.
End run.

Lemma rounds_over f constant X r : foldl (operation f constant X) r [] = r.
Proof. reflexivity. Qed.

(** Takes the next statement and the next operation together. *)
Ltac next_step step H :=
  rewrite (step_left step _ _ _ _ _ _ _ _ _ _ H) by lia; first [rewrite run_a|rewrite run_b|rewrite run_c|rewrite run_d];
  let v := fresh "v" in
  lazymatch goal with |- context [step ?a ?b ?c ?d ?x ?s] => set (v := step a b c d x s); clearbody v end.

Lemma statements_rounds X s :
  registersOf (foldl (run X) s statements) =
  foldl (operation H root3 X) (foldl (operation G root2 X)
    (foldl (operation F 0 X) (registersOf s) round1) round2) round3.
Proof.
  destruct s as [a b c d]. change (registersOf (mkState a b c d)) with (mkRegisters a b c d).
  unfold statements, round1, round2, round3, operations. cbn [zip zip_with app].
  do 16 next_step step1 step1_operation. rewrite rounds_over.
  do 16 next_step step2 step2_operation. rewrite rounds_over.
  do 16 next_step step3 step3_operation.
  reflexivity.
Qed.

Lemma loadLe32_word p : loadLe32 p = word (take 4 p).
Proof.
  unfold loadLe32, word. destruct p as [|b0 [|b1 [|b2 [|b3 p]]]]; cbn [take foldr nth];
    rewrite ?Z.shiftl_0_l, ?Z.lor_0_r, ?Z.shiftl_lor, ?Z.shiftl_shiftl by lia; by rewrite ?Z.lor_assoc.
Qed.

(** The operations read sixteen words. *)
Definition reads16 (l : list (nat * Z)) : Prop := Forall (fun ks => (ks.1 < 16)%nat) l.

Lemma operations_ext f constant X Y r l :
  (forall j, (j < 16)%nat -> X j = Y j) -> reads16 l ->
  foldl (operation f constant X) r l = foldl (operation f constant Y) r l.
Proof.
  intros Hx Hl. revert r. induction Hl as [|ks l Hk _ IH]; intros r; [done|]. cbn [foldl].
  replace (operation f constant X r ks) with (operation f constant Y r ks); [apply IH|].
  unfold operation. by rewrite Hx.
Qed.

Lemma rounds_ext X Y r :
  (forall j, (j < 16)%nat -> X j = Y j) ->
  foldl (operation H root3 X) (foldl (operation G root2 X) (foldl (operation F 0 X) r round1) round2) round3 =
  foldl (operation H root3 Y) (foldl (operation G root2 Y) (foldl (operation F 0 Y) r round1) round2) round3.
Proof.
  intros Hx. rewrite !(operations_ext _ _ X Y); [done|..].
  all: first [exact Hx|by apply (bool_decide_unpack (Forall (fun ks : nat * Z => (ks.1 < 16)%nat) _))].
Qed.

Lemma transform_block s data :
  registersOf (transform s data) = block (M data) (registersOf s).
Proof.
  rewrite block_rounds. unfold transform, steps. set (words := _ <$> seq 0 16).
  assert (Hw : forall j, (j < 16)%nat -> nth j words 0 = M data j).
  { intros j Hj. unfold words, M. rewrite <- loadLe32_word, (Nat.mul_comm 4).
    do 16 (destruct j as [|j]; [reflexivity|]). lia. }
  rewrite <- (rounds_ext _ _ _ Hw), <- statements_rounds.
  set (t := foldl _ s statements). unfold registersOf, sumOf, plus, u32. cbn [a_ b_ c_ d_ A B C D].
  by rewrite (Z.add_comm (a_ t)), (Z.add_comm (b_ t)), (Z.add_comm (c_ t)), (Z.add_comm (d_ t)).
Qed.

Lemma blocks_foldl n k s data :
  registersOf (blocks n s (drop (64 * k) data)).1 =
  foldl (fun r i => block (fun j => M data (16 * i + j)) r) (registersOf s) (seq k n).
Proof.
  revert k s. induction n as [|n IH]; intros k s; [done|]. cbn [blocks seq foldl].
  rewrite drop_drop. replace (64 * k + 64)%nat with (64 * S k)%nat by lia. rewrite IH. f_equal.
  rewrite transform_take, transform_block. rewrite !block_rounds.
  assert (E : forall j, M (drop (64 * k) data) j = M data (16 * k + j)).
  { intros j. unfold M. rewrite drop_drop. do 3 f_equal. lia. }
  by rewrite (rounds_ext _ _ _ (fun j _ => E j)).
Qed.

Lemma storeLe32_lowFirst w : storeLe32 w = lowFirst 4 w.
Proof. unfold storeLe32, lowFirst, u8. cbn [seq fmap list_fmap]. by rewrite !Z.shiftr_div_pow2, Z.div_1_r by lia. Qed.
Lemma pack_lowFirst n w : pack n w = lowFirst n w.
Proof.
  apply list_fmap_ext. intros _ i _. unfold u8. rewrite Z.shiftr_div_pow2 by lia.
  by rewrite (Z.mul_comm _ 8), Z.pow_mul_r by lia.
Qed.

Lemma md4_refines data : md4Digest data = md4 data.
Proof.
  rewrite md4_padded. unfold md4.
  assert (padded data = Hash.padded data) as ->.
  { unfold Hash.padded, padded, u64. by rewrite pack_lowFirst, (Z.mul_comm 8). }
  rewrite <- (blocks_foldl _ 0 md4Init), Nat.mul_0_r, drop_0. unfold digestOf, digest.
  by rewrite !storeLe32_lowFirst.
Qed.

End rfc.

(** C33. [md4Digest] is MD4: for every message, hashing whole blocks in place
    and one or two blocks of a zeroed array for the rest, with the unrolled
    steps of [transform], gives the digest that RFC 1320 describes (module
    [Rfc1320], written from the RFC without the code), and the seven messages of
    its test suite have the digests that it lists. *)
Theorem md4_is_rfc1320 :
  (forall data, md4Digest data = Rfc1320.md4 data) /\
  toHex <$> (md4Digest <$> rfcMessages) = rfcDigests.
Proof. split; [apply md4_refines|by vm_compute]. Qed.

(** Digests can be hashed again. *)
Lemma md4Digest_length data : len (md4Digest data) = HASH_LENGTH.
Proof.
  unfold md4Digest. by destruct (blocks _ _ _).
Qed.
Lemma rootHash_ok l : Forall (fun h => len h = HASH_LENGTH) l -> exists root, rootHash l = Ok root.
Proof.
  intros Hl. unfold rootHash. destruct l as [|h [|h' l]]; [by eexists..|].
  erewrite (appendAll_written _ (fun h => h)); [monad; by eexists|].
  eapply Forall_impl; [exact Hl|]. intros x Hx. cbv beta. by rewrite (proj2 (Z.eqb_eq _ _) Hx).
Qed.

(** *** The tree of AICH hashes *)

(** [data] in pieces of [k] bytes; the last may be shorter. *)
Fixpoint chunks (fuel k : nat) (data : bytes) : list bytes :=
  match fuel, data with
  | S fuel, _ :: _ => take k data :: chunks fuel k (drop k data)
  | _, _ => []
  end.
Definition chunksOf (k : Z) (data : bytes) : list bytes := chunks (length data) (Z.to_nat k) data.

Inductive tree := Leaf (block : bytes) | Node (left right : tree).

Fixpoint treeHash (sha1Digest : bytes -> bytes) (t : tree) : bytes :=
  match t with
  | Leaf block => sha1Digest block
  | Node l r => sha1Digest (treeHash sha1Digest l ++ treeHash sha1Digest r)
  end.

(** A binary tree over a list: a left branch gives the odd item to its left
    half, a right branch to its right half. [item] is what stands for an item. *)
Inductive balanced (item : bool -> bytes -> tree -> Prop) : bool -> list bytes -> tree -> Prop :=
  | balanced_one (left : bool) x t : item left x t -> balanced item left [x] t
  | balanced_node (left : bool) l r tl tr :
      l <> [] -> r <> [] ->
      len l = (if left then len (l ++ r) + 1 else len (l ++ r)) / 2 ->
      balanced item true l tl -> balanced item false r tr ->
      balanced item left (l ++ r) (Node tl tr).

(** The AICH tree of a file: a tree over its parts of 9728000 bytes, and for
    each part the tree over its blocks of 184320 bytes. *)
Definition isBlock (left : bool) (x : bytes) (t : tree) : Prop := t = Leaf x.
Definition isPart (left : bool) (x : bytes) (t : tree) : Prop := balanced isBlock left (chunksOf EMBLOCK_LENGTH x) t.
Definition aichTree (left : bool) (data : bytes) (t : tree) : Prop := balanced isPart left (chunksOf PIECE_LENGTH data) t.

Lemma chunks_fuel fuel k data :
  (0 < k)%nat -> (length data <= fuel)%nat -> chunks fuel k data = chunks (length data) k data.
Proof.
  intros Hk. revert data. induction fuel as [fuel IH] using lt_wf_ind. intros data Hf.
  destruct data as [|b data]; [by destruct fuel|]. destruct fuel as [|fuel]; [simpl in Hf; lia|].
  cbn [chunks length]. f_equal.
  assert (length (drop k (b :: data)) <= length data)%nat by (rewrite length_drop; simpl; lia).
  rewrite IH by (simpl in Hf; lia). symmetry. apply IH; simpl in Hf; lia.
Qed.
Lemma chunksOf_step k data :
  0 < k -> data <> [] -> chunksOf k data = take (Z.to_nat k) data :: chunksOf k (drop (Z.to_nat k) data).
Proof.
  intros Hk Hd. destruct data as [|b data]; [done|]. unfold chunksOf. cbn [chunks length]. f_equal.
  apply chunks_fuel; [lia|]. rewrite length_drop. simpl. lia.
Qed.
Lemma chunksOf_small k data : data <> [] -> len data <= k -> chunksOf k data = [data].
Proof.
  intros Hd Hk. unfold len in Hk. assert (0 < k) by (destruct data; [done|simpl in Hk; lia]).
  rewrite chunksOf_step, take_ge, drop_ge by (done || lia). done.
Qed.
Lemma chunksOf_app k m a b :
  0 < k -> len a = Z.of_nat m * k -> chunksOf k (a ++ b) = chunksOf k a ++ chunksOf k b.
Proof.
  intros Hk. unfold len. revert a. induction m as [|m IH]; intros a Ha.
  - by destruct a; [|simpl in Ha; lia].
  - assert (Z.of_nat m * k >= 0) by nia. assert (Z.to_nat k <= length a)%nat by lia.
    rewrite (chunksOf_step _ a), (chunksOf_step _ (a ++ b)) by (done || destruct a; simpl in *; (done || lia)).
    rewrite take_app_le, drop_app_le by done. cbn [app]. f_equal. apply IH. rewrite length_drop. lia.
Qed.
Lemma chunksOf_len k data : 0 < k -> len (chunksOf k data) = (len data + k - 1) / k.
Proof.
  intros Hk. unfold len. remember (length data) as n eqn:Hn. revert data Hn.
  induction n as [n IH] using lt_wf_ind. intros data Hn. destruct (decide (data = [])) as [->|Hd].
  - simpl in Hn. subst n. symmetry. apply Z.div_small. lia.
  - assert (0 < n)%nat by (destruct data; [done|simpl in Hn; lia]).
    rewrite chunksOf_step by done. cbn [length]. rewrite Nat2Z.inj_succ, (IH (n - Z.to_nat k)%nat)
      by (rewrite ?length_drop; lia).
    destruct (Z_le_gt_dec (Z.of_nat n) k).
    + replace (n - Z.to_nat k)%nat with 0%nat by lia. rewrite (Z.div_small (_ + k - 1) k) by lia.
      apply Z.div_unique with (Z.of_nat n - 1); lia.
    + replace (Z.of_nat n + k - 1) with (Z.of_nat (n - Z.to_nat k) + k - 1 + 1 * k) by lia.
      rewrite Z.div_add by lia. lia.
Qed.

(** The cut of [aichRootHashForRange] falls between two items, with one on
    each side. *)
Lemma halves data k (left : bool) :
  0 < k < len data ->
  let count := (len data + k - 1) / k in
  let n := Z.min (len data) ((if left then count + 1 else count) / 2 * k) in
  let l := take (Z.to_nat n) data in let r := drop (Z.to_nat n) data in
  0 < n < len data /\ len l = n /\ len r = len data - n /\ l ++ r = data /\
  chunksOf k data = chunksOf k l ++ chunksOf k r /\
  len (chunksOf k l) = (if left then len (chunksOf k data) + 1 else len (chunksOf k data)) / 2.
Proof.
  intros Hk count n l r. set (half := (if left then count + 1 else count) / 2) in *.
  assert (Hc : count * k < len data + k /\ len data <= count * k).
  { pose proof (Z.div_mod (len data + k - 1) k). pose proof (Z.mod_pos_bound (len data + k - 1) k).
    unfold count. nia. }
  assert (2 <= count) by nia.
  assert (Hh : 1 <= half <= count - 1).
  { subst half. destruct left; (split; [apply Z.div_le_lower_bound|apply Z.lt_succ_r, Z.div_lt_upper_bound]); lia. }
  assert (Hn : n = half * k) by (subst n; nia). assert (0 < n < len data) by nia.
  assert (Hl : len l = n) by (unfold len, l in *; rewrite length_take; lia).
  assert (Hr : len r = len data - n) by (unfold len, r in *; rewrite length_drop; lia).
  assert (Happ : l ++ r = data) by apply take_drop.
  assert (Hch : chunksOf k data = chunksOf k l ++ chunksOf k r).
  { rewrite <- Happ at 1. apply chunksOf_app with (Z.to_nat half); lia. }
  repeat (split; [done|]). rewrite !chunksOf_len by lia. fold count half. rewrite Hl, Hn.
  symmetry. apply Z.div_unique with (k - 1); lia.
Qed.

Lemma balanced_single item left x t : balanced item left [x] t -> item left x t.
Proof.
  intros H. remember [x] as xs eqn:E. destruct H as [|? l r ? ? Hl Hr]; [by simplify_eq|].
  destruct l as [|? [|]]; [done| |done]. by destruct r.
Qed.
Lemma len_pos_nonempty {A} (l : list A) : 0 < len l -> l <> [].
Proof. by intros H ->. Qed.
Lemma chunksOf_nonempty k data : 0 < k -> 0 < len data -> chunksOf k data <> [].
Proof. intros Hk Hd. rewrite chunksOf_step; [done|done|]. by intros ->. Qed.

Lemma range_tree sha1Digest fuel : forall data left,
  0 < len data -> len data <= Z.of_nat fuel ->
  exists t, aichTree left data t /\
    aichRootHashForRange sha1Digest fuel data (baseSizeOf (len data)) left = Some (treeHash sha1Digest t).
Proof.
  induction fuel as [|fuel IH]; intros data left Hd Hf; [lia|]. cbn [aichRootHashForRange].
  pose proof (len_pos_nonempty _ Hd) as Hne.
  destruct (Z.leb_spec (len data) (baseSizeOf (len data))) as [Hle|Hgt].
  - unfold baseSizeOf in Hle. destruct (Z.leb_spec (len data) PIECE_LENGTH); [|lia].
    exists (Leaf data). split; [|done]. unfold aichTree, isPart. rewrite chunksOf_small by done.
    constructor. rewrite chunksOf_small by done. by constructor.
  - destruct (halves data (baseSizeOf (len data)) left) as (Hn & Hl & Hr & Happ & Hch & Hlen).
    { split; [|done]. unfold baseSizeOf. by destruct (_ <=? _). }
    set (n := Z.min _ _) in *. set (l := take (Z.to_nat n) data) in *. set (r := drop (Z.to_nat n) data) in *.
    destruct (IH l true) as (tl & Htl & El); [lia..|]. destruct (IH r false) as (tr & Htr & Er); [lia..|].
    rewrite Hl in El. rewrite Hr in Er. rewrite El, Er. exists (Node tl tr). split; [|done].
    unfold baseSizeOf in *. unfold aichTree in *. destruct (Z.leb_spec (len data) PIECE_LENGTH) as [Hp|Hp].
    + rewrite chunksOf_small in Htl by (lia || apply len_pos_nonempty; lia).
      rewrite chunksOf_small in Htr by (lia || apply len_pos_nonempty; lia).
      apply balanced_single in Htl, Htr. rewrite chunksOf_small by done. constructor.
      unfold isPart in *. rewrite Hch in *. constructor; try done; apply chunksOf_nonempty; (done || lia).
    + rewrite Hch in *. constructor; try done; apply chunksOf_nonempty; (done || lia).
Qed.

(** *** The hashes of the parts *)

(** A file that ends at the end of a part has one more hash: the parts counted
    reach past the last byte. *)
Lemma part_count_covers fileSize :
  PIECE_LENGTH <= fileSize ->
  (hashSetPartCount fileSize - 1) * PIECE_LENGTH <= fileSize < hashSetPartCount fileSize * PIECE_LENGTH.
Proof.
  intros H. unfold hashSetPartCount. destruct (Z.leb_spec fileSize 0); [unfold PIECE_LENGTH in *; lia|].
  pose proof (Z.div_mod fileSize PIECE_LENGTH). pose proof (Z.mod_pos_bound fileSize PIECE_LENGTH).
  destruct (Z.eqb_spec (fileSize / PIECE_LENGTH) 0); unfold PIECE_LENGTH in *; lia.
Qed.

Lemma nextLevel_len sha1Digest level :
  length (nextLevel sha1Digest level) = ((length level + 1) / 2)%nat.
Proof.
  remember (length level) as n eqn:Hn. revert level Hn. induction n as [n IH] using lt_wf_ind.
  intros [|a [|b level]] ->; [done..|]. cbn [nextLevel length]. rewrite (IH (length level)) by (simpl; lia || done).
  replace (S (S (length level)) + 1)%nat with (length level + 1 + 1 * 2)%nat by lia.
  rewrite Nat.div_add by lia. lia.
Qed.
Lemma levels_end sha1Digest fuel : forall level,
  (0 < length level <= fuel)%nat -> exists root, levels sha1Digest fuel level = Ok root.
Proof.
  induction fuel as [|fuel IH]; intros level Hl; [lia|].
  destruct level as [|a [|b level]]; [simpl in Hl; lia|by exists a|].
  cbn [levels]. apply IH. rewrite nextLevel_len. cbn [length] in *. split.
  - apply Nat.div_str_pos. lia.
  - apply Nat.lt_succ_r, Nat.Div0.div_lt_upper_bound. lia.
Qed.
Lemma aich_hash_valid hash : len hash = AICH_HASH_LENGTH -> validateAichHashLength hash = Ok tt.
Proof. intros H. unfold validateAichHashLength. by rewrite H. Qed.
Lemma aich_hashes_valid hashes payload :
  Forall (fun hash => len hash = AICH_HASH_LENGTH) hashes ->
  appendAll (fun hash => _ ← validateAichHashLength hash; mret []) hashes payload = Ok payload.
Proof.
  intros H. induction H as [|hash hashes Hh _ IH]; [done|]. cbn [appendAll].
  rewrite aich_hash_valid by done. cbn. by rewrite app_nil_r.
Qed.

(** C34. The recursion and the loop over the levels of [aichRootHash] end. For
    data of any length, a fuel of its length is enough: the result is the hash
    of a tree over the parts of 9728000 bytes in their order, each part a tree
    over its own blocks of 184320 bytes, with the odd item of a left branch on
    its left and that of a right branch on its right. For hashes of 20 bytes,
    the loop that halves a level reaches a single hash. *)
Theorem aich_root_terminates sha1Digest :
  (forall data fuel, 0 < len data -> len data <= Z.of_nat fuel ->
     exists t, aichTree true data t /\ aichRootHash sha1Digest fuel data = Some (treeHash sha1Digest t)) /\
  (forall hashes, Forall (fun hash => len hash = AICH_HASH_LENGTH) hashes ->
     exists root, aichRootOfHashes sha1Digest hashes = Ok root).
Proof.
  split.
  - intros data fuel Hd Hf. unfold aichRootHash. destruct (Z.eqb_spec (len data) 0); [lia|]. by apply range_tree.
  - intros hashes Hh. destruct hashes as [|a [|b hashes]]; [by eexists|..].
    + apply Forall_cons in Hh as [Ha _]. exists a. cbn [aichRootOfHashes]. by rewrite aich_hash_valid.
    + unfold aichRootOfHashes. rewrite aich_hashes_valid by done. cbn [mbind]. apply levels_end. simpl. lia.
Qed.
End Hash.

Module HashExamples.
Import Bytes Text Wire Packet Hash.

(** A digest of 20 bytes that stands for SHA-1. *)
Definition toySha1 (data : bytes) : bytes := replicate 19 0 ++ [u8 (foldr Z.add 0 data)].

Lemma aich_root_terminates_witness :
  (exists t, aichTree true [1; 2; 3] t /\ aichRootHash toySha1 3 [1; 2; 3] = Some (treeHash toySha1 t)) /\
  (exists root, aichRootOfHashes toySha1 [replicate 20 1; replicate 20 2; replicate 20 3] = Ok root).
Proof.
  split.
  - apply (proj1 (aich_root_terminates toySha1)); by vm_compute.
  - apply (proj2 (aich_root_terminates toySha1)). repeat (constructor; [by vm_compute|]). constructor.
Defined.
End HashExamples.
