(* ===== verification/Ranges.v ===== *)
(** * Byte range sets: [src/http/Ranges.h], [src/http/Ranges.cc]

    [RangeSet] is the interval set that records which bytes of a file are
    there. The HTTP planner and the ED2K parts both keep one. It is a
    [std::map] from the begin of a range to its end; the ranges are disjoint
    and coalesced ([wf]).

    - [ByteRanges] holds the operations of the class as its clients call them;
      [ByteRangesLaws] says what they promise, in terms of the set of bytes
      [covers] describes. The clients are verified against this interface.
    - [RangeSet] translates the class and proves the laws, and that the
      representation is canonical: two well-formed sets with the same bytes
      are the same map. *)

From S2P Require Import Prelude StdMap.

(** [using Range = std::pair<int64_t, int64_t>; // [begin, end)] *)
Definition Range : Type := Z * Z.
Definition rbegin (r : Range) : Z := r.1.
Definition rend (r : Range) : Z := r.2.

(** A byte of a range. *)
Definition inside (x : Z) (r : Range) : Prop := r.1 <= x < r.2.

(** ** What the set promises to its clients *)

Class ByteRanges (R : Type) := {
  br_empty : R;
  br_add : Z -> Z -> R -> R;
  br_remove : Z -> Z -> R -> R;
  br_contains : Z -> Z -> R -> bool;
  br_total : R -> Z;
  br_covered : Z -> Z -> R -> Z;
  br_firstGap : Z -> Z -> R -> option Range;
  br_ranges : R -> list Range;
  covers : R -> Z -> Prop;
  br_ok : R -> Prop;
}.

(** The number of bytes of [\[b, e)] that satisfy a predicate. *)
Definition count_bytes (P : Z -> Prop) `{forall x, Decision (P x)} (b e : Z) : Z :=
  Z.of_nat (length (filter P (seqZ b (e - b)))).

Section count_bytes.
Context (P Q : Z -> Prop) `{forall x, Decision (P x), forall x, Decision (Q x)}.

Lemma count_bytes_nil b e : e <= b -> count_bytes P b e = 0.
Proof. intros. unfold count_bytes. by rewrite seqZ_nil by lia. Qed.

Lemma count_bytes_cons b e :
  b < e -> count_bytes P b e = (if decide (P b) then 1 else 0) + count_bytes P (b + 1) e.
Proof.
  intros. unfold count_bytes. rewrite seqZ_cons by lia. rewrite filter_cons.
  replace (Z.pred (e - b)) with (e - (b + 1)) by lia.
  replace (Z.succ b) with (b + 1) by lia.
  case_decide; cbn [length]; lia.
Qed.
End count_bytes.

(** Induction over the bytes of a range, from its begin. *)
Lemma bytes_ind (b e : Z) (Phi : Z -> Prop) :
  b <= e -> Phi e -> (forall x, b <= x < e -> Phi (x + 1) -> Phi x) -> Phi b.
Proof.
  intros Hle He Hstep.
  assert (forall n : nat, Z.of_nat n <= e - b -> Phi (e - Z.of_nat n)) as Hn.
  { induction n as [|n IH]; intros Hn.
    - by rewrite Z.sub_0_r.
    - apply Hstep; [lia|]. replace (e - Z.of_nat (S n) + 1) with (e - Z.of_nat n) by lia.
      apply IH. lia. }
  specialize (Hn (Z.to_nat (e - b))). replace (e - Z.of_nat (Z.to_nat (e - b))) with b in Hn by lia.
  apply Hn. lia.
Qed.

Section count_bytes_laws.
Context (P Q S : Z -> Prop)
  `{forall x, Decision (P x), forall x, Decision (Q x), forall x, Decision (S x)}.

Lemma count_bytes_ext b e :
  (forall x, b <= x < e -> P x <-> Q x) -> count_bytes P b e = count_bytes Q b e.
Proof.
  intros Hext. destruct (Z.le_gt_cases b e) as [Hle|]; [|by rewrite !count_bytes_nil by lia].
  revert Hext. apply (bytes_ind b e); [done|intros; by rewrite !count_bytes_nil by lia|].
  intros x Hx IH Hext. rewrite (count_bytes_cons P), (count_bytes_cons Q) by lia.
  rewrite IH by (intros; apply Hext; lia).
  assert (P x <-> Q x) by (apply Hext; lia).
  repeat case_decide; tauto || lia.
Qed.

(** Bytes of two disjoint sets are counted separately. *)
Lemma count_bytes_disjoint b e :
  (forall x, P x <-> Q x \/ S x) -> (forall x, Q x -> S x -> False) ->
  count_bytes P b e = count_bytes Q b e + count_bytes S b e.
Proof.
  intros Hor Hd. destruct (Z.le_gt_cases b e) as [Hle|]; [|by rewrite !count_bytes_nil by lia].
  apply (bytes_ind b e); [done|by rewrite !count_bytes_nil by lia|].
  intros x Hx IH. rewrite (count_bytes_cons P), (count_bytes_cons Q), (count_bytes_cons S) by lia.
  specialize (Hor x). specialize (Hd x).
  repeat case_decide; tauto || lia.
Qed.
End count_bytes_laws.

Lemma count_bytes_inside b e r `{forall x, Decision (inside x r)} :
  b <= e -> count_bytes (fun x => inside x r) b e = Z.max 0 (Z.min e r.2 - Z.max b r.1).
Proof.
  intros Hle. apply (bytes_ind b e); [done|rewrite count_bytes_nil; lia|].
  intros x Hx IH. rewrite count_bytes_cons, IH by lia.
  unfold inside in *. case_decide; lia.
Qed.

Class ByteRangesLaws (R : Type) `{ByteRanges R} := {
  covers_dec s x :: Decision (covers s x);
  ok_empty : br_ok br_empty;
  ok_add b e s : br_ok s -> br_ok (br_add b e s);
  ok_remove b e s : br_ok s -> br_ok (br_remove b e s);
  covers_empty x : ~ covers br_empty x;
  covers_add b e s x :
    br_ok s -> covers (br_add b e s) x <-> covers s x \/ b <= x < e;
  covers_remove b e s x :
    br_ok s -> covers (br_remove b e s) x <-> covers s x /\ ~ b <= x < e;
  contains_spec b e s :
    br_ok s -> br_contains b e s = true <-> forall x, b <= x < e -> covers s x;
  firstGap_none from limit s :
    br_ok s ->
    br_firstGap from limit s = None -> forall x, from <= x < limit -> covers s x;
  firstGap_some from limit s g :
    br_ok s -> br_firstGap from limit s = Some g ->
    from <= g.1 /\ g.1 < g.2 /\ g.2 <= limit /\
    (forall x, from <= x < g.1 -> covers s x) /\
    (forall x, g.1 <= x < g.2 -> ~ covers s x) /\
    (g.2 = limit \/ (covers s g.2 /\ g.2 ∈ (br_ranges s).*1));
  covered_spec b e s :
    br_ok s -> b <= e -> br_covered b e s = count_bytes (covers s) b e;
  covers_ranges s x : covers s x <-> Exists (inside x) (br_ranges s);
}.

(** The ranges that begin after [from]: the rounds a loop over the gaps from
    there still needs. *)
Definition begins_after `{ByteRanges R} (s : R) (from : Z) : nat :=
  length (filter (fun b => from < b) (br_ranges s).*1).

Lemma filter_lt_decreases (from from' : Z) (l : list Z) :
  from < from' -> from' ∈ l ->
  (length (filter (fun b => from' < b)%Z l) < length (filter (fun b => from < b)%Z l))%nat.
Proof.
  intros Hlt. assert (forall k : list Z, length (filter (fun b => from' < b)%Z k) <=
    length (filter (fun b => from < b)%Z k))%nat as Hle.
  { induction k as [|b k IH]; [done|]. rewrite !filter_cons.
    repeat case_decide; simpl; lia. }
  induction l as [|b l IH]; [by intros ?%elem_of_nil|].
  rewrite !filter_cons. specialize (Hle l).
  intros [<-|Hin]%elem_of_cons; [|specialize (IH Hin)]; repeat case_decide; simpl; lia.
Qed.

Lemma begins_after_mono `{ByteRanges R} (s : R) from from' :
  from <= from' -> (begins_after s from' <= begins_after s from)%nat.
Proof.
  intros Hle. unfold begins_after. induction (br_ranges s).*1 as [|b l IH]; [done|].
  rewrite !filter_cons. repeat case_decide; simpl; lia.
Qed.
Lemma begins_after_le `{ByteRanges R} (s : R) from : (begins_after s from <= length (br_ranges s))%nat.
Proof. unfold begins_after. etrans; [apply length_filter|]. by rewrite length_fmap. Qed.

(** ** The class [RangeSet] *)

Module RangeSet.

(** [std::map<int64_t, int64_t> ranges_; // begin -> end] *)
Definition t : Type := stdmap Z Z.

Definition empty : t := [].

(** The loop of [add]: erases the ranges that touch [\[begin, end)] and widens
    the end; [from] are the entries from the iterator on. *)
Fixpoint absorb (end_ : Z) (from : t) : Z * t :=
  match from with
  | (first, last) :: from' =>
      if first <=? end_ then absorb (Z.max end_ last) from' else (end_, from)
  | [] => (end_, [])
  end.

Definition add (begin end_ : Z) (ranges : t) : t :=
  if end_ <=? begin then ranges
  else
    let '(before, from) := upper_bound begin ranges in
    let '(before, from, begin) :=
      match unsnoc before with
      | Some (init, (first, last)) =>
          if begin <=? last then (init, (first, last) :: from, first)
          else (before, from, begin)
      | None => (before, from, begin)
      end in
    let '(end_, from) := absorb end_ from in
    emplace begin end_ (before ++ from).

(** The loop of [remove]: [done] are the entries before the iterator. A head
    that survives is emplaced below the iterator, and a tail that survives
    ends the loop. *)
Fixpoint remove_loop (begin end_ : Z) (done from : t) : t :=
  match from with
  | (first, last) :: from' =>
      if first <? end_ then
        if last <=? begin then remove_loop begin end_ (done ++ [(first, last)]) from'
        else
          let done := if first <? begin then emplace first begin done else done in
          if end_ <? last then emplace end_ last (done ++ from')
          else remove_loop begin end_ done from'
      else done ++ from
  | [] => done
  end.

(** [if (it != ranges_.begin()) --it;] *)
Definition step_back (it : t * t) : t * t :=
  match unsnoc it.1 with
  | Some (init, entry) => (init, entry :: it.2)
  | None => it
  end.

Definition remove (begin end_ : Z) (ranges : t) : t :=
  if end_ <=? begin then ranges
  else
    let '(done, from) := step_back (upper_bound begin ranges) in
    remove_loop begin end_ done from.

Definition contains (begin end_ : Z) (ranges : t) : bool :=
  if end_ <=? begin then true
  else
    match unsnoc (upper_bound begin ranges).1 with
    | Some (_, (_, last)) => end_ <=? last
    | None => false
    end.

Definition total (ranges : t) : Z :=
  foldl (fun sum '(begin, end_) => sum + (end_ - begin)) 0 ranges.

Fixpoint covered_loop (begin end_ sum : Z) (from : t) : Z :=
  match from with
  | (first, last) :: from' =>
      if first <? end_ then
        covered_loop begin end_
          (sum + Z.max 0 (Z.min end_ last - Z.max begin first)) from'
      else sum
  | [] => sum
  end.

Definition covered (begin end_ : Z) (ranges : t) : Z :=
  covered_loop begin end_ 0 (step_back (upper_bound begin ranges)).2.

Definition firstGap (from limit : Z) (ranges : t) : option Range :=
  let '(before, rest) := upper_bound from ranges in
  let cursor :=
    match unsnoc before with
    | Some (_, (_, last)) => if from <? last then last else from
    | None => from
    end in
  if limit <=? cursor then None
  else
    let next :=
      match rest with
      | [] => limit
      | (first, _) :: _ => Z.min limit first
      end in
    Some (cursor, next).

(** ** The invariant of the representation *)

(** Ranges are not empty, and a range ends below the begin of the next one:
    they are in key order, disjoint and coalesced. *)
Definition apart (r s : Range) : Prop := r.2 < s.1.
Definition nonempty (r : Range) : Prop := r.1 < r.2.
Definition wf (ranges : t) : Prop :=
  Forall nonempty ranges /\ StronglySorted apart ranges.

Definition mem (ranges : t) (x : Z) : Prop := Exists (inside x) ranges.

#[export] Instance inside_dec x r : Decision (inside x r).
Proof. unfold inside. apply _. Defined.

#[export] Instance mem_dec ranges x : Decision (mem ranges x).
Proof. unfold mem. apply _. Defined.

(** ** Lemmas on the representation *)

Lemma wf_nil : wf [].
Proof. split; constructor. Qed.

Lemma wf_cons r ranges :
  wf (r :: ranges) <-> nonempty r /\ wf ranges /\ Forall (apart r) ranges.
Proof.
  unfold wf. rewrite Forall_cons. split.
  - intros [[? ?] [? ?]%StronglySorted_inv]. done.
  - intros (? & [? ?] & ?). split; [done|]. by constructor.
Qed.

Lemma wf_app l k :
  wf (l ++ k) <->
  wf l /\ wf k /\ (forall r s, r ∈ l -> s ∈ k -> apart r s).
Proof. unfold wf. rewrite Forall_app, StronglySorted_app. tauto. Qed.

(** A range in the middle separates what is below it from what is above it. *)
Lemma wf_middle l b e k :
  wf (l ++ (b, e) :: k) <->
  wf l /\ b < e /\ wf k /\
  Forall (fun r => r.2 < b) l /\ Forall (fun r => e < r.1) k.
Proof.
  rewrite wf_app, wf_cons. unfold apart, nonempty. simpl. rewrite !Forall_forall.
  split.
  - intros (Hl & (Hbe & Hk & Hek) & Hap). split_and!; try done.
    intros r Hr. apply (Hap r (b, e)); [done|]. apply list_elem_of_here.
  - intros (Hl & Hbe & Hk & Hlb & Hek). split_and!; try done.
    intros r s Hr [->|Hs]%elem_of_cons; simpl; [auto|].
    specialize (Hlb r Hr). specialize (Hek s Hs). lia.
Qed.

Lemma wf_sorted ranges : wf ranges -> sorted ranges.
Proof.
  induction ranges as [|r ranges IH]; [constructor|].
  intros (Hne & Hwf & Hall)%wf_cons. constructor; [by apply IH|].
  eapply Forall_impl; [exact Hall|]. intros s Hs.
  unfold key_lt, key_ltb, Z_KeyOrder, apart, nonempty in *. apply Z.ltb_lt. lia.
Qed.

Lemma mem_nil x : mem [] x <-> False.
Proof. apply Exists_nil. Qed.

Lemma mem_cons r ranges x : mem (r :: ranges) x <-> inside x r \/ mem ranges x.
Proof. apply Exists_cons. Qed.

Lemma mem_app l k x : mem (l ++ k) x <-> mem l x \/ mem k x.
Proof. apply Exists_app. Qed.

(** What a split at [upper_bound] says about its parts: the range before the
    iterator, if there is one, is the only one that can hold [b]. *)
Inductive split_at (b : Z) : t -> t -> t -> Prop :=
| split_first from :
    wf from -> Forall (fun r => b < r.1) from -> split_at b from [] from
| split_prev init f l from :
    wf init -> f < l -> wf from -> f <= b ->
    Forall (fun r => r.2 < f) init -> Forall (fun r => b < r.1 /\ l < r.1) from ->
    split_at b (init ++ (f, l) :: from) (init ++ [(f, l)]) from.

Lemma upper_bound_split b ranges :
  wf ranges -> split_at b ranges (upper_bound b ranges).1 (upper_bound b ranges).2.
Proof.
  intros Hwf.
  pose proof (upper_bound_app b ranges) as Happ.
  pose proof (upper_bound_before b ranges) as Hb.
  pose proof (upper_bound_from b ranges (wf_sorted _ Hwf)) as Hf.
  destruct (upper_bound b ranges) as [before from]. simpl in *. subst ranges.
  assert (Forall (fun r => b < r.1) from) as Hfb.
  { eapply Forall_impl; [exact Hf|]. intros r Hr. by apply Z.ltb_lt. }
  destruct (unsnoc before) as [[init [f l]]|] eqn:Hun.
  - apply unsnoc_inv in Hun as ->. rewrite <- app_assoc in *. simpl in *.
    apply wf_app in Hwf as (Hi & (Hne & Hwf & Hla)%wf_cons & Hap).
    constructor; try done.
    + apply Forall_app in Hb as [_ [Hb _]%Forall_cons]. by apply Z.ltb_ge.
    + apply Forall_forall. intros r Hr. apply (Hap r (f, l)); [done|].
      apply list_elem_of_here.
    + by apply Forall_and.
  - apply unsnoc_None in Hun as ->. by constructor.
Qed.

(** The loop of [add] merges what touches the range and nothing else. *)
Lemma absorb_spec b e from e' rest :
  b < e -> wf from -> Forall (fun r => b <= r.1) from ->
  absorb e from = (e', rest) ->
  e <= e' /\ wf rest /\ Forall (fun r => e' < r.1) rest /\
  (forall x, mem rest x \/ b <= x < e' <-> mem from x \/ b <= x < e).
Proof.
  revert e. induction from as [|[f l] from IH]; simpl; intros e Hbe Hwf Hge Habs.
  - simplify_eq. split_and!; [lia|apply wf_nil|constructor|done].
  - apply wf_cons in Hwf as (Hne & Hwf & Hall). apply Forall_cons in Hge as [Hf Hge].
    unfold nonempty in *. simpl in *. destruct (Z.leb_spec f e).
    + apply IH in Habs as (He & ? & ? & Hmem); [|lia|done|done].
      split_and!; try done; [lia|]. intros x. rewrite mem_cons. unfold inside. simpl.
      split.
      * intros Hx. apply Hmem in Hx as [?|?]; [tauto|].
        destruct (decide (x < e)); [lia|]. left. left. lia.
      * intros [[?|?]|?]; apply Hmem; [right; lia|tauto|right; lia].
    + simplify_eq. split_and!; try done; try lia.
      * apply wf_cons. done.
      * constructor; [done|]. eapply Forall_impl; [exact Hall|].
        unfold apart; simpl. intros. lia.
Qed.

(** A range emplaced between ranges that do not touch it. *)
Lemma emplace_between l b e k :
  wf (l ++ (b, e) :: k) -> emplace b e (l ++ k) = l ++ (b, e) :: k.
Proof.
  intros (Hl & Hbe & Hk & Hlb & Hek)%wf_middle.
  apply emplace_middle; unfold key_ltb, Z_KeyOrder.
  - destruct Hl as [Hne _]. rewrite Forall_forall in *. unfold nonempty in *.
    intros r Hr. specialize (Hne r Hr). specialize (Hlb r Hr).
    apply Z.ltb_lt. simpl in *. lia.
  - eapply Forall_impl; [exact Hek|]. simpl. intros. apply Z.ltb_lt. lia.
Qed.

(** ** [add] is union *)

(** The common end of both cases of [add]: [init] stays, [from] is absorbed. *)
Lemma add_merge init b e from :
  wf init -> Forall (fun r => r.2 < b) init -> b < e ->
  wf from -> Forall (fun r => b <= r.1) from ->
  let m := let '(e', rest) := absorb e from in emplace b e' (init ++ rest) in
  wf m /\ forall x, mem m x <-> mem (init ++ from) x \/ b <= x < e.
Proof.
  intros Hi Hil Hbe Hf Hfl. destruct (absorb e from) as [e' rest] eqn:Habs.
  apply (absorb_spec b) in Habs as (He & Hr & Hrl & Hm); try done.
  assert (wf (init ++ (b, e') :: rest)) as Hw.
  { apply wf_middle. split_and!; try done. lia. }
  rewrite emplace_between by done. split; [done|]. intros x. rewrite !mem_app, mem_cons. unfold inside. simpl.
  specialize (Hm x). tauto.
Qed.

Lemma add_spec b e ranges :
  wf ranges ->
  wf (add b e ranges) /\ (forall x, mem (add b e ranges) x <-> mem ranges x \/ b <= x < e).
Proof.
  intros Hwf. unfold add.
  destruct (Z.leb_spec e b); [split; [done|intros; intuition lia]|].
  pose proof (upper_bound_split b _ Hwf) as Hs.
  destruct (upper_bound b ranges) as [before from]. simpl in Hs.
  destruct Hs as [from Hf Hfb|init f l from Hi Hfl Hf Hfb Hil Hfk].
  - simpl. apply (add_merge []); try done; [apply wf_nil|].
    eapply Forall_impl; [exact Hfb|]. simpl. lia.
  - rewrite unsnoc_snoc. destruct (Z.leb_spec b l).
    + destruct (add_merge init f e ((f, l) :: from)) as [Hw Hm]; try done; try lia.
      * by apply wf_app in Hwf as (_ & ? & _).
      * constructor; [simpl; lia|]. eapply Forall_impl; [exact Hfk|]. simpl. lia.
      * split; [done|]. intros x. rewrite Hm, mem_app, mem_cons.
        unfold inside. simpl. intuition lia.
    + destruct (add_merge (init ++ [(f, l)]) b e from) as [Hw Hm]; try done.
      * change ((f, l) :: from) with ([(f, l)] ++ from) in Hwf.
        rewrite app_assoc in Hwf. by apply wf_app in Hwf as (? & _ & _).
      * apply Forall_app. split; [|by repeat constructor].
        eapply Forall_impl; [exact Hil|]. simpl. lia.
      * eapply Forall_impl; [exact Hfk|]. simpl. lia.
      * split; [done|]. intros x. by rewrite Hm, <- app_assoc.
Qed.

(** ** [remove] is difference *)

Lemma mem_below hi ranges x : Forall (fun r => r.2 <= hi) ranges -> mem ranges x -> x < hi.
Proof.
  unfold mem. rewrite Exists_exists, Forall_forall.
  intros Hall (r & Hr & Hx). specialize (Hall r Hr). unfold inside in Hx. lia.
Qed.

Lemma mem_above lo ranges x : Forall (fun r => lo <= r.1) ranges -> mem ranges x -> lo <= x.
Proof.
  unfold mem. rewrite Exists_exists, Forall_forall.
  intros Hall (r & Hr & Hx). specialize (Hall r Hr). unfold inside in Hx. lia.
Qed.

(** The part of a range below [b] survives below the iterator. *)
Lemma keep_head b f l done from :
  wf (done ++ (f, l) :: from) -> b < l -> Forall (fun r => r.2 <= b) done ->
  let done' := if f <? b then emplace f b done else done in
  wf done' /\ Forall (fun r => r.2 <= b) done' /\
  (forall r, r ∈ from -> l < r.1) /\ wf from /\ f < l /\
  (forall x, mem done' x <-> mem done x \/ f <= x < b).
Proof.
  intros (Hd & Hfl & Hf & Hdf & Hlf)%wf_middle Hbl Hdb. rewrite Forall_forall in Hlf.
  destruct (Z.ltb_spec f b); simpl; [|split_and!; try done; intros; intuition lia].
  assert (wf (done ++ [(f, b)])) by (apply wf_middle; split_and!; done || apply wf_nil).
  assert (emplace f b done = done ++ [(f, b)]) as ->.
  { by rewrite <- emplace_between, app_nil_r. }
  split_and!; try done.
  - apply Forall_app. split; [done|]. by repeat constructor.
  - intros x. rewrite mem_app, mem_cons, mem_nil. unfold inside. simpl. tauto.
Qed.

Lemma remove_loop_spec b e done from :
  b < e -> wf (done ++ from) -> Forall (fun r => r.2 <= b) done ->
  wf (remove_loop b e done from) /\
  forall x, mem (remove_loop b e done from) x <->
            mem (done ++ from) x /\ ~ b <= x < e.
Proof.
  intros Hbe. revert done.
  induction from as [|[f l] from IH]; simpl; intros done Hwf Hdone.
  - rewrite app_nil_r in *. split; [done|]. intros x. split; [|tauto].
    intros Hx. pose proof (mem_below _ _ _ Hdone Hx). intuition lia.
  - assert (forall x, mem done x -> x < b) as Hdx by eauto using mem_below.
    destruct (Z.ltb_spec f e).
    2: { apply wf_middle in Hwf as Hwf'. destruct Hwf' as (_ & Hfl & _ & _ & Hlf).
         split; [done|]. intros x. split; [|tauto]. intros Hx. split; [done|].
         apply mem_app in Hx as [Hx%Hdx|[?|Hx]%mem_cons]; unfold inside in *; simpl in *;
           [lia..|].
         apply (mem_above f) in Hx; [lia|]. eapply Forall_impl; [exact Hlf|]. simpl. lia. }
    destruct (Z.leb_spec l b).
    { destruct (IH (done ++ [(f, l)])) as [Hw Hm]; rewrite <- ?app_assoc in *; try done.
      apply Forall_app. split; [done|]. by repeat constructor. }
    destruct (keep_head b f l done from) as (Hd & Hdb & Hlf & Hf & Hfl & Hm'); try done.
    set (done' := if f <? b then _ else _) in *. clearbody done'.
    destruct (Z.ltb_spec e l).
    + assert (wf (done' ++ (e, l) :: from)) as Hw.
      { apply wf_middle. split_and!; try done; [|by apply Forall_forall].
        eapply Forall_impl; [exact Hdb|]. simpl. lia. }
      rewrite emplace_between by done. split; [done|]. intros x.
      assert (mem from x -> l < x).
      { intros Hx. apply (mem_above (l + 1)) in Hx; [lia|]. apply Forall_forall.
        intros r Hr. specialize (Hlf r Hr). lia. }
      specialize (Hdx x). rewrite !mem_app, !mem_cons, Hm'. unfold inside. simpl.
      intuition lia.
    + destruct (IH done') as [Hw Hm]; try done.
      { apply wf_app. split_and!; try done. intros r s Hr Hs. unfold apart.
        rewrite Forall_forall in Hdb. specialize (Hdb r Hr). specialize (Hlf s Hs). lia. }
      split; [done|]. intros x. rewrite Hm, !mem_app, Hm', mem_cons.
      unfold inside. simpl. intuition lia.
Qed.

Lemma remove_spec b e ranges :
  wf ranges ->
  wf (remove b e ranges) /\
  forall x, mem (remove b e ranges) x <-> mem ranges x /\ ~ b <= x < e.
Proof.
  intros Hwf. unfold remove.
  destruct (Z.leb_spec e b); [split; [done|intros; intuition lia]|].
  pose proof (upper_bound_split b _ Hwf) as Hs.
  destruct (upper_bound b ranges) as [before from]. simpl in Hs.
  destruct Hs as [from Hf Hfb|init f l from Hi Hfl Hf Hfb Hil Hfk]; unfold step_back; simpl.
  - by apply (remove_loop_spec b e []).
  - rewrite unsnoc_snoc. apply remove_loop_spec; [done..|].
    eapply Forall_impl; [exact Hil|]. simpl. lia.
Qed.

(** ** The queries *)

(** The end of the range before the split, or [b] when it ends below [b]. *)
Definition cursor_at (b : Z) (before : t) : Z :=
  match unsnoc before with
  | Some (_, (_, last)) => if b <? last then last else b
  | None => b
  end.

(** From [b] on, the bytes that are there are those up to the cursor and those
    of the ranges from the iterator on, which leave the cursor's byte free. *)
Lemma split_at_mem b ranges before from :
  split_at b ranges before from ->
  b <= cursor_at b before /\
  (forall x, b <= x -> mem ranges x <-> x < cursor_at b before \/ mem from x) /\
  (forall x, mem from x -> cursor_at b before < x) /\
  wf from /\ Forall (fun r => cursor_at b before < r.1) from.
Proof.
  destruct 1 as [from Hf Hfb|init f l from Hi Hfl Hf Hfb Hil Hfk]; unfold cursor_at.
  - simpl. split_and!; try done; [intros; intuition lia|].
    intros x Hx. apply (mem_above (b + 1)) in Hx; [lia|].
    eapply Forall_impl; [exact Hfb|]. simpl. lia.
  - rewrite unsnoc_snoc. split_and!; try done; [zcase; lia| | |].
    + intros x Hx. rewrite mem_app, mem_cons. unfold inside. simpl.
      assert (~ mem init x).
      { intros Hm. apply (mem_below f) in Hm; [lia|].
        eapply Forall_impl; [exact Hil|]. simpl. lia. }
      zcase; intuition lia.
    + intros x Hx. apply (mem_above (Z.max b l + 1)) in Hx; [zcase; lia|].
      eapply Forall_impl; [exact Hfk|]. simpl. lia.
    + eapply Forall_impl; [exact Hfk|]. simpl. intros. zcase; lia.
Qed.

Lemma contains_iff b e ranges :
  wf ranges -> contains b e ranges = true <-> forall x, b <= x < e -> mem ranges x.
Proof.
  intros Hwf. unfold contains. destruct (Z.leb_spec e b); [split; [intros; lia|done]|].
  pose proof (split_at_mem _ _ _ _ (upper_bound_split b _ Hwf)) as (Hc & Hm & Hf & _ & _).
  transitivity (e <= cursor_at b (upper_bound b ranges).1).
  - unfold cursor_at. destruct (unsnoc _) as [[init [f l]]|]; zcase; split; done || lia.
  - split.
    + intros He x Hx. apply Hm; [lia|]. left. lia.
    + intros Hall. apply Z.le_ngt. intros Hlt.
      destruct (Hm _ Hc) as [Hc' _]. specialize (Hall _ (conj Hc Hlt)).
      apply Hc' in Hall as [?|?%Hf]; lia.
Qed.

Lemma firstGap_spec from limit ranges :
  wf ranges ->
  match firstGap from limit ranges with
  | None => forall x, from <= x < limit -> mem ranges x
  | Some (b, e) =>
      from <= b /\ b < e /\ e <= limit /\
      (forall x, from <= x < b -> mem ranges x) /\
      (forall x, b <= x < e -> ~ mem ranges x) /\
      (e = limit \/ (mem ranges e /\ e ∈ ranges.*1))
  end.
Proof.
  intros Hwf. unfold firstGap.
  pose proof (split_at_mem _ _ _ _ (upper_bound_split from _ Hwf)) as (Hc & Hm & Hf & Hw & Hfc).
  pose proof (upper_bound_app from ranges) as Happ.
  destruct (upper_bound from ranges) as [before rest]. simpl in *.
  fold (cursor_at from before). set (c := cursor_at from before) in *. clearbody c.
  destruct (Z.leb_spec limit c).
  { intros x Hx. apply Hm; [lia|]. left. lia. }
  set (next := match rest with [] => limit | (first, _) :: _ => Z.min limit first end).
  assert (c < next /\ next <= limit /\ (forall x, c <= x < next -> ~ mem rest x) /\
          (next = limit \/ (mem rest next /\ next ∈ rest.*1))) as (? & ? & Hn & Hl).
  { unfold next. destruct rest as [|[f l] rest].
    - split_and!; [lia|lia|intros x _ []%mem_nil|by left].
    - apply Forall_cons in Hfc as [Hcf _]. apply wf_cons in Hw as (Hne & _ & Hla).
      unfold nonempty, apart in *. simpl in *. split_and!; [lia|lia| |].
      + intros x Hx Hmem. apply (mem_above f) in Hmem; [lia|].
        constructor; [simpl; lia|]. eapply Forall_impl; [exact Hla|]. simpl. lia.
      + destruct (Z.le_gt_cases limit f); [left; lia|right].
        rewrite Z.min_r by lia. split; [|apply list_elem_of_here].
        apply mem_cons. left. unfold inside. simpl. lia. }
  clearbody next. split_and!; try lia.
  - intros x Hx. apply Hm; [lia|]. left. lia.
  - intros x Hx [?|?]%Hm; [lia| |lia]. by apply (Hn x).
  - destruct Hl as [?|[Hl Hk]]; [by left|]. right. split; [apply Hm; [lia|by right]|].
    rewrite <- Happ, fmap_app, elem_of_app. by right.
Qed.

(** [covered] counts bytes. *)

Definition overlap (b e : Z) (r : Range) : Z := Z.max 0 (Z.min e r.2 - Z.max b r.1).
Definition overlaps (b e : Z) (ranges : t) : Z :=
  foldr (fun r sum => overlap b e r + sum) 0 ranges.

Lemma overlaps_app b e l k : overlaps b e (l ++ k) = overlaps b e l + overlaps b e k.
Proof. induction l as [|r l IH]; simpl; [done|]. unfold overlaps in *. rewrite IH. lia. Qed.

Lemma overlaps_zero b e ranges :
  Forall (fun r => r.2 <= b \/ e <= r.1) ranges -> overlaps b e ranges = 0.
Proof.
  induction 1 as [|r ranges Hr _ IH]; simpl; [done|].
  unfold overlaps, overlap in *. lia.
Qed.

Lemma covered_loop_overlaps b e sum from :
  wf from -> covered_loop b e sum from = sum + overlaps b e from.
Proof.
  revert sum. induction from as [|[f l] from IH]; intros sum; simpl; [lia|].
  intros Hwf. pose proof Hwf as (Hne & Hw & Hla)%wf_cons. destruct (Z.ltb_spec f e).
  - rewrite IH by done. unfold overlaps, overlap. simpl. lia.
  - change (sum = sum + overlaps b e ((f, l) :: from)). rewrite overlaps_zero; [lia|].
    unfold nonempty, apart in *. simpl in *. constructor; [simpl; lia|].
    eapply Forall_impl; [exact Hla|]. simpl. lia.
Qed.

Lemma count_overlaps b e ranges :
  wf ranges -> b <= e -> count_bytes (mem ranges) b e = overlaps b e ranges.
Proof.
  intros Hwf Hle. induction ranges as [|r ranges IH]; simpl.
  - rewrite (count_bytes_ext _ (fun x => inside x (0, 0)))
      by (intros; rewrite mem_nil; unfold inside; simpl; lia).
    rewrite count_bytes_inside by done. simpl. lia.
  - apply wf_cons in Hwf as (Hne & Hwf & Hla).
    rewrite (count_bytes_disjoint _ (fun x => inside x r) (mem ranges)).
    + rewrite count_bytes_inside, IH by done. done.
    + intros x. apply mem_cons.
    + intros x Hx Hm. unfold inside, apart in *. apply (mem_above r.2) in Hm; [lia|].
      eapply Forall_impl; [exact Hla|]. simpl. lia.
Qed.

Lemma covered_count b e ranges :
  wf ranges -> b <= e -> covered b e ranges = count_bytes (mem ranges) b e.
Proof.
  intros Hwf Hle. rewrite count_overlaps by done. unfold covered.
  pose proof (upper_bound_split b _ Hwf) as Hs.
  destruct (upper_bound b ranges) as [before from]. simpl in Hs.
  destruct Hs as [from Hf Hfb|init f l from Hi Hfl Hf Hfb Hil Hfk]; unfold step_back; simpl.
  - by rewrite covered_loop_overlaps.
  - rewrite unsnoc_snoc. simpl. apply wf_app in Hwf as (_ & Hw & _).
    change (covered_loop b e 0 ((f, l) :: from) = overlaps b e (init ++ (f, l) :: from)).
    rewrite covered_loop_overlaps, overlaps_app, (overlaps_zero _ _ init) by
      (done || (eapply Forall_impl; [exact Hil|]; simpl; lia)).
    lia.
Qed.

Lemma total_foldl sum ranges :
  foldl (fun sum '(begin, end_) => sum + (end_ - begin)) sum ranges = sum + total ranges.
Proof.
  unfold total. revert sum. induction ranges as [|[b e] ranges IH]; intros sum; simpl; [lia|].
  rewrite (IH (sum + _)), (IH (0 + _)). lia.
Qed.

Lemma total_cons b e ranges : total ((b, e) :: ranges) = (e - b) + total ranges.
Proof. unfold total at 1. simpl. rewrite total_foldl. lia. Qed.

Definition bounded (lo hi : Z) (ranges : t) : Prop :=
  Forall (fun r => lo <= r.1 /\ r.2 <= hi) ranges.

Lemma total_overlaps lo hi ranges :
  wf ranges -> bounded lo hi ranges -> total ranges = overlaps lo hi ranges.
Proof.
  unfold bounded. induction ranges as [|[b e] ranges IH]; [done|].
  intros (Hne & Hwf & _)%wf_cons [Hb Hall]%Forall_cons. rewrite total_cons, IH by done.
  unfold nonempty, overlaps, overlap in *. simpl in *. lia.
Qed.

(** ** The representation is canonical *)

(** The bytes of a well-formed set, seen from its first range. *)
Lemma mem_wf_cons b e ranges x :
  wf ((b, e) :: ranges) ->
  b < e /\ (mem ((b, e) :: ranges) x <-> b <= x < e \/ mem ranges x) /\
  (mem ranges x -> e < x).
Proof.
  intros (Hne & _ & Hla)%wf_cons. split_and!; [done|apply mem_cons|].
  intros Hx. apply (mem_above (e + 1)) in Hx; [lia|]. eapply Forall_impl; [exact Hla|].
  unfold apart. simpl. lia.
Qed.

Section inclusion.
Context (b e b' e' : Z) (r r' : t) (Hw : wf ((b, e) :: r)) (Hw' : wf ((b', e') :: r'))
  (Hincl : forall x, mem ((b, e) :: r) x -> mem ((b', e') :: r') x).

Lemma incl_begin : b' <= b.
Proof using All.
  destruct (mem_wf_cons _ _ _ b Hw) as (? & Hm & _).
  destruct (mem_wf_cons _ _ _ b Hw') as (? & Hm' & Ht').
  specialize (Hincl b). rewrite Hm, Hm' in Hincl.
  destruct Hincl as [?|?%Ht']; [left|..]; lia.
Qed.

Lemma incl_end : b = b' -> e <= e'.
Proof using All.
  intros ->. apply Z.le_ngt. intros Hlt.
  destruct (mem_wf_cons _ _ _ e' Hw) as (? & Hm & _).
  destruct (mem_wf_cons _ _ _ e' Hw') as (? & Hm' & Ht').
  specialize (Hincl e'). rewrite Hm, Hm' in Hincl.
  destruct Hincl as [?|?%Ht']; [left|..]; lia.
Qed.

Lemma incl_tail x : b = b' -> e = e' -> mem r x -> mem r' x.
Proof using All.
  intros -> -> Hx.
  destruct (mem_wf_cons _ _ _ x Hw) as (? & Hm & Ht).
  destruct (mem_wf_cons _ _ _ x Hw') as (? & Hm' & _).
  specialize (Ht Hx). specialize (Hincl x). rewrite Hm, Hm' in Hincl.
  destruct Hincl; [by right|lia|done].
Qed.
End inclusion.

(** ** The abstract specification: a set of bytes *)

Inductive op := Add (b e : Z) | Remove (b e : Z) | Clear.

Definition run_op (ranges : t) (o : op) : t :=
  match o with
  | Add b e => add b e ranges
  | Remove b e => remove b e ranges
  | Clear => empty
  end.

Definition spec_op (S : Z -> Prop) (o : op) : Z -> Prop :=
  match o with
  | Add b e => fun x => S x \/ b <= x < e
  | Remove b e => fun x => S x /\ ~ b <= x < e
  | Clear => fun _ => False
  end.

Lemma run_op_refines ranges S o :
  wf ranges -> (forall x, mem ranges x <-> S x) ->
  wf (run_op ranges o) /\ forall x, mem (run_op ranges o) x <-> spec_op S o x.
Proof.
  intros Hwf HS. destruct o as [b e|b e|]; simpl.
  - destruct (add_spec b e ranges Hwf) as [? Hm]. split; [done|]. intros x. by rewrite Hm, HS.
  - destruct (remove_spec b e ranges Hwf) as [? Hm]. split; [done|]. intros x. by rewrite Hm, HS.
  - split; [apply wf_nil|]. intros x. apply mem_nil.
Qed.
End RangeSet.

#[export] Instance RangeSet_ByteRanges : ByteRanges RangeSet.t := {
  br_empty := RangeSet.empty;
  br_add := RangeSet.add;
  br_remove := RangeSet.remove;
  br_contains := RangeSet.contains;
  br_total := RangeSet.total;
  br_covered := RangeSet.covered;
  br_firstGap := RangeSet.firstGap;
  br_ranges := fun ranges => ranges;
  covers := RangeSet.mem;
  br_ok := RangeSet.wf;
}.

#[export] Instance RangeSet_laws : ByteRangesLaws RangeSet.t.
Proof.
  refine {| covers_dec := RangeSet.mem_dec |}; simpl.
  - apply RangeSet.wf_nil.
  - intros. by apply RangeSet.add_spec.
  - intros. by apply RangeSet.remove_spec.
  - intros x Hx. by apply RangeSet.mem_nil in Hx.
  - intros. by apply RangeSet.add_spec.
  - intros. by apply RangeSet.remove_spec.
  - intros. by apply RangeSet.contains_iff.
  - intros from limit s Hwf Hg. pose proof (RangeSet.firstGap_spec from limit s Hwf).
    by rewrite Hg in *.
  - intros from limit s [b e] Hwf Hg. pose proof (RangeSet.firstGap_spec from limit s Hwf).
    by rewrite Hg in *.
  - intros. by apply RangeSet.covered_count.
  - done.
Defined.

(** ** Theorems *)

Module RangeSetTheorems.
Import RangeSet.

(** C5. Whatever sequence of [add], [remove] and [clear] a client calls on a
    fresh set, the map keeps its invariant (non-empty, disjoint, coalesced
    ranges in order) and holds exactly the bytes that a mathematical set would
    hold after the same calls; [contains] and [covered] answer about that set. *)
Theorem range_set_refines_byte_set (ops : list op) :
  let ranges := foldl run_op empty ops in
  let bytes := foldl spec_op (fun _ => False) ops in
  wf ranges /\
  (forall x, mem ranges x <-> bytes x) /\
  (forall b e, contains b e ranges = true <-> forall x, b <= x < e -> bytes x) /\
  (forall b e, b <= e -> covered b e ranges = count_bytes (mem ranges) b e).
Proof.
  cut (forall ranges S, wf ranges -> (forall x, mem ranges x <-> S x) ->
    wf (foldl run_op ranges ops) /\
    forall x, mem (foldl run_op ranges ops) x <-> foldl spec_op S ops x).
  { intros Hcut. destruct (Hcut empty (fun _ => False)) as [Hwf Hm]; [apply wf_nil|apply mem_nil|].
    simpl. split_and!; try done.
    - intros b e. rewrite contains_iff by done. by setoid_rewrite Hm.
    - intros b e Hle. by apply covered_count. }
  induction ops as [|o ops IH]; simpl; [done|]. intros ranges S Hwf HS.
  destruct (run_op_refines ranges S o Hwf HS). by apply IH.
Qed.

(** The representation is canonical: two well-formed sets with the same
    bytes are the same map, so the order in which ranges arrived leaves no trace. *)
Lemma range_set_canonical (r1 r2 : t) :
  wf r1 -> wf r2 -> (forall x, mem r1 x <-> mem r2 x) -> r1 = r2.
Proof.
  revert r2. induction r1 as [|[b1 e1] r1 IH]; intros [|[b2 e2] r2] H1 H2 Heq.
  - done.
  - destruct (mem_wf_cons _ _ _ b2 H2) as (? & Hm & _).
    assert (mem [] b2) as []%mem_nil by (apply Heq, Hm; left; lia).
  - destruct (mem_wf_cons _ _ _ b1 H1) as (? & Hm & _).
    assert (mem [] b1) as []%mem_nil by (apply Heq, Hm; left; lia).
  - assert (forall x, mem ((b1, e1) :: r1) x -> mem ((b2, e2) :: r2) x) as H12 by (intros; by apply Heq).
    assert (forall x, mem ((b2, e2) :: r2) x -> mem ((b1, e1) :: r1) x) as H21 by (intros; by apply Heq).
    assert (b1 = b2) as Hb.
    { apply Z.le_antisymm; eauto using incl_begin. }
    assert (e1 = e2) as He.
    { apply Z.le_antisymm; eauto using incl_end. }
    rewrite Hb, He in *. f_equal.
    pose proof H1 as (_ & Hw1 & _)%wf_cons. pose proof H2 as (_ & Hw2 & _)%wf_cons.
    apply IH; [done..|]. intros x. split; eauto using incl_tail.
Qed.

(** [firstGap] finds the first missing bytes of [\[from, limit)] and
    answers nothing exactly when none is missing: everything before the gap is
    there, nothing inside it is, and it extends as far as it can. *)
Lemma firstGap_is_first_missing from limit ranges :
  wf ranges ->
  (firstGap from limit ranges = None <-> forall x, from <= x < limit -> mem ranges x) /\
  (forall b e, firstGap from limit ranges = Some (b, e) ->
     from <= b < e /\ e <= limit /\
     (forall x, from <= x < b -> mem ranges x) /\
     (forall x, b <= x < e -> ~ mem ranges x) /\
     (e = limit \/ mem ranges e)).
Proof.
  intros Hwf. pose proof (firstGap_spec from limit ranges Hwf) as Hg.
  destruct (firstGap from limit ranges) as [[b e]|].
  - destruct Hg as (? & ? & ? & ? & Hn & Hl). split.
    2: { intros ? ? [= <- <-]. split_and!; try done. destruct Hl as [?|[? _]]; auto. }
    split; [done|]. intros Hall. exfalso. apply (Hn b); [lia|]. apply Hall. lia.
  - by split.
Qed.

(** [total] is the number of bytes in the set, and when the ranges lie in
    a file of at most [2^63 - 1] bytes no partial sum leaves [int64_t]. *)
Lemma total_counts_bytes (length_ : Z) ranges :
  wf ranges -> bounded 0 length_ ranges -> 0 <= length_ <= int64_max ->
  total ranges = count_bytes (mem ranges) 0 length_ /\
  (forall done from, ranges = done ++ from -> int64 (total done)).
Proof.
  intros Hwf Hb Hlen. split.
  - rewrite count_overlaps by (done || lia). by apply total_overlaps.
  - intros done from ->. apply Forall_app in Hb as [Hb _]. apply wf_app in Hwf as (Hw & _ & _).
    rewrite (total_overlaps 0 length_) by done. rewrite <- count_overlaps by (done || lia).
    unfold count_bytes, int64, int64_min.
    pose proof (length_filter (mem done) (seqZ 0 (length_ - 0))) as Hf.
    rewrite length_seqZ in Hf. lia.
Qed.

(** *** Concrete instances: three blocks that arrived out of order, of which a
    piece was taken back. *)

Definition sample : t := foldl run_op empty [Add 20 30; Add 0 10; Add 10 15; Remove 4 6].

Lemma sample_wf : wf sample.
Proof. vm_compute. split; repeat constructor; vm_compute; reflexivity. Qed.

Lemma range_set_canonical_witness :
  add 0 10 (add 10 15 empty) = add 10 15 (add 0 10 empty).
Proof.
  apply range_set_canonical; [vm_compute; split; repeat constructor; vm_compute; reflexivity..|].
  intros x. vm_compute. done.
Defined.

Lemma firstGap_is_first_missing_witness :
  firstGap 0 40 sample = Some (4, 6) /\ ~ mem sample 5 /\ mem sample 6.
Proof.
  destruct (proj2 (firstGap_is_first_missing 0 40 sample sample_wf) 4 6)
    as (_ & _ & _ & Hn & Hl); [reflexivity|].
  split_and!; [reflexivity|apply Hn; lia|]. destruct Hl as [?|?]; [lia|done].
Defined.

Lemma total_counts_bytes_witness :
  total sample = 23 /\ count_bytes (mem sample) 0 40 = 23.
Proof.
  destruct (total_counts_bytes 40 sample sample_wf) as [Ht _].
  - vm_compute. repeat constructor; discriminate.
  - vm_compute. split; discriminate.
  - split; [reflexivity|]. rewrite <- Ht. reflexivity.
Defined.
End RangeSetTheorems.
