(* ===== verification/SegmentPlanner.v ===== *)
(** * The segment planner: [src/http/SegmentPlanner.h], [src/http/SegmentPlanner.cc]

    Decides which byte range each connection of a download requests. Its state
    is the set of received bytes, the workers by id and two measurements; it
    answers the task with assignments, extensions and cancellations.

    The received set is any implementation of [ByteRanges]: the definitions
    are the code over that interface and the theorems use its laws only.
    [None] as the result of an operation that reads [workers_.at(id)] is the
    exception of [std::map::at]. *)

From S2P Require Import Prelude StdMap Double Ranges.

Module SegmentPlanner.

(** ** Constants and data *)

Definition unbounded : Z := int64_max.
Definition alignment : Z := 4096.
Definition raceSeconds : double := of_int 2.
Definition measureSeconds : double := of_int 1.
Definition minRaceSeconds : double := literal 1 2.
Definition minSplitFloor : Z := Z.shiftl 64 10.
Definition maxCopies : Z := 3.

Record Worker := mkWorker {
  position : Z;     (* next byte this worker will receive *)
  wend : Z;         (* assigned end, exclusive; may shrink *)
  requestEnd : Z;   (* end the request asked for, exclusive *)
  receiving : bool; (* has received payload bytes *)
  speed : double;   (* bytes per second, smoothed *)
  age : double;     (* seconds of speed samples since assignment *)
}.

(** [Worker{begin, end, requestEnd, false, 0}] *)
Definition newWorker (begin end_ request : Z) : Worker :=
  mkWorker begin end_ request false dzero dzero.

Definition set_end (w : Worker) (e : Z) : Worker :=
  mkWorker (position w) e (requestEnd w) (receiving w) (speed w) (age w).

Record planner (R : Type) := mkPlanner {
  minSplit : Z;
  length_ : Z;
  received : R;
  workers : stdmap Z Worker;
  peakSpeed : double;
  startup : double;
}.
Arguments mkPlanner {R}.
Arguments minSplit {R}.
Arguments length_ {R}.
Arguments received {R}.
Arguments workers {R}.
Arguments peakSpeed {R}.
Arguments startup {R}.

Definition expectedSpeed (worker : Worker) (typical : double) : double :=
  let measured := receiving worker && (measureSeconds <=? age worker)%double in
  if measured && (dzero <? speed worker)%double then speed worker else typical.

Section planner.
Context {R : Type} `{ByteRanges R} (undefined : double -> Z).
Implicit Types (p : planner R) (id : Z).

Definition with_workers p (ws : stdmap Z Worker) : planner R :=
  mkPlanner (minSplit p) (length_ p) (received p) ws (peakSpeed p) (startup p).
Definition with_received p (s : R) : planner R :=
  mkPlanner (minSplit p) (length_ p) s (workers p) (peakSpeed p) (startup p).

(** [explicit SegmentPlanner(int64_t minSplit)] *)
Definition create (minSplit_ : Z) : planner R :=
  mkPlanner minSplit_ (-1) br_empty [] dzero dzero.

(** ** Operations *)

Definition setLength (len : Z) p : planner R :=
  mkPlanner (minSplit p) len (received p)
    (map_values
       (fun _ w => mkWorker (position w) (Z.min (wend w) len) (Z.min (requestEnd w) len)
                     (receiving w) (speed w) (age w))
       (workers p))
    (peakSpeed p) (startup p).

Definition restore (ranges : list Range) p : planner R :=
  with_received p (foldl (fun s '(b, e) => br_add b e s) (received p) ranges).

Definition reset p : planner R :=
  mkPlanner (minSplit p) (-1) br_empty [] dzero (startup p).

Definition place (id begin requestEnd_ : Z) p : planner R :=
  let end_ := if 0 <=? length_ p then Z.min requestEnd_ (length_ p) else requestEnd_ in
  with_workers p (put id (newWorker begin end_ requestEnd_) (workers p)).

Definition worker id p : option Worker := find id (workers p).

Definition complete p : bool :=
  (0 <=? length_ p) && br_contains 0 (length_ p) (received p).

Definition release id p : planner R := with_workers p (erase id (workers p)).

Definition forget (begin end_ : Z) p : planner R :=
  with_received p (br_remove begin end_ (received p)).

Definition noteSpeed (bytesPerSecond : double) p : planner R :=
  mkPlanner (minSplit p) (length_ p) (received p) (workers p)
    (dmax (peakSpeed p) bytesPerSecond) (startup p).

Definition noteStartup (seconds : double) p : planner R :=
  mkPlanner (minSplit p) (length_ p) (received p) (workers p) (peakSpeed p)
    (if (dzero <? startup p)%double
     then (startup p * literal 7 10 + seconds * literal 3 10)%double
     else seconds).

Definition typicalSpeed (except : Z) p : double :=
  let '(sum, count) :=
    foldl (fun '(sum, count) '(id, worker) =>
             if negb (id =? except) && receiving worker && (dzero <? speed worker)%double
             then ((sum + speed worker)%double, count + 1)
             else (sum, count))
      (dzero, 0) (workers p) in
  if count =? 0 then dzero else (sum / of_int count)%double.

Definition minSplitFor (speed_ : double) p : Z :=
  if (speed_ <=? dzero)%double || (startup p <=? dzero)%double then minSplit p
  else
    let worth := to_int64 undefined (of_int 2 * speed_ * startup p)%double in
    clamp worth (Z.min minSplitFloor (minSplit p)) (minSplit p).

(** The received bytes and the bytes the workers hold. *)
Definition ownedBytes p : R :=
  foldl (fun owned '(_, worker) =>
           br_add (position worker) (Z.min (wend worker) (length_ p)) owned)
    (received p) (workers p).

(** The loop over the gaps. A gap that does not end at [limit] ends where a
    range of [owned] begins, so [length (br_ranges owned) + 2] rounds reach
    the end. *)
Fixpoint gap_loop (fuel : nat) (owned : R) (limit from : Z) (best : option Range)
    : option Range :=
  match fuel with
  | O => best
  | S fuel =>
      match br_firstGap from limit owned with
      | None => best
      | Some gap =>
          let best :=
            match best with
            | None => Some gap
            | Some b => if b.2 - b.1 <? gap.2 - gap.1 then Some gap else best
            end in
          gap_loop fuel owned limit gap.2 best
      end
  end.

Definition largestGap p : option Range :=
  if length_ p <? 0 then None
  else
    let owned := ownedBytes p in
    gap_loop (length (br_ranges owned) + 2) owned (length_ p) 0 None.

(** The worker [split] cuts: the one with the longest expected time among
    those with room for two halves. *)
Definition splitVictim p : option (Z * Worker) :=
  let typical := typicalSpeed (-1) p in
  let '(victim, _) :=
    foldl (fun '(victim, longest) '(other, worker) =>
             let remaining := wend worker - position worker in
             let speed_ := expectedSpeed worker typical in
             if (wend worker =? unbounded) || (remaining <? 2 * minSplitFor speed_ p)
             then (victim, longest)
             else
               let time :=
                 if (dzero <? speed_)%double then (of_int remaining / speed_)%double
                 else (of_int remaining * literal 1 1000)%double in
               match victim with
               | None => (Some (other, worker), time)
               | Some _ =>
                   if (longest <? time)%double then (Some (other, worker), time)
                   else (victim, longest)
               end)
      (None, dzero) (workers p) in
  victim.

(** Where [split] cuts the victim's range. *)
Definition splitCut p (target : Worker) : Z :=
  let typical := typicalSpeed (-1) p in
  let remaining := wend target - position target in
  let own := expectedSpeed target typical in
  let fresh := if (dzero <? typical)%double then typical else own in
  let share :=
    if (dzero <? own)%double && (dzero <? fresh)%double then (own / (own + fresh))%double
    else literal 1 2 in
  let least := minSplitFor own p in
  let cut := position target + to_int64 undefined (of_int remaining * share)%double in
  let cut := clamp cut (position target + least) (wend target - least) in
  if position target + least <? cut - Z.rem cut alignment
  then cut - Z.rem cut alignment
  else cut.

Definition split id p : option (Range * planner R) :=
  match splitVictim p with
  | None => None
  | Some (victim, target) =>
      let cut := splitCut p target in
      let range := (cut, wend target) in
      let ws := put victim (set_end target cut) (workers p) in
      Some (range, with_workers p (put id (newWorker range.1 range.2 range.2) ws))
  end.

(** The copies of one range, by the end they share. *)
Record Group := mkGroup {
  leader : Z;
  time : double;
  copies : Z;
  silent : Z;
  young : bool;
}.
Definition newGroup : Group := mkGroup (-1) dzero 0 0 false.

Definition silentAfter p : double :=
  if (dzero <? startup p)%double
  then dclamp (of_int 3 * startup p)%double minRaceSeconds raceSeconds
  else raceSeconds.

Definition addCopy p (groups : stdmap Z Group) (entry : Z * Worker) : stdmap Z Group :=
  let '(other, worker) := entry in
  let remaining := wend worker - position worker in
  if (remaining <=? 0) || (wend worker =? unbounded) then groups
  else
    let group := default newGroup (find (wend worker) groups) in
    let quiet := negb (receiving worker) && (silentAfter p <=? age worker)%double in
    let young_ :=
      young group ||
      (age worker <? (if receiving worker then raceSeconds else silentAfter p))%double in
    let speed_ := if receiving worker then speed worker else dzero in
    let time_ := if (dzero <? speed_)%double then (of_int remaining / speed_)%double
                 else of_int (10 ^ 9) in
    let leads := (leader group <? 0) || (time_ <? time group)%double in
    put (wend worker)
      (mkGroup (if leads then other else leader group)
         (if leads then time_ else time group)
         (if quiet then copies group else copies group + 1)
         (if quiet then silent group + 1 else silent group)
         young_)
      groups.

Definition raceGroups p : stdmap Z Group := foldl (addCopy p) [] (workers p).

(** Whether a group is worth another copy, and its leader. [longest] is the
    time of the slowest group so far. [None] is the exception of [at]. *)
Definition raceCandidate p (longest : double) (group : Group)
    : option (option (Z * Worker)) :=
  if young group || (maxCopies <=? copies group) || (2 * maxCopies <=? silent group) ||
     (time group <=? longest)%double
  then Some None
  else
    match find (leader group) (workers p) with
    | None => None
    | Some lead =>
        let speed_ := if receiving lead then speed lead else dzero in
        let reference := dmax (typicalSpeed (leader group) p) (peakSpeed p) in
        let remaining := of_int (wend lead - position lead) in
        let copy :=
          ((if (dzero <? startup p)%double then startup p else raceSeconds) +
           (if (dzero <? reference)%double then remaining / reference else dzero))%double in
        if (time group <=? dmax minRaceSeconds (literal 3 2 * copy))%double then Some None
        else if (reference <=? dzero)%double || (speed_ <? reference / of_int 2)%double
        then Some (Some (leader group, lead))
        else Some None
    end.

Definition raceSlowest p : option (option (Z * Worker)) :=
  fst <$>
  foldl (fun acc '(_, group) =>
           '(slowest, longest) ← acc;
           candidate ← raceCandidate p longest group;
           Some (match candidate with
                 | Some c => (Some c, time group)
                 | None => (slowest, longest)
                 end))
    (Some (None, dzero)) (raceGroups p).

Definition race id p : option (option Range * planner R) :=
  slowest ← raceSlowest p;
  Some
    match slowest with
    | None => (None, p)
    | Some (_, lead) =>
        let range := (position lead, wend lead) in
        (Some range,
         with_workers p (put id (newWorker range.1 range.2 range.2) (workers p)))
    end.

Definition assign id p : option (option Range * planner R) :=
  if length_ p <? 0 then Some (None, p)
  else
    match largestGap p with
    | Some gap =>
        Some (Some gap,
              with_workers p (put id (newWorker gap.1 gap.2 gap.2) (workers p)))
    | None =>
        match split id p with
        | Some (range, p') => Some (Some range, p')
        | None => race id p
        end
    end.

Definition receive id (bytes : Z) p : option (Z * planner R) :=
  w ← find id (workers p);
  let usable := clamp (wend w - position w) 0 bytes in
  let w' := mkWorker (position w + usable) (wend w) (requestEnd w) true (speed w) (age w) in
  Some (usable,
        mkPlanner (minSplit p) (length_ p)
          (br_add (position w) (position w + usable) (received p))
          (put id w' (workers p)) (peakSpeed p) (startup p)).

Definition updateSpeed id (bytesPerSecond seconds : double) p : planner R :=
  match find id (workers p) with
  | None => p
  | Some w =>
      let speed_ :=
        if (dzero <? speed w)%double
        then (speed w * literal 6 10 + bytesPerSecond * literal 4 10)%double
        else bytesPerSecond in
      let w' := mkWorker (position w) (wend w) (requestEnd w) (receiving w) speed_
                  (age w + seconds)%double in
      mkPlanner (minSplit p) (length_ p) (received p) (put id w' (workers p))
        (dmax (peakSpeed p) speed_) (startup p)
  end.

(** The next worker whose range starts where [w] ends and that has no data. *)
Fixpoint idleNext id (end_ : Z) (ws : stdmap Z Worker) : option (Z * Worker) :=
  match ws with
  | [] => None
  | (other, next) :: ws' =>
      if negb (other =? id) && (position next =? end_) && negb (receiving next)
      then Some (other, next)
      else idleNext id end_ ws'
  end.

(** The result is what [extend] returns, the cancelled id and the new state. *)
Definition extend id p : option (bool * option Z * planner R) :=
  w ← find id (workers p);
  if (requestEnd w <=? wend w) || ((0 <=? length_ p) && (length_ p <=? wend w))
  then Some (false, None, p)
  else
    match idleNext id (wend w) (workers p) with
    | Some (other, next) =>
        let w' := set_end w (Z.min (requestEnd w) (wend next)) in
        Some (true, Some other, with_workers p (erase other (put id w' (workers p))))
    | None =>
        let owned :=
          foldl (fun owned '(other, next) =>
                   if other =? id then owned
                   else br_add (position next) (wend next) owned)
            (received p) (workers p) in
        let limit := if 0 <=? length_ p then Z.min (requestEnd w) (length_ p)
                     else requestEnd w in
        Some
          match br_firstGap (wend w) limit owned with
          | Some gap =>
              if gap.1 =? wend w
              then (true, None, with_workers p (put id (set_end w gap.2) (workers p)))
              else (false, None, p)
          | None => (false, None, p)
          end
    end.

Definition redundant p : list Z :=
  omap (fun '(id, w) =>
          if (position w <? wend w) && br_contains (position w) (wend w) (received p)
          then Some id else None)
    (workers p).
End planner.

(** ** Lemmas *)

Section facts.
Context {R : Type} {RO : ByteRanges R} {RL : ByteRangesLaws R} (undefined : double -> Z).
Implicit Types (p : planner R) (id : Z).

(** A loop that adds a range per element adds the bytes of these ranges. *)
Lemma foldl_add_covers {A} (step : R -> A -> R) (f : A -> option Range) (l : list A) (s : R) :
  (forall s a, step s a = match f a with Some r => br_add r.1 r.2 s | None => s end) ->
  br_ok s ->
  br_ok (foldl step s l) /\
  forall x, covers (foldl step s l) x <->
            covers s x \/ exists a r, a ∈ l /\ f a = Some r /\ inside x r.
Proof.
  intros Hstep. revert s. induction l as [|a l IH]; intros s Hok; simpl.
  - split; [done|]. intros x. split; [by left|]. intros [?|(a & ? & Ha & _)]; [done|].
    by apply elem_of_nil in Ha.
  - assert (br_ok (step s a)) as Hok'.
    { rewrite Hstep. destruct (f a); auto using ok_add. }
    assert (forall x, covers (step s a) x <-> covers s x \/ exists r, f a = Some r /\ inside x r)
      as Ha.
    { intros x. rewrite Hstep. destruct (f a) as [r|].
      - rewrite covers_add by done. unfold inside. naive_solver.
      - naive_solver. }
    destruct (IH _ Hok') as [Hfin Hm]. split; [done|]. intros x. rewrite Hm, Ha.
    setoid_rewrite elem_of_cons. naive_solver.
Qed.

(** A byte some worker still has to fetch. *)
Definition held p (x : Z) : Prop :=
  exists id w, (id, w) ∈ workers p /\ position w <= x < wend w.

Lemma ownedBytes_covers p :
  br_ok (received p) ->
  br_ok (ownedBytes p) /\
  forall x, x < length_ p -> covers (ownedBytes p) x <-> covers (received p) x \/ held p x.
Proof.
  intros Hok. unfold ownedBytes.
  destruct (foldl_add_covers
    (fun owned '(_, worker) => br_add (position worker) (Z.min (wend worker) (length_ p)) owned)
    (fun '((_, w) : Z * Worker) => Some (position w, Z.min (wend w) (length_ p)))
    (workers p) (received p)) as [Hok' Hm]; [by intros s [id w]|done|].
  split; [done|]. intros x Hx. rewrite Hm. unfold held, inside.
  split; (intros [?|Hex]; [by left|right]).
  - destruct Hex as ([id w] & r & Hin & [= <-] & Hr). simpl in Hr. exists id, w. split; [done|lia].
  - destruct Hex as (id & w & Hin & Hr). exists (id, w), (position w, Z.min (wend w) (length_ p)).
    split_and!; [done..| |]; simpl; lia.
Qed.

(** *** The largest gap *)

(** A stretch of the file nobody has and nobody fetches. *)
Definition gap_of (owned : R) (limit : Z) (g : Range) : Prop :=
  0 <= g.1 /\ g.1 < g.2 /\ g.2 <= limit /\ forall x, g.1 <= x < g.2 -> ~ covers owned x.

(** [best] is a largest gap among those that end at or before [from]. *)
Definition best_until (owned : R) (limit from : Z) (best : option Range) : Prop :=
  (forall g, best = Some g -> gap_of owned limit g) /\
  (forall g, gap_of owned limit g -> g.2 <= from ->
     exists b, best = Some b /\ g.2 - g.1 <= b.2 - b.1).

Definition boundary (owned : R) (limit from : Z) : Prop :=
  from = 0 \/ limit <= from \/ covers owned from.

(** A gap does not straddle a boundary. *)
Lemma gap_side owned limit from g :
  boundary owned limit from -> gap_of owned limit g -> g.2 <= from \/ from <= g.1.
Proof.
  intros Hb (H0 & Hlt & Hle & Hn). destruct Hb as [->|[?|Hc]]; [lia..|].
  destruct (decide (g.1 <= from < g.2)) as [Hin|]; [|lia]. by destruct (Hn _ Hin).
Qed.

Lemma best_until_step owned limit from g best :
  br_ok owned -> 0 <= from -> boundary owned limit from ->
  br_firstGap from limit owned = Some g -> best_until owned limit from best ->
  best_until owned limit g.2
    match best with
    | None => Some g
    | Some b => if b.2 - b.1 <? g.2 - g.1 then Some g else best
    end.
Proof.
  intros Hok H0 Hb Hg [Hsome Hmax].
  destruct (firstGap_some _ _ _ _ Hok Hg) as (Hf & Hlt & Hle & Hbefore & Hin & _).
  assert (gap_of owned limit g) as Hgap by (split_and!; [lia|done..]).
  split.
  - intros g' Hg'. destruct best as [b|]; [zcase|]; simplify_eq; auto.
  - intros g' Hg' Hend. destruct (gap_side _ _ _ _ Hb Hg') as [Hl|Hr].
    + destruct (Hmax g' Hg' Hl) as (b & -> & Hsize).
      destruct (Z.ltb_spec (b.2 - b.1) (g.2 - g.1)); eexists; (split; [done|lia]).
    + assert (g.1 <= g'.1).
      { apply Z.le_ngt. intros Hlt'. destruct Hg' as (_ & ? & _ & Hn').
        apply (Hn' g'.1); [lia|]. apply Hbefore. lia. }
      destruct best as [b|]; [|eexists; split; [done|lia]].
      destruct (Z.ltb_spec (b.2 - b.1) (g.2 - g.1)); eexists; (split; [done|lia]).
Qed.

Lemma gap_loop_spec fuel owned limit from best :
  br_ok owned -> 0 <= from -> boundary owned limit from ->
  (begins_after owned from + 2 <= fuel)%nat \/ (limit <= from /\ (1 <= fuel)%nat) ->
  best_until owned limit from best ->
  best_until owned limit limit (gap_loop fuel owned limit from best).
Proof.
  intros Hok. revert from best. induction fuel as [|fuel IH]; intros from best H0 Hb Hfuel Hbest.
  { lia. }
  simpl. destruct (br_firstGap from limit owned) as [g|] eqn:Hg.
  - pose proof (best_until_step _ _ _ _ _ Hok H0 Hb Hg Hbest) as Hnext.
    destruct (firstGap_some _ _ _ _ Hok Hg) as (Hf & Hlt & Hle & _ & _ & Hend).
    apply IH; [lia| | |done].
    + unfold boundary. destruct Hend as [->|[? _]]; auto. right. left. lia.
    + destruct Hend as [->|[_ Hin]]; [right; lia|left].
      pose proof (filter_lt_decreases from g.2 _ ltac:(lia) Hin).
      unfold begins_after in *. lia.
  - destruct Hbest as [Hsome Hmax]. split; [done|]. intros g Hgap _.
    destruct (gap_side _ _ _ _ Hb Hgap) as [|Hr]; [by apply Hmax|].
    destruct Hgap as (_ & Hlt & Hle & Hn). exfalso. apply (Hn g.1); [lia|].
    apply (firstGap_none _ _ _ Hok Hg). lia.
Qed.

Lemma largestGap_spec p :
  br_ok (received p) -> 0 <= length_ p ->
  best_until (ownedBytes p) (length_ p) (length_ p) (largestGap p).
Proof.
  intros Hok Hlen. unfold largestGap. destruct (Z.ltb_spec (length_ p) 0); [lia|].
  apply gap_loop_spec.
  - by apply ownedBytes_covers.
  - lia.
  - by left.
  - left. apply Nat.add_le_mono_r, begins_after_le.
  - split; [done|]. intros g Hg Hend. exfalso. destruct Hg as (? & ? & _). lia.
Qed.

(** Bytes that are neither received nor held are in a gap. *)
Lemma largestGap_none p x :
  br_ok (received p) -> largestGap p = None -> 0 <= x < length_ p ->
  covers (received p) x \/ held p x.
Proof.
  intros Hok Hg Hx. destruct (ownedBytes_covers p Hok) as [Hok' Hm].
  apply Hm; [lia|]. destruct (decide (covers (ownedBytes p) x)) as [|Hn]; [done|].
  destruct (largestGap_spec p Hok) as [_ Hmax]; [lia|]. rewrite Hg in Hmax.
  destruct (Hmax (x, x + 1)) as (b & ? & _); simpl; [|lia|done].
  unfold gap_of. simpl. split_and!; try lia. intros y Hy. by replace y with x by lia.
Qed.

Lemma largestGap_some p g :
  br_ok (received p) -> largestGap p = Some g ->
  0 <= g.1 /\ g.1 < g.2 /\ g.2 <= length_ p /\
  (forall x, g.1 <= x < g.2 -> ~ covers (received p) x /\ ~ held p x) /\
  (forall b e, 0 <= b -> e <= length_ p ->
     (forall x, b <= x < e -> ~ covers (received p) x /\ ~ held p x) -> e - b <= g.2 - g.1).
Proof.
  intros Hok Hg. assert (0 <= length_ p) as Hlen.
  { unfold largestGap in Hg. destruct (Z.ltb_spec (length_ p) 0); done. }
  destruct (ownedBytes_covers p Hok) as [Hok' Hm].
  destruct (largestGap_spec p Hok Hlen) as [Hsome Hmax].
  destruct (Hsome g Hg) as (? & ? & ? & Hn). split_and!; try done.
  - intros x Hx. specialize (Hn x Hx). rewrite Hm in Hn by lia. tauto.
  - intros b e Hb He Hfree. destruct (Z.le_gt_cases e b) as [|Hlt]; [lia|].
    destruct (Hmax (b, e)) as (g' & Hg' & Hsize); simpl in *; [|lia|].
    + unfold gap_of. simpl. split_and!; try lia. intros x Hx. rewrite Hm by lia.
      specialize (Hfree x Hx). tauto.
    + rewrite Hg in Hg'. simplify_eq. lia.
Qed.

(** *** Splitting *)

Lemma minSplitFor_bounds p v :
  Z.min minSplitFloor (minSplit p) <= minSplitFor undefined v p <= minSplit p.
Proof.
  unfold minSplitFor. destruct (_ || _); [lia|]. apply clamp_bounds. lia.
Qed.

(** The least half of a worker's range that is worth a connection. *)
Definition leastHalf p (w : Worker) : Z :=
  minSplitFor undefined (expectedSpeed w (typicalSpeed (-1) p)) p.

Definition splittable p (w : Worker) : Prop :=
  wend w <> unbounded /\ 2 * leastHalf p w <= wend w - position w.

Lemma leastHalf_nonneg p w : 0 <= minSplit p -> 0 <= leastHalf p w.
Proof.
  intros. pose proof (minSplitFor_bounds p (expectedSpeed w (typicalSpeed (-1) p))) as [Hlo _].
  unfold leastHalf. change minSplitFloor with 65536 in Hlo. lia.
Qed.

Lemma splitVictim_spec p :
  match splitVictim undefined p with
  | Some (id, w) => (id, w) ∈ workers p /\ splittable p w
  | None => forall id w, (id, w) ∈ workers p -> ~ splittable p w
  end.
Proof.
  unfold splitVictim. match goal with |- context [foldl ?body _ _] => set (f := body) end.
  pose (I := fun (done : stdmap Z Worker) (acc : option (Z * Worker) * double) =>
    match acc.1 with
    | Some (id, w) => (id, w) ∈ workers p /\ splittable p w
    | None => forall id w, (id, w) ∈ done -> ~ splittable p w
    end).
  assert (I (workers p) (foldl f (None, dzero) (workers p))) as HI.
  { apply foldl_inv; [by intros id w ?%elem_of_nil|].
    intros done [other w] [victim longest] Hin HI. unfold I, f in *. simpl in *.
    fold (leastHalf p w).
    destruct (_ || _) eqn:Hskip; simpl.
    - destruct victim as [[id v]|]; [done|]. intros id v [?|Hv]%elem_of_app; [by eapply HI|].
      apply list_elem_of_singleton in Hv. simplify_eq. unfold splittable. intros [? ?].
      apply orb_prop in Hskip as [Hs|Hs]; zprop; lia.
    - apply orb_false_elim in Hskip as [? ?]. zprop.
      assert (splittable p w) by (split; lia).
      destruct victim as [[id v]|]; [|done]. by destruct (dltb longest _). }
  destruct (foldl f (None, dzero) (workers p)) as [victim longest].
  unfold I in HI. simpl in HI. by destruct victim as [[id w]|].
Qed.

Lemma splitCut_bounds p w :
  0 <= position w -> 0 <= minSplit p -> splittable p w ->
  position w + leastHalf p w <= splitCut undefined p w <= wend w - leastHalf p w.
Proof.
  intros Hpos Hmin [_ Hroom]. unfold splitCut. fold (leastHalf p w).
  pose proof (leastHalf_nonneg p w Hmin).
  set (cut := clamp _ _ _).
  assert (position w + leastHalf p w <= cut <= wend w - leastHalf p w) as Hcut.
  { apply clamp_bounds. lia. }
  clearbody cut. pose proof (Z.rem_bound_pos cut alignment).
  unfold alignment in *. zcase; lia.
Qed.

(** *** Racing *)

(** A copy that still has bytes to fetch in front of [e]. *)
Definition copy_of (e : Z) (entry : Z * Worker) : Prop :=
  wend entry.2 = e /\ position entry.2 < e /\ e <> unbounded.

#[local] Instance copy_of_dec e entry : Decision (copy_of e entry).
Proof. unfold copy_of. apply _. Defined.

Definition count_copies (e : Z) (ws : stdmap Z Worker) : Z :=
  Z.of_nat (length (filter (copy_of e) ws)).

Lemma count_copies_snoc e ws entry :
  count_copies e (ws ++ [entry]) =
  count_copies e ws + (if decide (copy_of e entry) then 1 else 0).
Proof.
  unfold count_copies. rewrite filter_app, length_app, filter_cons, filter_nil.
  case_decide; simpl; lia.
Qed.

(** What [raceGroups] knows of the workers it has visited. *)
Definition groups_ok (done : stdmap Z Worker) (groups : stdmap Z Group) : Prop :=
  sorted groups /\
  forall e,
    match find e groups with
    | None => count_copies e done = 0
    | Some g =>
        copies g + silent g = count_copies e done /\ 0 <= copies g /\ 0 <= silent g /\
        exists w, (leader g, w) ∈ done /\ copy_of e (leader g, w)
    end.

Lemma raceGroups_ok p : groups_ok (workers p) (raceGroups p).
Proof.
  unfold raceGroups. apply foldl_inv; [split; [constructor|done]|].
  intros done [other w] groups _ [Hs Hg]. unfold addCopy.
  destruct (_ || _) eqn:Hskip.
  - split; [done|]. intros e. specialize (Hg e). rewrite count_copies_snoc.
    rewrite decide_False.
    + destruct (find e groups); [|lia]. setoid_rewrite elem_of_app. naive_solver lia.
    + unfold copy_of. simpl. intros (? & ? & ?). apply orb_prop in Hskip as [?|?]; zprop; lia.
  - apply orb_false_elim in Hskip as [? ?]. zprop.
    assert (copy_of (wend w) (other, w)) as Hcopy by (unfold copy_of; simpl; lia).
    split; [by apply sorted_put|]. intros e. specialize (Hg e). rewrite count_copies_snoc.
    destruct (decide (wend w = e)) as [<-|Hne].
    + rewrite find_put_eq by done. simpl. rewrite decide_True by done.
      destruct (find (wend w) groups) as [g|]; simpl in *.
      * destruct Hg as (Hsum & ? & ? & (w' & Hin & Hw')).
        split_and!; [destruct (_ && _); lia|destruct (_ && _); lia..|].
        destruct (_ || _); [exists w|exists w']; rewrite elem_of_app, list_elem_of_singleton; auto.
      * split_and!; [destruct (_ && _); lia|destruct (_ && _); lia..|].
        exists w. rewrite elem_of_app, list_elem_of_singleton; auto.
    + rewrite find_put_ne by done. rewrite decide_False by (unfold copy_of; simpl; lia).
      destruct (find e groups); [|lia]. setoid_rewrite elem_of_app. naive_solver lia.
Qed.

(** A range that [race] may duplicate: its group is old enough to be judged
    and has room for another copy. *)
Definition raceable p (entry : Z * Worker) : Prop :=
  entry ∈ workers p /\
  exists e g, find e (raceGroups p) = Some g /\ copy_of e entry /\
    young g = false /\ copies g < maxCopies /\ silent g < 2 * maxCopies.

Lemma raceCandidate_spec p longest e g :
  sorted (workers p) -> find e (raceGroups p) = Some g ->
  exists c, raceCandidate p longest g = Some c /\
            forall entry, c = Some entry -> raceable p entry.
Proof.
  intros Hs Hg. destruct (raceGroups_ok p) as [_ Hok]. specialize (Hok e). rewrite Hg in Hok.
  destruct Hok as (_ & _ & _ & w & Hin & Hcopy). apply elem_find in Hin as Hf; [|done].
  unfold raceCandidate. rewrite Hf.
  destruct (_ || _) eqn:Hskip; [by exists None|].
  repeat (apply orb_false_elim in Hskip as [Hskip ?]). zprop.
  destruct (dleb (time g) (dmax _ _)); [by exists None|].
  destruct (_ || _); [|by exists None].
  eexists. split; [done|]. intros entry [= <-]. split; [done|]. exists e, g. done.
Qed.

Lemma raceSlowest_spec p :
  sorted (workers p) ->
  exists r, raceSlowest p = Some r /\ forall entry, r = Some entry -> raceable p entry.
Proof.
  intros Hs. unfold raceSlowest. match goal with |- context [foldl ?body _ _] => set (f := body) end.
  pose (I := fun (_ : stdmap Z Group) (acc : option (option (Z * Worker) * double)) =>
    exists r longest, acc = Some (r, longest) /\ forall entry, r = Some entry -> raceable p entry).
  assert (I (raceGroups p) (foldl f (Some (None, dzero)) (raceGroups p))) as HI.
  { apply foldl_inv; [by exists None, dzero|].
    intros done [e g] acc Hin (r & longest & -> & Hr).
    apply elem_find in Hin; [|apply raceGroups_ok].
    destruct (raceCandidate_spec p longest e g Hs Hin) as (c & Hc & Hcs).
    unfold I, f. simpl. rewrite Hc. simpl. destruct c as [entry|]; eauto. }
  destruct HI as (r & longest & -> & Hr). exists r. done.
Qed.

(** *** The invariant of the planner *)

(** A worker's position is in its assignment or at its end. *)
Definition worker_ok (len : Z) (w : Worker) : Prop :=
  0 <= position w <= wend w /\ wend w <= requestEnd w /\ requestEnd w <= unbounded /\
  (0 <= len -> wend w <= len).

Definition planner_ok p : Prop :=
  br_ok (received p) /\ sorted (workers p) /\ 0 <= minSplit p /\
  (forall x, covers (received p) x -> 0 <= x /\ (0 <= length_ p -> x < length_ p)) /\
  length_ p <= int64_max /\
  (forall id w, (id, w) ∈ workers p -> worker_ok (length_ p) w).

Lemma planner_ok_put p id w :
  planner_ok p -> worker_ok (length_ p) w ->
  planner_ok (with_workers p (put id w (workers p))).
Proof.
  intros (? & ? & ? & ? & ? & Hw) Hnew. split_and!; [done|by apply sorted_put|done..|].
  intros id' w' [[-> ->]|[_ ?]]%elem_of_put_iff; eauto.
Qed.

Lemma planner_ok_worker p id w : planner_ok p -> find id (workers p) = Some w -> worker_ok (length_ p) w.
Proof. intros (_ & _ & _ & _ & _ & Hw) Hf%find_Some_elem. eauto. Qed.

(** What [assign] answers, by case. *)
Inductive assign_result id p : option Range -> planner R -> Prop :=
| assign_gap g :
    0 <= length_ p -> largestGap p = Some g ->
    assign_result id p (Some g) (with_workers p (put id (newWorker g.1 g.2 g.2) (workers p)))
| assign_split victim w cut :
    0 <= length_ p -> largestGap p = None -> find victim (workers p) = Some w ->
    splittable p w -> cut = splitCut undefined p w ->
    assign_result id p (Some (cut, wend w))
      (with_workers p (put id (newWorker cut (wend w) (wend w))
                         (put victim (set_end w cut) (workers p))))
| assign_race other w :
    0 <= length_ p -> largestGap p = None -> raceable p (other, w) ->
    assign_result id p (Some (position w, wend w))
      (with_workers p (put id (newWorker (position w) (wend w) (wend w)) (workers p)))
| assign_nothing :
    length_ p < 0 \/ largestGap p = None -> assign_result id p None p.

Lemma assign_cases id p :
  sorted (workers p) -> exists r p', assign undefined id p = Some (r, p') /\ assign_result id p r p'.
Proof.
  intros Hs. unfold assign. destruct (Z.ltb_spec (length_ p) 0).
  { eexists _, _. split; [done|]. constructor. by left. }
  destruct (largestGap p) as [g|] eqn:Hg.
  { eexists _, _. split; [done|]. by constructor. }
  unfold split. pose proof (splitVictim_spec p) as Hv.
  destruct (splitVictim undefined p) as [[victim w]|].
  { destruct Hv as [Hin Hw]. apply elem_find in Hin; [|done].
    eexists _, _. split; [done|]. by eapply assign_split. }
  unfold race. destruct (raceSlowest_spec p Hs) as (r & -> & Hr). simpl.
  destruct r as [[other w]|].
  - eexists _, _. split; [done|]. eapply assign_race; eauto.
  - eexists _, _. split; [done|]. constructor. by right.
Qed.

Lemma assign_planner_ok id p r p' :
  planner_ok p -> assign_result id p r p' -> planner_ok p'.
Proof.
  intros Hok Hr. pose proof Hok as (Hb & Hs & Hmin & Hnn & Hlen & Hw).
  destruct Hr as [g Hl Hg|victim w cut Hl Hg Hf Hsp ->|other w Hl Hg [Hin Hrace]|]; [| | |done].
  - apply largestGap_some in Hg as (? & ? & ? & _); [|done].
    apply planner_ok_put; [done|]. unfold worker_ok, newWorker, unbounded. simpl. lia.
  - pose proof (planner_ok_worker _ _ _ Hok Hf) as (Hpos & He & Hre & Hle).
    pose proof (splitCut_bounds p w (proj1 Hpos) Hmin Hsp) as Hcut.
    pose proof (leastHalf_nonneg p w Hmin).
    apply (planner_ok_put (with_workers p _)); [apply planner_ok_put; [done|]|];
      unfold worker_ok, set_end, newWorker; simpl; lia.
  - specialize (Hw _ _ Hin). destruct Hw as (? & ? & ? & ?).
    apply planner_ok_put; [done|]. unfold worker_ok, newWorker. simpl. lia.
Qed.

(** *** The calls of the task *)

Inductive call :=
| SetLength (len : Z)
| Restore (ranges : list Range)
| Reset
| Place (id begin requestEnd_ : Z)
| Assign (id : Z)
| Receive (id bytes : Z)
| UpdateSpeed (id : Z) (bytesPerSecond seconds : double)
| NoteSpeed (bytesPerSecond : double)
| NoteStartup (seconds : double)
| Extend (id : Z)
| Release (id : Z)
| Forget (begin end_ : Z).

Definition exec (c : call) p : option (planner R) :=
  match c with
  | SetLength len => Some (setLength len p)
  | Restore ranges => Some (restore ranges p)
  | Reset => Some (reset p)
  | Place id begin requestEnd_ => Some (place id begin requestEnd_ p)
  | Assign id => snd <$> assign undefined id p
  | Receive id bytes => snd <$> receive id bytes p
  | UpdateSpeed id bytesPerSecond seconds => Some (updateSpeed id bytesPerSecond seconds p)
  | NoteSpeed bytesPerSecond => Some (noteSpeed bytesPerSecond p)
  | NoteStartup seconds => Some (noteStartup seconds p)
  | Extend id => snd <$> extend id p
  | Release id => Some (release id p)
  | Forget begin end_ => Some (forget begin end_ p)
  end.

(** The task calls with ranges of the file, byte counts and live workers, and a
    length that it learns is not less than what it has received or asked for. *)
Definition call_ok (c : call) p : Prop :=
  match c with
  | SetLength len => 0 <= len <= int64_max /\ (forall x, covers (received p) x -> x < len) /\
      forall id w, (id, w) ∈ workers p -> position w <= len
  | Restore ranges => Forall (fun r : Range => 0 <= r.1 /\ (0 <= length_ p -> r.2 <= length_ p)) ranges
  | Place _ begin requestEnd_ => 0 <= begin <= requestEnd_ /\ requestEnd_ <= unbounded /\
      (0 <= length_ p -> begin <= length_ p)
  | Receive id bytes => 0 <= bytes /\ is_Some (worker id p)
  | Extend id => is_Some (worker id p)
  | _ => True
  end.

Inductive step p : planner R -> Prop :=
| step_call c p' : call_ok c p -> exec c p = Some p' -> step p p'.


Lemma create_ok m : 0 <= m -> planner_ok (create m).
Proof.
  intros Hm. split_and!; simpl; try done; [apply ok_empty|constructor| |].
  - intros x Hx. by apply covers_empty in Hx.
  - intros id w Hin. by apply elem_of_nil in Hin.
Qed.

Lemma setLength_ok len p : planner_ok p -> call_ok (SetLength len) p -> planner_ok (setLength len p).
Proof.
  intros (? & ? & ? & Hr & ? & Hw) (Hlen & Hrec & Hpos). split_and!; try done; [by apply sorted_map_values| |by destruct Hlen|].
  - intros x Hx. specialize (Hr x Hx). specialize (Hrec x Hx). simpl. lia.
  - intros id w (w' & Hin & ->)%elem_of_map_values. specialize (Hw _ _ Hin). specialize (Hpos _ _ Hin).
    unfold worker_ok in *. simpl. lia.
Qed.

Lemma restore_ok ranges p : planner_ok p -> call_ok (Restore ranges) p -> planner_ok (restore ranges p).
Proof.
  intros (Hb & ? & ? & Hnn & ? & Hw) Hr.
  destruct (foldl_add_covers (fun s '(b, e) => br_add b e s) Some ranges (received p))
    as [Hok Hm]; [by intros s [b e]|done|].
  split_and!; try done. simpl. intros x [Hx|(r & r' & Hin & [= <-] & Hx)]%Hm; [eauto|].
  unfold call_ok in Hr. rewrite Forall_forall in Hr. specialize (Hr _ Hin). unfold inside in Hx. simpl. lia.
Qed.

Lemma place_ok id b e p : planner_ok p -> call_ok (Place id b e) p -> planner_ok (place id b e p).
Proof.
  intros Hok (Hb & He & Hl). apply planner_ok_put; [done|]. unfold worker_ok, newWorker. simpl. zcase; lia.
Qed.

Lemma release_ok id p : planner_ok p -> planner_ok (release id p).
Proof.
  intros (? & ? & ? & ? & ? & Hw). split_and!; try done; [by apply sorted_erase|].
  intros id' w Hin%elem_of_erase. eauto.
Qed.

Lemma forget_ok b e p : planner_ok p -> planner_ok (forget b e p).
Proof.
  intros (? & ? & ? & Hnn & ? & Hw). split_and!; try done; [by apply ok_remove|].
  intros x [Hx _]%covers_remove; auto.
Qed.

(** The functional behaviour of [receive]. *)
Lemma receive_some id n p w :
  worker id p = Some w -> 0 <= n ->
  exists usable p', receive id n p = Some (usable, p') /\
    usable = Z.max 0 (Z.min (wend w - position w) n) /\
    received p' = br_add (position w) (position w + usable) (received p) /\
    workers p' = put id (mkWorker (position w + usable) (wend w) (requestEnd w) true
                           (speed w) (age w)) (workers p) /\
    length_ p' = length_ p /\ minSplit p' = minSplit p.
Proof.
  intros Hw Hn. unfold receive, worker in *. rewrite Hw. simpl.
  eexists _, _. split; [done|]. simpl. split_and!; try done.
  unfold clamp. zcase; lia.
Qed.

Lemma receive_ok id n p usable p' :
  planner_ok p -> 0 <= n -> receive id n p = Some (usable, p') -> planner_ok p'.
Proof.
  intros Hok Hn Hr. destruct (worker id p) as [w|] eqn:Hw.
  2: { unfold receive, worker in *. by rewrite Hw in Hr. }
  destruct (receive_some id n p w Hw Hn) as (u & q & Hq & Hu & Hrec & Hws & Hl & Hm).
  rewrite Hr in Hq. simplify_eq.
  pose proof (planner_ok_worker _ _ _ Hok Hw) as (Hpos & ? & ? & ?).
  destruct Hok as (Hb & Hs & ? & Hnn & ? & Hall).
  split_and!; rewrite ?Hrec, ?Hws, ?Hl, ?Hm; [by apply ok_add|by apply sorted_put|done| |done|].
  - intros x [Hx|Hx]%covers_add; [eauto|lia|done].
  - intros id' w' [[-> ->]|[_ ?]]%elem_of_put_iff; [|eauto|done].
    unfold worker_ok. simpl. lia.
Qed.

Lemma updateSpeed_ok id b s p : planner_ok p -> planner_ok (updateSpeed id b s p).
Proof.
  intros Hok. unfold updateSpeed. destruct (find id (workers p)) as [w|] eqn:Hw; [|done].
  pose proof (planner_ok_worker _ _ _ Hok Hw) as Hwo.
  destruct (planner_ok_put p id (mkWorker (position w) (wend w) (requestEnd w) (receiving w)
    (if dltb dzero (speed w) then (speed w * literal 6 10 + b * literal 4 10)%double else b)
    (age w + s)%double) Hok) as (? & ? & ? & ? & ? & Hall); [done|].
  split_and!; done.
Qed.

(** Bytes another worker still has to fetch. *)
Definition held_by_others id p (x : Z) : Prop :=
  exists other w, other <> id /\ (other, w) ∈ workers p /\ position w <= x < wend w.

(** What [extend] answers for worker [id], by case. *)
Inductive extend_result id p (w : Worker) : bool -> option Z -> planner R -> Prop :=
| extend_finished : extend_result id p w false None p
| extend_takeover other next :
    other <> id -> find other (workers p) = Some next ->
    position next = wend w -> receiving next = false ->
    wend w < requestEnd w -> (0 <= length_ p -> wend w < length_ p) ->
    extend_result id p w true (Some other)
      (with_workers p
         (erase other (put id (set_end w (Z.min (requestEnd w) (wend next))) (workers p))))
| extend_gap e :
    wend w < e -> e <= requestEnd w -> (0 <= length_ p -> e <= length_ p) ->
    (forall x, wend w <= x < e -> ~ covers (received p) x /\ ~ held_by_others id p x) ->
    extend_result id p w true None (with_workers p (put id (set_end w e) (workers p))).

Lemma idleNext_Some id e ws other next :
  idleNext id e ws = Some (other, next) ->
  (other, next) ∈ ws /\ other <> id /\ position next = e /\ receiving next = false.
Proof.
  induction ws as [|[o n] ws IH]; simpl; [done|].
  destruct (_ && _) eqn:Htest.
  - intros [= -> ->]. repeat (apply andb_prop in Htest as [Htest ?]). zprop.
    split_and!; [left|done..].
  - intros Hf. destruct (IH Hf) as (? & ? & ? & ?). split_and!; [by right|done..].
Qed.

Lemma extend_cases id p w :
  planner_ok p -> worker id p = Some w ->
  exists b c p', extend id p = Some (b, c, p') /\ extend_result id p w b c p'.
Proof.
  intros (Hb & Hs & _) Hw. unfold extend, worker in *. rewrite Hw. simpl.
  destruct (_ || _) eqn:Hend; [eexists _, _, _; split; [done|constructor]|].
  apply orb_false_elim in Hend as [Hreq Hlen]. zprop.
  assert (0 <= length_ p -> wend w < length_ p) as Hlen'.
  { intros ?. apply andb_false_elim in Hlen as [?|?]; zprop; lia. }
  destruct (idleNext id (wend w) (workers p)) as [[other next]|] eqn:Hnext.
  { apply idleNext_Some in Hnext as (Hin & ? & ? & ?). apply elem_find in Hin; [|done].
    eexists _, _, _. split; [done|]. by apply extend_takeover. }
  clear Hnext.
  match goal with |- context [foldl ?body _ _] =>
    destruct (foldl_add_covers body
      (fun '((o, n) : Z * Worker) => if o =? id then None else Some (position n, wend n))
      (workers p) (received p)) as [Hok Hm]; [intros s [o n]; by destruct (o =? id)|done|]
  end.
  set (owned := foldl _ _ _) in *. set (limit := if 0 <=? length_ p then _ else _).
  destruct (br_firstGap (wend w) limit owned) as [g|] eqn:Hg;
    [|eexists _, _, _; split; [done|constructor]].
  destruct (Z.eqb_spec g.1 (wend w)) as [Heq|];
    [|eexists _, _, _; split; [done|constructor]].
  eexists _, _, _. split; [done|].
  destruct (firstGap_some _ _ _ _ Hok Hg) as (_ & Hlt & Hle & _ & Hfree & _).
  constructor; try (unfold limit in Hle; zcase; lia).
  intros x Hx. rewrite <- Heq in Hx. specialize (Hfree x Hx). rewrite Hm in Hfree.
  split; [tauto|]. intros (other & n & Hne & Hin & Hx'). apply Hfree. right.
  exists (other, n), (position n, wend n). split_and!; [done| |done].
  by apply Z.eqb_neq in Hne as ->.
Qed.

Lemma extend_ok id p w b c p' :
  planner_ok p -> worker id p = Some w -> extend_result id p w b c p' -> planner_ok p'.
Proof.
  intros Hok Hw Hr. pose proof (planner_ok_worker _ _ _ Hok Hw) as (Hpos & ? & ? & ?).
  destruct Hr as [|other next Hne Hf Hp Hrecv Hreq Hlen|e Hlt Hreq Hlen _]; [done| |].
  - pose proof (planner_ok_worker _ _ _ Hok Hf) as (? & ? & ? & ?).
    apply (release_ok other (with_workers p _)), planner_ok_put; [done|].
    unfold worker_ok, set_end. simpl. lia.
  - apply planner_ok_put; [done|]. unfold worker_ok, set_end. simpl. lia.
Qed.

Lemma exec_ok c p : planner_ok p -> call_ok c p -> exists p', exec c p = Some p' /\ planner_ok p'.
Proof.
  intros Hok Hc. pose proof Hok as (_ & Hs & Hm & _ & Hl & _). destruct c; simpl in *.
  - eexists. split; [done|]. by apply setLength_ok.
  - eexists. split; [done|]. by apply restore_ok.
  - eexists. split; [done|]. exact (create_ok (minSplit p) Hm).
  - eexists. split; [done|]. by apply place_ok.
  - destruct (assign_cases id p Hs) as (r & p' & -> & Hr). eexists. split; [done|].
    by eapply assign_planner_ok.
  - destruct Hc as [? [w Hw]]. destruct (receive_some id bytes p w) as (u & q & Hq & _); try done.
    rewrite Hq. exists q. split; [done|]. by apply (receive_ok id bytes p u).
  - eexists. split; [done|]. by apply updateSpeed_ok.
  - eexists. split; [done|]. done.
  - eexists. split; [done|]. done.
  - destruct Hc as [w Hw]. destruct (extend_cases id p w Hok Hw) as (b & cc & p' & -> & Hr).
    eexists. split; [done|]. by eapply extend_ok.
  - eexists. split; [done|]. by apply release_ok.
  - eexists. split; [done|]. by apply forget_ok.
Qed.

End facts.

(** ** Theorems *)

Section theorems.
Context {R : Type} {RO : ByteRanges R} {RL : ByteRangesLaws R} (undefined : double -> Z).
Implicit Types (p : planner R) (id : Z).


(** C20. A download cannot get stuck: on a planner with the invariant of
    [planner_invariant] and a positive min-split-size, when no worker has bytes
    left to fetch, [assign] answers nothing exactly if the length is unknown or
    the file is complete; otherwise it hands out a non-empty range of missing
    bytes. *)
Theorem assign_never_stalls id p :
  planner_ok p -> 0 < minSplit p ->
  (forall other w, (other, w) ∈ workers p -> wend w <= position w) ->
  exists r p', assign undefined id p = Some (r, p') /\
    (r = None <-> length_ p < 0 \/ complete p = true) /\
    (forall g, r = Some g -> g.1 < g.2 /\ forall x, g.1 <= x < g.2 -> ~ covers (received p) x).
Proof.
  intros Hok Hmin Hidle. pose proof Hok as (Hb & Hs & _).
  destruct (Z.lt_ge_cases (length_ p) 0) as [Hlen|Hlen].
  { exists None, p. unfold assign. rewrite (proj2 (Z.ltb_lt _ _) Hlen). split_and!; [done|tauto|done]. }
  destruct (assign_cases undefined id p Hs) as (r & p' & Ha & Hr). exists r, p'. split; [done|].
  enough ((complete p = true <-> r = None) /\
    (forall g, r = Some g -> g.1 < g.2 /\ forall x, g.1 <= x < g.2 -> ~ covers (received p) x)) as [Hc ?].
  { split; [|done]. rewrite <- Hc. split; [by right|]. intros [?|?]; [lia|done]. }
  assert (complete p = true <-> forall x, 0 <= x < length_ p -> covers (received p) x) as Hcomp.
  { unfold complete. rewrite andb_true_iff, contains_spec by done.
    rewrite Z.leb_le. tauto. }
  rewrite Hcomp. destruct Hr as [g _ Hg|victim w cut _ _ Hf [_ Hroom]|other w _ _ [Hin (e & g & _ & Hcopy & _)]|[?|Hg]].
  - apply largestGap_some in Hg as (? & ? & ? & Hfree & _); [|done]. split.
    + split; [|done]. intros Hall. destruct (Hfree g.1) as [Hn _]; [lia|].
      destruct Hn. apply Hall. lia.
    + intros g' [= <-]. split; [done|]. intros x Hx. by apply Hfree.
  - apply find_Some_elem, Hidle in Hf.
    pose proof (minSplitFor_bounds undefined p (expectedSpeed w (typicalSpeed (-1) p))) as [Hlo _].
    unfold leastHalf in Hroom. change minSplitFloor with 65536 in Hlo. lia.
  - specialize (Hidle _ _ Hin). unfold copy_of in Hcopy. simpl in Hcopy. lia.
  - lia.
  - split; [|done]. split; [done|]. intros _ x Hx.
    destruct (largestGap_none p x Hb Hg Hx) as [|(other & w & Hin & ?)]; [done|].
    specialize (Hidle _ _ Hin). lia.
Qed.

(** While bytes are neither received nor being fetched, [assign] takes a
    largest stretch of them: it overlaps nothing that is received or held by a
    worker, and no other such stretch is longer. *)
Lemma assign_takes_largest_gap id p x :
  planner_ok p -> 0 <= x < length_ p -> ~ covers (received p) x -> ~ held p x ->
  exists b e p', assign undefined id p = Some (Some (b, e), p') /\
    0 <= b /\ b < e /\ e <= length_ p /\
    worker id p' = Some (newWorker b e e) /\
    (forall y, b <= y < e -> ~ covers (received p) y /\ ~ held p y) /\
    (forall b' e', 0 <= b' -> e' <= length_ p ->
       (forall y, b' <= y < e' -> ~ covers (received p) y /\ ~ held p y) -> e' - b' <= e - b).
Proof.
  intros (Hb & Hs & _) Hx Hnr Hnh. unfold assign.
  destruct (Z.ltb_spec (length_ p) 0); [lia|].
  destruct (largestGap p) as [[b e]|] eqn:Hg.
  - apply largestGap_some in Hg as (? & ? & ? & ? & ?); [|done]. simpl in *.
    eexists b, e, _. split_and!; try done. by apply find_put_eq.
  - destruct (largestGap_none p x Hb Hg Hx); tauto.
Qed.

(** C21. [split] for an id not in use cuts one worker's remaining range in two,
    hands the tail to the new worker and leaves the head to the old one: each
    half has at least the bytes that are worth a connection at the worker's
    speed, which is between 64 KiB, or min-split-size if that is less, and
    min-split-size, and the bytes being fetched are the same as before. *)
Theorem split_partitions id p range p' :
  planner_ok p -> worker id p = None -> split undefined id p = Some (range, p') ->
  exists victim w, worker victim p = Some w /\ range.2 = wend w /\
    (let least := minSplitFor undefined (expectedSpeed w (typicalSpeed (-1) p)) p in
     Z.min minSplitFloor (minSplit p) <= least <= minSplit p /\
     least <= range.1 - position w /\ least <= range.2 - range.1) /\
    worker victim p' = Some (set_end w range.1) /\
    worker id p' = Some (newWorker range.1 range.2 range.2) /\
    (forall x, held p' x <-> held p x).
Proof.
  intros Hok Hid Hsplit. pose proof Hok as (Hb & Hs & Hmin & _).
  unfold split in Hsplit. pose proof (splitVictim_spec undefined p) as Hv.
  destruct (splitVictim undefined p) as [[victim w]|]; [|done]. simplify_eq.
  destruct Hv as [Hin Hsp]. apply elem_find in Hin as Hf; [|done].
  pose proof (planner_ok_worker _ _ _ Hok Hf) as (Hpos & _).
  pose proof (splitCut_bounds undefined p w (proj1 Hpos) Hmin Hsp) as Hcut.
  pose proof (minSplitFor_bounds undefined p (expectedSpeed w (typicalSpeed (-1) p))) as [Hlo Hhi].
  fold (leastHalf undefined p w) in Hlo, Hhi. pose proof (leastHalf_nonneg undefined p w Hmin).
  set (cut := splitCut undefined p w) in *. clearbody cut.
  assert (id <> victim) by (intros ->; unfold worker in *; congruence).
  unfold worker in *. exists victim, w. simpl. fold (leastHalf undefined p w). split_and!; try done; try lia.
  - rewrite find_put_ne by auto with aria2. by rewrite find_put_eq.
  - by rewrite find_put_eq by auto with aria2.
  - intros x. unfold held. simpl. split.
    + intros (o & v & Hov & Hx).
      apply elem_of_put_iff in Hov as [[-> ->]|[_ Hov]]; [| |auto with aria2].
      * exists victim, w. split; [done|]. simpl in Hx. lia.
      * apply elem_of_put_iff in Hov as [[-> ->]|[_ Hov]]; [|eauto|done].
        exists victim, w. split; [done|]. simpl in Hx. lia.
    + intros (o & v & Hov & Hx). setoid_rewrite elem_of_put_iff; [|auto with aria2..].
      setoid_rewrite elem_of_put_iff; [|done].
      assert (o <> id).
      { intros ->. apply elem_find in Hov; [|done]. congruence. }
      destruct (decide (o = victim)) as [->|]; [|by exists o, v; auto 10].
      assert (v = w) as ->. { apply elem_find in Hov; [|done]. congruence. }
      destruct (Z.lt_ge_cases x cut).
      * exists victim, (set_end w cut). split; [auto 10|]. simpl. lia.
      * exists id, (newWorker cut (wend w) (wend w)). split; [auto|]. simpl. lia.
Qed.

Lemma count_copies_put e id w ws :
  find id ws = None -> sorted ws -> count_copies e (put id w ws) <= count_copies e ws + 1.
Proof.
  intros Hf Hs. unfold count_copies. rewrite (put_fresh_perm id w ws Hf Hs), filter_cons.
  case_decide; simpl; lia.
Qed.

(** The endgame: [race] duplicates the remaining range of one worker, and
    however often it is called a range is never fetched by more than eight
    connections at once (two that deliver or start and five silent ones, plus
    the new copy). *)
Lemma race_copies_bounded id p range p' :
  planner_ok p -> worker id p = None -> race id p = Some (Some range, p') ->
  exists other w, worker other p = Some w /\ range = (position w, wend w) /\
    position w < wend w /\
    workers p' = put id (newWorker range.1 range.2 range.2) (workers p) /\
    received p' = received p /\
    count_copies (wend w) (workers p') <= 3 * maxCopies - 1.
Proof.
  intros (Hb & Hs & _) Hid Hrace. unfold race in Hrace.
  destruct (raceSlowest_spec p Hs) as (r & Hr & Hcand). rewrite Hr in Hrace. simpl in Hrace.
  destruct r as [[other w]|]; simplify_eq/=.
  destruct (Hcand _ eq_refl) as [Hin (e & g & Hg & (He & Hlt & _) & _ & Hc & Hsil)].
  simpl in *. subst e. destruct (raceGroups_ok p) as [_ Hgo]. specialize (Hgo (wend w)).
  rewrite Hg in Hgo. destruct Hgo as (Hsum & _).
  exists other, w. split_and!; try done; [by apply elem_find|].
  pose proof (count_copies_put (wend w) id (newWorker (position w) (wend w) (wend w)) (workers p) Hid Hs).
  unfold maxCopies in *. lia.
Qed.

(** [receive] takes the prefix of the data that belongs to the worker's
    assignment and nothing else: exactly these bytes are added to the received
    set, the worker moves past them, and the other workers keep their ranges. *)
Lemma receive_exact id n p w :
  planner_ok p -> worker id p = Some w -> 0 <= n ->
  exists usable p', receive id n p = Some (usable, p') /\
    usable = Z.max 0 (Z.min (wend w - position w) n) /\
    (forall x, covers (received p') x <->
               covers (received p) x \/ position w <= x < position w + usable) /\
    worker id p' = Some (mkWorker (position w + usable) (wend w) (requestEnd w) true
                           (speed w) (age w)) /\
    (forall other, other <> id -> worker other p' = worker other p).
Proof.
  intros (Hb & Hs & _) Hw Hn.
  destruct (receive_some id n p w Hw Hn) as (u & p' & Hr & Hu & Hrec & Hws & _).
  exists u, p'. unfold worker. rewrite Hrec, Hws. split_and!; try done.
  - intros x. by apply covers_add.
  - by apply find_put_eq.
  - intros other Hne. by apply find_put_ne.
Qed.

(** A finished worker that [extend] lets go on stays within its own
    request and the file. It takes over the range of a worker that has received
    nothing, which is then cancelled, or continues into bytes nobody has. *)
Lemma extend_stays_in_request id p w cancelled p' :
  planner_ok p -> worker id p = Some w -> wend w <= position w ->
  extend id p = Some (true, cancelled, p') ->
  exists e, worker id p' = Some (set_end w e) /\
    e <= requestEnd w /\ (0 <= length_ p -> e <= length_ p) /\
    received p' = received p /\
    match cancelled with
    | Some other =>
        other <> id /\ worker other p' = None /\
        exists next, worker other p = Some next /\ receiving next = false /\
          position next = wend w /\ e = Z.min (requestEnd w) (wend next)
    | None =>
        wend w < e /\
        forall x, wend w <= x < e -> ~ covers (received p) x /\ ~ held p x
    end.
Proof.
  intros Hok Hw Hdone He. pose proof Hok as (_ & Hs & _).
  destruct (extend_cases id p w Hok Hw) as (b & c & q & Hq & Hr). rewrite He in Hq. simplify_eq.
  unfold worker in *. inversion Hr as [|other next Hne Hf Hp Hrecv Hreq Hlen|e Hlt Hreq Hlen Hfree];
    subst; simpl.
  - exists (Z.min (requestEnd w) (wend next)).
    pose proof (planner_ok_worker _ _ _ Hok Hf) as (_ & _ & _ & Hn).
    split_and!; try done; try lia.
    + rewrite find_erase_ne by auto with aria2. by apply find_put_eq.
    + apply find_erase_eq. auto with aria2.
    + eauto.
  - exists e. split_and!; try done; [by apply find_put_eq|].
    intros x Hx. destruct (Hfree x Hx) as [? Hn]. split; [done|].
    intros (other & v & Hin & Hv). destruct (decide (other = id)) as [->|Hne].
    + apply elem_find in Hin; [|done]. simplify_eq. lia.
    + apply Hn. by exists other, v.
Qed.

(** [redundant] lists exactly the workers whose remaining range others
    have already received, each once. *)
Lemma redundant_lists_race_losers id p :
  planner_ok p ->
  (id ∈ redundant p <->
   exists w, worker id p = Some w /\ position w < wend w /\
     forall x, position w <= x < wend w -> covers (received p) x) /\
  NoDup (redundant p).
Proof.
  intros (Hb & Hs & _). split.
  - unfold redundant, worker. rewrite list_elem_of_omap. split.
    + intros ([o w] & Hin & Ho). destruct (_ && _) eqn:Ht; simplify_eq.
      apply andb_prop in Ht as [? Hc]. zprop. rewrite contains_spec in Hc by done.
      exists w. split_and!; try done. by apply elem_find.
    + intros (w & Hf & Hlt & Hc). exists (id, w). split; [by apply find_Some_elem|].
      rewrite <- contains_spec in Hc by done. rewrite Hc.
      by destruct (Z.ltb_spec (position w) (wend w)); [|lia].
  - unfold redundant. pose proof (sorted_NoDup_keys _ Hs) as Hnd.
    induction (workers p) as [|[o w] ws IH]; simpl in *; [constructor|].
    apply sorted_cons_inv in Hs as [Hs _]. apply NoDup_cons in Hnd as [Hnin Hnd].
    destruct (_ && _); [|by apply IH]. constructor; [|by apply IH].
    rewrite list_elem_of_omap. intros ([o' w'] & Hin & Ho'). destruct (_ && _); simplify_eq.
    apply Hnin. rewrite list_elem_of_fmap. by exists (o, w').
Qed.
End theorems.
End SegmentPlanner.

(** ** Concrete planners

    The states of the repository's own tests (tests/SegmentPlannerTest.cc), on
    the [RangeSet] implementation, with the cast overflow of x86-64. *)

Module SegmentPlannerExamples.
Import SegmentPlanner.

Definition MiB : Z := 2 ^ 20.
Definition undefined (_ : double) : Z := int64_min.
Definition received_or (id n : Z) (p : planner RangeSet.t) : planner RangeSet.t :=
  default p (snd <$> receive id n p).

(** "an idle connection splits the slowest remaining range" *)
Definition one_worker : planner RangeSet.t :=
  place 1 0 (16 * MiB) (setLength (16 * MiB) (create MiB)).

Example test_split_evenly :
  (fst <$> assign undefined 2 one_worker) = Some (Some (8 * MiB, 16 * MiB)).
Proof. vm_compute. reflexivity. Qed.

(** "slow connections split below min-split-size when it pays off" *)
Definition measured (rate : Z) : planner RangeSet.t :=
  noteStartup (literal 1 2)
    (updateSpeed 1 (of_int rate) (of_int 1)
       (received_or 1 (MiB / 2) (place 1 0 (2 * MiB) (setLength (2 * MiB) (create MiB))))).

Example test_slow_split :
  (fst <$> assign undefined 2 (measured 100000)) = Some (Some (1310720, 2 * MiB)).
Proof. vm_compute. reflexivity. Qed.

Example test_fast_no_split :
  (fst <$> assign undefined 2 (measured 50000000)) = Some None.
Proof. vm_compute. reflexivity. Qed.

(** "a stalled connection is raced only after it had time to show its speed" *)
Definition stalled : planner RangeSet.t :=
  updateSpeed 2 (of_int 1000) (of_int 1)
    (received_or 2 1
       (release 1
          (updateSpeed 1 (of_int 8000000) (of_int 1)
             (received_or 1 (2 * MiB)
                (place 2 (2 * MiB) (4 * MiB)
                   (place 1 0 (2 * MiB) (setLength (4 * MiB) (create MiB)))))))).

Definition stalled_longer : planner RangeSet.t :=
  updateSpeed 2 (of_int 1000) (of_int 2) stalled.

Example test_young_not_raced : (fst <$> assign undefined 3 stalled) = Some None.
Proof. vm_compute. reflexivity. Qed.

Example test_raced :
  (fst <$> assign undefined 3 stalled_longer) = Some (Some (2 * MiB + 1, 4 * MiB)).
Proof. vm_compute. reflexivity. Qed.

(** "a finished connection takes over a neighbour that has no data" *)
Definition finished : planner RangeSet.t :=
  received_or 1 (8 * MiB)
    (default (create MiB) (snd <$> assign undefined 2
      (place 1 0 (8 * MiB) (setLength (8 * MiB) (create MiB))))).

Example test_takeover :
  (fst <$> extend 1 finished) = Some (true, Some 2).
Proof. vm_compute. reflexivity. Qed.

(** *** The invariant holds of these states *)

Lemma received_or_ok id n p : 0 <= n -> planner_ok p -> planner_ok (received_or id n p).
Proof.
  intros Hn Hok. unfold received_or. destruct (receive id n p) as [[u q]|] eqn:Hr; [|done].
  by apply (receive_ok id n p u).
Qed.

Lemma empty_length_ok len : 0 <= len <= int64_max -> call_ok (SetLength len) (create (R:=RangeSet.t) MiB).
Proof.
  intros Hl. split_and!; [lia..| |].
  - intros x Hx. by apply covers_empty in Hx.
  - intros id w Hin. by apply elem_of_nil in Hin.
Qed.
Lemma with_length_ok len : 0 <= len <= int64_max -> planner_ok (setLength len (create (R:=RangeSet.t) MiB)).
Proof. intros. apply setLength_ok; [by apply create_ok|by apply empty_length_ok]. Qed.

Lemma one_worker_ok : planner_ok one_worker.
Proof. apply place_ok; [apply with_length_ok|..]; done. Qed.

Lemma stalled_longer_ok : planner_ok stalled_longer.
Proof.
  unfold stalled_longer, stalled.
  repeat first [apply updateSpeed_ok | apply received_or_ok | apply release_ok |
                apply place_ok | apply with_length_ok]; done.
Qed.

Lemma finished_ok : planner_ok finished.
Proof.
  apply received_or_ok; [done|].
  destruct (exec_ok undefined (Assign 2) (place 1 0 (8 * MiB) (setLength (8 * MiB) (create MiB))))
    as (p' & Hp & Hok); [apply place_ok; [apply with_length_ok|..]; done|done|].
  cbv beta iota delta [exec] in Hp. rewrite Hp. exact Hok.
Qed.

(** *** Witnesses *)


Lemma assign_never_stalls_witness :
  exists r p', assign undefined 1 (setLength 100 (create (R:=RangeSet.t) MiB)) = Some (r, p') /\
    r <> None.
Proof.
  destruct (assign_never_stalls undefined 1 (setLength 100 (create (R:=RangeSet.t) MiB)))
    as (r & p' & Ha & Hc & _).
  - by apply with_length_ok.
  - reflexivity.
  - intros other w Hin. by apply elem_of_nil in Hin.
  - exists r, p'. split; [exact Ha|]. intros Hr. apply Hc in Hr. vm_compute in Hr. destruct Hr; discriminate.
Defined.

Lemma assign_takes_largest_gap_witness :
  exists b e p', assign undefined 1 (restore [(10, 20)] (setLength 100 (create (R:=RangeSet.t) MiB))) =
                 Some (Some (b, e), p') /\ 80 <= e - b.
Proof.
  assert (planner_ok (restore [(10, 20)] (setLength 100 (create (R:=RangeSet.t) MiB)))) as Hok.
  { apply restore_ok; [by apply with_length_ok|by repeat constructor]. }
  assert (forall y, 20 <= y ->
    ~ covers (received (restore [(10, 20)] (setLength 100 (create (R:=RangeSet.t) MiB)))) y) as Hfree.
  { intros y Hy Hc. change (RangeSet.mem [(10, 20)] y) in Hc.
    apply RangeSet.mem_cons in Hc as [Hc|Hc%RangeSet.mem_nil]; [|done].
    unfold inside in Hc. simpl in Hc. lia. }
  assert (forall y, ~ held (restore [(10, 20)] (setLength 100 (create (R:=RangeSet.t) MiB))) y) as Hheld.
  { intros y (o & w & Hin & _). by apply elem_of_nil in Hin. }
  destruct (assign_takes_largest_gap undefined 1 _ 50 Hok) as (b & e & p' & Ha & _ & _ & _ & _ & _ & Hmax).
  - vm_compute. split; [discriminate|reflexivity].
  - by apply Hfree.
  - apply Hheld.
  - exists b, e, p'. split; [exact Ha|]. apply (Hmax 20 100); [lia|vm_compute; discriminate|].
    intros y Hy. split; [apply Hfree; lia|apply Hheld].
Defined.

Lemma split_partitions_witness :
  exists victim w, worker victim one_worker = Some w /\ wend w = 16 * MiB.
Proof.
  destruct (split undefined 2 one_worker) as [[range p']|] eqn:Hs; [|vm_compute in Hs; discriminate].
  destruct (split_partitions undefined 2 one_worker range p' one_worker_ok eq_refl Hs)
    as (victim & w & Hw & He & _).
  exists victim, w. split; [exact Hw|]. rewrite <- He. vm_compute in Hs. injection Hs as <- _. reflexivity.
Defined.

Lemma race_copies_bounded_witness :
  exists p', race 3 stalled_longer = Some (Some (2 * MiB + 1, 4 * MiB), p') /\
             count_copies (4 * MiB) (workers p') <= 8.
Proof.
  destruct (race 3 stalled_longer) as [[[range|] p']|] eqn:Hr; [|vm_compute in Hr; discriminate..].
  destruct (race_copies_bounded 3 stalled_longer range p' stalled_longer_ok eq_refl Hr)
    as (other & w & _ & Hrange & _ & _ & _ & Hle).
  assert (range = (2 * MiB + 1, 4 * MiB)) as Hval
    by (vm_compute in Hr; injection Hr as <- _; reflexivity).
  exists p'. rewrite <- Hval. split; [reflexivity|]. rewrite Hval in Hrange. injection Hrange as _ He.
  rewrite <- He in Hle. exact Hle.
Defined.

Lemma receive_exact_witness :
  exists usable p', receive 1 (20 * MiB) one_worker = Some (usable, p') /\ usable = 16 * MiB.
Proof.
  destruct (receive_exact 1 (20 * MiB) one_worker (newWorker 0 (16 * MiB) (16 * MiB)) one_worker_ok)
    as (u & p' & Hr & Hu & _); [reflexivity|discriminate|].
  exists u, p'. split; [exact Hr|]. rewrite Hu. reflexivity.
Defined.

Lemma extend_stays_in_request_witness :
  exists e w p', extend 1 finished = Some (true, Some 2, p') /\ worker 1 p' = Some (set_end w e) /\
    e <= 8 * MiB.
Proof.
  destruct (extend 1 finished) as [[[b c] p']|] eqn:He; [|vm_compute in He; discriminate].
  assert (b = true /\ c = Some 2) as [-> ->]
    by (vm_compute in He; injection He as <- <- _; split; reflexivity).
  assert (length_ finished = 8 * MiB) as Hl by (vm_compute; reflexivity).
  destruct (worker 1 finished) as [w|] eqn:Hw; [|vm_compute in Hw; discriminate].
  destruct (extend_stays_in_request 1 finished w (Some 2) p' finished_ok Hw)
    as (e & He' & _ & Hlen & _).
  - vm_compute in Hw. injection Hw as <-. vm_compute. discriminate.
  - exact He.
  - exists e, w, p'. rewrite Hl in Hlen. split_and!; [reflexivity|exact He'|].
    apply Hlen. discriminate.
Defined.

Lemma redundant_lists_race_losers_witness :
  2 ∈ redundant (restore [(2 * MiB, 4 * MiB)] stalled_longer).
Proof.
  assert (planner_ok (restore [(2 * MiB, 4 * MiB)] stalled_longer)) as Hok.
  { apply restore_ok; [apply stalled_longer_ok|by repeat constructor]. }
  apply (redundant_lists_race_losers 2 _ Hok). eexists.
  split_and!; [reflexivity|reflexivity|].
  exact (proj1 (contains_spec (2 * MiB + 1) (4 * MiB) _ (proj1 Hok)) eq_refl).
Defined.
End SegmentPlannerExamples.
