(* ===== verification/Parts.v ===== *)
(** * Parts of a file: [src/ed2k/Parts.h], [src/ed2k/Parts.cc]

    The progress of an eDonkey file: which bytes are there, which parts of
    9728000 bytes have a verified hash, and which blocks the sources have
    claimed. The received set is any implementation of [ByteRanges]. An owner
    is the address of a client, times are nanoseconds. [None] as the result of
    an operation is an access outside [verified_]. *)

From S2P Require Import Prelude Ranges Hash.

Module Parts.
Import Hash.

(** ** Data *)

Definition duplicateAfter : Z := 5 * 10 ^ 9.

Record Claim := mkClaim { cend : Z; owner : Z; since : Z }.

(** [claims_] is a multimap by begin: a list in the order of iteration. *)
Record parts (R : Type) := mkParts {
  size : Z;
  verified : list bool;
  received : R;
  claims : list (Z * Claim);
}.
Arguments mkParts {R}.
Arguments size {R}.
Arguments verified {R}.
Arguments received {R}.
Arguments claims {R}.

(** [claims_.emplace]: behind the entries with the same key. *)
Fixpoint emplace (k : Z) (c : Claim) (m : list (Z * Claim)) : list (Z * Claim) :=
  match m with
  | [] => [(k, c)]
  | e :: m' => if k <? e.1 then (k, c) :: m else e :: emplace k c m'
  end.

(** What [claim] sorts; lower is better. *)
Record Candidate := mkCandidate { index : Z; rank : Z * Z * Z * Z * Z }.

(** [<] on tuples. *)
Definition rank_ltb (x y : Z * Z * Z * Z * Z) : bool :=
  let '(a1, a2, a3, a4, a5) := x in
  let '(b1, b2, b3, b4, b5) := y in
  (a1 <? b1) || ((a1 =? b1) &&
    ((a2 <? b2) || ((a2 =? b2) &&
      ((a3 <? b3) || ((a3 =? b3) &&
        ((a4 <? b4) || ((a4 =? b4) && (a5 <? b5)))))))).

(** [std::sort] leaves the order of equal ranks open; the theorems below hold
    for any order of the candidates. *)
Fixpoint insertCandidate (c : Candidate) (l : list Candidate) : list Candidate :=
  match l with
  | [] => [c]
  | d :: l' => if rank_ltb (rank c) (rank d) then c :: l else d :: insertCandidate c l'
  end.
Definition sortCandidates (l : list Candidate) : list Candidate := foldr insertCandidate [] l.

Section parts.
Context {R : Type} `{ByteRanges R}.
Implicit Types (p : parts R).

Definition with_received p (s : R) : parts R := mkParts (size p) (verified p) s (claims p).
Definition with_verified p (v : list bool) : parts R := mkParts (size p) v (received p) (claims p).
Definition with_claims p (c : list (Z * Claim)) : parts R := mkParts (size p) (verified p) (received p) c.

(** [explicit Parts(int64_t size)] *)
Definition create (size_ : Z) : parts R :=
  mkParts size_ (replicate (Z.to_nat (Z.quot (size_ + PIECE_LENGTH - 1) PIECE_LENGTH)) false) br_empty [].

(** ** Operations *)

Definition count p : Z := Z.of_nat (length (verified p)).

Definition part p (index : Z) : Range :=
  let begin := index * PIECE_LENGTH in
  (begin, Z.min (begin + PIECE_LENGTH) (size p)).

Definition partOf (offset : Z) : Z := Z.quot offset PIECE_LENGTH.

Definition isVerified p (index : Z) : option bool := verified p !! Z.to_nat index.

Definition complete p : bool := forallb id (verified p).

Definition completed p : Z := br_total (received p).

Definition filled p (index : Z) : bool :=
  let '(begin, end_) := part p index in br_contains begin end_ (received p).

(** The loop of [add] over the parts that the bytes are in. *)
Fixpoint firstFilled p (indices : list Z) : option (option Z) :=
  match indices with
  | [] => Some None
  | index :: indices =>
      v ← isVerified p index;
      if negb v && filled p index then Some (Some index) else firstFilled p indices
  end.

Definition add (begin end_ : Z) p : option (option Z * parts R) :=
  let begin := Z.max begin 0 in
  let end_ := Z.min end_ (size p) in
  if end_ <=? begin then Some (None, p)
  else
    let p := with_received p (br_add begin end_ (received p)) in
    result ← firstFilled p (seqZ (partOf begin) (partOf (end_ - 1) - partOf begin + 1));
    Some (result, p).

Definition verify (index : Z) p : option (parts R) :=
  _ ← isVerified p index;
  let p := with_verified p (<[Z.to_nat index := true]> (verified p)) in
  let '(begin, end_) := part p index in
  Some (with_received p (br_add begin end_ (received p))).

Definition reject (index : Z) p : option (parts R) :=
  _ ← isVerified p index;
  let p := with_verified p (<[Z.to_nat index := false]> (verified p)) in
  let '(begin, end_) := part p index in
  Some (with_received p (br_remove begin end_ (received p))).

(** [available.empty() || (index < available.size() && available[index])] *)
Definition holds (available : list bool) (index : Z) : bool :=
  bool_decide (available = []) || default false (available !! Z.to_nat index).

(** A part that is neither verified nor waiting for its verification, which
    the source has. *)
Definition needed p (available : list bool) (index : Z) : bool :=
  negb (default false (isVerified p index)) && negb (filled p index) && holds available index.

Definition indices p : list Z := seqZ 0 (count p).

Definition wants (available : list bool) p : bool := existsb (needed p available) (indices p).

(** ** Claims *)

(** Claims in a part, and whether one is the owner's. *)
Definition claimedHere p (r : Range) : bool :=
  existsb (fun '(first, c) => (first <? r.2) && (r.1 <? cend c)) (claims p).
Definition mine p (who : Z) (r : Range) : bool :=
  existsb (fun '(first, c) => (first <? r.2) && (r.1 <? cend c) && (owner c =? who)) (claims p).

Definition edge p (index : Z) : bool :=
  let last := count p - 1 in
  (index =? 0) || (index =? last) ||
  ((index + 1 =? last) && (size p - (part p last).1 <? Z.quot PIECE_LENGTH 3)).

Definition rankOf p (who : Z) (availability : list Z) (preview : bool) (draw index : Z) :
    Z * Z * Z * Z * Z :=
  let r := part p index in
  let started := claimedHere p r || (0 <? br_covered r.1 r.2 (received p)) in
  let rarity := default 0 (availability !! Z.to_nat index) in
  (if mine p who r then 0 else 1, if preview && edge p index then 0 else 1,
   if started then 0 else 1, rarity, draw).

(** The loop that collects candidates; [random] gives the draws in order. *)
Fixpoint candidates p (who : Z) (available : list bool) (availability : list Z) (preview : bool)
    (random : nat -> Z) (drawn : nat) (l : list Z) : list Candidate :=
  match l with
  | [] => []
  | index :: l =>
      if needed p available index then
        mkCandidate index (rankOf p who availability preview (random drawn) index)
          :: candidates p who available availability preview random (S drawn) l
      else candidates p who available availability preview random drawn l
  end.

(** Whether a claim keeps [who] away from its bytes. *)
Definition blocking (who : Z) (endgame : bool) (now : Z) (c : Claim) : bool :=
  (owner c =? who) || negb endgame || (now - since c <? duplicateAfter).

(** One pass of the inner loop over the claims: the stretch it leaves, and
    whether it moved the begin, which ends the pass. *)
Fixpoint pass (blocks : Claim -> bool) (begin end_ : Z) (l : list (Z * Claim)) : Z * Z * bool :=
  match l with
  | [] => (begin, end_, false)
  | (first, c) :: l =>
      if (cend c <=? begin) || (end_ <=? first) || negb (blocks c) then pass blocks begin end_ l
      else if first <=? begin then (cend c, end_, true)
      else pass blocks begin first l
  end.

(** The inner loop; each pass that moves gets past a claim. *)
Fixpoint stretch (fuel : nat) (blocks : Claim -> bool) (l : list (Z * Claim)) (begin end_ : Z) : Z * Z :=
  match fuel with
  | O => (begin, end_)
  | S fuel =>
      if begin <? end_ then
        let '(begin, end_, moved) := pass blocks begin end_ l in
        if moved then stretch fuel blocks l begin end_ else (begin, end_)
      else (begin, end_)
  end.

(** The end of the cell of the 180 KB grid that [begin] is in. *)
Definition gridEnd (partBegin begin : Z) : Z :=
  partBegin + (Z.quot (begin - partBegin) BLOCK_LENGTH + 1) * BLOCK_LENGTH.

(** The outer loop of [claimGaps]. *)
Fixpoint gapsLoop (fuel : nat) (who : Z) (bounds : Range) (limit : Z) (endgame : bool) (now from : Z)
    p (out : list Range) : parts R * list Range :=
  match fuel with
  | O => (p, out)
  | S fuel =>
      if Z.of_nat (length out) <? limit then
        match br_firstGap from bounds.2 (received p) with
        | None => (p, out)
        | Some gap =>
            let '(begin, end_) :=
              stretch (S (length (claims p))) (blocking who endgame now) (claims p) gap.1 gap.2 in
            if end_ <=? begin then gapsLoop fuel who bounds limit endgame now gap.2 p out
            else
              let block := (begin, Z.min end_ (gridEnd bounds.1 begin)) in
              gapsLoop fuel who bounds limit endgame now block.2
                (with_claims p (emplace block.1 (mkClaim block.2 who now) (claims p))) (out ++ [block])
        end
      else (p, out)
  end.

(** The rounds: one per block that may be claimed and one per gap. *)
Definition claimGaps (who index limit : Z) (endgame : bool) (now : Z) p (out : list Range) :
    parts R * list Range :=
  let bounds := part p index in
  gapsLoop (Z.to_nat limit + length (br_ranges (received p)) + 2) who bounds limit endgame now bounds.1 p out.

(** The loop over the candidates. *)
Fixpoint claimLoop (who limit : Z) (endgame : bool) (now : Z) (l : list Candidate) p (out : list Range) :
    parts R * list Range :=
  match l with
  | [] => (p, out)
  | c :: l =>
      if limit <=? Z.of_nat (length out) then (p, out)
      else
        let '(p, out) := claimGaps who (index c) limit endgame now p out in
        claimLoop who limit endgame now l p out
  end.

Definition claim (random : nat -> Z) (who : Z) (available : list bool) (limit : Z) (availability : list Z)
    (preview : bool) (now : Z) p : list Range * parts R :=
  let sorted := sortCandidates
    (candidates p who available availability preview random 0 (indices p)) in
  let '(p', out) := claimLoop who limit false now sorted p [] in
  match out with
  | [] => let '(p'', out) := claimLoop who limit true now sorted p' [] in (out, p'')
  | _ => (out, p')
  end.

(** [claims_.erase] of the first claim of the owner that begins there. *)
Fixpoint eraseClaim (who begin : Z) (l : list (Z * Claim)) : list (Z * Claim) :=
  match l with
  | [] => []
  | (first, c) :: l' =>
      if (first =? begin) && (owner c =? who) then l' else (first, c) :: eraseClaim who begin l'
  end.
Definition release (who : Z) (range : Range) p : parts R :=
  with_claims p (eraseClaim who range.1 (claims p)).

Definition releaseAll (who : Z) p : parts R :=
  with_claims p (filter (fun e => owner e.2 <> who) (claims p)).

Definition claimed (who begin end_ : Z) p : bool :=
  existsb (fun '(first, c) => (owner c =? who) && (first <=? begin) && (end_ <=? cend c)) (claims p).
End parts.

(** ** Lemmas *)

Section stretch.
Context (blocks : Claim -> bool).

Definition first_le (x y : Z * Claim) : Prop := x.1 <= y.1.
(** A byte that a claim with [blocks] is on. *)
Definition takenBy (l : list (Z * Claim)) (x : Z) : Prop :=
  Exists (fun e => blocks e.2 = true /\ e.1 <= x < cend e.2) l.
(** The claims that reach past [begin]. *)
Definition past (begin : Z) (l : list (Z * Claim)) : nat :=
  length (filter (fun e => begin < cend e.2) l).

Lemma pass_moved begin end_ l b e :
  StronglySorted first_le l -> begin < end_ -> pass blocks begin end_ l = (b, e, true) ->
  e = end_ /\ begin < b /\ exists x, x ∈ l /\ blocks x.2 = true /\ x.1 <= begin /\ cend x.2 = b.
Proof.
  revert end_. induction l as [|[first c] l IH]; intros end_ Hs Hlt; cbn [pass]; [done|].
  apply StronglySorted_inv in Hs as [Hs Hf].
  destruct (_ || _ || _) eqn:Hskip.
  - intros E. destruct (IH _ Hs Hlt E) as (? & ? & x & Hin & ?). split_and!; [done..|].
    exists x. split; [by right|done].
  - zprop. destruct (Z.leb_spec first begin).
    + intros [= <- <-]. split_and!; [done|lia|]. exists (first, c). split_and!; [by left|done..].
    + intros E. exfalso. destruct (IH first Hs ltac:(lia) E) as (_ & _ & x & Hin & _ & Hx & _).
      rewrite Forall_forall in Hf. specialize (Hf x Hin). unfold first_le in Hf. simpl in Hf. lia.
Qed.

Lemma pass_stays begin end_ l b e :
  begin < end_ -> pass blocks begin end_ l = (b, e, false) ->
  b = begin /\ begin < e <= end_ /\ forall x, begin <= x < e -> ~ takenBy l x.
Proof.
  revert end_. induction l as [|[first c] l IH]; intros end_ Hlt; cbn [pass].
  { intros [= -> ->]. split_and!; [done|lia|done|]. intros x _ Hx. by apply Exists_nil in Hx. }
  destruct (_ || _ || _) eqn:Hskip; [|destruct (Z.leb_spec first begin); [done|]].
  - intros E. destruct (IH _ Hlt E) as (-> & He & Hn). split_and!; [done|lia..|].
    intros x Hx [[Hb Hin]|Ht]%Exists_cons; [|by apply (Hn x)]. simpl in *.
    rewrite Hb in Hskip. simpl in Hskip. rewrite orb_false_r in Hskip.
    apply orb_true_iff in Hskip as [?|?]; zprop; lia.
  - zprop. intros E. destruct (IH first ltac:(lia) E) as (-> & He & Hn). split_and!; [done|lia..|].
    intros x Hx [[Hb Hin]|Ht]%Exists_cons; [simpl in *; lia|by apply (Hn x)].
Qed.

Lemma past_decreases begin l x :
  x ∈ l -> begin < cend x.2 -> (past (cend x.2) l < past begin l)%nat.
Proof.
  intros Hin Hx. unfold past.
  assert (forall k : list (Z * Claim), length (filter (fun e => cend x.2 < cend e.2)%Z k) <=
    length (filter (fun e => begin < cend e.2)%Z k))%nat as Hle.
  { induction k as [|y k IH]; [done|]. rewrite !filter_cons. repeat case_decide; simpl; lia. }
  induction l as [|y l IH]; [by apply elem_of_nil in Hin|].
  rewrite !filter_cons. specialize (Hle l). apply elem_of_cons in Hin as [->|Hin].
  - rewrite decide_False by lia. rewrite decide_True by lia. simpl. lia.
  - specialize (IH Hin). repeat case_decide; simpl; lia.
Qed.

(** The inner loop finds the first stretch that no claim is on, and an empty
    one if there is none. *)
Lemma stretch_spec fuel l begin end_ b e :
  StronglySorted first_le l -> (past begin l < fuel)%nat ->
  stretch fuel blocks l begin end_ = (b, e) ->
  begin <= b /\ (forall x, begin <= x < b -> takenBy l x) /\ e <= end_ /\
  (b < e -> forall x, b <= x < e -> ~ takenBy l x) /\ (e <= b -> e = end_).
Proof.
  intros Hs. revert begin end_. induction fuel as [|fuel IH]; intros begin end_ Hf; [lia|].
  cbn [stretch]. destruct (Z.ltb_spec begin end_) as [Hlt|Hge].
  2:{ intros [= -> ->]. split_and!; lia || (intros; lia). }
  destruct (pass blocks begin end_ l) as [[b' e'] moved] eqn:E. destruct moved.
  - destruct (pass_moved _ _ _ _ _ Hs Hlt E) as (-> & Hb & x & Hin & Hbl & Hx & <-).
    intros Hr. destruct (IH (cend x.2) end_) as (H1 & H2 & H3 & H4 & H5); [|done|].
    { pose proof (past_decreases begin l x Hin ltac:(lia)). lia. }
    split_and!; [lia| |done..]. intros y Hy.
    destruct (decide (y < cend x.2)); [|apply H2; lia].
    apply Exists_exists. exists x. split; [done|]. split; [done|lia].
  - intros [= <- <-]. destruct (pass_stays _ _ _ _ _ Hlt E) as (-> & He & Hn).
    split_and!; [lia|intros; lia|lia|done|intros; lia].
Qed.
End stretch.

Lemma past_length begin l : (past begin l <= length l)%nat.
Proof. apply length_filter. Qed.

Lemma elem_of_emplace e k c m : e ∈ emplace k c m <-> e = (k, c) \/ e ∈ m.
Proof.
  induction m as [|d m IH]; cbn [emplace]; [set_solver|]. destruct (_ <? _); set_solver.
Qed.
Lemma sorted_emplaceClaim k c m : StronglySorted first_le m -> StronglySorted first_le (emplace k c m).
Proof.
  induction m as [|d m IH]; cbn [emplace]; intros Hs; [repeat constructor|].
  apply StronglySorted_inv in Hs as [Hs Hf]. destruct (Z.ltb_spec k d.1).
  - constructor; [by constructor|]. constructor; [unfold first_le; simpl; lia|].
    eapply Forall_impl; [exact Hf|]. unfold first_le. simpl. lia.
  - constructor; [by apply IH|]. apply Forall_forall. intros e He.
    apply elem_of_emplace in He as [->|He]; [done|]. rewrite Forall_forall in Hf. by apply Hf.
Qed.

Section claims.
Context {R : Type} `{ByteRanges R, !ByteRangesLaws R}.
Implicit Types (p q : parts R).

(** [q] is [p] with the blocks [new] claimed. *)
Definition claimedMore (who now : Z) (new : list Range) p q : Prop :=
  size q = size p /\ verified q = verified p /\ received q = received p /\
  (StronglySorted first_le (claims p) -> StronglySorted first_le (claims q)) /\
  forall e, e ∈ claims q <-> e ∈ claims p \/ exists r, r ∈ new /\ e = (r.1, mkClaim r.2 who now).

Lemma claimedMore_nil who now p : claimedMore who now [] p p.
Proof. unfold claimedMore. split_and!; [done..|]. intros e. set_solver. Qed.

Lemma claimedMore_trans who now new more p q r :
  claimedMore who now new p q -> claimedMore who now more q r -> claimedMore who now (new ++ more) p r.
Proof.
  intros (? & ? & ? & ? & Hq) (? & ? & ? & ? & Hr). unfold claimedMore. split_and!; [congruence..|auto|].
  intros e. rewrite Hr, Hq. set_solver.
Qed.

Lemma claimedMore_one who now p (r : Range) :
  claimedMore who now [r] p (with_claims p (emplace r.1 (mkClaim r.2 who now) (claims p))).
Proof.
  unfold claimedMore. cbn. split_and!; [done..|apply sorted_emplaceClaim|].
  intros e. rewrite elem_of_emplace. set_solver.
Qed.

Lemma taken_more who now new p q blocks x :
  claimedMore who now new p q -> takenBy blocks (claims p) x -> takenBy blocks (claims q) x.
Proof.
  intros (_ & _ & _ & _ & Hq). unfold takenBy. rewrite !Exists_exists. intros (e & Hin & He).
  exists e. split; [|done]. apply Hq. by left.
Qed.

(** What a block that is claimed in a part satisfies. *)
Definition block_ok (who : Z) (endgame : bool) (now : Z) (bounds : Range) p (r : Range) : Prop :=
  bounds.1 <= r.1 /\ r.1 < r.2 /\ r.2 <= bounds.2 /\ r.2 <= gridEnd bounds.1 r.1 /\
  forall x, r.1 <= x < r.2 ->
    ~ covers (received p) x /\ ~ takenBy (blocking who endgame now) (claims p) x.

Lemma block_ok_less who endgame now new bounds p q r :
  claimedMore who now new p q -> block_ok who endgame now bounds q r -> block_ok who endgame now bounds p r.
Proof.
  intros Hq (? & ? & ? & ? & Hx). pose proof Hq as (_ & _ & Hrec & _).
  unfold block_ok. split_and!; [done..|]. intros x Hin. destruct (Hx x Hin) as [Hc Ht].
  rewrite Hrec in Hc. split; [done|]. contradict Ht. by eapply taken_more.
Qed.

Lemma gridEnd_after b x : b <= x -> x < gridEnd b x.
Proof.
  intros Hle. unfold gridEnd. rewrite Z.quot_div_nonneg by (unfold BLOCK_LENGTH; lia).
  pose proof (Z.div_mod (x - b) BLOCK_LENGTH). pose proof (Z.mod_pos_bound (x - b) BLOCK_LENGTH).
  unfold BLOCK_LENGTH in *. lia.
Qed.

(** All missing bytes of a range are taken. *)
Definition exhausted (who : Z) (endgame : bool) (now : Z) (r : Range) p : Prop :=
  forall x, r.1 <= x < r.2 -> ~ covers (received p) x -> takenBy (blocking who endgame now) (claims p) x.

(** What a loop that claims blocks in [bounds] from [from] on has done. *)
Definition gaps_done (who limit : Z) (endgame : bool) (now from : Z) (bounds : Range) p out q out' : Prop :=
  exists new, out' = out ++ new /\ claimedMore who now new p q /\
    Forall (fun r => block_ok who endgame now bounds p r /\ from <= r.1) new /\
    StronglySorted (fun r s => r.2 <= s.1) new /\
    (Z.of_nat (length out') < limit -> exhausted who endgame now (from, bounds.2) q).

Lemma gaps_done_skip who limit endgame now from bounds p out q out' gap :
  br_ok (received p) -> br_firstGap from bounds.2 (received p) = Some gap ->
  (forall x, gap.1 <= x < gap.2 -> takenBy (blocking who endgame now) (claims p) x) ->
  gaps_done who limit endgame now gap.2 bounds p out q out' ->
  gaps_done who limit endgame now from bounds p out q out'.
Proof.
  intros Hok Hg Ht (new & -> & Hq & Hb & Hs & He).
  destruct (firstGap_some _ _ _ _ Hok Hg) as (Hf & Hlt & Hle & Hbefore & _).
  exists new. split_and!; [done|done| |done|].
  - eapply Forall_impl; [exact Hb|]. intros r [? ?]. split; [done|lia].
  - intros Hl x Hx Hn. simpl in Hx. destruct (decide (x < gap.2)) as [Hxg|]; [|apply (He Hl); [simpl; lia|done]].
    eapply taken_more; [done|]. apply Ht. split; [|done]. apply Z.le_ngt. intros Hc. apply Hn.
    destruct Hq as (_ & _ & -> & _). apply Hbefore. lia.
Qed.

Lemma gaps_done_block who limit endgame now from bounds p out q out' gap b e :
  br_ok (received p) -> StronglySorted first_le (claims p) -> bounds.1 <= from ->
  br_firstGap from bounds.2 (received p) = Some gap ->
  stretch (S (length (claims p))) (blocking who endgame now) (claims p) gap.1 gap.2 = (b, e) -> b < e ->
  let block := (b, Z.min e (gridEnd bounds.1 b)) in
  gaps_done who limit endgame now block.2 bounds
    (with_claims p (emplace b (mkClaim block.2 who now) (claims p))) (out ++ [block]) q out' ->
  gaps_done who limit endgame now from bounds p out q out'.
Proof.
  intros Hok Hs Hfrom Hg Hst Hbe block (new & -> & Hq & Hb & Hsn & He).
  destruct (firstGap_some _ _ _ _ Hok Hg) as (Hf & Hlt & Hle & Hbefore & Hin & _).
  destruct (stretch_spec _ _ _ _ _ _ _ Hs (proj2 (Nat.lt_succ_r _ _) (past_length _ _)) Hst)
    as (H1 & H2 & H3 & H4 & _).
  pose proof (gridEnd_after bounds.1 b ltac:(lia)) as Hgrid.
  pose proof (claimedMore_one who now p block) as Hone. cbn [fst] in Hone.
  exists (block :: new). rewrite <- app_assoc in *. split_and!; [done| | | |].
  - by apply (claimedMore_trans who now [block] new _ _ _ Hone).
  - constructor.
    + split; [|simpl; lia]. subst block. unfold block_ok. simpl. split_and!; [lia..|].
      intros x Hx. split; [apply Hin; lia|apply H4; lia].
    + eapply Forall_impl; [exact Hb|]. intros r [Hr ?]. split; [by eapply block_ok_less|].
      subst block. simpl in *. lia.
  - constructor; [done|]. eapply Forall_impl; [exact Hb|]. by intros r [_ ?].
  - intros Hl x Hx Hn. simpl in Hx. destruct (decide (x < block.2)) as [Hxb|].
    2:{ apply (He Hl); [simpl in *; lia|done]. }
    assert (gap.1 <= x).
    { apply Z.le_ngt. intros Hc. apply Hn. destruct Hq as (_ & _ & -> & _). apply Hbefore. lia. }
    eapply taken_more; [exact Hq|]. destruct (decide (x < b)).
    + eapply taken_more; [exact Hone|]. apply H2. lia.
    + apply Exists_exists. exists (b, mkClaim block.2 who now). split.
      * apply elem_of_emplace. by left.
      * simpl. unfold blocking. simpl. rewrite Z.eqb_refl. split; [done|]. simpl in Hxb. lia.
Qed.

Lemma gapsLoop_spec fuel who limit endgame now bounds : forall from p out,
  br_ok (received p) -> StronglySorted first_le (claims p) -> bounds.1 <= from ->
  (Z.to_nat (limit - Z.of_nat (length out)) + begins_after (received p) from + 2 <= fuel)%nat \/
    (bounds.2 <= from /\ (1 <= fuel)%nat) ->
  let r := gapsLoop fuel who bounds limit endgame now from p out in
  gaps_done who limit endgame now from bounds p out r.1 r.2.
Proof.
  induction fuel as [|fuel IH]; intros from p out Hok Hs Hfrom Hfuel; [lia|]. cbn [gapsLoop].
  assert (forall Hx : Z.of_nat (length out) < limit -> exhausted who endgame now (from, bounds.2) p,
    gaps_done who limit endgame now from bounds p out p out) as Hstop.
  { intros Hx. exists []. rewrite app_nil_r. split_and!; [done|apply claimedMore_nil|constructor|constructor|done]. }
  destruct (Z.ltb_spec (Z.of_nat (length out)) limit) as [Hl|]; [|apply Hstop; intros; lia].
  destruct (br_firstGap from bounds.2 (received p)) as [gap|] eqn:Hg.
  2:{ apply Hstop. intros _ x Hx Hn. destruct Hn. by apply (firstGap_none _ _ _ Hok Hg). }
  destruct (firstGap_some _ _ _ _ Hok Hg) as (Hf & Hlt & Hle & _ & _ & Hend).
  destruct Hfuel as [Hfuel|]; [|lia].
  destruct (stretch _ _ _ _ _) as [b e] eqn:Hst.
  destruct (stretch_spec _ _ _ _ _ _ _ Hs (proj2 (Nat.lt_succ_r _ _) (past_length _ _)) Hst)
    as (H1 & H2 & H3 & _ & H5).
  destruct (Z.leb_spec e b) as [Heb|Hbe].
  - eapply gaps_done_skip; [done|done| |apply IH; [done|done|lia|]].
    + intros x Hx. apply H2. specialize (H5 Heb). lia.
    + destruct Hend as [->|[_ Hin]]; [right; lia|left].
      pose proof (filter_lt_decreases from gap.2 _ ltac:(lia) Hin). unfold begins_after in *. lia.
  - pose proof (gridEnd_after bounds.1 b ltac:(lia)) as Hgrid.
    eapply gaps_done_block; [done|done|done|done|done|done|]. cbn zeta.
    apply IH; [done|by apply sorted_emplaceClaim|simpl; lia|left].
    rewrite length_app. cbn [length received with_claims snd].
    pose proof (begins_after_mono (received p) from (Z.min e (gridEnd bounds.1 b)) ltac:(lia)). lia.
Qed.

Lemma gapsLoop_length fuel who limit endgame now bounds : forall from p out,
  Z.of_nat (length out) <= limit ->
  Z.of_nat (length (gapsLoop fuel who bounds limit endgame now from p out).2) <= limit.
Proof.
  induction fuel as [|fuel IH]; intros from p out Hl; cbn [gapsLoop]; [done|].
  destruct (Z.ltb_spec (Z.of_nat (length out)) limit); [|done].
  destruct (br_firstGap _ _ _) as [gap|]; [|done]. destruct (stretch _ _ _ _ _) as [b e].
  destruct (_ <=? _); apply IH; [done|]. rewrite length_app. simpl. lia.
Qed.

Lemma claimGaps_spec who index limit endgame now p out :
  br_ok (received p) -> StronglySorted first_le (claims p) ->
  let r := claimGaps who index limit endgame now p out in
  gaps_done who limit endgame now (part p index).1 (part p index) p out r.1 r.2.
Proof.
  intros Hok Hs. apply gapsLoop_spec; [done|done|lia|left].
  pose proof (begins_after_le (received p) (part p index).1). lia.
Qed.

Definition disjoint (r s : Range) : Prop := r.2 <= s.1 \/ s.2 <= r.1.

(** A block that is claimed later keeps off the blocks claimed before. *)
Lemma block_after who endgame now new bounds p q (r s : Range) :
  claimedMore who now new p q -> r ∈ new -> r.1 < r.2 -> block_ok who endgame now bounds q s -> disjoint r s.
Proof.
  intros (_ & _ & _ & _ & Hq) Hr Hlt (_ & Hs & _ & _ & Hx). unfold disjoint.
  destruct (decide (r.2 <= s.1 \/ s.2 <= r.1)) as [|Hn]; [done|]. exfalso.
  destruct (Hx (Z.max r.1 s.1) ltac:(lia)) as [_ Ht]. apply Ht, Exists_exists.
  exists (r.1, mkClaim r.2 who now). split; [apply Hq; right; by exists r|].
  unfold blocking. simpl. rewrite Z.eqb_refl. split; [done|lia].
Qed.

Lemma exhausted_more who endgame now new r p q :
  claimedMore who now new p q -> exhausted who endgame now r p -> exhausted who endgame now r q.
Proof.
  intros Hq He x Hx Hn. eapply taken_more; [done|]. apply He; [done|].
  by destruct Hq as (_ & _ & <- & _).
Qed.

Lemma exhausted_back who endgame now r p q :
  claimedMore who now [] p q -> exhausted who endgame now r q -> exhausted who endgame now r p.
Proof.
  intros (_ & _ & Hrec & _ & Hcl) He x Hx Hn. unfold exhausted, takenBy in *. rewrite Hrec in He.
  specialize (He x Hx Hn). rewrite !Exists_exists in *. destruct He as (e & Hin & ?).
  exists e. split; [|done]. apply Hcl in Hin. set_solver.
Qed.

Lemma part_same p q i : size q = size p -> part q i = part p i.
Proof. unfold part. by intros ->. Qed.

(** What the loop over the candidates has done. *)
Definition loop_done (who limit : Z) (endgame : bool) (now : Z) (l : list Candidate) p out q out' : Prop :=
  exists new, out' = out ++ new /\ claimedMore who now new p q /\
    Forall (fun r => exists c, c ∈ l /\ block_ok who endgame now (part p (index c)) p r) new /\
    StronglySorted disjoint new /\
    (Z.of_nat (length out') < limit ->
     forall c, c ∈ l -> exhausted who endgame now (part p (index c)) q).

Lemma loop_done_cons who limit endgame now c l p out p1 out1 q out' :
  gaps_done who limit endgame now (part p (index c)).1 (part p (index c)) p out p1 out1 ->
  loop_done who limit endgame now l p1 out1 q out' ->
  loop_done who limit endgame now (c :: l) p out q out'.
Proof.
  intros (new & -> & Hp1 & Hb & Hs & He) (more & -> & Hq & Hb' & Hs' & He').
  assert (Hsize : size p1 = size p) by apply Hp1.
  exists (new ++ more). rewrite <- app_assoc in *. split_and!; [done|by eapply claimedMore_trans| | |].
  - apply Forall_app. split.
    + eapply Forall_impl; [exact Hb|]. intros r [Hr _]. exists c. split; [by left|done].
    + eapply Forall_impl; [exact Hb'|]. intros r (d & Hd & Hr). exists d. split; [by right|].
      rewrite (part_same p p1) in Hr by done. by eapply block_ok_less.
  - apply StronglySorted_app. split_and!; [|eapply StronglySorted_impl; [|exact Hs]|done].
    + intros r s Hr Hr'. rewrite Forall_forall in Hb, Hb'. destruct (Hb r Hr) as [(_ & ? & _) _].
      destruct (Hb' s Hr') as (d & _ & Hok). eapply block_after; [exact Hp1|exact Hr|done|exact Hok].
    + intros r s ?. by left.
  - intros Hl d [->|Hd]%elem_of_cons.
    + eapply exhausted_more; [exact Hq|]. apply He. rewrite !length_app in *. lia.
    + rewrite <- (part_same p p1) by done. by apply He'.
Qed.

Lemma claimLoop_spec who limit endgame now l : forall p out,
  br_ok (received p) -> StronglySorted first_le (claims p) ->
  let r := claimLoop who limit endgame now l p out in loop_done who limit endgame now l p out r.1 r.2.
Proof.
  induction l as [|c l IH]; intros p out Hok Hs; cbn [claimLoop].
  { exists []. rewrite app_nil_r. split_and!; [done|apply claimedMore_nil|constructor|constructor|set_solver]. }
  destruct (Z.leb_spec limit (Z.of_nat (length out))).
  { exists []. rewrite app_nil_r. split_and!; [done|apply claimedMore_nil|constructor|constructor|simpl; lia]. }
  pose proof (claimGaps_spec who (index c) limit endgame now p out Hok Hs) as Hg. cbn zeta in Hg.
  destruct (claimGaps _ _ _ _ _ _ _) as [p1 out1]. eapply loop_done_cons; [exact Hg|].
  destruct Hg as (new & _ & (_ & _ & Hrec & Hsort & _) & _). cbn in Hrec, Hsort. apply IH; [by rewrite Hrec|by apply Hsort].
Qed.

Lemma claimLoop_length who limit endgame now l : forall p out,
  Z.of_nat (length out) <= limit -> Z.of_nat (length (claimLoop who limit endgame now l p out).2) <= limit.
Proof.
  induction l as [|c l IH]; intros p out Hl; cbn [claimLoop]; [done|]. destruct (_ <=? _); [done|].
  unfold claimGaps. pose proof (gapsLoop_length (Z.to_nat limit + length (br_ranges (received p)) + 2)
    who limit endgame now (part p (index c)) (part p (index c)).1 p out Hl) as H1.
  destruct (gapsLoop _ _ _ _ _ _ _ _ _) as [p1 out1]. by apply IH.
Qed.

(** *** Candidates *)

Lemma elem_of_insertCandidate c d l : c ∈ insertCandidate d l <-> c = d \/ c ∈ l.
Proof.
  induction l as [|e l IH]; cbn [insertCandidate]; [set_solver|]. destruct (rank_ltb _ _); set_solver.
Qed.
Lemma elem_of_sortCandidates c l : c ∈ sortCandidates l <-> c ∈ l.
Proof.
  induction l as [|d l IH]; [done|]. cbn [sortCandidates foldr]. rewrite elem_of_insertCandidate.
  fold (sortCandidates l). rewrite IH. set_solver.
Qed.

Lemma elem_of_candidates p who available availability preview random i l : forall drawn,
  (exists c, c ∈ candidates p who available availability preview random drawn l /\ index c = i) <->
  i ∈ l /\ needed p available i = true.
Proof.
  induction l as [|j l IH]; intros drawn; cbn [candidates].
  { split; [intros (c & H1 & _)|intros [H1 _]]; by apply elem_of_nil in H1. }
  destruct (needed p available j) eqn:Hj.
  - split.
    + intros (c & [->|Hc]%elem_of_cons & Hi); [simpl in Hi; subst; split; [by left|done]|].
      destruct (proj1 (IH (S drawn))) as [? ?]; [by exists c|]. split; [by right|done].
    + intros [[->|Hi]%elem_of_cons Hn]; [eexists; split; [by left|done]|].
      destruct (proj2 (IH (S drawn)) (conj Hi Hn)) as (c & Hc & ?). exists c. split; [by right|done].
  - rewrite IH. split; [|intros [[->|Hi]%elem_of_cons Hn]; [congruence|done]].
    intros [Hi Hn]. split; [by right|done].
Qed.

Lemma elem_of_indices p i : i ∈ indices p <-> 0 <= i < count p.
Proof. unfold indices. rewrite elem_of_seqZ. unfold count. lia. Qed.

(** *** The invariant *)

Definition parts_ok p : Prop :=
  br_ok (received p) /\ 0 < size p /\ count p = (size p + PIECE_LENGTH - 1) / PIECE_LENGTH /\
  (forall x, covers (received p) x -> 0 <= x < size p) /\
  (forall i x, 0 <= i -> isVerified p i = Some true -> inside x (part p i) -> covers (received p) x) /\
  StronglySorted first_le (claims p) /\ Forall (fun e => 0 <= e.1 /\ e.1 < cend e.2 <= size p) (claims p).

Lemma isVerified_in p i : 0 <= i < count p -> exists v, isVerified p i = Some v.
Proof. intros Hi. unfold isVerified, count in *. apply lookup_lt_is_Some. lia. Qed.
Lemma isVerified_range p i v : 0 <= i -> isVerified p i = Some v -> 0 <= i < count p.
Proof. intros H0 Hv. apply lookup_lt_Some in Hv. unfold count. lia. Qed.

Lemma partOf_range p x : parts_ok p -> 0 <= x < size p -> 0 <= partOf x < count p.
Proof.
  intros (_ & _ & -> & _) Hx. unfold partOf. rewrite Z.quot_div_nonneg by (unfold PIECE_LENGTH; lia).
  split; [apply Z.div_pos; unfold PIECE_LENGTH; lia|].
  apply Z.div_lt_upper_bound; [done|]. pose proof (Z.div_mod (size p + PIECE_LENGTH - 1) PIECE_LENGTH).
  pose proof (Z.mod_pos_bound (size p + PIECE_LENGTH - 1) PIECE_LENGTH). unfold PIECE_LENGTH in *. lia.
Qed.
Lemma part_bounds p i : parts_ok p -> 0 <= i < count p -> 0 <= (part p i).1 < (part p i).2 /\ (part p i).2 <= size p.
Proof.
  intros (_ & _ & Hc & _) Hi. rewrite Hc in Hi. unfold part. simpl.
  pose proof (Z.div_mod (size p + PIECE_LENGTH - 1) PIECE_LENGTH).
  pose proof (Z.mod_pos_bound (size p + PIECE_LENGTH - 1) PIECE_LENGTH). unfold PIECE_LENGTH in *. lia.
Qed.

Lemma parts_create_ok size_ : 0 < size_ -> parts_ok (create size_).
Proof.
  intros Hs. unfold parts_ok, create. simpl. split_and!; [apply ok_empty|done| | | |constructor|constructor].
  - unfold count. simpl. rewrite length_replicate, Z.quot_div_nonneg by (unfold PIECE_LENGTH; lia).
    apply Z2Nat.id, Z.div_pos; unfold PIECE_LENGTH; lia.
  - intros x Hx. by apply covers_empty in Hx.
  - unfold isVerified. simpl. intros i x _ Hv. apply lookup_replicate in Hv as [? _]. done.
Qed.

Lemma received_ok p b e :
  parts_ok p -> 0 <= b -> e <= size p -> parts_ok (with_received p (br_add b e (received p))).
Proof.
  intros (Hok & Hs & Hc & Hcov & Hv & Hso & Hcl) Hb He. unfold parts_ok. simpl.
  split_and!; [by apply ok_add|done|done| | |done|done].
  - intros x [Hx|Hx]%covers_add; [auto|lia|done].
  - intros i x H0 Hi Hx. apply covers_add; [done|]. left. by eapply Hv.
Qed.

Lemma firstFilled_spec p l :
  (forall i, i ∈ l -> 0 <= i < count p) ->
  exists r, firstFilled p l = Some r /\
    match r with
    | Some i => i ∈ l /\ isVerified p i = Some false /\ filled p i = true
    | None => forall i, i ∈ l -> isVerified p i = Some false -> filled p i = false
    end.
Proof.
  induction l as [|j l IH]; intros Hl; cbn [firstFilled].
  { exists None. split; [done|]. intros i Hi. by apply elem_of_nil in Hi. }
  destruct (isVerified_in p j) as [v Hv]; [apply Hl; by left|]. rewrite Hv. cbn [mbind option_bind].
  destruct (negb v && filled p j) eqn:E.
  - apply andb_true_iff in E as [E Hf]. destruct v; [done|]. exists (Some j). split_and!; [done|by left|done..].
  - destruct IH as (r & -> & Hr); [intros i Hi; apply Hl; by right|]. exists r. split; [done|].
    destruct r as [i|]; [destruct Hr as (? & ? & ?); split_and!; [by right|done..]|].
    intros i [->|Hi]%elem_of_cons Hi'; [|by apply Hr]. rewrite Hv in Hi'. simplify_eq. done.
Qed.

Lemma verify_ok i p : parts_ok p -> 0 <= i < count p -> exists q, verify i p = Some q /\ parts_ok q.
Proof.
  intros Hp Hi. destruct (isVerified_in p i Hi) as [v Hv]. unfold verify. rewrite Hv. cbn.
  eexists. split; [done|]. pose proof (part_bounds p i Hp Hi) as Hb. unfold part in Hb. simpl in Hb.
  destruct Hp as (Hok & Hs & Hc & Hcov & Hver & Hso & Hcl). unfold parts_ok. simpl.
  split_and!; [by apply ok_add|done|unfold count in *; simpl; by rewrite length_insert| | |done|done].
  - intros x [Hx|Hx]%covers_add; [auto|lia|done].
  - intros j x H0 Hj Hx. apply covers_add; [done|]. destruct (decide (j = i)) as [->|Hne].
    + right. exact Hx.
    + left. eapply Hver; [done| |exact Hx]. unfold isVerified in *. simpl in Hj.
      rewrite list_lookup_insert_ne in Hj by lia. done.
Qed.

Lemma parts_apart p i j x : 0 <= i -> 0 <= j -> inside x (part p i) -> inside x (part p j) -> i = j.
Proof. unfold inside, part, PIECE_LENGTH. simpl. lia. Qed.

Lemma reject_ok i p : parts_ok p -> 0 <= i < count p -> exists q, reject i p = Some q /\ parts_ok q.
Proof.
  intros Hp Hi. destruct (isVerified_in p i Hi) as [v Hv]. unfold reject. rewrite Hv. cbn.
  eexists. split; [done|]. destruct Hp as (Hok & Hs & Hc & Hcov & Hver & Hso & Hcl). unfold parts_ok. simpl.
  split_and!; [by apply ok_remove|done|unfold count in *; simpl; by rewrite length_insert| | |done|done].
  - intros x [Hx _]%covers_remove; auto.
  - intros j x H0 Hj Hx. unfold isVerified in Hj. simpl in Hj.
    destruct (decide (j = i)) as [->|Hne].
    { rewrite list_lookup_insert_eq in Hj; [done|]. unfold count in Hi. lia. }
    rewrite list_lookup_insert_ne in Hj by lia. apply covers_remove; [done|]. split; [by eapply Hver|].
    intros Hx'. apply Hne. apply (parts_apart p j i x); [done|lia|exact Hx|exact Hx'].
Qed.

Lemma claimedMore_ok who now new p q :
  parts_ok p -> claimedMore who now new p q -> Forall (fun r => 0 <= r.1 /\ r.1 < r.2 <= size p) new -> parts_ok q.
Proof.
  intros (Hok & Hs & Hc & Hcov & Hver & Hso & Hcl) (E1 & E2 & E3 & Hso' & Hq) Hn.
  unfold parts_ok, count, isVerified, part in *. rewrite E1, E2, E3. split_and!; [done..|by apply Hso'|].
  apply Forall_forall. intros e He. rewrite Forall_forall in Hcl. rewrite Forall_forall in Hn.
  apply Hq in He as [He|(r & Hr & ->)]; [by apply Hcl|]. simpl. by apply Hn.
Qed.

Lemma fewer_claims_ok p l :
  parts_ok p -> l ⊆ claims p -> StronglySorted first_le l -> parts_ok (with_claims p l).
Proof.
  intros (Hok & Hs & Hc & Hcov & Hver & Hso & Hcl) Hl Hsl. unfold parts_ok. simpl. split_and!; [done..|].
  apply Forall_forall. intros e He. rewrite Forall_forall in Hcl. by apply Hcl, Hl.
Qed.
Lemma elem_of_eraseClaim who b l e : e ∈ eraseClaim who b l -> e ∈ l.
Proof. induction l as [|[f c] l IH]; cbn [eraseClaim]; [done|]. destruct (_ && _); set_solver. Qed.
Lemma sorted_eraseClaim who b l : StronglySorted first_le l -> StronglySorted first_le (eraseClaim who b l).
Proof.
  induction 1 as [|[f c] l Hs IH Hf]; cbn [eraseClaim]; [constructor|]. destruct (_ && _); [done|].
  constructor; [done|]. rewrite Forall_forall in *. intros e He. apply Hf. by eapply elem_of_eraseClaim.
Qed.
Lemma sorted_filter (P : Z * Claim -> Prop) `{forall x, Decision (P x)} l :
  StronglySorted first_le l -> StronglySorted first_le (filter P l).
Proof.
  induction 1 as [|e l Hs IH Hf]; [constructor|]. rewrite filter_cons. case_decide; [|done].
  constructor; [done|]. rewrite Forall_forall in *. intros d [_ Hd]%list_elem_of_filter. by apply Hf.
Qed.

(** What [claim] has done: a loop over all parts that are needed, which
    repeats claims only if the first found nothing. *)
Lemma claim_spec random who available limit availability preview now p out q :
  parts_ok p -> claim random who available limit availability preview now p = (out, q) ->
  claimedMore who now out p q /\ StronglySorted disjoint out /\
  exists endgame,
    (forall r, r ∈ out -> exists i, 0 <= i < count p /\ needed p available i = true /\
       block_ok who endgame now (part p i) p r) /\
    (endgame = true -> 0 < limit -> forall i, 0 <= i < count p -> needed p available i = true ->
       exhausted who false now (part p i) p) /\
    (out = [] -> 0 < limit -> forall i, 0 <= i < count p -> needed p available i = true ->
       exhausted who true now (part p i) p).
Proof.
  intros (Hok & _ & _ & _ & _ & Hs & _). unfold claim.
  set (l := sortCandidates _).
  assert (Hl : forall i, (exists c, c ∈ l /\ index c = i) <-> 0 <= i < count p /\ needed p available i = true).
  { intros i. rewrite <- elem_of_indices. unfold l. setoid_rewrite elem_of_sortCandidates.
    apply elem_of_candidates. }
  assert (Hblocks : forall endgame p' new, Forall (fun r => exists c, c ∈ l /\ block_ok who endgame now (part p' (index c)) p r) new ->
    size p' = size p -> forall r, r ∈ new -> exists i, 0 <= i < count p /\ needed p available i = true /\ block_ok who endgame now (part p i) p r).
  { intros endgame p' new Hb Hsz r Hr. rewrite Forall_forall in Hb. destruct (Hb r Hr) as (c & Hc & Hbl).
    destruct (proj1 (Hl (index c))) as [? ?]; [by exists c|]. exists (index c).
    rewrite <- (part_same p p') by done. done. }
  pose proof (claimLoop_spec who limit false now l p [] Hok Hs) as (new & E & Hp' & Hb & Hd & He).
  destruct (claimLoop who limit false now l p []) as [p' out'] eqn:El. cbn [fst snd app] in *. subst out'.
  destruct new as [|r new]; [|intros [= <- <-]; split_and!; [done|done|]; exists false; split_and!; [by eapply Hblocks|done|done]].
  assert (Hback : forall endgame q', claimedMore who now [] p q' ->
    (forall c, c ∈ l -> exhausted who endgame now (part p (index c)) q') ->
    forall i, 0 <= i < count p -> needed p available i = true -> exhausted who endgame now (part p i) p).
  { intros endgame q' Hq' Hx i Hi Hn. destruct (proj2 (Hl i) (conj Hi Hn)) as (c & Hc & <-).
    eapply exhausted_back; [exact Hq'|]. by apply Hx. }
  pose proof Hp' as (Hsz & _ & Hrec & Hsort & _).
  pose proof (claimLoop_spec who limit true now l p' [] ltac:(by rewrite Hrec) (Hsort Hs)) as (new & E & Hq & Hb' & Hd' & He').
  destruct (claimLoop who limit true now l p' []) as [q' out'] eqn:El'. cbn [fst snd app] in *. subst out'.
  pose proof (claimedMore_trans who now [] new p p' q' Hp' Hq) as Hq'.
  intros [= <- <-]. split_and!; [done|done|]. exists true. split_and!.
  - apply (Hblocks true p'); [|done]. eapply Forall_impl; [exact Hb'|].
    intros r (c & Hc & Hbl). exists c. split; [done|]. eapply block_ok_less; [exact Hp'|exact Hbl].
  - intros _ Hlim. by apply (Hback false p' Hp'), He.
  - intros -> Hlim. apply (Hback true q' Hq'). intros c Hc. rewrite <- (part_same p p') by done. by apply He'.
Qed.

(** The claims that are added, in any order. *)
Definition newClaims (who now : Z) (new : list Range) : list (Z * Claim) :=
  (fun r => (r.1, mkClaim r.2 who now)) <$> new.
Lemma emplace_perm k c m : emplace k c m ≡ₚ (k, c) :: m.
Proof. induction m as [|e m IH]; cbn [emplace]; [done|]. destruct (_ <? _); [done|]. rewrite IH. apply perm_swap. Qed.
Lemma gapsLoop_perm fuel who bounds limit endgame now : forall from p out q out',
  gapsLoop fuel who bounds limit endgame now from p out = (q, out') ->
  exists new, out' = out ++ new /\ claims q ≡ₚ newClaims who now new ++ claims p.
Proof.
  induction fuel as [|fuel IH]; intros from p out q out'; cbn [gapsLoop].
  { intros [= <- <-]. exists []. by rewrite app_nil_r. }
  destruct (_ <? _); [|intros [= <- <-]; exists []; by rewrite app_nil_r].
  destruct (br_firstGap _ _ _) as [gap|]; [|intros [= <- <-]; exists []; by rewrite app_nil_r].
  destruct (stretch _ _ _ _ _) as [b e]. destruct (_ <=? _); [apply IH|]. cbn [fst snd].
  intros (new & -> & Hc)%IH. eexists (_ :: new). split; [by rewrite <- app_assoc|].
  rewrite Hc. cbn [claims with_claims]. rewrite emplace_perm. unfold newClaims. rewrite fmap_cons. cbn [fst snd].
  by rewrite <- Permutation_middle.
Qed.
Lemma claimLoop_perm who limit endgame now l : forall p out q out',
  claimLoop who limit endgame now l p out = (q, out') ->
  exists new, out' = out ++ new /\ claims q ≡ₚ newClaims who now new ++ claims p.
Proof.
  induction l as [|c l IH]; intros p out q out'; cbn [claimLoop].
  { intros [= <- <-]. exists []. by rewrite app_nil_r. }
  destruct (_ <=? _); [intros [= <- <-]; exists []; by rewrite app_nil_r|].
  destruct (claimGaps _ _ _ _ _ _ _) as [p1 out1] eqn:E. unfold claimGaps in E.
  apply gapsLoop_perm in E as (n1 & -> & H1). intros (n2 & -> & H2)%IH. exists (n1 ++ n2).
  split; [by rewrite app_assoc|]. unfold newClaims in *. rewrite H2, H1, fmap_app. solve_Permutation.
Qed.
Lemma claim_perm random who available limit availability preview now p out q :
  claim random who available limit availability preview now p = (out, q) ->
  claims q ≡ₚ newClaims who now out ++ claims p.
Proof.
  unfold claim. destruct (claimLoop who limit false now _ p []) as [p1 out1] eqn:E1.
  apply claimLoop_perm in E1 as (n1 & -> & H1). rewrite app_nil_l. destruct n1 as [|r n1]; [|intros [= <- <-]; done].
  destruct (claimLoop who limit true now _ p1 []) as [p2 out2] eqn:E2.
  apply claimLoop_perm in E2 as (n2 & -> & H2). rewrite app_nil_l. intros [= <- <-]. by rewrite H2, H1.
Qed.

Lemma claim_length random who available limit availability preview now p out q :
  0 <= limit -> claim random who available limit availability preview now p = (out, q) ->
  Z.of_nat (length out) <= limit.
Proof.
  intros Hl. unfold claim. set (l := sortCandidates _).
  pose proof (claimLoop_length who limit false now l p [] Hl) as H1.
  destruct (claimLoop who limit false now l p []) as [p' [|r out']]; [|by intros [= <- <-]].
  pose proof (claimLoop_length who limit true now l p' [] Hl) as H2.
  destruct (claimLoop who limit true now l p' []) as [p'' out'']. by intros [= <- <-].
Qed.
Lemma claim_needs_limit random who available limit availability preview now p out q r :
  claim random who available limit availability preview now p = (out, q) -> r ∈ out -> 0 < limit.
Proof.
  intros E Hr. destruct (Z_le_gt_dec limit 0) as [Hl|]; [|lia]. exfalso.
  assert (forall l endgame, claimLoop who limit endgame now l p [] = (p, [])) as Hn.
  { intros [|c l] endgame; [done|]. cbn [claimLoop length]. by rewrite (proj2 (Z.leb_le _ _)) by (simpl; lia). }
  unfold claim in E. rewrite !Hn in E. simplify_eq. by apply elem_of_nil in Hr.
Qed.

Lemma taken_elim blocks l x :
  takenBy blocks l x -> exists first c, (first, c) ∈ l /\ blocks c = true /\ first <= x < cend c.
Proof. intros ([first c] & Hin & ? & ?)%Exists_exists. by exists first, c. Qed.
Lemma taken_intro (blocks : Claim -> bool) l x first c :
  (first, c) ∈ l -> blocks c = true -> first <= x < cend c -> takenBy blocks l x.
Proof. intros Hin Hb Hx. apply Exists_exists. by exists (first, c). Qed.
Lemma blocking_endgame who now c :
  blocking who true now c = true <-> owner c = who \/ now - since c < duplicateAfter.
Proof. unfold blocking. rewrite orb_false_r, orb_true_iff, Z.eqb_eq, Z.ltb_lt. done. Qed.
Lemma blocking_weaken who endgame now c : blocking who true now c = true -> blocking who endgame now c = true.
Proof. unfold blocking. destruct endgame, (owner c =? who); done || (intros; by rewrite ?orb_true_r). Qed.

Lemma needed_missing p available i :
  br_ok (received p) -> needed p available i = true -> exists x, inside x (part p i) /\ ~ covers (received p) x.
Proof.
  intros Hok Hn. unfold needed in Hn. zprop. destruct (br_firstGap (part p i).1 (part p i).2 (received p)) as [g|] eqn:Hg.
  - destruct (firstGap_some _ _ _ _ Hok Hg) as (? & ? & ? & _ & Hx & _). exists g.1.
    split; [unfold inside; lia|apply Hx; lia].
  - exfalso. unfold filled in *. destruct (part p i) as [b e] eqn:E.
    assert (br_contains b e (received p) = true) by (apply contains_spec; [done|]; by apply firstGap_none).
    congruence.
Qed.

(** *** Sequences of calls *)

Inductive call :=
  | Add (begin end_ : Z)
  | Verify (index : Z)
  | Reject (index : Z)
  | ClaimBlocks (random : nat -> Z) (who : Z) (available : list bool) (limit : Z) (availability : list Z)
      (preview : bool) (now : Z)
  | Release (who : Z) (range : Range)
  | ReleaseAll (who : Z).

Definition exec (c : call) p : option (parts R) :=
  match c with
  | Add begin end_ => snd <$> add begin end_ p
  | Verify index => verify index p
  | Reject index => reject index p
  | ClaimBlocks random who available limit availability preview now =>
      Some (claim random who available limit availability preview now p).2
  | Release who range => Some (release who range p)
  | ReleaseAll who => Some (releaseAll who p)
  end.

(** An index is a [size_t]. *)
Definition unsigned (c : call) : Prop :=
  match c with Verify i | Reject i => 0 <= i | _ => True end.
(** The call names a part of a file of [n] parts, if it names any. *)
Definition index_ok (n : Z) (c : call) : Prop :=
  match c with Verify i | Reject i => i < n | _ => True end.

Lemma overlap_part p b e i begin end_ :
  0 <= b -> begin <= b -> b < e -> e <= end_ -> e <= size p -> i ∈ seqZ (partOf b) (partOf (e - 1) - partOf b + 1) ->
  exists x, begin <= x < end_ /\ inside x (part p i).
Proof.
  intros Hb Hbb Hlt Hee Hes Hi%elem_of_seqZ. unfold partOf in Hi. rewrite !Z.quot_div_nonneg in Hi by (unfold PIECE_LENGTH; lia).
  exists (Z.max b (i * PIECE_LENGTH)). unfold inside, part. simpl.
  pose proof (Z.mul_div_le (e - 1) PIECE_LENGTH ltac:(done)). pose proof (Z.mul_succ_div_gt b PIECE_LENGTH ltac:(done)).
  unfold PIECE_LENGTH in *. lia.
Qed.
Lemma parts_add_ok begin end_ p :
  parts_ok p -> exists r q, add begin end_ p = Some (r, q) /\ parts_ok q /\ size q = size p /\ verified q = verified p /\
    (forall x, covers (received q) x <-> covers (received p) x \/ (begin <= x < end_ /\ 0 <= x < size p)) /\
    match r with
    | Some i => isVerified q i = Some false /\ filled q i = true /\ 0 <= i < count q /\
        exists x, begin <= x < end_ /\ inside x (part q i)
    | None => forall i x, begin <= x < end_ -> inside x (part q i) -> 0 <= i < count q ->
        isVerified q i = Some false -> filled q i = false
    end.
Proof.
  intros Hp. unfold add. destruct (Z.leb_spec (Z.min end_ (size p)) (Z.max begin 0)) as [Hle|Hlt].
  { exists None, p. split_and!; [done..| |].
    - intros x. split; [by left|]. intros [?|[? ?]]; [done|lia].
    - intros i x Hx Hin Hi. pose proof (part_bounds p i Hp Hi). unfold inside in Hin. lia. }
  set (b := Z.max begin 0) in *. set (e := Z.min end_ (size p)) in *.
  pose proof (received_ok p b e Hp ltac:(lia) ltac:(lia)) as Hq. set (q := with_received p _) in *.
  assert (Hseq : forall i, i ∈ seqZ (partOf b) (partOf (e - 1) - partOf b + 1) -> 0 <= i < count q).
  { intros i Hi%elem_of_seqZ. assert (size q = size p) by done.
    pose proof (partOf_range q b Hq ltac:(lia)). pose proof (partOf_range q (e - 1) Hq ltac:(lia)). lia. }
  destruct (firstFilled_spec q (seqZ (partOf b) (partOf (e - 1) - partOf b + 1)) Hseq) as (r & Er & Hr).
  rewrite Er. cbn [mbind option_bind]. exists r, q. split_and!; [done..| |].
  - intros x. destruct Hp as (Hok & _ & _ & Hcov & _). unfold q. simpl. rewrite covers_add by done.
    split; (intros [?|?]; [by left|right; lia]).
  - destruct r as [i|]; [destruct Hr as (Hin & ? & ?); split_and!; [done|done|apply Hseq, Hin..|eapply (overlap_part q b e); [lia..|change (size q) with (size p); lia|exact Hin]]|]. intros i x Hx Hin Hi. apply Hr, elem_of_seqZ.
    pose proof (part_bounds q i Hq Hi) as Hb. assert (size q = size p) by done.
    unfold inside, part, partOf in *. simpl in Hin, Hb.
    rewrite !Z.quot_div_nonneg by (unfold PIECE_LENGTH; lia).
    assert (b / PIECE_LENGTH <= i) by (apply Z.lt_succ_r, Z.div_lt_upper_bound; unfold PIECE_LENGTH in *; lia).
    assert (i <= (e - 1) / PIECE_LENGTH) by (apply Z.div_le_lower_bound; unfold PIECE_LENGTH in *; lia). lia.
Qed.

Lemma claim_ok random who available limit availability preview now p out q :
  parts_ok p -> claim random who available limit availability preview now p = (out, q) -> parts_ok q /\ size q = size p.
Proof.
  intros Hp E. destruct (claim_spec _ _ _ _ _ _ _ _ _ _ Hp E) as (Hq & _ & endgame & Hb & _).
  split; [|by apply Hq]. eapply claimedMore_ok; [done|exact Hq|]. apply Forall_forall. intros r Hr.
  destruct (Hb r Hr) as (i & Hi & _ & ? & ? & ? & _). pose proof (part_bounds p i Hp Hi). lia.
Qed.

Lemma count_same p q : parts_ok p -> parts_ok q -> size q = size p -> count q = count p.
Proof. intros (_ & _ & -> & _) (_ & _ & -> & _) ->. done. Qed.

Lemma exec_keeps c p :
  parts_ok p -> unsigned c -> index_ok (count p) c -> exists q, exec c p = Some q /\ parts_ok q /\ size q = size p.
Proof.
  intros Hp Hu Hc. pose proof Hp as (_ & _ & _ & _ & _ & Hs & _).
  destruct c as [b e|i|i|random who av limit avs preview now|who r|who]; cbn [exec unsigned index_ok] in *.
  - destruct (parts_add_ok b e p Hp) as (r & q & -> & Hq & Hsz & _). by exists q.
  - destruct (verify_ok i p Hp (conj Hu Hc)) as (q & E & Hq). exists q. split_and!; [done..|].
    unfold verify in E. destruct (isVerified p i); [|done]. by simplify_eq/=.
  - destruct (reject_ok i p Hp (conj Hu Hc)) as (q & E & Hq). exists q. split_and!; [done..|].
    unfold reject in E. destruct (isVerified p i); [|done]. by simplify_eq/=.
  - destruct (claim _ _ _ _ _ _ _ _) as [out q] eqn:E. exists q. split; [done|]. by eapply claim_ok.
  - eexists. split_and!; [done| |done]. apply fewer_claims_ok; [done| |by apply sorted_eraseClaim].
    intros x. apply elem_of_eraseClaim.
  - eexists. split_and!; [done| |done]. apply fewer_claims_ok; [done| |by apply sorted_filter].
    intros x. rewrite list_elem_of_filter. by intros [_ ?].
Qed.

Lemma exec_outside c p q : unsigned c -> exec c p = Some q -> index_ok (count p) c.
Proof.
  intros Hu E. destruct c as [b e|i|i|random who av limit avs preview now|who r|who]; cbn [exec unsigned index_ok] in *; try done;
    unfold verify, reject in E; destruct (isVerified p i) as [v|] eqn:Ev; try done;
    apply (isVerified_range p i v Hu) in Ev; lia.
Qed.

(** ** Properties *)

(** C10. Whatever sequence of calls a file gets, of any sources, ranges and
    indices: a call reaches outside the table of parts exactly when it verifies
    or rejects an index that is not one of a part of the file. Without such a
    call the state stays well-formed: one flag per part, received bytes inside
    the file, verified parts received in full, and claims in order, non-empty
    and inside the file. *)
Theorem parts_invariant size_ calls :
  0 < size_ -> Forall unsigned calls ->
  let run := foldl (fun s c => s ≫= exec c) (Some (create size_)) calls in
  (is_Some run <-> Forall (index_ok ((size_ + PIECE_LENGTH - 1) / PIECE_LENGTH)) calls) /\
  forall p, run = Some p -> parts_ok p /\ size p = size_.
Proof.
  intros Hsz Hu. cbv zeta. pose proof (parts_create_ok size_ Hsz) as Hp. revert Hp.
  assert (size (create size_) = size_) as E by done. revert E. generalize (create size_) as p.
  induction Hu as [|c calls Hc _ IH]; intros p E Hp.
  { split; [split; [constructor|by eexists]|]. by intros p' [= <-]. }
  assert (En : (size_ + PIECE_LENGTH - 1) / PIECE_LENGTH = count p) by (destruct Hp as (_ & _ & -> & _); by rewrite E).
  rewrite Forall_cons. cbn [foldl mbind option_bind]. destruct (exec c p) as [q|] eqn:Eq.
  - pose proof (exec_outside c p q Hc Eq) as Hi. destruct (exec_keeps c p Hp Hc Hi) as (q' & E' & Hq & Es).
    rewrite Eq in E'. injection E' as <-. destruct (IH q) as [IH1 IH2]; [congruence|done|]. split; [|done]. rewrite IH1, En. naive_solver.
  - assert (Hnone : forall l, foldl (fun s c => s ≫= exec c) None l = None) by (by induction l).
    rewrite Hnone. split; [|done]. split; [by intros [? ?]|]. intros [Hi _]. rewrite En in Hi.
    destruct (exec_keeps c p Hp Hc Hi) as (q & ? & _). congruence.
Qed.

(** [add] records exactly the bytes that lie in the file, and reports a
    part only if it is now filled and not verified; if it reports none, the
    bytes filled no such part. *)
Lemma add_reports_filled begin end_ p :
  parts_ok p ->
  exists r q, add begin end_ p = Some (r, q) /\ verified q = verified p /\
    (forall x, covers (received q) x <-> covers (received p) x \/ (begin <= x < end_ /\ 0 <= x < size p)) /\
    match r with
    | Some i => isVerified q i = Some false /\ filled q i = true
    | None => forall i x, begin <= x < end_ -> inside x (part q i) -> 0 <= i < count q ->
        isVerified q i = Some false -> filled q i = false
    end.
Proof. intros Hp. destruct (parts_add_ok begin end_ p Hp) as (r & q & ? & _ & _ & ? & ? & ?). exists r, q. split_and!; [done..|].
  destruct r; [|done]. naive_solver.
Qed.

(** C19. Sources do not work on the same block: the blocks that [claim] gives a
    source are at most as many as asked for and disjoint, each lies in one
    cell of the grid of a part that is needed and that the source has, is
    missing, and is recorded as claimed. A byte of it that another source has
    claimed was claimed at least five seconds ago, and then every missing byte
    of these parts is claimed. *)
Theorem claim_exclusive random who available limit availability preview now p out q :
  parts_ok p -> 0 <= limit -> claim random who available limit availability preview now p = (out, q) ->
  Z.of_nat (length out) <= limit /\ StronglySorted disjoint out /\
  forall r, r ∈ out -> exists i, 0 <= i < count p /\ needed p available i = true /\
    (part p i).1 <= r.1 /\ r.1 < r.2 /\ r.2 <= (part p i).2 /\ r.2 <= gridEnd (part p i).1 r.1 /\
    claimed who r.1 r.2 q = true /\
    forall x, r.1 <= x < r.2 -> ~ covers (received p) x /\
      forall first c, (first, c) ∈ claims p -> first <= x < cend c ->
        owner c <> who /\ duplicateAfter <= now - since c /\
        forall j y, 0 <= j < count p -> needed p available j = true -> inside y (part p j) ->
          ~ covers (received p) y -> exists first' c', (first', c') ∈ claims p /\ first' <= y < cend c'.
Proof.
  intros Hp Hl E. destruct (claim_spec _ _ _ _ _ _ _ _ _ _ Hp E) as (Hq & Hd & endgame & Hb & Hx & _).
  split_and!; [by eapply claim_length|done|]. intros r Hr.
  destruct (Hb r Hr) as (i & Hi & Hn & H1 & H2 & H3 & H4 & Hfree). exists i. split_and!; [lia..|done|done|done|done|done| |].
  - destruct Hq as (_ & _ & _ & _ & Hcl). unfold claimed. apply existsb_exists.
    exists (r.1, mkClaim r.2 who now). split; [apply list_elem_of_In, Hcl; right; by exists r|].
    simpl. rewrite Z.eqb_refl, !Z.leb_refl. done.
  - intros x Hxr. destruct (Hfree x Hxr) as [Hc Ht]. split; [done|]. intros first c Hin Hxc.
    assert (Hnb : blocking who endgame now c <> true) by (intros Hbl; apply Ht; by eapply taken_intro).
    destruct endgame; [|unfold blocking in Hnb; by rewrite orb_true_r in Hnb].
    rewrite blocking_endgame in Hnb. split_and!; [tauto|lia|]. intros j y Hj Hnj Hy Hcy.
    pose proof (claim_needs_limit _ _ _ _ _ _ _ _ _ _ _ E Hr).
    destruct (taken_elim _ _ _ (Hx eq_refl ltac:(done) j Hj Hnj y Hy Hcy)) as (f' & c' & ? & _ & ?). by exists f', c'.
Qed.

(** C18. A source never waits without a reason: [claim] returns nothing exactly
    if each missing byte of the needed parts is claimed by the source itself or
    was claimed less than five seconds ago. So a source that holds a part that
    is wanted gets a block once its own claims are released and the others are
    old. *)
Theorem claim_never_stalls random who available limit availability preview now p out q :
  parts_ok p -> 0 < limit -> claim random who available limit availability preview now p = (out, q) ->
  (out = [] <->
   forall i x, 0 <= i < count p -> needed p available i = true -> inside x (part p i) ->
     ~ covers (received p) x -> exists first c, (first, c) ∈ claims p /\ first <= x < cend c /\
       (owner c = who \/ now - since c < duplicateAfter)) /\
  (wants available p = true ->
   (forall e, e ∈ claims p -> owner e.2 <> who /\ duplicateAfter <= now - since e.2) -> out <> []).
Proof.
  intros Hp Hl E. destruct (claim_spec _ _ _ _ _ _ _ _ _ _ Hp E) as (_ & _ & endgame & Hb & _ & Hx).
  assert (Hiff : out = [] -> forall i x, 0 <= i < count p -> needed p available i = true -> inside x (part p i) ->
     ~ covers (received p) x -> exists first c, (first, c) ∈ claims p /\ first <= x < cend c /\
       (owner c = who \/ now - since c < duplicateAfter)).
  { intros Ho i x Hi Hn Hin Hc. destruct (taken_elim _ _ _ (Hx Ho Hl i Hi Hn x Hin Hc)) as (f & c & ? & Hbl & ?).
    exists f, c. by rewrite <- blocking_endgame. }
  split; [split; [done|]|].
  - intros Hall. destruct out as [|r out]; [done|]. exfalso.
    destruct (Hb r ltac:(by left)) as (i & Hi & Hn & H1 & H2 & H3 & _ & Hfree).
    destruct (Hfree r.1 ltac:(lia)) as [Hc Ht].
    destruct (Hall i r.1 Hi Hn ltac:(unfold inside; lia) Hc) as (f & c & Hin & Hxc & Hbl).
    apply Ht. eapply taken_intro; [done| |done]. by apply blocking_weaken, blocking_endgame.
  - intros Hw Hold Ho. unfold wants in Hw. apply existsb_exists in Hw as (i & Hi & Hn).
    apply list_elem_of_In, elem_of_indices in Hi. pose proof Hp as (Hok & _).
    destruct (needed_missing p available i Hok Hn) as (x & Hin & Hc).
    destruct (Hiff Ho i x Hi Hn Hin Hc) as (f & c & He & _ & Hbl). destruct (Hold _ He). simpl in *. lia.
Qed.
End claims.
End Parts.

Module PartsExamples.
Import Hash Parts.

(** A file of two parts, over the interval set of [http/Ranges.h]. *)
Definition fresh : parts RangeSet.t := create 10000000.
Lemma fresh_ok : parts_ok fresh.
Proof. by apply parts_create_ok. Qed.

Definition inOrder (n : nat) : Z := Z.of_nat n.
(** Two sources with a block each, the first claimed at 0, the second at 1. *)
Definition shared : parts RangeSet.t :=
  (claim inOrder 2 [true; false] 1 [] false 1 (claim inOrder 1 [true; false] 1 [] false 0 fresh).2).2.
Lemma shared_ok : parts_ok shared.
Proof.
  unfold shared. eapply claim_ok; [|apply surjective_pairing]. eapply claim_ok; [apply fresh_ok|apply surjective_pairing].
Qed.

Definition someCalls : list call :=
  [Add 0 9728000; Verify 0; ClaimBlocks inOrder 1 [] 3 [] true 7; Reject 0; ReleaseAll 1].

Lemma someCalls_unsigned : Forall unsigned (someCalls ++ [Verify 2]).
Proof. repeat constructor; done. Qed.

(** The file has parts 0 and 1; to verify a third is outside the table. *)
Lemma parts_invariant_witness :
  (exists p, foldl (fun s c => s ≫= exec c) (Some (create (R := RangeSet.t) 10000000)) someCalls = Some p /\
    parts_ok p /\ size p = 10000000) /\
  ~ is_Some (foldl (fun s c => s ≫= exec c) (Some (create (R := RangeSet.t) 10000000)) (someCalls ++ [Verify 2])).
Proof.
  split.
  - destruct (parts_invariant (R := RangeSet.t) 10000000 someCalls) as [Hr Hk];
      [lia|exact (proj1 (proj1 (Forall_app _ _ _) someCalls_unsigned))|].
    destruct (proj2 Hr) as [p E]; [repeat constructor; vm_compute; congruence|].
    exists p. split; [exact E|]. apply Hk, E.
  - intros H. destruct (parts_invariant (R := RangeSet.t) 10000000 (someCalls ++ [Verify 2])) as [Hr _];
      [lia|exact someCalls_unsigned|].
    apply Hr in H. apply Forall_app in H as [_ H]. inversion H as [|? ? Hi _]. vm_compute in Hi. discriminate Hi.
Defined.

Lemma add_reports_filled_witness :
  (fst <$> add 9728000 10000000 fresh) = Some (Some 1) /\
  exists r q, add 9728000 10000000 fresh = Some (r, q) /\ verified q = verified fresh.
Proof.
  split; [reflexivity|].
  destruct (add_reports_filled 9728000 10000000 fresh fresh_ok) as (r & q & H1 & H2 & _). by exists r, q.
Defined.

Lemma claim_exclusive_witness :
  let r := claim inOrder 3 [true; false] 2 [] false 2 shared in
  r.1 = [(368640, 552960); (552960, 737280)] /\ Z.of_nat (length r.1) <= 2 /\ StronglySorted disjoint r.1.
Proof.
  split; [reflexivity|].
  destruct (claim_exclusive inOrder 3 [true; false] 2 [] false 2 shared _ _ shared_ok ltac:(lia) (surjective_pairing _))
    as (H1 & H2 & _). done.
Defined.

Lemma claim_never_stalls_witness :
  let r := claim inOrder 3 [true; false] 1 [] false (10 ^ 10) shared in
  r.1 = [(368640, 552960)] /\ r.1 <> [].
Proof.
  split; [reflexivity|].
  destruct (claim_never_stalls inOrder 3 [true; false] 1 [] false (10 ^ 10) shared _ _ shared_ok ltac:(lia) (surjective_pairing _))
    as (_ & H2). apply H2; [reflexivity|]. intros e He. vm_compute in He.
  repeat (apply elem_of_cons in He as [->|He]; [by vm_compute|]). by apply elem_of_nil in He.
Defined.

(** In the endgame a block is given twice, but not to the source that has it. *)
Definition small : parts RangeSet.t := create 100000.
Example endgame_duplicates :
  let p := (claim inOrder 1 [] 1 [] false 0 small).2 in
  (claim inOrder 1 [] 1 [] false (10 ^ 10) p).1 = [] /\
  (claim inOrder 2 [] 1 [] false (10 ^ 9) p).1 = [] /\
  (claim inOrder 2 [] 1 [] false (10 ^ 10) p).1 = [(0, 100000)].
Proof. by vm_compute. Qed.
End PartsExamples.
