(* ===== verification/UploadQueue.v ===== *)
(** * The upload queue: [src/ed2k/UploadQueue.cc], the upload side of
      [src/ed2k/Client.cc], [parsePartRequestPayload] of [src/ed2k/SharedFile.cc]

    Who may download from us. [UploadQueue] hands out a fixed number of slots to
    the waiting client with the best score; a [Client] is told about its slot at
    once or after it was called back, asks for ranges, and gives the slot up.
    The two classes call each other ([grant], [grantSlot], [remove], [grant]),
    so they share one state: the queue, the clients by address, and the packets
    sent. Times are nanoseconds; [Clock::now()] is the field [clock], which
    events move on, so that the readings inside one handler agree. *)

From stdpp Require Import functions.
From S2P Require Import Prelude Bytes StdMap Double Wire Packet PeerProtocol Ranges Hash.

Module UploadQueue.
Import Bytes Wire Packet Double Hash.

(** ** Data *)

(** [operator<] of [std::string]. *)
Fixpoint bytes_ltb (a b : bytes) : bool :=
  match a, b with
  | _, [] => false
  | [], _ :: _ => true
  | x :: a', y :: b' => if x <? y then true else if y <? x then false else bytes_ltb a' b'
  end.
#[export] Instance bytes_KeyOrder : KeyOrder bytes := bytes_ltb.

Definition hour : Z := 3600 * 10 ^ 9.
Definition maxWaiting : Z := 5000.
Definition purgeAfter : Z := hour.
Definition sessionBytes : Z := PIECE_LENGTH + Z.shiftl 20 10.
Definition sessionTime : Z := hour.
Definition lowIdLimit : Z := 0x1000000.

(** [Client::Upload] *)
Inductive Upload := UploadNone | UploadWaiting | Uploading.

(** The fields of [Client] that the upload side uses. [connection] is the
    connection and whether its socket is open, [address] is 0 when unspecified,
    [extended] says that the client speaks the eMule protocol, [uploadFile] is
    the address of a task. *)
Record Client := mkClient {
  userHash : bytes;
  clientId : Z;
  address : Z;
  extended : bool;
  connection : option (Z * bool);
  handshaked : bool;
  connecting : bool;
  upload : Upload;
  uploadFile : option Z;
  uploadRequests : list Range;
  slotPending : bool;
  sessionUploaded : Z;
}.

Record Waiting := mkWaiting { wclient : Z; wsince : Z; lastAsked : Z }.
Record Active := mkActive { aclient : Z; asince : Z }.
Record Credit := mkCredit { creditHash : bytes; uploadedBytes : Z; downloadedBytes : Z }.

(** A task as the clients see it. *)
Record File := mkFile {
  fileHash : bytes;
  fileSize : Z;
  sharedParts : list bool;
  sharesAnything : bool;
}.

Inductive message :=
| AcceptUpload
| OutOfPartRequests
| QueueRanking (rank : Z)
| QueueRank (rank : Z)
| NoSuchFile (hash : bytes).

(** [files] is [Network::files_], [known] the values of [Network::clients_],
    [sent] the packets to each client, the newest first. *)
Record state := mkState {
  clock : Z;
  slots : Z;
  waiting : list Waiting;
  active : list Active;
  credits : stdmap bytes Credit;
  clients : Z -> Client;
  known : list Z;
  files : stdmap bytes Z;
  tasks : Z -> File;
  sent : list (Z * message);
}.

Definition with_clock v st := mkState v (slots st) (waiting st) (active st) (credits st) (clients st) (known st) (files st) (tasks st) (sent st).
Definition with_slots v st := mkState (clock st) v (waiting st) (active st) (credits st) (clients st) (known st) (files st) (tasks st) (sent st).
Definition with_waiting v st := mkState (clock st) (slots st) v (active st) (credits st) (clients st) (known st) (files st) (tasks st) (sent st).
Definition with_active v st := mkState (clock st) (slots st) (waiting st) v (credits st) (clients st) (known st) (files st) (tasks st) (sent st).
Definition with_credits v st := mkState (clock st) (slots st) (waiting st) (active st) v (clients st) (known st) (files st) (tasks st) (sent st).
Definition with_clients v st := mkState (clock st) (slots st) (waiting st) (active st) (credits st) v (known st) (files st) (tasks st) (sent st).
Definition with_files v st := mkState (clock st) (slots st) (waiting st) (active st) (credits st) (clients st) (known st) v (tasks st) (sent st).
Definition with_sent v st := mkState (clock st) (slots st) (waiting st) (active st) (credits st) (clients st) (known st) (files st) (tasks st) v.

Definition set_connection v c := mkClient (userHash c) (clientId c) (address c) (extended c) v (handshaked c) (connecting c) (upload c) (uploadFile c) (uploadRequests c) (slotPending c) (sessionUploaded c).
Definition set_handshaked v c := mkClient (userHash c) (clientId c) (address c) (extended c) (connection c) v (connecting c) (upload c) (uploadFile c) (uploadRequests c) (slotPending c) (sessionUploaded c).
Definition set_connecting v c := mkClient (userHash c) (clientId c) (address c) (extended c) (connection c) (handshaked c) v (upload c) (uploadFile c) (uploadRequests c) (slotPending c) (sessionUploaded c).
Definition set_upload v c := mkClient (userHash c) (clientId c) (address c) (extended c) (connection c) (handshaked c) (connecting c) v (uploadFile c) (uploadRequests c) (slotPending c) (sessionUploaded c).
Definition set_uploadFile v c := mkClient (userHash c) (clientId c) (address c) (extended c) (connection c) (handshaked c) (connecting c) (upload c) v (uploadRequests c) (slotPending c) (sessionUploaded c).
Definition set_uploadRequests v c := mkClient (userHash c) (clientId c) (address c) (extended c) (connection c) (handshaked c) (connecting c) (upload c) (uploadFile c) v (slotPending c) (sessionUploaded c).
Definition set_slotPending v c := mkClient (userHash c) (clientId c) (address c) (extended c) (connection c) (handshaked c) (connecting c) (upload c) (uploadFile c) (uploadRequests c) v (sessionUploaded c).
Definition set_sessionUploaded v c := mkClient (userHash c) (clientId c) (address c) (extended c) (connection c) (handshaked c) (connecting c) (upload c) (uploadFile c) (uploadRequests c) (slotPending c) v.

Definition update (c : Z) (f : Client -> Client) (st : state) : state :=
  with_clients (<[c := f (clients st c)]> (clients st)) st.

Definition connected (cl : Client) : bool :=
  match connection cl with Some (_, open) => open | None => false end.
Definition lowId (cl : Client) : bool := negb (clientId cl =? 0) && (clientId cl <? lowIdLimit).
Definition is_uploading (cl : Client) : bool :=
  match upload cl with Uploading => true | _ => false end.

(** [Client::send] *)
Definition send (c : Z) (m : message) (st : state) : state :=
  match connection (clients st c) with
  | Some _ => with_sent ((c, m) :: sent st) st
  | None => st
  end.

(** ** Credit *)

Definition noCredit : Credit := mkCredit [] 0 0.

Definition uploaded (hash : bytes) (n : Z) (st : state) : state :=
  if len hash =? HASH_LENGTH then
    let credit := default noCredit (find hash (credits st)) in
    with_credits (put hash (mkCredit hash (u64 (uploadedBytes credit + n)) (downloadedBytes credit))
                   (credits st)) st
  else st.

Definition downloaded (hash : bytes) (n : Z) (st : state) : state :=
  if len hash =? HASH_LENGTH then
    let credit := default noCredit (find hash (credits st)) in
    with_credits (put hash (mkCredit hash (uploadedBytes credit) (u64 (downloadedBytes credit + n)))
                   (credits st)) st
  else st.

Definition modifier (m : stdmap bytes Credit) (hash : bytes) : double :=
  match find hash m with
  | None => of_int 1
  | Some credit =>
      if downloadedBytes credit <? Z.shiftl 1 20 then of_int 1
      else
        let down := of_int (downloadedBytes credit) in
        let first := if uploadedBytes credit =? 0 then of_int 10
                     else ddiv (dmul down (of_int 2)) (of_int (uploadedBytes credit)) in
        let second := dsqrt (dadd (ddiv down (of_int (Z.shiftl 1 20))) (of_int 2)) in
        dclamp (dmin first second) (of_int 1) (of_int 10)
  end.

Definition saveCredits (st : state) : list Credit := snd <$> credits st.

Definition restore (saved : list Credit) (st : state) : state :=
  with_credits (foldl (fun m credit => put (creditHash credit) credit m) (credits st) saved) st.

(** ** The queue *)

Definition setSlots (n : Z) (st : state) : state := with_slots (Z.max 1 n) st.

Definition score (st : state) (w : Waiting) (now : Z) : double :=
  dmul (ddiv (of_int (now - wsince w)) (of_int (10 ^ 9)))
       (modifier (credits st) (userHash (clients st (wclient w)))).

Definition isWaiting (c : Z) (w : Waiting) : bool := wclient w =? c.
Definition isActive (c : Z) (a : Active) : bool := aclient a =? c.

Definition findWaiting (c : Z) (l : list Waiting) : option Waiting := List.find (isWaiting c) l.

Definition rank (c : Z) (st : state) : Z :=
  let now := clock st in
  match findWaiting c (waiting st) with
  | None => 0
  | Some found =>
      let mine := score st found now in
      let ahead := len (List.filter (fun other => dltb mine (score st other now)) (waiting st)) in
      u16 (Z.min (ahead + 1) 0xffff)
  end.

Definition touched (c : Z) (st : state) : state :=
  with_waiting ((fun w => if isWaiting c w then mkWaiting (wclient w) (wsince w) (clock st) else w)
                  <$> waiting st) st.

(** [std::max_element]: the element and what is before and behind it. *)
Fixpoint maxElement (lt : Waiting -> Waiting -> bool) (before : list Waiting) (best : Waiting)
    (behind rest : list Waiting) : list Waiting * Waiting * list Waiting :=
  match rest with
  | [] => (before, best, behind)
  | w :: rest =>
      if lt best w then maxElement lt (before ++ best :: behind) w [] rest
      else maxElement lt before best (behind ++ [w]) rest
  end.

Definition revokeSlot (c : Z) (st : state) : state :=
  if is_uploading (clients st c) then
    update c (fun cl => set_uploadRequests [] (set_upload UploadNone cl))
      (send c OutOfPartRequests st)
  else st.

(** [UploadQueue::remove], given [grant]. *)
Definition remove_with (grant : Z -> state -> state) (c : Z) (st : state) : state :=
  let st := with_waiting (List.filter (fun w => negb (isWaiting c w)) (waiting st)) st in
  let before := len (active st) in
  let st := with_active (List.filter (fun a => negb (isActive c a)) (active st)) st in
  if negb (len (active st) =? before) then grant (clock st) (revokeSlot c st) else st.

(** [Client::grantSlot], given [remove]. *)
Definition grantSlot_with (remove : Z -> state -> state) (c : Z) (st : state) : state :=
  let cl := clients st c in
  match uploadFile cl with
  | None => remove c st
  | Some _ =>
      if negb (connected cl) || negb (handshaked cl) then
        let st := update c (fun cl => set_upload Uploading (set_slotPending true cl)) st in
        if negb (connected cl) && negb (connecting cl) then
          if lowId cl || (address cl =? 0) then remove c (update c (set_slotPending false) st)
          else update c (set_connecting true) st
        else st
      else
        send c AcceptUpload
          (update c (fun cl => set_sessionUploaded 0 (set_upload Uploading cl)) st)
  end.

(** [waiting_.erase(best); active_.push_back({client, now})] *)
Definition activate (now : Z) (before : list Waiting) (best : Waiting) (behind : list Waiting)
    (st : state) : state :=
  with_active (active st ++ [mkActive (wclient best) now]) (with_waiting (before ++ behind) st).

(** [UploadQueue::grant]: each round takes a client out of [waiting_], also the
    rounds of the calls inside. *)
Fixpoint grantN (fuel : nat) (now : Z) (st : state) : state :=
  if len (active st) <? slots st then
    match waiting st, fuel with
    | w :: rest, S fuel =>
        let '(before, best, behind) :=
          maxElement (fun a b => dltb (score st a now) (score st b now)) [] w [] rest in
        grantN fuel now
          (grantSlot_with (remove_with (grantN fuel)) (wclient best) (activate now before best behind st))
    | _, _ => st
    end
  else st.

Definition grant (now : Z) (st : state) : state := grantN (length (waiting st)) now st.
Definition remove (c : Z) (st : state) : state := remove_with grant c st.
Definition grantSlot (c : Z) (st : state) : state := grantSlot_with remove c st.

(** [found->lastAsked = now] *)
Fixpoint askedAgain (c now : Z) (l : list Waiting) : list Waiting :=
  match l with
  | [] => []
  | w :: l' =>
      if isWaiting c w then mkWaiting (wclient w) (wsince w) now :: l'
      else w :: askedAgain c now l'
  end.

Definition request (c : Z) (st : state) : Z * state :=
  let now := clock st in
  if existsb (isActive c) (active st) then (0, st)
  else
    let enter st := let st := grant now st in (rank c st, st) in
    match findWaiting c (waiting st) with
    | None =>
        if maxWaiting <=? len (waiting st) then (u16 (Z.min (len (waiting st)) 0xffff), st)
        else enter (with_waiting (waiting st ++ [mkWaiting c now now]) st)
    | Some _ => enter (with_waiting (askedAgain c now (waiting st)) st)
    end.

Definition sessionOver (now : Z) (cl : Client) (a : Active) : bool :=
  (sessionBytes <=? sessionUploaded cl) || (sessionTime <? now - asince a).

(** The loop of [tick] over [active_]; [kept] is what it has passed. *)
Fixpoint rotate (now : Z) (kept l : list Active) (st : state) : state :=
  match l with
  | [] => with_active kept st
  | a :: l =>
      if sessionOver now (clients st (aclient a)) a then
        let st := revokeSlot (aclient a) st in
        rotate now kept l (with_waiting (waiting st ++ [mkWaiting (aclient a) now now]) st)
      else rotate now (kept ++ [a]) l st
  end.

Definition tick (now : Z) (st : state) : state :=
  let gone w := (purgeAfter <? now - lastAsked w) && negb (connected (clients st (wclient w))) in
  let st := with_waiting (List.filter (fun w => negb (gone w)) (waiting st)) st in
  let st := match waiting st with [] => st | _ :: _ => rotate now [] (active st) st end in
  let st := with_active (List.filter (fun a => is_uploading (clients st (aclient a))) (active st)) st in
  grant now st.

(** ** Clients *)

Definition leaveUploadQueue (c : Z) (st : state) : state := remove c st.

(** [Network::file] and [Client::sharedFile]. *)
Definition file (st : state) (hash : bytes) : option Z := find hash (files st).
Definition sharedFile (st : state) (hash : bytes) : option Z :=
  match file st hash with
  | Some f => if sharesAnything (tasks st f) then Some f else None
  | None => None
  end.

(** A handler: the state it leaves and what it throws. *)
Definition answerUploadRequest (c : Z) (payload : bytes) (st : state) : state * option exn :=
  if len payload <? HASH_LENGTH then (st, Some (ProtocolError "Bad upload request"))
  else
    let hash := take (Z.to_nat HASH_LENGTH) payload in
    match sharedFile st hash with
    | None => (send c (NoSuchFile hash) st, None)
    | Some f =>
        if is_uploading (clients st c) && bool_decide (uploadFile (clients st c) = Some f) then
          (send c AcceptUpload st, None)
        else
          let '(rank, st) := request c (update c (set_uploadFile (Some f)) st) in
          if (0 <? rank) && negb (is_uploading (clients st c)) then
            let st := update c (set_upload UploadWaiting) st in
            (send c (if extended (clients st c) then QueueRanking rank else QueueRank rank) st, None)
          else (st, None)
    end.

Definition handshakeDone (c : Z) (st : state) : state :=
  let st := update c (set_handshaked true) st in
  if slotPending (clients st c) then grantSlot c (update c (set_slotPending false) st) else st.

(** The [catch] of [connectAndRun]. *)
Definition connectFailed (c : Z) (st : state) : state :=
  let st := update c (set_connecting false) st in
  if slotPending (clients st c) then remove c (update c (set_slotPending false) st) else st.

(** [connectAndRun] and [attach] up to the reading loop of [run]. *)
Definition run (c conn : Z) (st : state) : state :=
  update c (fun cl => set_handshaked false (set_connection (Some (conn, true)) (set_connecting false cl))) st.

Definition closed (c conn : Z) (st : state) : state :=
  match connection (clients st c) with
  | Some (current, _) =>
      if current =? conn then
        let st := update c (fun cl => set_handshaked false (set_connection None cl)) st in
        if is_uploading (clients st c) then remove c st else st
      else st
  | None => st
  end.

(** [Client::disconnect], and a socket that breaks. *)
Definition disconnect (c : Z) (st : state) : state :=
  update c (fun cl => set_connection ((fun k => (k.1, false)) <$> connection cl) cl) st.

(** [OP_HELLO] on [c] shows that [self] is calling; the two are different. *)
Definition adopt (c self : Z) (st : state) : state :=
  let conn := connection (clients st c) in
  let st := update c (set_connection None) st in
  let st := match connection (clients st self) with
            | Some (old, _) => if bool_decide (fst <$> conn = Some old) then st else closed self old st
            | None => st
            end in
  let st := update self (fun cl => set_connecting false (set_connection conn cl)) st in
  handshakeDone self st.

(** [Network::attach] and the part of [Network::detach] on uploads. *)
Definition attach (f : Z) (st : state) : state :=
  with_files (put (fileHash (tasks st f)) f (files st)) st.

Definition dropUploads (f c : Z) (st : state) : state :=
  if bool_decide (uploadFile (clients st c) = Some f) then revokeSlot c (leaveUploadQueue c st) else st.

Definition unlist (f : Z) (st : state) : state :=
  let hash := fileHash (tasks st f) in
  if bool_decide (find hash (files st) = Some f) then with_files (erase hash (files st)) st else st.

Definition detach (f : Z) (st : state) : state :=
  let st := unlist f st in
  foldl (fun st c => dropUploads f c st) st (known st).

(** ** Requests for data *)

Definition readOffset (use64BitOffsets : bool) : reader Z :=
  if use64BitOffsets then v ← readU64; mret (i64 v) else readU32.

(** The loop over [begins] and [ends]. *)
Fixpoint partRanges (begins ends : list Z) : option (list Range) :=
  match begins, ends with
  | begin :: begins, end_ :: ends =>
      if (begin =? 0) && (end_ =? 0) then partRanges begins ends
      else if end_ <=? begin then None
      else ranges ← partRanges begins ends; Some ((begin, end_) :: ranges)
  | _, _ => Some []
  end.

Definition parsePartRequestPayload (use64BitOffsets : bool) : reader (option (list Range * bytes)) :=
  let offsetSize := if use64BitOffsets then 8 else 4 in
  n ← size;
  if negb (n =? HASH_LENGTH + offsetSize * 6) then mret None
  else
    hash ← readBytes HASH_LENGTH;
    begins ← readMany 3 (readOffset use64BitOffsets);
    ends ← readMany 3 (readOffset use64BitOffsets);
    mret (ranges ← partRanges begins ends; Some (ranges, hash)).

(** The loop of [answerPartRequest]: ranges before a bad one stay queued. *)
Fixpoint queueRanges (fileSize : Z) (wanted : list Range) (requests : list Range) :
    list Range * bool :=
  match wanted with
  | [] => (requests, true)
  | (begin, end_) :: wanted =>
      if (fileSize <? end_) || (3 * BLOCK_LENGTH <? end_ - begin) then (requests, false)
      else queueRanges fileSize wanted
             (if existsb (fun r => bool_decide (r = (begin, end_))) requests then requests
              else requests ++ [(begin, end_)])
  end.

Definition badPartRequest : exn := ProtocolError "Bad part request".

Definition answerPartRequest (c : Z) (payload : bytes) (large : bool) (st : state) : state * option exn :=
  match parse (parsePartRequestPayload large) payload with
  | Err e => (st, Some e)
  | Ok None => (st, Some badPartRequest)
  | Ok (Some (ranges, hash)) =>
      let cl := clients st c in
      match uploadFile cl with
      | Some f =>
          if negb (is_uploading cl) || slotPending cl || negb (bool_decide (hash = fileHash (tasks st f)))
          then (st, None)
          else
            let '(requests, good) := queueRanges (fileSize (tasks st f)) ranges (uploadRequests cl) in
            (update c (set_uploadRequests requests) st, if good then None else Some badPartRequest)
      | None => (st, None)
      end
  end.

(** [uploadLoop]: the parts of the request in front must be shared; an index
    outside [shared] is an access outside the vector. *)
Fixpoint sharedAt (shared : list bool) (indices : list Z) : result unit :=
  match indices with
  | [] => Ok tt
  | part :: indices =>
      match (if part <? 0 then None else shared !! Z.to_nat part) with
      | None => Err OutOfBounds
      | Some false => Err (ProtocolError "Requested a part we do not share")
      | Some true => sharedAt shared indices
      end
  end.

Definition mayServe (shared : list bool) (request : Range) : result unit :=
  let '(begin, end_) := request in
  let first := Z.quot begin PIECE_LENGTH in
  let last := Z.quot (end_ - 1) PIECE_LENGTH in
  match shared with
  | [] => Ok tt
  | _ :: _ => sharedAt shared (seqZ first (last - first + 1))
  end.

Definition chunkSize : Z := 10240.

(** The packets of a block of [data] bytes that takes [wire] bytes on the
    wire: the content that each one delivers; [chunks] bounds their number. *)
Fixpoint contents (chunks : nat) (data wire offset delivered : Z) : list Z :=
  match chunks with
  | O => []
  | S chunks =>
      if offset <? wire then
        let size := Z.min chunkSize (wire - offset) in
        let content := Z.quot (data * (offset + size)) wire - delivered in
        content :: contents chunks data wire (offset + chunkSize) (delivered + content)
      else []
  end.

(** What [uploadLoop] records for one packet. *)
Definition delivered (c content : Z) (st : state) : state :=
  uploaded (userHash (clients st c)) content
    (update c (fun cl => set_sessionUploaded (u64 (sessionUploaded cl + content)) cl) st).

(** The request in front is served. *)
Definition served (c : Z) (request : Range) (st : state) : state :=
  match uploadRequests (clients st c) with
  | front :: rest => if bool_decide (front = request) then update c (set_uploadRequests rest) st else st
  | [] => st
  end.

(** ** Events *)

Inductive event :=
| SetSlots (n : Z)
| Advance (time : Z)
| Tick
| AskUpload (c : Z) (payload : bytes)
| AskParts (c : Z) (payload : bytes) (large : bool)
| Reask (c : Z)
| Cancel (c : Z)
| HandshakeDone (c : Z)
| Run (c conn : Z)
| ConnectFailed (c : Z)
| Closed (c conn : Z)
| Disconnect (c : Z)
| Adopt (c self : Z)
| Attach (f : Z)
| Detach (f : Z)
| Delivered (c content : Z)
| Served (c : Z) (request : Range)
| Downloaded (c n : Z).

(** An exception ends [run], which closes the connection. *)
Definition caught (c : Z) (r : state * option exn) : state :=
  match r.2 with
  | None => r.1
  | Some _ =>
      match connection (clients r.1 c) with
      | Some (conn, _) => closed c conn r.1
      | None => r.1
      end
  end.

Definition exec (e : event) (st : state) : state :=
  match e with
  | SetSlots n => setSlots n st
  | Advance time => with_clock (Z.max (clock st) time) st
  | Tick => tick (clock st) st
  | AskUpload c payload => caught c (answerUploadRequest c payload st)
  | AskParts c payload large => caught c (answerPartRequest c payload large st)
  | Reask c => if rank c st =? 0 then st else touched c st
  | Cancel c => leaveUploadQueue c st
  | HandshakeDone c => handshakeDone c st
  | Run c conn => run c conn st
  | ConnectFailed c => connectFailed c st
  | Closed c conn => closed c conn st
  | Disconnect c => disconnect c st
  | Adopt c self => adopt c self st
  | Attach f => attach f st
  | Detach f => detach f st
  | Delivered c content => delivered c content st
  | Served c request => served c request st
  | Downloaded c n => downloaded (userHash (clients st c)) n st
  end.

Definition exec_all (es : list event) (st : state) : state := foldl (fun st e => exec e st) st es.

(** ** Lemmas on a specification *)

(** Everyone in the queue. *)
Definition queued (st : state) : list Z := (wclient <$> waiting st) ++ (aclient <$> active st).

(** The queue with at most [bound] slots so far: a client is in it once, and
    whoever is active has been told so or is being called. *)
Record ok (bound total : Z) (st : state) : Prop := mkOk {
  ok_slots : slots st <= bound;
  ok_active : len (active st) <= bound;
  ok_size : len (queued st) <= maxWaiting + total;
  ok_once : NoDup (queued st);
  ok_uploading : Forall (fun a => upload (clients st (aclient a)) = Uploading) (active st);
}.

(** No slot is free while a client waits. *)
Definition full (st : state) : Prop := len (active st) < slots st -> waiting st = [].

(** Who uploads, or will after the handshake, has a slot. *)
Definition settled (st : state) : Prop := forall c,
  upload (clients st c) = Uploading \/ slotPending (clients st c) = true ->
  c ∈ (aclient <$> active st).

Fixpoint quiet_drops (f : Z) (cs : list Z) (st : state) : Prop :=
  match cs with
  | [] => True
  | c :: cs =>
      (uploadFile (clients st c) = Some f -> slotPending (clients st c) = false) /\
      quiet_drops f cs (dropUploads f c st)
  end.

(** The event takes no slot from a client that is still being called. *)
Definition quiet (e : event) (st : state) : Prop :=
  match e with
  | Cancel c | Closed c _ => slotPending (clients st c) = false
  | AskUpload c payload =>
      is_Some (answerUploadRequest c payload st).2 -> slotPending (clients st c) = false
  | AskParts c payload large =>
      is_Some (answerPartRequest c payload large st).2 -> slotPending (clients st c) = false
  | Adopt _ self => slotPending (clients st self) = true -> connection (clients st self) = None
  | Tick => Forall (fun a => sessionOver (clock st) (clients st (aclient a)) a = true ->
                             slotPending (clients st (aclient a)) = false) (active st)
  | Detach f => quiet_drops f (known st) (unlist f st)
  | _ => True
  end.

Fixpoint quiet_all (es : list event) (st : state) : Prop :=
  match es with
  | [] => True
  | e :: es => quiet e st /\ quiet_all es (exec e st)
  end.

Lemma filter_kept {A} (f : A -> bool) (l : list A) :
  len (List.filter f l) = len l -> List.filter f l = l.
Proof.
  unfold len. intros Hl%Nat2Z.inj. revert Hl. induction l as [|x l IH]; [done|].
  simpl. pose proof (List.filter_length_le f l). destruct (f x); simpl; intros Hl; [|lia].
  f_equal. apply IH. lia.
Qed.

Lemma elem_of_kept {A} (f : A -> bool) (l : list A) x :
  x ∈ List.filter f l <-> x ∈ l /\ f x = true.
Proof. rewrite !list_elem_of_In. apply filter_In. Qed.

Lemma sublist_kept {A} (f : A -> bool) (l : list A) : List.filter f l `sublist_of` l.
Proof. induction l as [|x l IH]; simpl; [done|]. destruct (f x); by constructor. Qed.

Lemma fmap_sublist {A B} (f : A -> B) (l k : list A) :
  l `sublist_of` k -> (f <$> l) `sublist_of` (f <$> k).
Proof. induction 1; simpl; by constructor. Qed.

Lemma queued_sublist (st st' : state) :
  waiting st' `sublist_of` waiting st -> active st' `sublist_of` active st ->
  queued st' `sublist_of` queued st.
Proof. intros Hw Ha. unfold queued. apply sublist_app; by apply fmap_sublist. Qed.

Lemma len_sublist {A} (l k : list A) : l `sublist_of` k -> len l <= len k.
Proof. intros H%sublist_length. unfold len. lia. Qed.

(** [remove] before it looks for a successor. *)
Definition erased (c : Z) (st : state) : state :=
  with_active (List.filter (fun a => negb (isActive c a)) (active st))
    (with_waiting (List.filter (fun w => negb (isWaiting c w)) (waiting st)) st).

Lemma erased_sublist c st : queued (erased c st) `sublist_of` queued st.
Proof. apply queued_sublist; apply sublist_kept. Qed.

Lemma erased_active c st d :
  d <> c -> d ∈ (aclient <$> active st) -> d ∈ (aclient <$> active (erased c st)).
Proof.
  intros Hne (a & -> & Ha)%list_elem_of_fmap. apply list_elem_of_fmap. exists a. split; [done|].
  simpl. apply elem_of_kept. split; [done|]. unfold isActive. zprop; lia.
Qed.

Lemma erased_others c st : Forall (fun a => aclient a <> c) (active (erased c st)).
Proof.
  apply Forall_forall. intros a. simpl. rewrite elem_of_kept. intros [_ Ha].
  unfold isActive in Ha. zprop. done.
Qed.

(** What [grant] and [remove] may do to the queue: nobody enters it. *)
Record shrinks (st st' : state) : Prop := mkShrinks {
  shrinks_queued : queued st' ⊆ queued st;
  shrinks_waiting : (length (waiting st') <= length (waiting st))%nat;
  shrinks_slots : slots st' = slots st;
}.

#[local] Instance shrinks_preorder : PreOrder shrinks.
Proof.
  split.
  - intros st. by split.
  - intros st1 st2 st3 [A1 A2 A3] [B1 B2 B3]. split; [by etrans|lia|congruence].
Qed.

Lemma shrinks_send c m st : shrinks st (send c m st).
Proof. unfold send. by destruct (connection _); split. Qed.

Lemma shrinks_update c f st : shrinks st (update c f st).
Proof. by split. Qed.

Lemma shrinks_revokeSlot c st : shrinks st (revokeSlot c st).
Proof.
  unfold revokeSlot. destruct (is_uploading _); [|done].
  etrans; [apply shrinks_send|apply shrinks_update].
Qed.

Lemma shrinks_remove_with grant c st :
  (forall now st, shrinks st (grant now st)) -> shrinks st (remove_with grant c st).
Proof.
  intros Hg. unfold remove_with. change (with_active _ _) with (erased c st).
  assert (He : shrinks st (erased c st)).
  { split; [|apply List.filter_length_le|done].
    intros x Hx. eapply elem_of_submseteq; [exact Hx|]. apply sublist_submseteq, erased_sublist. }
  destruct (negb _); [|done]. etrans; [exact He|]. etrans; [apply shrinks_revokeSlot|]. apply Hg.
Qed.

Lemma shrinks_grantSlot_with remove c st :
  (forall st, shrinks st (remove c st)) -> shrinks st (grantSlot_with remove c st).
Proof.
  intros Hr. unfold grantSlot_with. destruct (uploadFile _); [|done].
  destruct (_ || _).
  - destruct (_ && _); [|apply shrinks_update].
    destruct (_ || _); [|etrans; apply shrinks_update].
    etrans; [apply shrinks_update|]. etrans; [apply shrinks_update|]. apply Hr.
  - etrans; [apply shrinks_update|apply shrinks_send].
Qed.

Lemma maxElement_split lt before best behind rest b x k :
  maxElement lt before best behind rest = (b, x, k) ->
  b ++ x :: k = before ++ best :: behind ++ rest.
Proof.
  revert before best behind. induction rest as [|w rest IH]; simpl; intros before best behind.
  - intros [= <- <- <-]. by rewrite app_nil_r.
  - destruct (lt best w); intros ->%IH; by rewrite <- ?app_assoc.
Qed.

Lemma queued_activate now before best behind st :
  waiting st = before ++ best :: behind -> queued (activate now before best behind st) ≡ₚ queued st.
Proof.
  intros Hw. unfold queued. simpl. rewrite Hw, !fmap_app. simpl. solve_Permutation.
Qed.

Lemma shrinks_activate now before best behind st :
  waiting st = before ++ best :: behind -> shrinks st (activate now before best behind st).
Proof.
  intros Hw. split; [| |done].
  - intros x. by rewrite (queued_activate now _ _ _ _ Hw).
  - rewrite Hw. simpl. rewrite !length_app. simpl. lia.
Qed.

Lemma shrinks_grantN fuel now st : shrinks st (grantN fuel now st).
Proof.
  revert now st. induction fuel as [|fuel IH]; intros now st; simpl.
  - destruct (_ <? _); [|done]. by destruct (waiting st).
  - destruct (_ <? _); [|done]. destruct (waiting st) as [|w rest] eqn:Ew; [done|].
    destruct (maxElement _ _ _ _ _) as [[before best] behind] eqn:Em.
    apply maxElement_split in Em. simpl in Em.
    etrans; [apply (shrinks_activate now before best behind); congruence|].
    etrans; [|apply IH]. apply shrinks_grantSlot_with. intros. by apply shrinks_remove_with.
Qed.

(** Enough rounds fill the slots. *)
Lemma full_grantN fuel now st :
  (length (waiting st) <= fuel)%nat -> full (grantN fuel now st).
Proof.
  revert now st. induction fuel as [|fuel IH]; intros now st Hl; simpl.
  - destruct (waiting st) eqn:Ew; [|simpl in Hl; lia].
    destruct (_ <? _) eqn:Ef; intros Hf; [done|]. zprop. lia.
  - destruct (_ <? _) eqn:Ef; [|intros Hf; zprop; lia].
    destruct (waiting st) as [|w rest] eqn:Ew; [by intros _|].
    destruct (maxElement _ _ _ _ _) as [[before best] behind] eqn:Em.
    apply maxElement_split in Em. simpl in Em. apply IH.
    etrans; [apply shrinks_waiting, shrinks_grantSlot_with; intros; apply shrinks_remove_with, shrinks_grantN|].
    apply (f_equal length) in Em. simpl in *. rewrite length_app in *. simpl in *. lia.
Qed.

Lemma full_grant now st : full (grant now st).
Proof. by apply full_grantN. Qed.

Lemma full_shrunk st st' :
  (length (waiting st') <= length (waiting st))%nat -> length (active st') = length (active st) ->
  slots st' = slots st -> full st -> full st'.
Proof.
  unfold full, len. intros Hw Ha Hs Hf Hl. apply nil_length_inv.
  rewrite Ha, Hs in Hl. rewrite (Hf Hl) in Hw. simpl in Hw. lia.
Qed.

Lemma full_remove c st : full st -> full (remove c st).
Proof.
  intros Hf. unfold remove, remove_with. change (with_active _ _) with (erased c st).
  destruct (negb (len (active (erased c st)) =? _)) eqn:El; [apply full_grant|]. zprop.
  eapply full_shrunk; [| | |exact Hf]; [apply List.filter_length_le| |done].
  unfold len in El. simpl in *. lia.
Qed.

Lemma erased_gone c st : c ∉ queued (erased c st).
Proof.
  unfold queued. rewrite elem_of_app. simpl.
  intros [(w & -> & Hw)%list_elem_of_fmap|(a & -> & Ha)%list_elem_of_fmap].
  - apply elem_of_kept in Hw as [_ Hw]. unfold isWaiting in Hw. zprop. lia.
  - apply elem_of_kept in Ha as [_ Ha]. unfold isActive in Ha. zprop. lia.
Qed.

Lemma remove_gone c st : c ∉ queued (remove c st).
Proof.
  unfold remove, remove_with. change (with_active _ _) with (erased c st).
  destruct (negb _); [|apply erased_gone].
  intros Hc%(shrinks_queued _ _ (shrinks_grantN _ _ _))%(shrinks_queued _ _ (shrinks_revokeSlot _ _)).
  by apply erased_gone in Hc.
Qed.

Section invariant.
Variables (bound total : Z) (strict : Prop).
Hypothesis bound_total : bound <= total.
Implicit Types (st : state).

(** The invariant, with [settled] where [strict] holds. *)
Definition inv st : Prop := ok bound total st /\ (strict -> settled st).

(** The invariant but for client [c], which is about to get or lose a slot. *)
Record inv_but (c : Z) (st : state) : Prop := mkBut {
  but_slots : slots st <= bound;
  but_active : len (active st) <= bound;
  but_size : len (queued st) <= maxWaiting + total;
  but_once : NoDup (queued st);
  but_uploading :
    Forall (fun a => aclient a = c \/ upload (clients st (aclient a)) = Uploading) (active st);
  but_settled : strict -> forall d, d <> c ->
    upload (clients st d) = Uploading \/ slotPending (clients st d) = true ->
    d ∈ (aclient <$> active st);
  but_pending : strict -> slotPending (clients st c) = false;
  but_own : strict -> upload (clients st c) = Uploading -> c ∈ (aclient <$> active st);
}.

Lemma clients_update c d f st :
  clients (update c f st) d = if decide (c = d) then f (clients st d) else clients st d.
Proof.
  unfold update. simpl. destruct (decide (c = d)) as [->|Hne].
  - by rewrite fn_lookup_insert.
  - by rewrite fn_lookup_insert_ne.
Qed.

Lemma inv_ext st st' :
  slots st' = slots st ->
  wclient <$> waiting st' = wclient <$> waiting st ->
  active st' = active st ->
  (forall c, upload (clients st' c) = upload (clients st c)) ->
  (forall c, slotPending (clients st' c) = slotPending (clients st c)) ->
  inv st -> inv st'.
Proof.
  intros Hs Hw Ha Hu Hp [[H1 H2 H3 H4 H5] H6].
  assert (Hq : queued st' = queued st) by (unfold queued; by rewrite Hw, Ha).
  split; [split|].
  - by rewrite Hs.
  - by rewrite Ha.
  - by rewrite Hq.
  - by rewrite Hq.
  - rewrite Ha. eapply Forall_impl; [exact H5|]. intros a. simpl. by rewrite Hu.
  - intros Hst c. rewrite Hu, Hp, Ha. by apply H6.
Qed.

Lemma inv_update c f st :
  (forall cl, upload (f cl) = upload cl) -> (forall cl, slotPending (f cl) = slotPending cl) ->
  inv st -> inv (update c f st).
Proof.
  intros Hu Hp. apply inv_ext; [done..| |]; intros d; rewrite clients_update;
    destruct (decide (c = d)); auto.
Qed.

Lemma inv_send c m st : inv st -> inv (send c m st).
Proof. unfold send. destruct (connection (clients st c)); [|done]. by apply inv_ext. Qed.

Lemma inv_to_but c st :
  inv st -> (strict -> slotPending (clients st c) = false) -> inv_but c st.
Proof.
  intros [[H1 H2 H3 H4 H5] H6] Hp. split; try done.
  - eapply Forall_impl; [exact H5|]. auto.
  - intros Hst d _. by apply H6.
  - intros Hst Hu. apply H6; auto.
Qed.

Lemma clients_send c m st : clients (send c m st) = clients st.
Proof. unfold send. by destruct (connection (clients st c)). Qed.

Lemma ok_erased c st : inv_but c st -> ok bound total (erased c st).
Proof.
  intros [H1 H2 H3 H4 H5 H6 H7 H8]. pose proof (erased_sublist c st) as Hsub.
  pose proof (erased_others c st) as Hne. rewrite Forall_forall in Hne.
  split; [done| | | |].
  - pose proof (len_sublist _ _ (sublist_kept (fun a => negb (isActive c a)) (active st))).
    simpl. lia.
  - pose proof (len_sublist _ _ Hsub). lia.
  - by eapply sublist_NoDup.
  - apply Forall_forall. intros a Ha. rewrite Forall_forall in H5. specialize (Hne a Ha).
    simpl in Ha. apply elem_of_kept in Ha as [Ha _]. by destruct (H5 a Ha).
Qed.

Lemma settled_erased c st :
  inv_but c st -> strict -> upload (clients st c) <> Uploading -> settled (erased c st).
Proof.
  intros Hb Hst Hu d Hd. destruct (decide (d = c)) as [->|Hne].
  - destruct Hd as [Hd|Hd]; [done|]. simpl in Hd. by rewrite (but_pending _ _ Hb Hst) in Hd.
  - apply erased_active; [done|]. by apply (but_settled _ _ Hb Hst).
Qed.

Lemma is_uploading_spec cl : is_uploading cl = true <-> upload cl = Uploading.
Proof. unfold is_uploading. destruct (upload cl); split; congruence. Qed.

Lemma active_send c m st : active (send c m st) = active st.
Proof. unfold send. by destruct (connection _). Qed.

Lemma ok_send c m st : ok bound total st -> ok bound total (send c m st).
Proof. unfold send. destruct (connection _); [|done]. by intros []; split. Qed.

Lemma ok_update_other c f st :
  ok bound total st -> Forall (fun a => aclient a <> c) (active st) -> ok bound total (update c f st).
Proof.
  intros [H1 H2 H3 H4 H5] Hne. split; [done..|]. change (active (update c f st)) with (active st).
  rewrite Forall_forall in H5. rewrite Forall_forall in Hne. apply Forall_forall. intros a Ha.
  rewrite clients_update. rewrite decide_False; [by apply H5|]. intros ->. by eapply Hne.
Qed.

Lemma inv_revoked c st : inv_but c st -> inv (revokeSlot c (erased c st)).
Proof.
  intros Hb. pose proof (ok_erased c st Hb) as Hok. unfold revokeSlot.
  destruct (is_uploading _) eqn:Eu; [|split; [done|]; intros Hst; apply settled_erased; [done..|];
    intros Hu%is_uploading_spec; simpl in Eu; congruence].
  split.
  - apply ok_update_other; [by apply ok_send|]. rewrite active_send. apply erased_others.
  - intros Hst d. rewrite clients_update, clients_send.
    change (active (update _ _ ?s)) with (active s). rewrite active_send.
    destruct (decide (c = d)) as [<-|Hne]; simpl.
    + intros [?|Hp]; [done|]. by rewrite (but_pending _ _ Hb Hst) in Hp.
    + intros Hd. apply erased_active; [done|]. by apply (but_settled _ _ Hb Hst).
Qed.

Lemma inv_remove_with grant c st :
  (forall now st, inv st -> inv (grant now st)) ->
  inv_but c st -> inv (remove_with grant c st).
Proof.
  intros Hg Hb. unfold remove_with. change (with_active _ _) with (erased c st).
  destruct (negb (len (active (erased c st)) =? _)) eqn:El; [by apply Hg, inv_revoked|].
  zprop. simpl in El. apply filter_kept in El. split; [by apply ok_erased|].
  intros Hst. apply settled_erased; [done..|]. intros Hu%(but_own _ _ Hb Hst).
  apply list_elem_of_fmap in Hu as (a & Hc & Ha). rewrite <- El in Ha.
  apply elem_of_kept in Ha as [_ Ha]. unfold isActive in Ha. zprop. lia.
Qed.

Lemma ok_promised c f st :
  inv_but c st -> (forall cl, upload (f cl) = Uploading) -> ok bound total (update c f st).
Proof.
  intros [H1 H2 H3 H4 H5 H6 H7 H8] Hf. split; [done..|].
  eapply Forall_impl; [exact H5|]. intros a Ha. simpl in Ha. rewrite clients_update.
  destruct (decide (c = aclient a)) as [_|Hne]; [done|]. destruct Ha; [by subst|done].
Qed.

Lemma inv_promised c f st :
  inv_but c st -> (strict -> c ∈ (aclient <$> active st)) ->
  (forall cl, upload (f cl) = Uploading) -> inv (update c f st).
Proof.
  intros Hb Hc Hf. split; [by apply ok_promised|].
  intros Hst d. rewrite clients_update. destruct (decide (c = d)) as [<-|Hne]; [by auto|].
  apply (but_settled _ _ Hb Hst). congruence.
Qed.

Lemma inv_not_pending c st : inv st -> inv (update c (set_slotPending false) st).
Proof.
  intros [[K1 K2 K3 K4 K5] K6]. split.
  - split; [done..|]. eapply Forall_impl; [exact K5|]. intros a Ha.
    rewrite clients_update. by destruct (decide (c = aclient a)).
  - intros Hst d Hd. apply (K6 Hst). rewrite clients_update in Hd.
    destruct (decide (c = d)) as [<-|Hne]; [|done]. by destruct Hd; [left|].
Qed.

Lemma inv_grantSlot_with remove c st :
  (forall st, inv_but c st -> inv (remove c st)) ->
  inv_but c st -> (strict -> c ∈ (aclient <$> active st)) -> inv (grantSlot_with remove c st).
Proof.
  intros Hr Hb Hc. unfold grantSlot_with. destruct (uploadFile _) as [f|]; [|by apply Hr].
  destruct (_ || _).
  - assert (Hi : inv (update c (fun cl => set_upload Uploading (set_slotPending true cl)) st))
      by (by apply inv_promised).
    destruct (_ && _); [|done]. destruct (_ || _); [|by apply inv_update].
    apply Hr. apply inv_to_but; [|intros _; rewrite clients_update; by rewrite decide_True].
    by apply inv_not_pending.
  - by apply inv_send, inv_promised.
Qed.

(** Client [c] moves from [waiting_] to [active_]. *)
Lemma inv_moved now before best behind st :
  inv st -> waiting st = before ++ best :: behind -> len (active st) < slots st ->
  inv_but (wclient best) (activate now before best behind st).
Proof.
  intros [[H1 H2 H3 H4 H5] H6] Hw Hfree. pose proof (queued_activate now _ _ _ _ Hw) as Hperm.
  set (c := wclient best) in *.
  assert (Hn : c ∉ (aclient <$> active st)).
  { intros Hin. unfold queued in H4. apply NoDup_app in H4 as (_ & Hd & _).
    apply (Hd c); [|done]. rewrite Hw, fmap_app. simpl. set_solver. }
  split; [done| | | | | | |].
  - unfold len in *. simpl. rewrite length_app. simpl. lia.
  - unfold len in *. by rewrite Hperm.
  - by rewrite Hperm.
  - simpl. apply Forall_app. split; [|by constructor; [left|]].
    eapply Forall_impl; [exact H5|]. auto.
  - intros Hst d _ Hd. simpl. rewrite fmap_app. apply elem_of_app. left. by apply H6.
  - intros Hst. simpl. apply not_true_is_false. intros Hp. apply Hn, H6; auto.
  - intros Hst _. simpl. rewrite fmap_app. set_solver.
Qed.

Lemma inv_grantN fuel now st : inv st -> inv (grantN fuel now st).
Proof.
  revert now st. induction fuel as [|fuel IH]; intros now st Hi; simpl.
  - destruct (_ <? _); [|done]. by destruct (waiting st).
  - destruct (len (active st) <? slots st) eqn:Ef; [|done].
    destruct (waiting st) as [|w rest] eqn:Ew; [done|].
    destruct (maxElement _ _ _ _ _) as [[before best] behind] eqn:Em.
    apply maxElement_split in Em. simpl in Em. zprop. apply IH. apply inv_grantSlot_with.
    + intros st' Hb. by apply inv_remove_with.
    + apply inv_moved; [done| |done]. by rewrite Ew, Em.
    + intros _. simpl. rewrite fmap_app. set_solver.
Qed.

Lemma inv_grant now st : inv st -> inv (grant now st).
Proof. apply inv_grantN. Qed.

Lemma inv_remove_but c st : inv_but c st -> inv (remove c st).
Proof. apply inv_remove_with. apply inv_grant. Qed.

Lemma inv_remove c st :
  inv st -> (strict -> slotPending (clients st c) = false) -> inv (remove c st).
Proof. intros Hi Hp. by apply inv_remove_but, inv_to_but. Qed.

Lemma inv_fewer_waiting l st :
  l `sublist_of` waiting st -> inv st -> inv (with_waiting l st).
Proof.
  intros Hl [[H1 H2 H3 H4 H5] H6].
  assert (Hsub : queued (with_waiting l st) `sublist_of` queued st) by (by apply queued_sublist).
  split; [|done]. split; try done.
  - pose proof (len_sublist _ _ Hsub). lia.
  - by eapply sublist_NoDup.
Qed.

Lemma revokeSlot_fields c st d :
  sessionUploaded (clients (revokeSlot c st) d) = sessionUploaded (clients st d) /\
  slotPending (clients (revokeSlot c st) d) = slotPending (clients st d).
Proof.
  unfold revokeSlot. destruct (is_uploading _); [|done].
  rewrite clients_update, clients_send. by destruct (decide (c = d)).
Qed.

Lemma revokeSlot_upload c st d :
  upload (clients (revokeSlot c st) d) =
    if decide (c = d) then (if is_uploading (clients st d) then UploadNone else upload (clients st d))
    else upload (clients st d).
Proof.
  unfold revokeSlot. destruct (is_uploading (clients st c)) eqn:Eu.
  - rewrite clients_update, clients_send. destruct (decide (c = d)) as [<-|]; [by rewrite Eu|done].
  - destruct (decide (c = d)) as [<-|]; [by rewrite Eu|done].
Qed.

Lemma revokeSlot_queue c st :
  waiting (revokeSlot c st) = waiting st /\ active (revokeSlot c st) = active st /\
  slots (revokeSlot c st) = slots st.
Proof. unfold revokeSlot, send. destruct (is_uploading _); [destruct (connection _)|]; done. Qed.

(** One round of the loop of [tick] over the sessions. *)
Lemma inv_requeue now kept a l st :
  inv (with_active (kept ++ a :: l) st) ->
  (strict -> slotPending (clients st (aclient a)) = false) ->
  inv (with_active (kept ++ l)
    (with_waiting (waiting (revokeSlot (aclient a) st) ++ [mkWaiting (aclient a) now now])
      (revokeSlot (aclient a) st))).
Proof.
  intros [[H1 H2 H3 H4 H5] H6] Hp. simpl in *.
  pose proof (revokeSlot_queue (aclient a) st) as (Ew & _ & Es). rewrite Ew.
  set (st' := with_active _ _).
  assert (Hperm : queued st' ≡ₚ queued (with_active (kept ++ a :: l) st)).
  { unfold queued, st'. simpl. rewrite !fmap_app. simpl. solve_Permutation. }
  assert (Hne : Forall (fun b => aclient b <> aclient a) (kept ++ l)).
  { apply Forall_forall. intros b Hb Heq.
    assert (Hnd : NoDup (aclient <$> a :: kept ++ l)).
    { apply NoDup_app in H4 as (_ & _ & Hnd). simpl in Hnd. rewrite <- Permutation_middle in Hnd. done. }
    simpl in Hnd. apply NoDup_cons in Hnd as [Hnin _]. apply Hnin. rewrite <- Heq.
    apply list_elem_of_fmap. eauto. }
  split; [split|].
  - unfold st'. simpl. by rewrite Es.
  - unfold len in *. rewrite !length_app in *. simpl in *. rewrite length_app. lia.
  - unfold len in *. by rewrite Hperm.
  - by rewrite Hperm.
  - unfold st'. simpl. rewrite Forall_forall in Hne. apply Forall_forall. intros b Hb.
    rewrite revokeSlot_upload, decide_False by (intros ?; by eapply Hne).
    rewrite Forall_forall in H5. apply H5. set_solver.
  - intros Hst d. unfold st'. simpl. rewrite revokeSlot_upload.
    rewrite (proj2 (revokeSlot_fields _ _ _)).
    destruct (decide (aclient a = d)) as [<-|Hd].
    + rewrite (Hp Hst). destruct (is_uploading _) eqn:Eu; [by intros []|].
      intros [Hu|?]; [|done]. apply is_uploading_spec in Hu. congruence.
    + intros Hu. apply (H6 Hst) in Hu. simpl in Hu. rewrite fmap_app in *. simpl in Hu. set_solver.
Qed.

Lemma inv_rotate now kept l st :
  inv (with_active (kept ++ l) st) ->
  (strict -> Forall (fun a => sessionOver now (clients st (aclient a)) a = true ->
                              slotPending (clients st (aclient a)) = false) l) ->
  inv (rotate now kept l st).
Proof.
  revert kept st. induction l as [|a l IH]; intros kept st Hi Hq; simpl.
  - by rewrite app_nil_r in Hi.
  - destruct (sessionOver _ _ _) eqn:Eo.
    + apply IH.
      * apply inv_requeue; [done|]. intros Hst. specialize (Hq Hst). inv Hq. auto.
      * intros Hst. specialize (Hq Hst). inv Hq. eapply Forall_impl; [done|].
        intros b. simpl. unfold sessionOver.
        destruct (revokeSlot_fields (aclient a) st (aclient b)) as [-> ->]. done.
    + apply IH; [by rewrite <- app_assoc|]. intros Hst. specialize (Hq Hst). by inv Hq.
Qed.

Lemma inv_all_uploading st :
  inv st ->
  List.filter (fun a => is_uploading (clients st (aclient a))) (active st) = active st.
Proof.
  intros [[_ _ _ _ H5] _]. induction H5 as [|a l Ha _ IH]; simpl; [done|].
  apply is_uploading_spec in Ha. by rewrite Ha, IH.
Qed.

Lemma with_active_same st : with_active (active st) st = st.
Proof. by destruct st. Qed.

Lemma inv_tick now st :
  inv st ->
  (strict -> Forall (fun a => sessionOver now (clients st (aclient a)) a = true ->
                              slotPending (clients st (aclient a)) = false) (active st)) ->
  inv (tick now st).
Proof.
  intros Hi Hq. unfold tick. set (l := List.filter _ (waiting st)).
  assert (Hw : inv (with_waiting l st)) by (apply inv_fewer_waiting; [apply sublist_kept|done]).
  set (st1 := match waiting (with_waiting l st) with [] => _ | _ => _ end).
  assert (H1 : inv st1).
  { unfold st1. destruct (waiting (with_waiting l st)); [done|]. apply inv_rotate; [|done].
    simpl. change (with_active (active st) (with_waiting l st)) with
      (with_active (active (with_waiting l st)) (with_waiting l st)). by rewrite with_active_same. }
  rewrite (inv_all_uploading st1 H1), with_active_same. by apply inv_grant.
Qed.

Lemma askedAgain_clients c now l : wclient <$> askedAgain c now l = wclient <$> l.
Proof. induction l as [|w l IH]; [done|]. cbn. destruct (isWaiting c w); cbn; [done|]. f_equal. exact IH. Qed.

Lemma findWaiting_None c l : findWaiting c l = None -> c ∉ (wclient <$> l).
Proof.
  intros Hn (w & -> & Hw)%list_elem_of_fmap. apply list_elem_of_In in Hw.
  pose proof (List.find_none _ _ Hn w Hw) as Hc. unfold isWaiting in Hc. zprop. lia.
Qed.

Lemma isActive_none c l : existsb (isActive c) l = false -> c ∉ (aclient <$> l).
Proof.
  intros He (a & -> & Ha)%list_elem_of_fmap. apply list_elem_of_In in Ha.
  apply not_true_iff_false in He. apply He. apply existsb_exists. exists a. split; [done|].
  unfold isActive. zprop. lia.
Qed.

Lemma inv_enter c now st :
  inv st -> c ∉ queued st -> len (waiting st) < maxWaiting ->
  inv (with_waiting (waiting st ++ [mkWaiting c now now]) st).
Proof.
  intros [[H1 H2 H3 H4 H5] H6] Hn Hl. set (st' := with_waiting _ _).
  assert (Hperm : queued st' ≡ₚ c :: queued st).
  { unfold queued, st'. simpl. rewrite fmap_app. simpl. solve_Permutation. }
  split; [|done]. split; try done.
  - unfold len, queued in *. simpl. rewrite !length_app, !length_fmap in *. rewrite length_app. simpl. lia.
  - rewrite Hperm. by apply NoDup_cons.
Qed.

Lemma inv_request c st : inv st -> inv (request c st).2.
Proof.
  intros Hi. unfold request. destruct (existsb _ _) eqn:Ea; [done|].
  destruct (findWaiting c (waiting st)) as [w|] eqn:Ef.
  - apply inv_grant. eapply inv_ext; [..|exact Hi]; try done. apply askedAgain_clients.
  - destruct (_ <=? _) eqn:El; [done|]. zprop. apply inv_grant. apply inv_enter; [done| |lia].
    unfold queued. rewrite elem_of_app. intros [H|H].
    + by apply (findWaiting_None c (waiting st)).
    + by apply (isActive_none c (active st)).
Qed.

Lemma inv_not_uploading c f st :
  (forall cl, upload (f cl) <> Uploading) -> (forall cl, slotPending (f cl) = slotPending cl) ->
  is_uploading (clients st c) = false -> inv st -> inv (update c f st).
Proof.
  intros Hf Hp Hu [Hok Hs].
  assert (Hn : Forall (fun a => aclient a <> c) (active st)).
  { eapply Forall_impl; [exact (ok_uploading _ _ _ Hok)|]. intros a Ha <-. simpl in Ha.
    apply is_uploading_spec in Ha. congruence. }
  split; [by apply ok_update_other|]. intros Hst d. rewrite clients_update.
  destruct (decide (c = d)) as [<-|Hne]; [|by apply Hs].
  intros [H|H]; [by apply Hf in H|]. apply (Hs Hst). rewrite Hp in H. auto.
Qed.

Lemma inv_answerUploadRequest c payload st : inv st -> inv (answerUploadRequest c payload st).1.
Proof.
  intros Hi. unfold answerUploadRequest. destruct (_ <? _); [done|].
  destruct (sharedFile _ _) as [f|]; [|by apply inv_send].
  destruct (_ && _); [by apply inv_send|].
  assert (Hr : inv (request c (update c (set_uploadFile (Some f)) st)).2)
    by (by apply inv_request, inv_update).
  destruct (request c _) as [r st1]. simpl in Hr.
  destruct (_ && _) eqn:Er; [|done]. zprop. apply inv_send. by apply inv_not_uploading.
Qed.

Lemma inv_answerPartRequest c payload large st : inv st -> inv (answerPartRequest c payload large st).1.
Proof.
  intros Hi. unfold answerPartRequest. repeat case_match; try done; by apply inv_update.
Qed.

Lemma inv_closed c conn st :
  inv st -> (strict -> slotPending (clients st c) = false) -> inv (closed c conn st).
Proof.
  intros Hi Hp. unfold closed. destruct (connection (clients st c)) as [[k o]|]; [|done].
  destruct (k =? conn); [|done].
  assert (Hu : inv (update c (fun cl => set_handshaked false (set_connection None cl)) st))
    by (by apply inv_update).
  destruct (is_uploading _); [|done]. apply inv_remove; [done|]. intros Hst.
  rewrite clients_update. destruct (decide (c = c)); [|done]. simpl. auto.
Qed.

Lemma inv_caught c r :
  inv r.1 -> (strict -> is_Some r.2 -> slotPending (clients r.1 c) = false) -> inv (caught c r).
Proof.
  intros Hi Hp. unfold caught. destruct r.2 as [e|] eqn:E; [|done].
  destruct (connection _) as [[k o]|]; [|done]. apply inv_closed; [done|]. eauto.
Qed.

Lemma inv_handshakeDone c st : inv st -> inv (handshakeDone c st).
Proof.
  intros Hi. unfold handshakeDone.
  assert (Hh : inv (update c (set_handshaked true) st)) by (by apply inv_update).
  destruct (slotPending _) eqn:Ep; [|done]. apply inv_grantSlot_with.
  - intros st'. apply inv_remove_but.
  - apply inv_to_but; [by apply inv_not_pending|]. intros _. rewrite clients_update.
    by rewrite decide_True.
  - intros Hst. apply Hh; auto.
Qed.

Lemma inv_connectFailed c st : inv st -> inv (connectFailed c st).
Proof.
  intros Hi. unfold connectFailed.
  assert (Hh : inv (update c (set_connecting false) st)) by (by apply inv_update).
  destruct (slotPending _); [|done]. apply inv_remove; [by apply inv_not_pending|].
  intros _. rewrite clients_update. by rewrite decide_True.
Qed.

Lemma inv_adopt c self st :
  inv st -> (strict -> slotPending (clients st self) = true -> connection (clients st self) = None) ->
  inv (adopt c self st).
Proof.
  intros Hi Hp. unfold adopt. apply inv_handshakeDone, inv_update; [done..|].
  assert (Hc : inv (update c (set_connection None) st)) by (by apply inv_update).
  destruct (connection (clients (update _ _ _) self)) as [[old o]|] eqn:Eo; [|done].
  destruct (bool_decide _); [done|]. apply inv_closed; [done|]. intros Hst.
  rewrite clients_update in Eo |- *. destruct (decide (c = self)); [done|].
  apply not_true_is_false. intros H. rewrite Hp in Eo; done.
Qed.

Lemma inv_revokeSlot c st : inv st -> c ∉ (aclient <$> active st) -> inv (revokeSlot c st).
Proof.
  intros Hi Hc. unfold revokeSlot. destruct (is_uploading _) eqn:Eu; [|done].
  destruct (inv_send c OutOfPartRequests st Hi) as [Hok _]. split.
  - apply ok_update_other; [done|]. rewrite active_send. apply Forall_forall. intros a Ha <-.
    apply Hc, list_elem_of_fmap. eauto.
  - intros Hst. exfalso. apply Hc. apply Hi; [done|]. left. by apply is_uploading_spec.
Qed.

Lemma inv_dropUploads f c st :
  inv st -> (strict -> uploadFile (clients st c) = Some f -> slotPending (clients st c) = false) ->
  inv (dropUploads f c st).
Proof.
  intros Hi Hp. unfold dropUploads. case_bool_decide as Hf; [|done].
  apply inv_revokeSlot; [apply inv_remove; auto|].
  intros Hc. apply (remove_gone c st). apply elem_of_app. by right.
Qed.

Lemma inv_drops f cs st :
  inv st -> (strict -> quiet_drops f cs st) -> inv (foldl (fun st c => dropUploads f c st) st cs).
Proof.
  revert st. induction cs as [|c cs IH]; intros st Hi Hq; simpl; [done|].
  apply IH; [|intros Hst; by apply Hq]. apply inv_dropUploads; [done|]. intros Hst. by apply Hq.
Qed.

Lemma inv_detach f st :
  inv st -> (strict -> quiet_drops f (known st) (unlist f st)) -> inv (detach f st).
Proof.
  intros Hi Hq. unfold detach.
  replace (known (unlist f st)) with (known st) by (unfold unlist; by case_bool_decide).
  apply inv_drops; [|done]. unfold unlist. case_bool_decide; [|done].
  by eapply inv_ext; [..|exact Hi].
Qed.

Lemma answerUploadRequest_thrown c payload st :
  is_Some (answerUploadRequest c payload st).2 -> (answerUploadRequest c payload st).1 = st.
Proof.
  unfold answerUploadRequest. intros [e He]. repeat case_match; simplify_eq/=; done.
Qed.

Lemma answerPartRequest_pending c payload large st d :
  slotPending (clients (answerPartRequest c payload large st).1 d) = slotPending (clients st d).
Proof.
  unfold answerPartRequest. destruct (parse _ _) as [[[ranges hash]|]|]; try done.
  destruct (uploadFile _); [|done]. destruct (_ || _); [done|].
  destruct (queueRanges _ _ _) as [requests good]. cbn [fst].
  rewrite clients_update. by destruct (decide (c = d)).
Qed.

Lemma inv_delivered c content st : inv st -> inv (delivered c content st).
Proof.
  intros Hi. unfold delivered, uploaded.
  assert (Hu : inv (update c (fun cl => set_sessionUploaded (u64 (sessionUploaded cl + content)) cl) st))
    by (by apply inv_update).
  destruct (_ =? _); [|done]. by eapply inv_ext; [..|exact Hu].
Qed.

Lemma inv_served c r st : inv st -> inv (served c r st).
Proof.
  intros Hi. unfold served. destruct (uploadRequests _); [done|].
  case_bool_decide; [by apply inv_update|done].
Qed.

Lemma touched_clients c st : wclient <$> waiting (touched c st) = wclient <$> waiting st.
Proof.
  unfold touched. simpl. rewrite <- list_fmap_compose. apply list_fmap_ext.
  intros i w _. simpl. by destruct (isWaiting c w).
Qed.

Lemma inv_exec e st :
  (forall n, e = SetSlots n -> Z.max 1 n <= bound) ->
  (strict -> quiet e st) -> inv st -> inv (exec e st).
Proof.
  intros Hn Hq Hi. destruct e; simpl in *.
  - destruct Hi as [[H1 H2 H3 H4 H5] H6]. split; [|done]. split; try done. by apply Hn.
  - by eapply inv_ext; [..|exact Hi].
  - by apply inv_tick.
  - apply inv_caught; [by apply inv_answerUploadRequest|]. intros Hst Ht.
    rewrite answerUploadRequest_thrown by done. by apply Hq.
  - apply inv_caught; [by apply inv_answerPartRequest|]. intros Hst Ht.
    rewrite answerPartRequest_pending. by apply Hq.
  - destruct (_ =? _); [done|]. eapply inv_ext; [..|exact Hi]; try done. apply touched_clients.
  - by apply inv_remove.
  - by apply inv_handshakeDone.
  - by apply inv_update.
  - by apply inv_connectFailed.
  - by apply inv_closed.
  - by apply inv_update.
  - by apply inv_adopt.
  - by eapply inv_ext; [..|exact Hi].
  - by apply inv_detach.
  - by apply inv_delivered.
  - by apply inv_served.
  - unfold downloaded. destruct (_ =? _); [|done]. by eapply inv_ext; [..|exact Hi].
Qed.

Lemma inv_exec_all es st :
  Forall (fun e => forall n, e = SetSlots n -> Z.max 1 n <= bound) es ->
  (strict -> quiet_all es st) -> inv st -> inv (exec_all es st).
Proof.
  intros Hn. revert st. induction Hn as [|e es He _ IH]; intros st Hq Hi; simpl; [done|].
  apply IH; [intros Hst; by apply Hq|]. apply inv_exec; [done| |done]. intros Hst. by apply Hq.
Qed.

End invariant.

(** ** The rounds of [grant] *)

Lemma remove_with_ext g1 g2 c st :
  (forall now st', (length (waiting st') <= length (waiting st))%nat -> g1 now st' = g2 now st') ->
  remove_with g1 c st = remove_with g2 c st.
Proof.
  intros Hg. unfold remove_with. change (with_active _ _) with (erased c st).
  destruct (negb _); [|done]. apply Hg.
  etrans; [apply shrinks_waiting, shrinks_revokeSlot|]. apply List.filter_length_le.
Qed.

Lemma grantSlot_with_ext r1 r2 c st :
  (forall st', waiting st' = waiting st -> r1 c st' = r2 c st') ->
  grantSlot_with r1 c st = grantSlot_with r2 c st.
Proof.
  intros Hr. unfold grantSlot_with. destruct (uploadFile _); [|by apply Hr].
  destruct (_ || _); [|done]. destruct (_ && _); [|done]. destruct (_ || _); [|done]. by apply Hr.
Qed.

Lemma grantN_enough f1 f2 now st :
  (length (waiting st) <= f1)%nat -> (length (waiting st) <= f2)%nat ->
  grantN f1 now st = grantN f2 now st.
Proof.
  revert f2 now st. induction f1 as [|f1 IH]; intros f2 now st H1 H2.
  - destruct (waiting st) as [|w l] eqn:Ew; [|simpl in H1; lia].
    destruct f2; simpl; by rewrite Ew.
  - destruct f2 as [|f2].
    { destruct (waiting st) as [|w l] eqn:Ew; [|simpl in H2; lia]. simpl. by rewrite Ew. }
    simpl. destruct (_ <? _); [|done]. destruct (waiting st) as [|w rest] eqn:Ew; [done|].
    destruct (maxElement _ _ _ _ _) as [[before best] behind] eqn:Em.
    apply maxElement_split, (f_equal length) in Em. simpl in *. rewrite length_app in Em. simpl in Em.
    assert (Hl : length (waiting (activate now before best behind st)) = length rest).
    { simpl. rewrite length_app. lia. }
    rewrite (grantSlot_with_ext _ (remove_with (grantN f2))).
    + apply IH; (etrans; [apply shrinks_waiting, shrinks_grantSlot_with; intros;
        apply shrinks_remove_with, shrinks_grantN|]); lia.
    + intros st' Hw. apply remove_with_ext. intros now' st'' Hle. apply IH; rewrite Hw in Hle; lia.
Qed.

(** The choice of [std::max_element] needs only that the comparison is
    transitive and asymmetric. *)
Lemma maxElement_best (key : Waiting -> double) before best behind rest b x k :
  maxElement (fun a b => dltb (key a) (key b)) before best behind rest = (b, x, k) ->
  Forall (fun w => dltb (key best) (key w) = false) (before ++ best :: behind) ->
  Forall (fun w => dltb (key x) (key w) = false) (b ++ x :: k).
Proof.
  revert before best behind. induction rest as [|w rest IH]; simpl; intros before best behind.
  - by intros [= <- <- <-].
  - destruct (dltb (key best) (key w)) eqn:E; intros Hm Hall; (eapply IH; [exact Hm|]).
    + rewrite Forall_app. split; [|by constructor; [apply dltb_irrefl|]].
      eapply Forall_impl; [exact Hall|]. intros v Hv. simpl in *. apply not_true_is_false.
      intros Hw. rewrite (dltb_trans _ _ _ E Hw) in Hv. done.
    + rewrite app_comm_cons, app_assoc. rewrite Forall_app. split; [done|]. by constructor.
Qed.

(** ** Slots in use *)

Lemma full_update c f st : full st -> full (update c f st).
Proof. done. Qed.

Lemma full_send c m st : full st -> full (send c m st).
Proof. unfold send. by destruct (connection _). Qed.

Lemma full_grantSlot c st : full st -> full (grantSlot c st).
Proof.
  intros Hf. unfold grantSlot, grantSlot_with. destruct (uploadFile _); [|by apply full_remove].
  destruct (_ || _); [|by apply full_send]. destruct (_ && _); [|done].
  destruct (_ || _); [by apply full_remove|done].
Qed.

Lemma full_revokeSlot c st : full st -> full (revokeSlot c st).
Proof. unfold full. by destruct (revokeSlot_queue c st) as (-> & -> & ->). Qed.

Lemma full_request c st : full st -> full (request c st).2.
Proof.
  intros Hf. unfold request. destruct (existsb _ _); [done|].
  destruct (findWaiting _ _); [apply full_grant|]. destruct (_ <=? _); [done|apply full_grant].
Qed.

Lemma full_closed c conn st : full st -> full (closed c conn st).
Proof.
  intros Hf. unfold closed. destruct (connection _) as [[k o]|]; [|done].
  destruct (_ =? _); [|done]. destruct (is_uploading _); [by apply full_remove|done].
Qed.

Lemma full_caught c r : full r.1 -> full (caught c r).
Proof.
  intros Hf. unfold caught. destruct r.2; [|done].
  destruct (connection _) as [[k o]|]; [by apply full_closed|done].
Qed.

Lemma full_handshakeDone c st : full st -> full (handshakeDone c st).
Proof.
  intros Hf. unfold handshakeDone. destruct (slotPending _); [by apply full_grantSlot|done].
Qed.

Lemma full_answers c payload large st :
  full st -> full (answerUploadRequest c payload st).1 /\ full (answerPartRequest c payload large st).1.
Proof.
  intros Hf. split.
  - unfold answerUploadRequest. destruct (_ <? _); [done|].
    destruct (sharedFile _ _) as [f|]; [|by apply full_send].
    destruct (_ && _); [by apply full_send|].
    pose proof (full_request c (update c (set_uploadFile (Some f)) st) Hf) as Hr.
    destruct (request c _) as [r st1]. destruct (_ && _); [by apply full_send|done].
  - unfold answerPartRequest. by repeat case_match.
Qed.

Lemma full_detach f st : full st -> full (detach f st).
Proof.
  intros Hf. unfold detach.
  assert (H1 : full (unlist f st)) by (unfold unlist; by case_bool_decide).
  generalize (known (unlist f st)). intros cs. revert H1. generalize (unlist f st). clear.
  induction cs as [|c cs IH]; intros st Hf; simpl; [done|]. apply IH. unfold dropUploads.
  case_bool_decide; [|done]. by apply full_revokeSlot, full_remove.
Qed.

Lemma full_exec e st : (forall n, e <> SetSlots n) -> full st -> full (exec e st).
Proof.
  intros Hn Hf. destruct e; simpl; try done.
  - by destruct (Hn n).
  - apply full_grant.
  - by apply full_caught, (full_answers c payload true).
  - by apply full_caught, full_answers.
  - destruct (_ =? _); [done|]. eapply full_shrunk; [| | |exact Hf]; try done.
    simpl. by rewrite length_fmap.
  - by apply full_remove.
  - by apply full_handshakeDone.
  - unfold connectFailed. destruct (slotPending _); [by apply full_remove|done].
  - by apply full_closed.
  - unfold adopt. apply full_handshakeDone. apply full_update.
    destruct (connection _) as [[k o]|]; [|done]. case_bool_decide; [done|by apply full_closed].
  - by apply full_detach.
  - unfold delivered, uploaded. by destruct (_ =? _).
  - unfold served. destruct (uploadRequests _); [done|]. by case_bool_decide.
  - unfold downloaded. by destruct (_ =? _).
Qed.

(** ** The limit *)

Lemma slots_send c m st : slots (send c m st) = slots st.
Proof. apply shrinks_send. Qed.
Lemma slots_revokeSlot c st : slots (revokeSlot c st) = slots st.
Proof. apply shrinks_revokeSlot. Qed.
Lemma slots_grant now st : slots (grant now st) = slots st.
Proof. apply shrinks_grantN. Qed.
Lemma shrinks_remove c st : shrinks st (remove c st).
Proof. apply shrinks_remove_with. intros. apply shrinks_grantN. Qed.
Lemma slots_remove c st : slots (remove c st) = slots st.
Proof. apply shrinks_remove. Qed.
Lemma slots_grantSlot c st : slots (grantSlot c st) = slots st.
Proof. apply shrinks_grantSlot_with. intros. apply shrinks_remove. Qed.
Lemma slots_rotate now kept l st : slots (rotate now kept l st) = slots st.
Proof.
  revert kept st. induction l as [|a l IH]; intros kept st; simpl; [done|].
  destruct (sessionOver _ _ _); rewrite IH; simpl; [apply slots_revokeSlot|done].
Qed.
Create Rewrite HintDb limit.
#[local] Hint Rewrite slots_send slots_revokeSlot slots_grant slots_remove slots_grantSlot slots_rotate : limit.
Ltac keeps_limit := repeat first [case_match | progress (autorewrite with limit; simpl) | done].

Lemma slots_closed c conn st : slots (closed c conn st) = slots st.
Proof. unfold closed. keeps_limit. Qed.
Lemma slots_handshakeDone c st : slots (handshakeDone c st) = slots st.
Proof. unfold handshakeDone. keeps_limit. Qed.
Lemma slots_request c st : slots (request c st).2 = slots st.
Proof. unfold request. keeps_limit. Qed.
Lemma slots_answers c payload large st :
  slots (answerUploadRequest c payload st).1 = slots st /\ slots (answerPartRequest c payload large st).1 = slots st.
Proof.
  split; [|unfold answerPartRequest; by repeat case_match]. unfold answerUploadRequest. destruct (_ <? _); [done|].
  destruct (sharedFile _ _) as [f|]; [|apply slots_send]. destruct (_ && _); [apply slots_send|].
  pose proof (slots_request c (update c (set_uploadFile (Some f)) st)) as Hr. destruct (request c _) as [r st1]. simpl in Hr.
  keeps_limit.
Qed.
Lemma slots_detach f st : slots (detach f st) = slots st.
Proof.
  unfold detach. trans (slots (unlist f st)); [|unfold unlist; by case_bool_decide].
  generalize (known (unlist f st)). intros cs. generalize (unlist f st). clear st.
  induction cs as [|c cs IH]; intros st; simpl; [done|]. rewrite IH. unfold dropUploads, leaveUploadQueue. keeps_limit.
Qed.
#[local] Hint Rewrite slots_closed slots_handshakeDone slots_detach : limit.
Lemma slots_exec e st : (forall n, e <> SetSlots n) -> slots (exec e st) = slots st.
Proof.
  intros Hn. destruct e; simpl; try done.
  - by destruct (Hn n).
  - unfold tick. keeps_limit.
  - destruct (slots_answers c payload true st) as [<- _]. unfold caught. keeps_limit.
  - destruct (slots_answers c payload large st) as [_ <-]. unfold caught. keeps_limit.
  - by destruct (_ =? _).
  - apply slots_remove.
  - apply slots_handshakeDone.
  - unfold connectFailed. keeps_limit.
  - apply slots_closed.
  - unfold adopt. keeps_limit.
  - apply slots_detach.
  - unfold delivered, uploaded. keeps_limit.
  - unfold served. keeps_limit.
  - unfold downloaded. keeps_limit.
Qed.

(** ** Requests for data *)

Definition offsetLimit (large : bool) : Z := if large then 2 ^ 63 else 2 ^ 32.

Lemma reads_offset large v :
  0 <= v < offsetLimit large -> reads (readOffset large) (PeerProtocol.packOffset large v) v.
Proof.
  intros Hv. unfold readOffset, PeerProtocol.packOffset. destruct large; simpl in Hv.
  - eapply reads_last; [apply reads_u64; lia|].
    replace (i64 v) with v; [apply reads_ret|]. unfold i64. rewrite Z.mod_small; lia.
  - by apply reads_u32.
Qed.

Lemma len_packOffset large v : len (PeerProtocol.packOffset large v) = if large then 8 else 4.
Proof. unfold PeerProtocol.packOffset. by destruct large; apply len_pack. Qed.

(** The [i]-th begin and end of a request. *)
Definition beginAt (ranges : list PeerProtocol.PartRange) (i : nat) : Z :=
  match ranges !! i with Some r => PeerProtocol.begin_ r | None => 0 end.
Definition endAt (ranges : list PeerProtocol.PartRange) (i : nat) : Z :=
  match ranges !! i with Some r => PeerProtocol.end_ r | None => 0 end.
Definition pair_of (r : PeerProtocol.PartRange) : Range := (PeerProtocol.begin_ r, PeerProtocol.end_ r).
Definition good_range (large : bool) (r : PeerProtocol.PartRange) : Prop :=
  0 <= PeerProtocol.begin_ r < PeerProtocol.end_ r /\ PeerProtocol.end_ r < offsetLimit large.

Lemma offsets_in_range large ranges i :
  Forall (good_range large) ranges ->
  0 <= beginAt ranges i < offsetLimit large /\ 0 <= endAt ranges i < offsetLimit large.
Proof.
  intros Hr. unfold beginAt, endAt. assert (0 < offsetLimit large) by (by destruct large).
  destruct (ranges !! i) as [r|] eqn:E; [|lia].
  eapply Forall_lookup_1 in Hr as [H1 H2]; [|exact E]. lia.
Qed.

Lemma offset_good large v : 0 <= v < offsetLimit large -> PeerProtocol.badOffset large v = false.
Proof.
  unfold PeerProtocol.badOffset, offsetLimit. destruct large; intros Hv; zprop; simpl; lia.
Qed.

Lemma partRanges_written large ranges :
  len ranges <= 3 -> Forall (good_range large) ranges ->
  partRanges (beginAt ranges <$> [0; 1; 2]%nat) (endAt ranges <$> [0; 1; 2]%nat) =
    Some (pair_of <$> ranges).
Proof.
  intros Hl Hg.
  assert (Hstep : forall r begins ends, good_range large r ->
    partRanges (PeerProtocol.begin_ r :: begins) (PeerProtocol.end_ r :: ends) =
      (rs ← partRanges begins ends; Some (pair_of r :: rs))).
  { intros r begins ends [H1 H2]. simpl.
    destruct (PeerProtocol.end_ r =? 0) eqn:E; [zprop; lia|]. rewrite andb_false_r.
    destruct (_ <=? _) eqn:E'; [zprop; lia|done]. }
  destruct Hg as [|r1 l H1 Hg]; [done|]. destruct Hg as [|r2 l H2 Hg].
  { exact (Hstep r1 [0; 0] [0; 0] H1). }
  destruct Hg as [|r3 l H3 Hg].
  { etrans; [exact (Hstep r1 [PeerProtocol.begin_ r2; 0] [PeerProtocol.end_ r2; 0] H1)|].
    by rewrite (Hstep r2 [0] [0] H2). }
  destruct l; [|unfold len in Hl; simpl in Hl; lia].
  etrans; [exact (Hstep r1 [_; PeerProtocol.begin_ r3] [_; PeerProtocol.end_ r3] H1)|].
  by rewrite (Hstep r2 [_] [_] H2), (Hstep r3 [] [] H3).
Qed.

Lemma parts_request_written hash ranges large :
  len hash = HASH_LENGTH -> len ranges <= 3 -> Forall (good_range large) ranges ->
  exists payload,
    PeerProtocol.createRequestPartsPayload hash ranges large = Ok payload /\
    parse (parsePartRequestPayload large) payload = Ok (Some (pair_of <$> ranges, hash)).
Proof.
  intros Hh Hl Hg. unfold PeerProtocol.createRequestPartsPayload.
  rewrite hash_valid by done. rewrite (proj2 (Z.ltb_ge 3 (len ranges))) by lia. monad.
  edestruct (appendAll_reads (readOffset large) (fun i =>
    if PeerProtocol.badOffset large (beginAt ranges i) then Err (ProtocolError PeerProtocol.badRange)
    else mret (PeerProtocol.packOffset large (beginAt ranges i))) (beginAt ranges)
    (if large then 8 else 4) [0; 1; 2]%nat hash) as (b & Hb & Lb & Rb).
  { intros i _. destruct (offsets_in_range large ranges i Hg) as [H1 _].
    rewrite offset_good by done. eexists. split; [done|]. split; [apply len_packOffset|by apply reads_offset]. }
  edestruct (appendAll_reads (readOffset large) (fun i =>
    if PeerProtocol.badOffset large (endAt ranges i) ||
       match ranges !! i with Some r => endAt ranges i <=? PeerProtocol.begin_ r | None => false end
    then Err (ProtocolError PeerProtocol.badRange)
    else mret (PeerProtocol.packOffset large (endAt ranges i))) (endAt ranges)
    (if large then 8 else 4) [0; 1; 2]%nat (hash ++ b)) as (e & He & Le & Re).
  { intros i _. destruct (offsets_in_range large ranges i Hg) as [_ H2].
    rewrite offset_good by done. eexists. split; [|split; [apply len_packOffset|by apply reads_offset]].
    destruct (ranges !! i) as [r|] eqn:E; [|done]. simpl. unfold endAt at 1. rewrite E.
    eapply Forall_lookup_1 in Hg as [H3 _]; [|exact E].
    destruct (_ <=? _) eqn:E'; [zprop; lia|done]. }
  exists ((hash ++ b) ++ e). split.
  { unfold beginAt in Hb. unfold mret, result_ret in Hb. rewrite Hb.
    unfold endAt in He. unfold mret, result_ret in He. exact He. }
  apply ends_parse. unfold parsePartRequestPayload. apply ends_size.
  rewrite !len_app, Hh, Lb, Le. change (len [0; 1; 2]%nat) with 3.
  destruct (negb _) eqn:En; [destruct large; zprop; lia|].
  rewrite <- app_assoc. eapply ends_bind; [by apply reads_hash|].
  eapply ends_bind; [exact Rb|]. eapply ends_last; [exact Re|].
  rewrite (partRanges_written large) by done. apply ends_ret.
Qed.

(** A range that [answerPartRequest] takes. *)
Definition takes (fileSize : Z) (r : Range) : Prop :=
  r.2 <= fileSize /\ r.2 - r.1 <= 3 * BLOCK_LENGTH.

Lemma queueRanges_all fileSize wanted requests :
  Forall (takes fileSize) wanted -> NoDup (requests ++ wanted) ->
  queueRanges fileSize wanted requests = (requests ++ wanted, true).
Proof.
  intros Hg. revert requests. induction Hg as [|[b e] wanted [H1 H2] _ IH]; intros requests Hn; simpl in *.
  - by rewrite app_nil_r.
  - destruct (_ || _) eqn:E; [zprop; lia|].
    destruct (existsb _ _) eqn:Ex.
    + apply existsb_exists in Ex as (r & Hin & Heq%bool_decide_eq_true_1). subst r.
      apply list_elem_of_In in Hin. apply NoDup_app in Hn as (_ & Hd & _).
      exfalso. apply (Hd _ Hin). left.
    + rewrite IH; [by rewrite <- app_assoc|]. by rewrite <- app_assoc.
Qed.

Lemma sharedAt_all shared indices :
  Forall (fun i => 0 <= i < len shared) indices -> Forall (eq true) shared -> sharedAt shared indices = Ok tt.
Proof.
  intros Hi Hs. induction Hi as [|i indices Hb _ IH]; simpl; [done|].
  destruct (i <? 0) eqn:E; [zprop; lia|].
  destruct (lookup_lt_is_Some_2 shared (Z.to_nat i)) as [v Hv]; [unfold len in Hb; lia|].
  rewrite Hv. eapply Forall_lookup_1 in Hs; [|exact Hv]. by subst v.
Qed.

Lemma mayServe_shared shared size r :
  Forall (eq true) shared -> len shared = Z.quot (size + PIECE_LENGTH - 1) PIECE_LENGTH ->
  0 <= r.1 < r.2 -> r.2 <= size -> mayServe shared r = Ok tt.
Proof.
  intros Hs Hl H1 H2. destruct r as [b e]. simpl in *. destruct shared as [|v shared]; [done|].
  apply sharedAt_all; [|done]. apply Forall_forall. intros i Hi%elem_of_seqZ.
  rewrite Hl. unfold PIECE_LENGTH in *.
  rewrite Z.quot_div_nonneg in Hi |- * by lia. rewrite (Z.quot_div_nonneg (e - 1)) in Hi by lia. dlia.
Qed.

(** What the packets of a block add up to. *)
Lemma contents_sum chunks data wire offset before :
  0 < wire -> 0 <= data -> 0 <= offset -> wire - offset <= Z.of_nat chunks * chunkSize -> offset < wire ->
  zsum (contents chunks data wire offset before) = data - before.
Proof.
  intros Hw Hd. revert offset before. induction chunks as [|chunks IH]; intros offset before Ho Hc Hlt.
  { unfold chunkSize in Hc. lia. }
  simpl. rewrite (proj2 (Z.ltb_lt _ _) Hlt). unfold zsum. simpl. fold (zsum (contents chunks data wire (offset + chunkSize)
    (before + (Z.quot (data * (offset + Z.min chunkSize (wire - offset))) wire - before)))).
  destruct (Z.lt_ge_cases (offset + chunkSize) wire) as [Hm|Hm].
  - rewrite IH; unfold chunkSize in *; lia.
  - replace (contents chunks _ _ _ _) with (@nil Z).
    + unfold zsum, chunkSize in *. simpl. rewrite Z.min_r by lia.
      replace (data * (offset + (wire - offset))) with (data * wire) by lia.
      rewrite Z.quot_mul by lia. lia.
    + destruct chunks; simpl; [done|]. by rewrite (proj2 (Z.ltb_ge _ _)) by lia.
Qed.

(** ** Ranks *)

Lemma findWaiting_Some c l w : findWaiting c l = Some w -> w ∈ l /\ wclient w = c.
Proof.
  intros Hf. apply List.find_some in Hf as [Hin Hc]. split; [by apply list_elem_of_In|].
  unfold isWaiting in Hc. zprop. done.
Qed.

Lemma filter_length_mono {A} (f g : A -> bool) (l : list A) :
  (forall x, f x = true -> g x = true) -> len (List.filter f l) <= len (List.filter g l).
Proof.
  intros Hfg. unfold len. apply inj_le. induction l as [|x l IH]; simpl; [done|].
  destruct (f x) eqn:E; [rewrite (Hfg x E)|destruct (g x)]; simpl; lia.
Qed.

Lemma rank_found c st w :
  findWaiting c (waiting st) = Some w ->
  rank c st = Z.min (len (List.filter (fun v => dltb (score st w (clock st)) (score st v (clock st)))
                            (waiting st)) + 1) 0xffff.
Proof.
  intros Hf. unfold rank. rewrite Hf. unfold u16. apply Z.mod_small.
  pose proof (len_nonneg (List.filter (fun v => dltb (score st w (clock st)) (score st v (clock st)))
                            (waiting st))). lia.
Qed.

(** ** Theorems *)

(** *** Clients outside the queue are left alone *)

Lemma send_other c m st d : clients (send c m st) d = clients st d.
Proof. by rewrite clients_send. Qed.
Lemma update_other c f st d : c <> d -> clients (update c f st) d = clients st d.
Proof. intros Hne. rewrite clients_update. by rewrite decide_False. Qed.
Lemma revokeSlot_other c st d : c <> d -> clients (revokeSlot c st) d = clients st d.
Proof. intros Hne. unfold revokeSlot. destruct (is_uploading _); [|done]. by rewrite update_other, send_other. Qed.
Lemma remove_with_other grant c st d :
  (forall now st', d ∉ queued st' -> clients (grant now st') d = clients st' d) ->
  c <> d -> d ∉ queued st -> clients (remove_with grant c st) d = clients st d.
Proof.
  intros Hg Hne Hd. unfold remove_with. change (with_active _ _) with (erased c st). destruct (negb _); [|done].
  rewrite Hg; [by rewrite revokeSlot_other|]. intros Hin%(shrinks_queued _ _ (shrinks_revokeSlot _ _)). apply Hd.
  eapply elem_of_submseteq; [exact Hin|]. apply sublist_submseteq, erased_sublist.
Qed.
Lemma grantSlot_with_other remove c st d :
  (forall st', d ∉ queued st' -> clients (remove c st') d = clients st' d) ->
  c <> d -> d ∉ queued st -> clients (grantSlot_with remove c st) d = clients st d.
Proof.
  intros Hr Hne Hd. unfold grantSlot_with. destruct (uploadFile _); [|by apply Hr]. destruct (_ || _).
  - destruct (_ && _); [|by rewrite update_other]. destruct (_ || _); [rewrite Hr by done|]; by rewrite !update_other.
  - by rewrite send_other, update_other.
Qed.
Lemma grantN_other fuel : forall now st d, d ∉ queued st -> clients (grantN fuel now st) d = clients st d.
Proof.
  induction fuel as [|fuel IH]; intros now st d Hd; simpl.
  { destruct (_ <? _); [|done]. by destruct (waiting st). }
  destruct (_ <? _); [|done]. destruct (waiting st) as [|w rest] eqn:Ew; [done|].
  destruct (maxElement _ _ _ _ _) as [[before best] behind] eqn:Em. apply maxElement_split in Em. simpl in Em.
  assert (Hw : waiting st = before ++ best :: behind) by congruence.
  pose proof (shrinks_activate now _ _ _ _ Hw) as Hsh. set (st1 := activate now before best behind st) in *.
  assert (Hd1 : d ∉ queued st1) by (intros Hin; by apply Hd, (shrinks_queued _ _ Hsh)).
  assert (Hne : wclient best <> d).
  { intros <-. apply Hd. unfold queued. rewrite Hw, fmap_app. simpl. set_solver. }
  rewrite IH.
  - rewrite grantSlot_with_other; [done| |done|done]. intros st' Hst'.
    apply remove_with_other; [intros now' st'' H'; by apply IH|done|done].
  - intros Hin%(shrinks_queued _ _ (shrinks_grantSlot_with _ _ _ (fun s => shrinks_remove_with _ _ _ (shrinks_grantN fuel)))). done.
Qed.

(** A client that is removed keeps all but its upload. *)
Lemma remove_self c st :
  let cl := clients (remove c st) c in
  slotPending cl = slotPending (clients st c) /\ uploadFile cl = uploadFile (clients st c).
Proof.
  unfold remove, remove_with. change (with_active _ _) with (erased c st). destruct (negb _); [|done]. unfold grant.
  rewrite grantN_other; [|intros Hin%(shrinks_queued _ _ (shrinks_revokeSlot _ _)); by apply erased_gone in Hin].
  unfold revokeSlot. destruct (is_uploading _); [|done]. rewrite clients_update, decide_True by done. by rewrite send_other.
Qed.

(** No event lowers the limit from [n] slots on. *)
Fixpoint raising (n : Z) (es : list event) : Prop :=
  match es with
  | [] => True
  | SetSlots m :: es => n <= Z.max 1 m /\ raising (Z.max 1 m) es
  | _ :: es => raising n es
  end.

Lemma limit_event e : (exists n, e = SetSlots n) \/ forall n, e <> SetSlots n.
Proof. destruct e; eauto. Qed.
Lemma active_exec bound total e st :
  ok bound total st -> bound <= total -> len (active (exec e st)) <= Z.max (slots st) (len (active st)).
Proof.
  intros [H1 H2 H3 H4 H5] Hb. destruct (limit_event e) as [[n ->]|Hn]; [simpl; lia|].
  set (b := Z.max (slots st) (len (active st))).
  destruct (inv_exec b total False) with (e := e) (st := st) as [Hok _]; try done.
  - unfold b. lia.
  - intros n E. by destruct (Hn n).
  - split; [|done]. split; unfold b; try done; lia.
  - apply (ok_active _ _ _ Hok).
Qed.
Lemma active_exec_all bound es : forall st,
  ok bound bound st -> Forall (fun e => forall n, e = SetSlots n -> Z.max 1 n <= bound) es ->
  len (active st) <= slots st -> raising (slots st) es -> len (active (exec_all es st)) <= slots (exec_all es st).
Proof.
  induction es as [|e es IH]; intros st Hok Hes Ha Hr; [done|]. apply Forall_cons in Hes as [He Hes].
  pose proof (active_exec bound bound e st Hok ltac:(done)) as Hl.
  destruct (inv_exec bound bound False ltac:(done) e st) as [Hok' _]; [done|done|by split|]. simpl. apply IH; try done.
  - destruct (limit_event e) as [[n ->]|Hn]; [simpl in *; lia|]. rewrite slots_exec by done. lia.
  - destruct (limit_event e) as [[n ->]|Hn]; [by destruct Hr|]. rewrite slots_exec by done. destruct e; first [exact Hr|by destruct (Hn n)].
Qed.

(** C7. Start with an empty queue and let no limit on the slots exceed [bound].
    Whatever happens to the clients and the queue - requests, handshakes, lost
    connections, ticks, tasks that go away, new limits -, an event leaves at
    most as many clients with a slot as the limit allows or as had one before,
    since a lower limit takes no slot away; as long as the limit was never
    lowered, no more than the limit have one. A client is waiting or active at
    most once, everyone with a slot counts as uploading, and the queue holds at
    most [maxWaiting] clients on top of [bound]. *)
Theorem upload_queue_invariant bound es e st :
  waiting st = [] -> active st = [] -> 0 <= slots st <= bound ->
  Forall (fun e => forall n, e = SetSlots n -> Z.max 1 n <= bound) (es ++ [e]) ->
  let st1 := exec_all es st in
  let st2 := exec e st1 in
  len (active st2) <= Z.max (slots st1) (len (active st1)) /\
  (raising (slots st) (es ++ [e]) -> len (active st2) <= slots st2) /\
  NoDup (queued st2) /\ Forall (fun a => upload (clients st2 (aclient a)) = Uploading) (active st2) /\
  len (queued st2) <= maxWaiting + bound.
Proof.
  intros Hw Ha Hs Hes st1 st2.
  assert (Hok : ok bound bound st).
  { split; unfold queued; rewrite ?Hw, ?Ha; try constructor; unfold len, maxWaiting; simpl; lia. }
  assert (E2 : st2 = exec_all (es ++ [e]) st) by (unfold st2, st1, exec_all; by rewrite foldl_app).
  apply Forall_app in Hes as Hes'. destruct Hes' as [Hes1 _].
  destruct (inv_exec_all bound bound False ltac:(done) es st Hes1 ltac:(done)) as [Hok1 _]; [by split|].
  destruct (inv_exec_all bound bound False ltac:(done) (es ++ [e]) st Hes ltac:(done)) as [Hok2 _]; [by split|].
  split_and!.
  - by apply (active_exec bound bound).
  - intros Hr. rewrite E2. apply (active_exec_all bound); try done. rewrite Ha. unfold len. simpl. lia.
  - rewrite E2. apply (ok_once _ _ _ Hok2).
  - rewrite E2. apply (ok_uploading _ _ _ Hok2).
  - rewrite E2. apply (ok_size _ _ _ Hok2).
Qed.

(** C26. No slot stays free while a client waits: [tick] hands out every free
    slot, whatever the state is, and no other event than a new slot limit
    leaves a slot free. *)
Theorem slots_never_idle :
  (forall st, full (exec Tick st)) /\
  (forall e st, (forall n, e <> SetSlots n) -> full st -> full (exec e st)).
Proof. split; [intros st; apply full_grant|apply full_exec]. Qed.

(** C27. A free slot goes to a waiting client with the best score: none that
    waits has a higher one. [grant] then is what the loop of the code does: it
    moves this client, tells it, and goes on. *)
Theorem grant_picks_best now st :
  len (active st) < slots st -> waiting st <> [] ->
  exists before best behind,
    waiting st = before ++ best :: behind /\
    Forall (fun w => dltb (score st best now) (score st w now) = false) (waiting st) /\
    grant now st = grant now (grantSlot (wclient best) (activate now before best behind st)).
Proof.
  intros Hfree Hw. destruct (waiting st) as [|w rest] eqn:Ew; [done|].
  destruct (maxElement (fun a b => dltb (score st a now) (score st b now)) [] w [] rest)
    as [[before best] behind] eqn:Em.
  pose proof (maxElement_split _ _ _ _ _ _ _ _ Em) as Hs. simpl in Hs.
  exists before, best, behind. split; [done|]. split.
  - rewrite <- Hs. apply (maxElement_best (fun a => score st a now) _ _ _ _ _ _ _ Em).
    by constructor; [apply dltb_irrefl|].
  - assert (Hl : length (waiting (activate now before best behind st)) = length rest).
    { apply (f_equal length) in Hs. simpl in *. rewrite length_app in *. simpl in Hs. lia. }
    unfold grant at 1. rewrite Ew. simpl. rewrite (proj2 (Z.ltb_lt _ _) Hfree), Ew, Em.
    unfold grantSlot. rewrite (grantSlot_with_ext _ remove).
    + apply grantN_enough; [|done].
      etrans; [apply shrinks_waiting, shrinks_grantSlot_with; intros;
        apply shrinks_remove_with; intros; apply shrinks_grantN|]. lia.
    + intros st' Hw'. apply remove_with_ext. intros now' st'' Hle. rewrite Hw' in Hle.
      apply grantN_enough; lia.
Qed.

Lemma closed_loses c conn open st :
  connection (clients st c) = Some (conn, open) -> upload (clients st c) = Uploading ->
  let cl := clients (closed c conn st) c in
  slotPending cl = slotPending (clients st c) /\ uploadFile cl = uploadFile (clients st c) /\ c ∉ queued (closed c conn st).
Proof.
  intros Hc Hu. unfold closed. rewrite Hc, Z.eqb_refl.
  set (st0 := update c (fun cl => set_handshaked false (set_connection None cl)) st).
  assert (E0 : clients st0 c = set_handshaked false (set_connection None (clients st c))).
  { unfold st0. rewrite clients_update. by rewrite decide_True. }
  assert (Hu0 : is_uploading (clients st0 c) = true) by (rewrite E0; unfold is_uploading; simpl; by rewrite Hu).
  rewrite Hu0. destruct (remove_self c st0) as [-> ->]. rewrite E0. split_and!; [done|done|apply remove_gone].
Qed.
(** The client after its handshake on a new connection, when a slot is pending. *)
Definition accepted (conn : Z) (cl : Client) : Client :=
  set_sessionUploaded 0 (set_upload Uploading (set_slotPending false (set_handshaked true
    (set_handshaked false (set_connection (Some (conn, true)) (set_connecting false cl)))))).
Lemma handshake_accepts c conn f st :
  slotPending (clients st c) = true -> uploadFile (clients st c) = Some f ->
  handshakeDone c (run c conn st) =
  send c AcceptUpload (update c (fun cl => set_sessionUploaded 0 (set_upload Uploading cl))
    (update c (set_slotPending false) (update c (set_handshaked true) (run c conn st)))).
Proof.
  intros Hp Hf. unfold handshakeDone.
  set (st2 := update c (set_handshaked true) (run c conn st)).
  assert (E2 : clients st2 c = set_handshaked true (set_handshaked false (set_connection (Some (conn, true)) (set_connecting false (clients st c))))).
  { unfold st2, run. by rewrite !clients_update, !decide_True by done. }
  rewrite E2. cbn [slotPending set_handshaked set_connection set_connecting]. rewrite Hp.
  unfold grantSlot, grantSlot_with. set (st3 := update c (set_slotPending false) st2).
  assert (E3 : clients st3 c = set_slotPending false (clients st2 c)) by (unfold st3; by rewrite clients_update, decide_True).
  rewrite E3, E2. cbn [uploadFile set_slotPending set_handshaked set_connection set_connecting]. by rewrite Hf.
Qed.

(** C39. A slot leaks when the connection of a client breaks on which it is being
    called back: [revokeSlot] leaves [slotPending_] set, so that the next
    handshake makes the client upload, although it has no slot and does not
    wait for one, in every state. *)
Theorem pending_slot_leaks c conn conn' open f st :
  connection (clients st c) = Some (conn, open) -> upload (clients st c) = Uploading ->
  slotPending (clients st c) = true -> uploadFile (clients st c) = Some f ->
  let st' := exec_all [Closed c conn; Run c conn'; HandshakeDone c] st in
  upload (clients st' c) = Uploading /\ (c ∉ queued st') /\ head (sent st') = Some (c, AcceptUpload).
Proof.
  intros Hc Hu Hp Hf st'. destruct (closed_loses c conn open st Hc Hu) as (Hp1 & Hf1 & Hgone).
  rewrite Hp in Hp1. rewrite Hf in Hf1. set (st1 := closed c conn st) in *.
  change st' with (handshakeDone c (run c conn' st1)). clearbody st1. subst st'.
  rewrite (handshake_accepts c conn' f st1 Hp1 Hf1). set (st3 := update c _ (update c _ (update c _ (run c conn' st1)))).
  assert (E3 : clients st3 c = accepted conn' (clients st1 c)).
  { unfold st3, run. by rewrite !clients_update, !decide_True by done. }
  unfold send. rewrite E3. cbn [connection accepted]. split_and!; [|exact Hgone|done].
  change (upload (clients st3 c) = Uploading). by rewrite E3.
Qed.

(** As long as no slot is taken from a client that is still being called
    back, whoever uploads holds a slot; so there are never more uploads than
    slots. *)
Lemma uploading_holds_slot bound es st :
  ok bound bound st -> settled st ->
  Forall (fun e => forall n, e = SetSlots n -> Z.max 1 n <= bound) es -> quiet_all es st ->
  settled (exec_all es st) /\
  forall cs, NoDup cs -> Forall (fun c => upload (clients (exec_all es st) c) = Uploading) cs ->
    len cs <= bound.
Proof.
  intros Hok Hs Hes Hq.
  destruct (inv_exec_all bound bound True ltac:(done) es st Hes (fun _ => Hq) (conj Hok (fun _ => Hs))) as [Hok' Hs'].
  split; [by apply Hs'|]. intros cs Hn Hu.
  assert (Hsub : cs ⊆+ (aclient <$> active (exec_all es st))).
  { apply NoDup_submseteq; [done|]. intros c Hc. apply Hs'; [done|]. left.
    rewrite Forall_forall in Hu. by apply Hu. }
  apply submseteq_length in Hsub. rewrite length_fmap in Hsub.
  pose proof (ok_active _ _ _ Hok'). unfold len in *. lia.
Qed.

(** The rank that is sent to a client is 0 when it does not wait, and else
    lies between 1 and 65535; who has a better score is not told a worse
    rank. *)
Lemma rank_orders_waiting c st :
  (findWaiting c (waiting st) = None -> rank c st = 0) /\
  (forall w, findWaiting c (waiting st) = Some w ->
    1 <= rank c st <= 0xffff /\
    forall d v, findWaiting d (waiting st) = Some v ->
      dltb (score st w (clock st)) (score st v (clock st)) = true -> rank d st <= rank c st).
Proof.
  split; [intros Hf; unfold rank; by rewrite Hf|]. intros w Hf. rewrite (rank_found c st w Hf).
  pose proof (len_nonneg (List.filter (fun v => dltb (score st w (clock st)) (score st v (clock st)))
                            (waiting st))).
  split; [lia|]. intros d v Hv Hlt. rewrite (rank_found d st v Hv).
  assert (Hle : len (List.filter (fun u => dltb (score st v (clock st)) (score st u (clock st))) (waiting st)) <=
                len (List.filter (fun u => dltb (score st w (clock st)) (score st u (clock st))) (waiting st))).
  { apply filter_length_mono. intros u. by apply dltb_trans. }
  lia.
Qed.

(** What our own downloader asks for, our uploader serves: the payload that
    [createRequestPartsPayload] writes for up to three ranges of a file is read
    back by [answerPartRequest] of a client that uploads the file, every range
    is queued in order, and each passes the check of [uploadLoop] when all
    parts are shared. *)
Lemma requested_parts_are_served c f ranges large st :
  let cl := clients st c in
  let file := tasks st f in
  upload cl = Uploading -> slotPending cl = false -> uploadFile cl = Some f -> uploadRequests cl = [] ->
  len (fileHash file) = HASH_LENGTH ->
  Forall (eq true) (sharedParts file) ->
  len (sharedParts file) = Z.quot (fileSize file + PIECE_LENGTH - 1) PIECE_LENGTH ->
  len ranges <= 3 -> NoDup (pair_of <$> ranges) -> Forall (good_range large) ranges ->
  Forall (fun r => takes (fileSize file) (pair_of r)) ranges ->
  exists payload st',
    PeerProtocol.createRequestPartsPayload (fileHash file) ranges large = Ok payload /\
    answerPartRequest c payload large st = (st', None) /\
    uploadRequests (clients st' c) = pair_of <$> ranges /\
    Forall (fun r => mayServe (sharedParts file) r = Ok tt) (uploadRequests (clients st' c)).
Proof.
  intros cl file Hu Hp Hf Hr Hh Hs Hl Hn Hnd Hg Ht.
  destruct (parts_request_written (fileHash file) ranges large Hh Hn Hg) as (payload & Hc & Hparse).
  exists payload. eexists. split; [exact Hc|]. unfold answerPartRequest. rewrite Hparse.
  fold cl. rewrite Hf, Hp, (proj2 (is_uploading_spec cl) Hu), bool_decide_true, Hr by done.
  rewrite queueRanges_all; [|by apply Forall_fmap|done]. simpl.
  split; [done|]. change (fn_insert _ _ _ c) with (clients (update c (set_uploadRequests (pair_of <$> ranges)) st) c).
  rewrite clients_update, decide_True by done. simpl. split; [done|].
  apply Forall_fmap. rewrite Forall_forall in Hg. rewrite Forall_forall in Ht. apply Forall_forall.
  intros r Hr'. destruct (Hg r Hr') as [G1 G2]. destruct (Ht r Hr') as [T1 T2].
  by apply (mayServe_shared _ (fileSize file)).
Qed.

(** The packets of a block add up to its content: however well the block
    compresses, the credit and the session are charged exactly the bytes of the
    file that were sent. *)
Lemma block_is_credited_once data wire :
  0 <= data -> 0 < wire -> zsum (contents (Z.to_nat wire) data wire 0 0) = data.
Proof. intros Hd Hw. rewrite contents_sum; unfold chunkSize; lia. Qed.

End UploadQueue.

Module UploadQueueExamples.
Import Bytes Wire Packet Double Hash UploadQueue.

Definition hashOf (n : Z) : bytes := replicate 16 n.

Definition aClient (c : Z) : Client :=
  mkClient (hashOf c) (0x2000000 + c) c true None false false UploadNone None [] false 0.

(** Task 7 has three parts, task 8 has two; neither is complete. *)
Definition aTask (f : Z) : File :=
  if f =? 7 then mkFile (hashOf 7) 20000000 [true; true; false] true
  else mkFile (hashOf f) 12000000 [true; false] true.

Definition start : state :=
  mkState 0 1 [] [] [] aClient [1; 2; 3] [(hashOf 7, 7); (hashOf 8, 8)] aTask [].

(** A client connects, greets and asks for a file. *)
Definition arrives (c conn f : Z) : list event :=
  [Run c conn; HandshakeDone c; AskUpload c (hashOf f)].

(** Client 1 waits behind client 2 and hangs up; then the slot is its own and
    it is called back. *)
Definition calledBack : list event :=
  arrives 2 20 7 ++ arrives 1 10 7 ++ [Closed 1 10; Cancel 2].

Lemma start_ok : ok 1 1 start /\ settled start /\ full start.
Proof.
  split; [split|split].
  - done.
  - done.
  - done.
  - constructor.
  - constructor.
  - intros c [H|H]; done.
  - done.
Qed.

Lemma no_limit_change es :
  forallb (fun e => match e with SetSlots _ => false | _ => true end) es = true ->
  Forall (fun e => forall n, e = SetSlots n -> Z.max 1 n <= 1) es.
Proof.
  intros H. rewrite forallb_forall in H. apply Forall_forall. intros e He n ->.
  apply list_elem_of_In in He. by apply H in He.
Qed.

(** Two clients get a slot each; then the limit is lowered. *)
Definition twoSlots : list event := SetSlots 2 :: arrives 2 20 7 ++ [Run 1 10; HandshakeDone 1].
Lemma limits_at_most_2 es :
  forallb (fun e => match e with SetSlots n => n <=? 2 | _ => true end) es = true ->
  Forall (fun e => forall n, e = SetSlots n -> Z.max 1 n <= 2) es.
Proof.
  intros H. rewrite forallb_forall in H. apply Forall_forall. intros e He n ->.
  apply list_elem_of_In, H, Z.leb_le in He. lia.
Qed.
Lemma upload_queue_invariant_witness :
  let st := exec (AskUpload 1 (hashOf 7)) (exec_all twoSlots start) in
  let st' := exec (SetSlots 1) (exec_all (twoSlots ++ [AskUpload 1 (hashOf 7)]) start) in
  len (active st) = 2 /\ len (active st) <= slots st /\ NoDup (queued st) /\
  slots st' = 1 /\ len (active st') <= Z.max 2 2.
Proof.
  destruct (upload_queue_invariant 2 twoSlots (AskUpload 1 (hashOf 7)) start) as (_ & Hr & Hn & _);
    [reflexivity|reflexivity|vm_compute; split; discriminate|apply limits_at_most_2; reflexivity|].
  destruct (upload_queue_invariant 2 (twoSlots ++ [AskUpload 1 (hashOf 7)]) (SetSlots 1) start) as (Hl & _);
    [reflexivity|reflexivity|vm_compute; split; discriminate|apply limits_at_most_2; reflexivity|].
  assert (Hs : slots (exec_all (twoSlots ++ [AskUpload 1 (hashOf 7)]) start) = 2) by (vm_compute; reflexivity).
  assert (Ha : len (active (exec_all (twoSlots ++ [AskUpload 1 (hashOf 7)]) start)) = 2) by (vm_compute; reflexivity).
  rewrite Hs, Ha in Hl.
  split; [vm_compute; reflexivity|]. split; [apply Hr; vm_compute; repeat split; discriminate|].
  split; [exact Hn|]. split; [vm_compute; reflexivity|exact Hl].
Defined.

Lemma grant_picks_best_witness :
  exists before best behind,
    waiting (with_waiting [mkWaiting 1 0 0; mkWaiting 2 5 5] start) = before ++ best :: behind /\
    Forall (fun w => dltb (score start best (10 ^ 10)) (score start w (10 ^ 10)) = false)
      [mkWaiting 1 0 0; mkWaiting 2 5 5].
Proof.
  destruct (grant_picks_best (10 ^ 10) (with_waiting [mkWaiting 1 0 0; mkWaiting 2 5 5] start))
    as (before & best & behind & Hw & Hb & _); [vm_compute; reflexivity|discriminate|].
  exists before, best, behind. split; [exact Hw|exact Hb].
Defined.

Definition quietRun : list event :=
  arrives 2 20 7 ++ arrives 1 10 8 ++ [Advance (2 * hour); Tick; Cancel 1; Closed 2 20].

Lemma uploading_holds_slot_witness :
  settled (exec_all quietRun start) /\
  upload (clients (exec_all (arrives 2 20 7) start) 2) = Uploading.
Proof.
  split; [|vm_compute; reflexivity].
  apply (uploading_holds_slot 1 quietRun start); [apply start_ok|apply start_ok|by apply no_limit_change|].
  cbn [quietRun arrives app quiet_all quiet].
  repeat (split; [first [exact I | intros _; vm_compute; reflexivity | lazymatch goal with
    | |- Forall ?P ?l =>
        replace l with [mkActive 2 0] by (vm_compute; reflexivity);
        constructor; [intros _; vm_compute; reflexivity|constructor]
    | |- _ => vm_compute; reflexivity end]|]). exact I.
Defined.

Lemma requested_parts_are_served_witness :
  exists payload st',
    PeerProtocol.createRequestPartsPayload (hashOf 9) [PeerProtocol.mkRange 0 184320; PeerProtocol.mkRange 184320 200000] false
      = Ok payload /\
    uploadRequests (clients st' 2) = [(0, 184320); (184320, 200000)].
Proof.
  set (st := exec_all (arrives 2 20 9)
    (mkState 0 1 [] [] [] aClient [2] [(hashOf 9, 9)] (fun _ => mkFile (hashOf 9) 12000000 [true; true] true) [])).
  destruct (requested_parts_are_served 2 9
    [PeerProtocol.mkRange 0 184320; PeerProtocol.mkRange 184320 200000] false st)
    as (payload & st' & Hc & _ & Hr & _).
  1-5: vm_compute; reflexivity.
  - repeat constructor.
  - vm_compute. reflexivity.
  - vm_compute. discriminate.
  - apply NoDup_cons. split; [|apply NoDup_singleton]. intros H%list_elem_of_singleton. discriminate H.
  - repeat constructor; simpl; lia.
  - repeat constructor; simpl; unfold BLOCK_LENGTH; lia.
  - exists payload, st'. split; [exact Hc|exact Hr].
Defined.

Lemma block_is_credited_once_witness : zsum (contents (Z.to_nat 25000) 184320 25000 0 0) = 184320.
Proof. apply (block_is_credited_once 184320 25000); lia. Defined.

(** With one slot, client 1 is granted it while it is away, calls back and is
    cut off, client 2 gets the slot, and client 1 comes again: both upload. *)
Lemma pending_slot_leaks_witness :
  let st := exec_all (calledBack ++ [Run 1 11]) start in
  slotPending (clients st 1) = true /\ (aclient <$> active st) = [1] /\
  upload (clients (exec_all [Closed 1 11; Run 1 12; HandshakeDone 1] st) 1) = Uploading /\
  (1 ∉ queued (exec_all [Closed 1 11; Run 1 12; HandshakeDone 1] st)).
Proof.
  intros st. destruct (pending_slot_leaks 1 11 12 true 7 st) as (Hu & Hq & _); [vm_compute; reflexivity..|].
  split; [vm_compute; reflexivity|]. split; [vm_compute; reflexivity|]. split; [exact Hu|exact Hq].
Defined.

(** When the file goes away while client 1 is called back, the client ends up
    uploading a task the network no longer lists. *)
Lemma upload_of_a_task_that_is_gone :
  let gone := exec_all (calledBack ++ [Detach 7; Run 1 11; HandshakeDone 1]) start in
  active gone = [] /\ upload (clients gone 1) = Uploading /\
  uploadFile (clients gone 1) = Some 7 /\ file gone (hashOf 7) = None.
Proof. vm_compute. repeat split. Qed.

(** A 64-bit request for one range. *)
Definition ask64 (f begin end_ : Z) : bytes :=
  hashOf f ++ packUInt64 begin ++ packUInt64 0 ++ packUInt64 0
    ++ packUInt64 end_ ++ packUInt64 0 ++ packUInt64 0.

(** Two requests make [uploadLoop] read outside [shared]. Offsets are
    signed: a range that begins and ends below 0 passes the checks of
    [answerPartRequest], and its part index is negative. And a client that
    uploads one file and asks for another keeps its queued ranges, whose parts
    the other file does not have. *)
Lemma part_requests_leave_file :
  let st := exec_all (arrives 2 20 7) start in
  let negative := exec (AskParts 2 (ask64 7 (-2 * PIECE_LENGTH) (-2 * PIECE_LENGTH + 100)) true) st in
  let switched := exec_all [AskParts 2 (ask64 7 (2 * PIECE_LENGTH) (2 * PIECE_LENGTH + 100)) true;
                            AskUpload 2 (hashOf 8)] st in
  (uploadRequests (clients negative 2) = [(-2 * PIECE_LENGTH, -2 * PIECE_LENGTH + 100)] /\
   (mayServe (sharedParts (tasks negative 7)) <$> uploadRequests (clients negative 2)) = [Err OutOfBounds]) /\
  (uploadFile (clients switched 2) = Some 8 /\ upload (clients switched 2) = Uploading /\
   (mayServe (sharedParts (tasks switched 8)) <$> uploadRequests (clients switched 2)) = [Err OutOfBounds]).
Proof. vm_compute. repeat split. Qed.

End UploadQueueExamples.
