(* ===== verification/Download.v ===== *)
(** * Downloads from eDonkey sources: the download side of [src/ed2k/Client.cc]
      and [src/ed2k/Ed2kTask.cc]

    A task downloads a file from sources. A source that gets an upload slot
    claims blocks of the file's [Parts], asks for them and passes on the data,
    which is written and, when a part is full, hashed on the disk thread. The
    model has any number of tasks and sources; the disk thread runs its jobs in
    the order they were queued, at any time between the handlers, and their
    completions come back in that order.

    [Crashed] is what the code must not do: use a null [downloadFile_] or an
    index outside a vector. A handler reads the clock once. zlib is a
    parameter. *)

From stdpp Require Import gmap functions.
From S2P Require Import Prelude Bytes Wire Packet Hash Ranges Parts PeerProtocol.

Module Download.
Import Bytes Wire Packet Hash.

(** What the code uses of zlib: [inflate] of a chunk into a buffer gives the
    stream, what was written, and whether the stream has ended, or fails; it
    also counts as failed if it leaves input. *)
Class Zlib := {
  stream : Type;
  inflateInit : stream;
  inflate : stream -> bytes -> Z -> option (stream * bytes * bool);
}.

Definition seconds (n : Z) : Z := n * 10 ^ 9.
Definition transferTimeout : Z := seconds 100.
Definition reaskInterval : Z := seconds (29 * 60).
Definition udpReaskTimeout : Z := seconds 30.
Definition blocksAhead : Z := 3.
Definition maxAsking : Z := 12.
Definition maxSources : Z := 1000.

Inductive Phase := PIdle | POpening | PChecking | PDownloading | PSharing | PClosing.
Inductive Download := NotSource | Idle | Connecting | Asking | Queued | Downloading | NoNeededParts | NoFile.
#[export] Instance Phase_eq_dec : EqDecision Phase.
Proof. solve_decision. Defined.
#[export] Instance Download_eq_dec : EqDecision Download.
Proof. solve_decision. Defined.

(** What the disk thread is to do, and the handlers that it posts back. *)
Inductive use :=
  | Verify (expected : bytes) (* [partVerified] *)
  | Check (expected : bytes)  (* [checkAll] with the part hashes *)
  | CheckLocal.               (* [checkAll] without them *)
Inductive job :=
  | Open (truncate check : bool)
  | Write (begin : Z) (data : bytes)
  | Digest (index : Z) (for_ : use)
  | Sync
  | Close.
Inductive handler :=
  | Opened (error check : bool)
  | Written (error : bool)
  | Digested (index : Z) (error : bool) (digest : bytes) (for_ : use)
  | Synced
  | Closed_.

(** How a run ends, and what the engine is told. *)
Inductive Outcome := OStop | OComplete | OFail.
Inductive report := Stopped | Completed | Failed.

Inductive message :=
  | CancelTransfer
  | FileRequest (wantSources : bool)
  | HashSetRequest (hash : bytes)
  | StartUpload (hash : bytes)
  | RequestParts (payload : bytes)
  | ReaskPing (hash : bytes).

(** What a handler finds: the time, whether a connection may be opened,
    whether the server asks for a callback, and random numbers. *)
Record env := mkEnv { now : Z; mayConnect : Z -> bool; callback : Z -> bool; random : nat -> Z }.

Inductive outcome := Done | Thrown | Crashed.

Section download.
Context `{Zlib}.

(** ** State *)

(** [CompressedPartInflater]; no stream if it is not initialized. *)
Record Inflater := mkInflater { zstream : option stream; blockBegin : Z; inflatedLength : Z }.

(** The download side of [Client]; [isOpen] is that of its connection. *)
Record Source := mkPeer {
  connection : option Z;
  isOpen : bool;
  handshaked : bool;
  outgoing : bool;
  connecting : bool;
  lowId : bool;
  noUpload : bool;
  multiPacket : bool;
  reaskable : bool;
  download : Download;
  downloadFile : option Z;
  partStatus : list bool;
  completeSource : bool;
  askedSources : bool;
  askedHashSet : bool;
  queueRank : Z;
  blocks : list Range;
  progress : gmap Z Z;
  inflaters : gmap Z Inflater;
  nextAttempt : Z;
  lastData : Z;
  lastAsked : Z;
  reaskSent : Z;
  failures : Z;
  credited : Z;
}.

(** [Ed2kTask]; [content] is the file, [ending] its [outcome_], [stopped] that
    [stopped_] is set, [reports] what it told the engine. *)
Record Task := mkTask {
  hash : bytes;
  preview : bool;
  seedDone : bool;
  parts : Parts.parts RangeSet.t;
  pieceHashes : list bytes;
  sources : list Z;
  phase : Phase;
  waitingForHashSet : list Z;
  unchecked : bool;
  localHashes : list bytes;
  scheduled : bool;
  corruptParts : Z;
  jobs : list job;
  handlers : list handler;
  content : bytes;
  ending : Outcome;
  stopped : bool;
  reports : list report;
}.

Record state := mkState {
  peers : Z -> Source;
  tasks : Z -> Task;
  sent : list (Z * message);
}.

Definition set_connection (v : option Z) (s : Source) : Source :=
  mkPeer v (isOpen s) (handshaked s) (outgoing s) (connecting s) (lowId s) (noUpload s) (multiPacket s)
    (reaskable s) (download s) (downloadFile s) (partStatus s) (completeSource s) (askedSources s)
    (askedHashSet s) (queueRank s) (blocks s) (progress s) (inflaters s) (nextAttempt s) (lastData s)
    (lastAsked s) (reaskSent s) (failures s) (credited s).
Definition set_isOpen (v : bool) (s : Source) : Source :=
  mkPeer (connection s) v (handshaked s) (outgoing s) (connecting s) (lowId s) (noUpload s) (multiPacket s)
    (reaskable s) (download s) (downloadFile s) (partStatus s) (completeSource s) (askedSources s)
    (askedHashSet s) (queueRank s) (blocks s) (progress s) (inflaters s) (nextAttempt s) (lastData s)
    (lastAsked s) (reaskSent s) (failures s) (credited s).
Definition set_handshaked (v : bool) (s : Source) : Source :=
  mkPeer (connection s) (isOpen s) v (outgoing s) (connecting s) (lowId s) (noUpload s) (multiPacket s)
    (reaskable s) (download s) (downloadFile s) (partStatus s) (completeSource s) (askedSources s)
    (askedHashSet s) (queueRank s) (blocks s) (progress s) (inflaters s) (nextAttempt s) (lastData s)
    (lastAsked s) (reaskSent s) (failures s) (credited s).
Definition set_outgoing (v : bool) (s : Source) : Source :=
  mkPeer (connection s) (isOpen s) (handshaked s) v (connecting s) (lowId s) (noUpload s) (multiPacket s)
    (reaskable s) (download s) (downloadFile s) (partStatus s) (completeSource s) (askedSources s)
    (askedHashSet s) (queueRank s) (blocks s) (progress s) (inflaters s) (nextAttempt s) (lastData s)
    (lastAsked s) (reaskSent s) (failures s) (credited s).
Definition set_connecting (v : bool) (s : Source) : Source :=
  mkPeer (connection s) (isOpen s) (handshaked s) (outgoing s) v (lowId s) (noUpload s) (multiPacket s)
    (reaskable s) (download s) (downloadFile s) (partStatus s) (completeSource s) (askedSources s)
    (askedHashSet s) (queueRank s) (blocks s) (progress s) (inflaters s) (nextAttempt s) (lastData s)
    (lastAsked s) (reaskSent s) (failures s) (credited s).
Definition set_noUpload (v : bool) (s : Source) : Source :=
  mkPeer (connection s) (isOpen s) (handshaked s) (outgoing s) (connecting s) (lowId s) v (multiPacket s)
    (reaskable s) (download s) (downloadFile s) (partStatus s) (completeSource s) (askedSources s)
    (askedHashSet s) (queueRank s) (blocks s) (progress s) (inflaters s) (nextAttempt s) (lastData s)
    (lastAsked s) (reaskSent s) (failures s) (credited s).
Definition set_download (v : Download) (s : Source) : Source :=
  mkPeer (connection s) (isOpen s) (handshaked s) (outgoing s) (connecting s) (lowId s) (noUpload s)
    (multiPacket s) (reaskable s) v (downloadFile s) (partStatus s) (completeSource s) (askedSources s)
    (askedHashSet s) (queueRank s) (blocks s) (progress s) (inflaters s) (nextAttempt s) (lastData s)
    (lastAsked s) (reaskSent s) (failures s) (credited s).
Definition set_downloadFile (v : option Z) (s : Source) : Source :=
  mkPeer (connection s) (isOpen s) (handshaked s) (outgoing s) (connecting s) (lowId s) (noUpload s)
    (multiPacket s) (reaskable s) (download s) v (partStatus s) (completeSource s) (askedSources s)
    (askedHashSet s) (queueRank s) (blocks s) (progress s) (inflaters s) (nextAttempt s) (lastData s)
    (lastAsked s) (reaskSent s) (failures s) (credited s).
Definition set_partStatus (v : list bool) (s : Source) : Source :=
  mkPeer (connection s) (isOpen s) (handshaked s) (outgoing s) (connecting s) (lowId s) (noUpload s)
    (multiPacket s) (reaskable s) (download s) (downloadFile s) v (completeSource s) (askedSources s)
    (askedHashSet s) (queueRank s) (blocks s) (progress s) (inflaters s) (nextAttempt s) (lastData s)
    (lastAsked s) (reaskSent s) (failures s) (credited s).
Definition set_completeSource (v : bool) (s : Source) : Source :=
  mkPeer (connection s) (isOpen s) (handshaked s) (outgoing s) (connecting s) (lowId s) (noUpload s)
    (multiPacket s) (reaskable s) (download s) (downloadFile s) (partStatus s) v (askedSources s)
    (askedHashSet s) (queueRank s) (blocks s) (progress s) (inflaters s) (nextAttempt s) (lastData s)
    (lastAsked s) (reaskSent s) (failures s) (credited s).
Definition set_askedSources (v : bool) (s : Source) : Source :=
  mkPeer (connection s) (isOpen s) (handshaked s) (outgoing s) (connecting s) (lowId s) (noUpload s)
    (multiPacket s) (reaskable s) (download s) (downloadFile s) (partStatus s) (completeSource s) v
    (askedHashSet s) (queueRank s) (blocks s) (progress s) (inflaters s) (nextAttempt s) (lastData s)
    (lastAsked s) (reaskSent s) (failures s) (credited s).
Definition set_askedHashSet (v : bool) (s : Source) : Source :=
  mkPeer (connection s) (isOpen s) (handshaked s) (outgoing s) (connecting s) (lowId s) (noUpload s)
    (multiPacket s) (reaskable s) (download s) (downloadFile s) (partStatus s) (completeSource s)
    (askedSources s) v (queueRank s) (blocks s) (progress s) (inflaters s) (nextAttempt s) (lastData s)
    (lastAsked s) (reaskSent s) (failures s) (credited s).
Definition set_queueRank (v : Z) (s : Source) : Source :=
  mkPeer (connection s) (isOpen s) (handshaked s) (outgoing s) (connecting s) (lowId s) (noUpload s)
    (multiPacket s) (reaskable s) (download s) (downloadFile s) (partStatus s) (completeSource s)
    (askedSources s) (askedHashSet s) v (blocks s) (progress s) (inflaters s) (nextAttempt s) (lastData s)
    (lastAsked s) (reaskSent s) (failures s) (credited s).
Definition set_blocks (v : list Range) (s : Source) : Source :=
  mkPeer (connection s) (isOpen s) (handshaked s) (outgoing s) (connecting s) (lowId s) (noUpload s)
    (multiPacket s) (reaskable s) (download s) (downloadFile s) (partStatus s) (completeSource s)
    (askedSources s) (askedHashSet s) (queueRank s) v (progress s) (inflaters s) (nextAttempt s)
    (lastData s) (lastAsked s) (reaskSent s) (failures s) (credited s).
Definition set_progress (v : gmap Z Z) (s : Source) : Source :=
  mkPeer (connection s) (isOpen s) (handshaked s) (outgoing s) (connecting s) (lowId s) (noUpload s)
    (multiPacket s) (reaskable s) (download s) (downloadFile s) (partStatus s) (completeSource s)
    (askedSources s) (askedHashSet s) (queueRank s) (blocks s) v (inflaters s) (nextAttempt s) (lastData s)
    (lastAsked s) (reaskSent s) (failures s) (credited s).
Definition set_inflaters (v : gmap Z Inflater) (s : Source) : Source :=
  mkPeer (connection s) (isOpen s) (handshaked s) (outgoing s) (connecting s) (lowId s) (noUpload s)
    (multiPacket s) (reaskable s) (download s) (downloadFile s) (partStatus s) (completeSource s)
    (askedSources s) (askedHashSet s) (queueRank s) (blocks s) (progress s) v (nextAttempt s) (lastData s)
    (lastAsked s) (reaskSent s) (failures s) (credited s).
Definition set_nextAttempt (v : Z) (s : Source) : Source :=
  mkPeer (connection s) (isOpen s) (handshaked s) (outgoing s) (connecting s) (lowId s) (noUpload s)
    (multiPacket s) (reaskable s) (download s) (downloadFile s) (partStatus s) (completeSource s)
    (askedSources s) (askedHashSet s) (queueRank s) (blocks s) (progress s) (inflaters s) v (lastData s)
    (lastAsked s) (reaskSent s) (failures s) (credited s).
Definition set_lastData (v : Z) (s : Source) : Source :=
  mkPeer (connection s) (isOpen s) (handshaked s) (outgoing s) (connecting s) (lowId s) (noUpload s)
    (multiPacket s) (reaskable s) (download s) (downloadFile s) (partStatus s) (completeSource s)
    (askedSources s) (askedHashSet s) (queueRank s) (blocks s) (progress s) (inflaters s) (nextAttempt s) v
    (lastAsked s) (reaskSent s) (failures s) (credited s).
Definition set_lastAsked (v : Z) (s : Source) : Source :=
  mkPeer (connection s) (isOpen s) (handshaked s) (outgoing s) (connecting s) (lowId s) (noUpload s)
    (multiPacket s) (reaskable s) (download s) (downloadFile s) (partStatus s) (completeSource s)
    (askedSources s) (askedHashSet s) (queueRank s) (blocks s) (progress s) (inflaters s) (nextAttempt s)
    (lastData s) v (reaskSent s) (failures s) (credited s).
Definition set_reaskSent (v : Z) (s : Source) : Source :=
  mkPeer (connection s) (isOpen s) (handshaked s) (outgoing s) (connecting s) (lowId s) (noUpload s)
    (multiPacket s) (reaskable s) (download s) (downloadFile s) (partStatus s) (completeSource s)
    (askedSources s) (askedHashSet s) (queueRank s) (blocks s) (progress s) (inflaters s) (nextAttempt s)
    (lastData s) (lastAsked s) v (failures s) (credited s).
Definition set_failures (v : Z) (s : Source) : Source :=
  mkPeer (connection s) (isOpen s) (handshaked s) (outgoing s) (connecting s) (lowId s) (noUpload s)
    (multiPacket s) (reaskable s) (download s) (downloadFile s) (partStatus s) (completeSource s)
    (askedSources s) (askedHashSet s) (queueRank s) (blocks s) (progress s) (inflaters s) (nextAttempt s)
    (lastData s) (lastAsked s) (reaskSent s) v (credited s).
Definition set_credited (v : Z) (s : Source) : Source :=
  mkPeer (connection s) (isOpen s) (handshaked s) (outgoing s) (connecting s) (lowId s) (noUpload s)
    (multiPacket s) (reaskable s) (download s) (downloadFile s) (partStatus s) (completeSource s)
    (askedSources s) (askedHashSet s) (queueRank s) (blocks s) (progress s) (inflaters s) (nextAttempt s)
    (lastData s) (lastAsked s) (reaskSent s) (failures s) v.

Definition set_parts (v : Parts.parts RangeSet.t) (s : Task) : Task :=
  mkTask (hash s) (preview s) (seedDone s) v (pieceHashes s) (sources s) (phase s) (waitingForHashSet s)
    (unchecked s) (localHashes s) (scheduled s) (corruptParts s) (jobs s) (handlers s) (content s)
    (ending s) (stopped s) (reports s).
Definition set_pieceHashes (v : list bytes) (s : Task) : Task :=
  mkTask (hash s) (preview s) (seedDone s) (parts s) v (sources s) (phase s) (waitingForHashSet s)
    (unchecked s) (localHashes s) (scheduled s) (corruptParts s) (jobs s) (handlers s) (content s)
    (ending s) (stopped s) (reports s).
Definition set_sources (v : list Z) (s : Task) : Task :=
  mkTask (hash s) (preview s) (seedDone s) (parts s) (pieceHashes s) v (phase s) (waitingForHashSet s)
    (unchecked s) (localHashes s) (scheduled s) (corruptParts s) (jobs s) (handlers s) (content s)
    (ending s) (stopped s) (reports s).
Definition set_phase (v : Phase) (s : Task) : Task :=
  mkTask (hash s) (preview s) (seedDone s) (parts s) (pieceHashes s) (sources s) v (waitingForHashSet s)
    (unchecked s) (localHashes s) (scheduled s) (corruptParts s) (jobs s) (handlers s) (content s)
    (ending s) (stopped s) (reports s).
Definition set_waitingForHashSet (v : list Z) (s : Task) : Task :=
  mkTask (hash s) (preview s) (seedDone s) (parts s) (pieceHashes s) (sources s) (phase s) v (unchecked s)
    (localHashes s) (scheduled s) (corruptParts s) (jobs s) (handlers s) (content s) (ending s) (stopped s)
    (reports s).
Definition set_unchecked (v : bool) (s : Task) : Task :=
  mkTask (hash s) (preview s) (seedDone s) (parts s) (pieceHashes s) (sources s) (phase s)
    (waitingForHashSet s) v (localHashes s) (scheduled s) (corruptParts s) (jobs s) (handlers s) (content s)
    (ending s) (stopped s) (reports s).
Definition set_localHashes (v : list bytes) (s : Task) : Task :=
  mkTask (hash s) (preview s) (seedDone s) (parts s) (pieceHashes s) (sources s) (phase s)
    (waitingForHashSet s) (unchecked s) v (scheduled s) (corruptParts s) (jobs s) (handlers s) (content s)
    (ending s) (stopped s) (reports s).
Definition set_scheduled (v : bool) (s : Task) : Task :=
  mkTask (hash s) (preview s) (seedDone s) (parts s) (pieceHashes s) (sources s) (phase s)
    (waitingForHashSet s) (unchecked s) (localHashes s) v (corruptParts s) (jobs s) (handlers s) (content s)
    (ending s) (stopped s) (reports s).
Definition set_corruptParts (v : Z) (s : Task) : Task :=
  mkTask (hash s) (preview s) (seedDone s) (parts s) (pieceHashes s) (sources s) (phase s)
    (waitingForHashSet s) (unchecked s) (localHashes s) (scheduled s) v (jobs s) (handlers s) (content s)
    (ending s) (stopped s) (reports s).
Definition set_jobs (v : list job) (s : Task) : Task :=
  mkTask (hash s) (preview s) (seedDone s) (parts s) (pieceHashes s) (sources s) (phase s)
    (waitingForHashSet s) (unchecked s) (localHashes s) (scheduled s) (corruptParts s) v (handlers s)
    (content s) (ending s) (stopped s) (reports s).
Definition set_handlers (v : list handler) (s : Task) : Task :=
  mkTask (hash s) (preview s) (seedDone s) (parts s) (pieceHashes s) (sources s) (phase s)
    (waitingForHashSet s) (unchecked s) (localHashes s) (scheduled s) (corruptParts s) (jobs s) v
    (content s) (ending s) (stopped s) (reports s).
Definition set_content (v : bytes) (s : Task) : Task :=
  mkTask (hash s) (preview s) (seedDone s) (parts s) (pieceHashes s) (sources s) (phase s)
    (waitingForHashSet s) (unchecked s) (localHashes s) (scheduled s) (corruptParts s) (jobs s) (handlers s)
    v (ending s) (stopped s) (reports s).
Definition set_ending (v : Outcome) (s : Task) : Task :=
  mkTask (hash s) (preview s) (seedDone s) (parts s) (pieceHashes s) (sources s) (phase s)
    (waitingForHashSet s) (unchecked s) (localHashes s) (scheduled s) (corruptParts s) (jobs s) (handlers s)
    (content s) v (stopped s) (reports s).
Definition set_stopped (v : bool) (s : Task) : Task :=
  mkTask (hash s) (preview s) (seedDone s) (parts s) (pieceHashes s) (sources s) (phase s)
    (waitingForHashSet s) (unchecked s) (localHashes s) (scheduled s) (corruptParts s) (jobs s) (handlers s)
    (content s) (ending s) v (reports s).
Definition set_reports (v : list report) (s : Task) : Task :=
  mkTask (hash s) (preview s) (seedDone s) (parts s) (pieceHashes s) (sources s) (phase s)
    (waitingForHashSet s) (unchecked s) (localHashes s) (scheduled s) (corruptParts s) (jobs s) (handlers s)
    (content s) (ending s) (stopped s) v.

Definition onPeer (c : Z) (g : Source -> Source) (st : state) : state :=
  mkState (<[c := g (peers st c)]> (peers st)) (tasks st) (sent st).
Definition onTask (f : Z) (g : Task -> Task) (st : state) : state :=
  mkState (peers st) (<[f := g (tasks st f)]> (tasks st)) (sent st).

(** Handlers change the state, also when they throw. *)
Definition handling : Type := state -> state * outcome.
Definition pure (g : state -> state) : handling := fun st => (g st, Done).
Definition andThen (m k : handling) : handling := fun st =>
  let '(st, o) := m st in match o with Done => k st | _ => (st, o) end.
Notation "m >> k" := (andThen m k) (at level 50, left associativity).

(** ** Connections *)

Definition connected (s : Source) : bool := bool_decide (connection s <> None) && isOpen s.
Definition send (c : Z) (m : message) (st : state) : state :=
  match connection (peers st c) with
  | Some _ => mkState (peers st) (tasks st) ((c, m) :: sent st)
  | None => st
  end.
Definition disconnect (c : Z) (st : state) : state :=
  match connection (peers st c) with Some _ => onPeer c (set_isOpen false) st | None => st end.

(** ** Sources of a task *)

Definition downloading (t : Task) : bool := bool_decide (phase t = PDownloading).
Definition size (t : Task) : Z := Parts.size (parts t).

Definition sourceChanged (f : Z) (st : state) : state :=
  let t := tasks st f in
  if scheduled t || negb (downloading t) then st else onTask f (set_scheduled true) st.

Definition onParts (f : Z) (g : Parts.parts RangeSet.t -> Parts.parts RangeSet.t) : state -> state :=
  onTask f (fun t => set_parts (g (parts t)) t).

Definition releaseBlocks (c : Z) (st : state) : state :=
  let st := match downloadFile (peers st c) with Some f => onParts f (Parts.releaseAll c) st | None => st end in
  onPeer c (fun s => set_progress ∅ (set_blocks [] s)) st.

Definition stopDownloading (e : env) (c : Z) (next : Download) (retry : Z) (st : state) : state :=
  let st := releaseBlocks c st in
  match downloadFile (peers st c) with
  | None => onPeer c (set_download NotSource) st
  | Some f =>
      let st := onPeer c (fun s => set_nextAttempt (now e + retry)
                  (set_connecting (connecting s && connected s) (set_download next s))) st in
      let st := sourceChanged f st in
      let s := peers st c in
      if connected s && noUpload s && bool_decide (next <> Downloading) then disconnect c st else st
  end.

Definition setSource (c f : Z) (st : state) : state :=
  match downloadFile (peers st c) with
  | Some _ => st
  | None => onPeer c (fun s => set_askedSources false (set_completeSource false (set_partStatus []
              (set_failures 0 (set_nextAttempt 0 (set_download Idle (set_downloadFile (Some f) s))))))) st
  end.

Definition dropSource (c : Z) (st : state) : state :=
  match downloadFile (peers st c) with
  | None => st
  | Some _ =>
      let st := if bool_decide (download (peers st c) = Downloading) && connected (peers st c)
                then send c CancelTransfer st else st in
      let st := releaseBlocks c st in
      let st := onPeer c (fun s => set_queueRank 0 (set_download NotSource (set_downloadFile None s))) st in
      let s := peers st c in
      if noUpload s && connected s && negb (connecting s) then disconnect c st else st
  end.

(** [addSource], behind the checks of the address. *)
Definition addSource (f c : Z) (st : state) : state :=
  let t := tasks st f in
  if negb (downloading t) || (maxSources <=? len (sources t)) then st
  else
    let st := setSource c f st in
    if bool_decide (downloadFile (peers st c) <> Some f) || bool_decide (c ∈ sources t) then st
    else sourceChanged f (onTask f (fun t => set_sources (sources t ++ [c]) t) st).

Definition dropSources (f : Z) (st : state) : state :=
  let l := sources (tasks st f) in
  foldl (fun st c => if bool_decide (downloadFile (peers st c) = Some f) then dropSource c st else st)
    (onTask f (set_sources []) st) l.

(** [Network::detach] of a task, for the clients [l] of the network. *)
Definition detach (f : Z) (l : list Z) (st : state) : state :=
  foldl (fun st c => if bool_decide (downloadFile (peers st c) = Some f) then dropSource c st else st) st l.

(** ** Asking for the file *)

Definition requestFile (e : env) (c : Z) : handling := fun st =>
  match downloadFile (peers st c) with
  | None => (st, Crashed)
  | Some f =>
      let wantSources := negb (askedSources (peers st c)) && (len (sources (tasks st f)) <? 200) in
      let st := onPeer c (fun s => set_lastAsked (now e) (set_askedHashSet false (set_download Asking s))) st in
      let st := send c (FileRequest wantSources) st in
      (onPeer c (fun s => set_askedSources (askedSources s || wantSources) s) st, Done)
  end.

Definition askForFile (e : env) (c : Z) : handling := fun st =>
  let s := peers st c in
  match downloadFile s with
  | None => (st, Done)
  | Some f =>
      if negb (downloading (tasks st f)) then (st, Done)
      else
        let st := onPeer c (set_lastAsked (now e)) st in
        if connected s then (if handshaked s then requestFile e c st else (st, Done))
        else if connecting s then (st, Done)
        else if lowId s then
          if callback e c
          then (onPeer c (fun s => set_nextAttempt (now e + seconds 45)
                  (set_connecting true (set_download Connecting s))) st, Done)
          else (stopDownloading e c Idle (seconds 600) st, Done)
        else if negb (mayConnect e c) then (onPeer c (set_nextAttempt (now e + seconds 5)) st, Done)
        else (onPeer c (fun s => set_connecting true (set_download Connecting s)) st, Done)
  end.

Definition isAsking (d : Download) : bool := bool_decide (d = Connecting) || bool_decide (d = Asking).
Definition isDue (e : env) (s : Source) : bool :=
  (nextAttempt s <=? now e) &&
  (bool_decide (download s = Idle) || bool_decide (download s = NoNeededParts) ||
   (bool_decide (download s = NoFile) && (failures s =? 0))).

(** The second loop of [schedule]. *)
Fixpoint askSources (e : env) (asking : Z) (l : list Z) : handling :=
  match l with
  | [] => pure (fun st => st)
  | c :: l => fun st =>
      if maxAsking <=? asking then (st, Done)
      else if isDue e (peers st c) then (askForFile e c >> askSources e (asking + 1) l) st
      else askSources e asking l st
  end.
Definition schedule (e : env) (f : Z) : handling := fun st =>
  let t := tasks st f in
  if negb (downloading t) then (st, Done)
  else askSources e (len (List.filter (fun c => isAsking (download (peers st c))) (sources t))) (sources t) st.
(** What [sourceChanged] posted. *)
Definition runSchedule (e : env) (f : Z) : handling := fun st =>
  if scheduled (tasks st f) then schedule e f (onTask f (set_scheduled false) st) else (st, Done).

(** ** Verification *)

Definition needsHashSet (t : Task) : bool :=
  (0 <? hashSetPartCount (size t)) && bool_decide (pieceHashes t = []).

Definition post (f : Z) (j : job) : state -> state := onTask f (fun t => set_jobs (jobs t ++ [j]) t).

Definition expectedHash (t : Task) (index : Z) : option bytes :=
  match pieceHashes t with [] => Some (hash t) | l => l !! Z.to_nat index end.
Definition hashPart (f index : Z) (done : bytes -> use) : handling := fun st =>
  match expectedHash (tasks st f) index with
  | Some expected => (post f (Digest index (done expected)) st, Done)
  | None => (st, Crashed)
  end.

Definition verifyFilled (f index : Z) : handling := fun st =>
  let t := tasks st f in
  if needsHashSet t then
    (if bool_decide (index ∈ waitingForHashSet t) then st
     else onTask f (fun t => set_waitingForHashSet (waitingForHashSet t ++ [index]) t) st, Done)
  else hashPart f index Verify st.

Fixpoint verifyAll (f : Z) (l : list Z) : handling :=
  match l with [] => pure (fun st => st) | index :: l => verifyFilled f index >> verifyAll f l end.

(** [pendingWrites_] and [pendingHashes_] count the jobs whose handlers have
    not run, but that which opens the file. *)
Definition pendingJob (j : job) : bool := match j with Open _ _ => false | _ => true end.
Definition pendingHandler (h : handler) : bool := match h with Opened _ _ => false | _ => true end.
Definition pending (t : Task) : bool := existsb pendingJob (jobs t) || existsb pendingHandler (handlers t).
Definition hashing (t : Task) : bool :=
  existsb (fun j => match j with Digest _ _ => true | _ => false end) (jobs t) ||
  existsb (fun h => match h with Digested _ _ _ _ => true | _ => false end) (handlers t).

Definition quiesce (f : Z) (st : state) : state :=
  let t := tasks st f in
  if bool_decide (phase t = PClosing) && negb (pending t) then post f Close st else st.

Definition tell (r : report) (t : Task) : Task := set_reports (reports t ++ [r]) t.

(** [finish]; [l] are the clients of the network. *)
Definition finish (f : Z) (outcome : Outcome) (l : list Z) (st : state) : state :=
  let t := tasks st f in
  match phase t with
  | PClosing => st
  | PIdle => if match outcome with OFail => true | _ => false end then onTask f (tell Failed) st else st
  | _ =>
      let st := detach f l (dropSources f (onTask f (fun t => set_phase PClosing (set_ending outcome t)) st)) in
      if bool_decide (phase t = POpening) then st else quiesce f st
  end.

Definition stop (f : Z) (l : list Z) (st : state) : state :=
  if bool_decide (phase (tasks st f) = PIdle) then onTask f (tell Stopped) st
  else finish f OStop l (onTask f (set_stopped true) st).

Definition evaluateSharing (f : Z) (l : list Z) (st : state) : state :=
  let t := tasks st f in
  if bool_decide (phase t = PSharing) && seedDone t then finish f OComplete l st else st.

Definition downloaded (f : Z) (l : list Z) (st : state) : state :=
  evaluateSharing f l (post f Sync (onTask f (set_phase PSharing) (dropSources f st))).

Definition partVerified (f index : Z) (ok : bool) (l : list Z) : handling := fun st =>
  let t := tasks st f in
  if negb (downloading t) then (st, Done)
  else match Parts.isVerified (parts t) index with
  | None => (st, Crashed)
  | Some true => (st, Done)
  | Some false =>
      if ok then
        match Parts.verify index (parts t) with
        | None => (st, Crashed)
        | Some p =>
            let st := onTask f (set_parts p) st in
            (if Parts.complete p then downloaded f l st else st, Done)
        end
      else
        match Parts.reject index (parts t) with
        | None => (st, Crashed)
        | Some p => (onTask f (fun t => set_corruptParts (corruptParts t + 1) (set_parts p t)) st, Done)
        end
  end.

(** The loop of [acceptHashSet] over the parts of a file that was there. *)
Fixpoint acceptLocal (local pieces : list bytes) (l : list Z) (p : Parts.parts RangeSet.t) :
    option (Parts.parts RangeSet.t) :=
  match l with
  | [] => Some p
  | index :: l =>
      v ← Parts.isVerified p index;
      let r := Parts.part p index in
      if negb v && (br_covered r.1 r.2 (Parts.received p) =? 0) then
        a ← local !! Z.to_nat index;
        b ← pieces !! Z.to_nat index;
        if bool_decide (a = b) then p ← Parts.verify index p; acceptLocal local pieces l p
        else acceptLocal local pieces l p
      else acceptLocal local pieces l p
  end.

(** Whether a hash set is that of the file; [rootHash] may throw. *)
Definition hashSetFits (t : Task) (hashes : list bytes) : result bool :=
  if len hashes =? hashSetPartCount (size t)
  then root ← rootHash hashes; mret (bool_decide (root = hash t))
  else mret false.

(** [acceptHashSet] of a set that fits a task that needs it. *)
Definition takeHashSet (f : Z) (hashes : list bytes) (l : list Z) : handling := fun st =>
  let waiting := waitingForHashSet (tasks st f) in
  (pure (onTask f (fun t => set_waitingForHashSet [] (set_pieceHashes hashes t))) >>
   verifyAll f waiting >>
   (fun st =>
      let t := tasks st f in
      if unchecked t then
        match acceptLocal (localHashes t) (pieceHashes t) (Parts.indices (parts t)) (parts t) with
        | None => (st, Crashed)
        | Some p =>
            let st := onTask f (fun t => set_localHashes [] (set_parts p (set_unchecked false t))) st in
            (if Parts.complete p && downloading (tasks st f) then downloaded f l st else st, Done)
        end
      else (st, Done))) st.

(** ** Data *)

Definition taskReceive (f begin : Z) (data : bytes) : handling := fun st =>
  let t := tasks st f in
  if negb (downloading t) || bool_decide (data = []) then (st, Done)
  else
    let end_ := Z.min (begin + len data) (size t) in
    if (begin <? 0) || (end_ <=? begin) then (st, Done)
    else match Parts.add begin end_ (parts t) with
    | None => (st, Crashed)
    | Some (full, p) =>
        let st := post f (Write begin (take (Z.to_nat (end_ - begin)) data)) (onTask f (set_parts p) st) in
        match full with Some index => verifyFilled f index st | None => (st, Done) end
    end.

(** [Ed2kTask::availability] *)
Definition availability (st : state) (t : Task) : list Z :=
  (fun i => len (List.filter (fun c =>
     let s := peers st c in
     (bool_decide (download s = Downloading) || bool_decide (download s = Queued)) && Parts.holds (partStatus s) i)
     (sources t))) <$> Parts.indices (parts t).

Definition taskClaim (e : env) (c f : Z) (count : Z) (st : state) : list Range * state :=
  let t := tasks st f in
  if downloading t then
    let '(out, p) := Parts.claim (random e) c (partStatus (peers st c)) count (availability st t) (preview t)
                       (now e) (parts t) in
    (out, onTask f (set_parts p) st)
  else ([], st).

Definition taskWants (t : Task) (available : list bool) : bool := downloading t && Parts.wants available (parts t).

Definition partRange (r : Range) : PeerProtocol.PartRange := PeerProtocol.mkRange r.1 r.2.

Definition requestBlocks (e : env) (c : Z) : handling := fun st =>
  let s := peers st c in
  match downloadFile s with
  | None => (st, Done)
  | Some f =>
      if negb (bool_decide (download s = Downloading)) || (blocksAhead <=? len (blocks s)) then (st, Done)
      else
        let '(claimed, st) := taskClaim e c f (blocksAhead - len (blocks s)) st in
        match claimed with
        | [] =>
            (match blocks s with
             | [] =>
                 stopDownloading e c (if taskWants (tasks st f) (partStatus s) then Idle else NoNeededParts)
                   (seconds 60) (send c CancelTransfer st)
             | _ => st
             end, Done)
        | _ =>
            let st := onPeer c (fun s => set_progress (foldl (fun m r => <[r.1 := 0]> m) (progress s) claimed)
                        (set_blocks (blocks s ++ claimed) s)) st in
            let t := tasks st f in
            match PeerProtocol.createRequestPartsPayload (hash t) (partRange <$> claimed) (2 ^ 32 - 1 <? size t) with
            | Ok payload => (send c (RequestParts payload) st, Done)
            | Err _ => (st, Thrown)
            end
        end
  end.

Definition blockDone (e : env) (c : Z) (block : Range) : handling :=
  pure (fun st =>
    let st := onPeer c (fun s => set_inflaters (delete block.1 (inflaters s)) (set_progress (delete block.1 (progress s))
                (set_blocks (List.filter (fun r => negb (bool_decide (r = block))) (blocks s)) s))) st in
    match downloadFile (peers st c) with
    | Some f => onParts f (Parts.release c block) st
    | None => st
    end) >> requestBlocks e c.

Definition receiveBlock (e : env) (c begin end_ : Z) (data : bytes) : handling := fun st =>
  let s := peers st c in
  match downloadFile s with
  | None => (st, Done)
  | Some f =>
      if negb (bool_decide (download s = Downloading)) then (st, Done)
      else if (end_ <=? begin) || negb (end_ - begin =? len data) then (st, Thrown)
      else if negb (Parts.claimed c begin end_ (parts (tasks st f))) then (st, Done)
      else
        (pure (onPeer c (fun s => set_credited (credited s + len data) (set_lastData (now e) s))) >>
         taskReceive f begin data >>
         (fun st =>
            match List.find (fun r => (r.1 <=? begin) && (end_ <=? r.2)) (blocks (peers st c)) with
            | None => (st, Done)
            | Some block =>
                let got := default 0 (progress (peers st c) !! block.1) + (end_ - begin) in
                let st := onPeer c (fun s => set_progress (<[block.1 := got]> (progress s)) s) st in
                if block.2 - block.1 <=? got then blockDone e c block st else (st, Done)
            end)) st
  end.

(** ** Compressed data *)

Definition newInflater : Inflater := mkInflater None 0 0.

(** No string has [2 ^ 63] bytes; assigning that many throws. *)
Definition inflateChunk (i : Inflater) (data : bytes) (begin maxOutput : Z) : Inflater * option bytes :=
  if bool_decide (data = []) || (maxOutput =? 0) then (i, None)
  else
    let i := match zstream i with
             | Some _ => if blockBegin i =? begin then i else mkInflater (Some inflateInit) begin 0
             | None => mkInflater (Some inflateInit) begin 0
             end in
    match zstream i with
    | None => (i, None)
    | Some z =>
        if 2 ^ 63 <=? maxOutput then (i, None)
        else match inflate z data maxOutput with
        | None => (newInflater, None)
        | Some (z, out, true) => (newInflater, Some out)
        | Some (z, out, false) => (mkInflater (Some z) begin (inflatedLength i + len out), Some out)
        end
    end.

Definition receiveCompressed (e : env) (c begin : Z) (data : bytes) : handling := fun st =>
  let s := peers st c in
  match downloadFile s with
  | None => (st, Done)
  | Some f =>
      if negb (bool_decide (download s = Downloading)) then (st, Done)
      else match List.find (fun r => (r.1 <=? begin) && (begin <? r.2)) (blocks s) with
      | None => (st, Done)
      | Some block =>
          let i := default newInflater (inflaters s !! block.1) in
          let offset := block.1 + inflatedLength i in
          let '(i, plain) := inflateChunk i data block.1 (u64 (block.2 - offset)) in
          let st := onPeer c (fun s => set_inflaters (<[block.1 := i]> (inflaters s)) s) st in
          match plain with
          | None => (st, Thrown)
          | Some [] => (st, Done)
          | Some plain =>
              let st := if match zstream i with None => true | Some _ => false end
                        then onPeer c (fun s => set_inflaters (delete block.1 (inflaters s)) s) st else st in
              receiveBlock e c offset (offset + len plain) plain st
          end
      end
  end.

(** ** Packets *)

Definition requestUpload (c : Z) : handling := fun st =>
  let s := peers st c in
  if negb (bool_decide (download s = Asking)) && negb (bool_decide (download s = Queued)) then (st, Done)
  else match downloadFile s with
       | None => (st, Crashed)
       | Some f => (send c (StartUpload (hash (tasks st f))) st, Done)
       end.

Definition statusAnswered (e : env) (c : Z) (bits : list bool) (complete : bool) : handling := fun st =>
  let s := peers st c in
  if negb (bool_decide (download s = Asking)) && negb (bool_decide (download s = Queued)) then (st, Done)
  else match downloadFile s with
  | None => (st, Crashed)
  | Some f =>
      let status := if complete then [] else bits in
      let st := onPeer c (fun s => set_partStatus status (set_completeSource complete s)) st in
      let t := tasks st f in
      if negb complete && negb (len status =? Parts.count (parts t)) then (st, Thrown)
      else if negb (taskWants t status) then (stopDownloading e c NoNeededParts (seconds 600) st, Done)
      else if needsHashSet t then
        (if askedHashSet s then st else send c (HashSetRequest (hash t)) (onPeer c (set_askedHashSet true) st), Done)
      else requestUpload c st
  end.

Definition fileAnswered (e : env) (c : Z) : handling := fun st =>
  let s := peers st c in
  if negb (bool_decide (download s = Asking)) then (st, Done)
  else match downloadFile s with
  | None => (st, Crashed)
  | Some f =>
      if (size (tasks st f) <=? PIECE_LENGTH) && negb (multiPacket s) then statusAnswered e c [] true st else (st, Done)
  end.

(** Whether a payload begins with the hash of the file. *)
Definition names (payload : bytes) (t : Task) : bool :=
  (HASH_LENGTH <=? len payload) && bool_decide (take 16 payload = hash t).

(** [OP_REQFILENAMEANSWER] *)
Definition onFileName (e : env) (c : Z) (payload : bytes) : handling := fun st =>
  match downloadFile (peers st c) with
  | None => (st, Done)
  | Some f => if (HASH_LENGTH + 2 <=? len payload) && names payload (tasks st f) then fileAnswered e c st else (st, Done)
  end.

(** [OP_FILESTATUS] *)
Definition onFileStatus (e : env) (c : Z) (payload : bytes) : handling := fun st =>
  match downloadFile (peers st c) with
  | None => (st, Done)
  | Some f =>
      match PeerProtocol.parseFileStatus [] payload (hash (tasks st f)) with
      | Ok (true, bits) => statusAnswered e c bits (bool_decide (bits = [])) st
      | _ => (st, Thrown)
      end
  end.

(** [OP_MULTIPACKETANSWER] *)
Definition onMultipacket (e : env) (c : Z) (payload : bytes) : handling := fun st =>
  match downloadFile (peers st c) with
  | None => (st, Done)
  | Some f =>
      match PeerProtocol.parseMultipacketAnswerPayload PeerProtocol.noMultipacket payload (hash (tasks st f)) with
      | Ok (true, answer) =>
          ((if PeerProtocol.hasFileName answer then fileAnswered e c else pure (fun st => st)) >>
           (fun st =>
              if PeerProtocol.hasFileStatus answer
              then statusAnswered e c (PeerProtocol.partStatus answer) (PeerProtocol.completeSource answer) st
              else match downloadFile (peers st c) with
                   | Some f => if size (tasks st f) <=? PIECE_LENGTH then statusAnswered e c [] true st else (st, Done)
                   | None => (st, Done)
                   end)) st
      | _ => (st, Thrown)
      end
  end.

(** [OP_FILEREQANSNOFIL] *)
Definition onNoFile (e : env) (c : Z) (payload : bytes) : handling := fun st =>
  match downloadFile (peers st c) with
  | None => (st, Done)
  | Some f => (if names payload (tasks st f) then stopDownloading e c NoFile (seconds 3600) st else st, Done)
  end.

(** [OP_HASHSETANSWER]; [l] are the clients of the network. *)
Definition onHashSet (c : Z) (payload : bytes) (l : list Z) : handling := fun st =>
  match downloadFile (peers st c) with
  | None => (st, Done)
  | Some f =>
      match PeerProtocol.parseHashSetAnswerPayload [] payload (hash (tasks st f)) with
      | Ok (true, hashes) =>
          if needsHashSet (tasks st f) then
            match hashSetFits (tasks st f) hashes with
            | Ok true => (takeHashSet f hashes l >> requestUpload c) st
            | _ => (st, Thrown)
            end
          else requestUpload c st
      | _ => (st, Thrown)
      end
  end.

(** [OP_ACCEPTUPLOADREQ], which uses [connection_]. *)
Definition onAccept (e : env) (c : Z) : handling := fun st =>
  match downloadFile (peers st c) with
  | Some f =>
      if downloading (tasks st f) then
        match connection (peers st c) with None => (st, Crashed) | Some _ =>
        requestBlocks e c (onPeer c (fun s => set_lastData (now e) (set_queueRank 0 (set_download Downloading s))) st)
        end
      else (send c CancelTransfer st, Done)
  | None => (send c CancelTransfer st, Done)
  end.

Definition queued (e : env) (c rank : Z) (st : state) : state :=
  let s := peers st c in
  match downloadFile s with
  | None => st
  | Some f =>
      if bool_decide (download s = Downloading) then st
      else
        let st := onPeer c (fun s => set_nextAttempt (now e + reaskInterval) (set_failures 0 (set_queueRank rank
                    (set_download Queued s)))) st in
        if noUpload s then disconnect c st else st
  end.
(** [OP_QUEUERANK] *)
Definition onQueueRank (e : env) (c : Z) (payload : bytes) : handling := fun st =>
  match PeerProtocol.parseQueueRankPayload 0 payload with
  | Ok (true, rank) => (queued e c rank st, Done)
  | Ok (false, _) => (st, Done)
  | Err _ => (st, Thrown)
  end.

(** [OP_QUEUERANKING] *)
Definition onQueueRanking (e : env) (c : Z) (payload : bytes) : handling := fun st =>
  if 2 <=? len payload then
    match readUInt16 payload with Ok rank => (queued e c rank st, Done) | Err _ => (st, Crashed) end
  else (st, Done).

(** [OP_OUTOFPARTREQS] *)
Definition onOutOfParts (e : env) (c : Z) : handling := fun st =>
  if bool_decide (download (peers st c) = Downloading) then
    let st := releaseBlocks c st in
    let st := onPeer c (fun s => set_nextAttempt (now e + reaskInterval) (set_download Queued s)) st in
    match downloadFile (peers st c) with
    | None => (st, Crashed)
    | Some f => (sourceChanged f st, Done)
    end
  else (st, Done).

(** [OP_SENDINGPART], and [OP_SENDINGPART_I64] if [large]. *)
Definition onSendingPart (e : env) (c : Z) (large : bool) (payload : bytes) : handling := fun st =>
  let n := if large then 8 else 4 in
  if len payload <? HASH_LENGTH + 2 * n then (st, Thrown)
  else
    let number p := if large then readUInt64 p else readUInt32 p in
    match number (drop 16 payload), number (drop (Z.to_nat (HASH_LENGTH + n)) payload) with
    | Ok begin, Ok end_ =>
        receiveBlock e c (i64 begin) (i64 end_) (drop (Z.to_nat (HASH_LENGTH + 2 * n)) payload) st
    | _, _ => (st, Crashed)
    end.

(** [OP_COMPRESSEDPART], and [OP_COMPRESSEDPART_I64] if [large]. *)
Definition onCompressedPart (e : env) (c : Z) (large : bool) (payload : bytes) : handling := fun st =>
  let n := if large then 8 else 4 in
  if len payload <? HASH_LENGTH + n + 4 then (st, Thrown)
  else
    match (if large then readUInt64 (drop 16 payload) else readUInt32 (drop 16 payload)) with
    | Ok begin => receiveCompressed e c (i64 begin) (drop (Z.to_nat (HASH_LENGTH + n + 4)) payload) st
    | Err _ => (st, Crashed)
    end.

(** UDP: [OP_REASKACK], [OP_QUEUEFULL], [OP_FILENOTFOUND]. *)
Definition onReaskAck (e : env) (c : Z) (payload : bytes) : handling := fun st =>
  if bool_decide (download (peers st c) = Queued) then
    match PeerProtocol.parseUdpReaskAckPayload (PeerProtocol.mkAck [] 0) payload with
    | Ok (true, ack) =>
        (onPeer c (fun s => set_nextAttempt (now e + reaskInterval)
           (set_partStatus (match PeerProtocol.bitfield ack with [] => partStatus s | bits => bits end)
             (set_queueRank (PeerProtocol.rank ack) (set_reaskSent 0 s)))) st, Done)
    | Ok (false, _) => (st, Done)
    | Err _ => (st, Thrown)
    end
  else (st, Done).
Definition onQueueFull (e : env) (c : Z) : state -> state :=
  onPeer c (fun s => set_nextAttempt (now e + reaskInterval) (set_reaskSent 0 s)).
Definition onFileNotFound (e : env) (c : Z) (st : state) : state :=
  stopDownloading e c NoFile (seconds 3600) (onPeer c (set_reaskSent 0) st).

(** ** Connections that come and go *)

Definition handshakeDone (e : env) (c : Z) : handling := fun st =>
  let st := onPeer c (set_handshaked true) st in
  let s := peers st c in
  match downloadFile s with
  | None => (st, Done)
  | Some f =>
      if downloading (tasks st f) &&
         (bool_decide (download s = Connecting) || bool_decide (download s = Idle) ||
          (bool_decide (download s = Queued) && outgoing s))
      then requestFile e c st else (st, Done)
  end.

Definition attach (c token : Z) (out : bool) : state -> state :=
  onPeer c (fun s => set_handshaked false (set_outgoing out (set_connecting false (set_isOpen true
    (set_connection (Some token) s))))).

(** [std::min(60 << std::min(failures_, 5), 1800)] *)
Definition backoff (failures : Z) : Z := seconds (Z.min (Z.shiftl 60 (Z.min failures 5)) 1800).

Definition countFailure (e : env) (c : Z) (st : state) : state :=
  let st := onPeer c (fun s => set_failures (failures s + 1) s) st in
  stopDownloading e c Idle (backoff (failures (peers st c))) st.

Definition connectFailed (e : env) (c : Z) (st : state) : state :=
  let st := onPeer c (set_connecting false) st in
  if bool_decide (download (peers st c) = Connecting) then countFailure e c st else st.

Definition closed (e : env) (c token : Z) (st : state) : state :=
  if bool_decide (connection (peers st c) <> Some token) then st
  else
    let st := onPeer c (fun s => set_inflaters ∅ (set_handshaked false (set_connection None s))) st in
    let st := releaseBlocks c st in
    match download (peers st c) with
    | Connecting | Asking => countFailure e c st
    | Downloading => stopDownloading e c Idle (seconds 30) st
    | _ => st
    end.

(** [OP_HELLO] on the connection of [c], which turns out to be the known
    client [self]. *)
Definition adopt (e : env) (c self : Z) : handling := fun st =>
  let token := connection (peers st c) in
  let open := isOpen (peers st c) in
  let st := onPeer c (set_connection None) st in
  let st := match connection (peers st self) with
            | Some old => if bool_decide (token = Some old) then st else closed e self old st
            | None => st
            end in
  handshakeDone e self (onPeer self (fun s => set_connecting false (set_outgoing false (set_isOpen open
    (set_connection token s)))) st).

(** ** Ticks *)

Definition tickStalled (e : env) (c : Z) (st : state) : state :=
  let s := peers st c in
  if bool_decide (download s = Downloading) && (transferTimeout <? now e - lastData s)
  then stopDownloading e c Idle (seconds 60) (send c CancelTransfer st) else st.
Definition tickCallback (e : env) (c : Z) (st : state) : state :=
  let s := peers st c in
  if bool_decide (download s = Connecting) && connecting s && lowId s && (nextAttempt s <? now e)
  then stopDownloading e c Idle (seconds 1200) (onPeer c (set_connecting false) st) else st.
Definition tickClient (e : env) (c : Z) : handling := fun st =>
  let st := tickCallback e c (tickStalled e c st) in
  let s := peers st c in
  match downloadFile s with
  | None => (st, Done)
  | Some f =>
      if bool_decide (download s = Queued) && negb (connected s) && (nextAttempt s <=? now e) && downloading (tasks st f)
      then
        if reaskable s && (reaskSent s =? 0) then
          (let st := onPeer c (set_reaskSent (now e)) st in
           mkState (peers st) (tasks st) ((c, ReaskPing (hash (tasks st f))) :: sent st), Done)
        else if (reaskSent s =? 0) || (udpReaskTimeout <? now e - reaskSent s)
        then askForFile e c (onPeer c (set_reaskSent 0) st)
        else (st, Done)
      else (st, Done)
  end.

Definition isDead (s : Source) : bool :=
  (6 <=? failures s) && bool_decide (download s = Idle) && negb (connected s).
(** [std::erase_if] of [tick]: what stays of the sources, and the state. *)
Fixpoint eraseDead (f : Z) (l : list Z) (st : state) : list Z * state :=
  match l with
  | [] => ([], st)
  | c :: l =>
      let dead := isDead (peers st c) in
      let st := if dead then dropSource c st else st in
      let gone := dead || bool_decide (downloadFile (peers st c) <> Some f) in
      let '(kept, st) := eraseDead f l st in
      (if gone then kept else c :: kept, st)
  end.
Definition tickTask (e : env) (f : Z) (l : list Z) : handling := fun st =>
  match phase (tasks st f) with
  | PDownloading =>
      let '(kept, st) := eraseDead f (sources (tasks st f)) st in
      schedule e f (onTask f (set_sources kept) st)
  | PSharing => (evaluateSharing f l st, Done)
  | _ => (st, Done)
  end.

(** ** The disk thread *)

(** Makes the file as long as it will be. *)
Definition extend (n : Z) (content : bytes) : bytes := content ++ replicate (Z.to_nat n - length content) 0.
(** A write behind the end fills the gap with zeros. *)
Definition overwrite (begin : Z) (data content : bytes) : bytes :=
  let content := extend begin content in
  take (Z.to_nat begin) content ++ data ++ drop (Z.to_nat begin + length data) content.
Definition slice (r : Range) (content : bytes) : bytes :=
  take (Z.to_nat (r.2 - r.1)) (drop (Z.to_nat r.1) content).

(** Runs the first job. A write may fail behind its first [n] bytes, the others
    at any time. *)
Definition runFirst (error : option nat) (t : Task) : Task :=
  let failed := bool_decide (error <> None) in
  match jobs t with
  | [] => t
  | Open truncate check :: rest =>
      let old := if truncate then [] else content t in
      set_handlers (handlers t ++ [Opened failed check])
        (set_content (if failed then old else extend (size t) old) (set_jobs rest t))
  | Write begin data :: rest =>
      let data := match error with Some n => take n data | None => data end in
      set_handlers (handlers t ++ [Written failed])
        (set_content (overwrite begin data (content t)) (set_jobs rest t))
  | Digest index done :: rest =>
      set_handlers (handlers t ++ [Digested index failed
        (md4Digest (slice (Parts.part (parts t) index) (content t))) done]) (set_jobs rest t)
  | Sync :: rest => set_handlers (handlers t ++ [Synced]) (set_jobs rest t)
  | Close :: rest => set_handlers (handlers t ++ [Closed_]) (set_jobs rest t)
  end.
Definition runJob (f : Z) (error : option nat) : state -> state := onTask f (runFirst error).

(** ** Starting *)

(** The record of a download; [link] is the hash and the part hashes of its
    link, if that can be parsed. *)
Record Saved := mkSaved {
  fileHash : bytes;
  link : option (bytes * list bytes);
  path : bytes;
  modified : Z;
  savedParts : list bool;
  savedReceived : list Range;
}.
(** What [open] finds: the record, the file at the path it picks with its
    modification time, the options and a path that is free. *)
Record Place := mkPlace {
  record : option Saved;
  file : option (bytes * Z);
  continue_ : bool;
  allowOverwrite : bool;
  numbered : option bytes;
}.

Fixpoint restoreParts (l : list (Z * bool)) (p : Parts.parts RangeSet.t) : option (Parts.parts RangeSet.t) :=
  match l with
  | [] => Some p
  | (index, have) :: l =>
      if (index <? Parts.count p) && have then p ← Parts.verify index p; restoreParts l p
      else restoreParts l p
  end.
Fixpoint restoreReceived (l : list Range) (p : Parts.parts RangeSet.t) (waiting : list Z) :
    option (Parts.parts RangeSet.t * list Z) :=
  match l with
  | [] => Some (p, waiting)
  | r :: l =>
      full ← Parts.add r.1 r.2 p;
      restoreReceived l full.2 (waiting ++ match full.1 with Some i => [i] | None => [] end)
  end.
Definition savedPieces (t : Task) (s : Saved) : list bytes :=
  match pieceHashes t, link s with
  | [], Some (h, pieces) =>
      if bool_decide (h = hash t) && (len pieces =? hashSetPartCount (size t))
      then match rootHash pieces with Ok root => if bool_decide (root = hash t) then pieces else [] | Err _ => [] end
      else []
  | l, _ => l
  end.

(** The file that [open] takes: whether to truncate it and to check it. *)
Definition pickFile (t : Task) (w : Place) : option (bool * bool) :=
  match file w with
  | None => Some (true, false)
  | Some (old, _) =>
      let picked := match record w with Some s => path s | None => [] end in
      if bool_decide (picked <> []) then Some (false, len old =? size t)
      else if (len old =? size t) || continue_ w then
        if size t <? len old then None else Some (false, true)
      else if negb (allowOverwrite w) then
        match numbered w with None => None | Some _ => Some (true, false) end
      else Some (true, false)
  end.
(** Whether the record is of this file, unchanged since it was saved. *)
Definition ownFile (t : Task) (w : Place) : option Saved :=
  match record w, file w with
  | Some s, Some (old, time) =>
      if bool_decide (fileHash s = hash t) && (len old =? size t) && (modified s =? time) then Some s else None
  | _, _ => None
  end.

(** The constructor; part hashes that the hash of the file does not vouch for
    are dropped. *)
Definition newTask (hash : bytes) (size_ : Z) (pieces : list bytes) (preview seedDone : bool) : result Task :=
  let count := hashSetPartCount size_ in
  fits ← (if (0 <? count) && (len pieces =? count) then root ← rootHash pieces; mret (bool_decide (root = hash))
          else mret false);
  mret (mkTask hash preview seedDone (Parts.create size_) (if fits : bool then pieces else []) [] PIdle [] false [] false 0 [] [] []
          OStop false []).
(** A client as it is created, by what it told of itself. *)
Definition newClient (lowId noUpload multiPacket reaskable : bool) : Source :=
  mkPeer None false false false false lowId noUpload multiPacket reaskable NotSource None [] false false false 0 [] ∅ ∅
    0 0 0 0 0 0.

Definition open (f : Z) (w : Place) : handling := fun st =>
  let t := tasks st f in
  let old := match file w with Some (old, _) => old | None => [] end in
  let fresh := set_content old (set_unchecked false (set_waitingForHashSet []
                 (set_parts (Parts.create (size t)) (set_phase POpening t)))) in
  match ownFile t w with
  | Some s =>
      match (p ← restoreParts (imap (fun i v => (Z.of_nat i, v)) (savedParts s)) (parts fresh);
             restoreReceived (savedReceived s) p []) with
      | None => (st, Crashed)
      | Some (p, waiting) =>
          (post f (Open false false) (onTask f (fun _ => set_pieceHashes (savedPieces t s)
             (set_waitingForHashSet waiting (set_parts p fresh))) st), Done)
      end
  | None =>
      match pickFile t w with
      | None => (onTask f (fun _ => tell Failed (set_phase PIdle fresh)) st, Done)
      | Some (truncate, check) => (post f (Open truncate check) (onTask f (fun _ => fresh) st), Done)
      end
  end.

(** [start]; [taken] is whether another task has the file. *)
Definition start (f : Z) (taken : bool) (w : Place) : handling := fun st =>
  if bool_decide (phase (tasks st f) <> PIdle) then (st, Done)
  else if taken then (onTask f (tell Failed) st, Done)
  else open f w (onTask f (fun t => set_corruptParts 0 (set_ending OStop t)) st).

(** [run]; [links] are the clients of the sources in the link. *)
Definition run (e : env) (f : Z) (links l : list Z) : handling := fun st =>
  if Parts.complete (parts (tasks st f)) then (downloaded f l st, Done)
  else
    let st := foldl (fun st c => addSource f c st) (onTask f (set_phase PDownloading) st) links in
    tickTask e f l st.

Fixpoint postAll (f : Z) (done : use) (l : list Z) (st : state) : state :=
  match l with [] => st | index :: l => postAll f done l (post f (Digest index done) st) end.
Fixpoint checkKnown (f : Z) (l : list Z) : handling :=
  match l with [] => pure (fun st => st) | index :: l => hashPart f index Check >> checkKnown f l end.
Definition checkAll (f : Z) : handling := fun st =>
  let st := onTask f (set_phase PChecking) st in
  let t := tasks st f in
  if needsHashSet t
  then (postAll f CheckLocal (Parts.indices (parts t))
          (onTask f (set_localHashes (replicate (Z.to_nat (Parts.count (parts t))) [])) st), Done)
  else checkKnown f (Parts.indices (parts t)) st.

Definition opened (e : env) (f : Z) (error check : bool) (links l : list Z) : handling := fun st =>
  if bool_decide (phase (tasks st f) <> POpening) then (quiesce f st, Done)
  else if error then (finish f OFail l st, Done)
  else if check then checkAll f st
  else
    let waiting := waitingForHashSet (tasks st f) in
    (run e f links l >> verifyAll f waiting) (onTask f (set_waitingForHashSet []) st).

(** The handlers of [checkAll]. *)
Definition checking (t : Task) : bool := negb (hashing t) && bool_decide (phase t = PChecking).
Definition checkedKnown (e : env) (f index : Z) (ok : bool) (links l : list Z) : handling := fun st =>
  match (if ok then Parts.verify index (parts (tasks st f)) else Some (parts (tasks st f))) with
  | None => (st, Crashed)
  | Some p =>
      let st := onTask f (set_parts p) st in
      if checking (tasks st f) then run e f links l st else (st, Done)
  end.
Fixpoint verifyParts (l : list Z) (p : Parts.parts RangeSet.t) : option (Parts.parts RangeSet.t) :=
  match l with [] => Some p | index :: l => p ← Parts.verify index p; verifyParts l p end.
Definition checkedLocal (e : env) (f index : Z) (digest : bytes) (links l : list Z) : handling := fun st =>
  if len (localHashes (tasks st f)) <=? index then (st, Crashed)
  else
    let st := onTask f (fun t => set_localHashes (<[Z.to_nat index := digest]> (localHashes t)) t) st in
    let t := tasks st f in
    if checking t then
      let hashes := localHashes t ++ (if len (localHashes t) <? hashSetPartCount (size t) then [md4Digest []] else []) in
      match (if needsHashSet t then hashSetFits t hashes else Ok true) with
      | Err _ => (st, Crashed)
      | Ok true =>
          ((if needsHashSet t then takeHashSet f hashes l else pure (fun st => st)) >>
           (fun st => match verifyParts (Parts.indices (parts (tasks st f))) (parts (tasks st f)) with
                      | None => (st, Crashed)
                      | Some p => run e f links l (onTask f (set_parts p) st)
                      end)) st
      | Ok false => run e f links l (onTask f (set_unchecked true) st)
      end
    else (st, Done).

(** Runs the first handler that the disk thread posted. *)
Definition complete (e : env) (f : Z) (links l : list Z) : handling := fun st =>
  let t := tasks st f in
  match handlers t with
  | [] => (st, Done)
  | h :: rest =>
      let st := onTask f (set_handlers rest) st in
      let closing := bool_decide (phase t = PClosing) in
      match h with
      | Opened error check => opened e f error check links l st
      | Written error => (if error && negb closing then finish f OFail l st else quiesce f st, Done)
      | Digested index error digest done =>
          if closing then (quiesce f st, Done)
          else if error then (finish f OFail l st, Done)
          else match done with
               | Verify expected => partVerified f index (bool_decide (digest = expected)) l st
               | Check expected => checkedKnown e f index (bool_decide (digest = expected)) links l st
               | CheckLocal => checkedLocal e f index digest links l st
               end
      | Synced => (quiesce f st, Done)
      | Closed_ =>
          (onTask f (fun t =>
             let t := set_phase PIdle t in
             if stopped t then tell Stopped (set_stopped false t)
             else match ending t with OComplete => tell Completed t | OFail => tell Failed t | OStop => t end) st, Done)
      end
  end.

(** ** Events *)

Inductive event :=
  | AddSource (f c : Z)
  | Attach (c token : Z) (out : bool)
  | Adopt (e : env) (c self : Z)
  | HandshakeDone (e : env) (c : Z)
  | ConnectFailed (e : env) (c : Z)
  | ConnectionClosed (e : env) (c token : Z)
  | UploadChanged (c : Z) (none : bool)
  | FileName (e : env) (c : Z) (payload : bytes)
  | FileStatus (e : env) (c : Z) (payload : bytes)
  | Multipacket (e : env) (c : Z) (payload : bytes)
  | NoSuchFile (e : env) (c : Z) (payload : bytes)
  | HashSet (c : Z) (payload : bytes) (l : list Z)
  | Accept (e : env) (c : Z)
  | QueueRank (e : env) (c : Z) (payload : bytes)
  | QueueRanking (e : env) (c : Z) (payload : bytes)
  | OutOfParts (e : env) (c : Z)
  | SendingPart (e : env) (c : Z) (large : bool) (payload : bytes)
  | CompressedPart (e : env) (c : Z) (large : bool) (payload : bytes)
  | ReaskAck (e : env) (c : Z) (payload : bytes)
  | QueueFull (e : env) (c : Z)
  | FileNotFound (e : env) (c : Z)
  | RunSchedule (e : env) (f : Z)
  | TickClient (e : env) (c : Z)
  | TickTask (e : env) (f : Z) (l : list Z)
  | RunJob (f : Z) (error : option nat)
  | Complete (e : env) (f : Z) (links l : list Z)
  | Start (f : Z) (taken : bool) (w : Place)
  | Stop (f : Z) (l : list Z).

Definition exec (ev : event) : handling :=
  match ev with
  | AddSource f c => pure (addSource f c)
  | Attach c token out => pure (attach c token out)
  | Adopt e c self => adopt e c self
  | HandshakeDone e c => handshakeDone e c
  | ConnectFailed e c => pure (connectFailed e c)
  | ConnectionClosed e c token => pure (closed e c token)
  | UploadChanged c none => pure (onPeer c (set_noUpload none))
  | FileName e c payload => onFileName e c payload
  | FileStatus e c payload => onFileStatus e c payload
  | Multipacket e c payload => onMultipacket e c payload
  | NoSuchFile e c payload => onNoFile e c payload
  | HashSet c payload l => onHashSet c payload l
  | Accept e c => onAccept e c
  | QueueRank e c payload => onQueueRank e c payload
  | QueueRanking e c payload => onQueueRanking e c payload
  | OutOfParts e c => onOutOfParts e c
  | SendingPart e c large payload => onSendingPart e c large payload
  | CompressedPart e c large payload => onCompressedPart e c large payload
  | ReaskAck e c payload => onReaskAck e c payload
  | QueueFull e c => pure (onQueueFull e c)
  | FileNotFound e c => pure (onFileNotFound e c)
  | RunSchedule e f => runSchedule e f
  | TickClient e c => tickClient e c
  | TickTask e f l => tickTask e f l
  | RunJob f error => pure (runJob f error)
  | Complete e f links l => complete e f links l
  | Start f taken w => start f taken w
  | Stop f l => pure (stop f l)
  end.

(** An exception leaves the state as it is; undefined behaviour ends the run. *)
Definition step (s : option state) (ev : event) : option state :=
  st ← s; match exec ev st with (_, Crashed) => None | (st', _) => Some st' end.
Definition exec_all (evs : list event) (st : state) : option state := foldl step (Some st) evs.

End download.
End Download.
