(* ===== verification/DownloadInvariant.v ===== *)
(** * What holds of downloads between their handlers

    Of each source: it has a file exactly if it is in a state of a download,
    it has claimed the blocks that it asked for and no others, and only while
    it has an upload slot. Of each task: its table of parts is well-formed,
    the indices it works with are those of parts, and the jobs of the disk
    thread fit its phase.

    The invariant has two parameters. If [strict], the parts that count as
    verified have the content that their hashes stand for. The tasks in
    [stuck] are closing, wait for nothing, and have told the engine what
    [stuck] says. *)

From stdpp Require Import gmap functions.
From S2P Require Import Prelude Bytes Wire Packet Hash Ranges Parts PeerProtocol Download.

Module DownloadInvariant.
Import Bytes Wire Packet Hash Download.

(** Both branches of the first conditional of the goal. *)
Ltac branch := match goal with |- context [if ?b then _ else _] => destruct b eqn:? end.

(** As [zprop], also for decided propositions. *)
Ltac bprop :=
  repeat first
    [ progress zprop
    | match goal with
      | H : bool_decide _ = true |- _ => apply bool_decide_eq_true in H
      | H : bool_decide _ = false |- _ => apply bool_decide_eq_false in H
      end ].

Section invariant.
Context `{Zlib}.
Context (strict : bool) (stuck : Z -> option (list report)).
Implicit Types (o : option Z) (st : state) (t : Task) (p : Parts.parts RangeSet.t).

(** ** The invariant *)

(** The blocks that a source has claimed. *)
Definition own (c : Z) p : list Range :=
  (fun e => (e.1, Parts.cend e.2)) <$> filter (fun e => Parts.owner e.2 = c) (Parts.claims p).

(** A range in one part. *)
Definition in_part p (r : Range) : Prop :=
  exists i, 0 <= i < Parts.count p /\ (Parts.part p i).1 <= r.1 /\ r.1 < r.2 /\ r.2 <= (Parts.part p i).2.

Definition digest t (i : Z) : bytes := md4Digest (slice (Parts.part (parts t) i) (content t)).
Definition isPart t (i : Z) : Prop := 0 <= i < Parts.count (parts t).

(** *** The phases of a task *)

Definition openingFile (js : list job) (hs : list handler) : Prop :=
  (exists a b, js = [Open a b] /\ hs = []) \/ (exists a b, js = [] /\ hs = [Opened a b]).
Definition closingFile (js : list job) (hs : list handler) : Prop :=
  (js = [Close] /\ hs = []) \/ (js = [] /\ hs = [Closed_]).
Definition isCheck (u : use) : Prop := match u with Verify _ => False | _ => True end.
Definition checkJob (j : job) : Prop := match j with Digest _ u => isCheck u | _ => False end.
Definition checkHandler (h : handler) : Prop := match h with Digested _ _ _ u => isCheck u | _ => False end.
Definition downloadJob (j : job) : Prop := match j with Write _ _ | Digest _ (Verify _) | Sync => True | _ => False end.
Definition downloadHandler (h : handler) : Prop :=
  match h with Written _ | Digested _ _ _ (Verify _) | Synced => True | _ => False end.

Definition life (ph : Phase) (js : list job) (hs : list handler) : Prop :=
  match ph with
  | PIdle => js = [] /\ hs = []
  | POpening => openingFile js hs
  | PChecking => Forall checkJob js /\ Forall checkHandler hs
  | PDownloading | PSharing => Forall downloadJob js /\ Forall downloadHandler hs
  | PClosing => openingFile js hs \/ closingFile js hs \/ (Forall checkJob js /\ Forall checkHandler hs) \/
      (Forall downloadJob js /\ Forall downloadHandler hs)
  end.

(** *** The data of a task *)

Definition job_ok t (j : job) : Prop :=
  match j with
  | Open _ check => unchecked t = false /\ (check = true -> waitingForHashSet t = [])
  | Write b d => in_part (parts t) (b, b + len d)
  | Digest i u => isPart t i /\ (u <> CheckLocal <-> needsHashSet t = false)
  | _ => True
  end.
Definition handler_ok t (h : handler) : Prop :=
  match h with
  | Opened error check => unchecked t = false /\ (check = true -> waitingForHashSet t = []) /\
      (error = false -> size t <= len (content t))
  | Digested i _ _ u => isPart t i /\ (u <> CheckLocal <-> needsHashSet t = false)
  | _ => True
  end.

(** While a file is checked, its part hashes are those at hand or on their way. *)
Definition checking_ok t : Prop :=
  waitingForHashSet t = [] /\ unchecked t = false /\
  (forall i e d u, Digested i e d u ∈ handlers t -> d = digest t i) /\
  (needsHashSet t = true -> len (localHashes t) = Parts.count (parts t) /\
     forall i, isPart t i -> Digest i CheckLocal ∈ jobs t \/ (exists e d, Digested i e d CheckLocal ∈ handlers t) \/
       localHashes t !! Z.to_nat i = Some (digest t i)).

(** No write to a part is to come. *)
Definition unwritten (js : list job) (i : Z) : Prop :=
  forall b d, Write b d ∈ js -> Parts.partOf b <> i.
Definition jobVerifies (j : job) : list Z := match j with Digest i (Verify _) => [i] | _ => [] end.
Definition handlerVerifies (h : handler) : list Z := match h with Digested i _ _ (Verify _) => [i] | _ => [] end.
Definition verifying t : list Z := (handlers t ≫= handlerVerifies) ++ (jobs t ≫= jobVerifies).

(** The record of a download is right about the file. *)
Record honest t : Prop := {
  h_verified i : isPart t i -> Parts.isVerified (parts t) i = Some true ->
    expectedHash t i = Some (digest t i) /\ unwritten (jobs t) i;
  h_needs i : needsHashSet t = true -> isPart t i -> Parts.isVerified (parts t) i = Some false;
  h_waiting : NoDup (waitingForHashSet t);
}.

(** The part can be trusted once it is found to match its hash. *)
Definition settled t (i : Z) (e : bytes) : Prop :=
  isPart t i /\ Parts.filled (parts t) i = true /\ Parts.isVerified (parts t) i = Some false /\ expectedHash t i = Some e.

Record sound t : Prop := {
  s_honest : honest t;
  s_open a b : Open a b ∈ jobs t ->
    (a = false /\ len (content t) = size t) \/ (forall i, isPart t i -> Parts.isVerified (parts t) i = Some false);
  s_jobs k i e : jobs t !! k = Some (Digest i (Verify e)) ->
    settled t i e /\ unwritten (drop (S k) (jobs t)) i;
  s_handlers i er d e : Digested i er d (Verify e) ∈ handlers t ->
    settled t i e /\ unwritten (jobs t) i /\ d = digest t i;
  s_unique : NoDup (verifying t);
  s_checks i e : (Digest i (Check e) ∈ jobs t \/ (exists er d, Digested i er d (Check e) ∈ handlers t)) ->
    expectedHash t i = Some e;
  s_local i : unchecked t = true -> isPart t i ->
    br_covered (Parts.part (parts t) i).1 (Parts.part (parts t) i).2 (Parts.received (parts t)) = 0 ->
    unwritten (jobs t) i /\ localHashes t !! Z.to_nat i = Some (digest t i);
}.

(** [loose] allows what holds only inside handlers: that the file was just
    opened, or its hash set just accepted. *)
Record data_ok (loose : bool) (f : Z) t : Prop := {
  d_hash : len (hash t) = HASH_LENGTH;
  d_pieces : pieceHashes t = [] \/ (len (pieceHashes t) = hashSetPartCount (size t) /\ rootHash (pieceHashes t) = Ok (hash t));
  d_life : life (phase t) (jobs t) (handlers t) \/
    (loose = true /\ phase t = POpening /\ jobs t = [] /\ handlers t = []);
  d_stuck told : stuck f = Some told -> phase t = PClosing /\ jobs t = [] /\ handlers t = [] /\ reports t = told;
  d_waiting : Forall (fun i => isPart t i /\ Parts.filled (parts t) i = true /\ Parts.isVerified (parts t) i = Some false)
                (waitingForHashSet t);
  d_waits : phase t = PDownloading -> needsHashSet t = false -> waitingForHashSet t = [];
  d_jobs : Forall (job_ok t) (jobs t);
  d_handlers : Forall (handler_ok t) (handlers t);
  d_local : unchecked t = true -> len (localHashes t) = Parts.count (parts t) /\ (loose = true \/ needsHashSet t = true);
  d_length : phase t = PChecking \/ phase t = PDownloading \/ phase t = PSharing \/ (exists b d, Write b d ∈ jobs t) ->
    size t <= len (content t);
  d_complete : phase t = PSharing \/ (phase t = PClosing /\ ending t = OComplete) -> Parts.complete (parts t) = true;
  d_checking : phase t = PChecking -> loose = true \/ checking_ok t;
  d_sound : strict = true -> sound t;
}.

Definition claims_ok p : Prop :=
  Parts.parts_ok p /\ Forall (fun e => in_part p (e.1, Parts.cend e.2)) (Parts.claims p).
Definition task_ok (loose : bool) (f : Z) t : Prop := claims_ok (parts t) /\ data_ok loose f t.

(** *** The state *)

(** The sources of a file are listed, and only while it is downloaded; not so
    of the file [o], whose sources are about to go. *)
Record inv o st : Prop := {
  inv_file c : downloadFile (peers st c) = None <-> download (peers st c) = NotSource;
  inv_busy c : blocks (peers st c) <> [] -> download (peers st c) = Downloading;
  inv_ahead c : len (blocks (peers st c)) <= blocksAhead;
  inv_apart c : StronglySorted Parts.disjoint (blocks (peers st c));
  inv_listed c f : o <> Some f -> downloadFile (peers st c) = Some f -> c ∈ sources (tasks st f) /\ phase (tasks st f) = PDownloading;
  inv_claims f c : own c (parts (tasks st f)) ≡ₚ
    (if decide (downloadFile (peers st c) = Some f) then blocks (peers st c) else []);
  inv_task f : task_ok (bool_decide (o = Some f)) f (tasks st f);
}.

(** ** Claims of one source *)

Lemma own_releaseAll c d p : own c (Parts.releaseAll d p) = if decide (c = d) then [] else own c p.
Proof.
  unfold own, Parts.releaseAll. cbn [Parts.claims Parts.with_claims].
  induction (Parts.claims p) as [|e l IH]; [by case_decide|]. rewrite (filter_cons _ e l), (filter_cons _ e l).
  destruct (decide (Parts.owner e.2 = d)) as [Hd|Hd]; destruct (decide (Parts.owner e.2 <> d)); try done.
  - rewrite IH. destruct (decide (c = d)); [done|]. destruct (decide (Parts.owner e.2 = c)); [congruence|done].
  - rewrite filter_cons. destruct (decide (Parts.owner e.2 = c)); [|exact IH].
    rewrite !fmap_cons, IH. destruct (decide (c = d)); [congruence|done].
Qed.
Lemma own_erase_other c d b l :
  c <> d -> filter (fun e => Parts.owner e.2 = c) (Parts.eraseClaim d b l) = filter (fun e => Parts.owner e.2 = c) l.
Proof.
  intros Hne. induction l as [|[b' k] l IH]; [done|]. cbn [Parts.eraseClaim].
  destruct ((b' =? b) && (Parts.owner k =? d)) eqn:E; rewrite !filter_cons; cbn [snd].
  - zprop. case_decide; [congruence|done].
  - case_decide; by rewrite IH.
Qed.
(** Erasing the claim of a block, of those that begin there the first. *)
Lemma own_erase c (r : Range) l :
  r ∈ ((fun e => (e.1, Parts.cend e.2)) <$> filter (fun e => Parts.owner e.2 = c) l) ->
  NoDup (fst <$> ((fun e => (e.1, Parts.cend e.2)) <$> filter (fun e => Parts.owner e.2 = c) l)) ->
  ((fun e => (e.1, Parts.cend e.2)) <$> filter (fun e => Parts.owner e.2 = c) l) ≡ₚ
  r :: ((fun e => (e.1, Parts.cend e.2)) <$> filter (fun e => Parts.owner e.2 = c) (Parts.eraseClaim c r.1 l)).
Proof.
  induction l as [|[b k] l IH]; [by intros ?%elem_of_nil|]. cbn [Parts.eraseClaim].
  rewrite !filter_cons. cbn [snd]. destruct (decide (Parts.owner k = c)) as [E|E].
  - rewrite !fmap_cons. cbn [fst snd]. rewrite (proj2 (Z.eqb_eq _ _) E), andb_true_r.
    intros Hr [Hb Hn]%NoDup_cons. apply elem_of_cons in Hr as [->|Hr].
    + cbn [fst]. by rewrite Z.eqb_refl.
    + destruct (Z.eqb_spec b r.1) as [->|Hne].
      { destruct Hb. apply list_elem_of_fmap. by exists r. }
      rewrite filter_cons. cbn [snd]. case_decide; [|done]. rewrite fmap_cons, (IH Hr Hn) at 1. apply perm_swap.
  - rewrite (proj2 (Z.eqb_neq _ _) E), andb_false_r, filter_cons. cbn [snd]. case_decide; [done|]. exact IH.
Qed.
Lemma own_claims c who now (new : list Range) p q :
  Parts.claims q ≡ₚ Parts.newClaims who now new ++ Parts.claims p ->
  own c q ≡ₚ (if decide (c = who) then new else []) ++ own c p.
Proof.
  intros E. unfold own. rewrite E, filter_app, fmap_app. f_equiv. unfold Parts.newClaims.
  clear E. destruct (decide (c = who)) as [->|Hne].
  - induction new as [|r new IH]; [done|]. rewrite fmap_cons, filter_cons. cbn [snd Parts.owner].
    case_decide; [|done]. rewrite fmap_cons, IH. cbn [fst snd Parts.cend]. by destruct r.
  - induction new as [|r new IH]; [done|]. rewrite fmap_cons, filter_cons. cbn [snd Parts.owner].
    case_decide; [congruence|exact IH].
Qed.

(** Blocks that are apart begin at different offsets. *)
Lemma apart_begins (l : list Range) :
  StronglySorted Parts.disjoint l -> Forall (fun r => r.1 < r.2) l -> NoDup (fst <$> l).
Proof.
  induction 1 as [|r l Hs IH Hr]; [constructor|]. intros [Hlt Hl]%Forall_cons. rewrite fmap_cons.
  apply NoDup_cons. split; [|by apply IH]. intros (s & E & Hs')%list_elem_of_fmap.
  rewrite Forall_forall in Hr. rewrite Forall_forall in Hl. specialize (Hr s Hs'). specialize (Hl s Hs').
  unfold Parts.disjoint in Hr. lia.
Qed.
Lemma apart_app (l k : list Range) :
  StronglySorted Parts.disjoint l -> StronglySorted Parts.disjoint k ->
  (forall r s, r ∈ l -> s ∈ k -> Parts.disjoint r s) -> StronglySorted Parts.disjoint (l ++ k).
Proof.
  induction 1 as [|r l Hs IH Hr]; intros Hk Hd; [done|]. cbn [app]. constructor.
  - apply IH; [done|]. intros r' s Hr'. apply Hd. by right.
  - apply Forall_app. split; [done|]. apply Forall_forall. intros s Hs'. apply Hd; [by left|done].
Qed.
Lemma apart_filter (P : Range -> bool) (l : list Range) :
  StronglySorted Parts.disjoint l -> StronglySorted Parts.disjoint (List.filter P l).
Proof.
  induction 1 as [|r l Hs IH Hr]; [constructor|]. cbn [List.filter]. destruct (P r); [|done].
  constructor; [done|]. rewrite Forall_forall in *. intros s Hs'.
  apply list_elem_of_In, filter_In in Hs' as [Hs' _]. by apply Hr, list_elem_of_In.
Qed.
(** The block that is done is taken out of the blocks of the source. *)
Lemma without_block (r : Range) (l : list Range) :
  r ∈ l -> NoDup (fst <$> l) -> l ≡ₚ r :: List.filter (fun s => negb (bool_decide (s = r))) l.
Proof.
  induction l as [|s l IH]; [by intros ?%elem_of_nil|]. intros Hr [Hs Hn]%NoDup_cons. cbn [List.filter].
  assert (Hrest : r ∉ l -> List.filter (fun s => negb (bool_decide (s = r))) l = l).
  { clear. induction l as [|s l IH]; intros Hr; [done|]. cbn [List.filter].
    rewrite bool_decide_eq_false_2 by set_solver. cbn [negb]. f_equal. apply IH. set_solver. }
  destruct (decide (s = r)) as [->|Hne].
  - rewrite bool_decide_eq_true_2 by done. cbn [negb]. rewrite Hrest; [done|].
    intros Hr'. apply Hs, list_elem_of_fmap. by exists r.
  - rewrite bool_decide_eq_false_2 by done. cbn [negb]. apply elem_of_cons in Hr as [->|Hr]; [done|].
    rewrite (IH Hr Hn) at 1. apply perm_swap.
Qed.

(** ** What does not matter to the invariant *)

Lemma peers_onPeer c g st : peers (onPeer c g st) c = g (peers st c).
Proof. apply fn_lookup_insert. Qed.
Lemma peers_onPeer_ne c d g st : c <> d -> peers (onPeer c g st) d = peers st d.
Proof. apply fn_lookup_insert_ne. Qed.
Lemma tasks_onTask f g st : tasks (onTask f g st) f = g (tasks st f).
Proof. apply fn_lookup_insert. Qed.
Lemma tasks_onTask_ne f h g st : f <> h -> tasks (onTask f g st) h = tasks st h.
Proof. apply fn_lookup_insert_ne. Qed.

(** What the invariant says of the data of a task, without its claims, does not
    depend on the rest of it. *)
Definition plain t : Task :=
  mkTask (hash t) false false (Parts.with_claims (parts t) []) (pieceHashes t) [] (phase t) (waitingForHashSet t)
    (unchecked t) (localHashes t) false 0 (jobs t) (handlers t) (content t) (ending t) false (reports t).

Lemma honest_plain t : honest (plain t) <-> honest t.
Proof. split; intros []; constructor; assumption. Qed.
Lemma sound_plain t : sound (plain t) <-> sound t.
Proof. split; intros [Hh]; constructor; try assumption; by apply honest_plain. Qed.
Lemma data_ok_plain b f t : data_ok b f (plain t) <-> data_ok b f t.
Proof.
  split; intros [???????????? Hs]; constructor; try assumption; intros Hstrict; apply sound_plain, Hs, Hstrict.
Qed.
Lemma data_ok_same b f t t' : plain t' = plain t -> data_ok b f t -> data_ok b f t'.
Proof. intros E Ht. apply data_ok_plain. rewrite E. by apply data_ok_plain. Qed.

Definition core (s : Source) : Download * option Z * list Range := (download s, downloadFile s, blocks s).
Definition sameTask t t' : Prop := plain t' = plain t /\ parts t' = parts t /\ sources t' = sources t.
Definition quiet st st' : Prop :=
  (forall c, core (peers st' c) = core (peers st c)) /\ forall f, sameTask (tasks st f) (tasks st' f).

#[export] Instance quiet_preorder : PreOrder quiet.
Proof.
  split; [done|]. intros st1 st2 st3 [Hp Ht] [Hp' Ht']. split; [intros c; by rewrite Hp'|].
  intros f. destruct (Ht f) as (E1 & E2 & E3). destruct (Ht' f) as (E4 & E5 & E6). by repeat split; etransitivity.
Qed.
Lemma inv_quiet o st st' : quiet st st' -> inv o st -> inv o st'.
Proof.
  intros [Hp Ht] [Hf Hb Ha Hs Hl Hc Hk].
  assert (forall c, download (peers st' c) = download (peers st c) /\ downloadFile (peers st' c) = downloadFile (peers st c) /\
    blocks (peers st' c) = blocks (peers st c)) as Hc'.
  { intros c. specialize (Hp c). unfold core in Hp. by simplify_eq. }
  constructor.
  - intros c. destruct (Hc' c) as (E1 & E2 & E3). rewrite ?E1, ?E2, ?E3. apply Hf.
  - intros c. destruct (Hc' c) as (E1 & E2 & E3). rewrite ?E1, ?E2, ?E3. apply Hb.
  - intros c. destruct (Hc' c) as (E1 & E2 & E3). rewrite ?E1, ?E2, ?E3. apply Ha.
  - intros c. destruct (Hc' c) as (E1 & E2 & E3). rewrite ?E1, ?E2, ?E3. apply Hs.
  - intros c f. destruct (Hc' c) as (_ & -> & _), (Ht f) as (E & _ & ->).
    rewrite (f_equal phase E : phase (tasks st' f) = phase (tasks st f)). apply Hl.
  - intros f c. destruct (Hc' c) as (_ & -> & ->), (Ht f) as (_ & -> & _). apply Hc.
  - intros f. destruct (Ht f) as (E & Ep & _), (Hk f) as [Hk1 Hk2]. split; [by rewrite Ep|by eapply data_ok_same].
Qed.

Lemma quiet_peer c g st : core (g (peers st c)) = core (peers st c) -> quiet st (onPeer c g st).
Proof.
  intros E. split; [|done]. intros d. destruct (decide (c = d)) as [<-|]; [by rewrite peers_onPeer|].
  by rewrite peers_onPeer_ne.
Qed.
Lemma quiet_task f g st : sameTask (tasks st f) (g (tasks st f)) -> quiet st (onTask f g st).
Proof.
  intros E. split; [done|]. intros h. destruct (decide (f = h)) as [<-|]; [by rewrite tasks_onTask|].
  by rewrite tasks_onTask_ne.
Qed.
Lemma quiet_send c m st : quiet st (send c m st).
Proof. unfold send. by destruct (connection _). Qed.
Lemma quiet_disconnect c st : quiet st (disconnect c st).
Proof. unfold disconnect. destruct (connection _); [by apply quiet_peer|done]. Qed.
Lemma quiet_sourceChanged f st : quiet st (sourceChanged f st).
Proof. unfold sourceChanged. destruct (_ || _); [done|by apply quiet_task]. Qed.

(** ** Steps of a source *)

(** A source that has a file goes to another state. *)
Lemma inv_state o c g st :
  inv o st -> downloadFile (peers st c) <> None -> downloadFile (g (peers st c)) = downloadFile (peers st c) ->
  blocks (g (peers st c)) = blocks (peers st c) -> download (g (peers st c)) <> NotSource ->
  (blocks (peers st c) <> [] -> download (g (peers st c)) = Downloading) -> inv o (onPeer c g st).
Proof.
  intros [Hf Hb Ha Hs Hl Hc Hk] Hfile Ef Eb Hd Hbusy.
  assert (forall d, downloadFile (peers (onPeer c g st) d) = downloadFile (peers st d) /\
    blocks (peers (onPeer c g st) d) = blocks (peers st d)) as E.
  { intros d. destruct (decide (c = d)) as [<-|]; [by rewrite peers_onPeer|by rewrite peers_onPeer_ne]. }
  constructor; try (intros d; destruct (E d) as [E1 E2]; rewrite ?E1, ?E2; eauto).
  - destruct (decide (c = d)) as [<-|]; [by rewrite peers_onPeer|by rewrite peers_onPeer_ne].
  - destruct (decide (c = d)) as [<-|]; [by rewrite peers_onPeer|rewrite peers_onPeer_ne by done; eauto].
  - intros d'. destruct (E d') as [-> ->]. apply Hc.
Qed.

Lemma release_parts_ok d p : claims_ok p -> claims_ok (Parts.releaseAll d p).
Proof.
  intros [Hp Hc]. destruct (Parts.exec_keeps (Parts.ReleaseAll d) p Hp I I) as (q & [= <-] & Hq & _). split; [done|].
  unfold Parts.releaseAll. cbn [Parts.claims Parts.with_claims]. rewrite Forall_forall in *.
  intros e [_ He]%list_elem_of_filter. by apply Hc.
Qed.
Lemma inv_releaseBlocks o c st : inv o st -> inv o (releaseBlocks c st).
Proof.
  intros [Hf Hb Ha Hs Hl Hc Hk]. unfold releaseBlocks.
  set (st1 := match downloadFile (peers st c) with Some f => _ | None => st end).
  assert (Et : forall f, tasks st1 f = if decide (downloadFile (peers st c) = Some f)
    then set_parts (Parts.releaseAll c (parts (tasks st f))) (tasks st f) else tasks st f).
  { intros f. unfold st1, onParts. destruct (downloadFile (peers st c)) as [f'|]; [|done].
    case_decide; [simplify_eq; by rewrite tasks_onTask|by rewrite tasks_onTask_ne by congruence]. }
  assert (Ep : peers st1 = peers st) by (unfold st1; by destruct (downloadFile _)).
  set (st2 := onPeer c _ st1).
  assert (forall d, downloadFile (peers st2 d) = downloadFile (peers st d) /\ download (peers st2 d) = download (peers st d) /\
    blocks (peers st2 d) = if decide (c = d) then [] else blocks (peers st d)) as E.
  { intros d. unfold st2. case_decide; [subst; rewrite peers_onPeer|rewrite peers_onPeer_ne by done]; by rewrite Ep. }
  constructor.
  - intros d. destruct (E d) as (-> & -> & _). apply Hf.
  - intros d. destruct (E d) as (_ & -> & ->). case_decide; [done|apply Hb].
  - intros d. destruct (E d) as (_ & _ & ->). case_decide; [done|apply Ha].
  - intros d. destruct (E d) as (_ & _ & ->). case_decide; [constructor|apply Hs].
  - intros d f. destruct (E d) as (-> & _ & _). change (tasks st2 f) with (tasks st1 f). rewrite Et.
    case_decide; apply Hl.
  - intros f d. destruct (E d) as (-> & _ & ->). change (tasks st2 f) with (tasks st1 f). rewrite Et.
    specialize (Hc f d). destruct (decide (downloadFile (peers st c) = Some f)) as [Ec|Ec].
    + cbn [parts set_parts]. rewrite own_releaseAll.
      destruct (decide (c = d)) as [<-|Hne]; [by rewrite !decide_True|]. by rewrite (decide_False (P := d = c)) by congruence.
    + rewrite Hc. destruct (decide (c = d)) as [<-|]; [by case_decide|done].
  - intros f. change (tasks st2 f) with (tasks st1 f). rewrite Et. destruct (Hk f) as [Hk1 Hk2].
    destruct (decide (downloadFile (peers st c) = Some f)); [|done]. split; [by apply release_parts_ok|]. by apply (data_ok_same _ f (tasks st f)).
Qed.

Lemma releaseBlocks_peer c d st :
  downloadFile (peers (releaseBlocks c st) d) = downloadFile (peers st d) /\
  download (peers (releaseBlocks c st) d) = download (peers st d) /\
  blocks (peers (releaseBlocks c st) d) = if decide (c = d) then [] else blocks (peers st d).
Proof.
  unfold releaseBlocks. case_decide as E; [subst d; rewrite peers_onPeer|rewrite peers_onPeer_ne by done];
    destruct (downloadFile (peers st c)) eqn:E'; split_and!; done.
Qed.

Lemma inv_stopDownloading o e c next retry st :
  next <> NotSource -> inv o st -> inv o (stopDownloading e c next retry st).
Proof.
  intros Hn Hi. unfold stopDownloading. destruct (releaseBlocks_peer c c st) as (Ef & Ed & Eb).
  rewrite decide_True in Eb by done. apply (inv_releaseBlocks o c) in Hi.
  set (st1 := releaseBlocks c st) in *. destruct (downloadFile (peers st1 c)) as [f|] eqn:E.
  - set (st2 := onPeer c _ st1).
    assert (Hi2 : inv o st2) by (apply inv_state; [done|by rewrite E|done|done|done|by rewrite Eb]).
    assert (Hi3 : inv o (sourceChanged f st2)) by (eapply inv_quiet, Hi2; apply quiet_sourceChanged).
    branch; [|done]. eapply inv_quiet, Hi3. apply quiet_disconnect.
  - eapply inv_quiet, Hi. apply quiet_peer. unfold core. cbn [download downloadFile blocks set_download]. by rewrite (proj1 (inv_file _ _ Hi c) E).
Qed.

(** A source without blocks gets another file, or none. *)
Lemma inv_setFile o c g st :
  inv o st -> blocks (peers st c) = [] -> blocks (g (peers st c)) = [] ->
  (downloadFile (g (peers st c)) = None <-> download (g (peers st c)) = NotSource) ->
  (forall f, o <> Some f -> downloadFile (g (peers st c)) = Some f -> c ∈ sources (tasks st f) /\ phase (tasks st f) = PDownloading) ->
  inv o (onPeer c g st).
Proof.
  intros [Hf Hb Ha Hs Hl Hc Hk] Eb Eb' Hd Hlist.
  assert (forall d, d = c \/ peers (onPeer c g st) d = peers st d) as E.
  { intros d. destruct (decide (c = d)) as [<-|]; [by left|right; by rewrite peers_onPeer_ne]. }
  constructor; [intros d; destruct (E d) as [->| ->]; rewrite ?peers_onPeer; eauto..|intros f d|done].
  - by rewrite Eb'.
  - rewrite Eb'. done.
  - rewrite Eb'. constructor.
  - specialize (Hc f d). change (tasks (onPeer c g st) f) with (tasks st f).
    destruct (E d) as [->| ->]; [|done]. rewrite peers_onPeer, Eb'. rewrite Eb in Hc. by case_decide; case_decide.
Qed.

Lemma inv_dropSource o c st : inv o st -> inv o (dropSource c st).
Proof.
  intros Hi. unfold dropSource. destruct (downloadFile (peers st c)) as [f|]; [|done].
  set (st1 := if _ && _ then _ else st).
  assert (Hi1 : inv o st1) by (unfold st1; destruct (_ && _); [eapply inv_quiet, Hi; apply quiet_send|done]).
  destruct (releaseBlocks_peer c c st1) as (_ & _ & Eb). rewrite decide_True in Eb by done.
  apply (inv_releaseBlocks o c) in Hi1. set (st2 := onPeer c _ _).
  assert (Hi2 : inv o st2) by (apply inv_setFile; [done|done|done|done|by intros h _ ?]).
  branch; [|done]. eapply inv_quiet, Hi2. apply quiet_disconnect.
Qed.
(** Dropping a source changes the files of no other, and no task but its claims. *)
Lemma dropSource_peer c d st :
  downloadFile (peers (dropSource c st) d) = if decide (c = d) then None else downloadFile (peers st d).
Proof.
  unfold dropSource. destruct (downloadFile (peers st c)) as [f|] eqn:E; [|case_decide; congruence].
  set (st1 := if _ && _ then _ else st).
  assert (E1 : downloadFile (peers st1 d) = downloadFile (peers st d)).
  { unfold st1, send. destruct (_ && _); [|done]. by destruct (connection _). }
  set (st2 := onPeer c _ _).
  assert (E2 : downloadFile (peers st2 d) = if decide (c = d) then None else downloadFile (peers st d)).
  { unfold st2. case_decide as Hd; [subst d; by rewrite peers_onPeer|]. rewrite peers_onPeer_ne by done.
    destruct (releaseBlocks_peer c d st1) as (-> & _ & _). done. }
  match goal with |- context [if ?b then disconnect _ _ else _] => destruct b end; [|done]. rewrite <- E2. unfold disconnect. destruct (connection _); [|done].
  destruct (decide (c = d)) as [<-|]; [by rewrite peers_onPeer|by rewrite peers_onPeer_ne].
Qed.

(** What the steps of sources leave alone of tasks. *)
Definition calm st st' : Prop :=
  forall f, plain (tasks st' f) = plain (tasks st f) /\ sources (tasks st' f) = sources (tasks st f).
#[export] Instance calm_preorder : PreOrder calm.
Proof.
  split; [done|]. intros st1 st2 st3 H1 H2 f. destruct (H1 f) as [E1 E2], (H2 f) as [E3 E4]. by split; etransitivity.
Qed.
Lemma quiet_calm st st' : quiet st st' -> calm st st'.
Proof. intros [_ Ht] f. by destruct (Ht f) as (? & _ & ?). Qed.
Lemma calm_releaseBlocks c st : calm st (releaseBlocks c st).
Proof.
  intros f. unfold releaseBlocks, onParts. destruct (downloadFile (peers st c)) as [f'|]; [|done].
  change (tasks (onPeer ?c ?g ?s)) with (tasks s).
  destruct (decide (f' = f)) as [->|]; [by rewrite tasks_onTask|by rewrite tasks_onTask_ne].
Qed.
Lemma calm_dropSource c st : calm st (dropSource c st).
Proof.
  unfold dropSource. destruct (downloadFile (peers st c)) as [f|]; [|done]. set (st1 := if _ && _ then _ else st).
  assert (H1 : calm st st1) by (unfold st1; destruct (_ && _); [apply quiet_calm, quiet_send|done]).
  set (st2 := onPeer c _ _). assert (H2 : calm st st2) by (etransitivity; [exact H1|apply calm_releaseBlocks]).
  branch; [|exact H2]. etransitivity; [exact H2|]. apply quiet_calm, quiet_disconnect.
Qed.
Lemma calm_stopDownloading e c next retry st : calm st (stopDownloading e c next retry st).
Proof.
  unfold stopDownloading. set (st1 := releaseBlocks c st). assert (H1 : calm st st1) by apply calm_releaseBlocks.
  destruct (downloadFile (peers st1 c)) as [f|]; [|exact H1].
  set (st2 := onPeer c _ st1).
  assert (H2 : calm st (sourceChanged f st2)) by (transitivity st1; [exact H1|]; exact (quiet_calm st2 _ (quiet_sourceChanged f st2))).
  branch; [|exact H2]. etransitivity; [exact H2|]. apply quiet_calm, quiet_disconnect.
Qed.

(** ** Sources of a task *)

(** A task changes, but not its claims. *)
Lemma inv_onTask o f g st :
  inv o st -> task_ok (bool_decide (o = Some f)) f (g (tasks st f)) -> Parts.claims (parts (g (tasks st f))) = Parts.claims (parts (tasks st f)) ->
  (o <> Some f -> forall c, downloadFile (peers st c) = Some f -> c ∈ sources (g (tasks st f)) /\ phase (g (tasks st f)) = PDownloading) ->
  inv o (onTask f g st).
Proof.
  intros [Hf Hb Ha Hs Hl Hc Hk] Ht Ec Hlist. constructor; [done..| | |].
  - intros c h Ho. destruct (decide (f = h)) as [<-|]; [rewrite tasks_onTask; by apply Hlist|].
    rewrite tasks_onTask_ne by done. by apply Hl.
  - intros h c. destruct (decide (f = h)) as [<-|]; [rewrite tasks_onTask|by rewrite tasks_onTask_ne].
    unfold own. rewrite Ec. apply Hc.
  - intros h. destruct (decide (f = h)) as [<-|]; [by rewrite tasks_onTask|by rewrite tasks_onTask_ne].
Qed.
Lemma inv_sources o f (l : list Z) st :
  inv o st -> (o <> Some f -> forall c, downloadFile (peers st c) = Some f -> c ∈ l) -> inv o (onTask f (set_sources l) st).
Proof.
  intros Hi Hl. apply inv_onTask; [done|..|done|].
  - destruct (inv_task _ _ Hi f) as [H1 H2]. split; [done|]. by apply (data_ok_same _ f (tasks st f)).
  - intros Ho c Hc. split; [by apply Hl|]. by apply (inv_listed _ _ Hi c f Ho Hc).
Qed.
Lemma data_ok_loosen b f t : data_ok false f t -> data_ok b f t.
Proof.
  intros [? ? [Hl|[]] ? ? ? ? ? Hu ? ? Hc]; constructor; try done; [by left| |].
  - intros E. destruct (Hu E) as [? [?|?]]; [done|split; auto].
  - intros E. destruct (Hc E) as [?|?]; [done|by right].
Qed.
Lemma inv_loosen o st : inv None st -> inv o st.
Proof.
  intros [Hf Hb Ha Hs Hl Hc Hk]. constructor; try done; [intros c f _; by apply Hl|].
  intros f. destruct (Hk f). split; [done|]. by apply data_ok_loosen.
Qed.
Lemma inv_tighten f st :
  (forall c, downloadFile (peers st c) = Some f -> c ∈ sources (tasks st f) /\ phase (tasks st f) = PDownloading) ->
  data_ok false f (tasks st f) -> inv (Some f) st -> inv None st.
Proof.
  intros Hno Hd [Hf Hb Ha Hs Hl Hc Hk]. constructor; try done.
  - intros c h _ Hh. destruct (decide (f = h)) as [<-|Hne]; [by apply Hno|]. apply Hl; [congruence|done].
  - intros h. destruct (Hk h) as [Hk1 Hk2]. split; [done|]. rewrite bool_decide_eq_false_2 by done.
    destruct (decide (f = h)) as [<-|Hne]; [done|]. rewrite bool_decide_eq_false_2 in Hk2 by congruence. done.
Qed.

Lemma inv_addSource f c st : inv None st -> inv None (addSource f c st).
Proof.
  intros Hi. unfold addSource. branch; [done|]. set (st1 := setSource c f st).
  unfold downloading in *. bprop. rename select (phase _ = _) into Hp.
  assert (Hcase : st1 = st \/ downloadFile (peers st c) = None).
  { unfold st1, setSource. destruct (downloadFile (peers st c)); [by left|by right]. }
  assert (Hset : forall st', inv None st' -> (forall d, peers st' d = peers st d) -> c ∈ sources (tasks st' f) ->
    phase (tasks st' f) = PDownloading -> downloadFile (peers st c) = None -> inv None (setSource c f st')).
  { intros st' Hi' Ep Hs Hph Hn. unfold setSource. rewrite Ep, Hn.
    assert (Hb : blocks (peers st' c) = []).
    { destruct (blocks (peers st' c)) eqn:Eb; [done|]. exfalso. rewrite <- Ep in Hn. apply (inv_file _ _ Hi') in Hn.
      rewrite (inv_busy _ _ Hi' c) in Hn by congruence. done. }
    apply inv_setFile; [done..|]. intros h _ [= <-]. done. }
  branch.
  - destruct Hcase as [->|Hn]; [done|]. apply Hset; try done. rename select (_ = true) into E. apply orb_true_iff in E as [E|E]; bprop; [|done].
    exfalso. apply E. unfold st1, setSource. rewrite Hn. by rewrite peers_onPeer.
  - eapply inv_quiet; [apply quiet_sourceChanged|].
    assert (Hi0 : inv None (onTask f (fun t => set_sources (sources t ++ [c]) t) st)).
    { apply (inv_onTask _ f (set_sources (sources (tasks st f) ++ [c])) st); [done|..|done|].
      - destruct (inv_task _ _ Hi f) as [Hk1 Hk2]. split; [done|]. by apply (data_ok_same _ f (tasks st f)).
      - intros Ho d Hd. destruct (inv_listed _ _ Hi d f Ho Hd). split; [|done]. cbn. set_solver. }
    destruct Hcase as [->|Hn]; [done|].
    replace (onTask f _ st1) with (setSource c f (onTask f (fun t => set_sources (sources t ++ [c]) t) st)).
    + apply Hset; [done|done| |by rewrite tasks_onTask|done]. rewrite tasks_onTask. cbn. set_solver.
    + unfold st1, setSource. cbn [peers onTask]. by rewrite Hn.
Qed.

(** Drops those of the sources [l] that have the file. *)
Lemma drop_all f (l : list Z) : forall st,
  inv (Some f) st ->
  let st' := foldl (fun st c => if bool_decide (downloadFile (peers st c) = Some f) then dropSource c st else st) st l in
  inv (Some f) st' /\ calm st st' /\
  forall d, downloadFile (peers st' d) = Some f -> downloadFile (peers st d) = Some f /\ d ∉ l.
Proof.
  induction l as [|c l IH]; intros st Hi; cbn [foldl].
  { split_and!; [done|done|]. intros d Hd. split; [done|apply not_elem_of_nil]. }
  set (st1 := if bool_decide _ then dropSource c st else st).
  assert (Hi1 : inv (Some f) st1) by (unfold st1; case_bool_decide; [by apply inv_dropSource|done]).
  assert (Hc : calm st st1) by (unfold st1; case_bool_decide; [apply calm_dropSource|done]).
  assert (Hd : forall d, downloadFile (peers st1 d) = Some f -> downloadFile (peers st d) = Some f /\ d <> c).
  { intros d. unfold st1. case_bool_decide as E; [rewrite dropSource_peer; case_decide; [done|]|]; intros ?; split; congruence. }
  destruct (IH st1 Hi1) as (H1 & H2 & H3). split_and!; [done|by transitivity st1|].
  intros d Hd'. apply H3 in Hd' as [Hd' ?]. apply Hd in Hd' as [? ?]. split; [done|]. set_solver.
Qed.

Lemma eraseDead_ok f (l : list Z) : forall st kept st',
  inv None st -> eraseDead f l st = (kept, st') ->
  inv None st' /\ calm st st' /\
  (forall d, downloadFile (peers st' d) = Some f -> downloadFile (peers st d) = Some f /\ (d ∈ l -> d ∈ kept)).
Proof.
  induction l as [|c l IH]; intros st kept st' Hi; cbn [eraseDead].
  { intros [= <- <-]. split_and!; [done|done|]. intros d Hd. split; [done|]. by intros ?%elem_of_nil. }
  set (st1 := if isDead _ then _ else st). destruct (eraseDead f l st1) as [kept1 st2] eqn:E. intros [= <- <-].
  assert (Hi1 : inv None st1) by (unfold st1; destruct (isDead _); [by apply inv_dropSource|done]).
  assert (Hc : calm st st1) by (unfold st1; destruct (isDead _); [apply calm_dropSource|done]).
  destruct (IH _ _ _ Hi1 E) as (Hi2 & Hc2 & H2). split_and!; [done|by transitivity st1|].
  intros d Hd. destruct (H2 d Hd) as [Hd1 Hk].
  assert (Hd0 : downloadFile (peers st d) = Some f /\ (isDead (peers st c) = true -> d <> c)).
  { unfold st1 in Hd1. destruct (isDead _); [|done]. rewrite dropSource_peer in Hd1. case_decide; [done|]. split; congruence. }
  destruct Hd0 as [Hd0 Hne]. split; [done|]. intros [->|Hin]%elem_of_cons; [|branch; set_solver].
  destruct (isDead (peers st c)); [by destruct Hne|]. cbn [orb]. rewrite bool_decide_eq_false_2 by (by intros []). by left.
Qed.

(** ** Handlers that move no data *)

Definition fine o (r : state * outcome) : Prop := inv o r.1 /\ r.2 <> Crashed.
Lemma fine_done o st : inv o st -> fine o (st, Done).
Proof. done. Qed.
Lemma fine_thrown o st : inv o st -> fine o (st, Thrown).
Proof. done. Qed.
Lemma fine_andThen o (m k : handling) st :
  fine o (m st) -> (forall st', inv o st' -> m st = (st', Done) -> fine o (k st')) -> fine o (andThen m k st).
Proof.
  unfold andThen, fine. destruct (m st) as [st' []]; cbn [fst snd]; intros [H1 H2] Hk; [|done..].
  destruct (Hk st' H1 eq_refl). done.
Qed.
Lemma inv_blocks o c st : inv o st -> download (peers st c) <> Downloading -> blocks (peers st c) = [].
Proof. intros Hi Hd. destruct (blocks (peers st c)) eqn:E; [done|]. destruct Hd. apply (inv_busy _ _ Hi). by rewrite E. Qed.
Lemma inv_hasFile o c st : inv o st -> download (peers st c) <> NotSource -> exists f, downloadFile (peers st c) = Some f.
Proof. intros Hi Hd. destruct (downloadFile (peers st c)) eqn:E; [by eexists|]. by apply (inv_file _ _ Hi) in E. Qed.

(** A source without blocks that has a file goes to another state. *)
Lemma inv_next o c g st :
  inv o st -> downloadFile (peers st c) <> None -> download (peers st c) <> Downloading ->
  downloadFile (g (peers st c)) = downloadFile (peers st c) -> blocks (g (peers st c)) = blocks (peers st c) ->
  download (g (peers st c)) <> NotSource -> inv o (onPeer c g st).
Proof. intros Hi Hf Hd E1 E2 Hn. apply inv_state; try done. by rewrite (inv_blocks _ _ _ Hi Hd). Qed.

Lemma fine_requestFile o e c st :
  inv o st -> downloadFile (peers st c) <> None -> download (peers st c) <> Downloading -> fine o (requestFile e c st).
Proof.
  intros Hi Hf Hd. unfold requestFile. destruct (downloadFile (peers st c)) as [f|] eqn:E; [|done]. apply fine_done.
  eapply inv_quiet; [by apply quiet_peer|]. eapply inv_quiet; [apply quiet_send|].
  apply inv_next; try done. by rewrite E.
Qed.
Lemma fine_askForFile o e c st : inv o st -> download (peers st c) <> Downloading -> fine o (askForFile e c st).
Proof.
  intros Hi Hd. unfold askForFile. destruct (downloadFile (peers st c)) as [f|] eqn:E; [|done].
  branch; [done|]. set (st1 := onPeer c (set_lastAsked _) st).
  assert (Hi1 : inv o st1) by (eapply inv_quiet, Hi; by apply quiet_peer).
  assert (E1 : peers st1 c = set_lastAsked (now e) (peers st c)) by apply peers_onPeer.
  branch. { branch; [|done]. apply fine_requestFile; [done|rewrite E1; cbn; by rewrite E|by rewrite E1]. }
  branch; [done|]. branch.
  { branch; apply fine_done; [|by apply inv_stopDownloading]. apply inv_next; rewrite ?E1; try done. cbn. by rewrite E. }
  branch; apply fine_done; [eapply inv_quiet, Hi1; by apply quiet_peer|].
  apply inv_next; rewrite ?E1; try done. cbn. by rewrite E.
Qed.
Lemma isDue_idle e s : isDue e s = true -> download s <> Downloading.
Proof. unfold isDue. intros Hd E. rewrite E in Hd. cbn in Hd. by rewrite andb_false_r in Hd. Qed.
Lemma fine_askSources o e (l : list Z) : forall asking st, inv o st -> fine o (askSources e asking l st).
Proof.
  induction l as [|c l IH]; intros asking st Hi; cbn [askSources]; [done|]. branch; [done|]. branch; [|by apply IH].
  apply fine_andThen; [apply fine_askForFile; [done|by eapply isDue_idle]|]. intros st' Hi' _. by apply IH.
Qed.
Lemma fine_schedule o e f st : inv o st -> fine o (schedule e f st).
Proof. intros Hi. unfold schedule. branch; [done|]. by apply fine_askSources. Qed.
Lemma fine_runSchedule o e f st : inv o st -> fine o (runSchedule e f st).
Proof.
  intros Hi. unfold runSchedule. branch; [|done]. apply fine_schedule. eapply inv_quiet, Hi. by apply quiet_task.
Qed.

Lemma inv_queued o e c rank st : inv o st -> inv o (queued e c rank st).
Proof.
  intros Hi. unfold queued. destruct (downloadFile (peers st c)) as [f|] eqn:E; [|done]. branch; [done|]. bprop.
  set (st1 := onPeer c _ st). assert (Hi1 : inv o st1) by (apply inv_next; try done; by rewrite E).
  branch; [|done]. eapply inv_quiet, Hi1. apply quiet_disconnect.
Qed.
Lemma fine_requestUpload o c st : inv o st -> fine o (requestUpload c st).
Proof.
  intros Hi. unfold requestUpload. branch; [done|].
  destruct (inv_hasFile o c st Hi) as [f ->]; [|apply fine_done; eapply inv_quiet, Hi; apply quiet_send].
  intros E. by rewrite E in *.
Qed.
Lemma fine_statusAnswered o e c bits complete st : inv o st -> fine o (statusAnswered e c bits complete st).
Proof.
  intros Hi. unfold statusAnswered. branch; [done|].
  destruct (inv_hasFile o c st Hi) as [f E]; [intros E; by rewrite E in *|]. rewrite E.
  set (st1 := onPeer c _ st). assert (Hi1 : inv o st1) by (eapply inv_quiet, Hi; by apply quiet_peer).
  branch; [done|]. branch; [apply fine_done; by apply inv_stopDownloading|]. branch; [|by apply fine_requestUpload].
  apply fine_done. branch; [done|]. eapply inv_quiet; [apply quiet_send|]. eapply inv_quiet, Hi1. by apply quiet_peer.
Qed.
Lemma fine_fileAnswered o e c st : inv o st -> fine o (fileAnswered e c st).
Proof.
  intros Hi. unfold fileAnswered. branch; [done|]. bprop.
  destruct (inv_hasFile o c st Hi) as [f E]; [congruence|]. rewrite E. branch; [by apply fine_statusAnswered|done].
Qed.

Lemma fine_onFileName o e c payload st : inv o st -> fine o (onFileName e c payload st).
Proof.
  intros Hi. unfold onFileName. destruct (downloadFile _); [|done]. branch; [by apply fine_fileAnswered|done].
Qed.
Lemma fine_onFileStatus o e c payload st : inv o st -> fine o (onFileStatus e c payload st).
Proof.
  intros Hi. unfold onFileStatus. destruct (downloadFile _); [|done].
  destruct (PeerProtocol.parseFileStatus _ _ _) as [[[] bits]|]; [by apply fine_statusAnswered|done..].
Qed.
Lemma fine_onMultipacket o e c payload st : inv o st -> fine o (onMultipacket e c payload st).
Proof.
  intros Hi. unfold onMultipacket. destruct (downloadFile _); [|done].
  destruct (PeerProtocol.parseMultipacketAnswerPayload _ _ _) as [[[] answer]|]; [|done..].
  apply fine_andThen; [branch; [by apply fine_fileAnswered|done]|]. intros st' Hi' _.
  branch; [by apply fine_statusAnswered|]. destruct (downloadFile _); [|done]. branch; [by apply fine_statusAnswered|done].
Qed.
Lemma fine_onNoFile o e c payload st : inv o st -> fine o (onNoFile e c payload st).
Proof.
  intros Hi. unfold onNoFile. destruct (downloadFile _); [|done]. apply fine_done. branch; [by apply inv_stopDownloading|done].
Qed.
Lemma fine_onQueueRank o e c payload st : inv o st -> fine o (onQueueRank e c payload st).
Proof.
  intros Hi. unfold onQueueRank. destruct (PeerProtocol.parseQueueRankPayload _ _) as [[[] rank]|]; [|done..].
  apply fine_done. by apply inv_queued.
Qed.
Lemma fine_onQueueRanking o e c payload st : inv o st -> fine o (onQueueRanking e c payload st).
Proof.
  intros Hi. unfold onQueueRanking. branch; [|done]. bprop.
  destruct (readUInt16 payload) eqn:E; [apply fine_done; by apply inv_queued|].
  exfalso. destruct payload as [|? [|? ?]]; cbn in *; try lia; done.
Qed.
Lemma fine_onOutOfParts o e c st : inv o st -> fine o (onOutOfParts e c st).
Proof.
  intros Hi. unfold onOutOfParts. branch; [|done]. bprop.
  destruct (releaseBlocks_peer c c st) as (Ef & Ed & Eb). rewrite decide_True in Eb by done.
  apply (inv_releaseBlocks o c) in Hi. set (st1 := releaseBlocks c st) in *.
  destruct (inv_hasFile o c st1 Hi) as [f E]; [congruence|]. set (st2 := onPeer c _ st1).
  assert (E2 : downloadFile (peers st2 c) = Some f) by (unfold st2; by rewrite peers_onPeer).
  rewrite E2. apply fine_done. eapply inv_quiet; [apply quiet_sourceChanged|].
  apply inv_state; try done; by rewrite ?E, ?Eb.
Qed.
Lemma fine_onReaskAck o e c payload st : inv o st -> fine o (onReaskAck e c payload st).
Proof.
  intros Hi. unfold onReaskAck. branch; [|done].
  destruct (PeerProtocol.parseUdpReaskAckPayload _ _) as [[[] ack]|]; [|done..].
  apply fine_done. eapply inv_quiet, Hi. by apply quiet_peer.
Qed.
Lemma inv_onFileNotFound o e c st : inv o st -> inv o (onFileNotFound e c st).
Proof. intros Hi. apply inv_stopDownloading; [done|]. eapply inv_quiet, Hi. by apply quiet_peer. Qed.

Lemma fine_handshakeDone o e c st : inv o st -> fine o (handshakeDone e c st).
Proof.
  intros Hi. unfold handshakeDone. set (st1 := onPeer c _ st).
  assert (Hi1 : inv o st1) by (eapply inv_quiet, Hi; by apply quiet_peer).
  destruct (downloadFile (peers st1 c)) eqn:E; [|done]. branch; [|done]. apply fine_requestFile; [done|by rewrite E|].
  intros Ed. rewrite Ed in *. cbn in *. bprop. done.
Qed.
Lemma inv_countFailure o e c st : inv o st -> inv o (countFailure e c st).
Proof. intros Hi. apply inv_stopDownloading; [done|]. eapply inv_quiet, Hi. by apply quiet_peer. Qed.
Lemma inv_sourceFailed o e c st : inv o st -> inv o (connectFailed e c st).
Proof.
  intros Hi. unfold connectFailed. set (st1 := onPeer c _ st).
  assert (Hi1 : inv o st1) by (eapply inv_quiet, Hi; by apply quiet_peer). branch; [by apply inv_countFailure|done].
Qed.
Lemma inv_sourceClosed o e c token st : inv o st -> inv o (closed e c token st).
Proof.
  intros Hi. unfold closed. branch; [done|].
  assert (Hi1 : inv o (releaseBlocks c (onPeer c (fun s => set_inflaters ∅ (set_handshaked false (set_connection None s))) st))).
  { apply inv_releaseBlocks. eapply inv_quiet, Hi. by apply quiet_peer. }
  destruct (download _); [done|done|by apply inv_countFailure|by apply inv_countFailure|done|by apply inv_stopDownloading|done|done].
Qed.
Lemma fine_adopt o e c self st : inv o st -> fine o (adopt e c self st).
Proof.
  intros Hi. unfold adopt. set (st1 := onPeer c _ st).
  assert (Hi1 : inv o st1) by (eapply inv_quiet, Hi; by apply quiet_peer).
  set (st2 := match connection (peers st1 self) with Some _ => _ | None => st1 end).
  assert (Hi2 : inv o st2).
  { unfold st2. destruct (connection (peers st1 self)); [|done]. branch; [done|by apply inv_sourceClosed]. }
  apply fine_handshakeDone. eapply inv_quiet, Hi2. by apply quiet_peer.
Qed.

Lemma fine_tickClient o e c st : inv o st -> fine o (tickClient e c st).
Proof.
  intros Hi. unfold tickClient. set (st1 := tickCallback _ _ _).
  assert (Hi1 : inv o st1).
  { assert (Hs : inv o (tickStalled e c st)).
    { unfold tickStalled. branch; [|done]. apply inv_stopDownloading; [done|]. eapply inv_quiet, Hi. apply quiet_send. }
    unfold st1, tickCallback. branch; [|done]. apply inv_stopDownloading; [done|].
    eapply inv_quiet, Hs. by apply quiet_peer. }
  destruct (downloadFile (peers st1 c)); [|done]. branch; [|done]. branch.
  - apply fine_done. eapply inv_quiet, Hi1. transitivity (onPeer c (set_reaskSent (now e)) st1); [by apply quiet_peer|done].
  - branch; [|done]. apply fine_askForFile; [eapply inv_quiet, Hi1; by apply quiet_peer|]. rewrite peers_onPeer. cbn.
    intros E. rewrite E in *. done.
Qed.

End invariant.
End DownloadInvariant.
