(* ===== verification/DownloadData.v ===== *)
(** * The data of a task: what its operations do to the invariant

    Each lemma is about one task: what [DownloadInvariant.data_ok] says of it
    before an operation on its parts, its hashes or the jobs of the disk thread
    holds behind it. *)

From stdpp Require Import gmap functions.
From S2P Require Import Prelude Bytes Wire Packet Hash Ranges Parts PeerProtocol Download DownloadInvariant.

Module DownloadData.
Import Bytes Wire Packet Hash Download DownloadInvariant.

(** ** Changes to one part *)

Section parts.
Context {R : Type} `{ByteRangesLaws R}.
Implicit Types (p q : Parts.parts R).

(** Only the part [i] differs. *)
Record elsewhere (i : Z) p q : Prop := {
  e_size : Parts.size q = Parts.size p;
  e_count : Parts.count q = Parts.count p;
  e_verified j : 0 <= j -> j <> i -> Parts.isVerified q j = Parts.isVerified p j;
  e_covers x : ~ inside x (Parts.part p i) -> covers (Parts.received q) x <-> covers (Parts.received p) x;
}.
Lemma elsewhere_part i p q j : elsewhere i p q -> Parts.part q j = Parts.part p j.
Proof. intros He. apply Parts.part_same, He. Qed.
Lemma filled_spec p i :
  Parts.parts_ok p -> Parts.filled p i = true <-> forall x, inside x (Parts.part p i) -> covers (Parts.received p) x.
Proof. intros Hp. unfold Parts.filled. destruct (Parts.part p i) eqn:E. apply contains_spec, Hp. Qed.
Lemma elsewhere_filled i p q j :
  Parts.parts_ok p -> Parts.parts_ok q -> elsewhere i p q -> 0 <= i -> 0 <= j -> j <> i ->
  Parts.filled q j = Parts.filled p j.
Proof.
  intros Hp Hq He Hi Hj Hne. apply eq_true_iff_eq. rewrite !filled_spec, (elsewhere_part i p q j He) by done.
  assert (forall x, inside x (Parts.part p j) -> covers (Parts.received q) x <-> covers (Parts.received p) x) as E.
  { intros x Hx. apply He. contradict Hne. eapply Parts.parts_apart; [..|exact Hx|exact Hne]; lia. }
  split; intros Hf x Hx; apply E; auto.
Qed.
Lemma elsewhere_covered i p q j :
  Parts.parts_ok p -> Parts.parts_ok q -> elsewhere i p q -> 0 <= i -> 0 <= j < Parts.count p -> j <> i ->
  br_covered (Parts.part q j).1 (Parts.part q j).2 (Parts.received q) =
  br_covered (Parts.part p j).1 (Parts.part p j).2 (Parts.received p).
Proof.
  intros Hp Hq He Hi Hj Hne. rewrite (elsewhere_part i p q j He). pose proof (Parts.part_bounds p j Hp Hj).
  rewrite !covered_spec by (apply Hp || apply Hq || lia). apply count_bytes_ext. intros x Hx. apply He.
  contradict Hne. eapply Parts.parts_apart; [..|exact Hx|exact Hne]; lia.
Qed.

Lemma verify_elsewhere i p :
  Parts.parts_ok p -> 0 <= i < Parts.count p ->
  exists q, Parts.verify i p = Some q /\ Parts.parts_ok q /\ elsewhere i p q /\ Parts.claims q = Parts.claims p /\
    Parts.isVerified q i = Some true /\ Parts.filled q i = true.
Proof.
  intros Hp Hi. destruct (Parts.verify_ok i p Hp Hi) as (q & E & Hq). exists q.
  destruct (Parts.isVerified_in p i Hi) as [v Hv]. unfold Parts.verify in E. rewrite Hv in E.
  pose proof Hp as (Hok & _). unfold Parts.count in Hi.
  assert (Hv' : Parts.isVerified q i = Some true).
  { simplify_eq/=. apply list_lookup_insert_eq. lia. }
  split_and!; [unfold Parts.verify; by rewrite Hv|done| |by simplify_eq/=|done|].
  - constructor; simplify_eq/=.
    + done.
    + unfold Parts.count. simpl. by rewrite length_insert.
    + intros j Hj Hne. unfold Parts.isVerified. simpl. by rewrite list_lookup_insert_ne by lia.
    + intros x Hx. rewrite covers_add by done. split; [intros [?|?]; [done|by destruct Hx]|by left].
  - apply filled_spec; [done|]. intros x Hx. destruct Hq as (_ & _ & _ & _ & Hver & _). apply (Hver i x); [lia|done|done].
Qed.
Lemma reject_elsewhere i p :
  Parts.parts_ok p -> 0 <= i < Parts.count p ->
  exists q, Parts.reject i p = Some q /\ Parts.parts_ok q /\ elsewhere i p q /\ Parts.claims q = Parts.claims p /\
    Parts.isVerified q i = Some false.
Proof.
  intros Hp Hi. destruct (Parts.reject_ok i p Hp Hi) as (q & E & Hq). exists q.
  destruct (Parts.isVerified_in p i Hi) as [v Hv]. unfold Parts.reject in E. rewrite Hv in E.
  pose proof Hp as (Hok & _). unfold Parts.count in Hi.
  assert (Hv' : Parts.isVerified q i = Some false).
  { simplify_eq/=. apply list_lookup_insert_eq. lia. }
  split_and!; [unfold Parts.reject; by rewrite Hv|done| |by simplify_eq/=|done].
  constructor; simplify_eq/=.
  - done.
  - unfold Parts.count. simpl. by rewrite length_insert.
  - intros j Hj Hne. unfold Parts.isVerified. simpl. by rewrite list_lookup_insert_ne by lia.
  - intros x Hx. rewrite covers_remove by done. split; [by intros [? _]|]. intros Hc. split; [done|]. contradict Hx. exact Hx.
Qed.
(** The part of a range. *)
Lemma in_part_index p i (r : Range) :
  0 <= i -> (Parts.part p i).1 <= r.1 -> r.1 < r.2 -> r.2 <= (Parts.part p i).2 -> Parts.partOf r.1 = i.
Proof.
  unfold Parts.part, Parts.partOf. simpl. intros Hi Hb Hlt He. rewrite Z.quot_div_nonneg by (unfold PIECE_LENGTH in *; lia).
  symmetry. apply (Z.div_unique _ _ _ (r.1 - i * PIECE_LENGTH)); unfold PIECE_LENGTH in *; lia.
Qed.
Lemma add_elsewhere b e p :
  Parts.parts_ok p -> (exists i, 0 <= i < Parts.count p /\ (Parts.part p i).1 <= b /\ b < e /\ e <= (Parts.part p i).2) ->
  exists r q, Parts.add b e p = Some (r, q) /\ Parts.parts_ok q /\ elsewhere (Parts.partOf b) p q /\
    Parts.claims q = Parts.claims p /\ Parts.verified q = Parts.verified p /\
    (forall x, covers (Parts.received q) x <-> covers (Parts.received p) x \/ b <= x < e) /\
    0 <= Parts.partOf b < Parts.count p /\
    match r with
    | Some i => i = Parts.partOf b /\ Parts.isVerified q i = Some false /\ Parts.filled q i = true
    | None => True
    end.
Proof.
  intros Hp (i & Hi & Hb1 & Hlt & Hb2). pose proof (Parts.part_bounds p i Hp Hi) as Hb.
  pose proof (in_part_index p i (b, e) ltac:(lia) Hb1 Hlt Hb2) as Ei. cbn [fst] in Ei. rewrite Ei.
  destruct (Parts.parts_add_ok b e p Hp) as (r & q & E & Hq & Es & Ev & Hc & Hr). exists r, q.
  assert (Hc' : forall x, covers (Parts.received q) x <-> covers (Parts.received p) x \/ b <= x < e).
  { intros x. rewrite Hc. split; (intros [?|?]; [by left|right; lia]). }
  split_and!; [done|done| | |done|done|lia|lia|].
  - constructor; [done|unfold Parts.count; by rewrite Ev|intros j _ _; unfold Parts.isVerified; by rewrite Ev|].
    intros x Hx. rewrite Hc'. split; [intros [?|?]; [done|]|by left]. destruct Hx. unfold inside. lia.
  - unfold Parts.add in E. destruct (_ <=? _); [by simplify_eq|].
    destruct (Parts.firstFilled _ _); [|done]. by simplify_eq/=.
  - destruct r as [j|]; [|done]. destruct Hr as (Hv & Hf & Hj & x & Hx & Hin). split_and!; [|done|done].
    rewrite (Parts.part_same p q j Es) in Hin. apply (Parts.parts_apart p j i x); [lia|lia|done|]. unfold inside. lia.
Qed.

End parts.

Section data.
Context `{Zlib}.
Context (strict : bool) (stuck : Z -> option (list report)).
Abbreviation data_ok := (data_ok strict stuck).
Implicit Types (t : Task) (p q : Parts.parts RangeSet.t).

(** ** The content of the file *)

Lemma extend_long n content : n <= len content -> extend n content = content.
Proof.
  intros Hn. unfold extend. replace (Z.to_nat n - length content)%nat with 0%nat by (unfold len in *; lia). apply app_nil_r.
Qed.
Lemma extend_length n content : n <= len (extend n content).
Proof. unfold extend, len. rewrite length_app, length_replicate. lia. Qed.
Lemma overwrite_length b d content : len content <= len (overwrite b d content).
Proof.
  unfold overwrite, extend, len. rewrite !length_app, length_take, length_drop, !length_app, !length_replicate. lia.
Qed.
(** A write does not change the rest of the file. *)
Lemma slice_overwrite (r : Range) b d content :
  0 <= r.1 -> r.1 <= r.2 -> r.2 <= len content -> 0 <= b <= len content -> r.2 <= b \/ b + len d <= r.1 ->
  slice r (overwrite b d content) = slice r content.
Proof.
  intros Hr Hr1 Hr2 Hb Hd. unfold slice, overwrite. rewrite extend_long by lia. unfold len in *.
  apply list_eq. intros k. destruct (decide (k < Z.to_nat (r.2 - r.1))%nat) as [Hk|Hk].
  2: { rewrite !lookup_take_ge by lia. done. }
  rewrite !lookup_take_lt, !lookup_drop by lia. destruct Hd as [Hd|Hd].
  - rewrite lookup_app_l by (rewrite length_take; lia). by rewrite lookup_take_lt by lia.
  - rewrite lookup_app_r by (rewrite length_take; lia). rewrite length_take, lookup_app_r by lia.
    rewrite lookup_drop. f_equal. lia.
Qed.
(** So for the digests of the other parts. *)
Lemma digest_overwrite t i b (d d' : bytes) :
  Parts.parts_ok (parts t) -> isPart t i -> in_part (parts t) (b, b + len d) -> len d' <= len d -> Parts.partOf b <> i ->
  size t <= len (content t) -> digest (set_content (overwrite b d' (content t)) t) i = digest t i.
Proof.
  intros Hp Hi (j & Hj & H1 & H2 & H3) Hd Hne Hlen. cbn [fst snd] in *.
  pose proof (in_part_index (parts t) j (b, b + len d) ltac:(lia) H1 H2 H3) as E. cbn [fst] in E.
  pose proof (Parts.part_bounds _ _ Hp Hi) as Hb. pose proof (Parts.part_bounds _ _ Hp Hj) as Hb'. unfold size in Hlen.
  unfold digest. cbn [parts content set_content]. f_equal. apply slice_overwrite; try lia.
  unfold Parts.part, isPart in *. cbn [fst snd] in *. unfold PIECE_LENGTH in *. lia.
Qed.

(** ** Soundness of the data *)

(** What may be queued. *)
Definition postable t (j : job) : Prop :=
  match j with
  | Open _ _ => False
  | Write b _ => let i := Parts.partOf b in
      0 <= i /\ Parts.isVerified (parts t) i <> Some true /\ (i ∉ verifying t) /\
      (unchecked t = true ->
         br_covered (Parts.part (parts t) i).1 (Parts.part (parts t) i).2 (Parts.received (parts t)) <> 0)
  | Digest i (Verify e) => settled t i e /\ i ∉ verifying t
  | Digest i (Check e) => expectedHash t i = Some e
  | _ => True
  end.
Lemma unwritten_app js j i :
  unwritten js i -> (forall b d, j = Write b d -> Parts.partOf b <> i) -> unwritten (js ++ [j]) i.
Proof. intros Hu Hj b d [Hin|Hin%list_elem_of_singleton]%elem_of_app; [by eapply Hu|by eapply Hj]. Qed.
Lemma verifying_job t k i e : jobs t !! k = Some (Digest i (Verify e)) -> i ∈ verifying t.
Proof.
  intros E%list_elem_of_lookup_2. apply elem_of_app. right. apply list_elem_of_bind. eexists. split; [|exact E]. cbn. by left.
Qed.
Lemma verifying_handler t i er d e : Digested i er d (Verify e) ∈ handlers t -> i ∈ verifying t.
Proof. intros E. apply elem_of_app. left. apply list_elem_of_bind. eexists. split; [|exact E]. cbn. by left. Qed.

Lemma sound_post t j : sound t -> postable t j -> sound (set_jobs (jobs t ++ [j]) t).
Proof.
  intros [[Hv Hn Hw] Ho Hj Hh Hu Hc Hl] Hp.
  assert (Hun : forall js i, unwritten js i -> i ∈ verifying t \/ Parts.isVerified (parts t) i = Some true \/
    (unchecked t = true /\ br_covered (Parts.part (parts t) i).1 (Parts.part (parts t) i).2 (Parts.received (parts t)) = 0) ->
    unwritten (js ++ [j]) i).
  { intros js i Hjs Hi. apply unwritten_app; [done|]. intros b d -> <-. destruct Hp as (_ & H1 & H2 & H3). naive_solver. }
  constructor; [constructor| | | | | |]; try done; cbn [jobs set_jobs].
  - intros i Hi Ei. destruct (Hv i Hi Ei). split; [done|]. apply Hun; auto.
  - intros a b [Hin|Hin%list_elem_of_singleton]%elem_of_app; [by apply (Ho a b)|by subst].
  - intros k i e Hk. apply lookup_app_Some in Hk as [Hk|[Hlen Hk]].
    + destruct (Hj k i e Hk) as [Hs Huw]. split; [done|]. rewrite drop_app_le by (apply lookup_lt_Some in Hk; lia).
      apply Hun; [done|]. left. by eapply verifying_job.
    + apply list_lookup_singleton_Some in Hk as [Hk ->]. destruct Hp as [Hs _]. split; [done|].
      intros b d Hin. rewrite drop_ge in Hin by (rewrite length_app; simpl; lia). by apply elem_of_nil in Hin.
  - intros i er d e Hin. destruct (Hh i er d e Hin) as (Hs & Huw & Hd). split_and!; [done| |done].
    apply Hun; [done|]. left. by eapply verifying_handler.
  - unfold verifying. cbn [jobs handlers set_jobs]. rewrite bind_app, app_assoc. apply NoDup_app. split_and!; [done| |].
    + intros i Hi. destruct j as [| |i' []| |]; cbn; rewrite ?app_nil_r; try (by intros ?%elem_of_nil).
      destruct Hp as [_ Hnot]. intros ->%list_elem_of_singleton. done.
    + cbn. rewrite app_nil_r. destruct j as [| |i' []| |]; cbn; try constructor. apply not_elem_of_nil. constructor.
  - intros i e [Hin|Hin]; [|by apply Hc; right]. apply elem_of_app in Hin as [Hin|Hin%list_elem_of_singleton]; [by apply Hc; left|].
    by subst.
  - intros i Hun' Hi Hcov. destruct (Hl i Hun' Hi Hcov). split; [|done]. apply Hun; auto.
Qed.
Lemma sound_pop t h rest : handlers t = h :: rest -> sound t -> sound (set_handlers rest t).
Proof.
  intros E [[Hv Hn Hw] Ho Hj Hh Hu Hc Hl]. constructor; [by constructor|done|done| | | |done]; cbn [handlers jobs set_handlers].
  - intros i er d e Hin. apply (Hh i er d e). rewrite E. by right.
  - unfold verifying in *. rewrite E in Hu. cbn in Hu. rewrite <- app_assoc in Hu. by apply NoDup_app in Hu as (_ & _ & ?).
  - intros i e [Hin|(er & d & Hin)]; apply Hc; [by left|]. right. exists er, d. rewrite E. by right.
Qed.

Lemma needsHashSet_same t q : Parts.size q = Parts.size (parts t) -> needsHashSet (set_parts q t) = needsHashSet t.
Proof. intros E. unfold needsHashSet, size. cbn. by rewrite E. Qed.
Lemma digest_same t q i : Parts.size q = Parts.size (parts t) -> digest (set_parts q t) i = digest t i.
Proof. intros E. unfold digest. cbn. by rewrite (Parts.part_same _ q) by done. Qed.
Lemma isVerified_bool p i : 0 <= i < Parts.count p -> Parts.isVerified p i = Some true \/ Parts.isVerified p i = Some false.
Proof. intros Hi. destruct (Parts.isVerified_in p i Hi) as [[] ?]; auto. Qed.

(** The part [i] changes, and what it is then can be relied on. *)
Lemma sound_parts t i q :
  sound t -> Parts.parts_ok (parts t) -> Parts.parts_ok q -> elsewhere i (parts t) q -> isPart t i ->
  i ∉ verifying t -> (forall a b, Open a b ∉ jobs t) ->
  (Parts.isVerified q i = Some true ->
     needsHashSet t = false /\ expectedHash t i = Some (digest t i) /\ unwritten (jobs t) i) ->
  (unchecked t = true -> br_covered (Parts.part q i).1 (Parts.part q i).2 (Parts.received q) <> 0) ->
  sound (set_parts q t).
Proof.
  intros [[Hv Hn Hw] Ho Hj Hh Hu Hc Hl] Hp Hq He Hi Hnot Hopen Hgood Hcov.
  assert (Es : Parts.size q = Parts.size (parts t)) by apply He.
  assert (Ec : forall j, isPart (set_parts q t) j <-> isPart t j).
  { intros j. unfold isPart. cbn. by rewrite (e_count _ _ _ He). }
  assert (Hs : forall j e, j ∈ verifying t -> settled t j e -> settled (set_parts q t) j e).
  { intros j e Hj' (Hpj & H1 & H2 & H3). destruct (decide (j = i)) as [->|Hne]; [done|].
    split; [by apply Ec|]. unfold isPart in *. cbn [parts set_parts].
    rewrite (e_verified _ _ _ He), (elsewhere_filled i (parts t) q) by (done || lia). done. }
  constructor; [constructor| | | | | |]; cbn [parts jobs handlers waitingForHashSet set_parts].
  - intros j Hj'%Ec Ev. destruct (decide (j = i)) as [->|Hne]; [rewrite digest_same by done; by apply Hgood|].
    unfold isPart in *. rewrite (e_verified _ _ _ He) in Ev by (lia || done). rewrite digest_same by done. by apply Hv.
  - intros j. rewrite needsHashSet_same by done. intros Hneeds Hj'%Ec. unfold isPart in *.
    destruct (decide (j = i)) as [->|Hne]; [|rewrite (e_verified _ _ _ He) by (lia || done); by apply Hn].
    destruct (isVerified_bool q i) as [Ev|Ev]; [rewrite (e_count _ _ _ He); lia| |done].
    destruct (Hgood Ev) as [E' _]. congruence.
  - done.
  - intros a b Hin. by destruct (Hopen a b).
  - intros k j e Hk. destruct (Hj k j e Hk) as [Hset Hun]. split; [|done]. apply Hs; [by eapply verifying_job|done].
  - intros j er d e Hin. destruct (Hh j er d e Hin) as (Hset & Hun & Hd). rewrite digest_same by done.
    split_and!; [|done|done]. apply Hs; [by eapply verifying_handler|done].
  - done.
  - intros j e Hin. rewrite <- (Hc j e Hin). done.
  - intros j Hun Hj'%Ec. destruct (decide (j = i)) as [->|Hne]; [intros E; by destruct (Hcov Hun)|].
    unfold isPart in *. cbn [unchecked set_parts] in *. rewrite (elsewhere_covered i (parts t) q) by (done || lia). intros E.
    rewrite digest_same by done. by apply Hl.
Qed.

(** ** The invariant of the data *)

Lemma not_stuck b f t : data_ok b f t -> phase t <> PClosing \/ jobs t <> [] \/ handlers t <> [] -> stuck f = None.
Proof.
  intros Hd Hn. destruct (stuck f) as [told|] eqn:Hs; [|done]. destruct (d_stuck _ _ _ _ _ Hd told Hs) as (? & ? & ? & _). naive_solver.
Qed.

Lemma data_post b f t j :
  data_ok b f t -> job_ok t j -> life (phase t) (jobs t ++ [j]) (handlers t) -> stuck f = None ->
  (forall x d, j = Write x d -> size t <= len (content t)) -> (strict = true -> postable t j) ->
  data_ok b f (set_jobs (jobs t ++ [j]) t).
Proof.
  intros [Hhash Hpieces Hlife Hstuck Hwaiting Hwaits Hjobs Hhandlers Hlocal Hlength Hcomplete Hchecking Hsound] Hj Hl Hst Hlen Hs. constructor; cbn [jobs phase handlers set_jobs]; try done; try congruence.
  - by left.
  - apply Forall_app. split; [done|]. by apply Forall_singleton.
  - intros [?|[?|[?|(x & d & Hin)]]]; [apply Hlength; auto..|]. apply elem_of_app in Hin as [Hin|Hin%list_elem_of_singleton]; [|by eapply Hlen].
    apply Hlength. eauto 10.
  - intros E. destruct (Hchecking E) as [?|(H1 & H2 & H3 & H4)]; [by left|right]. split_and!; [done..|]. intros Hn.
    destruct (H4 Hn) as [? H5]. split; [done|]. intros i Hi. destruct (H5 i Hi) as [?|?]; [|by right].
    left. apply elem_of_app. by left.
  - intros E. apply sound_post; auto.
Qed.

Lemma life_pop t h rest :
  life (phase t) (jobs t) (handlers t) -> handlers t = h :: rest -> phase t <> POpening -> life (phase t) (jobs t) rest.
Proof.
  intros Hl E Hp. rewrite E in Hl. destruct (phase t); cbn [life] in *; try done.
  - naive_solver.
  - destruct Hl as [? [_ ?]%Forall_cons]. done.
  - destruct Hl as [? [_ ?]%Forall_cons]. done.
  - destruct Hl as [? [_ ?]%Forall_cons]. done.
  - destruct Hl as [[Hl|Hl]|[[Hl|Hl]|[[? [_ ?]%Forall_cons]|[? [_ ?]%Forall_cons]]]]; [naive_solver| |naive_solver| |auto|auto].
    + destruct Hl as (? & ? & -> & [= _ ->]). right; right; left. done.
    + destruct Hl as (-> & [= _ ->]). right; right; left. done.
Qed.
Lemma data_pop b f t h rest :
  data_ok b f t -> handlers t = h :: rest -> phase t <> POpening ->
  (b = false -> phase t = PChecking -> forall i e d, h <> Digested i e d CheckLocal) -> data_ok b f (set_handlers rest t).
Proof.
  intros Hd E Hp Hc. assert (stuck f = None) by (apply (not_stuck b f t Hd); rewrite E; auto).
  destruct Hd as [Hhash Hpieces Hlife Hstuck Hwaiting Hwaits Hjobs Hhandlers Hlocal Hlength Hcomplete Hchecking Hsound]. constructor; cbn [jobs phase handlers set_handlers]; try done; try congruence.
  - left. destruct Hlife as [Hl|(_ & Ep & _)]; [by eapply life_pop|done].
  - rewrite E in Hhandlers. by apply Forall_cons in Hhandlers as [_ ?].
  - intros Ep. destruct b; [by left|]. destruct (Hchecking Ep) as [?|(H1 & H2 & H3 & H4)]; [done|right]. split_and!; [done..| |].
    + intros i e d u Hin. apply (H3 i e d u). rewrite E. by right.
    + intros Hn. destruct (H4 Hn) as [? H5]. split; [done|]. intros i Hi. destruct (H5 i Hi) as [?|[(e & d & Hin)|?]]; [by left| |auto].
      rewrite E in Hin. apply elem_of_cons in Hin as [<-|Hin]; [by destruct (Hc eq_refl Ep i e d)|]. right. left. by exists e, d.
  - intros Es. eapply sound_pop; eauto.
Qed.

Lemma sound_phase ph o t : sound t -> sound (set_phase ph (set_ending o t)).
Proof. intros [[]]. constructor; [constructor|..]; assumption. Qed.
Lemma data_phase b f t ph o :
  data_ok b f t -> life ph (jobs t) (handlers t) -> stuck f = None ->
  (ph = PDownloading -> needsHashSet t = false -> waitingForHashSet t = []) -> (ph = PChecking -> checking_ok t) ->
  (ph = PChecking \/ ph = PDownloading \/ ph = PSharing -> size t <= len (content t)) ->
  (ph = PSharing \/ (ph = PClosing /\ o = OComplete) -> Parts.complete (parts t) = true) ->
  data_ok b f (set_phase ph (set_ending o t)).
Proof.
  intros [Hhash Hpieces Hlife Hstuck Hwaiting Hwaits Hjobs Hhandlers Hlocal Hlength Hcomplete Hchecking Hsound] Hl Hst Hw Hc Hlen Hcomp. constructor; cbn [jobs phase handlers set_phase set_ending]; try done; try congruence.
  - by left.
  - intros [?|[?|[?|?]]]; [apply Hlen; auto..|]. apply Hlength; auto.
  - intros E. right. by apply Hc.
  - intros E. by apply sound_phase, Hsound.
Qed.
Lemma data_tighten b f t :
  data_ok b f t -> phase t <> POpening -> (phase t = PChecking -> checking_ok t) -> (unchecked t = true -> needsHashSet t = true) ->
  data_ok false f t.
Proof.
  intros [? ? Hl ? ? ? ? ? Hloc] Hp Hc Hn. constructor; try done.
  - left. by destruct Hl as [?|(_ & ? & _)].
  - intros E. destruct (Hloc E). auto.
  - auto.
Qed.
(** A task that is neither closed nor closing may close. *)
Lemma data_close b f t o :
  data_ok b f t -> phase t <> PIdle -> phase t <> PClosing -> (o = OComplete -> Parts.complete (parts t) = true) ->
  data_ok b f (set_phase PClosing (set_ending o t)).
Proof.
  intros Hd H1 H2 Ho. apply data_phase; try done; [|by apply (not_stuck b f t Hd); auto|naive_solver|naive_solver].
  destruct (d_life _ _ _ _ _ Hd) as [Hl|(_ & _ & -> & ->)]; [|right; right; left; done].
  destruct (phase t); cbn [life] in *; [done|by left|by right; right; left|by right; right; right|by right; right; right|done].
Qed.
(** Bookkeeping of parts. *)
Lemma data_table b f t q :
  data_ok b f t -> Parts.size q = Parts.size (parts t) -> Parts.count q = Parts.count (parts t) ->
  phase t = PDownloading \/ phase t = PChecking ->
  (forall j, j ∈ waitingForHashSet t -> isPart t j -> Parts.filled (parts t) j = true ->
     Parts.isVerified (parts t) j = Some false -> Parts.filled q j = true /\ Parts.isVerified q j = Some false) ->
  (strict = true -> sound (set_parts q t)) -> data_ok b f (set_parts q t).
Proof.
  intros [Hhash Hpieces Hlife Hstuck Hwaiting Hwaits Hjobs Hhandlers Hlocal Hlength Hcomplete Hchecking Hsound] Es Eq Hph Hw Hs.
  assert (Ec : forall j, isPart (set_parts q t) j <-> isPart t j).
  { intros j. unfold isPart. cbn. by rewrite Eq. }
  assert (En : needsHashSet (set_parts q t) = needsHashSet t) by by apply needsHashSet_same.
  assert (Epart : forall r, in_part (parts t) r -> in_part q r).
  { intros r (j & Hj & Hr). exists j. rewrite Eq, (Parts.part_same _ q) by done. done. }
  constructor; try done.
  - unfold size in *. cbn [pieceHashes hash parts set_parts]. by rewrite Es.
  - cbn [waitingForHashSet parts set_parts]. rewrite Forall_forall in *. intros j Hj.
    destruct (Hwaiting j Hj) as (Hj1 & Hj2 & Hj3). rewrite Ec. split; [done|]. by apply Hw.
  - rewrite En. done.
  - eapply Forall_impl; [exact Hjobs|]. intros [| |j u| |]; unfold job_ok; rewrite ?Ec, ?En; auto.
  - eapply Forall_impl; [exact Hhandlers|]. intros []; unfold handler_ok, size; rewrite ?Ec, ?En; cbn [parts set_parts]; rewrite ?Es; auto.
  - cbn [unchecked localHashes parts set_parts]. rewrite En, Eq. done.
  - unfold size. cbn [parts set_parts]. rewrite Es. done.
  - cbn [phase set_parts]. intros [?|[? _]]; destruct Hph; congruence.
  - intros E. destruct (Hchecking E) as [?|(H1 & H2 & H3 & H4)]; [by left|right]. split_and!; [done|done| |].
    + intros j e d u Hin. rewrite digest_same by done. by eapply H3.
    + rewrite En. cbn [localHashes parts set_parts jobs handlers]. rewrite Eq. intros Hn.
      destruct (H4 Hn) as [? H5]. split; [done|]. intros j Hj%Ec. rewrite digest_same by done. by apply H5.
Qed.
Lemma data_parts b f t i q :
  data_ok b f t -> Parts.parts_ok (parts t) -> Parts.parts_ok q -> elsewhere i (parts t) q -> isPart t i ->
  phase t = PDownloading \/ phase t = PChecking ->
  (i ∈ waitingForHashSet t -> Parts.filled q i = true /\ Parts.isVerified q i = Some false) ->
  (strict = true -> sound (set_parts q t)) -> data_ok b f (set_parts q t).
Proof.
  intros Hd Hp Hq He Hi Hph Hw Hs. apply data_table; [done|apply He|apply He|done| |done].
  intros j Hj Hpj Hf Hv. destruct (decide (j = i)) as [->|Hne]; [by apply Hw|]. unfold isPart in *.
  rewrite (elsewhere_filled i (parts t) q), (e_verified _ _ _ He) by (done || lia). done.
Qed.

(** A part that is filled waits for its hash. *)
Lemma data_wait b f t i :
  data_ok b f t -> phase t = PDownloading -> needsHashSet t = true -> isPart t i -> Parts.filled (parts t) i = true ->
  Parts.isVerified (parts t) i = Some false -> i ∉ waitingForHashSet t ->
  data_ok b f (set_waitingForHashSet (waitingForHashSet t ++ [i]) t).
Proof.
  intros [Hhash Hpieces Hlife Hstuck Hwaiting Hwaits Hjobs Hhandlers Hlocal Hlength Hcomplete Hchecking Hsound] Hp Hn Hi Hf Hv Hnot.
  assert (Hl : Forall downloadJob (jobs t) /\ Forall downloadHandler (handlers t)).
  { rewrite Hp in Hlife. destruct Hlife as [?|(_ & ? & _)]; done. }
  constructor; cbn [jobs phase handlers set_waitingForHashSet]; try done.
  - apply Forall_app. split; [done|]. by apply Forall_singleton.
  - intros _ E. unfold needsHashSet in *. cbn in E. unfold size in *. cbn in E. congruence.
  - destruct Hl as [Hl _]. rewrite Forall_forall in *. intros j Hj. specialize (Hl j Hj). specialize (Hjobs j Hj). by destruct j.
  - destruct Hl as [_ Hl]. rewrite Forall_forall in *. intros j Hj. specialize (Hl j Hj). specialize (Hhandlers j Hj). by destruct j.
  - intros E. congruence.
  - intros E. destruct (Hsound E) as [[]]. constructor; [constructor|..]; try assumption.
    cbn [waitingForHashSet set_waitingForHashSet]. apply NoDup_app. split_and!; [done| |apply NoDup_singleton].
    intros j Hj ->%list_elem_of_singleton. done.
Qed.

(** *** The disk thread *)

(** The handler for what a job has done. *)
Definition answers (j : job) (h : handler) : Prop :=
  match j, h with
  | Open _ a, Opened _ b => a = b
  | Write _ _, Written _ => True
  | Digest i u, Digested j _ _ v => i = j /\ u = v
  | Sync, Synced | Close, Closed_ => True
  | _, _ => False
  end.
Lemma life_runs ph j js hs h : life ph (j :: js) hs -> answers j h -> life ph js (hs ++ [h]).
Proof.
  intros Hl Ha.
  assert (Hc : Forall checkJob (j :: js) /\ Forall checkHandler hs -> Forall checkJob js /\ Forall checkHandler (hs ++ [h])).
  { intros [[Hj ?]%Forall_cons ?]. split; [done|]. apply Forall_app. split; [done|]. apply Forall_singleton.
    destruct j, h; try done. destruct Ha as [_ ->]. done. }
  assert (Hd : Forall downloadJob (j :: js) /\ Forall downloadHandler hs -> Forall downloadJob js /\ Forall downloadHandler (hs ++ [h])).
  { intros [[Hj ?]%Forall_cons ?]. split; [done|]. apply Forall_app. split; [done|]. apply Forall_singleton.
    destruct j as [| |? []| |], h; try done; by destruct Ha as [_ <-]. }
  assert (Ho : openingFile (j :: js) hs -> openingFile js (hs ++ [h])).
  { intros [(a & b & [= -> ->] & ->)|(a & b & ? & _)]; [|done]. destruct h; try done. right. by eexists _, _. }
  assert (Hz : closingFile (j :: js) hs -> closingFile js (hs ++ [h])).
  { intros [([= -> ->] & ->)|[? _]]; [|done]. destruct h; try done. by right. }
  destruct ph; cbn [life] in *; try tauto. by destruct Hl.
Qed.
Lemma life_open ph a b js hs : life ph (Open a b :: js) hs -> (ph = POpening \/ ph = PClosing) /\ js = [] /\ hs = [].
Proof.
  assert (Ho : openingFile (Open a b :: js) hs -> js = [] /\ hs = []).
  { intros [(? & ? & [= _ _ ->] & ->)|(? & ? & ? & _)]; done. }
  assert (Hc : ~ Forall checkJob (Open a b :: js)) by (intros [? _]%Forall_cons; done).
  assert (Hd : ~ Forall downloadJob (Open a b :: js)) by (intros [? _]%Forall_cons; done).
  destruct ph; cbn [life]; try tauto; intros Hl; try (by destruct Hl).
  destruct Hl as [Hl|[[[? _]|[? _]]|Hl]]; try done; tauto.
Qed.

Lemma sound_runs_inert t j js h :
  jobs t = j :: js -> (j = Sync \/ j = Close \/ exists i e, j = Digest i e /\ isCheck e) -> answers j h -> sound t ->
  sound (set_handlers (handlers t ++ [h]) (set_jobs js t)).
Proof.
  intros E Hj Ha [[Hv Hn Hw] Ho Hjs Hh Hu Hc Hl].
  assert (Hun : forall i, unwritten (jobs t) i -> unwritten js i) by (intros i Hi b d Hin; eapply Hi; rewrite E; by right).
  assert (Hnot : handlerVerifies h = [] /\ jobVerifies j = []).
  { destruct Hj as [->|[->|(i & [] & -> & He)]]; destruct h; try done; by destruct Ha as [_ <-]. }
  constructor; [constructor|..]; try done; cbn [jobs handlers set_handlers set_jobs].
  - intros i Hi Ei. destruct (Hv i Hi Ei). auto.
  - intros a b Hin. apply (Ho a b). rewrite E. by right.
  - intros k i e Hk. destruct (Hjs (S k) i e) as [Hs Hun']; [by rewrite E|]. rewrite E in Hun'. done.
  - intros i er d e [Hin|Hin%list_elem_of_singleton]%elem_of_app.
    + destruct (Hh i er d e Hin) as (? & ? & ?). auto.
    + rewrite <- Hin in Hnot. by destruct Hnot.
  - unfold verifying in *. cbn [jobs handlers set_handlers set_jobs]. rewrite E in Hu. cbn in Hu.
    destruct Hnot as [Hh' Hj']. rewrite Hj' in Hu. rewrite bind_app. cbn. rewrite Hh', !app_nil_r. done.
  - intros i e [Hin|(er & d & Hin)]; apply Hc; [left; rewrite E; by right|].
    apply elem_of_app in Hin as [Hin|Hin%list_elem_of_singleton]; [right; by exists er, d|]. left. rewrite E.
    subst h. destruct j; try done. destruct Ha as [-> ->]. by left.
  - intros i Hun' Hi Hcov. destruct (Hl i Hun' Hi Hcov). auto.
Qed.
Lemma sound_runs_verify t i e js er :
  jobs t = Digest i (Verify e) :: js -> sound t ->
  sound (set_handlers (handlers t ++ [Digested i er (digest t i) (Verify e)]) (set_jobs js t)).
Proof.
  intros E [[Hv Hn Hw] Ho Hjs Hh Hu Hc Hl].
  assert (Hun : forall i, unwritten (jobs t) i -> unwritten js i) by (intros j Hi b d Hin; eapply Hi; rewrite E; by right).
  constructor; [constructor|..]; try done; cbn [jobs handlers set_handlers set_jobs].
  - intros j Hi Ei. destruct (Hv j Hi Ei). auto.
  - intros a b Hin. apply (Ho a b). rewrite E. by right.
  - intros k j e' Hk. destruct (Hjs (S k) j e') as [Hs Hun']; [by rewrite E|]. rewrite E in Hun'. done.
  - intros j er' d e' [Hin|Hin%list_elem_of_singleton]%elem_of_app.
    + destruct (Hh j er' d e' Hin) as (? & ? & ?). auto.
    + simplify_eq. destruct (Hjs 0%nat i e) as [Hs Hun']; [by rewrite E|]. rewrite E in Hun'. cbn in Hun'. by rewrite drop_0 in Hun'.
  - unfold verifying in *. cbn [jobs handlers set_handlers set_jobs]. rewrite E in Hu. cbn in Hu.
    rewrite bind_app. cbn. rewrite <- app_assoc. exact Hu.
  - intros j e' [Hin|(er' & d & Hin)]; apply Hc; [left; rewrite E; by right|].
    apply elem_of_app in Hin as [Hin|Hin%list_elem_of_singleton]; [right; by exists er', d|done].
  - intros j Hun' Hi Hcov. destruct (Hl j Hun' Hi Hcov). auto.
Qed.

(** A write changes its part only. *)
Lemma sound_runs_write t b (d d' : bytes) js er :
  jobs t = Write b d :: js -> Parts.parts_ok (parts t) -> in_part (parts t) (b, b + len d) -> len d' <= len d ->
  size t <= len (content t) -> (forall x y, Open x y ∉ js) -> sound t ->
  sound (set_handlers (handlers t ++ [Written er]) (set_content (overwrite b d' (content t)) (set_jobs js t))).
Proof.
  intros E Hp Hb Hd Hlen Hno [[Hv Hn Hw] Ho Hjs Hh Hu Hc Hl].
  assert (Hun : forall i, unwritten (jobs t) i -> unwritten js i) by (intros i Hi x y Hin; eapply Hi; rewrite E; by right).
  assert (Hdig : forall i, isPart t i -> unwritten (jobs t) i ->
    digest (set_handlers (handlers t ++ [Written er]) (set_content (overwrite b d' (content t)) (set_jobs js t))) i = digest t i).
  { intros i Hi Hu'. apply (digest_overwrite t i b d d'); try done. eapply Hu'. rewrite E. by left. }
  constructor; [constructor|..]; try done; cbn [jobs handlers set_handlers set_jobs].
  - intros i Hi Ei. destruct (Hv i Hi Ei). rewrite Hdig by done. auto.
  - intros x y Hin. by destruct (Hno x y).
  - intros k i e Hk. destruct (Hjs (S k) i e) as [Hs Hun']; [by rewrite E|]. rewrite E in Hun'. done.
  - intros i x y e [Hin|Hin%list_elem_of_singleton]%elem_of_app; [|done].
    destruct (Hh i x y e Hin) as (Hs & ? & ?). pose proof Hs as (Hi & _). rewrite Hdig by done. auto.
  - unfold verifying in *. cbn [jobs handlers set_handlers set_jobs set_content]. rewrite E in Hu. cbn in Hu.
    rewrite bind_app. cbn. rewrite !app_nil_r. done.
  - intros i e [Hin|(x & y & Hin)]; apply Hc; [left; rewrite E; by right|].
    apply elem_of_app in Hin as [Hin|Hin%list_elem_of_singleton]; [right; by exists x, y|done].
  - intros i Hun' Hi Hcov. destruct (Hl i Hun' Hi Hcov). rewrite Hdig by done. auto.
Qed.

(** Opening the file keeps the content of one that has parts verified. *)
Lemma sound_runs_open t a c er content' :
  jobs t = [Open a c] -> handlers t = [] -> unchecked t = false ->
  (a = false -> len (content t) = size t -> content' = content t) -> sound t ->
  sound (set_handlers (handlers t ++ [Opened er c]) (set_content content' (set_jobs [] t))).
Proof.
  intros Ej Eh Hun Hc [[Hv Hn Hw] Ho _ _ _ _ _]. rewrite Eh. cbn [app].
  constructor; [constructor|..]; try done; cbn [jobs handlers unchecked set_handlers set_jobs set_content].
  - intros i Hi Ei. destruct (Ho a c) as [[-> Hsz]|Hno]; [rewrite Ej; by left| |change (Parts.isVerified (parts t) i = Some true) in Ei; by rewrite (Hno i Hi) in Ei].
    rewrite (Hc eq_refl Hsz). destruct (Hv i Hi Ei). split; [done|]. intros b d Hin. by apply elem_of_nil in Hin.
  - intros x y Hin. by apply elem_of_nil in Hin.
  - intros i x y e Hin%list_elem_of_singleton. done.
  - constructor.
  - intros i e [Hin|(x & y & Hin)]; [by apply elem_of_nil in Hin|by apply list_elem_of_singleton in Hin].
  - congruence.
Qed.

Lemma life_no_open ph j js hs : life ph (j :: js) hs -> (forall a b, j <> Open a b) -> forall a b, Open a b ∉ js.
Proof.
  intros Hl Hj a b Hin.
  assert (Hc : ~ Forall checkJob (j :: js)) by (rewrite Forall_forall; intros Hf; apply (Hf (Open a b)); by right).
  assert (Hd : ~ Forall downloadJob (j :: js)) by (rewrite Forall_forall; intros Hf; apply (Hf (Open a b)); by right).
  assert (Ho : ~ openingFile (j :: js) hs) by (intros [(x & y & [= -> ->] & _)|(? & ? & ? & _)]; [by apply (Hj x y)|done]).
  assert (Hz : ~ closingFile (j :: js) hs) by (intros [([= -> ->] & _)|[? _]]; [by apply elem_of_nil in Hin|done]).
  destruct ph; cbn [life] in Hl; tauto || by destruct Hl.
Qed.

Lemma runFirst_parts error t : parts (runFirst error t) = parts t /\ phase (runFirst error t) = phase t /\ sources (runFirst error t) = sources t.
Proof. unfold runFirst. by destruct (jobs t) as [|[]]. Qed.
Lemma data_runs f t error : data_ok false f t -> Parts.parts_ok (parts t) -> data_ok false f (runFirst error t).
Proof.
  intros Hd Hp. destruct (jobs t) as [|j js] eqn:Ej; [by unfold runFirst; rewrite Ej|].
  assert (Hst : stuck f = None) by (apply (not_stuck false f t Hd); rewrite Ej; auto).
  destruct Hd as [Hhash Hpieces Hlife Hstuck Hwaiting Hwaits Hjobs Hhandlers Hlocal Hlength Hcomplete Hchecking Hsound].
  assert (Hl : life (phase t) (j :: js) (handlers t)) by (destruct Hlife as [?|[]]; [by rewrite <- Ej|done]).
  rewrite Ej in Hjobs. apply Forall_cons in Hjobs as [Hj Hjobs].
  assert (Hw : (exists b d, Write b d ∈ js) -> exists b d, Write b d ∈ jobs t) by (rewrite Ej; intros (b & d & ?); exists b, d; by right).
  assert (Hstep : forall h content', answers j h -> handler_ok (set_content content' t) h ->
    ((forall a c, j <> Open a c) -> len (content t) <= len content') -> (phase t = PChecking -> content' = content t) ->
    (forall i e d u, h = Digested i e d u -> d = digest t i) ->
    (strict = true -> sound (set_handlers (handlers t ++ [h]) (set_content content' (set_jobs js t)))) ->
    data_ok false f (set_handlers (handlers t ++ [h]) (set_content content' (set_jobs js t)))).
  { intros h content' Ha Hh Hlen Hsame Hdig Hs. constructor; cbn [jobs phase handlers set_handlers set_content set_jobs]; try done; try congruence.
    - left. by eapply life_runs.
    - apply Forall_app. split; [|by apply Forall_singleton]. rewrite Forall_forall in *. intros h' Hin. specialize (Hhandlers h' Hin).
      assert (Hno : forall a c, j <> Open a c).
      { intros a c ->. apply life_open in Hl as (_ & _ & E). rewrite E in Hin. by apply elem_of_nil in Hin. }
      specialize (Hlen Hno). destruct h'; try done. destruct Hhandlers as (? & ? & Hc). split_and!; [done..|].
      intros He. specialize (Hc He). unfold size in *. cbn [content parts set_handlers set_content set_jobs]. lia.
    - intros Hx. assert (Hno : forall a c, j <> Open a c).
      { intros a c ->. apply life_open in Hl as ([E|E] & -> & _); rewrite E in Hx; destruct Hx as [?|[?|[?|(? & ? & ?%elem_of_nil)]]]; done. }
      specialize (Hlen Hno). assert (size t <= len (content t)); [|unfold size in *; cbn [content parts set_handlers set_content set_jobs]; lia]. apply Hlength. destruct Hx as [?|[?|[?|?]]]; auto.
    - intros Ep. rewrite (Hsame Ep). destruct (Hchecking Ep) as [?|(H1 & H2 & H3 & H4)]; [by left|right]. split_and!; [done|done| |].
      + intros i e d u [Hin|Hin%list_elem_of_singleton]%elem_of_app; [by eapply H3|]. by eapply Hdig.
      + intros Hn. destruct (H4 Hn) as [? H5]. split; [done|]. intros i Hi. cbn [jobs handlers set_handlers set_content set_jobs].
        destruct (H5 i Hi) as [Hin|[(e & d & Hin)|?]]; [|right; left; exists e, d; apply elem_of_app; by left|auto].
        rewrite Ej in Hin. apply elem_of_cons in Hin as [<-|Hin]; [|by left]. right. left.
        destruct h; try done. destruct Ha as [<- <-]. eexists _, _. apply elem_of_app. right. by left. }
  pose proof (life_no_open _ _ _ _ Hl) as Hno. unfold runFirst. rewrite Ej. destruct j as [a c|b d|i u| |].
  - pose proof (life_open _ _ _ _ _ Hl) as (Hph & -> & Eh). destruct Hj as [Hu Hw'].
    apply Hstep; [done| |naive_solver|destruct Hph; congruence|done|].
    + split_and!; [done..|]. intros He. rewrite He. apply extend_length.
    + intros Es. apply sound_runs_open with a; [done..| |by apply Hsound]. intros -> Hsz.
      rewrite extend_long by lia. by destruct (bool_decide _).
  - apply Hstep; [done|done| | |done|].
    + intros _. apply overwrite_length.
    + intros Ep. rewrite Ep in Hl. destruct Hl as [[? _]%Forall_cons _]. done.
    + intros Es. apply sound_runs_write with d; [done..| | | |by apply Hsound].
      * destruct error; [unfold len; rewrite length_take; lia|done].
      * apply Hlength. right. right. right. exists b, d. rewrite Ej. by left.
      * by apply Hno.
  - apply (Hstep _ (content t)); [done|done|done|done|by intros ? ? ? ? [= <- _ <- _]|].
    intros Es. destruct u as [e|e|]; [by apply (sound_runs_verify t i e), Hsound|..];
      (eapply (sound_runs_inert t); [exact Ej|right; right; by eexists _, _|done|by apply Hsound]).
  - apply (Hstep _ (content t)); [done..|]. intros Es. apply (sound_runs_inert t Sync js); [done|by left|done|by apply Hsound].
  - apply (Hstep _ (content t)); [done..|]. intros Es. apply (sound_runs_inert t Close js); [done|by right; left|done|by apply Hsound].
Qed.

(** *** Data that arrives *)

Lemma covered_pos p i x :
  Parts.parts_ok p -> 0 <= i < Parts.count p -> inside x (Parts.part p i) -> covers (Parts.received p) x ->
  br_covered (Parts.part p i).1 (Parts.part p i).2 (Parts.received p) <> 0.
Proof.
  intros Hp Hi Hx Hc. pose proof (Parts.part_bounds p i Hp Hi). pose proof Hp as (Hok & _).
  rewrite covered_spec by (done || lia). unfold count_bytes. intros E.
  assert (Hin : x ∈ filter (covers (Parts.received p)) (seqZ (Parts.part p i).1 ((Parts.part p i).2 - (Parts.part p i).1))).
  { apply list_elem_of_filter. split; [done|]. apply elem_of_seqZ. unfold inside in Hx. lia. }
  destruct (filter _ _); [by apply elem_of_nil in Hin|]. simpl in E. lia.
Qed.
(** The end of a part that is filled. *)
Lemma filled_pos p i :
  Parts.parts_ok p -> 0 <= i < Parts.count p -> Parts.filled p i = true ->
  br_covered (Parts.part p i).1 (Parts.part p i).2 (Parts.received p) <> 0.
Proof.
  intros Hp Hi Hf. pose proof (Parts.part_bounds p i Hp Hi). rewrite filled_spec in Hf by done.
  apply (covered_pos p i (Parts.part p i).1); [done|done|unfold inside; lia|]. apply Hf. unfold inside. lia.
Qed.
Lemma verified_filled p i :
  Parts.parts_ok p -> 0 <= i -> Parts.isVerified p i = Some true -> Parts.filled p i = true.
Proof. intros Hp Hi Hv. apply filled_spec; [done|]. intros x Hx. destruct Hp as (_ & _ & _ & _ & Hver & _). by apply (Hver i x). Qed.
Lemma verifying_filled t i : sound t -> i ∈ verifying t -> Parts.filled (parts t) i = true /\ isPart t i.
Proof.
  intros Hs [Hin|Hin]%elem_of_app; apply list_elem_of_bind in Hin as (x & Hx & Hin).
  - destruct x as [| |j er d [e| |]| |]; cbn in Hx; try (by apply elem_of_nil in Hx).
    apply list_elem_of_singleton in Hx as ->. destruct (s_handlers _ Hs j er d e Hin) as ((? & ? & _) & _). done.
  - destruct x as [| |j [e| |]| |]; cbn in Hx; try (by apply elem_of_nil in Hx).
    apply list_elem_of_singleton in Hx as ->. apply list_elem_of_lookup in Hin as [k Hk].
    destruct (s_jobs _ Hs k j e Hk) as ((? & ? & _) & _). done.
Qed.
Lemma downloading_jobs b f t :
  data_ok b f t -> phase t = PDownloading -> Forall downloadJob (jobs t) /\ Forall downloadHandler (handlers t).
Proof. intros Hd Hp. destruct (d_life _ _ _ _ _ Hd) as [Hl|(_ & E & _)]; [by rewrite Hp in Hl|congruence]. Qed.

(** A range in a part that is not filled is received, and its write queued. *)
Lemma data_receive b f t (begin : Z) (d : bytes) :
  data_ok b f t -> Parts.parts_ok (parts t) -> phase t = PDownloading -> in_part (parts t) (begin, begin + len d) ->
  (strict = true -> Parts.filled (parts t) (Parts.partOf begin) = false) ->
  exists full q, Parts.add begin (begin + len d) (parts t) = Some (full, q) /\ Parts.parts_ok q /\
    elsewhere (Parts.partOf begin) (parts t) q /\ Parts.claims q = Parts.claims (parts t) /\
    data_ok b f (set_jobs (jobs t ++ [Write begin d]) (set_parts q t)) /\
    match full with
    | Some i => isPart t i /\ Parts.isVerified q i = Some false /\ Parts.filled q i = true /\ (strict = true -> i ∉ verifying t)
    | None => True
    end.
Proof.
  intros Hd Hp Hph Hin Hlate. pose proof Hin as (j & Hj & Hj1 & Hj2 & Hj3). cbn [fst snd] in *.
  destruct (add_elsewhere begin (begin + len d) (parts t) Hp) as (full & q & E & Hq & He & Ec & Ev & Hcov & Hi & Hfull); [by exists j|].
  set (i := Parts.partOf begin) in *. exists full, q.
  assert (Ei : i = j) by exact (in_part_index (parts t) j (begin, begin + len d) ltac:(lia) Hj1 Hj2 Hj3).
  assert (Hnot : strict = true -> i ∉ verifying t).
  { intros Es Hv. destruct (verifying_filled t i (d_sound _ _ _ _ _ Hd Es) Hv). rewrite Hlate in *; done. }
  assert (Hver : strict = true -> Parts.isVerified (parts t) i <> Some true).
  { intros Es Hv. apply verified_filled in Hv; [|done|lia]. rewrite Hlate in Hv; done. }
  assert (Evi : Parts.isVerified q i = Parts.isVerified (parts t) i) by (unfold Parts.isVerified; by rewrite Ev).
  assert (Hpos : br_covered (Parts.part q i).1 (Parts.part q i).2 (Parts.received q) <> 0).
  { apply (covered_pos q i begin); [done|rewrite (e_count _ _ _ He); lia| |apply Hcov; right; lia].
    rewrite (elsewhere_part i (parts t) q i He), Ei. unfold inside. lia. }
  assert (Hs : strict = true -> sound (set_parts q t)).
  { intros Es. apply (sound_parts t i q); try done; [by apply Hd| by apply Hnot| |].
    - intros x y Hxy. destruct (downloading_jobs _ _ _ Hd Hph) as [Hl _]. rewrite Forall_forall in Hl. exact (Hl _ Hxy).
    - rewrite Evi. intros Hv. by destruct (Hver Es). }
  assert (Hd1 : data_ok b f (set_parts q t)).
  { apply (data_parts b f t i q); try done; [by left|]. intros Hw.
    pose proof (d_waiting _ _ _ _ _ Hd) as Hw'. rewrite Forall_forall in Hw'. destruct (Hw' i Hw) as (_ & Hf & Hv).
    rewrite Evi. split; [|done]. apply filled_spec; [done|]. intros x Hx. apply Hcov. left.
    rewrite filled_spec in Hf by done. apply Hf. by rewrite <- (elsewhere_part i (parts t) q i He). }
  split_and!; try done.
  - apply (data_post b f (set_parts q t)); [done| | |by apply (not_stuck b f t Hd); left; congruence|..].
    + change (in_part q (begin, begin + len d)). exists j. rewrite (e_count _ _ _ He), (elsewhere_part i (parts t) q j He). done.
    + cbn [phase jobs handlers set_parts]. rewrite Hph. destruct (downloading_jobs _ _ _ Hd Hph) as [Hl1 Hl2].
      split; [|done]. apply Forall_app. split; [done|]. by apply Forall_singleton.
    + intros x y _. apply (d_length _ _ _ _ _ Hd1). right. by left.
    + intros Es. cbn [postable]. fold i. cbn [parts set_parts]. rewrite Evi. split_and!; [lia|by apply Hver|by apply Hnot|done].
  - destruct full as [i'|]; [|done]. destruct Hfull as (-> & ? & ?). split_and!; [exact Hi|done|done|exact Hnot].
Qed.

(** *** Parts that were hashed *)

Lemma verifying_pop t i er d e rest :
  handlers t = Digested i er d (Verify e) :: rest -> NoDup (verifying t) -> i ∉ verifying (set_handlers rest t).
Proof. intros E Hn. unfold verifying in *. rewrite E in Hn. cbn in Hn. by apply NoDup_cons in Hn as [? _]. Qed.
(** A part that has the right hash is verified, another is received again. *)
Lemma data_hashed b f t i er d e rest (ok : bool) q :
  data_ok b f t -> Parts.parts_ok (parts t) -> b = false -> phase t = PDownloading ->
  handlers t = Digested i er d (Verify e) :: rest ->
  Parts.parts_ok q -> elsewhere i (parts t) q -> Parts.isVerified q i = Some ok -> (ok = true -> d = e) ->
  data_ok b f (set_parts q (set_handlers rest t)).
Proof.
  intros Hd Hp -> Hph Eh Hq He Hok Hde.
  assert (Hh : isPart t i /\ needsHashSet t = false).
  { pose proof (d_handlers _ _ _ _ _ Hd) as Hh. rewrite Eh in Hh. apply Forall_cons in Hh as [[? Hn] _]. split; [done|]. by apply Hn. }
  destruct Hh as [Hi Hn].
  apply (data_parts false f (set_handlers rest t) i q); try done.
  - eapply data_pop; [done|done|by rewrite Hph|by rewrite Hph].
  - by left.
  - cbn. rewrite (d_waits _ _ _ _ _ Hd Hph Hn). by intros ?%elem_of_nil.
  - intros Es. pose proof (d_sound _ _ _ _ _ Hd Es) as Hs.
    destruct (s_handlers _ Hs i er d e) as ((_ & _ & _ & He') & Hun & Hdig); [rewrite Eh; by left|].
    apply (sound_parts (set_handlers rest t) i q); try done.
    + by eapply sound_pop.
    + eapply verifying_pop; [done|]. apply Hs.
    + intros x y Hxy. destruct (downloading_jobs _ _ _ Hd Hph) as [Hl _]. rewrite Forall_forall in Hl. exact (Hl _ Hxy).
    + rewrite Hok. intros [= ->]. split_and!; [done| |done]. rewrite <- (Hde eq_refl), Hdig in He'. exact He'.
    + intros Hu. destruct (d_local _ _ _ _ _ Hd Hu) as [_ [?|E]]; [done|]. congruence.
Qed.

(** *** The hash set *)

Lemma pieces_needed t hashes :
  needsHashSet t = true -> len hashes = hashSetPartCount (size t) ->
  hashes <> [] /\ needsHashSet (set_waitingForHashSet [] (set_pieceHashes hashes t)) = false.
Proof.
  intros Hn Hlen. unfold needsHashSet in *. apply andb_prop in Hn as [Hn _]. zprop.
  assert (hashes <> []) by (intros ->; unfold len in *; simpl in *; lia). split; [done|].
  cbn [pieceHashes set_waitingForHashSet set_pieceHashes]. by rewrite bool_decide_eq_false_2, andb_false_r.
Qed.
Lemma data_pieces f t hashes :
  data_ok false f t -> needsHashSet t = true -> phase t = PDownloading \/ (phase t = PChecking /\ jobs t = [] /\ handlers t = []) ->
  len hashes = hashSetPartCount (size t) -> rootHash hashes = Ok (hash t) ->
  data_ok true f (set_waitingForHashSet [] (set_pieceHashes hashes t)).
Proof.
  intros [Hhash Hpieces Hlife Hstuck Hwaiting Hwaits Hjobs Hhandlers Hlocal Hlength Hcomplete Hchecking Hsound] Hn Hph Hlen Hroot.
  destruct (pieces_needed t hashes Hn Hlen) as [Hne Hneeds].
  assert (Hnojob : forall j, j ∈ jobs t -> match j with Digest _ _ => False | _ => True end).
  { intros j Hj. destruct Hph as [Hph|(_ & E & _)]; [|rewrite E in Hj; by apply elem_of_nil in Hj].
    destruct Hlife as [Hl|[]]; [|done]. rewrite Hph in Hl. destruct Hl as [Hl _]. rewrite Forall_forall in Hl. rewrite Forall_forall in Hjobs.
    specialize (Hl j Hj). specialize (Hjobs j Hj). destruct j as [| |? []| |]; try done. destruct Hjobs as [_ [E _]].
    rewrite Hn in E. by discriminate E. }
  assert (Hnohandler : forall h, h ∈ handlers t -> match h with Digested _ _ _ _ => False | _ => True end).
  { intros j Hj. destruct Hph as [Hph|(_ & _ & E)]; [|rewrite E in Hj; by apply elem_of_nil in Hj].
    destruct Hlife as [Hl|[]]; [|done]. rewrite Hph in Hl. destruct Hl as [_ Hl]. rewrite Forall_forall in Hl. rewrite Forall_forall in Hhandlers.
    specialize (Hl j Hj). specialize (Hhandlers j Hj). destruct j as [| |? ? ? []| |]; try done. destruct Hhandlers as [_ [E _]].
    rewrite Hn in E. by discriminate E. }
  constructor; try done.
  - by right.
  - by destruct Hlife as [?|[? _]]; [left|].
  - rewrite Forall_forall in Hjobs |- *. intros j Hj. specialize (Hjobs j Hj). pose proof (Hnojob j Hj). destruct j; try done. naive_solver.
  - rewrite Forall_forall in Hhandlers |- *. intros h Hh. specialize (Hhandlers h Hh). pose proof (Hnohandler h Hh). destruct h; try done. naive_solver.
  - intros Hu. destruct (Hlocal Hu). split; [done|by left].
  - intros E. destruct (Hchecking E) as [?|(H1 & H2 & H3 & H4)]; [by left|right]. split_and!; [done..|]. rewrite Hneeds. done.
  - intros Es. destruct (Hsound Es) as [[Hv Hno Hw] Ho Hj Hh Hu Hc Hl].
    constructor; [constructor| | | | | |]; try done.
    + intros i Hi Ev. change (Parts.isVerified (parts t) i = Some true) in Ev. rewrite (Hno i Hn Hi) in Ev. done.
    + intros i E. rewrite Hneeds in E. done.
    + constructor.
    + intros k i e Hk%list_elem_of_lookup_2. by apply Hnojob in Hk.
    + intros i er d e Hin. by apply Hnohandler in Hin.
    + intros i e [Hin|(er & d & Hin)]; [by apply Hnojob in Hin|by apply Hnohandler in Hin].
Qed.

Lemma acceptLocal_spec local pieces (l : list Z) : forall p,
  Parts.parts_ok p -> Forall (fun i => 0 <= i < Parts.count p) l -> NoDup l ->
  Parts.count p <= len local -> Parts.count p <= len pieces ->
  exists q, acceptLocal local pieces l p = Some q /\ Parts.parts_ok q /\ Parts.size q = Parts.size p /\
    Parts.count q = Parts.count p /\ Parts.claims q = Parts.claims p /\
    forall j, 0 <= j < Parts.count p ->
      (Parts.isVerified q j = Parts.isVerified p j /\ (Parts.filled p j = true -> Parts.filled q j = true)) \/
      (j ∈ l /\ Parts.isVerified p j = Some false /\ Parts.isVerified q j = Some true /\
       br_covered (Parts.part p j).1 (Parts.part p j).2 (Parts.received p) = 0 /\
       local !! Z.to_nat j = pieces !! Z.to_nat j).
Proof.
  induction l as [|i l IH]; intros p Hp Hl Hn Hlen1 Hlen2; cbn [acceptLocal].
  { exists p. split_and!; try done. intros j _. by left. }
  apply Forall_cons in Hl as [Hi Hl]. apply NoDup_cons in Hn as [Hnot Hn].
  destruct (Parts.isVerified_in p i Hi) as [v Hv]. rewrite Hv. cbn [mbind option_bind].
  assert (Hskip : exists q, acceptLocal local pieces l p = Some q /\ Parts.parts_ok q /\ Parts.size q = Parts.size p /\
    Parts.count q = Parts.count p /\ Parts.claims q = Parts.claims p /\
    forall j, 0 <= j < Parts.count p ->
      (Parts.isVerified q j = Parts.isVerified p j /\ (Parts.filled p j = true -> Parts.filled q j = true)) \/
      (j ∈ i :: l /\ Parts.isVerified p j = Some false /\ Parts.isVerified q j = Some true /\
       br_covered (Parts.part p j).1 (Parts.part p j).2 (Parts.received p) = 0 /\
       local !! Z.to_nat j = pieces !! Z.to_nat j)).
  { destruct (IH p Hp Hl Hn Hlen1 Hlen2) as (q & E & ? & ? & ? & ? & Hq). exists q. split_and!; try done.
    intros j Hj. destruct (Hq j Hj) as [?|(? & ?)]; [by left|right]. split; [by right|done]. }
  destruct (negb v && _) eqn:Ec; [|done]. apply andb_prop in Ec as [Ev Ecov]. apply Z.eqb_eq in Ecov. destruct v; [done|].
  destruct (lookup_lt_is_Some_2 local (Z.to_nat i)) as [a Ea]; [unfold len in *; lia|].
  destruct (lookup_lt_is_Some_2 pieces (Z.to_nat i)) as [b Eb]; [unfold len in *; lia|].
  rewrite Ea, Eb. cbn [mbind option_bind]. case_bool_decide as Eab; [|done]. subst b.
  destruct (verify_elsewhere i p Hp Hi) as (p1 & E1 & Hp1 & He & Ecl & Ev1 & Ef1). rewrite E1. cbn [mbind option_bind].
  pose proof (e_count _ _ _ He) as Ecount.
  destruct (IH p1 Hp1) as (q & E & Hq & Esz & Eq & Eclq & Hrel); [by rewrite Ecount|done|by rewrite Ecount|by rewrite Ecount|].
  exists q. rewrite Ecount in *. split_and!; [done|done|by rewrite Esz, (e_size _ _ _ He)|done|congruence|].
  intros j Hj. destruct (decide (j = i)) as [->|Hne].
  - right. split_and!; [by left|done| |done|congruence]. destruct (Hrel i Hj) as [[-> _]|(? & _)]; done.
  - destruct (Hrel j Hj) as [[Hv1 Hf1]|(Hin & Hv1 & Hv2 & Hc1 & Hlp)].
    + left. rewrite Hv1, (e_verified _ _ _ He) by (done || lia). split; [done|].
      rewrite (elsewhere_filled i p p1) in Hf1 by (done || lia). done.
    + right. rewrite (e_verified _ _ _ He) in Hv1 by (done || lia). rewrite (elsewhere_covered i p p1) in Hc1 by (done || lia).
      split_and!; try done. by right.
Qed.

Definition allUnverified t : Prop := forall i, isPart t i -> Parts.isVerified (parts t) i = Some false.

(** Parts of a file that was there are verified if they match the hash set. *)
Lemma data_accepted f t q :
  data_ok true f t -> phase t = PDownloading -> needsHashSet t = false -> pieceHashes t <> [] -> unchecked t = true ->
  (strict = true -> allUnverified t) -> Parts.parts_ok (parts t) -> Parts.parts_ok q -> Parts.size q = Parts.size (parts t) ->
  Parts.count q = Parts.count (parts t) ->
  (forall j, isPart t j ->
     (Parts.isVerified q j = Parts.isVerified (parts t) j /\ (Parts.filled (parts t) j = true -> Parts.filled q j = true)) \/
     (Parts.isVerified q j = Some true /\
      br_covered (Parts.part (parts t) j).1 (Parts.part (parts t) j).2 (Parts.received (parts t)) = 0 /\
      localHashes t !! Z.to_nat j = pieceHashes t !! Z.to_nat j)) ->
  data_ok false f (set_localHashes [] (set_parts q (set_unchecked false t))).
Proof.
  intros Hd Hph Hn Hne Hu Hall Hp Hq Es Eq Hrel.
  assert (Hd1 : data_ok false f (set_localHashes [] (set_unchecked false t))).
  { destruct Hd as [Hhash Hpieces Hlife Hstuck Hwaiting Hwaits Hjobs Hhandlers Hlocal Hlength Hcomplete Hchecking Hsound].
    constructor; try done.
    - destruct Hlife as [?|(_ & ? & _)]; [by left|congruence].
    - eapply Forall_impl; [exact Hjobs|]. intros []; unfold job_ok; try done. by intros [_ ?].
    - eapply Forall_impl; [exact Hhandlers|]. intros []; unfold handler_ok; try done. by intros (_ & ? & ?).
    - cbn. congruence.
    - intros E. destruct (Hsound E) as [[]]. constructor; [constructor|..]; done. }
  apply (data_table false f (set_localHashes [] (set_unchecked false t)) q); try done.
  - by left.
  - cbn [waitingForHashSet set_localHashes set_unchecked]. rewrite (d_waits _ _ _ _ _ Hd Hph Hn). by intros j ?%elem_of_nil.
  - intros E. pose proof (d_sound _ _ _ _ _ Hd E) as Hs. pose proof (d_sound _ _ _ _ _ Hd1 E) as [[Hv _ Hw] Ho Hj Hh Huq Hc _].
    set (t' := set_parts q (set_localHashes [] (set_unchecked false t))).
    assert (Ec : forall j, isPart t' j <-> isPart t j) by (intros j; unfold isPart, t'; cbn; by rewrite Eq).
    assert (Ed : forall j, digest t' j = digest t j) by (intros j; exact (digest_same t q j Es)).
    assert (Hset : forall j e, settled t j e -> settled t' j e).
    { intros j e (Hj' & Hf & Hv' & He). split; [by apply Ec|]. destruct (Hrel j Hj') as [[E1 E2]|(_ & E0 & _)].
      - change (parts t') with q. rewrite E1. split_and!; auto.
      - by destruct (filled_pos _ _ Hp Hj' Hf). }
    constructor; [constructor| | | | | |]; try done.
    + intros j Hj'%Ec Ev. rewrite Ed. change (Parts.isVerified q j = Some true) in Ev.
      destruct (Hrel j Hj') as [[E1 _]|(_ & E0 & El)]; [rewrite E1, (Hall E j Hj') in Ev; done|].
      destruct (s_local _ Hs j Hu Hj' E0) as [Hun El']. split; [|done].
      unfold expectedHash. cbn [pieceHashes t' set_parts set_localHashes set_unchecked].
      destruct (pieceHashes t) eqn:Ep; [done|]. rewrite <- Ep in *. change (pieceHashes t') with (pieceHashes t).
      rewrite <- El, El'. done.
    + intros j E'. unfold t' in E'. rewrite needsHashSet_same in E' by done. change (needsHashSet t = true) in E'. congruence.
    + intros x y Hin. destruct (downloading_jobs _ _ _ Hd Hph) as [Hl _]. rewrite Forall_forall in Hl. exfalso. exact (Hl _ Hin).
    + intros k j e Hk. destruct (Hj k j e Hk) as [Hset' Hun]. split; [|done]. apply Hset. done.
    + intros j er d e Hin. destruct (Hh j er d e Hin) as (Hset' & Hun & Hd'). rewrite Ed. split_and!; [|done|done]. by apply Hset.
Qed.

(** *** Checking a file that was there *)

Lemma opening_popped b f t er c rest :
  data_ok b f t -> phase t = POpening -> handlers t = Opened er c :: rest -> jobs t = [] /\ rest = [].
Proof.
  intros Hd Hp E. destruct (d_life _ _ _ _ _ Hd) as [Hl|(_ & _ & _ & E')]; [|congruence].
  rewrite Hp, E in Hl. destruct Hl as [(? & ? & _ & ?)|(? & ? & ? & [= _ _ ->])]; done.
Qed.
Lemma data_opened f t er c rest :
  data_ok false f t -> phase t = POpening -> handlers t = Opened er c :: rest -> data_ok true f (set_handlers rest t).
Proof.
  intros Hd Hp E. destruct (opening_popped _ _ _ _ _ _ Hd Hp E) as [Ej ->].
  assert (stuck f = None) by (apply (not_stuck false f t Hd); left; congruence).
  destruct Hd as [Hhash Hpieces Hlife Hstuck Hwaiting Hwaits Hjobs Hhandlers Hlocal Hlength Hcomplete Hchecking Hsound].
  constructor; try done; try (intros told Hs; congruence).
  - right. done.
  - intros Hu. destruct (Hlocal Hu). split; [done|by left].
  - cbn. congruence.
  - intros Es. eapply sound_pop; [exact E|auto].
Qed.

Lemma data_tell b f t r : data_ok b f t -> stuck f = None -> data_ok b f (tell r t).
Proof.
  intros [Hhash Hpieces Hlife Hstuck Hwaiting Hwaits Hjobs Hhandlers Hlocal Hlength Hcomplete Hchecking Hsound] Hst.
  constructor; try done; [intros told Hs; congruence|]. intros Es. destruct (Hsound Es) as [[]]. by constructor; [constructor|..].
Qed.
Lemma data_check f t (js : list job) local :
  data_ok true f t -> phase t = POpening -> jobs t = [] -> handlers t = [] -> waitingForHashSet t = [] -> unchecked t = false ->
  size t <= len (content t) -> Forall checkJob js -> Forall (job_ok t) js ->
  (forall i e, Digest i (Check e) ∈ js -> expectedHash t i = Some e) ->
  (needsHashSet t = true -> len local = Parts.count (parts t) /\ forall i, isPart t i -> Digest i CheckLocal ∈ js) ->
  data_ok false f (set_jobs js (set_localHashes local (set_phase PChecking t))).
Proof.
  intros Hd Hp Ej Eh Ew Eu Hlen Hjs Hok Hexp Hall.
  assert (stuck f = None) by (apply (not_stuck true f t Hd); left; congruence).
  destruct Hd as [Hhash Hpieces Hlife Hstuck Hwaiting Hwaits Hjobs Hhandlers Hlocal Hlength Hcomplete Hchecking Hsound].
  constructor; try done; try (intros told Hs; congruence).
  - left. cbn. by rewrite Eh.
  - cbn. congruence.
  - cbn. intros [?|[? _]]; done.
  - intros _. right. split_and!; [done|done|cbn; rewrite Eh; by intros ? ? ? ? ?%elem_of_nil|]. intros Hn.
    destruct (Hall Hn) as [? Hin]. split; [done|]. intros i Hi. left. by apply Hin.
  - intros Es. destruct (Hsound Es) as [[Hv Hn Hw] Ho _ _ Hu _ Hl]. constructor; [constructor| | | | | |]; try done.
    + intros i Hi Ev. destruct (Hv i Hi Ev). split; [done|]. intros b d Hin. rewrite Forall_forall in Hjs. exfalso. exact (Hjs _ Hin).
    + intros x y Hin. rewrite Forall_forall in Hjs. exfalso. exact (Hjs _ Hin).
    + intros k i e Hk%list_elem_of_lookup_2. rewrite Forall_forall in Hjs. exfalso. exact (Hjs _ Hk).
    + cbn. rewrite Eh. by intros ? ? ? ? ?%elem_of_nil.
    + unfold verifying. cbn [handlers jobs set_jobs set_localHashes set_phase]. rewrite Eh. cbn.
      assert (E : js ≫= jobVerifies = []); [|rewrite E; constructor]. clear -Hjs.
      induction Hjs as [|j js Hj _ IH]; [done|]. cbn. rewrite IH. by destruct j as [| |? []| |].
    + intros i e [Hin|(er & d & Hin)]; [by apply Hexp|]. cbn in Hin. rewrite Eh in Hin. by apply elem_of_nil in Hin.
    + cbn. congruence.
Qed.

(** A part hash that [checkAll] waited for. *)
Lemma data_localHash f t i er d rest :
  data_ok false f t -> phase t = PChecking -> handlers t = Digested i er d CheckLocal :: rest ->
  data_ok false f (set_localHashes (<[Z.to_nat i := d]> (localHashes t)) (set_handlers rest t)).
Proof.
  intros Hd Hp E. assert (stuck f = None) by (apply (not_stuck false f t Hd); left; congruence).
  destruct Hd as [Hhash Hpieces Hlife Hstuck Hwaiting Hwaits Hjobs Hhandlers Hlocal Hlength Hcomplete Hchecking Hsound].
  rewrite E in Hhandlers. apply Forall_cons in Hhandlers as [[Hi _] Hhandlers]. destruct (Hchecking Hp) as [?|(H1 & H2 & H3 & H4)]; [done|].
  constructor; try done; try (intros told Hs; congruence).
  - left. destruct Hlife as [Hl|[]]; [|done]. exact (life_pop t _ rest Hl E ltac:(congruence)).
  - intros Hu. cbn in Hu. congruence.
  - intros _. right. split_and!; [done|done| |].
    + intros j er' d' u Hin. apply (H3 j er' d' u). rewrite E. by right.
    + intros Hn. destruct (H4 Hn) as [Hlen H5]. cbn [localHashes set_localHashes set_handlers parts jobs handlers].
      split; [unfold len in *; by rewrite length_insert|]. intros j Hj. unfold isPart in *. change (digest _ j) with (digest t j).
      destruct (decide (j = i)) as [->|Hne].
      { right. right. rewrite list_lookup_insert_eq by (unfold len in *; lia). f_equal. apply (H3 i er d CheckLocal).
        rewrite E. by left. }
      rewrite list_lookup_insert_ne by (cbn in Hj; lia).
      destruct (H5 j Hj) as [?|[(er' & d' & Hin)|?]]; [by left| |auto]. right. left. rewrite E in Hin.
      apply elem_of_cons in Hin as [[= <-]|Hin]; [done|]. by exists er', d'.
  - intros Es. destruct (sound_pop _ _ _ E (Hsound Es)) as [[]]. constructor; [constructor|..]; try done.
    cbn in *. congruence.
Qed.

End data.
End DownloadData.
