(* ===== verification/DownloadSteps.v ===== *)
(** * Handlers of downloads that move data

    Every event keeps the invariant of [DownloadInvariant] and uses neither a
    null pointer nor an index outside a vector. If [strict], this needs that
    no source still has a claim on a part that is already full. *)

From stdpp Require Import gmap functions.
From S2P Require Import Prelude Bytes Wire Packet Hash Ranges Parts PeerProtocol Download DownloadInvariant DownloadData.

Module DownloadSteps.
Import Bytes Wire Packet Hash Download DownloadInvariant DownloadData.

Section steps.
Context `{Zlib}.
Context (strict : bool) (stuck : Z -> option (list report)).
Abbreviation data_ok := (data_ok strict stuck).
Abbreviation inv := (inv strict stuck).
Abbreviation fine := (fine strict stuck).
Implicit Types (o : option Z) (st : state) (t : Task) (p q : Parts.parts RangeSet.t).

(** ** Steps of one task *)

Lemma onTask_twice f g h st : quiet (onTask f (fun t => h (g t)) st) (onTask f h (onTask f g st)).
Proof.
  split; [done|]. intros k. destruct (decide (f = k)) as [<-|Hne]; [by rewrite !tasks_onTask|]. by rewrite !tasks_onTask_ne.
Qed.
Lemma inv_data o f st : inv o st -> data_ok (bool_decide (o = Some f)) f (tasks st f).
Proof. intros Hi. by destruct (inv_task _ _ _ _ Hi f). Qed.
Lemma inv_parts o f st : inv o st -> Parts.parts_ok (parts (tasks st f)).
Proof. intros Hi. by destruct (inv_task _ _ _ _ Hi f) as [[? _] _]. Qed.
Lemma inv_data_strict f st : inv None st -> data_ok false f (tasks st f).
Proof. intros Hi. by apply (inv_data None). Qed.
Lemma inv_nobody f c st : inv None st -> phase (tasks st f) <> PDownloading -> downloadFile (peers st c) <> Some f.
Proof. intros Hi Hp E. by destruct (inv_listed _ _ _ _ Hi c f) as [_ ?]. Qed.

Lemma claims_ok_same p q :
  claims_ok p -> Parts.parts_ok q -> Parts.claims q = Parts.claims p -> Parts.size q = Parts.size p ->
  Parts.count q = Parts.count p -> claims_ok q.
Proof.
  intros [_ Hc] Hq E Es Eq. split; [done|]. rewrite E. eapply Forall_impl; [exact Hc|].
  intros e (i & Hi & Hr). exists i. rewrite Eq, (Parts.part_same p q) by done. done.
Qed.
(** A task changes; its claims, its sources and whether it downloads do not. *)
Lemma inv_step o f g st :
  inv o st -> (data_ok (bool_decide (o = Some f)) f (g (tasks st f))) -> claims_ok (parts (g (tasks st f))) ->
  Parts.claims (parts (g (tasks st f))) = Parts.claims (parts (tasks st f)) ->
  sources (g (tasks st f)) = sources (tasks st f) ->
  (phase (tasks st f) = PDownloading -> phase (g (tasks st f)) = PDownloading) -> inv o (onTask f g st).
Proof.
  intros Hi Hd Hc E Es Hp. apply inv_onTask; [done|by split|done|]. intros Ho c Hfile.
  destruct (inv_listed _ _ _ _ Hi c f Ho Hfile). rewrite Es. auto.
Qed.
(** So if its table of parts does not change. *)
Lemma inv_step_parts o f g st :
  inv o st -> data_ok (bool_decide (o = Some f)) f (g (tasks st f)) -> parts (g (tasks st f)) = parts (tasks st f) ->
  sources (g (tasks st f)) = sources (tasks st f) ->
  (phase (tasks st f) = PDownloading -> phase (g (tasks st f)) = PDownloading) -> inv o (onTask f g st).
Proof.
  intros Hi Hd E Es Hp. apply inv_step; try done; rewrite E; [|done]. by destruct (inv_task _ _ _ _ Hi f).
Qed.

Lemma inv_post o f j st :
  inv o st -> job_ok (tasks st f) j -> life (phase (tasks st f)) (jobs (tasks st f) ++ [j]) (handlers (tasks st f)) ->
  stuck f = None -> (forall x d, j = Write x d -> size (tasks st f) <= len (content (tasks st f))) ->
  (strict = true -> postable (tasks st f) j) -> inv o (post f j st).
Proof. intros Hi Hj Hl Hst Hlen Hp. apply inv_step_parts; try done. apply data_post; try done. by apply inv_data. Qed.

(** ** The end of a run *)

Lemma life_quiet js hs :
  life PClosing js hs -> ~ openingFile js hs -> existsb pendingJob js || existsb pendingHandler hs = false ->
  js = [] /\ hs = [].
Proof.
  intros Hl Ho E. apply orb_false_iff in E as [Ej Eh].
  destruct Hl as [Hl|[[[-> _]|[_ ->]]|[[Hj Hh]|[Hj Hh]]]]; [done|done|done|..].
  - destruct js as [|j js], hs as [|h hs]; try done; exfalso;
      [apply Forall_cons in Hh as [Hh _]|apply Forall_cons in Hj as [Hj _]..]; [destruct h|destruct j|destruct j]; done.
  - destruct js as [|j js], hs as [|h hs]; try done; exfalso;
      [apply Forall_cons in Hh as [Hh _]|apply Forall_cons in Hj as [Hj _]..]; [destruct h|destruct j|destruct j]; done.
Qed.
Lemma inv_quiesce o f st :
  inv o st -> stuck f = None -> ~ openingFile (jobs (tasks st f)) (handlers (tasks st f)) -> inv o (quiesce f st).
Proof.
  intros Hi Hst Ho. unfold quiesce. branch; [|done]. bprop.
  assert (Hl : life PClosing (jobs (tasks st f)) (handlers (tasks st f))).
  { destruct (d_life _ _ _ _ _ (inv_data o f st Hi)) as [Hl|(_ & ? & _)]; congruence. }
  rename select (phase _ = _) into Ep.
  destruct (life_quiet _ _ Hl Ho) as [Ej Eh]; [done|].
  apply inv_post; try done. rewrite Ep, Ej, Eh. right. left. by left.
Qed.

(** What remains of a task whose sources are dropped. *)
Lemma dropSources_ok f st :
  inv (Some f) st -> (forall c, downloadFile (peers st c) = Some f -> c ∈ sources (tasks st f)) ->
  inv (Some f) (dropSources f st) /\ (forall h, plain (tasks (dropSources f st) h) = plain (tasks st h)) /\
  forall c, downloadFile (peers (dropSources f st) c) <> Some f.
Proof.
  intros Hi Hl. unfold dropSources. set (st1 := onTask f (set_sources []) st).
  assert (Hi1 : inv (Some f) st1) by (apply inv_sources; [done|congruence]).
  destruct (drop_all strict stuck f (sources (tasks st f)) st1 Hi1) as (H1 & H2 & H3). split_and!; [done| |].
  - intros h. destruct (H2 h) as [-> _]. unfold st1.
    destruct (decide (f = h)) as [<-|]; [by rewrite tasks_onTask|by rewrite tasks_onTask_ne].
  - intros c Hc. apply H3 in Hc as [Hc Hnot]. apply Hnot, Hl, Hc.
Qed.
Lemma detach_ok f l st :
  inv (Some f) st -> (forall c, downloadFile (peers st c) <> Some f) ->
  inv (Some f) (detach f l st) /\ (forall h, plain (tasks (detach f l st) h) = plain (tasks st h)) /\
  forall c, downloadFile (peers (detach f l st) c) <> Some f.
Proof.
  intros Hi Hno. destruct (drop_all strict stuck f l st Hi) as (H1 & H2 & H3). split_and!; [done| |].
  - intros h. by destruct (H2 h).
  - intros c Hc. apply H3 in Hc as [Hc _]. by destruct (Hno c).
Qed.

Lemma inv_tell o f r st : inv o st -> phase (tasks st f) <> PClosing -> inv o (onTask f (tell r) st).
Proof.
  intros Hi Hp. pose proof (inv_data o f st Hi) as Hd. apply inv_step_parts; try done. apply data_tell; [done|].
  apply (not_stuck strict stuck _ _ _ Hd). by left.
Qed.
Lemma depart_ok f outcome l st :
  inv (Some f) st -> (forall c, downloadFile (peers st c) = Some f -> c ∈ sources (tasks st f)) ->
  phase (tasks st f) <> PIdle -> phase (tasks st f) <> PClosing ->
  (outcome = OComplete -> Parts.complete (parts (tasks st f)) = true) ->
  (unchecked (tasks st f) = true -> needsHashSet (tasks st f) = true) ->
  let st' := detach f l (dropSources f (onTask f (fun t => set_phase PClosing (set_ending outcome t)) st)) in
  inv None st' /\ plain (tasks st' f) = plain (set_phase PClosing (set_ending outcome (tasks st f))).
Proof.
  intros Hi Hl H1 H2 Ho Hu. pose proof (inv_data _ f st Hi) as Hd. rewrite bool_decide_eq_true_2 in Hd by done.
  set (st1 := onTask f (fun t => set_phase PClosing (set_ending outcome t)) st).
  assert (Hd1 : data_ok false f (set_phase PClosing (set_ending outcome (tasks st f)))).
  { eapply data_tighten; [by apply data_close|done..]. }
  assert (Hi1 : inv (Some f) st1).
  { apply inv_onTask; [done| |done|congruence]. split; [exact (proj1 (inv_task _ _ _ _ Hi f))|]. exact (data_ok_loosen _ _ _ _ _ Hd1). }
  destruct (dropSources_ok f st1 Hi1) as (Hi2 & E2 & H2'); [unfold st1; rewrite tasks_onTask; exact Hl|].
  destruct (detach_ok f l _ Hi2 H2') as (Hi3 & E3 & H3'). set (st3 := detach f l (dropSources f st1)) in *.
  assert (E : plain (tasks st3 f) = plain (set_phase PClosing (set_ending outcome (tasks st f)))).
  { rewrite E3, E2. unfold st1. by rewrite tasks_onTask. }
  intros st'. split; [|exact E]. apply (inv_tighten _ _ f); [by intros c ?%H3'|by eapply data_ok_same|done].
Qed.
Lemma inv_finish f outcome l st :
  inv (Some f) st -> (forall c, downloadFile (peers st c) = Some f -> c ∈ sources (tasks st f)) ->
  phase (tasks st f) <> PIdle -> phase (tasks st f) <> PClosing ->
  (outcome = OComplete -> Parts.complete (parts (tasks st f)) = true) ->
  (unchecked (tasks st f) = true -> needsHashSet (tasks st f) = true) -> inv None (finish f outcome l st).
Proof.
  intros Hi Hl H1 H2 Ho Hu. pose proof (inv_data _ f st Hi) as Hd. rewrite bool_decide_eq_true_2 in Hd by done.
  destruct (depart_ok f outcome l st Hi Hl H1 H2 Ho Hu) as [Hi3 E]. unfold finish. set (st3 := detach f l _) in *.
  assert (Hq : phase (tasks st f) <> POpening -> inv None (quiesce f st3)).
  { intros Hop. apply inv_quiesce; [done|apply (not_stuck strict stuck _ _ _ Hd); auto|].
    assert (Ej : jobs (tasks st3 f) = jobs (tasks st f)) by exact (f_equal jobs E).
    assert (Eh : handlers (tasks st3 f) = handlers (tasks st f)) by exact (f_equal handlers E). rewrite Ej, Eh.
    destruct (d_life _ _ _ _ _ Hd) as [Hlife|(_ & ? & _)]; [|done]. clear -Hlife H1 H2 Hop.
    intros [(a & b & E1 & E2)|(a & b & E1 & E2)]; rewrite E1, E2 in Hlife; destruct (phase (tasks st f)); try done;
      destruct Hlife as [Hx Hy]; first [exact (proj1 (Forall_singleton _ _) Hx)|exact (proj1 (Forall_singleton _ _) Hy)]. }
  destruct (phase (tasks st f)); try done; by apply Hq.
Qed.
(** From a state between the handlers. *)
Lemma inv_ending f outcome l st :
  inv None st -> (outcome = OComplete -> phase (tasks st f) = PSharing) -> inv None (finish f outcome l st).
Proof.
  intros Hi Ho. pose proof (inv_data_strict f st Hi) as Hd.
  destruct (decide (phase (tasks st f) = PIdle)) as [E1|E1].
  { unfold finish. rewrite E1. destruct outcome; [done|done|]. apply inv_tell; [done|congruence]. }
  destruct (decide (phase (tasks st f) = PClosing)) as [E2|E2]; [by unfold finish; rewrite E2|].
  apply inv_finish; try done; [by apply inv_loosen| | |].
  - intros c Hc. by apply (inv_listed _ _ _ _ Hi c f).
  - intros E. apply (d_complete _ _ _ _ _ Hd). left. by apply Ho.
  - intros E. by destruct (d_local _ _ _ _ _ Hd E) as [_ [?|?]].
Qed.
Lemma inv_stop f l st : inv None st -> inv None (stop f l st).
Proof.
  intros Hi. unfold stop. branch; [bprop; apply inv_tell; [done|congruence]|]. apply inv_ending; [|done].
  eapply inv_quiet, Hi. by apply quiet_task.
Qed.
Lemma inv_evaluateSharing f l st : inv None st -> inv None (evaluateSharing f l st).
Proof. intros Hi. unfold evaluateSharing. branch; [|done]. bprop. by apply inv_ending. Qed.

(** A complete file is shared. *)
Lemma inv_downloaded f l st :
  inv (Some f) st -> (forall c, downloadFile (peers st c) = Some f -> c ∈ sources (tasks st f)) ->
  phase (tasks st f) <> PClosing -> Parts.complete (parts (tasks st f)) = true ->
  (unchecked (tasks st f) = true -> needsHashSet (tasks st f) = true) -> size (tasks st f) <= len (content (tasks st f)) ->
  Forall downloadJob (jobs (tasks st f)) -> Forall downloadHandler (handlers (tasks st f)) -> inv None (downloaded f l st).
Proof.
  intros Hi Hl Hp Hc Hu Hlen Hj Hh. unfold downloaded. apply inv_evaluateSharing.
  destruct (dropSources_ok f st Hi Hl) as (Hi1 & E1 & H1). set (st1 := dropSources f st) in *.
  assert (Ht : plain (tasks st1 f) = plain (tasks st f)) by apply E1.
  assert (Hd : data_ok false f (set_phase PSharing (tasks st1 f))).
  { pose proof (inv_data _ f st Hi) as Hd. rewrite bool_decide_eq_true_2 in Hd by done.
    apply (data_ok_same strict stuck false f (set_phase PSharing (set_ending (ending (tasks st f)) (tasks st f)))).
    { change (set_phase PSharing (plain (tasks st1 f)) = set_phase PSharing (plain (tasks st f))). by rewrite Ht. }
    eapply data_tighten; [apply data_phase; try done; by apply (not_stuck strict stuck _ _ _ Hd); left|done|done|exact Hu]. }
  assert (Hi2 : inv None (onTask f (set_phase PSharing) st1)).
  { apply (inv_tighten _ _ f); [by intros c ?%H1|by rewrite tasks_onTask|]. apply inv_onTask; [done| |done|congruence].
    split; [exact (proj1 (inv_task _ _ _ _ Hi1 f))|exact (data_ok_loosen _ _ _ _ _ Hd)]. }
  pose proof (f_equal jobs Ht : jobs (tasks st1 f) = jobs (tasks st f)) as Ej.
  pose proof (f_equal handlers Ht : handlers (tasks st1 f) = handlers (tasks st f)) as Eh.
  apply inv_post; try done; rewrite ?tasks_onTask.
  - cbn. rewrite Ej, Eh. split; [|done]. apply Forall_app. split; [done|]. by apply Forall_singleton.
  - apply (not_stuck strict stuck _ _ _ Hd). by left.
Qed.

(** ** Verification *)

(** An operation on the queues of a task leaves these alone. *)
Record keeps (f : Z) st st' : Prop := {
  k_peers : peers st' = peers st;
  k_parts : parts (tasks st' f) = parts (tasks st f);
  k_sources : sources (tasks st' f) = sources (tasks st f);
  k_phase : phase (tasks st' f) = phase (tasks st f);
  k_hash : hash (tasks st' f) = hash (tasks st f);
  k_pieces : pieceHashes (tasks st' f) = pieceHashes (tasks st f);
  k_unchecked : unchecked (tasks st' f) = unchecked (tasks st f);
  k_local : localHashes (tasks st' f) = localHashes (tasks st f);
  k_content : content (tasks st' f) = content (tasks st f);
}.
Lemma keeps_refl f st : keeps f st st.
Proof. done. Qed.
Lemma keeps_trans f st1 st2 st3 : keeps f st1 st2 -> keeps f st2 st3 -> keeps f st1 st3.
Proof. intros [] []. constructor; etransitivity; eassumption. Qed.
Lemma keeps_needs f st st' : keeps f st st' -> needsHashSet (tasks st' f) = needsHashSet (tasks st f).
Proof. intros Hk. unfold needsHashSet, size. by rewrite (k_parts _ _ _ Hk), (k_pieces _ _ _ Hk). Qed.

Lemma hashSet_covers size_ : 0 < size_ -> 0 < hashSetPartCount size_ ->
  (size_ + PIECE_LENGTH - 1) / PIECE_LENGTH <= hashSetPartCount size_.
Proof.
  intros Hs Hh. unfold hashSetPartCount in *. destruct (Z.leb_spec size_ 0); [lia|]. destruct (Z.eqb_spec (size_ / PIECE_LENGTH) 0); [lia|].
  replace (size_ + PIECE_LENGTH - 1) with (size_ - 1 + 1 * PIECE_LENGTH) by lia. rewrite Z.div_add by done.
  pose proof (Z.div_le_mono (size_ - 1) size_ PIECE_LENGTH ltac:(done) ltac:(lia)). lia.
Qed.
Lemma pieces_cover b f t : data_ok b f t -> Parts.parts_ok (parts t) -> pieceHashes t <> [] -> Parts.count (parts t) <= len (pieceHashes t).
Proof.
  intros Hd (_ & Hs & -> & _) Hne. destruct (d_pieces _ _ _ _ _ Hd) as [?|[E _]]; [done|]. rewrite E. unfold size in *.
  apply hashSet_covers; [done|]. rewrite <- E. destruct (pieceHashes t); [done|]. unfold len. simpl. lia.
Qed.
Lemma expected_some b f t i : data_ok b f t -> Parts.parts_ok (parts t) -> isPart t i -> exists e, expectedHash t i = Some e.
Proof.
  intros Hd Hp Hi. unfold expectedHash. destruct (pieceHashes t) eqn:E; [by eexists|]. rewrite <- E.
  apply lookup_lt_is_Some_2. pose proof (pieces_cover b f t Hd Hp ltac:(by rewrite E)). unfold len, isPart in *. lia.
Qed.

Lemma verifyFilled_ok o f i st :
  inv o st -> phase (tasks st f) = PDownloading -> isPart (tasks st f) i -> Parts.filled (parts (tasks st f)) i = true ->
  Parts.isVerified (parts (tasks st f)) i = Some false -> (strict = true -> i ∉ verifying (tasks st f)) ->
  exists st', verifyFilled f i st = (st', Done) /\ inv o st' /\ keeps f st st' /\
    forall j, j ∈ verifying (tasks st' f) -> j ∈ verifying (tasks st f) \/ j = i.
Proof.
  intros Hi Hph Hp Hf Hv Hnot. pose proof (inv_data o f st Hi) as Hd. unfold verifyFilled.
  destruct (needsHashSet (tasks st f)) eqn:En.
  - destruct (bool_decide (i ∈ _)) eqn:Ew; bprop; [exists st; split_and!; [done|done|apply keeps_refl|intros j; by left]|]. eexists. split; [done|].
    split_and!; [|split; cbn [peers onTask]; by rewrite ?tasks_onTask|intros j; rewrite tasks_onTask; by left].
    apply inv_step_parts; try done. by apply data_wait.
  - destruct (expected_some _ f (tasks st f) i Hd (inv_parts o f st Hi) Hp) as [e He]. unfold hashPart. rewrite He.
    eexists. split; [done|]. split_and!; [|split; cbn [peers onTask post]; unfold post; by rewrite ?tasks_onTask|].
    + apply inv_post; try done.
      * rewrite Hph. destruct (downloading_jobs _ _ _ _ _ Hd Hph) as [H1 H2]. split; [|done].
        apply Forall_app. split; [done|]. by apply Forall_singleton.
      * apply (not_stuck strict stuck _ _ _ Hd). left. congruence.
      * intros Es. split; [by split_and!|by apply Hnot].
    + intros j. unfold post. rewrite tasks_onTask. unfold verifying. cbn [handlers jobs set_jobs].
      rewrite bind_app. cbn. rewrite elem_of_app, elem_of_app, list_elem_of_singleton, elem_of_app. tauto.
Qed.
Lemma verifyAll_ok o f (l : list Z) : forall st,
  inv o st -> phase (tasks st f) = PDownloading ->
  Forall (fun i => isPart (tasks st f) i /\ Parts.filled (parts (tasks st f)) i = true /\
    Parts.isVerified (parts (tasks st f)) i = Some false) l ->
  (strict = true -> NoDup l /\ forall j, j ∈ l -> j ∉ verifying (tasks st f)) ->
  exists st', verifyAll f l st = (st', Done) /\ inv o st' /\ keeps f st st'.
Proof.
  induction l as [|i l IH]; intros st Hi Hph Hl Hs; [by exists st|]. cbn [verifyAll].
  apply Forall_cons in Hl as [(Hp & Hf & Hv) Hl].
  destruct (verifyFilled_ok o f i st Hi Hph Hp Hf Hv) as (st1 & E1 & Hi1 & Hk1 & Hv1).
  { intros Es. apply Hs; [done|by left]. }
  destruct (IH st1 Hi1) as (st2 & E2 & Hi2 & Hk2).
  - by rewrite (k_phase _ _ _ Hk1).
  - unfold isPart in *. rewrite (k_parts _ _ _ Hk1). done.
  - intros Es. destruct (Hs Es) as [[Hin Hn]%NoDup_cons Hj]. split; [done|]. intros j Hjl Hjv.
    apply Hv1 in Hjv as [Hjv| ->]; [|done]. apply (Hj j); [by right|done].
  - exists st2. unfold andThen. rewrite E1, E2. split_and!; [done..|by eapply keeps_trans].
Qed.

Lemma indices_ok p : Forall (fun i => 0 <= i < Parts.count p) (Parts.indices p) /\ NoDup (Parts.indices p).
Proof. split; [apply Forall_forall; intros i; apply Parts.elem_of_indices|]. unfold Parts.indices. apply NoDup_seqZ. Qed.
Lemma inv_unchecked f st : inv None st -> unchecked (tasks st f) = true -> needsHashSet (tasks st f) = true.
Proof. intros Hi E. by destruct (d_local _ _ _ _ _ (inv_data_strict f st Hi) E) as [_ [?|?]]. Qed.

(** Nothing is hashed for want of the hash set. *)
Lemma needs_verifying b f t j : data_ok b f t -> needsHashSet t = true -> j ∉ verifying t.
Proof.
  intros Hd Hn. unfold verifying. rewrite elem_of_app, !list_elem_of_bind.
  pose proof (d_handlers _ _ _ _ _ Hd) as H1. pose proof (d_jobs _ _ _ _ _ Hd) as H2. rewrite Forall_forall in H1. rewrite Forall_forall in H2.
  intros [([| |i ? ? []| |] & Hx & Hin)|([| |i []| |] & Hx & Hin)]; cbn in Hx; try (by apply elem_of_nil in Hx).
  - destruct (H1 _ Hin) as [_ [E _]]. rewrite Hn in E. by discriminate E.
  - destruct (H2 _ Hin) as [_ [E _]]. rewrite Hn in E. by discriminate E.
Qed.
Definition withPieces (f : Z) (hashes : list bytes) : state -> state :=
  onTask f (fun t => set_waitingForHashSet [] (set_pieceHashes hashes t)).
(** The first half of [acceptHashSet]. *)
Lemma takePieces_ok f hashes st :
  inv None st -> phase (tasks st f) = PDownloading -> needsHashSet (tasks st f) = true ->
  len hashes = hashSetPartCount (size (tasks st f)) -> rootHash hashes = Ok (hash (tasks st f)) ->
  exists st2, verifyAll f (waitingForHashSet (tasks st f)) (withPieces f hashes st) = (st2, Done) /\ inv (Some f) st2 /\
    keeps f (withPieces f hashes st) st2.
Proof.
  intros Hi Hph Hn Hlen Hroot. pose proof (inv_data_strict f st Hi) as Hd. set (st1 := withPieces f hashes st).
  assert (Ht1 : tasks st1 f = set_waitingForHashSet [] (set_pieceHashes hashes (tasks st f))).
  { unfold st1, withPieces. by rewrite tasks_onTask. }
  assert (Hi1 : inv (Some f) st1).
  { apply inv_onTask; [by apply inv_loosen| |done|congruence]. split; [exact (proj1 (inv_task _ _ _ _ Hi f))|].
    rewrite bool_decide_eq_true_2 by done. apply data_pieces; auto. }
  apply verifyAll_ok; [done|by rewrite Ht1| |]; rewrite Ht1; [apply (d_waiting _ _ _ _ _ Hd)|].
  intros Es. split; [apply (d_sound _ _ _ _ _ Hd Es)|]. intros j _. exact (needs_verifying false f (tasks st f) j Hd Hn).
Qed.
(** A hash set that a source sent. *)
Lemma fine_takeHashSet f hashes l st :
  inv None st -> phase (tasks st f) = PDownloading -> needsHashSet (tasks st f) = true ->
  len hashes = hashSetPartCount (size (tasks st f)) -> rootHash hashes = Ok (hash (tasks st f)) ->
  fine None (takeHashSet f hashes l st).
Proof.
  intros Hi Hph Hn Hlen Hroot. pose proof (inv_data_strict f st Hi) as Hd. unfold takeHashSet.
  destruct (pieces_needed (tasks st f) hashes Hn Hlen) as [Hne Hn1].
  destruct (takePieces_ok f hashes st Hi Hph Hn Hlen Hroot) as (st2 & E2 & Hi2 & Hk). unfold withPieces in *.
  assert (Ep : parts (tasks st2 f) = parts (tasks st f)) by (by rewrite (k_parts _ _ _ Hk), tasks_onTask).
  assert (Eph : phase (tasks st2 f) = PDownloading) by (by rewrite (k_phase _ _ _ Hk), tasks_onTask).
  assert (Hlist2 : forall c, downloadFile (peers st2 c) = Some f -> c ∈ sources (tasks st2 f)).
  { rewrite (k_peers _ _ _ Hk), (k_sources _ _ _ Hk), tasks_onTask. intros c Hc. by apply (inv_listed _ _ _ _ Hi c f). }
  assert (Hd2 : data_ok true f (tasks st2 f)).
  { pose proof (inv_data _ f _ Hi2) as Hd2. by rewrite bool_decide_eq_true_2 in Hd2. }
  assert (Hn2 : needsHashSet (tasks st2 f) = false) by (by rewrite (keeps_needs _ _ _ Hk), tasks_onTask).
  assert (Epc : pieceHashes (tasks st2 f) = hashes) by (by rewrite (k_pieces _ _ _ Hk), tasks_onTask).
  unfold andThen, pure. rewrite E2. cbn match. destruct (unchecked (tasks st2 f)) eqn:Eu.
  2: { apply fine_done. apply (inv_tighten _ _ f); [by auto| |done]. eapply data_tighten; [done|congruence..]. }
  pose proof (inv_parts _ f st2 Hi2) as Hp2.
  destruct (acceptLocal_spec (localHashes (tasks st2 f)) (pieceHashes (tasks st2 f)) (Parts.indices (parts (tasks st2 f))) (parts (tasks st2 f)) Hp2)
    as (q & Eq & Hq & Esz & Ecount & Ecl & Hrel); [apply indices_ok|apply indices_ok| | |].
  { destruct (d_local _ _ _ _ _ Hd2 Eu) as [-> _]. lia. }
  { by eapply pieces_cover; [exact Hd2|done|rewrite Epc]. }
  rewrite Eq. set (st3 := onTask f _ st2).
  assert (Hd3 : data_ok false f (set_localHashes [] (set_parts q (set_unchecked false (tasks st2 f))))).
  { apply data_accepted; try done; [by rewrite Epc| |naive_solver].
    intros Es i Hpi. unfold isPart in Hpi. rewrite Ep in *. eapply h_needs; [|exact Hn|exact Hpi]. by apply (d_sound _ _ _ _ _ Hd). }
  assert (Ht3 : tasks st3 f = set_localHashes [] (set_parts q (set_unchecked false (tasks st2 f)))) by (unfold st3; by rewrite tasks_onTask).
  assert (Hi3 : inv None st3).
  { apply (inv_tighten _ _ f); rewrite ?Ht3; [by auto|done|]. apply inv_onTask; [done| |done|congruence].
    split; [|by apply data_ok_loosen]. by apply (claims_ok_same (parts (tasks st2 f))); [destruct (inv_task _ _ _ _ Hi2 f)|..]. }
  apply fine_done. branch; [|done]. bprop. destruct (downloading_jobs strict stuck _ _ _ Hd2 Eph) as [Hjobs Hhandlers].
  apply inv_downloaded; rewrite ?Ht3; try done; [by apply inv_loosen|cbn; congruence|].
  apply (d_length _ _ _ _ _ Hd3). right. by left.
Qed.
(** A hash set that the file itself has shown to be right. *)
Lemma takeHashSet_checking f hashes l st :
  inv None st -> phase (tasks st f) = PChecking -> jobs (tasks st f) = [] -> handlers (tasks st f) = [] ->
  needsHashSet (tasks st f) = true -> len hashes = hashSetPartCount (size (tasks st f)) -> rootHash hashes = Ok (hash (tasks st f)) ->
  takeHashSet f hashes l st = (withPieces f hashes st, Done) /\ inv None (withPieces f hashes st).
Proof.
  intros Hi Hph Ej Eh Hn Hlen Hroot. pose proof (inv_data_strict f st Hi) as Hd.
  destruct (d_checking _ _ _ _ _ Hd Hph) as [?|(Ew & Eu & _)]; [done|]. split.
  - unfold takeHashSet, andThen, pure. rewrite Ew. cbn [verifyAll]. unfold pure. rewrite tasks_onTask.
    cbn [unchecked set_waitingForHashSet set_pieceHashes]. by rewrite Eu.
  - apply inv_step_parts; try done. cbn [bool_decide]. rewrite bool_decide_eq_false_2 by done.
    eapply data_tighten; [apply data_pieces; auto|cbn; congruence| |intros E; change (unchecked (tasks st f) = true) in E; congruence].
    intros _. split_and!; [done|done| |rewrite (proj2 (pieces_needed _ _ Hn Hlen)); done].
    cbn [handlers set_waitingForHashSet set_pieceHashes]. rewrite Eh. by intros ???? ?%elem_of_nil.
Qed.

(** A part whose hash is there. *)
Lemma fine_partVerified f i er d e rest l st :
  inv None st -> handlers (tasks st f) = Digested i er d (Verify e) :: rest -> phase (tasks st f) <> PClosing ->
  fine None (partVerified f i (bool_decide (d = e)) l (onTask f (set_handlers rest) st)).
Proof.
  intros Hi E Hcl. pose proof (inv_data_strict f st Hi) as Hd. pose proof (inv_parts None f st Hi) as Hp.
  set (st1 := onTask f (set_handlers rest) st).
  assert (Ht1 : tasks st1 f = set_handlers rest (tasks st f)) by (unfold st1; by rewrite tasks_onTask).
  pose proof (d_handlers _ _ _ _ _ Hd) as Hh. rewrite E in Hh. apply Forall_cons in Hh as [[Hpi _] _].
  assert (Hop : phase (tasks st f) <> POpening).
  { intros Ep. destruct (d_life _ _ _ _ _ Hd) as [Hl|[]]; [|done]. rewrite Ep, E in Hl.
    by destruct Hl as [(? & ? & _ & ?)|(? & ? & _ & ?)]. }
  assert (Hi1 : inv None st1).
  { apply inv_step_parts; try done. rewrite bool_decide_eq_false_2 by done. eapply data_pop; [done|done|done|done]. }
  unfold partVerified. rewrite Ht1. cbn [parts set_handlers]. branch; [done|]. unfold downloading in *. bprop.
  rename select (phase _ = _) into Eph.
  destruct (Parts.isVerified_in _ _ Hpi) as [[] Ev]; rewrite Ev; [done|].
  assert (Hstep : forall q ok (g : Task -> Task), Parts.parts_ok q -> elsewhere i (parts (tasks st f)) q ->
    Parts.claims q = Parts.claims (parts (tasks st f)) -> Parts.isVerified q i = Some ok -> (ok = true -> d = e) ->
    (forall t, plain (g t) = plain (set_parts q t) /\ parts (g t) = q /\ sources (g t) = sources t) -> inv None (onTask f g st1)).
  { intros q ok g Hq He Ec Eok Hde Hg. destruct (Hg (tasks st1 f)) as (G1 & G2 & G3). apply inv_step; rewrite ?G2, ?G3; try done.
    - rewrite bool_decide_eq_false_2 by done. eapply data_ok_same; [exact G1|]. rewrite Ht1. by eapply data_hashed.
    - apply (claims_ok_same (parts (tasks st f))); try done; [by destruct (inv_task _ _ _ _ Hi f)|apply He|apply He].
    - by rewrite Ec, Ht1.
    - intros _. rewrite (f_equal phase G1 : phase (g (tasks st1 f)) = phase (tasks st1 f)). by rewrite Ht1. }
  case_bool_decide as Ede.
  - destruct (verify_elsewhere i _ Hp Hpi) as (q & -> & Hq & He & Ec & Evq & _).
    assert (Hi2 : inv None (onTask f (set_parts q) st1)) by (eapply (Hstep q true); try done; by intros t).
    apply fine_done. branch; [|done].
    assert (Ht2 : tasks (onTask f (set_parts q) st1) f = set_parts q (set_handlers rest (tasks st f))) by (by rewrite tasks_onTask, Ht1).
    pose proof (inv_data_strict f _ Hi2) as Hd2. destruct (downloading_jobs strict stuck _ _ _ Hd2) as [Hjobs Hhandlers]; [by rewrite Ht2|].
    apply inv_downloaded; try done; rewrite ?Ht2; try done.
    + by apply inv_loosen.
    + intros c Hc. by apply (inv_listed _ _ _ _ Hi c f).
    + rewrite <- Ht2. by apply inv_unchecked.
    + rewrite <- Ht2. apply (d_length _ _ _ _ _ Hd2). right. left. by rewrite Ht2.
  - destruct (reject_elsewhere i _ Hp Hpi) as (q & -> & Hq & He & Ec & Evq).
    apply fine_done. eapply (Hstep q false); try done; by intros t.
Qed.

(** ** Blocks *)

(** A source that downloads changes its blocks, and its claims with them. *)
Lemma inv_transfer o c f g h st :
  inv o st -> downloadFile (peers st c) = Some f -> downloadFile (g (peers st c)) = Some f ->
  download (g (peers st c)) = Downloading -> len (blocks (g (peers st c))) <= blocksAhead ->
  StronglySorted Parts.disjoint (blocks (g (peers st c))) ->
  plain (h (tasks st f)) = plain (tasks st f) -> sources (h (tasks st f)) = sources (tasks st f) ->
  claims_ok (parts (h (tasks st f))) ->
  (forall d, own d (parts (h (tasks st f))) ≡ₚ if decide (d = c) then blocks (g (peers st c)) else own d (parts (tasks st f))) ->
  inv o (onPeer c g (onTask f h st)).
Proof.
  intros [Hf Hb Ha Hs Hl Hc Hk] Efile Eg Ed Hlen Happ Ep Esrc Hok Hown.
  set (st' := onPeer c g (onTask f h st)).
  assert (E : forall d, d = c \/ (d <> c /\ peers st' d = peers st d)).
  { intros d. destruct (decide (d = c)) as [->|]; [by left|right]. split; [done|]. unfold st'. by rewrite peers_onPeer_ne. }
  assert (Ec : peers st' c = g (peers st c)) by (unfold st'; by rewrite peers_onPeer).
  assert (Et : forall k, k = f \/ (k <> f /\ tasks st' k = tasks st k)).
  { intros k. destruct (decide (k = f)) as [->|]; [by left|right]. split; [done|].
    change (tasks st' k) with (tasks (onTask f h st) k). by rewrite tasks_onTask_ne. }
  assert (Etf : tasks st' f = h (tasks st f)) by (change (tasks st' f) with (tasks (onTask f h st) f); by rewrite tasks_onTask).
  assert (Eph : phase (h (tasks st f)) = phase (tasks st f)) by exact (f_equal phase Ep).
  constructor.
  - intros d. destruct (E d) as [->|[_ ->]]; [|apply Hf]. rewrite Ec, Eg, Ed. done.
  - intros d. destruct (E d) as [->|[_ ->]]; [|apply Hb]. by rewrite Ec, Ed.
  - intros d. destruct (E d) as [->|[_ ->]]; [|apply Ha]. by rewrite Ec.
  - intros d. destruct (E d) as [->|[_ ->]]; [|apply Hs]. by rewrite Ec.
  - intros d k Ho Hd. assert (downloadFile (peers st d) = Some k) as Hd0.
    { destruct (E d) as [->|[_ Ed']]; [rewrite Ec in Hd; congruence|by rewrite <- Ed']. }
    destruct (Hl d k Ho Hd0). destruct (Et k) as [->|[_ ->]]; [by rewrite Etf, Esrc, Eph|done].
  - intros k d. destruct (Et k) as [->|[Hk' ->]].
    + rewrite Etf, (Hown d). destruct (E d) as [->|[Hne ->]].
      * rewrite decide_True by done. rewrite Ec, Eg. by rewrite decide_True.
      * rewrite decide_False by done. apply Hc.
    + rewrite (Hc k d). destruct (E d) as [->|[Hne ->]]; [|done]. rewrite Ec, Eg, Efile.
      rewrite !decide_False by congruence. done.
  - intros k. destruct (Et k) as [->|[_ ->]]; [|apply Hk]. rewrite Etf. split; [done|].
    eapply data_ok_same; [exact Ep|]. apply Hk.
Qed.

Lemma plain_claims t q :
  Parts.size q = Parts.size (parts t) -> Parts.verified q = Parts.verified (parts t) ->
  Parts.received q = Parts.received (parts t) -> plain (set_parts q t) = plain t.
Proof. intros E1 E2 E3. unfold plain. cbn. unfold Parts.with_claims. by rewrite E1, E2, E3. Qed.
Lemma own_in c p r : r ∈ own c p <-> exists k, (r.1, k) ∈ Parts.claims p /\ Parts.owner k = c /\ Parts.cend k = r.2.
Proof.
  unfold own. rewrite list_elem_of_fmap. split.
  - intros ([b k] & -> & [Ho Hin]%list_elem_of_filter). by exists k.
  - intros (k & Hin & Ho & E). exists (r.1, k). cbn [fst snd]. rewrite E. split; [by destruct r|]. by apply list_elem_of_filter.
Qed.

Lemma claim_claims_ok random who available limit availability preview now p out q :
  claims_ok p -> Parts.claim random who available limit availability preview now p = (out, q) -> claims_ok q.
Proof.
  intros [Hp Hin] E. split; [by eapply Parts.claim_ok|].
  destruct (Parts.claim_spec _ _ _ _ _ _ _ _ _ _ Hp E) as ((Es & Ev & _ & _ & Hel) & _ & endgame & Hblk & _).
  rewrite Forall_forall in *. intros k [Hk|(r & Hr & ->)]%Hel.
  - destruct (Hin k Hk) as (i & Hi' & Hr). exists i. unfold Parts.count in *. rewrite Ev, (Parts.part_same _ q) by done. done.
  - destruct (Hblk r Hr) as (i & Hi' & _ & H1 & H2 & H3 & _). exists i. unfold Parts.count in *.
    rewrite Ev, (Parts.part_same p q) by done. done.
Qed.
(** A source does not get a block twice. *)
Lemma claim_apart random who available limit availability preview now p out q x y :
  claims_ok p -> Parts.claim random who available limit availability preview now p = (out, q) ->
  x ∈ own who p -> y ∈ out -> Parts.disjoint x y.
Proof.
  intros [Hp Hin] E (k & Hk & Hko & Hke)%own_in Hy.
  destruct (Parts.claim_spec _ _ _ _ _ _ _ _ _ _ Hp E) as (_ & _ & endgame & Hblk & _).
  destruct (Hblk y Hy) as (i & _ & _ & H1 & H2 & H3 & _ & Hfree).
  rewrite Forall_forall in Hin. destruct (Hin _ Hk) as (i' & _ & _ & Hlt & _). cbn in Hlt.
  unfold Parts.disjoint. destruct (decide (x.2 <= y.1)); [by left|]. destruct (decide (y.2 <= x.1)); [by right|]. exfalso.
  destruct (Hfree (Z.max x.1 y.1) ltac:(lia)) as [_ Ht]. apply Ht.
  eapply Parts.taken_intro; [exact Hk| |rewrite Hke; lia]. apply Parts.blocking_weaken, Parts.blocking_endgame. by left.
Qed.
(** The table of parts changes only in the order of its claims. *)
Lemma inv_reorder o f q st :
  inv o st -> Parts.size q = Parts.size (parts (tasks st f)) -> Parts.verified q = Parts.verified (parts (tasks st f)) ->
  Parts.received q = Parts.received (parts (tasks st f)) -> claims_ok q ->
  (forall d, own d q ≡ₚ own d (parts (tasks st f))) -> inv o (onTask f (set_parts q) st).
Proof.
  intros [? ? ? ? Hl Hc Hk] E1 E2 E3 Hq Hown. constructor; try done.
  - intros d k Ho Hd'. destruct (Hl d k Ho Hd').
    destruct (decide (f = k)) as [<-|]; [by rewrite tasks_onTask|by rewrite tasks_onTask_ne].
  - intros k d. change (peers (onTask f (set_parts q) st)) with (peers st). rewrite <- (Hc k d).
    destruct (decide (f = k)) as [<-|]; [rewrite tasks_onTask; apply Hown|by rewrite tasks_onTask_ne].
  - intros k. destruct (decide (f = k)) as [<-|]; [rewrite tasks_onTask|by rewrite tasks_onTask_ne].
    split; [done|]. eapply data_ok_same, Hk. by apply plain_claims.
Qed.

Lemma fine_requestBlocks o e c st : inv o st -> fine o (requestBlocks e c st).
Proof.
  intros Hi. unfold requestBlocks. destruct (downloadFile (peers st c)) as [f|] eqn:Ef; [|done].
  branch; [done|]. rename select (_ || _ = false) into E0. apply orb_false_iff in E0 as [Ed Hlen]. bprop. unfold taskClaim.
  assert (Hend : forall st' d, inv o st' -> d <> NotSource -> inv o (stopDownloading e c d (seconds 60) (send c CancelTransfer st'))).
  { intros st' d Hi' Hd. apply inv_stopDownloading; [done|]. eapply inv_quiet, Hi'. apply quiet_send. }
  destruct (downloading (tasks st f)) eqn:Edl.
  2: { destruct (blocks (peers st c)); [|done]. apply fine_done, Hend; [done|by case_match]. }
  destruct (Parts.claim _ _ _ _ _ _ _ _) as [out q] eqn:E.
  destruct (inv_task _ _ _ _ Hi f) as [Hok _]. pose proof Hok as [Hp _].
  pose proof (Parts.claim_spec _ _ _ _ _ _ _ _ _ _ Hp E) as ((Es & Ev & Er & _) & Hdis & _).
  pose proof (claim_claims_ok _ _ _ _ _ _ _ _ _ _ Hok E) as Hq.
  assert (Hown : forall d, own d q ≡ₚ (if decide (d = c) then out else []) ++ own d (parts (tasks st f))).
  { intros d. eapply own_claims. by eapply Parts.claim_perm. }
  destruct out as [|r out].
  - assert (Hi1 : inv o (onTask f (set_parts q) st)).
    { apply inv_reorder; try done. intros d. rewrite (Hown d). by destruct (decide (d = c)). }
    destruct (blocks (peers st c)); [|done]. apply fine_done, Hend; [done|by case_match].
  - set (new := r :: out) in *. cbn zeta. set (st1 := onPeer c _ _).
    assert (Hmine : own c (parts (tasks st f)) ≡ₚ blocks (peers st c)).
    { rewrite (inv_claims _ _ _ _ Hi f c). by rewrite decide_True. }
    assert (Hi1 : inv o st1).
    { apply (inv_transfer o c f); try done; cbn [blocks set_progress set_blocks].
      - pose proof E as Hn. apply Parts.claim_length in Hn; [|lia]. unfold len in *. rewrite length_app. lia.
      - apply apart_app; [by apply Hi|done|]. intros x y Hx Hy. eapply claim_apart; [exact Hok|exact E|by rewrite Hmine|done].
      - by apply plain_claims.
      - intros d. cbn [parts set_parts]. rewrite (Hown d). destruct (decide (d = c)) as [->|]; [|done].
        rewrite Hmine. apply Permutation_app_comm. }
    destruct (PeerProtocol.createRequestPartsPayload _ _ _); [|by apply fine_thrown].
    apply fine_done. eapply inv_quiet, Hi1. apply quiet_send.
Qed.

Lemma fine_blockDone o e c f block st :
  inv o st -> downloadFile (peers st c) = Some f -> block ∈ blocks (peers st c) -> fine o (blockDone e c block st).
Proof.
  intros Hi Ef Hb. unfold blockDone. apply fine_andThen; [|intros st' Hi' _; by apply fine_requestBlocks].
  apply fine_done. set (g := fun s => set_inflaters _ _).
  assert (E1 : downloadFile (peers (onPeer c g st) c) = Some f) by (by rewrite peers_onPeer). rewrite E1.
  destruct (inv_task _ _ _ _ Hi f) as [[Hp Hin] _].
  assert (Hmine : own c (parts (tasks st f)) ≡ₚ blocks (peers st c)).
  { rewrite (inv_claims _ _ _ _ Hi f c). by rewrite decide_True. }
  assert (Hnd : NoDup (fst <$> blocks (peers st c))).
  { apply apart_begins; [by apply Hi|]. apply Forall_forall. intros r Hr. rewrite <- Hmine in Hr.
    apply own_in in Hr as (k & Hk & _ & Hke). rewrite Forall_forall in Hin. destruct (Hin _ Hk) as (i & _ & _ & Hlt & _). cbn in Hlt. lia. }
  change (onParts f (Parts.release c block) (onPeer c g st)) with
    (onPeer c g (onTask f (fun t => set_parts (Parts.release c block (parts t)) t) st)).
  destruct (Parts.exec_keeps (Parts.Release c block) (parts (tasks st f)) Hp I I) as (q & [= <-] & Hq & _).
  apply (inv_transfer o c f); try done; cbn [parts set_parts].
  - cbn. apply (inv_busy _ _ _ _ Hi c). intros E. rewrite E in Hb. by apply elem_of_nil in Hb.
  - cbn. pose proof (inv_ahead _ _ _ _ Hi c) as Hlen. unfold len in *.
    pose proof (filter_length_le (fun r => negb (bool_decide (r = block))) (blocks (peers st c))). lia.
  - cbn. apply apart_filter, Hi.
  - split; [done|]. rewrite Forall_forall in *. intros k Hk. apply Hin. exact (Parts.elem_of_eraseClaim _ _ _ _ Hk).
  - intros d. destruct (decide (d = c)) as [->|Hne].
    + assert (Hcons : block :: own c (Parts.release c block (parts (tasks st f))) ≡ₚ
        block :: List.filter (fun r => negb (bool_decide (r = block))) (blocks (peers st c))).
      { rewrite <- (without_block block (blocks (peers st c)) Hb Hnd), <- Hmine. symmetry. apply own_erase.
        - change (block ∈ own c (parts (tasks st f))). by rewrite Hmine.
        - change (NoDup (fst <$> own c (parts (tasks st f)))). by rewrite Hmine. }
      by apply Permutation_cons_inv in Hcons.
    + unfold own, Parts.release. cbn [Parts.claims Parts.with_claims]. by rewrite own_erase_other.
Qed.

(** ** Data *)

(** Whether the byte [begin] of the file of the source [c] is in a part that is
    already full. *)
Definition late (c begin : Z) st : bool :=
  match downloadFile (peers st c) with
  | Some f => Parts.filled (parts (tasks st f)) (Parts.partOf begin)
  | None => false
  end.
(** Where the data of a packet for the compressed block at [begin] belongs. *)
Definition inflatedTo (c begin : Z) st : option Z :=
  let s := peers st c in
  block ← List.find (fun r => (r.1 <=? begin) && (begin <? r.2)) (blocks s);
  Some (block.1 + inflatedLength (default newInflater (inflaters s !! block.1))).

Lemma taskReceive_ok o f begin data st :
  inv o st -> in_part (parts (tasks st f)) (begin, begin + len data) ->
  (strict = true -> Parts.filled (parts (tasks st f)) (Parts.partOf begin) = false) ->
  exists st', taskReceive f begin data st = (st', Done) /\ inv o st' /\ peers st' = peers st.
Proof.
  intros Hi Hin Hlate. unfold taskReceive. branch; [by exists st|]. rename select (_ || _ = false) into E0.
  apply orb_false_iff in E0 as [Edl Hne]. unfold downloading in *. bprop.
  pose proof (inv_parts o f st Hi) as Hp. pose proof Hin as (i & Hpi & H1 & H2 & H3). cbn [fst snd] in *.
  pose proof (Parts.part_bounds _ _ Hp Hpi) as Hb. unfold size.
  rewrite (Z.min_l (begin + len data)) by lia. rewrite (proj2 (Z.ltb_ge begin 0)) by lia.
  rewrite (proj2 (Z.leb_gt (begin + len data) begin)) by lia. cbn [orb].
  replace (begin + len data - begin) with (len data) by lia. rewrite take_ge by (unfold len; lia).
  destruct (data_receive strict stuck _ f (tasks st f) begin data (inv_data o f st Hi) Hp Edl Hin Hlate)
    as (full & q & -> & Hq & He & Ec & Hd & Hfull).
  set (st1 := post f (Write begin data) (onTask f (set_parts q) st)).
  assert (Ht1 : tasks st1 f = set_jobs (jobs (tasks st f) ++ [Write begin data]) (set_parts q (tasks st f))).
  { unfold st1, post. by rewrite !tasks_onTask. }
  assert (Hi1 : inv o st1).
  { eapply inv_quiet; [apply onTask_twice|]. apply inv_step; try done.
    apply (claims_ok_same (parts (tasks st f))); try done; [by destruct (inv_task _ _ _ _ Hi f)|apply He|apply He]. }
  destruct full as [j|]; [|by exists st1]. destruct Hfull as (Hj & Hv & Hf & Hnot).
  destruct (verifyFilled_ok o f j st1 Hi1) as (st2 & -> & Hi2 & Hk & _); rewrite ?Ht1; try done.
  - unfold isPart in *. cbn [parts set_jobs set_parts]. by rewrite (e_count _ _ _ He).
  - intros Es. unfold verifying. cbn [handlers jobs set_jobs set_parts]. rewrite bind_app. cbn. rewrite app_nil_r. by apply Hnot.
  - exists st2. split_and!; [done|done|apply Hk].
Qed.

Lemma claimed_in_part o c f begin end_ st :
  inv o st -> Parts.claimed c begin end_ (parts (tasks st f)) = true -> begin < end_ ->
  in_part (parts (tasks st f)) (begin, end_).
Proof.
  intros Hi Hc Hlt. unfold Parts.claimed in Hc. apply existsb_exists in Hc as ([first k] & Hk & E). zprop.
  apply list_elem_of_In in Hk. destruct (inv_task _ _ _ _ Hi f) as [[Hp Hin] _]. rewrite Forall_forall in Hin.
  destruct (Hin _ Hk) as (i & Hpi & Hr1 & Hr2 & Hr3). cbn [fst snd] in *. exists i. cbn [fst snd]. lia.
Qed.

Lemma fine_receiveBlock o e c begin end_ data st :
  inv o st -> (strict = true -> late c begin st = false) -> fine o (receiveBlock e c begin end_ data st).
Proof.
  intros Hi Hlate. unfold receiveBlock. destruct (downloadFile (peers st c)) as [f|] eqn:Ef; [|done].
  do 3 (branch; [done|]). bprop.
  assert (Hin : in_part (parts (tasks st f)) (begin, end_)) by (by apply (claimed_in_part o c f begin end_ st Hi); [|lia]).
  replace end_ with (begin + len data) in Hin by lia.
  unfold andThen, pure. set (st1 := onPeer c _ st). assert (Hi1 : inv o st1) by (eapply inv_quiet, Hi; by apply quiet_peer).
  destruct (taskReceive_ok o f begin data st1 Hi1 Hin) as (st2 & E2 & Hi2 & Ep2); [intros Es; specialize (Hlate Es); unfold late in Hlate; by rewrite Ef in Hlate|].
  rewrite E2. cbn match.
  destruct (List.find _ _) as [block|] eqn:Eb; [|done]. apply find_some in Eb as [Eb _]. apply list_elem_of_In in Eb.
  set (st3 := onPeer c _ st2). assert (Hi3 : inv o st3) by (eapply inv_quiet, Hi2; by apply quiet_peer).
  branch; [|done]. apply (fine_blockDone o e c f); [done|..].
  - unfold st3. rewrite peers_onPeer. cbn [downloadFile set_progress]. rewrite Ep2. unfold st1. by rewrite peers_onPeer.
  - unfold st3. by rewrite peers_onPeer.
Qed.
Lemma late_quiet c x st st' : quiet st st' -> late c x st' = late c x st.
Proof.
  intros [Hp Ht]. unfold late. pose proof (f_equal (fun k => k.1.2) (Hp c)) as E. cbn in E. rewrite E.
  destruct (downloadFile (peers st c)) as [f|]; [|done]. destruct (Ht f) as (_ & Ep & _). by rewrite Ep.
Qed.
Lemma fine_receiveCompressed o e c begin data st :
  inv o st -> (strict = true -> forall x, inflatedTo c begin st = Some x -> late c x st = false) ->
  fine o (receiveCompressed e c begin data st).
Proof.
  intros Hi Hlate. unfold receiveCompressed. destruct (downloadFile (peers st c)) as [f|]; [|done].
  branch; [done|]. unfold inflatedTo in Hlate. destruct (List.find _ _) as [block|]; [|done]. cbn [mbind option_bind] in Hlate. destruct (inflateChunk _ _ _ _) as [i plain].
  set (st1 := onPeer c _ st). assert (Hq1 : quiet st st1) by by apply quiet_peer.
  assert (Hi1 : inv o st1) by by eapply inv_quiet. destruct plain as [[|x plain]|]; [done| |done].
  assert (Hgo : forall st2 e' d, quiet st st2 ->
    fine o (receiveBlock e c (block.1 + inflatedLength (default newInflater (inflaters (peers st c) !! block.1))) e' d st2)).
  { intros st2 e' d Hq2. apply fine_receiveBlock; [by eapply inv_quiet|]. intros Es.
    by rewrite (late_quiet c _ st st2 Hq2), (Hlate Es). }
  apply Hgo. destruct (zstream i); [done|]. transitivity st1; [done|by apply quiet_peer].
Qed.

End steps.
End DownloadSteps.
