(* ===== verification/DownloadRun.v ===== *)
(** * Runs of downloads: opening, checking and the events

    Opening a file, checking what was there, and the handlers of the disk
    thread; then every event, and the sequences of events. *)

From stdpp Require Import gmap functions.
From S2P Require Import Prelude Bytes Wire Packet Hash Ranges Parts PeerProtocol.
From S2P Require Import Download DownloadInvariant DownloadData DownloadSteps.

Module DownloadRun.
Import Bytes Wire Packet Hash Download DownloadInvariant DownloadData DownloadSteps.

Section run.
Context `{Zlib}.
Context (strict : bool) (stuck : Z -> option (list report)).
Abbreviation data_ok := (data_ok strict stuck).
Abbreviation inv := (inv strict stuck).
Abbreviation fine := (fine strict stuck).
Implicit Types (o : option Z) (st : state) (t : Task) (p q : Parts.parts RangeSet.t).

(** ** What asking sources leaves alone *)

Definition still st st' : Prop := forall f, plain (tasks st' f) = plain (tasks st f).
#[local] Instance still_preorder : PreOrder still.
Proof. split; [done|]. intros s1 s2 s3 H1 H2 f. by rewrite H2. Qed.
Lemma calm_still st st' : calm st st' -> still st st'.
Proof. intros Hc f. by destruct (Hc f). Qed.
Lemma quiet_still st st' : quiet st st' -> still st st'.
Proof. intros Hq. by apply calm_still, quiet_calm. Qed.
Lemma still_task f g st : plain (g (tasks st f)) = plain (tasks st f) -> still st (onTask f g st).
Proof. intros E h. destruct (decide (f = h)) as [<-|]; [by rewrite tasks_onTask|by rewrite tasks_onTask_ne]. Qed.

Lemma still_addSource f c st : still st (addSource f c st).
Proof.
  unfold addSource. branch; [done|].
  assert (Hs : still st (setSource c f st)) by (unfold setSource; by destruct (downloadFile _)).
  branch; [done|]. etransitivity; [exact Hs|]. etransitivity; [|apply quiet_still, quiet_sourceChanged]. by apply still_task.
Qed.
Lemma still_addSources f (l : list Z) : forall st, still st (foldl (fun st c => addSource f c st) st l).
Proof. induction l as [|c l IH]; intros st; [done|]. etransitivity; [apply still_addSource|apply IH]. Qed.
Lemma still_requestFile e c st : still st (requestFile e c st).1.
Proof. unfold requestFile. destruct (downloadFile _); [|done]. unfold send. by destruct (connection _). Qed.
Lemma still_askForFile e c st : still st (askForFile e c st).1.
Proof.
  unfold askForFile. destruct (downloadFile _); [|done]. branch; [done|]. set (st1 := onPeer c _ st).
  branch; [branch; [exact (still_requestFile e c st1)|done]|]. branch; [done|].
  branch; [|branch; done]. branch; [done|]. exact (calm_still _ _ (calm_stopDownloading e c Idle (seconds 600) st1)).
Qed.
Lemma still_askSources e (l : list Z) : forall asking st, still st (askSources e asking l st).1.
Proof.
  induction l as [|c l IH]; intros asking st; cbn [askSources]; [done|]. branch; [done|]. branch; [|apply IH].
  unfold andThen. pose proof (still_askForFile e c st) as Hs. destruct (askForFile e c st) as [st' []]; [|done..].
  etransitivity; [exact Hs|apply IH].
Qed.
Lemma still_eraseDead f (l : list Z) : forall st kept st', eraseDead f l st = (kept, st') -> still st st'.
Proof.
  induction l as [|c l IH]; intros st kept st' E; cbn [eraseDead] in E; [by simplify_eq|].
  set (st1 := if isDead _ then _ else st) in E. destruct (eraseDead f l st1) as [kept1 st2] eqn:E1. simplify_eq.
  etransitivity; [|by eapply IH]. unfold st1. branch; [apply calm_still, calm_dropSource|done].
Qed.
Lemma still_tickTask e f l st : phase (tasks st f) = PDownloading -> still st (tickTask e f l st).1.
Proof.
  intros Hp. unfold tickTask. rewrite Hp. destruct (eraseDead f _ st) as [kept st'] eqn:E.
  etransitivity; [by eapply still_eraseDead|]. unfold schedule. branch; [by apply still_task|].
  etransitivity; [|apply still_askSources]. by apply still_task.
Qed.

Lemma fine_tickTask e f l st : inv None st -> fine None (tickTask e f l st).
Proof.
  intros Hi. unfold tickTask. destruct (phase (tasks st f)) eqn:Ep; try done; [|apply fine_done; by apply inv_evaluateSharing].
  destruct (eraseDead f _ st) as [kept st'] eqn:E. destruct (eraseDead_ok strict stuck f _ _ _ _ Hi E) as (Hi' & _ & Hd).
  apply fine_schedule, inv_sources; [done|]. intros _ c Hc. destruct (Hd c Hc) as [Hc' Hk]. apply Hk.
  by apply (inv_listed _ _ _ _ Hi c f).
Qed.

Lemma inv_addSources f (l : list Z) : forall st, inv None st -> inv None (foldl (fun st c => addSource f c st) st l).
Proof. induction l as [|c l IH]; intros st Hi; [done|]. apply IH. by apply inv_addSource. Qed.

(** ** The file is open *)

(** A task begins to download, or to share what is there. *)
Lemma run_ok e f links l st :
  inv (Some f) st -> (forall c, downloadFile (peers st c) <> Some f) ->
  phase (tasks st f) = POpening \/ phase (tasks st f) = PChecking -> jobs (tasks st f) = [] -> handlers (tasks st f) = [] ->
  (unchecked (tasks st f) = true -> needsHashSet (tasks st f) = true) -> size (tasks st f) <= len (content (tasks st f)) ->
  (needsHashSet (tasks st f) = false -> waitingForHashSet (tasks st f) = []) ->
  fine None (run e f links l st) /\
  (Parts.complete (parts (tasks st f)) = false -> plain (tasks (run e f links l st).1 f) = plain (set_phase PDownloading (tasks st f))).
Proof.
  intros Hi Hno Hph Ej Eh Hu Hlen Hw. unfold run.
  destruct (Parts.complete (parts (tasks st f))) eqn:Ec.
  { split; [|done]. apply fine_done, inv_downloaded; rewrite ?Ej, ?Eh; try done; [by intros c ?%Hno|]. destruct Hph; congruence. }
  set (st1 := onTask f (set_phase PDownloading) st).
  assert (Ht1 : tasks st1 f = set_phase PDownloading (tasks st f)) by (unfold st1; by rewrite tasks_onTask).
  pose proof (inv_data _ _ _ f st Hi) as Hd. rewrite bool_decide_eq_true_2 in Hd by done.
  assert (Hd1 : data_ok false f (set_phase PDownloading (tasks st f))).
  { eapply data_tighten; [apply (data_phase strict stuck true f (tasks st f) PDownloading (ending (tasks st f))); try done|done|done|exact Hu].
    - by rewrite Ej, Eh.
    - apply (not_stuck strict stuck _ _ _ Hd). destruct Hph; left; congruence.
    - intros [?|[? _]]; done. }
  assert (Hi1 : inv None st1).
  { apply (inv_tighten _ _ f); [by intros c ?%Hno|by rewrite Ht1|]. apply inv_onTask; [done| |done|congruence].
    split; [exact (proj1 (inv_task _ _ _ _ Hi f))|exact (data_ok_loosen _ _ _ _ _ Hd1)]. }
  assert (Hi2 : inv None (foldl (fun st c => addSource f c st) st1 links)).
  { by apply inv_addSources. }
  split; [by apply fine_tickTask|]. intros _. pose proof (still_addSources f links st1 f) as E2. rewrite Ht1 in E2.
  rewrite still_tickTask; [done|]. exact (f_equal phase E2).
Qed.

Lemma data_nowait b f t : data_ok b f t -> data_ok b f (set_waitingForHashSet [] t).
Proof.
  intros [Hhash Hpieces Hlife Hstuck Hwaiting Hwaits Hjobs Hhandlers Hlocal Hlength Hcomplete Hchecking Hsound].
  constructor; try done.
  - eapply Forall_impl; [exact Hjobs|]. intros []; unfold job_ok; try done. intros [? _]. done.
  - eapply Forall_impl; [exact Hhandlers|]. intros []; unfold handler_ok; try done. intros (? & _ & ?). done.
  - intros E. destruct (Hchecking E) as [?|(? & ? & ? & ?)]; [by left|right]. by split_and!.
  - intros Es. destruct (Hsound Es) as [[]]. constructor; [constructor|..]; try assumption. constructor.
Qed.
Lemma complete_verified p i : Parts.complete p = true -> 0 <= i < Parts.count p -> Parts.isVerified p i = Some true.
Proof.
  intros Hc Hi. destruct (Parts.isVerified_in p i Hi) as [v Hv]. rewrite Hv. f_equal.
  unfold Parts.complete in Hc. rewrite forallb_forall in Hc. apply Hc. apply list_elem_of_In. by eapply list_elem_of_lookup_2.
Qed.

(** *** Checking a file that was there *)

Lemma quiet_same f g h st :
  (forall t, plain (g t) = plain (h t) /\ parts (g t) = parts (h t) /\ sources (g t) = sources (h t)) ->
  quiet (onTask f g st) (onTask f h st).
Proof.
  intros E. split; [done|]. intros k. destruct (decide (f = k)) as [<-|]; [rewrite !tasks_onTask|by rewrite !tasks_onTask_ne].
  destruct (E (tasks st f)) as (? & ? & ?). done.
Qed.
Lemma quiet_onTask f g st st' :
  quiet st st' ->
  (forall t t', sameTask t t' -> sameTask (g t) (g t')) -> quiet (onTask f g st) (onTask f g st').
Proof.
  intros [Hp Ht] Hg. split; [exact Hp|]. intros k.
  destruct (decide (f = k)) as [<-|]; [rewrite !tasks_onTask; by apply Hg|by rewrite !tasks_onTask_ne].
Qed.
Lemma sameTask_post t t' js : sameTask t t' -> sameTask (set_jobs (jobs t ++ js) t) (set_jobs (jobs t' ++ js) t').
Proof.
  intros (E1 & E2 & E3). split_and!; [|done|done].
  change (set_jobs (jobs (plain t') ++ js) (plain t') = set_jobs (jobs (plain t) ++ js) (plain t)). by rewrite E1.
Qed.
Definition postJobs (f : Z) (js : list job) : state -> state := onTask f (fun t => set_jobs (jobs t ++ js) t).
Lemma postJobs_cons f j js st : quiet (postJobs f (j :: js) st) (postJobs f js (post f j st)).
Proof.
  unfold postJobs, post. etransitivity; [|apply onTask_twice]. apply quiet_same. intros t. cbn [jobs set_jobs].
  rewrite <- app_assoc. done.
Qed.
Lemma postJobs_nil f st : quiet (postJobs f [] st) st.
Proof.
  split; [done|]. intros k. unfold postJobs. destruct (decide (f = k)) as [<-|]; [rewrite tasks_onTask|by rewrite tasks_onTask_ne].
  rewrite app_nil_r. unfold sameTask. by destruct (tasks st f).
Qed.
Lemma postAll_quiet f u (l : list Z) : forall st, quiet (postJobs f ((fun i => Digest i u) <$> l) st) (postAll f u l st).
Proof.
  induction l as [|i l IH]; intros st; [apply postJobs_nil|]. cbn [postAll]. rewrite fmap_cons.
  etransitivity; [apply postJobs_cons|apply IH].
Qed.
Lemma checkKnown_ok f (l : list Z) : forall st,
  Forall (fun i => is_Some (expectedHash (tasks st f) i)) l ->
  exists st', checkKnown f l st = (st', Done) /\
    quiet (postJobs f ((fun i => Digest i (Check (default [] (expectedHash (tasks st f) i)))) <$> l) st) st'.
Proof.
  induction l as [|i l IH]; intros st Hl; [exists st; split; [done|apply postJobs_nil]|].
  apply Forall_cons in Hl as [[e He] Hl]. cbn [checkKnown]. unfold andThen, hashPart. rewrite He. cbn match.
  assert (Et : forall j, expectedHash (tasks (post f (Digest i (Check e)) st) f) j = expectedHash (tasks st f) j).
  { intros j. unfold post. by rewrite tasks_onTask. }
  destruct (IH (post f (Digest i (Check e)) st)) as (st' & -> & Hq).
  { eapply Forall_impl; [exact Hl|]. intros j. by rewrite Et. }
  exists st'. split; [done|]. rewrite fmap_cons, He. cbn [default]. etransitivity; [apply postJobs_cons|].
  etransitivity; [|exact Hq]. apply reflexive_eq. f_equal. apply list_fmap_ext. intros k j _. by rewrite Et.
Qed.

(** The task [f] when the file is open, before anything else. *)
Record justOpened (f : Z) st : Prop := {
  j_inv : inv (Some f) st;
  j_nobody c : downloadFile (peers st c) <> Some f;
  j_phase : phase (tasks st f) = POpening;
  j_jobs : jobs (tasks st f) = [];
  j_handlers : handlers (tasks st f) = [];
  j_unchecked : unchecked (tasks st f) = false;
}.
Lemma pop_opened f er c rest st :
  inv None st -> phase (tasks st f) = POpening -> handlers (tasks st f) = Opened er c :: rest ->
  justOpened f (onTask f (set_handlers rest) st) /\ (er = false -> size (tasks st f) <= len (content (tasks st f))) /\
  (c = true -> waitingForHashSet (tasks st f) = []).
Proof.
  intros Hi Hp E. pose proof (inv_data_strict _ _ f st Hi) as Hd.
  destruct (opening_popped _ _ _ _ _ _ _ _ Hd Hp E) as [Ej ->].
  pose proof (d_handlers _ _ _ _ _ Hd) as Hh. rewrite E in Hh. apply Forall_cons in Hh as [(Hu & Hw & Hlen) _].
  split; [|done]. constructor; rewrite ?tasks_onTask; try done.
  - apply inv_onTask; [by apply inv_loosen| |done|congruence]. split; [exact (proj1 (inv_task _ _ _ _ Hi f))|].
    rewrite bool_decide_eq_true_2 by done. by eapply data_opened.
  - intros k. apply (inv_nobody _ _ f k st Hi). congruence.
Qed.

Lemma fine_checkAll f st :
  justOpened f st -> waitingForHashSet (tasks st f) = [] -> size (tasks st f) <= len (content (tasks st f)) ->
  fine None (checkAll f st).
Proof.
  intros [Hi Hno Hp Ej Eh Hu] Hw Hlen. pose proof (inv_data _ _ _ f st Hi) as Hd. rewrite bool_decide_eq_true_2 in Hd by done.
  pose proof (inv_parts _ _ _ f st Hi) as Hpo.
  assert (Hend : forall js local, Forall checkJob js -> Forall (job_ok (tasks st f)) js ->
    (forall i e, Digest i (Check e) ∈ js -> expectedHash (tasks st f) i = Some e) ->
    (needsHashSet (tasks st f) = true -> len local = Parts.count (parts (tasks st f)) /\ forall i, isPart (tasks st f) i -> Digest i CheckLocal ∈ js) ->
    inv None (onTask f (fun t => set_jobs js (set_localHashes local (set_phase PChecking t))) st)).
  { intros js local H1 H2 H3 H4.
    assert (Hd1 : data_ok false f (set_jobs js (set_localHashes local (set_phase PChecking (tasks st f))))) by by apply data_check.
    apply (inv_tighten _ _ f); [by intros c ?%Hno|by rewrite tasks_onTask|]. apply inv_onTask; [done| |done|congruence].
    split; [exact (proj1 (inv_task _ _ _ _ Hi f))|exact (data_ok_loosen _ _ _ _ _ Hd1)]. }
  assert (Hidx : forall i, i ∈ Parts.indices (parts (tasks st f)) <-> isPart (tasks st f) i) by (intros i; apply Parts.elem_of_indices).
  unfold checkAll. rewrite tasks_onTask. cbn [parts set_phase]. change (needsHashSet (set_phase PChecking (tasks st f))) with (needsHashSet (tasks st f)).
  destruct (needsHashSet (tasks st f)) eqn:En.
  - apply fine_done. eapply inv_quiet; [apply postAll_quiet|]. eapply inv_quiet; [apply onTask_twice|].
    eapply inv_quiet; [apply onTask_twice|].
    eapply (inv_quiet _ _ _ (onTask f (fun t => set_jobs ((fun i => Digest i CheckLocal) <$> Parts.indices (parts (tasks st f)))
      (set_localHashes (replicate (Z.to_nat (Parts.count (parts (tasks st f)))) []) (set_phase PChecking t))) st)).
    + split; [done|]. intros k. destruct (decide (f = k)) as [<-|]; [rewrite !tasks_onTask|by rewrite !tasks_onTask_ne].
      unfold sameTask, plain. cbn. by rewrite Ej.
    + apply Hend.
      * apply Forall_forall. by intros j (i & -> & _)%list_elem_of_fmap.
      * apply Forall_forall. intros j (i & -> & Hin%Hidx)%list_elem_of_fmap. cbn [job_ok]. split; [done|]. rewrite En. done.
      * by intros i e (j & ? & _)%list_elem_of_fmap.
      * intros _. split; [unfold len; rewrite length_replicate; unfold Parts.count; lia|].
        intros i Hin%Hidx. apply list_elem_of_fmap. by exists i.
  - set (st1 := onTask f (set_phase PChecking) st).
    assert (Ht1 : forall j, expectedHash (tasks st1 f) j = expectedHash (tasks st f) j) by (intros j; unfold st1; by rewrite tasks_onTask).
    destruct (checkKnown_ok f (Parts.indices (parts (tasks st f))) st1) as (st' & -> & Hq).
    { apply Forall_forall. intros i Hin%Hidx. rewrite Ht1. destruct (expected_some _ _ _ f (tasks st f) i Hd Hpo Hin) as [e ->]. done. }
    apply fine_done. eapply inv_quiet; [exact Hq|]. eapply inv_quiet; [apply onTask_twice|].
    eapply (inv_quiet _ _ _ (onTask f (fun t => set_jobs ((fun i => Digest i (Check (default [] (expectedHash (tasks st1 f) i)))) <$> Parts.indices (parts (tasks st f)))
      (set_localHashes (localHashes (tasks st f)) (set_phase PChecking t))) st)).
    + split; [done|]. intros k. destruct (decide (f = k)) as [<-|]; [rewrite !tasks_onTask|by rewrite !tasks_onTask_ne].
      unfold sameTask, plain. cbn. by rewrite Ej.
    + apply Hend.
      * apply Forall_forall. by intros j (i & -> & _)%list_elem_of_fmap.
      * apply Forall_forall. intros j (i & -> & Hin%Hidx)%list_elem_of_fmap. cbn [job_ok]. split; [done|]. rewrite En. done.
      * intros i e (j & [= <- ->] & Hin%Hidx)%list_elem_of_fmap. rewrite Ht1.
        destruct (expected_some _ _ _ f (tasks st f) i Hd Hpo Hin) as [e ->]. done.
      * done.
Qed.

Lemma inv_pop f h rest st :
  inv None st -> handlers (tasks st f) = h :: rest -> phase (tasks st f) <> POpening ->
  (phase (tasks st f) = PChecking -> forall i e d, h <> Digested i e d CheckLocal) -> inv None (onTask f (set_handlers rest) st).
Proof.
  intros Hi E Hp Hc. apply inv_step_parts; try done. rewrite bool_decide_eq_false_2 by done.
  eapply data_pop; [by apply inv_data_strict|exact E|done|done].
Qed.
Lemma fine_opened e f er c rest links l st :
  inv None st -> handlers (tasks st f) = Opened er c :: rest ->
  fine None (opened e f er c links l (onTask f (set_handlers rest) st)).
Proof.
  intros Hi E. unfold opened. rewrite tasks_onTask. cbn [phase set_handlers waitingForHashSet].
  pose proof (inv_data_strict _ _ f st Hi) as Hd.
  destruct (decide (phase (tasks st f) = POpening)) as [Hp|Hp]; cycle 1.
  { rewrite bool_decide_eq_true_2 by done. apply fine_done, inv_quiesce.
    - apply (inv_pop f _ _ _ Hi E Hp). done.
    - apply (not_stuck strict stuck _ _ _ Hd). rewrite E. by right; right.
    - rewrite tasks_onTask. cbn [jobs handlers set_handlers]. destruct (d_life _ _ _ _ _ Hd) as [Hl|[? _]]; [|done].
      rewrite E in Hl. clear -Hl Hp. destruct (phase _); try done.
      + by destruct Hl.
      + by destruct Hl as [_ [? _]%Forall_cons].
      + by destruct Hl as [_ [? _]%Forall_cons].
      + by destruct Hl as [_ [? _]%Forall_cons].
      + intros Ho. destruct Hl as [Hl|[Hl|[Hl|Hl]]].
        * destruct Hl as [(? & ? & _ & ?)|(? & ? & Ej & [= -> -> ->])]; [done|].
          by destruct Ho as [(? & ? & Ej' & _)|(? & ? & _ & ?)]; [rewrite Ej in Ej'|].
        * by destruct Hl as [[_ ?]|[_ ?]].
        * by destruct Hl as [_ [? _]%Forall_cons].
        * by destruct Hl as [_ [? _]%Forall_cons]. }
  rewrite bool_decide_eq_false_2 by (intros []; done).
  destruct (pop_opened f er c rest st Hi Hp E) as (Hj & Hlen & Hck). set (st1 := onTask f (set_handlers rest) st) in *.
  assert (Ht1 : tasks st1 f = set_handlers rest (tasks st f)) by (unfold st1; by rewrite tasks_onTask).
  destruct er.
  { destruct Hj as [Hi1 Hno Hp1 _ _ Hu1]. apply fine_done, inv_finish; rewrite ?Hp1, ?Hu1; try done. by intros k ?%Hno. }
  destruct c; [apply fine_checkAll; rewrite ?Ht1; auto|].
  destruct Hj as [Hi1 Hno Hp1 Hj1 Hh1 Hu1]. set (w := waitingForHashSet (tasks st f)).
  set (st2 := onTask f (set_waitingForHashSet []) st1).
  assert (Ht2 : tasks st2 f = set_waitingForHashSet [] (tasks st1 f)) by (unfold st2; by rewrite tasks_onTask).
  assert (Hi2 : inv (Some f) st2).
  { apply inv_step_parts; try done. eapply data_nowait, inv_data, Hi1. }
  destruct (run_ok e f links l st2) as [Hr Hpl]; rewrite ?Ht2; try done;
    [by left|cbn [unchecked set_waitingForHashSet]; by rewrite Hu1|rewrite Ht1; by apply Hlen|].
  apply fine_andThen; [done|]. intros st3 Hi3 E3. rewrite E3 in Hpl. cbn [fst] in Hpl.
  pose proof (d_waiting _ _ _ _ _ Hd) as Hw. fold w in Hw.
  destruct (Parts.complete (parts (tasks st2 f))) eqn:Ec.
  { replace w with (@nil Z); [by apply fine_done|]. destruct w as [|i w']; [done|]. apply Forall_cons in Hw as [(Hpi & _ & Hv) _].
    rewrite Ht2, Ht1 in Ec. rewrite (complete_verified (parts (tasks st f)) i Ec Hpi) in Hv. done. }
  specialize (Hpl eq_refl). rewrite Ht2, Ht1 in Hpl.
  destruct (verifyAll_ok strict stuck None f w st3) as (st4 & -> & Hi4 & _); [done| | | |by apply fine_done].
  - exact (f_equal phase Hpl).
  - eapply Forall_impl; [exact Hw|]. intros i Hpi.
    change (isPart (plain (tasks st3 f)) i /\ Parts.filled (parts (plain (tasks st3 f))) i = true /\
      Parts.isVerified (parts (plain (tasks st3 f))) i = Some false). by rewrite Hpl.
  - intros Hs. split; [exact (h_waiting _ (s_honest _ (d_sound _ _ _ _ _ Hd Hs)))|]. intros j _.
    change (j ∉ verifying (plain (tasks st3 f))). rewrite Hpl. rewrite Ht1 in Hh1, Hj1. cbn in Hh1, Hj1.
    unfold verifying. cbn. rewrite Hh1, Hj1. apply not_elem_of_nil.
Qed.

(** *** The hashes of the file that was there *)

Lemma checks_verifying t : Forall checkJob (jobs t) -> Forall checkHandler (handlers t) -> verifying t = [].
Proof.
  intros Hj Hh. unfold verifying. replace (handlers t ≫= handlerVerifies) with (@nil Z); [|].
  - induction Hj as [|j js Hj _ IH]; [done|]. rewrite bind_cons. cbn [app] in *. rewrite <- IH. by destruct j as [| |? []| |].
  - induction Hh as [|h hs Hh _ IH]; [done|]. rewrite bind_cons, <- IH. by destruct h as [| |? ? ? []| |].
Qed.
Lemma checking_jobs f t : data_ok false f t -> phase t = PChecking -> Forall checkJob (jobs t) /\ Forall checkHandler (handlers t).
Proof. intros Hd Hp. destruct (d_life _ _ _ _ _ Hd) as [Hl|[? _]]; [|done]. by rewrite Hp in Hl. Qed.
Lemma checking_done f t : data_ok false f t -> checking t = true -> phase t = PChecking /\ jobs t = [] /\ handlers t = [].
Proof.
  unfold checking, hashing. intros Hd [Hc Hp%bool_decide_eq_true]%andb_true_iff.
  destruct (checking_jobs f t Hd Hp) as [Hj Hh]. apply negb_true_iff, orb_false_iff in Hc as [Hcj Hch].
  split_and!; [done|by destruct Hj as [|[]]|by destruct Hh as [|[]]].
Qed.
Lemma check_phase f t i er d u rest :
  data_ok false f t -> handlers t = Digested i er d u :: rest -> isCheck u -> phase t <> PClosing -> phase t = PChecking.
Proof.
  intros Hd E Hu Hp. destruct (d_life _ _ _ _ _ Hd) as [Hl|[? _]]; [|done]. rewrite E in Hl.
  destruct (phase t); try done.
  - by destruct Hl.
  - by destruct Hl as [(? & ? & _ & ?)|(? & ? & _ & ?)].
  - destruct Hl as [_ [Hl _]%Forall_cons]. by destruct u.
  - destruct Hl as [_ [Hl _]%Forall_cons]. by destruct u.
Qed.
Lemma unwritten_checks js i : Forall checkJob js -> unwritten js i.
Proof. intros Hj b d Hin. rewrite Forall_forall in Hj. by specialize (Hj _ Hin). Qed.
Lemma unopened_checks js a b : Forall checkJob js -> Open a b ∉ js.
Proof. intros Hj Hin. rewrite Forall_forall in Hj. by specialize (Hj _ Hin). Qed.

(** Everything is hashed. *)
Lemma fine_run e f links l st :
  inv None st -> phase (tasks st f) = PChecking -> jobs (tasks st f) = [] -> handlers (tasks st f) = [] ->
  fine None (run e f links l st).
Proof.
  intros Hi Hp Ej Eh. pose proof (inv_data_strict _ _ f st Hi) as Hd.
  destruct (d_checking _ _ _ _ _ Hd Hp) as [?|(Ew & Eu & _)]; [done|].
  apply run_ok; try done; [by apply inv_loosen| |by right|by rewrite Eu|apply (d_length _ _ _ _ _ Hd); by left].
  intros c. apply (inv_nobody _ _ f c st Hi). congruence.
Qed.

Lemma fine_checkedKnown e f i er d ex rest links l st :
  inv None st -> handlers (tasks st f) = Digested i er d (Check ex) :: rest -> phase (tasks st f) <> PClosing ->
  fine None (checkedKnown e f i (bool_decide (d = ex)) links l (onTask f (set_handlers rest) st)).
Proof.
  intros Hi E Hp. pose proof (inv_data_strict _ _ f st Hi) as Hd.
  pose proof (check_phase f _ i er d (Check ex) rest Hd E I Hp) as Hph.
  pose proof (d_handlers _ _ _ _ _ Hd) as Hh. rewrite E in Hh. apply Forall_cons in Hh as [[Hpi Hn] _].
  destruct (d_checking _ _ _ _ _ Hd Hph) as [?|(Ew & Eu & Hdig & _)]; [done|].
  assert (Hed : d = digest (tasks st f) i) by (apply (Hdig i er d (Check ex)); rewrite E; by left).
  assert (Hi1 : inv None (onTask f (set_handlers rest) st)) by (apply (inv_pop f _ _ _ Hi E); [congruence|done]).
  set (st1 := onTask f (set_handlers rest) st) in *.
  assert (Ht1 : tasks st1 f = set_handlers rest (tasks st f)) by (unfold st1; by rewrite tasks_onTask).
  pose proof (inv_data_strict _ _ f st1 Hi1) as Hd1. pose proof (inv_parts _ _ _ f st1 Hi1) as Hpo.
  assert (Hph1 : phase (tasks st1 f) = PChecking) by by rewrite Ht1.
  assert (Hend : forall q, inv None (onTask f (set_parts q) st1) ->
    fine None (if checking (tasks (onTask f (set_parts q) st1) f) then run e f links l (onTask f (set_parts q) st1)
               else (onTask f (set_parts q) st1, Done))).
  { intros q Hq. branch; [|done]. destruct (checking_done f _ (inv_data_strict _ _ f _ Hq) Heqb) as (? & ? & ?). by apply fine_run. }
  unfold checkedKnown. destruct (bool_decide (d = ex)) eqn:Eok; cycle 1.
  { apply Hend. eapply inv_quiet, Hi1. split; [done|]. intros k. destruct (decide (f = k)) as [<-|]; [|by rewrite tasks_onTask_ne].
    rewrite tasks_onTask. done. }
  destruct (verify_elsewhere i (parts (tasks st1 f)) Hpo) as (q & -> & Hq & Hel & Ec & Hv & Hf); [by rewrite Ht1|].
  destruct (checking_jobs f _ Hd1 Hph1) as [Hj Hhs].
  apply Hend. apply inv_step; try done; [|exact (claims_ok_same _ _ (proj1 (inv_task _ _ _ _ Hi1 f)) Hq Ec (e_size _ _ _ Hel) (e_count _ _ _ Hel))].
  rewrite bool_decide_eq_false_2 by done.
  eapply data_parts; try done; [by rewrite Ht1|by right|rewrite Ht1; cbn; rewrite Ew; by intros ?%elem_of_nil|].
  intros Hs. eapply sound_parts; try done; [exact (d_sound _ _ _ _ _ Hd1 Hs)|by rewrite Ht1| | | |].
  - rewrite checks_verifying by done. apply not_elem_of_nil.
  - intros a b. by apply unopened_checks.
  - intros _. split_and!; [rewrite Ht1; by apply Hn| |by apply unwritten_checks]. rewrite Ht1.
    apply bool_decide_eq_true in Eok. rewrite Eok in Hed. change (expectedHash (tasks st f) i = Some (digest (tasks st f) i)).
    rewrite <- Hed. apply (s_checks _ (d_sound _ _ _ _ _ Hd Hs)). right. exists er, d. rewrite E. by left.
  - rewrite Ht1. cbn. by rewrite Eu.
Qed.

(** *** A file that is hashed before its hash set is known *)

Lemma verifyParts_spec (l : list Z) : forall p,
  Parts.parts_ok p -> Forall (fun i => 0 <= i < Parts.count p) l ->
  exists q, verifyParts l p = Some q /\ Parts.parts_ok q /\ Parts.size q = Parts.size p /\ Parts.count q = Parts.count p /\
    Parts.claims q = Parts.claims p.
Proof.
  induction l as [|i l IH]; intros p Hp Hl; [by exists p|]. apply Forall_cons in Hl as [Hi Hl]. cbn [verifyParts].
  destruct (verify_elsewhere i p Hp Hi) as (q & -> & Hq & Hel & Ec & _). cbn [mbind option_bind].
  destruct (IH q Hq) as (r & -> & Hr & E1 & E2 & E3); [by rewrite (e_count _ _ _ Hel)|].
  exists r. rewrite E1, E2, E3, (e_size _ _ _ Hel), (e_count _ _ _ Hel). done.
Qed.
(** All parts count as verified when they are. *)
Lemma sound_all t q :
  sound t -> jobs t = [] -> handlers t = [] -> unchecked t = false -> needsHashSet t = false ->
  (forall i, isPart t i -> expectedHash t i = Some (digest t i)) ->
  Parts.size q = Parts.size (parts t) -> Parts.count q = Parts.count (parts t) -> sound (set_parts q t).
Proof.
  intros [[_ _ Hw]] Ej Eh Hu Hn He Es Ec.
  constructor; [constructor|..]; cbn [jobs handlers unchecked set_parts] in *; rewrite ?Ej, ?Eh; try done.
  - intros i Hi _. rewrite digest_same by done. unfold isPart in Hi. cbn [parts set_parts] in Hi. rewrite Ec in Hi.
    split; [by apply He|]. by intros ? ? ?%elem_of_nil.
  - intros i. rewrite needsHashSet_same by done. congruence.
  - by intros ? ? ?%elem_of_nil.
  - by intros ? ? ? ? ?%elem_of_nil.
  - by intros i e [?%elem_of_nil|(? & ? & ?%elem_of_nil)].
  - congruence.
Qed.
(** None does, but the hashes are kept until a hash set is there. *)
Lemma data_unchecked f t :
  data_ok false f t -> phase t = PChecking -> jobs t = [] -> handlers t = [] -> needsHashSet t = true ->
  data_ok true f (set_unchecked true t).
Proof.
  intros Hd Hp Ej Eh Hn. destruct (d_checking _ _ _ _ _ Hd Hp) as [?|(_ & _ & _ & Hl)]; [done|].
  destruct (Hl Hn) as [Hlen Hdig].
  destruct Hd as [Hhash Hpieces Hlife Hstuck Hwaiting Hwaits Hjobs Hhandlers Hlocal Hlength Hcomplete Hchecking Hsound].
  constructor; cbn [jobs handlers phase set_unchecked] in *; try done; rewrite ?Ej, ?Eh in *; try (by constructor).
  - left. by destruct Hlife as [?|[]].
  - intros _. auto.
  - intros Es. destruct (Hsound Es) as [[]]. constructor; [constructor|..]; try assumption.
    intros i _ Hi _. cbn [jobs localHashes set_unchecked]. rewrite Ej. split; [by intros ? ? ?%elem_of_nil|].
    destruct (Hdig i Hi) as [?%elem_of_nil|[(? & ? & ?%elem_of_nil)|?]]; done.
Qed.

(** The hashes of the parts can be hashed. *)
Lemma localHashes_length t :
  len (localHashes t) = Parts.count (parts t) -> (forall i, isPart t i -> localHashes t !! Z.to_nat i = Some (digest t i)) ->
  Forall (fun h => len h = HASH_LENGTH) (localHashes t).
Proof.
  intros Hlen Hdig. apply Forall_lookup. intros k h Hk. pose proof (lookup_lt_Some _ _ _ Hk).
  assert (Hd : localHashes t !! k = Some (digest t (Z.of_nat k))).
  { rewrite <- (Nat2Z.id k) at 1. apply Hdig. unfold isPart, len in *. lia. }
  rewrite Hk in Hd. injection Hd as ->. apply md4Digest_length.
Qed.
Lemma hashSetFits_ok t hashes :
  Forall (fun h => len h = HASH_LENGTH) hashes -> exists fits, hashSetFits t hashes = Ok fits /\
    (fits = true -> len hashes = hashSetPartCount (size t) /\ rootHash hashes = Ok (hash t)).
Proof.
  intros Hl. unfold hashSetFits. destruct (Z.eqb_spec (len hashes) (hashSetPartCount (size t))); [|by exists false].
  destruct (rootHash_ok _ Hl) as [root ->]. monad. exists (bool_decide (root = hash t)). split; [done|].
  intros ->%bool_decide_eq_true. done.
Qed.

(** The hash set is that of the file: all parts are there. *)
Lemma fine_allThere e f hashes links l st :
  inv None st -> phase (tasks st f) = PChecking -> jobs (tasks st f) = [] -> handlers (tasks st f) = [] ->
  needsHashSet (tasks st f) = true -> len hashes = hashSetPartCount (size (tasks st f)) -> rootHash hashes = Ok (hash (tasks st f)) ->
  (forall i, isPart (tasks st f) i -> hashes !! Z.to_nat i = Some (digest (tasks st f) i)) ->
  fine None (andThen (takeHashSet f hashes l)
    (fun st => match verifyParts (Parts.indices (parts (tasks st f))) (parts (tasks st f)) with
               | None => (st, Crashed)
               | Some p => run e f links l (onTask f (set_parts p) st)
               end) st).
Proof.
  intros Hi Hp Ej Eh Hn Hlen Hroot Hdig. destruct (takeHashSet_checking strict stuck f hashes l st) as [Et Hi1]; try done.
  unfold andThen. rewrite Et. set (st1 := withPieces f hashes st) in *. destruct (pieces_needed _ _ Hn Hlen) as [Hne Hn1].
  assert (Ht1 : tasks st1 f = set_waitingForHashSet [] (set_pieceHashes hashes (tasks st f))) by (unfold st1, withPieces; by rewrite tasks_onTask).
  pose proof (inv_data_strict _ _ f st1 Hi1) as Hd1. pose proof (inv_parts _ _ _ f st1 Hi1) as Hpo.
  assert (Hp1 : phase (tasks st1 f) = PChecking) by by rewrite Ht1.
  destruct (d_checking _ _ _ _ _ Hd1 Hp1) as [?|(_ & Eu & _)]; [done|].
  destruct (verifyParts_spec (Parts.indices (parts (tasks st1 f))) (parts (tasks st1 f)) Hpo) as (q & -> & Hq & E1 & E2 & E3);
    [apply indices_ok|].
  apply fine_run; [|rewrite tasks_onTask, Ht1; done..].
  apply inv_step; try done; [|exact (claims_ok_same _ _ (proj1 (inv_task _ _ _ _ Hi1 f)) Hq E3 E1 E2)].
  rewrite bool_decide_eq_false_2 by done.
  eapply data_table; try done; [by right|rewrite Ht1; by intros ? ?%elem_of_nil|].
  intros Hs. apply sound_all; try done; [exact (d_sound _ _ _ _ _ Hd1 Hs)|by rewrite Ht1..|]. rewrite Ht1. intros i Hpi.
  unfold expectedHash. cbn [pieceHashes set_waitingForHashSet set_pieceHashes].
  destruct hashes; [done|]. exact (Hdig i Hpi).
Qed.

Lemma fine_checkedLocal e f i er d rest links l st :
  inv None st -> handlers (tasks st f) = Digested i er d CheckLocal :: rest -> phase (tasks st f) <> PClosing ->
  fine None (checkedLocal e f i d links l (onTask f (set_handlers rest) st)).
Proof.
  intros Hi E Hp. pose proof (inv_data_strict _ _ f st Hi) as Hd.
  pose proof (check_phase f _ i er d CheckLocal rest Hd E I Hp) as Hph.
  pose proof (d_handlers _ _ _ _ _ Hd) as Hh. rewrite E in Hh. apply Forall_cons in Hh as [[Hpi Hn] _].
  assert (Hneed : needsHashSet (tasks st f) = true).
  { destruct (needsHashSet (tasks st f)); [done|]. by destruct (proj2 Hn eq_refl). }
  destruct (d_checking _ _ _ _ _ Hd Hph) as [?|(_ & _ & _ & Hl)]; [done|]. destruct (Hl Hneed) as [Hlen _].
  unfold checkedLocal. rewrite tasks_onTask. cbn [localHashes set_handlers].
  destruct (Z.leb_spec (len (localHashes (tasks st f))) i) as [Hle|_]; [unfold isPart in Hpi; lia|].
  set (st1 := onTask f _ (onTask f (set_handlers rest) st)).
  assert (Ht1 : tasks st1 f = set_localHashes (<[Z.to_nat i := d]> (localHashes (tasks st f))) (set_handlers rest (tasks st f))).
  { unfold st1. rewrite !tasks_onTask. done. }
  assert (Hi1 : inv None st1).
  { unfold st1. eapply inv_quiet; [apply onTask_twice|]. apply inv_step_parts; try done. rewrite bool_decide_eq_false_2 by done.
    exact (data_localHash _ _ f (tasks st f) i er d rest Hd Hph E). }
  pose proof (inv_data_strict _ _ f st1 Hi1) as Hd1.
  destruct (checking (tasks st1 f)) eqn:Ec; [|done]. destruct (checking_done f _ Hd1 Ec) as (Hp1 & Ej & Eh).
  assert (Hn1 : needsHashSet (tasks st1 f) = true) by by rewrite Ht1. rewrite Hn1.
  destruct (d_checking _ _ _ _ _ Hd1 Hp1) as [?|(_ & Eu & _ & Hl1)]; [done|]. destruct (Hl1 Hn1) as [Hlen1 Hdig1].
  assert (Hdig : forall j, isPart (tasks st1 f) j -> localHashes (tasks st1 f) !! Z.to_nat j = Some (digest (tasks st1 f) j)).
  { intros j Hj. specialize (Hdig1 j Hj). rewrite Ej, Eh in Hdig1.
    destruct Hdig1 as [?%elem_of_nil|[(? & ? & ?%elem_of_nil)|?]]; done. }
  set (hashes := localHashes (tasks st1 f) ++ _).
  assert (H16 : Forall (fun h => len h = HASH_LENGTH) hashes).
  { apply Forall_app. split; [by apply localHashes_length|]. branch; [|constructor]. constructor; [apply md4Digest_length|constructor]. }
  destruct (hashSetFits_ok (tasks st1 f) hashes H16) as ([] & -> & Hfit).
  - destruct (Hfit eq_refl). apply fine_allThere; try done. intros j Hj. unfold hashes. apply lookup_app_l_Some. by apply Hdig.
  - apply run_ok; rewrite ?tasks_onTask; try done; [|by intros c; apply (inv_nobody _ _ f c st1 Hi1); congruence|by right| |].
    + apply inv_step_parts; [by apply inv_loosen| |done..]. rewrite bool_decide_eq_true_2 by done. by apply data_unchecked.
    + apply (d_length _ _ _ _ _ Hd1). by left.
    + change (needsHashSet (set_unchecked true (tasks st1 f))) with (needsHashSet (tasks st1 f)). by rewrite Hn1.
Qed.

(** ** Starting *)

Lemma add_claims begin end_ p r q : Parts.add begin end_ p = Some (r, q) -> Parts.claims q = Parts.claims p.
Proof.
  unfold Parts.add. branch; [by intros [= <- <-]|]. destruct (Parts.firstFilled _ _); [|done]. cbn. by intros [= <- <-].
Qed.
Lemma restoreParts_spec (l : list (Z * bool)) : forall p,
  Parts.parts_ok p -> Forall (fun e => 0 <= e.1) l ->
  exists q, restoreParts l p = Some q /\ Parts.parts_ok q /\ Parts.size q = Parts.size p /\ Parts.claims q = Parts.claims p.
Proof.
  induction l as [|[i have] l IH]; intros p Hp Hl; [by exists p|]. apply Forall_cons in Hl as [Hi Hl]. cbn [restoreParts fst] in *.
  destruct ((i <? Parts.count p) && have) eqn:E; [|by apply IH]. zprop.
  destruct (verify_elsewhere i p Hp ltac:(lia)) as (q & -> & Hq & Hel & Ec & _). cbn [mbind option_bind].
  destruct (IH q Hq Hl) as (r & -> & Hr & E1 & E2). exists r. by rewrite E1, E2, (e_size _ _ _ Hel).
Qed.
Definition unhashed p (l : list Z) : Prop :=
  Forall (fun i => 0 <= i < Parts.count p /\ Parts.filled p i = true /\ Parts.isVerified p i = Some false) l.
Lemma restoreReceived_spec (l : list Range) : forall p w,
  Parts.parts_ok p -> unhashed p w ->
  exists q w', restoreReceived l p w = Some (q, w') /\ Parts.parts_ok q /\ Parts.size q = Parts.size p /\
    Parts.claims q = Parts.claims p /\ unhashed q w'.
Proof.
  induction l as [|r l IH]; intros p w Hp Hw; [by exists p, w|]. cbn [restoreReceived].
  destruct (Parts.parts_add_ok r.1 r.2 p Hp) as (full & q & Ea & Hq & Es & Ev & Hcov & Hfull). rewrite Ea. cbn [mbind option_bind fst snd].
  destruct (IH q (w ++ match full with Some i => [i] | None => [] end) Hq) as (q' & w' & -> & Hq' & Es' & Ec' & Hw').
  - apply Forall_app. split.
    + eapply Forall_impl; [exact Hw|]. intros i (Hi & Hf & Hv). unfold Parts.count, Parts.isVerified in *. rewrite Ev.
      split; [exact Hi|split; [|exact Hv]]. apply filled_spec; [done|]. intros x Hx. apply Hcov. left.
      apply (proj1 (filled_spec p i Hp) Hf). unfold Parts.part in *. by rewrite Es in Hx.
    + destruct full as [i|]; [|constructor]. destruct Hfull as (? & ? & ? & _). constructor; [done|constructor].
  - exists q', w'. by rewrite Es', Ec', Es, (add_claims _ _ _ _ _ Ea).
Qed.
Lemma imap_indices (l : list bool) : forall (f : nat -> nat),
  Forall (fun e : Z * bool => 0 <= e.1) (imap (fun i v => (Z.of_nat (f i), v)) l).
Proof.
  intros f. apply Forall_lookup. intros k e. rewrite list_lookup_imap. destruct (l !! k); [|done]. intros [= <-]. cbn. lia.
Qed.

(** Nobody has claimed blocks of a file that is not downloaded. *)
Lemma claims_none f st : inv None st -> phase (tasks st f) <> PDownloading -> Parts.claims (parts (tasks st f)) = [].
Proof.
  intros Hi Hp. destruct (Parts.claims (parts (tasks st f))) as [|[b k] l] eqn:E; [done|].
  pose proof (inv_claims _ _ _ _ Hi f (Parts.owner k)) as Hc. rewrite decide_False in Hc by by apply (inv_nobody _ _ f _ st Hi).
  apply Permutation_nil_r in Hc. assert (Hin : (b, Parts.cend k) ∈ own (Parts.owner k) (parts (tasks st f))).
  { apply own_in. exists k. rewrite E. split_and!; [by left|done|done]. }
  rewrite Hc in Hin. by apply elem_of_nil in Hin.
Qed.
Lemma create_unverified n i v : Parts.isVerified (Parts.create n) i = Some v -> v = false.
Proof. unfold Parts.isVerified, Parts.create. cbn. intros [-> _]%lookup_replicate. done. Qed.

(** The task before the file is opened: with the record of the download, or
    with nothing. *)
Definition opening (content' : bytes) q pieces waiting t : Task :=
  set_pieceHashes pieces (set_waitingForHashSet waiting (set_parts q (set_content content' (set_unchecked false
    (set_waitingForHashSet [] (set_parts (Parts.create (size t)) (set_phase POpening t))))))).
Definition pieces_ok t (pieces : list bytes) : Prop :=
  pieces = [] \/ (len pieces = hashSetPartCount (size t) /\ rootHash pieces = Ok (hash t)).
Lemma sound_open t truncate check :
  honest t -> handlers t = [] -> unchecked t = false ->
  (truncate = false /\ len (content t) = size t \/ forall i, isPart t i -> Parts.isVerified (parts t) i = Some false) ->
  sound (set_jobs [Open truncate check] t).
Proof.
  intros [Hv Hn Hnd] Eh Eu Ho. constructor; [constructor; [|exact Hn|exact Hnd]|..].
  - intros i Hi Hi'. destruct (Hv i Hi Hi') as [He _]. split; [exact He|]. intros b d Hin. by apply list_elem_of_singleton in Hin.
  - intros a b [= -> ->]%list_elem_of_singleton. exact Ho.
  - by intros [|k] i e.
  - cbn [handlers set_jobs]. rewrite Eh. by intros i er d e ?%elem_of_nil.
  - unfold verifying. cbn [handlers jobs set_jobs]. rewrite Eh. constructor.
  - cbn [handlers jobs set_jobs]. rewrite Eh. by intros i e [?%list_elem_of_singleton|(? & ? & ?%elem_of_nil)].
  - cbn [unchecked set_jobs]. congruence.
Qed.
Lemma data_open f t content' q pieces waiting truncate check :
  data_ok false f t -> phase t = PIdle -> Parts.size q = size t -> unhashed q waiting -> (check = true -> waiting = []) ->
  pieces_ok t pieces ->
  (strict = true -> honest (opening content' q pieces waiting t)) ->
  (truncate = false /\ len content' = size t \/ forall i, 0 <= i < Parts.count q -> Parts.isVerified q i = Some false) ->
  data_ok false f (set_jobs [Open truncate check] (opening content' q pieces waiting t)).
Proof.
  intros Hd Hp Es Hw Hc Hpieces Hh Ho. pose proof (d_life _ _ _ _ _ Hd) as Hl. rewrite Hp in Hl. destruct Hl as [[Ej Eh]|[_ [? _]]]; [|done].
  assert (Hst : stuck f = None) by (apply (not_stuck strict stuck _ _ _ Hd); left; congruence).
  destruct Hd as [Hhash _ _ _ _ _ _ _ _ _ _ _ _].
  constructor; cbn [hash phase jobs handlers opening set_pieceHashes set_waitingForHashSet set_parts set_content set_unchecked set_phase set_jobs]; try done; try (intros told Hs; congruence).
  - unfold pieces_ok in Hpieces. rewrite <- Es in Hpieces. exact Hpieces.
  - left. left. by exists truncate, check.
  - by constructor; [split|constructor].
  - rewrite Eh. constructor.
  - intros [?|[?|[?|(b & d & Hin)]]]; try done. by apply list_elem_of_singleton in Hin.
  - intros [?|[? _]]; done.
  - intros Hs. apply sound_open; [exact (Hh Hs)|exact Eh|done|]. rewrite <- Es in Ho. exact Ho.
Qed.

Lemma honest_jobs t js : jobs t = [] -> honest (set_jobs js t) -> honest t.
Proof.
  intros Ej [Hv Hn Hnd]. constructor; [|exact Hn|exact Hnd]. intros i Hi Hi'. destruct (Hv i Hi Hi') as [He _]. split; [exact He|].
  rewrite Ej. by intros b d ?%elem_of_nil.
Qed.
Lemma sound_idle t : honest t -> jobs t = [] -> handlers t = [] -> unchecked t = false -> sound t.
Proof.
  intros Hh Ej Eh Eu. constructor; rewrite ?Ej, ?Eh; try done.
  - by intros a b ?%elem_of_nil.
  - by intros i er d e ?%elem_of_nil.
  - unfold verifying. rewrite Ej, Eh. constructor.
  - by intros i e [?%elem_of_nil|(? & ? & ?%elem_of_nil)].
  - congruence.
Qed.
Lemma honest_unverified t :
  (forall i, isPart t i -> Parts.isVerified (parts t) i = Some false) -> waitingForHashSet t = [] -> honest t.
Proof. intros Hv Hw. constructor; [|by auto|rewrite Hw; constructor]. intros i Hi. rewrite (Hv i Hi). done. Qed.
Lemma savedPieces_ok t s : pieces_ok t (pieceHashes t) -> pieces_ok t (savedPieces t s).
Proof.
  intros Hp. unfold savedPieces. destruct (pieceHashes t) as [|h l]; [|exact Hp]. destruct (link s) as [[h pieces]|]; [|by left].
  destruct (bool_decide (h = hash t) && (len pieces =? hashSetPartCount (size t))) eqn:E; [|by left]. zprop.
  destruct (rootHash pieces) as [root|] eqn:Er; [|by left]. destruct (bool_decide (root = hash t)) eqn:Eb; [|by left].
  apply bool_decide_eq_true in Eb as ->. by right.
Qed.

Lemma idle_jobs f st : inv None st -> phase (tasks st f) = PIdle -> jobs (tasks st f) = [] /\ handlers (tasks st f) = [].
Proof.
  intros Hi Hp. pose proof (inv_data_strict _ _ f st Hi) as Hd. destruct (d_life _ _ _ _ _ Hd) as [Hl|[? _]]; [|done].
  by rewrite Hp in Hl.
Qed.
Lemma inv_idle f g st :
  inv None st -> phase (tasks st f) = PIdle -> data_ok false f (g (tasks st f)) -> Parts.parts_ok (parts (g (tasks st f))) ->
  Parts.claims (parts (g (tasks st f))) = [] -> inv None (onTask f g st).
Proof.
  intros Hi Hp Hd Hq Ec. apply inv_onTask; [done| | |].
  - split; [|by rewrite bool_decide_eq_false_2]. split; [done|]. rewrite Ec. constructor.
  - rewrite Ec, (claims_none f st Hi); [done|congruence].
  - intros _ c Hc. destruct (inv_nobody _ _ f c st Hi ltac:(congruence) Hc).
Qed.
Lemma inv_opening f content' q pieces waiting truncate check st :
  inv None st -> phase (tasks st f) = PIdle -> Parts.parts_ok q -> Parts.claims q = [] -> Parts.size q = size (tasks st f) ->
  unhashed q waiting -> (check = true -> waiting = []) -> pieces_ok (tasks st f) pieces ->
  (truncate = false /\ len content' = size (tasks st f) \/ forall i, 0 <= i < Parts.count q -> Parts.isVerified q i = Some false) ->
  let st' := post f (Open truncate check) (onTask f (fun _ => opening content' q pieces waiting (tasks st f)) st) in
  (strict = true -> honest (tasks st' f)) -> inv None st'.
Proof.
  intros Hi Hp Hq Ec Es Hw Hck Hpieces Ho st' Hh. destruct (idle_jobs f st Hi Hp) as [Ej Eh].
  unfold st', post in *. eapply inv_quiet; [apply onTask_twice|]. rewrite !tasks_onTask in Hh.
  assert (Ej1 : jobs (opening content' q pieces waiting (tasks st f)) = []) by exact Ej.
  apply inv_idle; [done|done| |exact Hq|exact Ec]. rewrite Ej1. apply data_open; try done; [by apply inv_data_strict|].
  intros Hs. exact (honest_jobs _ _ Ej1 (Hh Hs)).
Qed.

Lemma create_parts t :
  Parts.parts_ok (parts t) -> Parts.parts_ok (Parts.create (R := RangeSet.t) (size t)) /\
  forall i, 0 <= i < Parts.count (Parts.create (R := RangeSet.t) (size t)) -> Parts.isVerified (Parts.create (R := RangeSet.t) (size t)) i = Some false.
Proof.
  intros (_ & Hs & _). split; [by apply Parts.parts_create_ok|]. intros i Hi.
  destruct (Parts.isVerified_in _ _ Hi) as [v Hv]. rewrite Hv. f_equal. by eapply create_unverified.
Qed.
Lemma ownFile_length t w s : ownFile t w = Some s -> exists old time, file w = Some (old, time) /\ len old = size t.
Proof.
  unfold ownFile. destruct (record w); [|done]. destruct (file w) as [[old time]|]; [|done].
  destruct (bool_decide _ && (len old =? size t) && _) eqn:E; [|done]. zprop. by exists old, time.
Qed.
(** A file that cannot be opened. *)
Lemma data_fresh f t content' :
  data_ok false f t -> phase t = PIdle -> Parts.parts_ok (parts t) ->
  data_ok false f (tell Failed (set_phase PIdle (set_content content' (set_unchecked false (set_waitingForHashSet []
    (set_parts (Parts.create (size t)) (set_phase POpening t))))))).
Proof.
  intros Hd Hp Hpo. pose proof (d_life _ _ _ _ _ Hd) as Hl. rewrite Hp in Hl. destruct Hl as [[Ej Eh]|[_ [? _]]]; [|done].
  destruct (create_parts t Hpo) as [_ Hun]. destruct Hd as [Hhash Hpieces _ Hstuck _ _ _ _ _ _ _ _ _].
  constructor; cbn [hash phase jobs handlers tell set_reports set_waitingForHashSet set_parts set_content set_unchecked set_phase];
    rewrite ?Ej, ?Eh; try done.
  - by left.
  - intros told Hst. rewrite Hp in Hstuck. by destruct (Hstuck told Hst).
  - intros [?|[?|[?|(b & d & Hin)]]]; try done. by apply elem_of_nil in Hin.
  - intros [?|[? _]]; done.
  - intros _. apply sound_idle; [|exact Ej|exact Eh|done]. apply honest_unverified; [exact Hun|done].
Qed.
Lemma inv_open f w st :
  inv None st -> phase (tasks st f) = PIdle -> (strict = true -> honest (tasks (open f w st).1 f)) -> fine None (open f w st).
Proof.
  intros Hi Hp Hh. pose proof (inv_data_strict _ _ f st Hi) as Hd. pose proof (inv_parts _ _ _ f st Hi) as Hpo.
  destruct (create_parts (tasks st f) Hpo) as [Hc Hun].
  assert (Hps : pieces_ok (tasks st f) (pieceHashes (tasks st f))) by exact (d_pieces _ _ _ _ _ Hd).
  unfold open in *. destruct (ownFile (tasks st f) w) as [s|] eqn:Eo.
  - destruct (ownFile_length _ _ _ Eo) as (old & time & Ef & Hlen). rewrite Ef in *.
    cbn [parts set_content set_unchecked set_waitingForHashSet set_parts set_phase] in *.
    destruct (restoreParts_spec (imap (fun i v => (Z.of_nat i, v)) (savedParts s)) (Parts.create (size (tasks st f))) Hc)
      as (p & Ep & Hpk & Es & Ec); [apply (imap_indices (savedParts s) (fun i => i))|].
    rewrite Ep in *. cbn [mbind option_bind] in *.
    destruct (restoreReceived_spec (savedReceived s) p [] Hpk) as (q & waiting & Eq & Hq & Es' & Ec' & Hw); [constructor|].
    rewrite Eq in *. apply fine_done.
    refine (inv_opening f old q (savedPieces (tasks st f) s) waiting false false st Hi Hp Hq _ _ Hw _ _ _ Hh).
    + by rewrite Ec', Ec.
    + by rewrite Es', Es.
    + done.
    + by apply savedPieces_ok.
    + by left.
  - destruct (pickFile (tasks st f) w) as [[truncate check]|].
    + apply fine_done.
      refine (inv_opening f (match file w with Some (old, _) => old | None => [] end) (Parts.create (size (tasks st f))) (pieceHashes (tasks st f)) []
        truncate check st Hi Hp Hc _ _ _ _ _ _ Hh); try done.
      * constructor.
      * by right.
    + apply fine_done, inv_idle; [done|done| |exact Hc|done]. by apply data_fresh.
Qed.

Lemma set_phase_same t ph : phase t = ph -> set_phase ph t = t.
Proof. by intros <-; destruct t. Qed.
Lemma fine_start f taken w st :
  inv None st -> (strict = true -> honest (tasks (start f taken w st).1 f)) -> fine None (start f taken w st).
Proof.
  intros Hi Hh. unfold start in *. destruct (bool_decide (phase (tasks st f) <> PIdle)) eqn:Ep; [done|].
  apply bool_decide_eq_false, dec_stable in Ep. destruct taken; [apply fine_done, inv_tell; [done|congruence]|].
  apply inv_open; [|by rewrite tasks_onTask|done]. pose proof (inv_data_strict _ _ f st Hi) as Hd.
  destruct (idle_jobs f st Hi Ep) as [Ej Eh].
  apply inv_step_parts; try done. rewrite bool_decide_eq_false_2 by done.
  apply (data_ok_same strict stuck false f (set_phase PIdle (set_ending OStop (tasks st f)))).
  { by rewrite (set_phase_same (set_ending OStop (tasks st f)) PIdle). }
  apply data_phase; try done; [apply (not_stuck strict stuck _ _ _ Hd); left; congruence|by intros [?|[?|?]]|by intros [?|[? _]]].
Qed.

(** ** The handlers of the disk thread *)

Lemma popped_closing f t h rest :
  data_ok false f t -> handlers t = h :: rest -> (forall a b, h <> Opened a b) -> phase t <> PChecking ->
  ~ openingFile (jobs t) rest.
Proof.
  intros Hd E Hh Hp Ho. destruct (d_life _ _ _ _ _ Hd) as [Hl|[? _]]; [|done]. rewrite E in Hl.
  assert (Hno : forall P Q, (forall a b, ~ P (Open a b)) -> (forall a b, ~ Q (Opened a b)) ->
    ~ (Forall P (jobs t) /\ Forall Q (h :: rest))).
  { intros P Q HP HQ [HPs [_ HQs]%Forall_cons].
    destruct Ho as [(a & b & Ej & _)|(a & b & _ & ->)]; [rewrite Ej in HPs|];
      [exact (HP a b (proj1 (Forall_singleton _ _) HPs))|exact (HQ a b (proj1 (Forall_singleton _ _) HQs))]. }
  destruct (phase t); try done.
  - by destruct Hl.
  - destruct Hl as [(? & ? & _ & ?)|(? & ? & _ & [= Eh _])]; [done|by destruct (Hh _ _ Eh)].
  - by apply Hno in Hl; [|intros ? ? []..].
  - by apply Hno in Hl; [|intros ? ? []..].
  - destruct Hl as [Hl|[Hl|[Hl|Hl]]]; [|destruct Hl as [[_ ?]|[Ej [= _ ->]]]; [done|]|by apply Hno in Hl; [|intros ? ? []..]..].
    + destruct Hl as [(? & ? & _ & ?)|(? & ? & _ & [= Eh _])]; [done|by destruct (Hh _ _ Eh)].
    + destruct Ho as [(? & ? & ? & _)|(? & ? & _ & ?)]; congruence.
Qed.
Lemma fine_popped f h rest st :
  inv None st -> handlers (tasks st f) = h :: rest -> (forall a b, h <> Opened a b) ->
  phase (tasks st f) <> POpening /\
  ((forall i e d, h <> Digested i e d CheckLocal) \/ phase (tasks st f) = PClosing -> inv None (onTask f (set_handlers rest) st)).
Proof.
  intros Hi E Hh. pose proof (inv_data_strict _ _ f st Hi) as Hd. assert (Hp : phase (tasks st f) <> POpening).
  { intros Hp. destruct (d_life _ _ _ _ _ Hd) as [Hl|[? _]]; [|done]. rewrite Hp, E in Hl.
    destruct Hl as [(? & ? & _ & ?)|(? & ? & _ & [= Eh _])]; [done|by destruct (Hh _ _ Eh)]. }
  split; [done|]. intros Hc. apply (inv_pop f _ _ _ Hi E Hp). intros Hck. destruct Hc; [done|congruence].
Qed.
Lemma fine_quiesced f h rest st :
  inv None st -> handlers (tasks st f) = h :: rest -> (forall a b, h <> Opened a b) ->
  (forall i e d, h <> Digested i e d CheckLocal) \/ phase (tasks st f) = PClosing ->
  inv None (quiesce f (onTask f (set_handlers rest) st)).
Proof.
  intros Hi E Hh Hc. destruct (fine_popped f h rest st Hi E Hh) as [Hp Hi1]. specialize (Hi1 Hc).
  pose proof (inv_data_strict _ _ f st Hi) as Hd.
  destruct (decide (phase (tasks st f) = PClosing)) as [Hcl|Hcl]; cycle 1.
  { unfold quiesce. rewrite tasks_onTask. cbn [phase set_handlers]. by rewrite bool_decide_eq_false_2. }
  apply inv_quiesce; [done|apply (not_stuck strict stuck _ _ _ Hd); rewrite E; by right; right|].
  rewrite tasks_onTask. by apply (popped_closing f (tasks st f) h rest); [..|congruence].
Qed.

(** A part that cannot be read. *)
Lemma inv_unread f h rest l st :
  inv None st -> handlers (tasks st f) = h :: rest -> (forall a b, h <> Opened a b) -> phase (tasks st f) <> PClosing ->
  inv None (finish f OFail l (onTask f (set_handlers rest) st)).
Proof.
  intros Hi E Hh Hp. destruct (fine_popped f h rest st Hi E Hh) as [Hop _]. pose proof (inv_data_strict _ _ f st Hi) as Hd.
  assert (Hid : phase (tasks st f) <> PIdle).
  { intros Hid. destruct (idle_jobs f st Hi Hid) as [_ Eh]. congruence. }
  assert (Hi1 : inv (Some f) (onTask f (set_handlers rest) st)).
  { apply inv_step_parts; [by apply inv_loosen| |done..]. rewrite bool_decide_eq_true_2 by done.
    eapply data_pop; [exact (data_ok_loosen _ _ _ _ _ Hd)|exact E|done|done]. }
  apply inv_finish; rewrite ?tasks_onTask; try done.
  - intros c Hc. by apply (inv_listed _ _ _ _ Hi c f).
  - exact (inv_unchecked _ _ f st Hi).
Qed.
Lemma inv_closed_ f rest st :
  inv None st -> handlers (tasks st f) = Closed_ :: rest ->
  inv None (onTask f (fun t =>
    let t := set_phase PIdle t in
    if stopped t then tell Stopped (set_stopped false t)
    else match ending t with OComplete => tell Completed t | OFail => tell Failed t | OStop => t end)
    (onTask f (set_handlers rest) st)).
Proof.
  intros Hi E. destruct (fine_popped f Closed_ rest st Hi E) as [_ Hi1]; [done|]. specialize (Hi1 ltac:(by left)).
  pose proof (inv_data_strict _ _ f st Hi) as Hd. pose proof (inv_data_strict _ _ f _ Hi1) as Hd1. rewrite tasks_onTask in Hd1.
  assert (Hj : jobs (tasks st f) = [] /\ rest = [] /\ phase (tasks st f) <> PDownloading).
  { destruct (d_life _ _ _ _ _ Hd) as [Hl|[? _]]; [|done]. rewrite E in Hl. destruct (phase (tasks st f)); cbn [life] in Hl.
    - by destruct Hl.
    - by destruct Hl as [(? & ? & _ & ?)|(? & ? & _ & ?)].
    - by destruct Hl as [_ [[] _]%Forall_cons].
    - by destruct Hl as [_ [[] _]%Forall_cons].
    - by destruct Hl as [_ [[] _]%Forall_cons].
    - destruct Hl as [[(? & ? & _ & ?)|(? & ? & _ & ?)]|[[[_ ?]|[? [= ->]]]|[[_ [[] _]%Forall_cons]|[_ [[] _]%Forall_cons]]]]; done. }
  destruct Hj as (Ej & -> & Hp). set (st1 := onTask f (fun t => set_phase PIdle (set_ending (ending t) (set_handlers [] t))) st).
  assert (Hi2 : inv None st1).
  { apply inv_step_parts; try done. rewrite bool_decide_eq_false_2 by done.
    apply data_phase; try done; [apply (not_stuck strict stuck _ _ _ Hd); rewrite E; by right; right|by intros [?|[?|?]]|by intros [?|[? _]]]. }
  assert (Hi3 : forall r, inv None (onTask f (tell r) st1)).
  { intros r. apply inv_tell; [done|]. unfold st1. by rewrite tasks_onTask. }
  eapply inv_quiet; [apply onTask_twice|].
  apply (inv_quiet _ _ _ (if stopped (tasks st f) then onTask f (tell Stopped) st1
    else match ending (tasks st f) with OComplete => onTask f (tell Completed) st1 | OFail => onTask f (tell Failed) st1 | OStop => st1 end)).
  - split; [intros c; by destruct (stopped (tasks st f)), (ending (tasks st f))|]. intros k. destruct (decide (f = k)) as [<-|].
    + rewrite tasks_onTask. cbn [stopped set_phase set_handlers ending].
      destruct (stopped (tasks st f)), (ending (tasks st f)) eqn:Ee; unfold st1; rewrite !tasks_onTask; unfold sameTask, plain; cbn; by rewrite ?Ee.
    + rewrite tasks_onTask_ne by done. destruct (stopped (tasks st f)), (ending (tasks st f)); unfold st1; by rewrite !tasks_onTask_ne.
  - destruct (stopped (tasks st f)), (ending (tasks st f)); auto.
Qed.

Lemma fine_complete e f links l st : inv None st -> fine None (complete e f links l st).
Proof.
  intros Hi. unfold complete. destruct (handlers (tasks st f)) as [|h rest] eqn:E; [done|].
  destruct h as [er c|er|i er d u| |].
  - by apply fine_opened.
  - destruct (fine_popped f _ rest st Hi E) as [_ Hi1]; [done|]. branch; apply fine_done.
    + apply inv_ending; [|done]. apply Hi1. by left.
    + eapply fine_quiesced; [done|exact E|done|by left].
  - branch.
    { apply bool_decide_eq_true in Heqb. apply fine_done. eapply fine_quiesced; [done|exact E|done|by right]. }
    apply bool_decide_eq_false in Heqb. destruct er; [apply fine_done; by eapply inv_unread|].
    destruct u; [by eapply fine_partVerified|by eapply fine_checkedKnown|by eapply fine_checkedLocal].
  - apply fine_done. eapply fine_quiesced; [done|exact E|done|by left].
  - apply fine_done. by apply inv_closed_.
Qed.

(** ** Packets *)

Lemma fine_onHashSet c payload l st : inv None st -> fine None (onHashSet c payload l st).
Proof.
  intros Hi. unfold onHashSet. destruct (downloadFile (peers st c)) as [f|] eqn:Ef; [|done].
  destruct (PeerProtocol.parseHashSetAnswerPayload _ _ _) as [[[] hashes]|]; [|done..].
  destruct (needsHashSet (tasks st f)) eqn:En; [|by apply fine_requestUpload].
  destruct (hashSetFits (tasks st f) hashes) as [[]|] eqn:Eh; [|done..].
  apply fine_andThen; [|intros; by apply fine_requestUpload].
  unfold hashSetFits in Eh. destruct (Z.eqb_spec (len hashes) (hashSetPartCount (size (tasks st f)))); [|done].
  destruct (rootHash hashes) as [root|] eqn:Er; [|done]. injection Eh as ->%bool_decide_eq_true.
  apply fine_takeHashSet; try done. by apply (inv_listed _ _ _ _ Hi c f).
Qed.
Lemma fine_onAccept o e c st : inv o st -> connection (peers st c) <> None -> fine o (onAccept e c st).
Proof.
  intros Hi Hc. unfold onAccept. destruct (downloadFile (peers st c)) as [f|] eqn:Ef; [|apply fine_done; eapply inv_quiet, Hi; apply quiet_send].
  branch; [|apply fine_done; eapply inv_quiet, Hi; apply quiet_send]. destruct (connection (peers st c)); [|done].
  apply fine_requestBlocks, inv_state; try done. by rewrite Ef.
Qed.
Lemma readUInt32_long (p : bytes) : 4 <= len p -> exists v, readUInt32 p = Ok v.
Proof.
  intros Hp. unfold readUInt32. destruct (at_inside p 0) as [b0 ->]; [lia|]. destruct (at_inside p 1) as [b1 ->]; [lia|].
  destruct (at_inside p 2) as [b2 ->]; [lia|]. destruct (at_inside p 3) as [b3 ->]; [lia|]. by eexists.
Qed.
Lemma readUInt64_long (p : bytes) : 8 <= len p -> exists v, readUInt64 p = Ok v.
Proof.
  intros Hp. unfold readUInt64. cbn [foldl].
  destruct (at_inside p 0) as [b0 ->]; [lia|]. destruct (at_inside p 1) as [b1 ->]; [lia|].
  destruct (at_inside p 2) as [b2 ->]; [lia|]. destruct (at_inside p 3) as [b3 ->]; [lia|].
  destruct (at_inside p 4) as [b4 ->]; [lia|]. destruct (at_inside p 5) as [b5 ->]; [lia|].
  destruct (at_inside p 6) as [b6 ->]; [lia|]. destruct (at_inside p 7) as [b7 ->]; [lia|]. by eexists.
Qed.
(** Where the data of a packet begins, in the file or in a compressed block. *)
Definition packetOffset (large : bool) (payload : bytes) : option Z :=
  match (if large then readUInt64 (drop 16 payload) else readUInt32 (drop 16 payload)) with
  | Ok begin => Some (i64 begin)
  | Err _ => None
  end.
Lemma fine_onSendingPart o e c large payload st :
  inv o st -> (strict = true -> forall x, packetOffset large payload = Some x -> late c x st = false) -> fine o (onSendingPart e c large payload st).
Proof.
  intros Hi Ht. unfold onSendingPart.
  destruct (Z.ltb_spec (len payload) (HASH_LENGTH + 2 * (if large then 8 else 4))) as [|Hlen]; [done|].
  assert (Hn : forall k, 0 <= k -> k + (if large then 8 else 4) <= len payload ->
    exists v, (if large then readUInt64 (drop (Z.to_nat k) payload) else readUInt32 (drop (Z.to_nat k) payload)) = Ok v).
  { intros k H0 Hk. assert (len (drop (Z.to_nat k) payload) = len payload - k) by (unfold len in *; rewrite length_drop; destruct large; lia).
    destruct large; [apply readUInt64_long; lia|apply readUInt32_long; lia]. }
  destruct (Hn 16) as [v1 E1]; [done|unfold HASH_LENGTH in *; destruct large; lia|].
  change (Z.to_nat 16) with 16%nat in E1. rewrite E1.
  destruct (Hn (HASH_LENGTH + if large then 8 else 4)) as [v2 E2]; [by destruct large|unfold HASH_LENGTH in *; destruct large; lia|].
  rewrite E2. apply fine_receiveBlock; [done|]. intros Es. apply (Ht Es). unfold packetOffset. by rewrite E1.
Qed.
Lemma fine_onCompressedPart o e c large payload st :
  inv o st ->
  (strict = true -> forall begin x, packetOffset large payload = Some begin -> inflatedTo c begin st = Some x -> late c x st = false) ->
  fine o (onCompressedPart e c large payload st).
Proof.
  intros Hi Ht. unfold onCompressedPart.
  destruct (Z.ltb_spec (len payload) (HASH_LENGTH + (if large then 8 else 4) + 4)) as [|Hlen]; [done|].
  assert (len (drop 16 payload) = len payload - 16) by (unfold HASH_LENGTH, len in *; rewrite length_drop; destruct large; lia).
  assert (Hv : exists v, (if large then readUInt64 (drop 16 payload) else readUInt32 (drop 16 payload)) = Ok v).
  { unfold HASH_LENGTH in *. destruct large; [apply readUInt64_long; lia|apply readUInt32_long; lia]. }
  destruct Hv as [v Ev]. rewrite Ev. apply fine_receiveCompressed; [done|]. intros Es x. apply (Ht Es). unfold packetOffset. by rewrite Ev.
Qed.

(** ** Runs *)

(** The connection that grants an upload slot is there. *)
Definition allowed (ev : event) st : Prop :=
  match ev with Accept _ c => connection (peers st c) <> None | _ => True end.
(** A packet with data has none of a part that is full, and the record that a
    start reads is right. *)
Definition truthful (ev : event) st : Prop :=
  match ev with
  | SendingPart _ c large payload => forall x, packetOffset large payload = Some x -> late c x st = false
  | CompressedPart _ c large payload =>
      forall begin x, packetOffset large payload = Some begin -> inflatedTo c begin st = Some x -> late c x st = false
  | Start f taken w => honest (tasks (start f taken w st).1 f)
  | _ => True
  end.

Lemma inv_runJob f error st : inv None st -> inv None (runJob f error st).
Proof.
  intros Hi. destruct (runFirst_parts error (tasks st f)) as (E1 & E2 & E3).
  apply inv_step_parts; try done; [|by rewrite E2]. rewrite bool_decide_eq_false_2 by done.
  apply data_runs; [by apply inv_data_strict|by apply (inv_parts _ _ _ f st Hi)].
Qed.
Lemma fine_exec ev st : inv None st -> allowed ev st -> (strict = true -> truthful ev st) -> fine None (exec ev st).
Proof.
  intros Hi Ha Ht. assert (Hq : forall c g, core (g (peers st c)) = core (peers st c) -> fine None (onPeer c g st, Done)).
  { intros c g E. apply fine_done. eapply inv_quiet, Hi. by apply quiet_peer. }
  destruct ev; cbn [exec allowed truthful] in *; unfold pure.
  - by apply fine_done, inv_addSource.
  - by apply Hq.
  - by apply fine_adopt.
  - by apply fine_handshakeDone.
  - by apply fine_done, inv_sourceFailed.
  - by apply fine_done, inv_sourceClosed.
  - by apply Hq.
  - by apply fine_onFileName.
  - by apply fine_onFileStatus.
  - by apply fine_onMultipacket.
  - by apply fine_onNoFile.
  - by apply fine_onHashSet.
  - by apply fine_onAccept.
  - by apply fine_onQueueRank.
  - by apply fine_onQueueRanking.
  - by apply fine_onOutOfParts.
  - by apply fine_onSendingPart.
  - by apply fine_onCompressedPart.
  - by apply fine_onReaskAck.
  - by apply Hq.
  - by apply fine_done, inv_onFileNotFound.
  - by apply fine_runSchedule.
  - by apply fine_tickClient.
  - by apply fine_tickTask.
  - by apply fine_done, inv_runJob.
  - by apply fine_complete.
  - by apply fine_start.
  - by apply fine_done, inv_stop.
Qed.

(** Every event finds what it needs. *)
Fixpoint history (ok : event -> state -> Prop) (evs : list event) st : Prop :=
  match evs with [] => True | ev :: evs => ok ev st /\ history ok evs (exec ev st).1 end.
Lemma exec_run evs : forall st,
  inv None st -> history allowed evs st -> (strict = true -> history truthful evs st) ->
  exists st', exec_all evs st = Some st' /\ inv None st'.
Proof.
  induction evs as [|ev evs IH]; intros st Hi Ha Ht; [by exists st|]. destruct Ha as [Ha Has].
  destruct (fine_exec ev st Hi Ha) as [Hi' Hc]; [intros Es; by destruct (Ht Es)|].
  destruct (IH _ Hi' Has) as (st' & Est & Hi''); [intros Es; by destruct (Ht Es)|]. exists st'. split; [|done].
  rewrite <- Est. unfold exec_all. cbn [foldl]. unfold step at 2. cbn. destruct (exec ev st) as [st1 []]; done.
Qed.

End run.
End DownloadRun.
