(* ===== verification/DownloadTheorems.v ===== *)
(** * What downloads guarantee

    The theorems on the runs of [Download], from tasks and clients as they are
    created. *)

From stdpp Require Import gmap functions.
From S2P Require Import Prelude Bytes Wire Packet Hash Ranges Parts PeerProtocol.
From S2P Require Import Download DownloadInvariant DownloadData DownloadSteps DownloadRun.

Module DownloadTheorems.
Import Bytes Wire Packet Hash Download DownloadInvariant DownloadData DownloadSteps DownloadRun.

Section theorems.
Context `{Zlib}.
Implicit Types (st : state) (t : Task) (evs : list event).

Lemma exec_all_cons ev evs st : (exec ev st).2 <> Crashed -> exec_all (ev :: evs) st = exec_all evs (exec ev st).1.
Proof. intros Hc. unfold exec_all. cbn [foldl]. unfold step at 2. cbn. by destruct (exec ev st) as [st1 []]. Qed.
Lemma exec_all_app evs evs' st st' : exec_all evs st = Some st' -> exec_all (evs ++ evs') st = exec_all evs' st'.
Proof. unfold exec_all. rewrite foldl_app. by intros ->. Qed.

(** ** The first state *)

(** Clients that no task knows, and tasks of links that were not started; the
    parser of links checks the hash and the size. *)
Definition initial st : Prop :=
  (forall c, exists lowId noUpload multiPacket reaskable, peers st c = newClient lowId noUpload multiPacket reaskable) /\
  forall f, exists hash size_ pieces preview seedDone,
    len hash = HASH_LENGTH /\ 0 < size_ /\ newTask hash size_ pieces preview seedDone = Ok (tasks st f).

Lemma newTask_pieces hash size_ pieces preview seedDone t :
  newTask hash size_ pieces preview seedDone = Ok t ->
  exists pieces', (pieces' = [] \/ (len pieces' = hashSetPartCount size_ /\ rootHash pieces' = Ok hash)) /\
    t = mkTask hash preview seedDone (Parts.create size_) pieces' [] PIdle [] false [] false 0 [] [] [] OStop false [].
Proof.
  unfold newTask. monad. destruct ((0 <? hashSetPartCount size_) && (len pieces =? hashSetPartCount size_)) eqn:E.
  - zprop. destruct (rootHash pieces) as [root|] eqn:Er; [|done]. destruct (decide (root = hash)) as [->|Hne].
    + rewrite bool_decide_eq_true_2 by done. intros [= <-]. exists pieces. split; [by right|done].
    + rewrite bool_decide_eq_false_2 by done. intros [= <-]. exists []. split; [by left|done].
  - intros [= <-]. exists []. split; [by left|done].
Qed.
Lemma newTask_ok strict (stuck : Z -> option (list report)) f hash size_ pieces preview seedDone t :
  stuck f = None -> len hash = HASH_LENGTH -> 0 < size_ -> newTask hash size_ pieces preview seedDone = Ok t ->
  data_ok strict stuck false f t /\ parts t = Parts.create size_.
Proof.
  intros Hst Hh Hs (pieces' & Hp & ->)%newTask_pieces. split; [|done]. constructor; try done; try (intros told Hf; congruence).
  - by left.
  - intros [?|[?|[?|(b & d & Hin)]]]; try done. by apply elem_of_nil in Hin.
  - by intros [?|[? _]].
  - intros _. apply sound_idle; try done. apply honest_unverified; [|done]. intros i Hi.
    destruct (Parts.isVerified_in _ _ Hi) as [v Hv]. rewrite Hv. f_equal. by eapply create_unverified.
Qed.
Lemma initial_inv strict (stuck : Z -> option (list report)) st : (forall f, stuck f = None) -> initial st -> inv strict stuck None st.
Proof.
  intros Hst [Hp Ht]. constructor.
  - intros c. by destruct (Hp c) as (? & ? & ? & ? & ->).
  - intros c. by destruct (Hp c) as (? & ? & ? & ? & ->).
  - intros c. by destruct (Hp c) as (? & ? & ? & ? & ->).
  - intros c. destruct (Hp c) as (? & ? & ? & ? & ->). constructor.
  - intros c f. by destruct (Hp c) as (? & ? & ? & ? & ->).
  - intros f c. destruct (Hp c) as (? & ? & ? & ? & ->). destruct (Ht f) as (h & s & ps & pr & sd & H1 & H2 & H3).
    destruct (newTask_ok strict stuck f h s ps pr sd _ (Hst f) H1 H2 H3) as [_ ->]. done.
  - intros f. destruct (Ht f) as (h & s & ps & pr & sd & H1 & H2 & H3).
    destruct (newTask_ok strict stuck f h s ps pr sd _ (Hst f) H1 H2 H3) as [Hd E].
    split; [|by rewrite bool_decide_eq_false_2]. rewrite E. split; [by apply Parts.parts_create_ok|constructor].
Qed.

(** ** Blocks and claims *)

(** C3. Whatever packets, connections, timers and disk errors come in whatever
    order, no handler uses a file that a source no longer has or an index
    outside a table, and the books agree: the blocks that a source has asked
    for are exactly the blocks claimed in its name in the table of its file,
    and no other file has claims of it; they are at most three, disjoint, and
    only there while it has an upload slot; a source has a file exactly while
    it is in a state of a download, and the file then downloads and lists it. *)
Theorem download_books_balance st evs :
  initial st -> history allowed evs st ->
  exists st', exec_all evs st = Some st' /\
    forall c, let s := peers st' c in
      (downloadFile s = None <-> download s = NotSource) /\
      (blocks s <> [] -> download s = Downloading) /\ len (blocks s) <= blocksAhead /\
      StronglySorted Parts.disjoint (blocks s) /\
      forall f, (downloadFile s = Some f -> c ∈ sources (tasks st' f) /\ phase (tasks st' f) = PDownloading) /\
        own c (parts (tasks st' f)) ≡ₚ (if decide (downloadFile s = Some f) then blocks s else []).
Proof.
  intros Hi Ha. destruct (exec_run false (fun _ => None) evs st) as (st' & E & Hinv); [by apply initial_inv; auto|done|done|].
  exists st'. split; [done|]. intros c s. split_and!.
  - apply (inv_file _ _ _ _ Hinv).
  - apply (inv_busy _ _ _ _ Hinv).
  - apply (inv_ahead _ _ _ _ Hinv).
  - apply (inv_apart _ _ _ _ Hinv).
  - intros f. split; [by apply (inv_listed _ _ _ _ Hinv)|apply (inv_claims _ _ _ _ Hinv)].
Qed.

(** C17. Nothing is written outside the file: whatever offsets and lengths the
    packets of the sources claim, compressed or not, each write that is queued
    for the disk thread is non-empty and lies inside the file and inside one
    part of it, and only parts of the file are hashed. *)
Theorem writes_stay_in_the_file st evs :
  initial st -> history allowed evs st ->
  exists st', exec_all evs st = Some st' /\
    forall f j, let t := tasks st' f in j ∈ jobs t ->
      match j with
      | Write begin data => 0 <= begin < begin + len data /\ begin + len data <= size t /\
          exists i, (Parts.part (parts t) i).1 <= begin /\ begin + len data <= (Parts.part (parts t) i).2
      | Digest i _ => 0 <= i < Parts.count (parts t)
      | _ => True
      end.
Proof.
  intros Hi Ha. destruct (exec_run false (fun _ => None) evs st) as (st' & E & Hinv); [by apply initial_inv; auto|done|done|].
  exists st'. split; [done|]. intros f j t Hj. pose proof (d_jobs _ _ _ _ _ (inv_data_strict _ _ f st' Hinv)) as Hjobs.
  rewrite Forall_forall in Hjobs. specialize (Hjobs j Hj). destruct j as [|b d|i u| |]; try done.
  - destruct Hjobs as (i & Hpi & H1 & H2 & H3). cbn [fst snd] in *.
    subst t. pose proof (Parts.part_bounds _ i (inv_parts _ _ _ f st' Hinv) Hpi). unfold size. split_and!; [lia..|]. by exists i.
  - by destruct Hjobs.
Qed.

(** ** Integrity *)

(** The MD4 hashes of the parts of the file. *)
Definition partDigests t : list bytes :=
  (fun i => md4Digest (slice (Parts.part (parts t) i) (content t))) <$> Parts.indices (parts t).

Lemma digests_pieces t :
  Parts.count (parts t) <= len (pieceHashes t) ->
  (forall i, isPart t i -> pieceHashes t !! Z.to_nat i = Some (digest t i)) ->
  partDigests t = take (Z.to_nat (Parts.count (parts t))) (pieceHashes t).
Proof.
  intros Hlen Hd. apply list_eq. intros k. unfold partDigests. rewrite list_lookup_fmap.
  destruct (decide (k < Z.to_nat (Parts.count (parts t)))%nat) as [Hk|Hk].
  - rewrite lookup_take_lt by done. rewrite <- (Nat2Z.id k) at 2. rewrite (Hd (Z.of_nat k)) by (unfold isPart; lia).
    unfold Parts.indices. rewrite lookup_seqZ_lt by lia. done.
  - rewrite lookup_take_ge by lia. unfold Parts.indices. by rewrite lookup_seqZ_ge by lia.
Qed.

(** The hash of a file of one part is the hash of the part. *)
Lemma single_part t :
  Parts.parts_ok (parts t) -> hashSetPartCount (size t) <= 0 -> Parts.count (parts t) = 1.
Proof.
  intros (_ & Hs & -> & _) Hc. unfold hashSetPartCount in Hc. fold (size t) in *.
  destruct (Z.leb_spec (size t) 0); [lia|]. destruct (Z.eqb_spec (size t / PIECE_LENGTH) 0) as [E|E].
  - apply Z.div_small_iff in E; [|done]. symmetry. apply (Z.div_unique_pos _ _ _ (size t - 1)); unfold PIECE_LENGTH in *; lia.
  - pose proof (Z.div_pos (size t) PIECE_LENGTH ltac:(lia) ltac:(done)). lia.
Qed.
Lemma extra_piece t :
  Parts.parts_ok (parts t) -> 0 < hashSetPartCount (size t) ->
  hashSetPartCount (size t) = Parts.count (parts t) \/
  (hashSetPartCount (size t) = Parts.count (parts t) + 1 /\ size t mod PIECE_LENGTH = 0).
Proof.
  intros (_ & Hs & -> & _) Hc. fold (size t) in *. unfold hashSetPartCount in *.
  destruct (Z.leb_spec (size t) 0); [lia|]. destruct (Z.eqb_spec (size t / PIECE_LENGTH) 0) as [E|E]; [lia|].
  assert (HP : PIECE_LENGTH = 9728000) by done. rewrite HP in *.
  pose proof (Z.div_mod (size t) 9728000 ltac:(done)) as Hdm. pose proof (Z.mod_pos_bound (size t) 9728000 ltac:(done)) as Hr.
  set (q := size t / 9728000) in *. set (r := size t mod 9728000) in *. destruct (decide (r = 0)) as [Hr0|Hr0].
  - right. split; [|done]. f_equal. apply (Z.div_unique_pos _ _ _ 9727999); lia.
  - left. apply (Z.div_unique_pos _ _ _ (r - 1)); lia.
Qed.
Lemma complete_digests strict stuck b f t :
  data_ok strict stuck b f t -> sound t -> Parts.parts_ok (parts t) -> Parts.complete (parts t) = true ->
  exists last, rootHash (partDigests t ++ last) = Ok (hash t) /\ (last = [] \/ (len last = 1 /\ size t mod PIECE_LENGTH = 0)).
Proof.
  intros Hd [[Hv Hn _] _ _ _ _ _ _] Hp Hc.
  assert (He : forall i, isPart t i -> expectedHash t i = Some (digest t i)).
  { intros i Hi. by apply Hv, complete_verified. }
  assert (Hcount : 0 < Parts.count (parts t)).
  { destruct Hp as (_ & Hs & -> & _). apply Z.div_str_pos. unfold PIECE_LENGTH. lia. }
  assert (Hn0 : needsHashSet t = false).
  { destruct (needsHashSet t) eqn:E; [|done]. assert (Hi0 : isPart t 0) by (unfold isPart; lia).
    pose proof (Hn 0 eq_refl Hi0) as Hf. by rewrite (complete_verified _ 0 Hc Hi0) in Hf. }
  destruct (decide (pieceHashes t = [])) as [Ep|Ep].
  - unfold needsHashSet in Hn0. rewrite Ep in Hn0. rewrite bool_decide_eq_true_2, andb_true_r in Hn0 by done. zprop.
    assert (Ec : Parts.count (parts t) = 1) by by apply single_part.
    specialize (He 0 ltac:(unfold isPart; lia)). unfold expectedHash in He. rewrite Ep in He. injection He as He.
    exists []. split; [|by left]. rewrite app_nil_r. unfold partDigests, Parts.indices. rewrite Ec, He. done.
  - destruct (d_pieces _ _ _ _ _ Hd) as [?|[Hlen Hroot]]; [done|].
    assert (Hpos : 0 < hashSetPartCount (size t)) by (rewrite <- Hlen; unfold len; destruct (pieceHashes t); [done|cbn; lia]).
    pose proof (pieces_cover _ _ _ _ _ Hd Hp Ep) as Hcov.
    rewrite digests_pieces; [|done|].
    + exists (drop (Z.to_nat (Parts.count (parts t))) (pieceHashes t)). rewrite take_drop. split; [done|].
      destruct (extra_piece t Hp Hpos) as [E|[E Hmod]]; [left|right].
      * apply drop_ge. unfold len in *. lia.
      * split; [|done]. unfold len in *. rewrite length_drop. lia.
    + intros i Hi. specialize (He i Hi). unfold expectedHash in He. by destruct (pieceHashes t).
Qed.

(** C1. A finished download is the file of its link: if no packet brings data of
    a part that is already full, and the records of earlier runs are right,
    then in whatever order packets, timers and the disk thread's work come,
    also while several sources have the same block, a part that counts as
    verified has the content that its hash stands for, and once a task shares
    its file or ends as complete, the MD4 hashes of the parts on disk, with one
    more for a file that fills its last part, hash to the hash of the link. *)
Theorem finished_file_has_the_hash_of_its_link st evs :
  initial st -> history allowed evs st -> history truthful evs st ->
  exists st', exec_all evs st = Some st' /\
    forall f, let t := tasks st' f in
      (forall i, isPart t i -> Parts.isVerified (parts t) i = Some true -> expectedHash t i = Some (digest t i)) /\
      (phase t = PSharing \/ (phase t = PClosing /\ ending t = OComplete) ->
       exists last, rootHash (partDigests t ++ last) = Ok (hash t) /\
         (last = [] \/ (len last = 1 /\ size t mod PIECE_LENGTH = 0))).
Proof.
  intros Hi Ha Ht. destruct (exec_run true (fun _ => None) evs st) as (st' & E & Hinv); [by apply initial_inv; auto|done|done|].
  exists st'. split; [done|]. intros f t. pose proof (inv_data_strict _ _ f st' Hinv) as Hd.
  pose proof (d_sound _ _ _ _ _ Hd eq_refl) as Hs. split.
  - intros i Hpi Hv. by apply (h_verified _ (s_honest _ Hs)).
  - intros Hp. eapply complete_digests; [exact Hd|exact Hs|by apply (inv_parts _ _ _ f st' Hinv)|].
    by apply (d_complete _ _ _ _ _ Hd).
Qed.

(** ** A file that cannot be opened *)

(** A task that closes, with nothing that the disk thread would still report. *)
Definition abandoned t : Prop := phase t = PClosing /\ jobs t = [] /\ handlers t = [].

(** Only the task [f] is, and this is what it told the engine before. *)
Definition leaves (f : Z) (told : list report) (g : Z) : option (list report) := if decide (g = f) then Some told else None.

Lemma inv_abandoned f st :
  inv false (fun _ => None) None st -> abandoned (tasks st f) -> inv false (leaves f (reports (tasks st f))) None st.
Proof.
  intros [Hf Hb Ha Hs Hl Hc Hk] Hab. constructor; try done. intros g. destruct (Hk g) as [Hcl Hd]. split; [done|].
  destruct Hd. constructor; try done. intros told. unfold leaves. destruct (decide (g = f)) as [->|]; [|done].
  intros [= <-]. destruct Hab as (? & ? & ?). done.
Qed.
Lemma failed_open f check rest e links l st :
  inv false (fun _ => None) None st -> phase (tasks st f) = POpening -> handlers (tasks st f) = Opened true check :: rest ->
  abandoned (tasks (complete e f links l st).1 f) /\ reports (tasks (complete e f links l st).1 f) = reports (tasks st f).
Proof.
  intros Hi Hp E. destruct (pop_opened false (fun _ => None) f true check rest st Hi Hp E) as (Hj & _ & _).
  unfold complete. rewrite E. unfold opened. rewrite tasks_onTask. cbn [phase set_handlers]. rewrite Hp.
  rewrite bool_decide_eq_false_2 by (intros []; done). cbn [fst]. set (st1 := onTask f (set_handlers rest) st) in *.
  destruct Hj as [Hi1 Hno Hp1 Ej Eh Eu]. unfold finish. rewrite Hp1.
  destruct (depart_ok false (fun _ => None) f OFail l st1 Hi1) as [_ Epl]; rewrite ?Hp1, ?Eu; try done; [by intros c ?%Hno|].
  rewrite bool_decide_eq_true_2 by done. set (st2 := detach f l _) in *.
  split; [split_and!; [exact (f_equal phase Epl)| |]|].
  - etransitivity; [exact (f_equal jobs Epl)|exact Ej].
  - etransitivity; [exact (f_equal handlers Epl)|exact Eh].
  - etransitivity; [exact (f_equal reports Epl)|]. unfold st1. by rewrite tasks_onTask.
Qed.

(** C9. A download whose file cannot be opened never ends. When the disk thread
    reports the error, [finish] leaves the rest to [opened], which has
    returned: the task stays closing with nothing left to wait for, and
    whatever events come then, stops and starts among them, it stays so and
    tells the engine nothing any more, neither that it failed nor that it
    stopped nor anything else. *)
Theorem failed_open_never_ends st evs f check rest e links l evs' :
  initial st -> history allowed evs st ->
  forall st1, exec_all evs st = Some st1 -> phase (tasks st1 f) = POpening -> handlers (tasks st1 f) = Opened true check :: rest ->
  history allowed evs' (complete e f links l st1).1 ->
  exists st', exec_all (Complete e f links l :: evs') st1 = Some st' /\
    abandoned (tasks st' f) /\ reports (tasks st' f) = reports (tasks st1 f).
Proof.
  intros Hi Ha st1 E Hp Eh Ha'.
  destruct (exec_run false (fun _ => None) evs st) as (st1' & E' & Hinv); [by apply initial_inv; auto|done|done|].
  rewrite E in E'. injection E' as <-. destruct (failed_open f check rest e links l st1 Hinv Hp Eh) as [Hab Hr].
  destruct (fine_complete false (fun _ => None) e f links l st1 Hinv) as [Hi2 Hc]. set (st2 := (complete e f links l st1).1) in *.
  destruct (exec_run false (leaves f (reports (tasks st2 f))) evs' st2) as (st' & E' & Hinv'); [by apply inv_abandoned|done|done|].
  exists st'. split; [rewrite <- E'; by apply exec_all_cons|].
  destruct (d_stuck _ _ _ _ _ (inv_data_strict _ _ f st' Hinv') (reports (tasks st2 f))) as (? & ? & ? & Hr').
  - unfold leaves. by rewrite decide_True.
  - split; [done|congruence].
Qed.

(** ** Stopping *)

(** What a task is doing and what it told. *)
Definition ledger t := (phase t, jobs t, handlers t, ending t, stopped t, reports t).
Definition keepsLedger st st' : Prop := forall f, ledger (tasks st' f) = ledger (tasks st f).
#[local] Instance keepsLedger_preorder : PreOrder keepsLedger.
Proof. split; [done|]. intros s1 s2 s3 H1 H2 f. by rewrite H2. Qed.
Lemma ledger_onTask f g st : (forall t, ledger (g t) = ledger t) -> keepsLedger st (onTask f g st).
Proof. intros E h. destruct (decide (f = h)) as [<-|]; [by rewrite tasks_onTask|by rewrite tasks_onTask_ne]. Qed.
Lemma ledger_dropSource c st : keepsLedger st (dropSource c st).
Proof.
  unfold dropSource. destruct (downloadFile _); [|done]. set (st1 := if _ && _ then _ else st).
  assert (H1 : keepsLedger st st1) by (unfold st1; branch; [|done]; unfold send; by destruct (connection _)).
  assert (H2 : keepsLedger st1 (releaseBlocks c st1)).
  { unfold releaseBlocks. destruct (downloadFile _) as [f|]; [|done].
    exact (ledger_onTask f (fun t => set_parts (Parts.releaseAll c (parts t)) t) st1 (fun _ => eq_refl)). }
  etransitivity; [exact H1|]. etransitivity; [exact H2|]. branch; [|done]. unfold disconnect. by destruct (connection _).
Qed.
Lemma ledger_detach f (l : list Z) : forall st, keepsLedger st (detach f l st).
Proof.
  induction l as [|c l IH]; intros st; [done|]. etransitivity; [|apply IH]. branch; [apply ledger_dropSource|done].
Qed.
Lemma ledger_dropSources f st : keepsLedger st (dropSources f st).
Proof.
  etransitivity; [|exact (ledger_detach f (sources (tasks st f)) (onTask f (set_sources []) st))]. by apply ledger_onTask.
Qed.

(** The disk thread does its work, and the task is told. *)
Definition drain (e : env) (f : Z) (links l : list Z) (n : nat) : list event :=
  mjoin (replicate n [RunJob f None; Complete e f links l]).
Definition jobWork (j : job) : nat := match j with Close => 2 | _ => 5 end.
Definition handlerWork (h : handler) : nat := match h with Closed_ => 1 | _ => 4 end.
Definition work t : nat := sum_list (jobWork <$> jobs t) + sum_list (handlerWork <$> handlers t).
(** The report of a task that closes. *)
Definition verdict t : list report :=
  if stopped t then [Stopped] else match ending t with OComplete => [Completed] | OFail => [Failed] | OStop => [] end.

Record closing (before t : Task) : Prop := {
  c_phase : phase t = PClosing;
  c_busy : jobs t <> [] \/ handlers t <> [];
  c_ending : ending t = ending before;
  c_stopped : stopped t = stopped before;
  c_reports : reports t = reports before;
}.
Lemma runFirst_some t j js :
  jobs t = j :: js ->
  exists h, jobWork j = S (handlerWork h) /\
    ledger (runFirst None t) = (phase t, js, handlers t ++ [h], ending t, stopped t, reports t).
Proof. intros E. unfold runFirst. rewrite E. destruct j; eexists; by split; [|reflexivity]. Qed.
Lemma work_pos t : jobs t <> [] \/ handlers t <> [] -> (0 < work t)%nat.
Proof.
  unfold work. intros [Hb|Hb]; [destruct (jobs t) as [|[]]|destruct (handlers t) as [|[]]]; try done; cbn; lia.
Qed.

(** After the first job, there is a handler to run. *)
Lemma closing_runs before t :
  closing before t ->
  let t' := runFirst None t in closing before t' /\ handlers t' <> [] /\ (work t' <= work t)%nat.
Proof.
  intros [Hp Hb He Hs Hr]. cbv zeta. destruct (jobs t) as [|j js] eqn:Ej.
  { unfold runFirst. rewrite Ej. destruct Hb as [?|Hb]; [done|]. split; [constructor; auto|done]. }
  destruct (runFirst_some t j js Ej) as (h & Hw & [= Ep Ejs Eh Ee Es Er]). assert (Hh : handlers (runFirst None t) <> []).
  { rewrite Eh. by destruct (handlers t). }
  split_and!; [constructor; [congruence|by right|congruence..]|done|].
  unfold work. rewrite Ejs, Eh, Ej, fmap_app, sum_list_with_app. cbn. lia.
Qed.
(** The handler of a closing task only sees whether it was the last. *)
Lemma complete_closing e f links l st h rest :
  phase (tasks st f) = PClosing -> handlers (tasks st f) = h :: rest -> h <> Closed_ ->
  complete e f links l st = (quiesce f (onTask f (set_handlers rest) st), Done).
Proof.
  intros Hp E Hh. unfold complete. rewrite E, Hp, bool_decide_eq_true_2 by done.
  destruct h; try done.
  - unfold opened. rewrite tasks_onTask. cbn [phase set_handlers]. by rewrite Hp, bool_decide_eq_true_2.
  - by rewrite andb_false_r.
Qed.
Lemma closing_completes e f links l before st :
  closing before (tasks st f) -> handlers (tasks st f) <> [] ->
  let r := complete e f links l st in
  let t' := tasks r.1 f in
  r.2 = Done /\
  ((phase t' = PIdle /\ reports t' = reports before ++ verdict before) \/ (closing before t' /\ (work t' < work (tasks st f))%nat)).
Proof.
  intros [Hp Hb He Hs Hr] Hh. cbv zeta. destruct (handlers (tasks st f)) as [|h rest] eqn:E; [done|].
  assert (Hlast : h = Closed_ \/ h <> Closed_) by (destruct h; auto). destruct Hlast as [->|Hne].
  { unfold complete. rewrite E. split; [done|left]. cbn [fst]. rewrite !tasks_onTask. unfold verdict. cbn [stopped set_phase set_handlers ending].
    rewrite <- Hs, <- He, <- Hr. destruct (stopped (tasks st f)); [done|].
    destruct (ending (tasks st f)); split; try done. cbn. by rewrite app_nil_r. }
  rewrite (complete_closing e f links l st h rest Hp E Hne). split; [done|right]. cbn [fst]. unfold quiesce. rewrite tasks_onTask.
  cbn [phase set_handlers]. rewrite Hp, bool_decide_eq_true_2 by done. cbn [andb].
  assert (Hw : handlerWork h = 4%nat) by by destruct h.
  destruct (pending (set_handlers rest (tasks st f))) eqn:Epend; cbn [negb].
  - rewrite tasks_onTask. split.
    + constructor; try done. cbn [jobs handlers set_handlers]. unfold pending in Epend. cbn [jobs handlers set_handlers] in Epend.
      destruct (jobs (tasks st f)); [|by left]. destruct rest; [done|by right].
    + unfold work. cbn [jobs handlers set_handlers]. rewrite E. cbn. lia.
  - unfold post. rewrite !tasks_onTask. split.
    + constructor; try done. left. cbn. by destruct (jobs (tasks st f)).
    + unfold work. cbn [jobs handlers set_handlers set_jobs]. rewrite E, fmap_app, sum_list_with_app. cbn. lia.
Qed.

(** The work of a closing task ends. *)
Lemma closing_ends e f links l before n : forall st,
  closing before (tasks st f) -> (work (tasks st f) <= n)%nat ->
  exists k st', (k <= n)%nat /\ exec_all (drain e f links l k) st = Some st' /\ phase (tasks st' f) = PIdle /\
    reports (tasks st' f) = reports before ++ verdict before.
Proof.
  induction n as [|n IH]; intros st Hc Hw; [pose proof (work_pos _ (c_busy _ _ Hc)); lia|].
  destruct (closing_runs _ _ Hc) as (Hc1 & Hh1 & Hw1). set (st1 := runJob f None st).
  assert (Ht1 : tasks st1 f = runFirst None (tasks st f)) by (unfold st1, runJob; by rewrite tasks_onTask).
  rewrite <- Ht1 in Hc1, Hh1, Hw1.
  destruct (closing_completes e f links l before st1 Hc1 Hh1) as (Ed & Hcase). set (r := complete e f links l st1) in *.
  assert (Erun : forall evs, exec_all ([RunJob f None; Complete e f links l] ++ evs) st = exec_all evs r.1).
  { intros evs. cbn [app]. rewrite exec_all_cons by done. apply exec_all_cons. change (r.2 <> Crashed). by rewrite Ed. }
  destruct Hcase as [[Hp Hr]|[Hc2 Hw2]].
  - exists 1%nat, r.1. split_and!; [lia| |done|done]. unfold drain. cbn [replicate mjoin list_join]. rewrite Erun. done.
  - destruct (IH r.1 Hc2 ltac:(lia)) as (k & st' & Hk & E' & Hp & Hr). exists (S k), st'. split_and!; [lia| |done|done].
    unfold drain. cbn [replicate mjoin list_join]. rewrite Erun. exact E'.
Qed.

Lemma work_le t : (work t <= 5 * length (jobs t) + 4 * length (handlers t))%nat.
Proof.
  unfold work. apply Nat.add_le_mono.
  - induction (jobs t) as [|[] js IH]; cbn in *; lia.
  - induction (handlers t) as [|[] hs IH]; cbn in *; lia.
Qed.
Lemma quiesce_closing f before st :
  phase (tasks st f) = PClosing -> ending (tasks st f) = ending before -> stopped (tasks st f) = stopped before ->
  reports (tasks st f) = reports before ->
  closing before (tasks (quiesce f st) f) /\ (work (tasks (quiesce f st) f) <= work (tasks st f) + 2)%nat.
Proof.
  intros Hp He Hs Hr. unfold quiesce. rewrite Hp, bool_decide_eq_true_2 by done. cbn [andb].
  destruct (pending (tasks st f)) eqn:E; cbn [negb].
  - split; [|lia]. constructor; try done. unfold pending in E. destruct (jobs (tasks st f)); [|by left].
    destruct (handlers (tasks st f)); [done|by right].
  - unfold post. rewrite tasks_onTask. split.
    + constructor; try done. left. cbn. by destruct (jobs (tasks st f)).
    + unfold work. cbn [jobs handlers set_jobs]. rewrite fmap_app, sum_list_with_app. cbn. lia.
Qed.
(** A task that is told to stop is idle, or closes with something to wait for. *)
Lemma stop_closing f l st :
  inv false (fun _ => None) None st -> phase (tasks st f) <> PIdle -> ~ abandoned (tasks st f) ->
  exists before, closing before (tasks (stop f l st) f) /\ verdict before = [Stopped] /\ reports before = reports (tasks st f) /\
    (work (tasks (stop f l st) f) <= work (tasks st f) + 2)%nat.
Proof.
  intros Hi Hp Hab. unfold stop. rewrite bool_decide_eq_false_2 by done. unfold finish. rewrite tasks_onTask. cbn [phase set_stopped].
  destruct (decide (phase (tasks st f) = PClosing)) as [Hc|Hc].
  { rewrite Hc. exists (set_stopped true (tasks st f)). rewrite tasks_onTask. split_and!; [|done|done|unfold work; cbn; lia].
    constructor; try done. cbn [jobs handlers set_stopped]. destruct (jobs (tasks st f)) eqn:Ej; [|by left].
    destruct (handlers (tasks st f)) eqn:Eh; [|by right]. by destruct Hab. }
  set (st0 := onTask f (set_stopped true) st). set (st1 := onTask f (fun t => set_phase PClosing (set_ending OStop t)) st0).
  set (st2 := detach f l (dropSources f st1)).
  assert (El : ledger (tasks st2 f) = (PClosing, jobs (tasks st f), handlers (tasks st f), OStop, true, reports (tasks st f))).
  { unfold st2. rewrite (ledger_detach f l (dropSources f st1) f), (ledger_dropSources f st1 f). unfold st1, st0.
    by rewrite !tasks_onTask. }
  injection El as Ep Ej Eh Ee Es Er. set (before := set_stopped true (set_ending OStop (tasks st f))).
  destruct (quiesce_closing f before st2 Ep Ee Es Er) as [Hq Hw].
  assert (Hwork : work (tasks st2 f) = work (tasks st f)) by (unfold work; by rewrite Ej, Eh). rewrite Hwork in Hw.
  exists before. destruct (phase (tasks st f)) eqn:Eph; try done.
  split_and!; [|done|done|]; cbn [bool_decide decide_rel]; rewrite bool_decide_eq_true_2 by done; [|lia].
  constructor; try done. rewrite Ej, Eh. destruct (d_life _ _ _ _ _ (inv_data_strict _ _ f st Hi)) as [Hl|[? _]]; [|done].
  rewrite Eph in Hl. destruct Hl as [(? & ? & -> & _)|(? & ? & _ & ->)]; [by left|by right].
Qed.

(** C6. Stopping a download always ends, but for one whose file could not be
    opened: in whatever phase the stop comes, once the disk thread has done
    the work that was queued and its completions have run, at most about five
    rounds for each, the task is idle, and it has told the engine once that it
    stopped, even if it was closing for another reason. *)
Theorem stop_completes st evs f e links l l' :
  initial st -> history allowed evs st ->
  forall st1, exec_all evs st = Some st1 -> ~ abandoned (tasks st1 f) ->
  exists n st', (n <= 5 * length (jobs (tasks st1 f)) + 4 * length (handlers (tasks st1 f)) + 2)%nat /\
    exec_all (Stop f l :: drain e f links l' n) st1 = Some st' /\ phase (tasks st' f) = PIdle /\
    reports (tasks st' f) = reports (tasks st1 f) ++ [Stopped].
Proof.
  intros Hi Ha st1 E Hab.
  destruct (exec_run false (fun _ => None) evs st) as (st1' & E' & Hinv); [by apply initial_inv; auto|done|done|].
  rewrite E in E'. injection E' as <-.
  destruct (decide (phase (tasks st1 f) = PIdle)) as [Hp|Hp].
  - exists 0%nat, (stop f l st1). rewrite exec_all_cons by done. split_and!; [lia|done|..]; unfold stop;
      rewrite bool_decide_eq_true_2 by done; rewrite tasks_onTask; done.
  - destruct (stop_closing f l st1 Hinv Hp Hab) as (before & Hc & Hv & Hr & Hw). pose proof (work_le (tasks st1 f)).
    destruct (closing_ends e f links l' before _ (stop f l st1) Hc (le_n _)) as (n & st' & Hn & E' & Hp' & Hr').
    exists n, st'. rewrite exec_all_cons by done. split_and!; [lia|exact E'|done|by rewrite Hr', Hv, Hr].
Qed.

End theorems.
End DownloadTheorems.
