(* ===== verification/DownloadExamples.v ===== *)
(** * Runs of a small download

    A file of ten bytes, its sources and a zlib whose streams are not
    compressed: the runs that the theorems on downloads are applied to, and
    the run in which data of a late source gets into a finished file. *)

From stdpp Require Import gmap functions.
From S2P Require Import Prelude Bytes Wire Packet Hash Ranges Parts PeerProtocol.
From S2P Require Import Download DownloadInvariant DownloadData DownloadSteps DownloadRun DownloadTheorems.

Module DownloadExamples.
Import Bytes Wire Packet Hash Download DownloadInvariant DownloadData DownloadSteps DownloadRun DownloadTheorems.

#[local] Instance storedZlib : Zlib :=
  {| stream := unit;
     inflateInit := tt;
     inflate := fun s data room => if len data <=? room then Some (s, data, false) else None |}.

(** ** The file, its task and the clients *)

Definition good : bytes := [1; 2; 3; 4; 5; 6; 7; 8; 9; 10].
Definition bad : bytes := [0; 0; 0; 0; 0; 0; 0; 0; 0; 0].
Definition fileOfTen : bytes := md4Digest good.
Definition taskOfTen : Task :=
  mkTask fileOfTen false false (Parts.create 10) [] [] PIdle [] false [] false 0 [] [] [] OStop false [].
Definition begun : state := mkState (fun _ => newClient false true false false) (fun _ => taskOfTen) [].
Definition at_time (seconds_ : Z) : env := mkEnv (seconds seconds_) (fun _ => true) (fun _ => false) (fun _ => 0).

Lemma begun_initial : initial begun.
Proof.
  split; [by intros c; exists false, true, false, false|].
  intros f. exists fileOfTen, 10, [], false, false. split; [apply md4Digest_length|]. done.
Qed.

Definition opens : list event := [Start 1 false (mkPlace None None false false None); RunJob 1 None; Complete (at_time 0) 1 [] []].
(** A source that grants an upload slot. *)
Definition joins (now c : Z) : list event :=
  [AddSource 1 c; RunSchedule (at_time now) 1; Attach c (100 + c) true; HandshakeDone (at_time now) c;
   FileName (at_time now) c (fileOfTen ++ [0; 0]); Accept (at_time now) c].
Definition sends (c : Z) (data : bytes) : event :=
  SendingPart (at_time 10) c false (fileOfTen ++ pack 4 0 ++ pack 4 10 ++ data).

(** What a run from [begun] ends with. *)
Definition ends {A} (look : state -> A) (evs : list event) : option A := look <$> exec_all evs begun.

(** *** A download that succeeds *)

(** A second source has the block too, since the first was slow, but sends
    nothing of it. *)
Definition goodRun : list event := opens ++ joins 0 7 ++ joins 10 8 ++ [sends 7 good] ++ drain (at_time 10) 1 [] [] 2.
(** Before the disk thread has written anything. *)
Definition midRun : list event := opens ++ joins 0 7 ++ [sends 7 good].

Ltac allows := repeat (split; [first [exact I|vm_compute; discriminate]|]); exact I.
Lemma goodRun_allowed : history allowed goodRun begun.
Proof. allows. Qed.
Lemma midRun_allowed : history allowed midRun begun.
Proof. allows. Qed.

Lemma goodRun_truthful : history truthful goodRun begun.
Proof.
  split.
  - apply honest_unverified; [|done]. intros i Hi. change (0 <= i < 1) in Hi. assert (i = 0) as -> by lia.
    by vm_compute.
  - repeat (split; [first [exact I|intros x [= <-]; vm_compute; reflexivity]|]). exact I.
Qed.

Lemma ends_with {A} (look : state -> A) evs v : ends look evs = Some v -> exists st, exec_all evs begun = Some st /\ look st = v.
Proof. unfold ends. destruct (exec_all evs begun) as [st|]; [|done]. intros [= <-]. by exists st. Qed.

(** The books of the source that downloads. *)
Lemma download_books_balance_witness :
  exists st', exec_all (opens ++ joins 0 7) begun = Some st' /\ blocks (peers st' 7) = [(0, 10)] /\
    own 7 (parts (tasks st' 1)) ≡ₚ [(0, 10)].
Proof.
  assert (Ha : history allowed (opens ++ joins 0 7) begun) by allows.
  destruct (download_books_balance begun (opens ++ joins 0 7) begun_initial Ha) as (st' & E & Hb).
  destruct (ends_with (fun st => (downloadFile (peers st 7), blocks (peers st 7))) (opens ++ joins 0 7) (Some 1, [(0, 10)]))
    as (st1 & E1 & Hl); [by vm_compute|]. rewrite E in E1. injection E1 as <-. injection Hl as Hf Hbl.
  exists st'. split; [exact E|split; [assumption|]]. destruct (Hb 7) as (_ & _ & _ & _ & Hown). destruct (Hown 1) as [_ Hperm].
  rewrite Hf, Hbl in Hperm. exact Hperm.
Defined.

Lemma writes_stay_in_the_file_witness :
  exists st', exec_all midRun begun = Some st' /\ Write 0 good ∈ jobs (tasks st' 1) /\ 0 + len good <= size (tasks st' 1).
Proof.
  destruct (writes_stay_in_the_file begun midRun begun_initial midRun_allowed) as (st' & E & Hw).
  destruct (ends_with (fun st => head (jobs (tasks st 1))) midRun (Some (Write 0 good))) as (st1 & E1 & Hj); [by vm_compute|].
  rewrite E in E1. injection E1 as <-. assert (Hin : Write 0 good ∈ jobs (tasks st' 1)).
  { destruct (jobs (tasks st' 1)); [done|]. injection Hj as ->. by left. }
  exists st'. split; [exact E|split; [assumption|]]. by destruct (Hw 1 (Write 0 good) Hin) as (_ & ? & _).
Defined.

Lemma finished_file_has_the_hash_of_its_link_witness :
  exists st', exec_all goodRun begun = Some st' /\ phase (tasks st' 1) = PSharing /\
    exists last, rootHash (partDigests (tasks st' 1) ++ last) = Ok (hash (tasks st' 1)) /\
      (last = [] \/ (len last = 1 /\ size (tasks st' 1) mod PIECE_LENGTH = 0)).
Proof.
  destruct (finished_file_has_the_hash_of_its_link begun goodRun begun_initial goodRun_allowed goodRun_truthful) as (st' & E & Hall).
  destruct (ends_with (fun st => phase (tasks st 1)) goodRun PSharing) as (st1 & E1 & Hp); [by vm_compute|].
  rewrite E in E1. injection E1 as <-. exists st'. split; [exact E|split; [assumption|]]. apply (Hall 1). by left.
Defined.

(** *** A file that cannot be opened *)

Definition failRun : list event := [Start 1 false (mkPlace None None false false None); RunJob 1 (Some 0%nat)].
(** The task is stopped, started again, and the disk thread has all the time. *)
Definition afterFail : list event :=
  [Stop 1 []; Start 1 false (mkPlace None None false false None)] ++ drain (at_time 10) 1 [] [] 3.
Lemma failed_open_never_ends_witness :
  exists st1 st', exec_all failRun begun = Some st1 /\
    exec_all (Complete (at_time 0) 1 [] [] :: afterFail) st1 = Some st' /\ abandoned (tasks st' 1) /\ reports (tasks st' 1) = [].
Proof.
  assert (Ha : history allowed failRun begun) by allows.
  destruct (ends_with (fun st => (phase (tasks st 1), handlers (tasks st 1), reports (tasks st 1))) failRun (POpening, [Opened true false], []))
    as (st1 & E & Hl); [by vm_compute|]. injection Hl as Hp Hh Hr. exists st1.
  destruct (failed_open_never_ends begun failRun 1 false [] (at_time 0) [] [] afterFail begun_initial Ha st1 E Hp Hh)
    as (st' & E' & Hab & Hr'); [allows|]. rewrite Hr in Hr'. exists st'. exact (conj E (conj E' (conj Hab Hr'))).
Defined.

(** *** Stopping in the middle *)

Lemma stop_completes_witness :
  exists st1 n st', exec_all midRun begun = Some st1 /\
    exec_all (Stop 1 [7] :: drain (at_time 10) 1 [] [] n) st1 = Some st' /\ phase (tasks st' 1) = PIdle /\
    reports (tasks st' 1) = [Stopped].
Proof.
  destruct (ends_with (fun st => (phase (tasks st 1), reports (tasks st 1))) midRun (PDownloading, []))
    as (st1 & E & Hl); [by vm_compute|]. injection Hl as Hp Hr.
  destruct (stop_completes begun midRun 1 (at_time 10) [] [7] [] begun_initial midRun_allowed st1 E) as (n & st' & _ & E' & Hi & Hrep).
  - intros [Hc _]. congruence.
  - exists st1, n, st'. rewrite Hr in Hrep. exact (conj E (conj E' (conj Hi Hrep))).
Defined.

(** *** Late data *)

(** A second source gets the block that the first one was slow with, and sends
    other data right behind it. *)
Definition lateRun : list event :=
  opens ++ joins 0 7 ++ joins 10 8 ++ [sends 7 good; sends 8 bad] ++ drain (at_time 10) 1 [] [] 3.

(** Data that comes for a part which is already complete is written all the
    same, also while the part is hashed: if two sources have the last block,
    and the second sends garbage after the first sent the block, then the part
    is hashed before the garbage is written, counts as verified, and the task
    shares a file that does not have the hash of its link. *)
Lemma late_data_corrupts_a_finished_file :
  exists st', exec_all lateRun begun = Some st' /\ phase (tasks st' 1) = PSharing /\
    Parts.complete (parts (tasks st' 1)) = true /\ content (tasks st' 1) = bad /\
    rootHash (partDigests (tasks st' 1)) <> Ok (hash (tasks st' 1)).
Proof.
  destruct (ends_with (fun st => (phase (tasks st 1), Parts.complete (parts (tasks st 1)), content (tasks st 1),
      rootHash (partDigests (tasks st 1)), hash (tasks st 1))) lateRun (PSharing, true, bad, Ok (md4Digest bad), fileOfTen))
    as (st' & E & Hl); [by vm_compute|]. injection Hl as Hp Hc Hb Hr Hh. exists st'.
  split_and!; [exact E|exact Hp|exact Hc|exact Hb|]. rewrite Hr, Hh. by vm_compute.
Qed.

End DownloadExamples.
