(* ===== verification/HostPool.v ===== *)
(** * Connections per server: [src/http/HostPool.h], [src/http/HostPool.cc]

    [HostPool] shares the connections a server accepts among the downloads from
    it. A member is the address of a download; times are nanoseconds of
    [steady_clock], and [0] is [time_point{}]. The cache of allowances is part
    of the state, as the class keeps it in [mutable] members. *)

From S2P Require Import Prelude StdMap Double.

Module HostPool.

(** ** Constants and data *)

Definition second : Z := 10 ^ 9.
Definition calmPeriod : Z := 5 * second.
Definition maxPause : Z := 8 * second.

Record Demand := mkDemand {
  host : string;
  wanted : Z;
  remaining : Z;
  transferring : Z;
  order : Z; (* joining order; earlier members keep the first seats *)
}.

Record Host := mkHost {
  limit : Z;
  strikes : Z; (* drops without a calm period between them *)
  calmSince : Z;
  dropped : Z; (* last time the limit was lowered *)
  readyAt : Z;
}.

Record pool := mkPool {
  members : stdmap Z Demand;
  hosts : stdmap string Host;
  allowances : stdmap Z Z;
  stale : bool;
  nextOrder : Z;
}.

Definition create : pool := mkPool [] [] [] true 0.

Definition newDemand (order_ : Z) : Demand := mkDemand "" 1 (-1) 0 order_.
Definition newHost : Host := mkHost 0 0 0 0 0.

(** Connections delivering from a host, over all downloads. *)
Definition transferringOf (h : string) (ms : stdmap Z Demand) : Z :=
  foldl (fun total '(_, d) => total + (if bool_decide (host d = h) then transferring d else 0))
    0 ms.

(** ** Operations *)

Definition update (member : Z) (h : string) (wanted_ remaining_ transferring_ : Z)
    (p : pool) : pool :=
  let '(demand, added) :=
    match find member (members p) with
    | Some d => (d, false)
    | None => (newDemand (nextOrder p), true)
    end in
  let nextOrder' := if added then nextOrder p + 1 else nextOrder p in
  let stale' :=
    stale p || added || negb (bool_decide (host demand = h)) ||
    negb (wanted demand =? wanted_) || negb (remaining demand =? remaining_) in
  let demand' := mkDemand h (Z.max 1 wanted_) remaining_ transferring_ (order demand) in
  let members' := put member demand' (members p) in
  let p' := mkPool members' (hosts p) (allowances p) stale' nextOrder' in
  match find h (hosts p) with
  | Some state =>
      if 0 <? limit state then
        let total := transferringOf h members' in
        if limit state <? total then
          mkPool members'
            (put h (mkHost total (strikes state) (calmSince state) (dropped state) (readyAt state))
               (hosts p))
            (allowances p) true nextOrder'
        else p'
      else p'
  | None => p'
  end.

Definition leave (member : Z) (p : pool) : pool :=
  match find member (members p) with
  | None => p
  | Some d =>
      let members' := erase member (members p) in
      let used := existsb (fun '(_, e) => bool_decide (host e = host d)) members' in
      mkPool members' (if used then hosts p else erase (host d) (hosts p))
        (allowances p) true (nextOrder p)
  end.

(** The order [std::sort] establishes; joining orders are distinct, so that it
    does not matter how it sorts. *)
Fixpoint insertByOrder (m : Z * Demand) (ds : list (Z * Demand)) : list (Z * Demand) :=
  match ds with
  | [] => [m]
  | m' :: ds' => if order m.2 <? order m'.2 then m :: ds else m' :: insertByOrder m ds'
  end.
Definition sortByOrder (ds : list (Z * Demand)) : list (Z * Demand) :=
  foldr insertByOrder [] ds.

Definition membersOf (h : string) (ms : stdmap Z Demand) : list (Z * Demand) :=
  sortByOrder (filter (fun m => host m.2 = h) ms).

(** "Every download first gets one connection, in the order they came." *)
Fixpoint firstSeats (ds : list (Z * Demand)) (seats : Z) : list Z * Z :=
  match ds with
  | [] => ([], seats)
  | _ :: ds' =>
      if 0 <? seats then
        let '(given, seats) := firstSeats ds' (seats - 1) in (1 :: given, seats)
      else
        let '(given, seats) := firstSeats ds' seats in (0 :: given, seats)
  end.

Definition quotient (d : Demand) (given : Z) : double :=
  (of_int (Z.max 1 (remaining d)) / of_int (given + 1))%double.

Definition eligible (d : Demand) (given : Z) : bool :=
  negb ((given =? 0) || (wanted d <=? given)).

(** The inner loop: the index and quotient of the largest remaining work per
    connection, the first one among equals. *)
Fixpoint bestSeat (i : nat) (ds : list (Z * Demand)) (given : list Z)
    (best : option (nat * double)) : option (nat * double) :=
  match ds, given with
  | (_, d) :: ds', g :: given' =>
      let best' :=
        if eligible d g then
          match best with
          | None => Some (i, quotient d g)
          | Some (_, q) => if (q <? quotient d g)%double then Some (i, quotient d g) else best
          end
        else best in
      bestSeat (S i) ds' given' best'
  | _, _ => best
  end.

(** The loop [while (seats > 0)]: each round gives one seat or ends the loop. *)
Fixpoint restSeats (seats : nat) (ds : list (Z * Demand)) (given : list Z) : list Z :=
  match seats with
  | O => given
  | S seats =>
      match bestSeat 0 ds given None with
      | None => given
      | Some (i, _) => restSeats seats ds (alter (fun g => g + 1) i given)
      end
  end.

Definition allocation (limit_ : Z) (ds : list (Z * Demand)) : list Z :=
  let '(given, seats) := firstSeats ds limit_ in
  restSeats (Z.to_nat seats) ds given.

Definition setAllowances (ds : list (Z * Demand)) (given : list Z) (al : stdmap Z Z)
    : stdmap Z Z :=
  foldl (fun al '((member, _), g) => put member g al) al (zip ds given).

Definition allocate (h : string) (ms : stdmap Z Demand) (hs : stdmap string Host)
    (al : stdmap Z Z) : stdmap Z Z :=
  let ds := membersOf h ms in
  match find h hs with
  | Some state =>
      if limit state <=? 0 then setAllowances ds ((fun m => wanted m.2) <$> ds) al
      else setAllowances ds (allocation (limit state) ds) al
  | None => setAllowances ds ((fun m => wanted m.2) <$> ds) al
  end.

(** The loop over the members that allocates every host once. *)
Definition allocateAll (ms : stdmap Z Demand) (hs : stdmap string Host) : stdmap Z Z :=
  (foldl (fun '(al, done) '(_, d) =>
            if bool_decide (host d ∈ done) then (al, done)
            else (allocate (host d) ms hs al, done ++ [host d]))
     ([], []) ms).1.

Definition allowance (member : Z) (p : pool) : Z * pool :=
  match find member (members p) with
  | None => (0, p)
  | Some d =>
      let p' :=
        if stale p
        then mkPool (members p) (hosts p) (allocateAll (members p) (hosts p)) false (nextOrder p)
        else p in
      (default (wanted d) (find member (allowances p')), p')
  end.

Definition overloaded (member sent now readyAt_ : Z) (p : pool) : pool :=
  match find member (members p) with
  | None => p
  | Some d =>
      let h := host d in
      let state := default newHost (find h (hosts p)) in
      let ready := Z.max (readyAt state) readyAt_ in
      if (0 <? limit state) && (sent <? dropped state) then
        mkPool (members p)
          (put h (mkHost (limit state) (strikes state) (calmSince state) (dropped state) ready)
             (hosts p))
          (allowances p) (stale p) (nextOrder p)
      else
        let limit' := Z.max 1 (transferringOf h (members p)) in
        let strikes' := if now - calmSince state <? calmPeriod then strikes state + 1 else 1 in
        let pause := Z.min maxPause (second * Z.shiftl 1 (Z.min (strikes' - 1) 5)) in
        mkPool (members p)
          (put h (mkHost limit' strikes' now now (Z.max ready (now + pause))) (hosts p))
          (allowances p) true (nextOrder p)
  end.

Definition transferringNow (member : Z) (p : pool) : Z :=
  match find member (members p) with
  | None => 0
  | Some d => transferringOf (host d) (members p)
  end.

Definition readyTime (member : Z) (p : pool) : Z :=
  match find member (members p) with
  | None => 0
  | Some d => default 0 (readyAt <$> find (host d) (hosts p))
  end.

(** The sum of what the members of a host want; [None] when it has none. *)
Definition wantedOf (h : string) (ms : stdmap Z Demand) : option Z :=
  foldl (fun acc '(_, d) =>
           if bool_decide (host d = h) then Some (default 0 acc + wanted d) else acc)
    None ms.

(** One host of [tick]: [None] erases it. *)
Definition tickHost (now : Z) (ms : stdmap Z Demand) (h : string) (state : Host)
    : option (Host * bool) :=
  match wantedOf h ms with
  | None => None
  | Some wanted_ =>
      if (0 <? limit state) && (calmPeriod <=? now - calmSince state) then
        Some (mkHost (if wanted_ <=? limit state + 1 then 0 else limit state + 1)
                0 now (dropped state) (readyAt state), true)
      else Some (state, false)
  end.

Definition tick (now : Z) (p : pool) : pool :=
  let '(hosts', stale') :=
    foldr (fun '(h, state) '(hs, st) =>
             match tickHost now (members p) h state with
             | None => (hs, st)
             | Some (state', changed) => ((h, state') :: hs, st || changed)
             end)
      ([], stale p) (hosts p) in
  mkPool (members p) hosts' (allowances p) stale' (nextOrder p).

Definition limitOf (h : string) (p : pool) : Z := default 0 (limit <$> find h (hosts p)).

(** ** Lemmas: dividing the seats *)

Section seats.
Implicit Types (ds : list (Z * Demand)) (given : list Z).

(** Nobody gets more than it wants. *)
Definition within ds given : Prop := Forall2 (fun m g => 0 <= g <= wanted m.2) ds given.

Lemma firstSeats_spec ds seats given rest :
  Forall (fun m => 1 <= wanted m.2) ds -> 0 <= seats -> firstSeats ds seats = (given, rest) ->
  within ds given /\ zsum given + rest = seats /\ 0 <= rest /\
  (0 < rest -> Forall (fun g => g = 1) given) /\
  (forall i m, ds !! i = Some m -> given !! i = Some (if Z.of_nat i <? seats then 1 else 0)).
Proof.
  intros Hw. revert seats given rest.
  induction Hw as [|m ds Hm Hw IH]; intros seats given rest Hs Hf; simpl in *.
  - simplify_eq. split_and!; [constructor|unfold zsum; simpl; lia|done|constructor|done].
  - destruct (Z.ltb_spec 0 seats).
    + destruct (firstSeats ds (seats - 1)) as [given' rest'] eqn:Hf'. simplify_eq.
      destruct (IH (seats - 1) given' rest) as (Hin & Hsum & ? & Hone & Hi); [lia|done|].
      split_and!; [constructor; [lia|done]|rewrite zsum_cons; lia|done|intros; constructor; auto|].
      intros [|i] m' Hm'; [destruct (Z.ltb_spec (Z.of_nat 0) seats); [done|lia]|].
      rewrite !lookup_cons in *. rewrite (Hi i m') by done. f_equal. zcase; lia.
    + destruct (firstSeats ds seats) as [given' rest'] eqn:Hf'. simplify_eq.
      destruct (IH seats given' rest) as (Hin & Hsum & ? & Hone & Hi); [lia|done|].
      assert (rest = 0).
      { assert (0 <= zsum given'); [|lia].
        clear -Hin. induction Hin; unfold zsum in *; simpl; lia. }
      split_and!; [constructor; [lia|done]|rewrite zsum_cons; lia|done|lia|].
      intros [|i] m' Hm'; [destruct (Z.ltb_spec (Z.of_nat 0) seats); [lia|done]|].
      rewrite !lookup_cons in *. rewrite (Hi i m') by done. f_equal. zcase; lia.
Qed.

(** [i] may get another seat, and no one has more work per connection. *)
Definition best_choice ds given (i : nat) (q : double) : Prop :=
  exists m d g, ds !! i = Some (m, d) /\ given !! i = Some g /\ eligible d g = true /\
    q = quotient d g /\
    forall j m' d' g', ds !! j = Some (m', d') -> given !! j = Some g' ->
      eligible d' g' = true -> dltb q (quotient d' g') = false.

Definition best_so_far ds given (best : option (nat * double)) : Prop :=
  match best with
  | Some (i, q) => best_choice ds given i q
  | None => forall i m d g, ds !! i = Some (m, d) -> given !! i = Some g -> eligible d g = false
  end.

(** The case split of a lookup in a list with one element more. *)
Lemma lookup_snoc_inv {A} (l : list A) x i y :
  (l ++ [x]) !! i = Some y -> (l !! i = Some y) \/ (i = length l /\ y = x).
Proof.
  rewrite lookup_app. destruct (l !! i) as [z|] eqn:Hi; [intros [= ->]; by left|].
  apply lookup_ge_None in Hi. intros Hx. apply list_lookup_singleton_Some in Hx as [? ?].
  right. split; [lia|done].
Qed.

Lemma best_so_far_snoc ds given m d g best :
  length ds = length given -> best_so_far ds given best ->
  best_so_far (ds ++ [(m, d)]) (given ++ [g])
    (if eligible d g then
       match best with
       | None => Some (length ds, quotient d g)
       | Some (_, q) => if dltb q (quotient d g) then Some (length ds, quotient d g) else best
       end
     else best).
Proof.
  intros Hlen Hb.
  assert (forall q, (forall j m' d' g', ds !! j = Some (m', d') -> given !! j = Some g' ->
            eligible d' g' = true -> dltb q (quotient d' g') = false) ->
          (eligible d g = true -> dltb q (quotient d g) = false) ->
          forall j m' d' g', (ds ++ [(m, d)]) !! j = Some (m', d') -> (given ++ [g]) !! j = Some g' ->
            eligible d' g' = true -> dltb q (quotient d' g') = false) as Hall.
  { intros q Hold Hnew j m' d' g' Hd Hg He.
    apply lookup_snoc_inv in Hd as [Hd|[-> ?]], Hg as [Hg|[? ->]]; simplify_eq; eauto.
    - apply lookup_lt_Some in Hd. lia.
    - apply lookup_lt_Some in Hg. lia. }
  assert (eligible d g = true ->
    (forall j m' d' g', ds !! j = Some (m', d') -> given !! j = Some g' ->
       eligible d' g' = true -> dltb (quotient d g) (quotient d' g') = false) ->
    best_choice (ds ++ [(m, d)]) (given ++ [g]) (length ds) (quotient d g)) as Hnew.
  { intros He Hmax. exists m, d, g. split_and!; try done.
    - by rewrite lookup_app_r, Nat.sub_diag by done.
    - by rewrite Hlen, lookup_app_r, Nat.sub_diag by done.
    - apply Hall; [done|]. intros _. apply dltb_irrefl. }
  destruct (eligible d g) eqn:He; [destruct best as [[i q]|]|].
  - destruct Hb as (m0 & d0 & g0 & H1 & H2 & H3 & -> & Hmax).
    destruct (dltb _ (quotient d g)) eqn:Hlt.
    + apply Hnew; [done|]. intros j m' d' g' Hd Hg He'. apply not_true_is_false. intros Hq.
      specialize (Hmax j m' d' g' Hd Hg He').
      by rewrite (dltb_trans _ _ _ Hlt Hq) in Hmax.
    + exists m0, d0, g0. split_and!; try done; [by apply lookup_app_l_Some..|].
      by apply Hall.
  - apply Hnew; [done|]. intros j m' d' g' Hd Hg He'.
    by rewrite (Hb _ _ _ _ Hd Hg) in He'.
  - destruct best as [[i q]|].
    + destruct Hb as (m0 & d0 & g0 & H1 & H2 & H3 & -> & Hmax). exists m0, d0, g0.
      split_and!; try done; [by apply lookup_app_l_Some..|]. by apply Hall.
    + intros j m' d' g' Hd Hg.
      apply lookup_snoc_inv in Hd as [Hd|[-> ?]], Hg as [Hg|[? ->]]; simplify_eq; eauto.
      * apply lookup_lt_Some in Hd. lia.
      * apply lookup_lt_Some in Hg. lia.
Qed.

Lemma bestSeat_spec ds given :
  length ds = length given -> best_so_far ds given (bestSeat 0 ds given None).
Proof.
  cut (forall ds1 given1 best, length ds1 = length given1 -> length ds = length given ->
    best_so_far ds1 given1 best ->
    best_so_far (ds1 ++ ds) (given1 ++ given) (bestSeat (length ds1) ds given best)).
  { intros Hcut Hlen. apply (Hcut [] []); done. }
  revert given. induction ds as [|[m d] ds IH]; intros [|g given] ds1 given1 best H1 H2 Hb;
    simpl in *; try lia.
  - by rewrite !app_nil_r.
  - rewrite (cons_middle (m, d)), (cons_middle g), !app_assoc.
    replace (S (length ds1)) with (length (ds1 ++ [(m, d)])) by (rewrite length_app; simpl; lia).
    apply IH; [rewrite !length_app; simpl; lia|lia|]. by apply best_so_far_snoc.
Qed.

Lemma restSeats_spec n ds given :
  within ds given ->
  within ds (restSeats n ds given) /\
  Forall2 Z.le given (restSeats n ds given) /\
  (zsum (restSeats n ds given) = zsum given + Z.of_nat n \/
   (zsum (restSeats n ds given) < zsum given + Z.of_nat n /\
    forall i m d g, ds !! i = Some (m, d) -> restSeats n ds given !! i = Some g ->
      eligible d g = false)).
Proof.
  revert given. induction n as [|n IH]; intros given Hin; simpl.
  - split_and!; [done|reflexivity|left; lia].
  - pose proof (bestSeat_spec ds given (Forall2_length _ _ _ Hin)) as Hb.
    destruct (bestSeat 0 ds given None) as [[i q]|]; simpl in Hb.
    + destruct Hb as (m & d & g & Hd & Hg & He & _).
      assert (within ds (alter (fun g => g + 1) i given)) as Hin'.
      { apply Forall2_alter_r; [done|]. intros m' g' Hm' Hg' ?. simplify_eq.
        unfold eligible in He. zprop. simpl in *. lia. }
      destruct (IH _ Hin') as (? & Hle & Hsum). split_and!; [done| |].
      * etrans; [|exact Hle]. apply Forall2_alter_r; [reflexivity|]. intros. lia.
      * rewrite (zsum_increment _ _ _ Hg) in Hsum.
        destruct Hsum as [Hsum|[Hsum Hno]]; [left; lia|right]. split; [lia|done].
    + split_and!; [done|reflexivity|]. right. split; [lia|done].
Qed.

(** All seats are given unless every download has what it wants. *)
Lemma allocation_spec limit_ ds :
  Forall (fun m => 1 <= wanted m.2) ds -> 0 < limit_ ->
  within ds (allocation limit_ ds) /\
  zsum (allocation limit_ ds) = Z.min limit_ (zsum ((fun m => wanted m.2) <$> ds)) /\
  (forall i m, ds !! i = Some m -> Z.of_nat i < limit_ ->
     exists g, allocation limit_ ds !! i = Some g /\ 1 <= g).
Proof.
  intros Hw Hl. unfold allocation. destruct (firstSeats ds limit_) as [given rest] eqn:Hf.
  destruct (firstSeats_spec ds limit_ given rest) as (Hin & Hsum & Hrest & Hone & Hfirst);
    [done|lia|done|].
  destruct (restSeats_spec (Z.to_nat rest) ds given Hin) as (Hin' & Hle & Hsum').
  set (final := restSeats (Z.to_nat rest) ds given) in *. clearbody final.
  rewrite Z2Nat.id in Hsum' by done. split_and!; [done| |].
  - assert (zsum final <= zsum ((fun m => wanted m.2) <$> ds)) as Hwant.
    { clear -Hin'. apply zsum_le. apply Forall2_fmap_r, Forall2_flip.
      eapply Forall2_impl; [exact Hin'|]. intros m g [_ Hg]. exact Hg. }
    destruct Hsum' as [Hsum'|[Hsum' Hno]]; [lia|].
    (* seats are left over: nobody wants another *)
    pose proof (zsum_le _ _ Hle).
    assert (zsum ((fun m => wanted m.2) <$> ds) <= zsum final); [|lia].
    apply zsum_le, Forall2_fmap_l, Forall2_same_length_lookup_2.
    { by eapply Forall2_length. }
    intros i [m d] g Hd Hg. specialize (Hno i m d g Hd Hg).
    destruct (Forall2_lookup_r _ _ _ _ _ Hle Hg) as (g0 & Hg0 & Hle0).
    rewrite Forall_lookup in Hone. specialize (Hone ltac:(lia) i g0 Hg0).
    unfold eligible in Hno. apply negb_false_iff, orb_prop in Hno as [?|?]; zprop; simpl; lia.
  - intros i m Hi Hil. specialize (Hfirst i m Hi). destruct (Z.ltb_spec (Z.of_nat i) limit_); [|lia].
    destruct (Forall2_lookup_l _ _ _ _ _ Hle Hfirst) as (g & Hg & ?). eauto.
Qed.
End seats.

(** ** Lemmas: what the allocation depends on *)

(** Everything of a demand but the connections that deliver at the moment. *)
Definition strip (m : Z * Demand) : Z * Demand :=
  (m.1, mkDemand (host m.2) (wanted m.2) (remaining m.2) 0 (order m.2)).

Section strip.
Implicit Types (ds ms : list (Z * Demand)) (given : list Z).

Lemma insertByOrder_strip m ds :
  insertByOrder (strip m) (strip <$> ds) = strip <$> insertByOrder m ds.
Proof.
  induction ds as [|m' ds IH]; simpl; [done|].
  destruct (order m.2 <? order m'.2); simpl; [done|]. by f_equal.
Qed.

Lemma membersOf_strip h ms : membersOf h (strip <$> ms) = strip <$> membersOf h ms.
Proof.
  unfold membersOf, sortByOrder. induction ms as [|m ms IH]; [done|].
  rewrite fmap_cons, !filter_cons. simpl. case_decide; [|done].
  simpl. by rewrite IH, insertByOrder_strip.
Qed.

Lemma firstSeats_strip ds seats : firstSeats (strip <$> ds) seats = firstSeats ds seats.
Proof.
  revert seats. induction ds as [|m ds IH]; intros seats; simpl; [done|]. by rewrite !IH.
Qed.

Lemma bestSeat_strip i ds given best :
  bestSeat i (strip <$> ds) given best = bestSeat i ds given best.
Proof.
  revert i given best. induction ds as [|[m d] ds IH]; intros i [|g given] best; simpl; try done; apply IH.
Qed.

Lemma restSeats_strip n ds given : restSeats n (strip <$> ds) given = restSeats n ds given.
Proof.
  revert given. induction n as [|n IH]; intros given; simpl; [done|].
  rewrite bestSeat_strip. by destruct (bestSeat 0 ds given None) as [[i q]|].
Qed.

Lemma allocation_strip limit_ ds : allocation limit_ (strip <$> ds) = allocation limit_ ds.
Proof.
  unfold allocation. rewrite firstSeats_strip. destruct (firstSeats ds limit_).
  apply restSeats_strip.
Qed.

Lemma setAllowances_strip ds given al :
  setAllowances (strip <$> ds) given al = setAllowances ds given al.
Proof.
  unfold setAllowances. revert given al.
  induction ds as [|[m d] ds IH]; intros [|g given] al; simpl; done.
Qed.

(** The limit that applies to a host; [0] is none. *)
Definition limitIn (h : string) (hs : stdmap string Host) : Z :=
  default 0 (limit <$> find h hs).

Lemma allocate_limit h ms hs al :
  allocate h ms hs al =
  setAllowances (membersOf h ms)
    (if limitIn h hs <=? 0 then (fun m => wanted m.2) <$> membersOf h ms
     else allocation (limitIn h hs) (membersOf h ms)) al.
Proof.
  unfold allocate, limitIn. destruct (find h hs) as [state|]; simpl; [|done].
  by destruct (limit state <=? 0).
Qed.

Lemma allocate_strip h ms hs al : allocate h (strip <$> ms) hs al = allocate h ms hs al.
Proof.
  rewrite !allocate_limit, membersOf_strip, setAllowances_strip, allocation_strip.
  by rewrite <- list_fmap_compose.
Qed.

Lemma allocateAll_strip ms hs : allocateAll (strip <$> ms) hs = allocateAll ms hs.
Proof.
  unfold allocateAll. f_equal. rewrite foldl_fmap_arg. apply foldl_ext_elem.
  intros [al done] [m d] _. simpl. by rewrite allocate_strip.
Qed.

Lemma allocateAll_congr ms ms' hs hs' :
  strip <$> ms = strip <$> ms' ->
  (forall m d, (m, d) ∈ ms -> limitIn (host d) hs = limitIn (host d) hs') ->
  allocateAll ms hs = allocateAll ms' hs'.
Proof.
  intros Hstrip Hlim. rewrite <- (allocateAll_strip ms'), <- Hstrip, allocateAll_strip.
  unfold allocateAll. f_equal. apply foldl_ext_elem. intros [al done] [m d] Hin.
  by rewrite !allocate_limit, (Hlim m d Hin).
Qed.
End strip.

(** ** Lemmas: the table the allocation builds *)

Section table.
Implicit Types (ds ms : list (Z * Demand)) (al : stdmap Z Z).

Lemma setAllowances_sorted ds given al : sorted al -> sorted (setAllowances ds given al).
Proof.
  unfold setAllowances. generalize (zip ds given). intros l. revert al.
  induction l as [|[[m d] g] l IH]; intros al Hs; simpl; [done|]. auto with aria2.
Qed.

Lemma find_setAllowances ds given al m :
  sorted al -> NoDup ds.*1 -> length ds = length given ->
  (forall i d g, ds !! i = Some (m, d) -> given !! i = Some g ->
     find m (setAllowances ds given al) = Some g) /\
  (m ∉ ds.*1 -> find m (setAllowances ds given al) = find m al).
Proof.
  unfold setAllowances. revert given al.
  induction ds as [|[m0 d0] ds IH]; intros [|g0 given] al Hs Hnd Hlen; simpl in *; try done.
  apply NoDup_cons in Hnd as [Hnin Hnd].
  destruct (IH given (put m0 g0 al)) as [Hin Hout]; [auto with aria2|done|lia|]. split.
  - intros [|i] d g Hd Hg; simplify_eq/=; [|eauto].
    rewrite Hout by done. by apply find_put_eq.
  - intros Hm. apply not_elem_of_cons in Hm as [Hne Hm]. rewrite Hout by done.
    by apply find_put_ne.
Qed.

Lemma insertByOrder_perm m ds : insertByOrder m ds ≡ₚ m :: ds.
Proof.
  induction ds as [|m' ds IH]; simpl; [done|].
  destruct (order m.2 <? order m'.2); [done|]. rewrite IH. apply Permutation_swap.
Qed.

Lemma sortByOrder_perm ds : sortByOrder ds ≡ₚ ds.
Proof. induction ds as [|m ds IH]; simpl; [done|]. by rewrite insertByOrder_perm, IH. Qed.

Lemma insertByOrder_sorted m ds :
  StronglySorted (fun a b => order a.2 <= order b.2) ds ->
  StronglySorted (fun a b => order a.2 <= order b.2) (insertByOrder m ds).
Proof.
  induction 1 as [|m' ds Hds IH Hall]; simpl; [repeat constructor|].
  destruct (Z.ltb_spec (order m.2) (order m'.2)); constructor; try done.
  - by constructor.
  - constructor; [lia|]. eapply Forall_impl; [exact Hall|]. simpl. lia.
  - rewrite insertByOrder_perm. constructor; [lia|done].
Qed.

Lemma membersOf_sorted h ms : StronglySorted (fun a b => order a.2 <= order b.2) (membersOf h ms).
Proof.
  unfold membersOf, sortByOrder. induction (filter _ ms); simpl; [constructor|].
  by apply insertByOrder_sorted.
Qed.

Lemma elem_of_membersOf h ms m d : (m, d) ∈ membersOf h ms <-> host d = h /\ (m, d) ∈ ms.
Proof. unfold membersOf. by rewrite sortByOrder_perm, list_elem_of_filter. Qed.

Lemma NoDup_membersOf h ms : sorted ms -> NoDup (membersOf h ms).*1.
Proof.
  intros Hs. unfold membersOf. rewrite sortByOrder_perm.
  apply (sublist_NoDup _ ms.*1); [by apply sorted_NoDup_keys|apply fmap_sublist, sublist_filter].
Qed.

(** What the members of a host get under its limit. *)
Definition shares (limit_ : Z) ds : list Z :=
  if limit_ <=? 0 then (fun m => wanted m.2) <$> ds else allocation limit_ ds.

Lemma length_shares limit_ ds :
  Forall (fun m => 1 <= wanted m.2) ds -> length ds = length (shares limit_ ds).
Proof.
  intros Hw. unfold shares. destruct (Z.leb_spec limit_ 0); [by rewrite length_fmap|].
  destruct (allocation_spec limit_ ds) as [Hin _]; [done..|]. by eapply Forall2_length.
Qed.

Lemma Forall_membersOf h ms :
  Forall (fun m => 1 <= wanted m.2) ms -> Forall (fun m => 1 <= wanted m.2) (membersOf h ms).
Proof.
  rewrite !Forall_forall. intros Hw [m d] Hin. apply elem_of_membersOf in Hin as [_ Hin].
  by apply Hw.
Qed.

Lemma find_allocateAll ms hs i m d :
  sorted ms -> Forall (fun m => 1 <= wanted m.2) ms ->
  membersOf (host d) ms !! i = Some (m, d) ->
  find m (allocateAll ms hs) = shares (limitIn (host d) hs) (membersOf (host d) ms) !! i.
Proof.
  intros Hs Hw. unfold allocateAll.
  set (I := fun (prefix : list (Z * Demand)) (st : stdmap Z Z * list string) =>
    sorted st.1 /\ (forall m d, (m, d) ∈ prefix -> host d ∈ st.2) /\
    forall i m d, host d ∈ st.2 -> membersOf (host d) ms !! i = Some (m, d) ->
      find m st.1 = shares (limitIn (host d) hs) (membersOf (host d) ms) !! i).
  match goal with |- context [foldl ?body _ _] => set (f := body) end.
  assert (I ms (foldl f ([], []) ms)) as (_ & Hdone & Hfind).
  { apply (foldl_inv f I); [split_and!; simpl; [auto with aria2|set_solver..]|].
    intros prefix [m0 d0] [al seen] Hin0 (Hal & Hpre & Hfind). simpl in *.
    case_bool_decide as Hseen; [split_and!; [done|set_solver|done]|].
    set (mo := membersOf (host d0) ms) in *.
    assert (length mo = length (shares (limitIn (host d0) hs) mo)) as Hlen
      by by apply length_shares, Forall_membersOf.
    assert (NoDup mo.*1) as Hnd by by apply NoDup_membersOf.
    rewrite allocate_limit. fold mo. change (if _ <=? 0 then _ else _) with
      (shares (limitIn (host d0) hs) mo).
    split_and!; [by apply setAllowances_sorted|set_solver|]. simpl.
    intros j m1 d1 Hd1 Hj.
    destruct (find_setAllowances mo (shares (limitIn (host d0) hs) mo) al m1)
      as [Hset Hkeep]; [done..|].
    destruct (decide (host d1 = host d0)) as [Heq|Hne].
    - rewrite Heq in *. fold mo in Hj |- *.
      destruct (lookup_lt_is_Some_2 (shares (limitIn (host d0) hs) mo) j) as [g Hg].
      { rewrite <- Hlen. by eapply lookup_lt_Some. }
      rewrite Hg. by eapply Hset.
    - rewrite Hkeep; [apply Hfind; [set_solver|done]|].
      intros ([m2 d2] & -> & H2)%list_elem_of_fmap. simpl in *.
      apply elem_of_membersOf in H2 as [Hh2 H2].
      apply list_elem_of_lookup_2, elem_of_membersOf in Hj as [_ Hj].
      assert (d1 = d2) as <- by (apply elem_find in H2, Hj; naive_solver). done. }
  intros Hi. apply Hfind; [|done]. apply list_elem_of_lookup_2, elem_of_membersOf in Hi as [_ Hi].
  by eapply Hdone.
Qed.
End table.

(** ** Lemmas: the invariant of the pool *)

Inductive call :=
| Update (member : Z) (host_ : string) (wanted_ remaining_ transferring_ : Z)
| Leave (member : Z)
| Allowance (member : Z)
| Overloaded (member sent now readyAt_ : Z)
| Tick (now : Z).

Definition exec (c : call) (p : pool) : pool :=
  match c with
  | Update m h w r t => update m h w r t p
  | Leave m => leave m p
  | Allowance m => (allowance m p).2
  | Overloaded m sent now ready => overloaded m sent now ready p
  | Tick now => tick now p
  end.

(** The number of connections that deliver is not negative. *)
Definition call_ok (c : call) : Prop :=
  match c with Update _ _ _ _ t => 0 <= t | _ => True end.

Definition reachable (p : pool) : Prop :=
  rtc (fun q q' => exists c, call_ok c /\ q' = exec c q) create p.

Definition demand_ok (n : Z) (d : Demand) : Prop :=
  1 <= wanted d /\ 0 <= transferring d /\ order d < n.

(** A limit that is in force covers what the server is serving. *)
Definition host_ok (ms : stdmap Z Demand) (h : string) (state : Host) : Prop :=
  0 <= limit state /\ 0 <= strikes state /\
  (0 < limit state -> transferringOf h ms <= limit state).

Record pool_ok (p : pool) : Prop := {
  ok_members : sorted (members p);
  ok_hosts : sorted (hosts p);
  ok_demand : forall m d, find m (members p) = Some d -> demand_ok (nextOrder p) d;
  ok_order : forall m m' d d',
    find m (members p) = Some d -> find m' (members p) = Some d' -> order d = order d' -> m = m';
  ok_host : forall h state, find h (hosts p) = Some state -> host_ok (members p) h state;
  ok_cache : stale p = false -> allowances p = allocateAll (members p) (hosts p);
}.

Section invariant.
Implicit Types (ms : stdmap Z Demand) (p : pool) (h : string).

Lemma transferringOf_zsum h ms :
  transferringOf h ms =
  zsum ((fun m => if bool_decide (host m.2 = h) then transferring m.2 else 0) <$> ms).
Proof.
  unfold transferringOf. match goal with |- foldl ?f _ _ = ?z => set (body := f); set (sum := z) end.
  cut (forall acc, foldl body acc ms = acc + sum); [intros Hcut; by rewrite Hcut|]. subst sum.
  induction ms as [|[m d] ms IH]; intros acc; [simpl; lia|].
  rewrite fmap_cons, zsum_cons. simpl foldl. rewrite IH. simpl. lia.
Qed.

Lemma transferringOf_perm h ms ms' : ms ≡ₚ ms' -> transferringOf h ms = transferringOf h ms'.
Proof. intros Hp. rewrite !transferringOf_zsum. by apply zsum_perm, fmap_Permutation. Qed.

Lemma transferringOf_cons h m d ms :
  transferringOf h ((m, d) :: ms) =
  (if bool_decide (host d = h) then transferring d else 0) + transferringOf h ms.
Proof. by rewrite !transferringOf_zsum. Qed.

(** A member's new demand changes the count of no server but its own. *)
Lemma transferringOf_put_ne h m d ms :
  sorted ms -> (forall m d, find m ms = Some d -> 0 <= transferring d) -> host d <> h ->
  transferringOf h (put m d ms) <= transferringOf h ms.
Proof.
  intros Hs Hpos Hne. rewrite (transferringOf_perm _ _ _ (put_perm m d ms Hs)).
  rewrite transferringOf_cons, bool_decide_false by done.
  destruct (find m ms) as [d0|] eqn:Hf.
  - rewrite (transferringOf_perm _ _ _ (erase_perm m d0 ms Hf Hs)), transferringOf_cons.
    specialize (Hpos _ _ Hf). case_bool_decide; lia.
  - by rewrite erase_absent.
Qed.

Lemma transferringOf_erase h m ms :
  sorted ms -> (forall m d, find m ms = Some d -> 0 <= transferring d) ->
  transferringOf h (erase m ms) <= transferringOf h ms.
Proof.
  intros Hs Hpos. destruct (find m ms) as [d|] eqn:Hf.
  - rewrite (transferringOf_perm _ _ _ (erase_perm m d ms Hf Hs)), transferringOf_cons.
    specialize (Hpos _ _ Hf). case_bool_decide; lia.
  - by rewrite erase_absent.
Qed.

Lemma pool_create_ok : pool_ok create.
Proof. split; simpl; auto with aria2; done. Qed.

Lemma ok_transferring p m d : pool_ok p -> find m (members p) = Some d -> 0 <= transferring d.
Proof. intros Hok Hf. by apply (ok_demand _ Hok) in Hf as (? & ? & ?). Qed.

(** The demand [update] starts from. *)
Definition known (m : Z) p : Demand := default (newDemand (nextOrder p)) (find m (members p)).

(** The hosts after [update]: the limit rises to what the server serves. *)
Definition raise h ms (hs : stdmap string Host) : stdmap string Host :=
  match find h hs with
  | Some state =>
      if (0 <? limit state) && (limit state <? transferringOf h ms) then
        put h (mkHost (transferringOf h ms) (strikes state) (calmSince state) (dropped state)
                 (readyAt state)) hs
      else hs
  | None => hs
  end.

Lemma update_eq m h w r t p :
  let d := mkDemand h (Z.max 1 w) r t (order (known m p)) in
  let ms := put m d (members p) in
  members (update m h w r t p) = ms /\
  hosts (update m h w r t p) = raise h ms (hosts p) /\
  allowances (update m h w r t p) = allowances p /\
  nextOrder p <= nextOrder (update m h w r t p) /\
  (find m (members p) = None -> nextOrder (update m h w r t p) = nextOrder p + 1) /\
  (stale (update m h w r t p) = false ->
     stale p = false /\ raise h ms (hosts p) = hosts p /\
     find m (members p) = Some (known m p) /\
     (1 <= wanted (known m p) -> strip (m, d) = strip (m, known m p))).
Proof.
  unfold update, raise, known. destruct (find m (members p)) as [d|] eqn:Hf;
  (destruct (find h (hosts p)) as [state|];
   [destruct (0 <? limit state); [destruct (limit state <? _)|]|]); simpl;
  (split_and!; try done; try lia).
  all: rewrite ?orb_true_r; try done; rewrite ?orb_false_iff, ?negb_false_iff.
  all: intros ((((? & _) & ?%bool_decide_eq_true) & ?) & ?); zprop; split_and!; try done.
  all: intros Hw; unfold strip; simpl; by rewrite Z.max_r by lia; subst.
Qed.

Lemma limitIn_put_same h h' state' (hs : stdmap string Host) :
  sorted hs -> limit state' = limitIn h hs -> limitIn h' (put h state' hs) = limitIn h' hs.
Proof.
  intros Hs Hl. destruct (decide (h' = h)) as [->|Hne]; unfold limitIn.
  - by rewrite find_put_eq.
  - by rewrite find_put_ne.
Qed.

Lemma raise_ok m d p :
  pool_ok p -> 0 <= transferring d ->
  sorted (raise (host d) (put m d (members p)) (hosts p)) /\
  forall h state, find h (raise (host d) (put m d (members p)) (hosts p)) = Some state ->
    host_ok (put m d (members p)) h state.
Proof.
  intros Hok Ht. set (ms := put m d (members p)).
  assert (forall h state, find h (hosts p) = Some state -> h <> host d -> host_ok ms h state) as Hother.
  { intros h state Hf Hne. destruct (ok_host _ Hok _ _ Hf) as (? & ? & Hl). split_and!; [done..|].
    intros Hpos. specialize (Hl Hpos). subst ms. etrans; [|exact Hl].
    apply transferringOf_put_ne; [by apply ok_members|intros; by eapply ok_transferring|done]. }
  unfold raise. destruct (find (host d) (hosts p)) as [state|] eqn:Hf.
  - pose proof (ok_host _ Hok _ _ Hf) as (Hl & Hst & _). pose proof (ok_hosts _ Hok).
    destruct ((0 <? limit state) && _) eqn:Hr; [zprop; split; [auto with aria2|]|].
    + intros h st [[-> ->]|[Hne Hin]]%find_put_inv; [|auto|done].
      split_and!; simpl; [lia|done|]. unfold ms. lia.
    + apply andb_false_iff in Hr. split; [done|]. intros h st Hin.
      destruct (decide (h = host d)) as [->|]; [|auto]. simplify_eq. split_and!; [done..|].
      intros. destruct Hr; zprop; lia.
  - split; [by apply ok_hosts|]. intros h state Hin. apply Hother; congruence.
Qed.

Lemma update_ok m h w r t p : pool_ok p -> 0 <= t -> pool_ok (update m h w r t p).
Proof.
  intros Hok Ht. destruct (update_eq m h w r t p) as (Hm & Hh & Ha & Hn & Hnew & Hstale).
  set (d := mkDemand h (Z.max 1 w) r t (order (known m p))) in *.
  destruct (raise_ok m d p Hok Ht) as [Hsh Hhost].
  assert (sorted (members p)) as Hs by by apply ok_members.
  assert (forall m' d', find m' (members p) = Some d' -> m' <> m -> order d' <> order d) as Hdist.
  { intros m' d' Hf Hne. simpl. unfold known. destruct (find m (members p)) as [d0|] eqn:Hf0; simpl.
    - intros Heq. by apply Hne, (ok_order _ Hok m' m d' d0).
    - apply (ok_demand _ Hok) in Hf as (_ & _ & ?). lia. }
  split; rewrite ?Hm, ?Hh, ?Ha; [auto with aria2|done| | |done|].
  - intros m' d' [[-> ->]|[Hne Hf]]%find_put_inv; [| |done].
    + split_and!; simpl; [lia|done|]. unfold known in *.
      destruct (find m (members p)) as [d0|] eqn:Hf0; simpl; [|rewrite Hnew by done; lia].
      apply (ok_demand _ Hok) in Hf0 as (_ & _ & ?). lia.
    + apply (ok_demand _ Hok) in Hf as (? & ? & ?). split_and!; [done..|]. lia.
  - intros m1 m2 d1 d2 H1 H2 Heq.
    apply find_put_inv in H1 as [[-> ->]|[Hne1 H1]], H2 as [[-> ->]|[Hne2 H2]]; try done.
    + by destruct (Hdist m2 d2).
    + by destruct (Hdist m1 d1).
    + by apply (ok_order _ Hok m1 m2 d1 d2).
  - intros (Hst & Hraise & Hf & Hstrip)%Hstale. rewrite Hraise, (ok_cache _ Hok Hst).
    apply allocateAll_congr; [|done]. symmetry. eapply fmap_put_same; [done|]. apply Hstrip.
    by apply (ok_demand _ Hok) in Hf as (? & _).
Qed.

Lemma leave_ok m p : pool_ok p -> pool_ok (leave m p).
Proof.
  intros Hok. unfold leave. destruct (find m (members p)) as [d|] eqn:Hf; [|done].
  assert (sorted (members p)) as Hs by by apply ok_members.
  assert (forall h state, find h (hosts p) = Some state ->
    host_ok (erase m (members p)) h state) as Hhost.
  { intros h state (? & ? & Hl)%(ok_host _ Hok). split_and!; [done..|]. intros Hpos.
    etrans; [|by apply Hl].
    apply transferringOf_erase; [done|intros; by eapply ok_transferring]. }
  pose proof (ok_hosts _ Hok). split; simpl; [auto with aria2|..|done].
  - destruct (existsb _ _); auto with aria2.
  - intros m' d' [_ Hf']%find_erase_inv; [by apply (ok_demand _ Hok) in Hf'|done].
  - intros m1 m2 d1 d2 [_ H1]%find_erase_inv [_ H2]%find_erase_inv; [|done..].
    by apply (ok_order _ Hok).
  - intros h state. destruct (existsb _ _); [auto|].
    intros [_ Hin]%find_erase_inv; [auto|done].
Qed.

Lemma allowance_ok m p : pool_ok p -> pool_ok (allowance m p).2.
Proof.
  intros Hok. unfold allowance. destruct (find m (members p)); [|done]. simpl.
  destruct (stale p); [|done]. destruct Hok. by split.
Qed.

Lemma overloaded_ok m sent now ready p : pool_ok p -> pool_ok (overloaded m sent now ready p).
Proof.
  intros Hok. unfold overloaded. destruct (find m (members p)) as [d|] eqn:Hf; [|done].
  pose proof (ok_hosts _ Hok). destruct Hok as [Hs Hsh Hd Ho Hh Hc].
  set (state := default newHost (find (host d) (hosts p))).
  assert (host_ok (members p) (host d) state) as (Hl & Hst & Hserve).
  { subst state. destruct (find (host d) (hosts p)) eqn:E; simpl; [auto|done]. }
  destruct ((0 <? limit state) && (sent <? dropped state)) eqn:Hearly; [zprop|];
    (split; simpl; [done|auto with aria2|done|done|..]); try done.
  - intros h st [[-> ->]|[_ Hin]]%find_put_inv; [|auto|done]. by split_and!.
  - intros Hfresh. rewrite (Hc Hfresh). apply allocateAll_congr; [done|]. intros m' d' _.
    symmetry. apply limitIn_put_same; [done|]. subst state. unfold limitIn.
    by destruct (find (host d) (hosts p)).
  - intros h st [[-> ->]|[_ Hin]]%find_put_inv; [|auto|done].
    split_and!; simpl; [lia| |lia]. destruct (now - calmSince state <? calmPeriod); lia.
Qed.

(** ** Lemmas: [tick] *)

Lemma wantedOf_spec h ms :
  wantedOf h ms =
  match filter (fun m => host m.2 = h) ms with
  | [] => None
  | l => Some (zsum ((fun m => wanted m.2) <$> l))
  end.
Proof.
  unfold wantedOf. match goal with |- foldl ?f _ _ = _ => set (body := f) end.
  cut (forall acc, foldl body acc ms =
    match filter (fun m => host m.2 = h) ms with
    | [] => acc
    | l => Some (default 0 acc + zsum ((fun m => wanted m.2) <$> l))
    end).
  { intros Hcut. rewrite Hcut. by destruct (filter _ ms). }
  induction ms as [|[m d] ms IH]; intros acc; [done|]. rewrite filter_cons. simpl.
  rewrite IH. case_decide as Hh; [rewrite bool_decide_true by done|by rewrite bool_decide_false].
  destruct (filter _ ms) as [|[m' d'] l]; unfold zsum; simpl; f_equal; lia.
Qed.

Lemma wantedOf_used m d ms : (m, d) ∈ ms -> is_Some (wantedOf (host d) ms).
Proof.
  intros Hin. rewrite wantedOf_spec. destruct (filter _ ms) eqn:Hf; [|by eexists].
  assert ((m, d) ∈ filter (fun m => host m.2 = host d) ms) as Hin'
    by by apply list_elem_of_filter.
  rewrite Hf in Hin'. by apply elem_of_nil in Hin'.
Qed.

Lemma tick_hosts now p :
  hosts (tick now p) =
    omap_values (fun h state => fst <$> tickHost now (members p) h state) (hosts p).
Proof.
  unfold tick, omap_values. match goal with |- context [foldr ?f _ _] => set (body := f) end.
  destruct (foldr body ([], stale p) (hosts p)) as [hs st] eqn:Hfold. simpl.
  revert hs st Hfold. induction (hosts p) as [|[k state] l IH]; simpl; intros hs st Hfold;
    [by simplify_eq|].
  destruct (foldr body ([], stale p) l) as [hs0 st0]. specialize (IH hs0 st0 eq_refl).
  by destruct (tickHost now (members p) k state) as [[state' c]|]; simplify_eq/=.
Qed.

Lemma tick_stale now p :
  stale (tick now p) = false ->
  stale p = false /\
  forall h state state' c, (h, state) ∈ hosts p ->
    tickHost now (members p) h state = Some (state', c) -> c = false.
Proof.
  unfold tick. match goal with |- context [foldr ?f _ _] => set (body := f) end.
  destruct (foldr body ([], stale p) (hosts p)) as [hs st] eqn:Hfold. simpl.
  revert hs st Hfold. induction (hosts p) as [|[k state] l IH]; simpl; intros hs st Hfold Hst.
  { simplify_eq. split; [done|]. intros ? ? ? ? Hin. by apply elem_of_nil in Hin. }
  destruct (foldr body ([], stale p) l) as [hs0 st0].
  destruct (tickHost now (members p) k state) as [[state' c]|] eqn:Ht; simpl in Hfold;
    injection Hfold as <- <-.
  - apply orb_false_iff in Hst as [Hst ->]. destruct (IH hs0 st0 eq_refl Hst) as [Hp Hall].
    split; [done|]. intros h s1 s2 c [?|Hin]%elem_of_cons Hh; [|by eapply Hall]. by simplify_eq.
  - destruct (IH hs0 st0 eq_refl Hst) as [Hp Hall].
    split; [done|]. intros h s1 s2 c [?|Hin]%elem_of_cons Hh; [|by eapply Hall]. by simplify_eq.
Qed.

Lemma tickHost_unchanged now ms h state state' :
  tickHost now ms h state = Some (state', false) -> state' = state.
Proof. unfold tickHost. by repeat case_match; intros; simplify_eq. Qed.

Lemma tickHost_ok now ms h state state' c :
  host_ok ms h state -> tickHost now ms h state = Some (state', c) -> host_ok ms h state'.
Proof.
  intros (Hl & Hst & Hserve). unfold tickHost. destruct (wantedOf h ms); [|done].
  destruct (_ && _) eqn:?; zprop; intros; simplify_eq; [|done].
  split_and!; simpl; [|done|]; destruct (_ <=? _); lia.
Qed.

Lemma tick_ok now p : pool_ok p -> pool_ok (tick now p).
Proof.
  intros [Hs Hsh Hd Ho Hh Hc].
  assert (members (tick now p) = members p /\ nextOrder (tick now p) = nextOrder p /\
    allowances (tick now p) = allowances p) as (Em & En & Ea)
    by (unfold tick; by destruct (foldr _ _ _)).
  split; rewrite ?Em, ?En, ?Ea, ?tick_hosts; [done|auto with aria2|done|done|..].
  - intros h state'. rewrite find_omap_values, bind_Some by done.
    intros (state & Hf & ([state'' c] & Ht & ->)%fmap_Some). eapply tickHost_ok; eauto.
  - intros [Hfresh Hsame]%tick_stale. rewrite (Hc Hfresh). apply allocateAll_congr; [done|].
    intros m d Hin. unfold limitIn. rewrite find_omap_values by done.
    destruct (find (host d) (hosts p)) as [state|] eqn:Hf; simpl; [|done].
    destruct (tickHost now (members p) (host d) state) as [[state' c]|] eqn:Ht; simpl.
    + assert (c = false) as -> by (eapply Hsame; [by apply elem_find_iff|done]).
      by apply tickHost_unchanged in Ht as ->.
    + unfold tickHost in Ht. destruct (wantedOf_used m d (members p) Hin) as [x Hx].
      rewrite Hx in Ht. by destruct (_ && _).
Qed.

Lemma pool_reachable_ok p : reachable p -> pool_ok p.
Proof.
  intros Hr. eapply (rtc_ind_r pool_ok create); [apply pool_create_ok| |exact Hr].
  intros q q' _ (c & Hc & ->) Hok. destruct c; simpl in *.
  - by apply update_ok.
  - by apply leave_ok.
  - by apply allowance_ok.
  - by apply overloaded_ok.
  - by apply tick_ok.
Qed.

Lemma ok_wanted p : pool_ok p -> Forall (fun m => 1 <= wanted m.2) (members p).
Proof.
  intros Hok. apply Forall_forall. intros [m d] Hin.
  apply elem_find in Hin; [|by apply ok_members]. by apply (ok_demand _ Hok) in Hin as (? & _).
Qed.

(** The answer of [allowance] is the same with and without the cache. *)
Lemma allowance_share i m d p :
  pool_ok p -> membersOf (host d) (members p) !! i = Some (m, d) ->
  Some (allowance m p).1 =
    shares (limitOf (host d) p) (membersOf (host d) (members p)) !! i.
Proof.
  intros Hok Hi. pose proof (ok_wanted p Hok) as Hw. pose proof (ok_members _ Hok) as Hs.
  pose proof Hi as Hin. apply list_elem_of_lookup_2, elem_of_membersOf in Hin as [_ Hin].
  apply elem_find in Hin; [|done]. unfold allowance. rewrite Hin.
  pose proof (find_allocateAll (members p) (hosts p) i m d Hs Hw Hi) as Hfind.
  assert (length (membersOf (host d) (members p)) =
    length (shares (limitOf (host d) p) (membersOf (host d) (members p)))) as Hlen
    by by apply length_shares, Forall_membersOf.
  destruct (lookup_lt_is_Some_2 (shares (limitOf (host d) p) (membersOf (host d) (members p))) i)
    as [g Hg]; [rewrite <- Hlen; by eapply lookup_lt_Some|].
  change (limitIn (host d) (hosts p)) with (limitOf (host d) p) in Hfind. rewrite Hg in *.
  destruct (stale p) eqn:Hst; simpl; [by rewrite Hfind|].
  by rewrite (ok_cache _ Hok Hst), Hfind.
Qed.

Lemma allowances_are_shares h p :
  pool_ok p ->
  (fun m => (allowance m.1 p).1) <$> membersOf h (members p) =
  shares (limitOf h p) (membersOf h (members p)).
Proof.
  intros Hok. apply list_eq. intros i. rewrite list_lookup_fmap.
  destruct (membersOf h (members p) !! i) as [[m d]|] eqn:Hi; simpl.
  - assert (host d = h) as <-
      by by apply list_elem_of_lookup_2, elem_of_membersOf in Hi as [? _].
    by apply allowance_share.
  - symmetry. apply lookup_ge_None. apply lookup_ge_None in Hi.
    rewrite <- length_shares; [done|]. by apply Forall_membersOf, ok_wanted.
Qed.

(** Members and limits determine every allowance. *)
Lemma allowance_agree other p p' :
  pool_ok p -> pool_ok p' -> members p' = members p ->
  (forall h, limitOf h p' = limitOf h p) -> (allowance other p').1 = (allowance other p).1.
Proof.
  intros Hok Hok' Hm Hl. destruct (find other (members p)) as [d|] eqn:Hf.
  - assert ((other, d) ∈ membersOf (host d) (members p)) as Hin.
    { apply elem_of_membersOf. split; [done|]. apply elem_find_iff; [by apply ok_members|done]. }
    apply list_elem_of_lookup_1 in Hin as [i Hi].
    pose proof (allowance_share i other d p Hok Hi) as H1.
    rewrite <- Hm in Hi. pose proof (allowance_share i other d p' Hok' Hi) as H2.
    rewrite Hl, Hm, <- H1 in H2. congruence.
  - unfold allowance. by rewrite Hm, Hf.
Qed.

Lemma limitOf_state h p : limitOf h p = limit (default newHost (find h (hosts p))).
Proof. unfold limitOf. by destruct (find h (hosts p)). Qed.

Lemma readyTime_state m d p :
  find m (members p) = Some d ->
  readyTime m p = readyAt (default newHost (find (host d) (hosts p))).
Proof. intros Hf. unfold readyTime. rewrite Hf. by destruct (find (host d) (hosts p)). Qed.

Lemma pause_spec s :
  1 <= s ->
  Z.min maxPause (second * Z.shiftl 1 (Z.min (s - 1) 5)) =
    Z.min (8 * second) (second * 2 ^ (s - 1)) /\
  second <= Z.min (8 * second) (second * 2 ^ (s - 1)).
Proof.
  intros Hs. rewrite Z.shiftl_1_l. assert (0 < 2 ^ (s - 1)) by (apply Z.pow_pos_nonneg; lia).
  change maxPause with (8 * second). change second with 1000000000.
  destruct (Z.le_gt_cases (s - 1) 5); [rewrite (Z.min_l (s - 1)) by lia; split; lia|].
  rewrite (Z.min_r (s - 1)) by lia. assert (2 ^ 5 <= 2 ^ (s - 1)) by (apply Z.pow_le_mono_r; lia).
  change (2 ^ 5) with 32 in *. split; lia.
Qed.
End invariant.

(** A sequence of calls on a new pool. *)
Definition run (cs : list call) : pool := foldl (fun p c => exec c p) create cs.

Lemma run_reachable cs : Forall call_ok cs -> reachable (run cs).
Proof.
  intros Hcs. unfold run. apply (foldl_inv _ (fun _ p => reachable p)); [constructor|].
  intros _ c p Hin Hr. eapply rtc_r; [exact Hr|]. exists c. split; [|done].
  by eapply Forall_forall in Hcs.
Qed.

(** ** Theorems *)

(** C28. The cache is never out of date: after any sequence of calls, the
    allowance of a member is its share under the host's present limit, computed
    from the present demands of the host's members in joining order. *)
Theorem allowance_is_current_share m d p :
  reachable p -> find m (members p) = Some d ->
  exists i, membersOf (host d) (members p) !! i = Some (m, d) /\
    Some (allowance m p).1 =
      (if limitOf (host d) p <=? 0 then (fun m => wanted m.2) <$> membersOf (host d) (members p)
       else allocation (limitOf (host d) p) (membersOf (host d) (members p))) !! i.
Proof.
  intros Hok%pool_reachable_ok Hf. assert ((m, d) ∈ membersOf (host d) (members p)) as Hin.
  { apply elem_of_membersOf. split; [done|]. apply elem_find_iff; [by apply ok_members|done]. }
  apply list_elem_of_lookup_1 in Hin as [i Hi]. exists i. split; [done|]. by apply allowance_share.
Qed.

(** C29. The members of a limited host share exactly its connections: the
    allowances add up to the limit, or to all that is wanted if that is less;
    nobody gets more than it wants; and the first members to come, as many as
    the limit, get at least one connection each. *)
Theorem allowances_divide_limit h p :
  reachable p -> 0 < limitOf h p ->
  let ds := membersOf h (members p) in
  zsum ((fun m => (allowance m.1 p).1) <$> ds) =
    Z.min (limitOf h p) (zsum ((fun m => wanted m.2) <$> ds)) /\
  StronglySorted (fun a b => order a.2 <= order b.2) ds /\
  forall i m d, ds !! i = Some (m, d) ->
    0 <= (allowance m p).1 <= wanted d /\
    (Z.of_nat i < limitOf h p -> 1 <= (allowance m p).1).
Proof.
  intros Hok%pool_reachable_ok Hl ds. pose proof (allowances_are_shares h p Hok) as Hal. fold ds in Hal.
  destruct (allocation_spec (limitOf h p) ds) as (Hin & Hsum & Hfirst);
    [by apply Forall_membersOf, ok_wanted|done|].
  unfold shares in Hal. destruct (Z.leb_spec (limitOf h p) 0) as [|_]; [lia|].
  split_and!; [by rewrite Hal|apply membersOf_sorted|]. intros i m d Hi.
  assert (allocation (limitOf h p) ds !! i = Some (allowance m p).1) as Hg
    by by rewrite <- Hal, list_lookup_fmap, Hi.
  split; [by apply (Forall2_lookup_lr _ _ _ _ _ _ Hin Hi Hg)|].
  intros Hlt. destruct (Hfirst i (m, d) Hi Hlt) as (g & Hg' & ?). congruence.
Qed.

(** Each connection beyond the first of every member goes to a member
    that has the most bytes left per connection, among those that have a
    connection and want more; the loop ends early exactly when there is no such
    member. *)
Lemma extra_seat_to_largest_quotient seats ds given :
  length ds = length given ->
  (restSeats (S seats) ds given = given /\
   forall j m d g, ds !! j = Some (m, d) -> given !! j = Some g -> g = 0 \/ wanted d <= g) \/
  (exists i m d g, restSeats (S seats) ds given = restSeats seats ds (<[i := g + 1]> given) /\
   ds !! i = Some (m, d) /\ given !! i = Some g /\ g <> 0 /\ g < wanted d /\
   forall j m' d' g', ds !! j = Some (m', d') -> given !! j = Some g' -> g' <> 0 ->
     g' < wanted d' -> dltb (quotient d g) (quotient d' g') = false).
Proof.
  intros Hlen. pose proof (bestSeat_spec ds given Hlen) as Hbest. simpl restSeats.
  assert (forall d g, eligible d g = true <-> g <> 0 /\ g < wanted d) as Helig.
  { intros d g. unfold eligible. rewrite negb_true_iff, orb_false_iff, Z.eqb_neq, Z.leb_gt. done. }
  destruct (bestSeat 0 ds given None) as [[i q]|]; simpl in Hbest.
  - right. destruct Hbest as (m & d & g & Hd & Hg & [Hg0 Hgw]%Helig & -> & Hmax).
    exists i, m, d, g. split_and!; try done.
    + f_equal. apply list_eq. intros j. destruct (decide (i = j)) as [<-|].
      * rewrite list_lookup_alter_eq, Hg, list_lookup_insert_eq by (by eapply lookup_lt_Some). done.
      * by rewrite list_lookup_alter_ne, list_lookup_insert_ne.
    + intros j m' d' g' Hd' Hg' Hne Hlt. eapply Hmax; [done..|]. by apply Helig.
  - left. split; [done|]. intros j m d g Hd Hg. specialize (Hbest j m d g Hd Hg).
    destruct (decide (g = 0)); [tauto|]. right. destruct (Z.le_gt_cases (wanted d) g); [done|].
    assert (eligible d g = true) by (by apply Helig). congruence.
Qed.

(** A refusal lowers the limit once per window. Refusals of requests sent
    before the last drop leave limit and allowances alone; any other sets the
    limit to the connections the server answers now, at least one, and pauses
    new requests between one and eight seconds, doubling with each drop in a
    row. No refusal brings the time of the next request forward, and no other
    host is concerned. *)
Lemma overloaded_once_per_window m d sent now ready p :
  reachable p -> find m (members p) = Some d ->
  let p' := overloaded m sent now ready p in
  let state := default newHost (find (host d) (hosts p)) in
  members p' = members p /\
  (forall h, h <> host d -> find h (hosts p') = find h (hosts p)) /\
  Z.max (readyTime m p) ready <= readyTime m p' /\
  (0 < limitOf (host d) p /\ sent < dropped state ->
     limitOf (host d) p' = limitOf (host d) p /\ readyTime m p' = Z.max (readyTime m p) ready /\
     forall other, (allowance other p').1 = (allowance other p).1) /\
  (limitOf (host d) p <= 0 \/ dropped state <= sent ->
     limitOf (host d) p' = Z.max 1 (transferringNow m p) /\
     exists strikes_ pause,
       strikes_ = (if now - calmSince state <? calmPeriod then strikes state + 1 else 1) /\
       pause = Z.min (8 * second) (second * 2 ^ (strikes_ - 1)) /\
       second <= pause /\ readyTime m p' = Z.max (Z.max (readyTime m p) ready) (now + pause)).
Proof.
  intros Hok%pool_reachable_ok Hf p' state. pose proof (overloaded_ok m sent now ready p Hok) as Hok'.
  fold p' in Hok'. pose proof (ok_hosts _ Hok) as Hs.
  assert (0 <= strikes state) as Hstrikes.
  { subst state. destruct (find (host d) (hosts p)) eqn:Hh; [|done]. simpl.
    by apply (ok_host _ Hok) in Hh as (_ & ? & _). }
  assert (members p' = members p) as Hm.
  { subst p'. unfold overloaded. rewrite Hf. by destruct (_ && _). }
  rewrite !limitOf_state, (readyTime_state m d p), (readyTime_state m d p') by congruence.
  fold state. unfold transferringNow. rewrite Hf. split; [done|].
  revert Hok' Hm. subst p'. unfold overloaded. rewrite Hf. fold state.
  destruct ((0 <? limit state) && (sent <? dropped state)) eqn:Hearly; zprop; simpl;
    rewrite !find_put_eq by done; simpl; intros Hok' Hm.
  - split_and!; [intros; by apply find_put_ne|lia| |lia]. intros _. split_and!; [done..|].
    intros other. apply allowance_agree; [done..|]. intros h. apply limitIn_put_same; [done|].
    symmetry. apply (limitOf_state (host d) p).
  - set (s := if now - calmSince state <? calmPeriod then strikes state + 1 else 1).
    destruct (pause_spec s) as [-> Hp]; [subst s; destruct (now - calmSince state <? calmPeriod); lia|].
    split_and!; [intros; by apply find_put_ne|lia| |].
    + intros [? ?]. destruct (Z.ltb_spec 0 (limit state)), (Z.ltb_spec sent (dropped state)); done || lia.
    + intros _. split; [done|]. eauto 10.
Qed.

(** A limit in force never falls below the connections the server is
    serving, it rises by one per calm period without a refusal and is lifted once
    it covers what the members want; a host without members is forgotten. *)
Lemma limit_recovers h now p :
  reachable p ->
  let ds := membersOf h (members p) in
  let state := default newHost (find h (hosts p)) in
  (0 < limitOf h p -> transferringOf h (members p) <= limitOf h p) /\
  (ds = [] -> find h (hosts (tick now p)) = None) /\
  (ds <> [] -> limitOf h (tick now p) =
     if (0 <? limitOf h p) && (calmPeriod <=? now - calmSince state)
     then if zsum ((fun m => wanted m.2) <$> ds) <=? limitOf h p + 1 then 0 else limitOf h p + 1
     else limitOf h p).
Proof.
  intros Hok%pool_reachable_ok ds state.
  assert (wantedOf h (members p) =
    match ds with [] => None | _ => Some (zsum ((fun m => wanted m.2) <$> ds)) end) as Hw.
  { rewrite wantedOf_spec. subst ds. unfold membersOf.
    pose proof (sortByOrder_perm (filter (fun m => host m.2 = h) (members p))) as Hp.
    pose proof (zsum_perm _ _ (fmap_Permutation (fun m => wanted m.2) _ _ Hp)) as Hsum.
    destruct (filter _ _) as [|x l]; [by apply Permutation_nil_r in Hp as ->|].
    destruct (sortByOrder (x :: l)) as [|y l'] eqn:Hy; [by apply Permutation_nil_l in Hp|].
    by rewrite Hsum. }
  rewrite !limitOf_state, tick_hosts, !find_omap_values by by apply ok_hosts. fold state.
  split_and!.
  - intros Hl. subst state. destruct (find h (hosts p)) as [st|] eqn:Hh; simpl in *; [|lia].
    by apply (ok_host _ Hok _ _ Hh).
  - intros Hds. rewrite Hds in Hw. destruct (find h (hosts p)); simpl; [|done].
    unfold tickHost. by rewrite Hw.
  - intros Hds. destruct ds as [|x l]; [done|].
    subst state. destruct (find h (hosts p)) as [st|] eqn:Hh; simpl; [|done].
    unfold tickHost. rewrite Hw. by destruct (_ && _).
Qed.
End HostPool.

(** ** The scenarios of [tests/HostPoolTest.cc] *)

Module HostPoolExamples.
Import HostPool.

Definition V : Z := 1.
Definition A : Z := 2.
Definition S_ : Z := 3.
Definition cdn : string := "https://cdn:443".
Definition MiB : Z := 2 ^ 20.
Definition now : Z := 100 * second.
Definition allowed (m : Z) (cs : list call) : Z := (allowance m (run cs)).1.

Definition unlimited : list call := [Update A cdn 16 (48 * MiB) 16; Update V cdn 16 (128 * MiB) 0].

Definition divided : list call :=
  [Update A cdn 16 (48 * MiB) 16; Update S_ cdn 1 MiB 1; Update V cdn 16 (128 * MiB) 3;
   Overloaded V now now (now + second)].

Definition recovering : list call :=
  [Update V cdn 4 (1024 * MiB) 2; Overloaded V now now now; Tick (now + second);
   Tick (now + 6 * second)].

Definition lowered : list call :=
  [Update V cdn 16 (1024 * MiB) 10; Overloaded V now now now; Update V cdn 16 (1024 * MiB) 6].

Example every_request_granted : allowed A unlimited = 16 /\ allowed V unlimited = 16.
Proof. by vm_compute. Qed.

Example divided_by_remaining_bytes :
  limitOf cdn (run divided) = 20 /\ transferringNow V (run divided) = 20 /\
  readyTime A (run divided) = now + second /\
  (allowed S_ divided, allowed A divided, allowed V divided) = (1, 5, 14) /\
  allowed V (divided ++ [Allowance V; Leave S_; Leave A]) = 16.
Proof. by vm_compute. Qed.

Example one_connection_per_calm_period :
  allowed V (firstn 3 recovering) = 2 /\ allowed V recovering = 3 /\
  limitOf cdn (run (recovering ++ [Tick (now + 12 * second)])) = 0 /\
  allowed V (recovering ++ [Allowance V; Tick (now + 12 * second)]) = 4.
Proof. by vm_compute. Qed.

Example pauses_double :
  let drop k := Overloaded V (now + k * second) (now + k * second) (now + k * second) in
  let ready cs := readyTime V (run (Update V cdn 16 (1024 * MiB) 10 :: cs)) - now in
  ready [drop 0] = second /\ ready [drop 0; drop 2] = 4 * second /\
  ready [drop 0; drop 2; drop 4] = 8 * second /\
  ready [drop 0; drop 2; drop 4; Tick (now + 10 * second); drop 20] = 21 * second.
Proof. by vm_compute. Qed.

Example servers_apart :
  let cs := [Update V "https://a:443" 8 MiB 4; Update A "https://b:443" 8 MiB 8;
             Overloaded V now now now] in
  allowed V cs = 4 /\ allowed A cs = 8 /\
  limitOf "https://a:443" (run (cs ++ [Leave V])) = 0 /\
  allowed V (cs ++ [Overloaded A now now now; Leave A; Update V "https://b:443" 16 MiB 0]) = 16.
Proof. by vm_compute. Qed.

Ltac calls_ok := apply run_reachable; repeat constructor; simpl; done.

Lemma allowance_is_current_share_witness :
  exists i d, membersOf cdn (members (run divided)) !! i = Some (V, d) /\
    Some (allowance V (run divided)).1 = allocation 20 (membersOf cdn (members (run divided))) !! i.
Proof.
  destruct (allowance_is_current_share V (mkDemand cdn 16 (128 * MiB) 3 2) (run divided))
    as (i & Hi & Ha); [calls_ok|by vm_compute|].
  assert (limitOf cdn (run divided) = 20) as Hl by by vm_compute.
  change (host _) with cdn in *. rewrite Hl in Ha.
  exists i, (mkDemand cdn 16 (128 * MiB) 3 2). split; [exact Hi|exact Ha].
Defined.

Lemma allowances_divide_limit_witness :
  zsum ((fun m => (allowance m.1 (run divided)).1) <$> membersOf cdn (members (run divided))) = 20.
Proof.
  destruct (allowances_divide_limit cdn (run divided)) as [Hsum _]; [calls_ok|by vm_compute|].
  rewrite Hsum. by vm_compute.
Defined.

Lemma extra_seat_to_largest_quotient_witness :
  restSeats 1 (membersOf cdn (members (run divided))) [1; 1; 1] = [1; 1; 2].
Proof.
  destruct (extra_seat_to_largest_quotient 0 (membersOf cdn (members (run divided))) [1; 1; 1])
    as [[_ Hall]|(i & m & d & g & Heq & Hd & Hg & Hg0 & Hgw & Hmax)]; [by vm_compute| |].
  - by destruct (Hall 2%nat V (mkDemand cdn 16 (128 * MiB) 3 2) 1 eq_refl eq_refl).
  - rewrite Heq. simpl. by destruct i as [|[|[|i]]]; simplify_eq/=.
Defined.

Lemma overloaded_once_per_window_witness :
  limitOf cdn (overloaded V (now - second) (now + second) now (run lowered)) = 10.
Proof.
  destruct (overloaded_once_per_window V (mkDemand cdn 16 (1024 * MiB) 6 0) (now - second)
    (now + second) now (run lowered)) as (_ & _ & _ & Hearly & _); [calls_ok|by vm_compute|].
  destruct Hearly as [Hl _]; [by vm_compute|]. etrans; [exact Hl|]. by vm_compute.
Defined.

Lemma limit_recovers_witness : limitOf cdn (tick (now + 6 * second) (run (firstn 3 recovering))) = 3.
Proof.
  destruct (limit_recovers cdn (now + 6 * second) (run (firstn 3 recovering))) as (_ & _ & Hl);
    [calls_ok|]. rewrite Hl; by vm_compute.
Defined.
End HostPoolExamples.
