(* ===== verification/HttpState.v ===== *)
(** * An HTTP download: data and pure functions of [src/http/HttpTask.h],
      [src/http/Worker.h], [src/http/HttpTask.cc] and [src/http/Request.cc]

    A task fetches a file over connections ([Worker]s) that share the byte
    ranges of a [SegmentPlanner]; its connections to one server are counted in
    the [HostPool] of the engine. This file has the records, what a handler
    finds outside the task, and the functions on headers and addresses.

    Times are nanoseconds of [steady_clock]; [0] is [time_point{}]. Messages to
    the user and the speed meter are left out. *)

From S2P Require Import Prelude StdMap Double Bytes Text Ranges SegmentPlanner HostPool.

Module HttpState.
Import Bytes Text.

(** ** Constants *)

Definition seconds (n : Z) : Z := n * 10 ^ 9.
Definition milliseconds (n : Z) : Z := n * 10 ^ 6.
Definition tickSeconds : double := literal 1 2.
Definition minFlushSize : Z := Z.shiftl 64 10.
Definition maxFlushSize : Z := Z.shiftl 1 20.
Definition flushAfter : Z := seconds 1.
Definition writeBudget : Z := Z.shiftl 64 20.
Definition stallAfter : Z := seconds 8.
Definition slowGraceSeconds : double := of_int 5.
Definition slowFraction : double := literal 3 10.
Definition slowTicksLimit : Z := 6.
Definition slowWorthSeconds : double := of_int 10.
Definition recycleInterval : Z := seconds 5.
Definition maxRecycleStrikes : Z := 5.
Definition longRateSeconds : double := of_int 30.
Definition familySpeedRatio : double := of_int 4.
Definition probeHedge : Z := seconds 2.
Definition maxRestarts : Z := 3.
Definition maxRepairs : Z := 3.
Definition unbounded : Z := SegmentPlanner.unbounded.

(** ** Enumerations *)

Inductive Phase := Idle | Probing | Opening | Running | Restarting | Finishing | Stopping | Done.
#[export] Instance Phase_eq_dec : EqDecision Phase.
Proof. solve_decision. Defined.

(** The codes a task reports; [Configuration] stands for the code of an error
    that [Client::configure] throws. *)
Inductive ErrorCode :=
  | TimedOut | ResourceNotFound | Network | CannotResume | FileExists | RenameFailed | FileCreate
  | FileIo | NameResolve | HttpProtocol | TooManyRedirects | HttpAuth | ServiceUnavailable
  | Checksum | Configuration.
#[export] Instance ErrorCode_eq_dec : EqDecision ErrorCode.
Proof. solve_decision. Defined.

(** The codes of libcurl that are told apart. *)
Inductive CURLcode :=
  | CURLE_OK | CURLE_UNSUPPORTED_PROTOCOL | CURLE_URL_MALFORMAT | CURLE_COULDNT_RESOLVE_PROXY
  | CURLE_COULDNT_RESOLVE_HOST | CURLE_COULDNT_CONNECT | CURLE_REMOTE_ACCESS_DENIED
  | CURLE_HTTP_RETURNED_ERROR | CURLE_WRITE_ERROR | CURLE_OPERATION_TIMEDOUT
  | CURLE_SSL_CONNECT_ERROR | CURLE_TOO_MANY_REDIRECTS | CURLE_SEND_ERROR | CURLE_RECV_ERROR
  | CURLE_SSL_CERTPROBLEM | CURLE_PEER_FAILED_VERIFICATION | CURLE_LOGIN_DENIED
  | CURLE_SSL_CACERT_BADFILE | CURLE_REMOTE_FILE_NOT_FOUND | CURLE_SSL_ISSUER_ERROR
  | CURLE_SSL_PINNEDPUBKEYNOTMATCH | CURLE_OTHER.
#[export] Instance CURLcode_eq_dec : EqDecision CURLcode.
Proof. solve_decision. Defined.

(** What the disk thread is to do, and what follows a [close]. *)
Inductive after := AfterFinish | AfterRestart | AfterStop | AfterAbort.
Inductive op :=
  | Open (file : bytes) (truncate : bool)
  | Write (file : bytes) (offset : Z) (data : bytes)
  | Close (next : after).

(** Hashes under way: of the file, or of its pieces after the hash of the file
    failed or without one. *)
Inductive check := Whole | Pieces (failure : bool).
Inductive report := Stopped | Completed | Failed (code : ErrorCode) | HandedOver.

(** ** Records *)

Record Family := mkFamily {
  worked : bool;
  failed : bool;
  forced : bool; (* a connection was made to use it *)
  speed : double; (* average bytes per second of one connection *)
}.

Record Source := mkSource {
  uri : bytes;
  redirect : bytes; (* last validated redirect destination *)
  refreshing : bool; (* the destination expired; asking the URI again *)
  active : Z;
  notFound : Z;
  sourceFailures : Z;
  sourceReady : Z;
  dead : bool;
  v4 : Family;
  v6 : Family;
  familyMoved : bool;
  used : bool;
  sourceEtag : bytes;
  sourceModified : bytes;
}.

Record Worker := mkWorker {
  slot : nat;
  source : nat;
  begin : Z;
  requestEnd : Z;
  redirected : bool;
  family : Z;
  ifRange : bytes;
  status : Z;
  accepted : bool;
  done : bool; (* assignment complete; an abort is not a failure *)
  etag : bytes;
  lastModified : bytes;
  date : bytes;
  contentRange : bytes;
  contentType : bytes;
  contentEncoding : bytes;
  acceptRanges : bytes;
  retryAfter : bytes;
  contentLength : Z;
  block : bool; (* inside a header block *)
  buffer : bytes; (* received bytes not yet handed to the disk pool *)
  bufferOffset : Z;
  bufferedSince : Z;
  started : Z;
  lastData : Z;
  connected : bool;
  tickBytes : Z;
  received : Z;
  slowTicks : Z;
  receiving : bool;
  paused : bool;
}.

Record Slot := mkSlot {
  holder : option Z; (* the worker, by its id *)
  failures : Z;
  readyAt : Z;
}.

(** [TransferRecord]: what the store keeps of an unfinished download. *)
Record TransferRecord := mkRecord {
  recordUri : bytes;
  recordPath : bytes;
  recordEtag : bytes;
  recordModified : bytes;
  totalLength : Z;
  completed : list Range;
}.

(** The options a task reads; [outPath] is [--out] below [--dir], if given. *)
Record options := mkOptions {
  split : Z;
  maxConnectionPerServer : Z;
  maxTries : Z;
  retryWait : Z;
  maxFileNotFound : Z;
  httpAcceptGzip : bool;
  dryRun : bool;
  mediaAuto : bool;
  continue_ : bool;
  removeControlFile : bool;
  allowOverwrite : bool;
  autoFileRenaming : bool;
  disableIpv6 : bool;
  checksum : bool;
  incompleteSuffix : bytes;
  outPath : option bytes;
}.

(** What a handler finds: the time, which it reads once; the options; random
    numbers between two bounds, for each place that draws one; what libcurl
    tells of a connection; whether the speed limits let data through and
    whether there are any; the error of [configure]; the path that the name of
    a response gives, and whether it is the name of an archive; what other
    downloads write, the files that exist, their sizes and a free name; the
    records left by other tasks; and the state of the task in the engine. *)
Record env := mkEnv {
  now : Z;
  opts : options;
  draw : nat -> Z -> Z -> Z;
  connectedFamily : Z -> Z;
  effectiveUrl : Z -> bytes;
  responseCode : Z -> Z;
  downloadLength : Z -> Z;
  available : bool;
  unlimited : bool;
  configure : bytes -> option ErrorCode;
  chosenPath : Z -> bytes;
  archiveName : Z -> bool;
  writing : bytes -> bool;
  fileExists : bytes -> bool;
  fileSize : bytes -> Z;
  numberedPath : bytes -> option bytes;
  renameFails : bool;
  claimable : bytes -> option TransferRecord;
  isActive : bool;
  isComplete : bool;
}.

(** What the code uses of other code: [curl_getdate], the address of a server
    in a URL ([uri::parse]), whether its host is an IP address, and whether a
    media type is that of a manifest. *)
Class Library := {
  getdate : bytes -> Z;
  serverOf : bytes -> string;
  ipLiteral : bytes -> bool;
  manifestType : bytes -> bool;
}.

Section task.
Context {R : Type}.

Record task := mkTask {
  phase : Phase;
  sources : list Source;
  slots : list Slot;
  workers : stdmap Z Worker;
  nextWorkerId : Z;
  planner : SegmentPlanner.planner R;
  persisted : R;
  output : option bytes; (* the path of the open file *)
  held : list (Z * bytes);
  path : bytes;
  suffix : bytes;
  taskEtag : bytes;
  taskModified : bytes;
  owned : bool;
  ranged : bool;
  single : bool;
  rangesDistrusted : bool;
  tagsRotate : bool;
  restarts : Z;
  declared : Z;
  pieceLength : Z;
  pieceSources : list Z;
  repairs : Z;
  lastError : ErrorCode;
  pendingWrites : Z;
  unflushed : Z;
  longRate : double;
  recycleAfter : Z;
  recycleStrikes : Z;
  recycled : option (nat * double);
  stopped : bool; (* [stopped_] is set *)
  tickScheduled : bool;
  record : option TransferRecord; (* the store's, for this task *)
  pool : HostPool.pool;
  disk : bytes -> Z -> Z; (* the files, by path *)
  ops : list op; (* queued for the disk thread *)
  posts : nat; (* posted restarts *)
  checks : list check; (* running *)
  reports : list report; (* to the engine *)
}.

(** ** Updates *)

Definition set_phase (v : Phase) (t : task) : task :=
  mkTask v (sources t) (slots t) (workers t) (nextWorkerId t) (planner t) (persisted t) (output t) (held t)
    (path t) (suffix t) (taskEtag t) (taskModified t) (owned t) (ranged t) (single t) (rangesDistrusted t)
    (tagsRotate t) (restarts t) (declared t) (pieceLength t) (pieceSources t) (repairs t) (lastError t)
    (pendingWrites t) (unflushed t) (longRate t) (recycleAfter t) (recycleStrikes t) (recycled t)
    (stopped t) (tickScheduled t) (record t) (pool t) (disk t) (ops t) (posts t) (checks t) (reports t).
Definition set_sources (v : list Source) (t : task) : task :=
  mkTask (phase t) v (slots t) (workers t) (nextWorkerId t) (planner t) (persisted t) (output t) (held t)
    (path t) (suffix t) (taskEtag t) (taskModified t) (owned t) (ranged t) (single t) (rangesDistrusted t)
    (tagsRotate t) (restarts t) (declared t) (pieceLength t) (pieceSources t) (repairs t) (lastError t)
    (pendingWrites t) (unflushed t) (longRate t) (recycleAfter t) (recycleStrikes t) (recycled t)
    (stopped t) (tickScheduled t) (record t) (pool t) (disk t) (ops t) (posts t) (checks t) (reports t).
Definition set_slots (v : list Slot) (t : task) : task :=
  mkTask (phase t) (sources t) v (workers t) (nextWorkerId t) (planner t) (persisted t) (output t) (held t)
    (path t) (suffix t) (taskEtag t) (taskModified t) (owned t) (ranged t) (single t) (rangesDistrusted t)
    (tagsRotate t) (restarts t) (declared t) (pieceLength t) (pieceSources t) (repairs t) (lastError t)
    (pendingWrites t) (unflushed t) (longRate t) (recycleAfter t) (recycleStrikes t) (recycled t)
    (stopped t) (tickScheduled t) (record t) (pool t) (disk t) (ops t) (posts t) (checks t) (reports t).
Definition set_workers (v : stdmap Z Worker) (t : task) : task :=
  mkTask (phase t) (sources t) (slots t) v (nextWorkerId t) (planner t) (persisted t) (output t) (held t)
    (path t) (suffix t) (taskEtag t) (taskModified t) (owned t) (ranged t) (single t) (rangesDistrusted t)
    (tagsRotate t) (restarts t) (declared t) (pieceLength t) (pieceSources t) (repairs t) (lastError t)
    (pendingWrites t) (unflushed t) (longRate t) (recycleAfter t) (recycleStrikes t) (recycled t)
    (stopped t) (tickScheduled t) (record t) (pool t) (disk t) (ops t) (posts t) (checks t) (reports t).
Definition set_nextWorkerId (v : Z) (t : task) : task :=
  mkTask (phase t) (sources t) (slots t) (workers t) v (planner t) (persisted t) (output t) (held t)
    (path t) (suffix t) (taskEtag t) (taskModified t) (owned t) (ranged t) (single t) (rangesDistrusted t)
    (tagsRotate t) (restarts t) (declared t) (pieceLength t) (pieceSources t) (repairs t) (lastError t)
    (pendingWrites t) (unflushed t) (longRate t) (recycleAfter t) (recycleStrikes t) (recycled t)
    (stopped t) (tickScheduled t) (record t) (pool t) (disk t) (ops t) (posts t) (checks t) (reports t).
Definition set_planner (v : SegmentPlanner.planner R) (t : task) : task :=
  mkTask (phase t) (sources t) (slots t) (workers t) (nextWorkerId t) v (persisted t) (output t) (held t)
    (path t) (suffix t) (taskEtag t) (taskModified t) (owned t) (ranged t) (single t) (rangesDistrusted t)
    (tagsRotate t) (restarts t) (declared t) (pieceLength t) (pieceSources t) (repairs t) (lastError t)
    (pendingWrites t) (unflushed t) (longRate t) (recycleAfter t) (recycleStrikes t) (recycled t)
    (stopped t) (tickScheduled t) (record t) (pool t) (disk t) (ops t) (posts t) (checks t) (reports t).
Definition set_persisted (v : R) (t : task) : task :=
  mkTask (phase t) (sources t) (slots t) (workers t) (nextWorkerId t) (planner t) v (output t) (held t)
    (path t) (suffix t) (taskEtag t) (taskModified t) (owned t) (ranged t) (single t) (rangesDistrusted t)
    (tagsRotate t) (restarts t) (declared t) (pieceLength t) (pieceSources t) (repairs t) (lastError t)
    (pendingWrites t) (unflushed t) (longRate t) (recycleAfter t) (recycleStrikes t) (recycled t)
    (stopped t) (tickScheduled t) (record t) (pool t) (disk t) (ops t) (posts t) (checks t) (reports t).
Definition set_output (v : option bytes) (t : task) : task :=
  mkTask (phase t) (sources t) (slots t) (workers t) (nextWorkerId t) (planner t) (persisted t) v (held t)
    (path t) (suffix t) (taskEtag t) (taskModified t) (owned t) (ranged t) (single t) (rangesDistrusted t)
    (tagsRotate t) (restarts t) (declared t) (pieceLength t) (pieceSources t) (repairs t) (lastError t)
    (pendingWrites t) (unflushed t) (longRate t) (recycleAfter t) (recycleStrikes t) (recycled t)
    (stopped t) (tickScheduled t) (record t) (pool t) (disk t) (ops t) (posts t) (checks t) (reports t).
Definition set_held (v : list (Z * bytes)) (t : task) : task :=
  mkTask (phase t) (sources t) (slots t) (workers t) (nextWorkerId t) (planner t) (persisted t) (output t) v
    (path t) (suffix t) (taskEtag t) (taskModified t) (owned t) (ranged t) (single t) (rangesDistrusted t)
    (tagsRotate t) (restarts t) (declared t) (pieceLength t) (pieceSources t) (repairs t) (lastError t)
    (pendingWrites t) (unflushed t) (longRate t) (recycleAfter t) (recycleStrikes t) (recycled t)
    (stopped t) (tickScheduled t) (record t) (pool t) (disk t) (ops t) (posts t) (checks t) (reports t).
Definition set_path (v : bytes) (t : task) : task :=
  mkTask (phase t) (sources t) (slots t) (workers t) (nextWorkerId t) (planner t) (persisted t) (output t)
    (held t) v (suffix t) (taskEtag t) (taskModified t) (owned t) (ranged t) (single t) (rangesDistrusted t)
    (tagsRotate t) (restarts t) (declared t) (pieceLength t) (pieceSources t) (repairs t) (lastError t)
    (pendingWrites t) (unflushed t) (longRate t) (recycleAfter t) (recycleStrikes t) (recycled t)
    (stopped t) (tickScheduled t) (record t) (pool t) (disk t) (ops t) (posts t) (checks t) (reports t).
Definition set_suffix (v : bytes) (t : task) : task :=
  mkTask (phase t) (sources t) (slots t) (workers t) (nextWorkerId t) (planner t) (persisted t) (output t)
    (held t) (path t) v (taskEtag t) (taskModified t) (owned t) (ranged t) (single t) (rangesDistrusted t)
    (tagsRotate t) (restarts t) (declared t) (pieceLength t) (pieceSources t) (repairs t) (lastError t)
    (pendingWrites t) (unflushed t) (longRate t) (recycleAfter t) (recycleStrikes t) (recycled t)
    (stopped t) (tickScheduled t) (record t) (pool t) (disk t) (ops t) (posts t) (checks t) (reports t).
Definition set_taskEtag (v : bytes) (t : task) : task :=
  mkTask (phase t) (sources t) (slots t) (workers t) (nextWorkerId t) (planner t) (persisted t) (output t)
    (held t) (path t) (suffix t) v (taskModified t) (owned t) (ranged t) (single t) (rangesDistrusted t)
    (tagsRotate t) (restarts t) (declared t) (pieceLength t) (pieceSources t) (repairs t) (lastError t)
    (pendingWrites t) (unflushed t) (longRate t) (recycleAfter t) (recycleStrikes t) (recycled t)
    (stopped t) (tickScheduled t) (record t) (pool t) (disk t) (ops t) (posts t) (checks t) (reports t).
Definition set_taskModified (v : bytes) (t : task) : task :=
  mkTask (phase t) (sources t) (slots t) (workers t) (nextWorkerId t) (planner t) (persisted t) (output t)
    (held t) (path t) (suffix t) (taskEtag t) v (owned t) (ranged t) (single t) (rangesDistrusted t)
    (tagsRotate t) (restarts t) (declared t) (pieceLength t) (pieceSources t) (repairs t) (lastError t)
    (pendingWrites t) (unflushed t) (longRate t) (recycleAfter t) (recycleStrikes t) (recycled t)
    (stopped t) (tickScheduled t) (record t) (pool t) (disk t) (ops t) (posts t) (checks t) (reports t).
Definition set_owned (v : bool) (t : task) : task :=
  mkTask (phase t) (sources t) (slots t) (workers t) (nextWorkerId t) (planner t) (persisted t) (output t)
    (held t) (path t) (suffix t) (taskEtag t) (taskModified t) v (ranged t) (single t) (rangesDistrusted t)
    (tagsRotate t) (restarts t) (declared t) (pieceLength t) (pieceSources t) (repairs t) (lastError t)
    (pendingWrites t) (unflushed t) (longRate t) (recycleAfter t) (recycleStrikes t) (recycled t)
    (stopped t) (tickScheduled t) (record t) (pool t) (disk t) (ops t) (posts t) (checks t) (reports t).
Definition set_ranged (v : bool) (t : task) : task :=
  mkTask (phase t) (sources t) (slots t) (workers t) (nextWorkerId t) (planner t) (persisted t) (output t)
    (held t) (path t) (suffix t) (taskEtag t) (taskModified t) (owned t) v (single t) (rangesDistrusted t)
    (tagsRotate t) (restarts t) (declared t) (pieceLength t) (pieceSources t) (repairs t) (lastError t)
    (pendingWrites t) (unflushed t) (longRate t) (recycleAfter t) (recycleStrikes t) (recycled t)
    (stopped t) (tickScheduled t) (record t) (pool t) (disk t) (ops t) (posts t) (checks t) (reports t).
Definition set_single (v : bool) (t : task) : task :=
  mkTask (phase t) (sources t) (slots t) (workers t) (nextWorkerId t) (planner t) (persisted t) (output t)
    (held t) (path t) (suffix t) (taskEtag t) (taskModified t) (owned t) (ranged t) v (rangesDistrusted t)
    (tagsRotate t) (restarts t) (declared t) (pieceLength t) (pieceSources t) (repairs t) (lastError t)
    (pendingWrites t) (unflushed t) (longRate t) (recycleAfter t) (recycleStrikes t) (recycled t)
    (stopped t) (tickScheduled t) (record t) (pool t) (disk t) (ops t) (posts t) (checks t) (reports t).
Definition set_rangesDistrusted (v : bool) (t : task) : task :=
  mkTask (phase t) (sources t) (slots t) (workers t) (nextWorkerId t) (planner t) (persisted t) (output t)
    (held t) (path t) (suffix t) (taskEtag t) (taskModified t) (owned t) (ranged t) (single t) v
    (tagsRotate t) (restarts t) (declared t) (pieceLength t) (pieceSources t) (repairs t) (lastError t)
    (pendingWrites t) (unflushed t) (longRate t) (recycleAfter t) (recycleStrikes t) (recycled t)
    (stopped t) (tickScheduled t) (record t) (pool t) (disk t) (ops t) (posts t) (checks t) (reports t).
Definition set_tagsRotate (v : bool) (t : task) : task :=
  mkTask (phase t) (sources t) (slots t) (workers t) (nextWorkerId t) (planner t) (persisted t) (output t)
    (held t) (path t) (suffix t) (taskEtag t) (taskModified t) (owned t) (ranged t) (single t)
    (rangesDistrusted t) v (restarts t) (declared t) (pieceLength t) (pieceSources t) (repairs t)
    (lastError t) (pendingWrites t) (unflushed t) (longRate t) (recycleAfter t) (recycleStrikes t)
    (recycled t) (stopped t) (tickScheduled t) (record t) (pool t) (disk t) (ops t) (posts t) (checks t)
    (reports t).
Definition set_restarts (v : Z) (t : task) : task :=
  mkTask (phase t) (sources t) (slots t) (workers t) (nextWorkerId t) (planner t) (persisted t) (output t)
    (held t) (path t) (suffix t) (taskEtag t) (taskModified t) (owned t) (ranged t) (single t)
    (rangesDistrusted t) (tagsRotate t) v (declared t) (pieceLength t) (pieceSources t) (repairs t)
    (lastError t) (pendingWrites t) (unflushed t) (longRate t) (recycleAfter t) (recycleStrikes t)
    (recycled t) (stopped t) (tickScheduled t) (record t) (pool t) (disk t) (ops t) (posts t) (checks t)
    (reports t).
Definition set_pieceSources (v : list Z) (t : task) : task :=
  mkTask (phase t) (sources t) (slots t) (workers t) (nextWorkerId t) (planner t) (persisted t) (output t)
    (held t) (path t) (suffix t) (taskEtag t) (taskModified t) (owned t) (ranged t) (single t)
    (rangesDistrusted t) (tagsRotate t) (restarts t) (declared t) (pieceLength t) v (repairs t)
    (lastError t) (pendingWrites t) (unflushed t) (longRate t) (recycleAfter t) (recycleStrikes t)
    (recycled t) (stopped t) (tickScheduled t) (record t) (pool t) (disk t) (ops t) (posts t) (checks t)
    (reports t).
Definition set_repairs (v : Z) (t : task) : task :=
  mkTask (phase t) (sources t) (slots t) (workers t) (nextWorkerId t) (planner t) (persisted t) (output t)
    (held t) (path t) (suffix t) (taskEtag t) (taskModified t) (owned t) (ranged t) (single t)
    (rangesDistrusted t) (tagsRotate t) (restarts t) (declared t) (pieceLength t) (pieceSources t) v
    (lastError t) (pendingWrites t) (unflushed t) (longRate t) (recycleAfter t) (recycleStrikes t)
    (recycled t) (stopped t) (tickScheduled t) (record t) (pool t) (disk t) (ops t) (posts t) (checks t)
    (reports t).
Definition set_lastError (v : ErrorCode) (t : task) : task :=
  mkTask (phase t) (sources t) (slots t) (workers t) (nextWorkerId t) (planner t) (persisted t) (output t)
    (held t) (path t) (suffix t) (taskEtag t) (taskModified t) (owned t) (ranged t) (single t)
    (rangesDistrusted t) (tagsRotate t) (restarts t) (declared t) (pieceLength t) (pieceSources t)
    (repairs t) v (pendingWrites t) (unflushed t) (longRate t) (recycleAfter t) (recycleStrikes t)
    (recycled t) (stopped t) (tickScheduled t) (record t) (pool t) (disk t) (ops t) (posts t) (checks t)
    (reports t).
Definition set_pendingWrites (v : Z) (t : task) : task :=
  mkTask (phase t) (sources t) (slots t) (workers t) (nextWorkerId t) (planner t) (persisted t) (output t)
    (held t) (path t) (suffix t) (taskEtag t) (taskModified t) (owned t) (ranged t) (single t)
    (rangesDistrusted t) (tagsRotate t) (restarts t) (declared t) (pieceLength t) (pieceSources t)
    (repairs t) (lastError t) v (unflushed t) (longRate t) (recycleAfter t) (recycleStrikes t) (recycled t)
    (stopped t) (tickScheduled t) (record t) (pool t) (disk t) (ops t) (posts t) (checks t) (reports t).
Definition set_unflushed (v : Z) (t : task) : task :=
  mkTask (phase t) (sources t) (slots t) (workers t) (nextWorkerId t) (planner t) (persisted t) (output t)
    (held t) (path t) (suffix t) (taskEtag t) (taskModified t) (owned t) (ranged t) (single t)
    (rangesDistrusted t) (tagsRotate t) (restarts t) (declared t) (pieceLength t) (pieceSources t)
    (repairs t) (lastError t) (pendingWrites t) v (longRate t) (recycleAfter t) (recycleStrikes t)
    (recycled t) (stopped t) (tickScheduled t) (record t) (pool t) (disk t) (ops t) (posts t) (checks t)
    (reports t).
Definition set_longRate (v : double) (t : task) : task :=
  mkTask (phase t) (sources t) (slots t) (workers t) (nextWorkerId t) (planner t) (persisted t) (output t)
    (held t) (path t) (suffix t) (taskEtag t) (taskModified t) (owned t) (ranged t) (single t)
    (rangesDistrusted t) (tagsRotate t) (restarts t) (declared t) (pieceLength t) (pieceSources t)
    (repairs t) (lastError t) (pendingWrites t) (unflushed t) v (recycleAfter t) (recycleStrikes t)
    (recycled t) (stopped t) (tickScheduled t) (record t) (pool t) (disk t) (ops t) (posts t) (checks t)
    (reports t).
Definition set_recycleAfter (v : Z) (t : task) : task :=
  mkTask (phase t) (sources t) (slots t) (workers t) (nextWorkerId t) (planner t) (persisted t) (output t)
    (held t) (path t) (suffix t) (taskEtag t) (taskModified t) (owned t) (ranged t) (single t)
    (rangesDistrusted t) (tagsRotate t) (restarts t) (declared t) (pieceLength t) (pieceSources t)
    (repairs t) (lastError t) (pendingWrites t) (unflushed t) (longRate t) v (recycleStrikes t) (recycled t)
    (stopped t) (tickScheduled t) (record t) (pool t) (disk t) (ops t) (posts t) (checks t) (reports t).
Definition set_recycleStrikes (v : Z) (t : task) : task :=
  mkTask (phase t) (sources t) (slots t) (workers t) (nextWorkerId t) (planner t) (persisted t) (output t)
    (held t) (path t) (suffix t) (taskEtag t) (taskModified t) (owned t) (ranged t) (single t)
    (rangesDistrusted t) (tagsRotate t) (restarts t) (declared t) (pieceLength t) (pieceSources t)
    (repairs t) (lastError t) (pendingWrites t) (unflushed t) (longRate t) (recycleAfter t) v (recycled t)
    (stopped t) (tickScheduled t) (record t) (pool t) (disk t) (ops t) (posts t) (checks t) (reports t).
Definition set_recycled (v : option (nat * double)) (t : task) : task :=
  mkTask (phase t) (sources t) (slots t) (workers t) (nextWorkerId t) (planner t) (persisted t) (output t)
    (held t) (path t) (suffix t) (taskEtag t) (taskModified t) (owned t) (ranged t) (single t)
    (rangesDistrusted t) (tagsRotate t) (restarts t) (declared t) (pieceLength t) (pieceSources t)
    (repairs t) (lastError t) (pendingWrites t) (unflushed t) (longRate t) (recycleAfter t)
    (recycleStrikes t) v (stopped t) (tickScheduled t) (record t) (pool t) (disk t) (ops t) (posts t)
    (checks t) (reports t).
Definition set_stopped (v : bool) (t : task) : task :=
  mkTask (phase t) (sources t) (slots t) (workers t) (nextWorkerId t) (planner t) (persisted t) (output t)
    (held t) (path t) (suffix t) (taskEtag t) (taskModified t) (owned t) (ranged t) (single t)
    (rangesDistrusted t) (tagsRotate t) (restarts t) (declared t) (pieceLength t) (pieceSources t)
    (repairs t) (lastError t) (pendingWrites t) (unflushed t) (longRate t) (recycleAfter t)
    (recycleStrikes t) (recycled t) v (tickScheduled t) (record t) (pool t) (disk t) (ops t) (posts t)
    (checks t) (reports t).
Definition set_tickScheduled (v : bool) (t : task) : task :=
  mkTask (phase t) (sources t) (slots t) (workers t) (nextWorkerId t) (planner t) (persisted t) (output t)
    (held t) (path t) (suffix t) (taskEtag t) (taskModified t) (owned t) (ranged t) (single t)
    (rangesDistrusted t) (tagsRotate t) (restarts t) (declared t) (pieceLength t) (pieceSources t)
    (repairs t) (lastError t) (pendingWrites t) (unflushed t) (longRate t) (recycleAfter t)
    (recycleStrikes t) (recycled t) (stopped t) v (record t) (pool t) (disk t) (ops t) (posts t) (checks t)
    (reports t).
Definition set_record (v : option TransferRecord) (t : task) : task :=
  mkTask (phase t) (sources t) (slots t) (workers t) (nextWorkerId t) (planner t) (persisted t) (output t)
    (held t) (path t) (suffix t) (taskEtag t) (taskModified t) (owned t) (ranged t) (single t)
    (rangesDistrusted t) (tagsRotate t) (restarts t) (declared t) (pieceLength t) (pieceSources t)
    (repairs t) (lastError t) (pendingWrites t) (unflushed t) (longRate t) (recycleAfter t)
    (recycleStrikes t) (recycled t) (stopped t) (tickScheduled t) v (pool t) (disk t) (ops t) (posts t)
    (checks t) (reports t).
Definition set_pool (v : HostPool.pool) (t : task) : task :=
  mkTask (phase t) (sources t) (slots t) (workers t) (nextWorkerId t) (planner t) (persisted t) (output t)
    (held t) (path t) (suffix t) (taskEtag t) (taskModified t) (owned t) (ranged t) (single t)
    (rangesDistrusted t) (tagsRotate t) (restarts t) (declared t) (pieceLength t) (pieceSources t)
    (repairs t) (lastError t) (pendingWrites t) (unflushed t) (longRate t) (recycleAfter t)
    (recycleStrikes t) (recycled t) (stopped t) (tickScheduled t) (record t) v (disk t) (ops t) (posts t)
    (checks t) (reports t).
Definition set_disk (v : bytes -> Z -> Z) (t : task) : task :=
  mkTask (phase t) (sources t) (slots t) (workers t) (nextWorkerId t) (planner t) (persisted t) (output t)
    (held t) (path t) (suffix t) (taskEtag t) (taskModified t) (owned t) (ranged t) (single t)
    (rangesDistrusted t) (tagsRotate t) (restarts t) (declared t) (pieceLength t) (pieceSources t)
    (repairs t) (lastError t) (pendingWrites t) (unflushed t) (longRate t) (recycleAfter t)
    (recycleStrikes t) (recycled t) (stopped t) (tickScheduled t) (record t) (pool t) v (ops t) (posts t)
    (checks t) (reports t).
Definition set_ops (v : list op) (t : task) : task :=
  mkTask (phase t) (sources t) (slots t) (workers t) (nextWorkerId t) (planner t) (persisted t) (output t)
    (held t) (path t) (suffix t) (taskEtag t) (taskModified t) (owned t) (ranged t) (single t)
    (rangesDistrusted t) (tagsRotate t) (restarts t) (declared t) (pieceLength t) (pieceSources t)
    (repairs t) (lastError t) (pendingWrites t) (unflushed t) (longRate t) (recycleAfter t)
    (recycleStrikes t) (recycled t) (stopped t) (tickScheduled t) (record t) (pool t) (disk t) v (posts t)
    (checks t) (reports t).
Definition set_posts (v : nat) (t : task) : task :=
  mkTask (phase t) (sources t) (slots t) (workers t) (nextWorkerId t) (planner t) (persisted t) (output t)
    (held t) (path t) (suffix t) (taskEtag t) (taskModified t) (owned t) (ranged t) (single t)
    (rangesDistrusted t) (tagsRotate t) (restarts t) (declared t) (pieceLength t) (pieceSources t)
    (repairs t) (lastError t) (pendingWrites t) (unflushed t) (longRate t) (recycleAfter t)
    (recycleStrikes t) (recycled t) (stopped t) (tickScheduled t) (record t) (pool t) (disk t) (ops t) v
    (checks t) (reports t).
Definition set_checks (v : list check) (t : task) : task :=
  mkTask (phase t) (sources t) (slots t) (workers t) (nextWorkerId t) (planner t) (persisted t) (output t)
    (held t) (path t) (suffix t) (taskEtag t) (taskModified t) (owned t) (ranged t) (single t)
    (rangesDistrusted t) (tagsRotate t) (restarts t) (declared t) (pieceLength t) (pieceSources t)
    (repairs t) (lastError t) (pendingWrites t) (unflushed t) (longRate t) (recycleAfter t)
    (recycleStrikes t) (recycled t) (stopped t) (tickScheduled t) (record t) (pool t) (disk t) (ops t)
    (posts t) v (reports t).
Definition set_reports (v : list report) (t : task) : task :=
  mkTask (phase t) (sources t) (slots t) (workers t) (nextWorkerId t) (planner t) (persisted t) (output t)
    (held t) (path t) (suffix t) (taskEtag t) (taskModified t) (owned t) (ranged t) (single t)
    (rangesDistrusted t) (tagsRotate t) (restarts t) (declared t) (pieceLength t) (pieceSources t)
    (repairs t) (lastError t) (pendingWrites t) (unflushed t) (longRate t) (recycleAfter t)
    (recycleStrikes t) (recycled t) (stopped t) (tickScheduled t) (record t) (pool t) (disk t) (ops t)
    (posts t) (checks t) v.
End task.
Arguments task : clear implicits.

Definition set_worked (v : bool) (f : Family) : Family :=
  mkFamily v (failed f) (forced f) (speed f).
Definition set_failed (v : bool) (f : Family) : Family :=
  mkFamily (worked f) v (forced f) (speed f).
Definition set_forced (v : bool) (f : Family) : Family :=
  mkFamily (worked f) (failed f) v (speed f).
Definition set_speed (v : double) (f : Family) : Family :=
  mkFamily (worked f) (failed f) (forced f) v.
Definition set_redirect (v : bytes) (s : Source) : Source :=
  mkSource (uri s) v (refreshing s) (active s) (notFound s) (sourceFailures s) (sourceReady s) (dead s)
    (v4 s) (v6 s) (familyMoved s) (used s) (sourceEtag s) (sourceModified s).
Definition set_refreshing (v : bool) (s : Source) : Source :=
  mkSource (uri s) (redirect s) v (active s) (notFound s) (sourceFailures s) (sourceReady s) (dead s) (v4 s)
    (v6 s) (familyMoved s) (used s) (sourceEtag s) (sourceModified s).
Definition set_active (v : Z) (s : Source) : Source :=
  mkSource (uri s) (redirect s) (refreshing s) v (notFound s) (sourceFailures s) (sourceReady s) (dead s)
    (v4 s) (v6 s) (familyMoved s) (used s) (sourceEtag s) (sourceModified s).
Definition set_notFound (v : Z) (s : Source) : Source :=
  mkSource (uri s) (redirect s) (refreshing s) (active s) v (sourceFailures s) (sourceReady s) (dead s)
    (v4 s) (v6 s) (familyMoved s) (used s) (sourceEtag s) (sourceModified s).
Definition set_sourceFailures (v : Z) (s : Source) : Source :=
  mkSource (uri s) (redirect s) (refreshing s) (active s) (notFound s) v (sourceReady s) (dead s) (v4 s)
    (v6 s) (familyMoved s) (used s) (sourceEtag s) (sourceModified s).
Definition set_sourceReady (v : Z) (s : Source) : Source :=
  mkSource (uri s) (redirect s) (refreshing s) (active s) (notFound s) (sourceFailures s) v (dead s) (v4 s)
    (v6 s) (familyMoved s) (used s) (sourceEtag s) (sourceModified s).
Definition set_dead (v : bool) (s : Source) : Source :=
  mkSource (uri s) (redirect s) (refreshing s) (active s) (notFound s) (sourceFailures s) (sourceReady s) v
    (v4 s) (v6 s) (familyMoved s) (used s) (sourceEtag s) (sourceModified s).
Definition set_v4 (v : Family) (s : Source) : Source :=
  mkSource (uri s) (redirect s) (refreshing s) (active s) (notFound s) (sourceFailures s) (sourceReady s)
    (dead s) v (v6 s) (familyMoved s) (used s) (sourceEtag s) (sourceModified s).
Definition set_v6 (v : Family) (s : Source) : Source :=
  mkSource (uri s) (redirect s) (refreshing s) (active s) (notFound s) (sourceFailures s) (sourceReady s)
    (dead s) (v4 s) v (familyMoved s) (used s) (sourceEtag s) (sourceModified s).
Definition set_familyMoved (v : bool) (s : Source) : Source :=
  mkSource (uri s) (redirect s) (refreshing s) (active s) (notFound s) (sourceFailures s) (sourceReady s)
    (dead s) (v4 s) (v6 s) v (used s) (sourceEtag s) (sourceModified s).
Definition set_used (v : bool) (s : Source) : Source :=
  mkSource (uri s) (redirect s) (refreshing s) (active s) (notFound s) (sourceFailures s) (sourceReady s)
    (dead s) (v4 s) (v6 s) (familyMoved s) v (sourceEtag s) (sourceModified s).
Definition set_sourceEtag (v : bytes) (s : Source) : Source :=
  mkSource (uri s) (redirect s) (refreshing s) (active s) (notFound s) (sourceFailures s) (sourceReady s)
    (dead s) (v4 s) (v6 s) (familyMoved s) (used s) v (sourceModified s).
Definition set_sourceModified (v : bytes) (s : Source) : Source :=
  mkSource (uri s) (redirect s) (refreshing s) (active s) (notFound s) (sourceFailures s) (sourceReady s)
    (dead s) (v4 s) (v6 s) (familyMoved s) (used s) (sourceEtag s) v.
Definition set_redirected (v : bool) (w : Worker) : Worker :=
  mkWorker (slot w) (source w) (begin w) (requestEnd w) v (family w) (ifRange w) (status w) (accepted w)
    (done w) (etag w) (lastModified w) (date w) (contentRange w) (contentType w) (contentEncoding w)
    (acceptRanges w) (retryAfter w) (contentLength w) (block w) (buffer w) (bufferOffset w)
    (bufferedSince w) (started w) (lastData w) (connected w) (tickBytes w) (received w) (slowTicks w)
    (receiving w) (paused w).
Definition set_family (v : Z) (w : Worker) : Worker :=
  mkWorker (slot w) (source w) (begin w) (requestEnd w) (redirected w) v (ifRange w) (status w) (accepted w)
    (done w) (etag w) (lastModified w) (date w) (contentRange w) (contentType w) (contentEncoding w)
    (acceptRanges w) (retryAfter w) (contentLength w) (block w) (buffer w) (bufferOffset w)
    (bufferedSince w) (started w) (lastData w) (connected w) (tickBytes w) (received w) (slowTicks w)
    (receiving w) (paused w).
Definition set_ifRange (v : bytes) (w : Worker) : Worker :=
  mkWorker (slot w) (source w) (begin w) (requestEnd w) (redirected w) (family w) v (status w) (accepted w)
    (done w) (etag w) (lastModified w) (date w) (contentRange w) (contentType w) (contentEncoding w)
    (acceptRanges w) (retryAfter w) (contentLength w) (block w) (buffer w) (bufferOffset w)
    (bufferedSince w) (started w) (lastData w) (connected w) (tickBytes w) (received w) (slowTicks w)
    (receiving w) (paused w).
Definition set_status (v : Z) (w : Worker) : Worker :=
  mkWorker (slot w) (source w) (begin w) (requestEnd w) (redirected w) (family w) (ifRange w) v (accepted w)
    (done w) (etag w) (lastModified w) (date w) (contentRange w) (contentType w) (contentEncoding w)
    (acceptRanges w) (retryAfter w) (contentLength w) (block w) (buffer w) (bufferOffset w)
    (bufferedSince w) (started w) (lastData w) (connected w) (tickBytes w) (received w) (slowTicks w)
    (receiving w) (paused w).
Definition set_accepted (v : bool) (w : Worker) : Worker :=
  mkWorker (slot w) (source w) (begin w) (requestEnd w) (redirected w) (family w) (ifRange w) (status w) v
    (done w) (etag w) (lastModified w) (date w) (contentRange w) (contentType w) (contentEncoding w)
    (acceptRanges w) (retryAfter w) (contentLength w) (block w) (buffer w) (bufferOffset w)
    (bufferedSince w) (started w) (lastData w) (connected w) (tickBytes w) (received w) (slowTicks w)
    (receiving w) (paused w).
Definition set_done (v : bool) (w : Worker) : Worker :=
  mkWorker (slot w) (source w) (begin w) (requestEnd w) (redirected w) (family w) (ifRange w) (status w)
    (accepted w) v (etag w) (lastModified w) (date w) (contentRange w) (contentType w) (contentEncoding w)
    (acceptRanges w) (retryAfter w) (contentLength w) (block w) (buffer w) (bufferOffset w)
    (bufferedSince w) (started w) (lastData w) (connected w) (tickBytes w) (received w) (slowTicks w)
    (receiving w) (paused w).
Definition set_etag (v : bytes) (w : Worker) : Worker :=
  mkWorker (slot w) (source w) (begin w) (requestEnd w) (redirected w) (family w) (ifRange w) (status w)
    (accepted w) (done w) v (lastModified w) (date w) (contentRange w) (contentType w) (contentEncoding w)
    (acceptRanges w) (retryAfter w) (contentLength w) (block w) (buffer w) (bufferOffset w)
    (bufferedSince w) (started w) (lastData w) (connected w) (tickBytes w) (received w) (slowTicks w)
    (receiving w) (paused w).
Definition set_lastModified (v : bytes) (w : Worker) : Worker :=
  mkWorker (slot w) (source w) (begin w) (requestEnd w) (redirected w) (family w) (ifRange w) (status w)
    (accepted w) (done w) (etag w) v (date w) (contentRange w) (contentType w) (contentEncoding w)
    (acceptRanges w) (retryAfter w) (contentLength w) (block w) (buffer w) (bufferOffset w)
    (bufferedSince w) (started w) (lastData w) (connected w) (tickBytes w) (received w) (slowTicks w)
    (receiving w) (paused w).
Definition set_date (v : bytes) (w : Worker) : Worker :=
  mkWorker (slot w) (source w) (begin w) (requestEnd w) (redirected w) (family w) (ifRange w) (status w)
    (accepted w) (done w) (etag w) (lastModified w) v (contentRange w) (contentType w) (contentEncoding w)
    (acceptRanges w) (retryAfter w) (contentLength w) (block w) (buffer w) (bufferOffset w)
    (bufferedSince w) (started w) (lastData w) (connected w) (tickBytes w) (received w) (slowTicks w)
    (receiving w) (paused w).
Definition set_contentRange (v : bytes) (w : Worker) : Worker :=
  mkWorker (slot w) (source w) (begin w) (requestEnd w) (redirected w) (family w) (ifRange w) (status w)
    (accepted w) (done w) (etag w) (lastModified w) (date w) v (contentType w) (contentEncoding w)
    (acceptRanges w) (retryAfter w) (contentLength w) (block w) (buffer w) (bufferOffset w)
    (bufferedSince w) (started w) (lastData w) (connected w) (tickBytes w) (received w) (slowTicks w)
    (receiving w) (paused w).
Definition set_contentType (v : bytes) (w : Worker) : Worker :=
  mkWorker (slot w) (source w) (begin w) (requestEnd w) (redirected w) (family w) (ifRange w) (status w)
    (accepted w) (done w) (etag w) (lastModified w) (date w) (contentRange w) v (contentEncoding w)
    (acceptRanges w) (retryAfter w) (contentLength w) (block w) (buffer w) (bufferOffset w)
    (bufferedSince w) (started w) (lastData w) (connected w) (tickBytes w) (received w) (slowTicks w)
    (receiving w) (paused w).
Definition set_contentEncoding (v : bytes) (w : Worker) : Worker :=
  mkWorker (slot w) (source w) (begin w) (requestEnd w) (redirected w) (family w) (ifRange w) (status w)
    (accepted w) (done w) (etag w) (lastModified w) (date w) (contentRange w) (contentType w) v
    (acceptRanges w) (retryAfter w) (contentLength w) (block w) (buffer w) (bufferOffset w)
    (bufferedSince w) (started w) (lastData w) (connected w) (tickBytes w) (received w) (slowTicks w)
    (receiving w) (paused w).
Definition set_acceptRanges (v : bytes) (w : Worker) : Worker :=
  mkWorker (slot w) (source w) (begin w) (requestEnd w) (redirected w) (family w) (ifRange w) (status w)
    (accepted w) (done w) (etag w) (lastModified w) (date w) (contentRange w) (contentType w)
    (contentEncoding w) v (retryAfter w) (contentLength w) (block w) (buffer w) (bufferOffset w)
    (bufferedSince w) (started w) (lastData w) (connected w) (tickBytes w) (received w) (slowTicks w)
    (receiving w) (paused w).
Definition set_retryAfter (v : bytes) (w : Worker) : Worker :=
  mkWorker (slot w) (source w) (begin w) (requestEnd w) (redirected w) (family w) (ifRange w) (status w)
    (accepted w) (done w) (etag w) (lastModified w) (date w) (contentRange w) (contentType w)
    (contentEncoding w) (acceptRanges w) v (contentLength w) (block w) (buffer w) (bufferOffset w)
    (bufferedSince w) (started w) (lastData w) (connected w) (tickBytes w) (received w) (slowTicks w)
    (receiving w) (paused w).
Definition set_contentLength (v : Z) (w : Worker) : Worker :=
  mkWorker (slot w) (source w) (begin w) (requestEnd w) (redirected w) (family w) (ifRange w) (status w)
    (accepted w) (done w) (etag w) (lastModified w) (date w) (contentRange w) (contentType w)
    (contentEncoding w) (acceptRanges w) (retryAfter w) v (block w) (buffer w) (bufferOffset w)
    (bufferedSince w) (started w) (lastData w) (connected w) (tickBytes w) (received w) (slowTicks w)
    (receiving w) (paused w).
Definition set_block (v : bool) (w : Worker) : Worker :=
  mkWorker (slot w) (source w) (begin w) (requestEnd w) (redirected w) (family w) (ifRange w) (status w)
    (accepted w) (done w) (etag w) (lastModified w) (date w) (contentRange w) (contentType w)
    (contentEncoding w) (acceptRanges w) (retryAfter w) (contentLength w) v (buffer w) (bufferOffset w)
    (bufferedSince w) (started w) (lastData w) (connected w) (tickBytes w) (received w) (slowTicks w)
    (receiving w) (paused w).
Definition set_buffer (v : bytes) (w : Worker) : Worker :=
  mkWorker (slot w) (source w) (begin w) (requestEnd w) (redirected w) (family w) (ifRange w) (status w)
    (accepted w) (done w) (etag w) (lastModified w) (date w) (contentRange w) (contentType w)
    (contentEncoding w) (acceptRanges w) (retryAfter w) (contentLength w) (block w) v (bufferOffset w)
    (bufferedSince w) (started w) (lastData w) (connected w) (tickBytes w) (received w) (slowTicks w)
    (receiving w) (paused w).
Definition set_bufferOffset (v : Z) (w : Worker) : Worker :=
  mkWorker (slot w) (source w) (begin w) (requestEnd w) (redirected w) (family w) (ifRange w) (status w)
    (accepted w) (done w) (etag w) (lastModified w) (date w) (contentRange w) (contentType w)
    (contentEncoding w) (acceptRanges w) (retryAfter w) (contentLength w) (block w) (buffer w) v
    (bufferedSince w) (started w) (lastData w) (connected w) (tickBytes w) (received w) (slowTicks w)
    (receiving w) (paused w).
Definition set_bufferedSince (v : Z) (w : Worker) : Worker :=
  mkWorker (slot w) (source w) (begin w) (requestEnd w) (redirected w) (family w) (ifRange w) (status w)
    (accepted w) (done w) (etag w) (lastModified w) (date w) (contentRange w) (contentType w)
    (contentEncoding w) (acceptRanges w) (retryAfter w) (contentLength w) (block w) (buffer w)
    (bufferOffset w) v (started w) (lastData w) (connected w) (tickBytes w) (received w) (slowTicks w)
    (receiving w) (paused w).
Definition set_lastData (v : Z) (w : Worker) : Worker :=
  mkWorker (slot w) (source w) (begin w) (requestEnd w) (redirected w) (family w) (ifRange w) (status w)
    (accepted w) (done w) (etag w) (lastModified w) (date w) (contentRange w) (contentType w)
    (contentEncoding w) (acceptRanges w) (retryAfter w) (contentLength w) (block w) (buffer w)
    (bufferOffset w) (bufferedSince w) (started w) v (connected w) (tickBytes w) (received w) (slowTicks w)
    (receiving w) (paused w).
Definition set_connected (v : bool) (w : Worker) : Worker :=
  mkWorker (slot w) (source w) (begin w) (requestEnd w) (redirected w) (family w) (ifRange w) (status w)
    (accepted w) (done w) (etag w) (lastModified w) (date w) (contentRange w) (contentType w)
    (contentEncoding w) (acceptRanges w) (retryAfter w) (contentLength w) (block w) (buffer w)
    (bufferOffset w) (bufferedSince w) (started w) (lastData w) v (tickBytes w) (received w) (slowTicks w)
    (receiving w) (paused w).
Definition set_tickBytes (v : Z) (w : Worker) : Worker :=
  mkWorker (slot w) (source w) (begin w) (requestEnd w) (redirected w) (family w) (ifRange w) (status w)
    (accepted w) (done w) (etag w) (lastModified w) (date w) (contentRange w) (contentType w)
    (contentEncoding w) (acceptRanges w) (retryAfter w) (contentLength w) (block w) (buffer w)
    (bufferOffset w) (bufferedSince w) (started w) (lastData w) (connected w) v (received w) (slowTicks w)
    (receiving w) (paused w).
Definition set_received (v : Z) (w : Worker) : Worker :=
  mkWorker (slot w) (source w) (begin w) (requestEnd w) (redirected w) (family w) (ifRange w) (status w)
    (accepted w) (done w) (etag w) (lastModified w) (date w) (contentRange w) (contentType w)
    (contentEncoding w) (acceptRanges w) (retryAfter w) (contentLength w) (block w) (buffer w)
    (bufferOffset w) (bufferedSince w) (started w) (lastData w) (connected w) (tickBytes w) v (slowTicks w)
    (receiving w) (paused w).
Definition set_slowTicks (v : Z) (w : Worker) : Worker :=
  mkWorker (slot w) (source w) (begin w) (requestEnd w) (redirected w) (family w) (ifRange w) (status w)
    (accepted w) (done w) (etag w) (lastModified w) (date w) (contentRange w) (contentType w)
    (contentEncoding w) (acceptRanges w) (retryAfter w) (contentLength w) (block w) (buffer w)
    (bufferOffset w) (bufferedSince w) (started w) (lastData w) (connected w) (tickBytes w) (received w) v
    (receiving w) (paused w).
Definition set_receiving (v : bool) (w : Worker) : Worker :=
  mkWorker (slot w) (source w) (begin w) (requestEnd w) (redirected w) (family w) (ifRange w) (status w)
    (accepted w) (done w) (etag w) (lastModified w) (date w) (contentRange w) (contentType w)
    (contentEncoding w) (acceptRanges w) (retryAfter w) (contentLength w) (block w) (buffer w)
    (bufferOffset w) (bufferedSince w) (started w) (lastData w) (connected w) (tickBytes w) (received w)
    (slowTicks w) v (paused w).
Definition set_paused (v : bool) (w : Worker) : Worker :=
  mkWorker (slot w) (source w) (begin w) (requestEnd w) (redirected w) (family w) (ifRange w) (status w)
    (accepted w) (done w) (etag w) (lastModified w) (date w) (contentRange w) (contentType w)
    (contentEncoding w) (acceptRanges w) (retryAfter w) (contentLength w) (block w) (buffer w)
    (bufferOffset w) (bufferedSince w) (started w) (lastData w) (connected w) (tickBytes w) (received w)
    (slowTicks w) (receiving w) v.
Definition set_holder (v : option Z) (s : Slot) : Slot :=
  mkSlot v (failures s) (readyAt s).
Definition set_failures (v : Z) (s : Slot) : Slot :=
  mkSlot (holder s) v (readyAt s).
Definition set_readyAt (v : Z) (s : Slot) : Slot :=
  mkSlot (holder s) (failures s) v.

Definition noFamily : Family := mkFamily false false false dzero.
Definition newSource (u : bytes) : Source :=
  mkSource u [] false 0 0 0 0 false noFamily noFamily false false [] [].
Definition newSlot : Slot := mkSlot None 0 0.

(** The constructor of [Worker]. *)
Definition newWorker (slot_ source_ : nat) (begin_ requestEnd_ now_ : Z) : Worker :=
  mkWorker slot_ source_ begin_ requestEnd_ false 0 [] 0 false false [] [] [] [] [] [] [] [] (-1) false
    [] begin_ 0 now_ now_ false 0 0 0 false false.

(** [source.families\[family == 6\]] *)
Definition familyOf (six : bool) (s : Source) : Family := if six then v6 s else v4 s.
Definition set_familyOf (six : bool) (f : Family) (s : Source) : Source :=
  if six then set_v6 f s else set_v4 f s.

(** ** Headers *)

Record ContentRange := mkContentRange { first : Z; last : Z; total : Z }.

(** [find(c)]: what is before the first [c] and after it. *)
Fixpoint cutAt (c : Z) (s : bytes) : option (bytes * bytes) :=
  match s with
  | [] => None
  | x :: s' =>
      if x =? c then Some ([], s')
      else match cutAt c s' with
           | Some (before, behind) => Some (x :: before, behind)
           | None => None
           end
  end.

Definition parseContentRange (value : bytes) : option ContentRange :=
  if negb (istartsWith value (str "bytes")) then None
  else
    let value := trim (drop 5 value) in
    let value := if starts_with (str "=") value then trim (drop 1 value) else value in
    match cutAt 47 value with
    | None => None
    | Some (beforeSlash, behindSlash) =>
        match cutAt 45 beforeSlash with
        | None => None
        | Some (before, between) =>
            match toInt before, toInt between with
            | Some first_, Some last_ =>
                if (first_ <? 0) || (last_ <? first_) then None
                else Some (mkContentRange first_ last_ (default (-1) (toInt behindSlash)))
            | _, _ => None
            end
        end
    end.

Definition impliedContentRange (begin_ requestEnd_ contentLength_ : Z) : option ContentRange :=
  if (begin_ <? 0) || (contentLength_ <=? 0) then None
  else if requestEnd_ =? unbounded then
    Some (mkContentRange begin_ (begin_ + contentLength_ - 1) (begin_ + contentLength_))
  else if negb (requestEnd_ - begin_ =? contentLength_) then None
  else Some (mkContentRange begin_ (requestEnd_ - 1) (-1)).

Definition unsatisfiedRangeLength (value : bytes) : option Z :=
  if negb (istartsWith value (str "bytes")) then None
  else
    let value := trim (drop 5 value) in
    if negb (starts_with (str "*/") value) then None
    else
      match toInt (drop 2 value) with
      | Some length_ => if 0 <=? length_ then Some length_ else None
      | None => None
      end.

Definition quote : Z := 34.

Definition strongTag (etag_ : bytes) : bytes :=
  match etag_ with
  | [] => []
  | c :: _ =>
      if starts_with (str "W/") etag_ then []
      else if c =? quote then etag_
      else quote :: etag_ ++ [quote]
  end.

Definition strongDate `{Library} (modified date_ : bytes) : bytes :=
  if bool_decide (modified = []) || bool_decide (date_ = []) then []
  else
    let at_ := getdate modified in
    if (0 <=? at_) && (60 <=? getdate date_ - at_) then modified else [].

(** [site] tells apart the places of a handler that draw a number. *)
Definition backoff (e : env) (site : nat) (failures_ : Z) : Z :=
  if 0 <? retryWait (opts e) then seconds (retryWait (opts e))
  else
    let base := Z.min 30000 (Z.shiftl 500 (Z.min failures_ 6)) in
    milliseconds (draw e site (base / 2) base).

Definition curlError (code : CURLcode) : ErrorCode :=
  match code with
  | CURLE_COULDNT_RESOLVE_HOST | CURLE_COULDNT_RESOLVE_PROXY => NameResolve
  | CURLE_OPERATION_TIMEDOUT => TimedOut
  | CURLE_TOO_MANY_REDIRECTS => TooManyRedirects
  | CURLE_LOGIN_DENIED | CURLE_REMOTE_ACCESS_DENIED => HttpAuth
  | CURLE_REMOTE_FILE_NOT_FOUND => ResourceNotFound
  | _ => Network
  end.

Definition permanent (code : CURLcode) : bool :=
  match code with
  | CURLE_UNSUPPORTED_PROTOCOL | CURLE_URL_MALFORMAT | CURLE_PEER_FAILED_VERIFICATION
  | CURLE_SSL_CERTPROBLEM | CURLE_SSL_CACERT_BADFILE | CURLE_SSL_ISSUER_ERROR
  | CURLE_SSL_PINNEDPUBKEYNOTMATCH | CURLE_TOO_MANY_REDIRECTS | CURLE_LOGIN_DENIED
  | CURLE_REMOTE_ACCESS_DENIED | CURLE_REMOTE_FILE_NOT_FOUND => true
  | _ => false
  end.

(** The interval between two times, [std::chrono::duration<double>]. *)
Definition elapsed (from to : Z) : double := (of_int (to - from) / of_int (10 ^ 9))%double.

(** ** Header lines *)

(** A status line clears what earlier responses of the request sent. *)
Definition statusLine (line : bytes) (w : Worker) : Worker :=
  let behind := match cutAt 32 line with Some (_, rest) => rest | None => line end in
  let w := set_status (default 0 (toInt (trim (take 3 behind)))) w in
  let w := set_etag [] (set_lastModified [] (set_date [] (set_contentRange [] w))) in
  let w := set_contentType [] (set_contentEncoding [] (set_acceptRanges [] w)) in
  set_block true (set_contentLength (-1) (set_retryAfter [] w)).

Definition headerField (line : bytes) (w : Worker) : Worker :=
  match cutAt 58 (trim line) with
  | None => w
  | Some (before, behind) =>
      let name := lower before in
      let field := trim behind in
      if bool_decide (name = str "etag") then set_etag field w
      else if bool_decide (name = str "last-modified") then set_lastModified field w
      else if bool_decide (name = str "date") then set_date field w
      else if bool_decide (name = str "content-range") then set_contentRange field w
      else if bool_decide (name = str "content-type") then set_contentType field w
      else if bool_decide (name = str "content-encoding") then set_contentEncoding field w
      else if bool_decide (name = str "content-length") then
        set_contentLength (default (-1) (toInt field)) w
      else if bool_decide (name = str "accept-ranges") then set_acceptRanges field w
      else if bool_decide (name = str "retry-after") then set_retryAfter field w
      else w
  end.
End HttpState.
