(* ===== verification/HttpTask.v ===== *)
(** * An HTTP download: the operations of [src/http/HttpTask.cc]

    The task as a state machine: each handler of the class is a definition, and
    [exec] runs the event that calls it. [None] is what the code must not do:
    use an element outside a vector, a null pointer or [front()] of an empty
    vector; loops that take fuel give [None] when it runs out.

    The callbacks of libcurl reach the workers of the map only: [cancel] ends
    them. The disk thread runs the operations in the order they were queued; an
    operation and its completion are one event, as nothing reads the file in
    between. Digests are inputs of the events. *)

From S2P Require Import Prelude StdMap Double Bytes Text Ranges SegmentPlanner HostPool HttpState.

Module HttpTask.
Import Bytes Text HttpState.

Section http.
Context {R : Type} `{ByteRanges R} `{Library} (undefined : double -> Z) (self : Z).
Implicit Types (t : task R) (e : env).

(** ** The monad *)

Definition M (A : Type) : Type := task R -> option (A * task R).
#[export] Instance M_ret : MRet M := fun A a t => Some (a, t).
#[export] Instance M_bind : MBind M := fun A B k m t =>
  match m t with
  | Some (a, t') => k a t'
  | None => None
  end.

Definition crash {A} : M A := fun _ => None.
Definition get : M (task R) := fun t => Some (t, t).
Definition gets {A} (f : task R -> A) : M A := fun t => Some (f t, t).
Definition modify (f : task R -> task R) : M unit := fun t => Some (tt, f t).
Definition must {A} (f : task R -> option A) : M A := fun t =>
  match f t with Some a => Some (a, t) | None => None end.
Definition when (b : bool) (m : M unit) : M unit := if b then m else mret tt.

(** [for] over a copy of a container; [eachWhile] stops at a [break]. *)
Fixpoint each {A} (l : list A) (f : A -> M unit) : M unit :=
  match l with
  | [] => mret tt
  | a :: l' => f a;; each l' f
  end.
Fixpoint eachWhile {A} (l : list A) (f : A -> M bool) : M unit :=
  match l with
  | [] => mret tt
  | a :: l' => more ← f a; if more : bool then eachWhile l' f else mret tt
  end.

Definition updWorker (id : Z) (f : Worker -> Worker) : M unit :=
  modify (fun t =>
    match find id (workers t) with
    | Some w => set_workers (put id (f w) (workers t)) t
    | None => t
    end).
Definition updSource (i : nat) (f : Source -> Source) : M unit := fun t =>
  match sources t !! i with
  | Some s => Some (tt, set_sources (<[i := f s]> (sources t)) t)
  | None => None
  end.
Definition updSlot (i : nat) (f : Slot -> Slot) : M unit := fun t =>
  match slots t !! i with
  | Some s => Some (tt, set_slots (<[i := f s]> (slots t)) t)
  | None => None
  end.
Definition onPlanner (f : SegmentPlanner.planner R -> SegmentPlanner.planner R) : M unit :=
  modify (fun t => set_planner (f (planner t)) t).
Definition onPool (f : HostPool.pool -> HostPool.pool) : M unit :=
  modify (fun t => set_pool (f (pool t)) t).
Definition tell (r : report) : M unit := modify (fun t => set_reports (reports t ++ [r]) t).
Definition enqueue (o : op) : M unit := modify (fun t => set_ops (ops t ++ [o]) t).

(** ** Connections *)

Abbreviation length_ t := (SegmentPlanner.length_ (planner t)).
Abbreviation planned id t := (SegmentPlanner.worker id (planner t)).

Definition diskPath t : bytes := path t ++ suffix t.
Definition parallel t : bool := ranged t && negb (single t) && (0 <? length_ t).
Definition configuredConnections e : Z :=
  Z.min (split (opts e)) (maxConnectionPerServer (opts e)).
Definition pooled t : bool := len (sources t) =? 1.
Definition urlOf (s : Source) : bytes := if bool_decide (redirect s = []) then uri s else redirect s.
Definition hostKey t : option string := serverOf ∘ urlOf <$> head (sources t).
Definition fetching (p : Phase) : bool :=
  match p with Probing | Opening | Running => true | _ => false end.

Definition allowedConnections e : M Z := fun t =>
  if pooled t then
    let '(allowance, pool') := HostPool.allowance self (pool t) in
    Some (allowance, set_pool pool' t)
  else Some (configuredConnections e, t).

Definition connectionTarget e : M Z :=
  p ← gets parallel;
  if negb p then mret 1
  else
    hosts ← gets (fun t => foldl (fun hosts s =>
      hosts + (if dead s then 0 else maxConnectionPerServer (opts e))) 0 (sources t));
    allowed ← allowedConnections e;
    mret (clamp (Z.min (Z.min (split (opts e)) hosts) allowed) 1 256).

Definition completedLength t : Z := br_total (SegmentPlanner.received (planner t)).

Definition syncHost e : M unit :=
  t ← get;
  when (pooled t && fetching (phase t))
    (key ← must hostKey;
     let wanted := if bool_decide (phase t = Probing) || negb (parallel t) then 1
                   else configuredConnections e in
     let remaining := if 0 <=? length_ t then length_ t - completedLength t else -1 in
     let answered := len (filter (fun entry : Z * Worker => accepted entry.2 = true) (workers t)) in
     onPool (HostPool.update self key wanted remaining answered)).

Definition leaveHost : M unit := onPool (HostPool.leave self).

(** ** Writing *)

Definition write (offset : Z) (data : bytes) : M unit :=
  file ← must output;
  modify (fun t => set_pendingWrites (pendingWrites t + 1) t);;
  enqueue (Write file offset data).

Definition flush (id : Z) : M unit :=
  t ← get;
  match find id (workers t) with
  | None => mret tt
  | Some w =>
      if bool_decide (buffer w = []) then mret tt
      else if bool_decide (phase t = Restarting) then
        modify (fun t => set_unflushed (unflushed t - len (buffer w)) t);;
        updWorker id (set_buffer [])
      else
        let offset := bufferOffset w in
        updWorker id (fun w => set_buffer [] (set_bufferOffset (offset + len (buffer w)) w));;
        if bool_decide (output t <> None) && negb (bool_decide (phase t = Probing)) &&
           negb (bool_decide (phase t = Opening))
        then write offset (buffer w)
        else modify (fun t => set_held (held t ++ [(offset, buffer w)]) t)
  end.

(** ** Retiring connections *)

Definition retireWorker e (id : Z) : M unit :=
  w ← must (fun t => find id (workers t));
  let family := connectedFamily e id in
  let spent := elapsed (started w) (now e) in
  let rate := (of_int (received w) / spent)%double in
  when ((0 <? received w) && (dzero <? spent)%double)
    (onPlanner (SegmentPlanner.noteSpeed rate);;
     when (negb (family =? 0))
       (updSource (source w) (fun s =>
          let f := familyOf (family =? 6) s in
          let measured := speed f in
          set_familyOf (family =? 6)
            (set_speed (if (dzero <? measured)%double
                        then ((measured + rate) / of_int 2)%double else rate) f) s)));;
  onPlanner (SegmentPlanner.release id);;
  updSource (source w) (fun s => set_active (Z.max 0 (active s - 1)) s);;
  modify (fun t =>
    match slots t !! slot w with
    | Some s =>
        if bool_decide (holder s = Some id)
        then set_slots (<[slot w := set_holder None s]> (slots t)) t else t
    | None => t
    end);;
  modify (fun t => set_workers (erase id (workers t)) t);;
  syncHost e.

Definition cancelWorker e (id : Z) : M unit :=
  found ← gets (fun t => find id (workers t));
  match found with
  | None => onPlanner (SegmentPlanner.release id)
  | Some _ => flush id;; retireWorker e id
  end.

Definition ids t : list Z := (workers t).*1.

(** [for (const auto& \[id, worker\] : std::map(workers_))] with [cancel],
    [flush] and [retireWorker], as [abort] and [stop] have it. *)
Definition dismiss e : M unit :=
  all ← gets ids;
  each all (fun id => flush id;; retireWorker e id).

(** ** Ends *)

Definition checkpoint e : M unit :=
  t ← get;
  if bool_decide (path t = []) || (length_ t <=? 0) || dryRun (opts e) ||
     bool_decide (phase t = Restarting) || (bool_decide (phase t = Done) && isComplete e)
  then mret tt
  else
    source ← must (fun t => head (sources t));
    modify (set_record (Some (mkRecord (uri source) (path t) (taskEtag t) (taskModified t) (length_ t)
      (br_ranges (persisted t))))).

Definition abort e (code : ErrorCode) : M unit :=
  p ← gets phase;
  if bool_decide (p = Done) || bool_decide (p = Stopping) then mret tt
  else
    modify (set_phase Done);;
    leaveHost;;
    dismiss e;;
    checkpoint e;;
    opened ← gets output;
    when (bool_decide (opened <> None)) (enqueue (Close AfterAbort));;
    tell (Failed code).

(** What runs once the file is closed for [stop]. *)
Definition finishStop : M unit :=
  modify (set_output None);;
  modify (set_phase Idle);;
  tell Stopped.

Definition quiesce e : M unit :=
  t ← get;
  if negb (bool_decide (phase t = Stopping)) || (0 <? pendingWrites t) || negb (stopped t) then mret tt
  else
    checkpoint e;;
    modify (set_stopped false);;
    if bool_decide (output t <> None) then enqueue (Close AfterStop) else finishStop.

Definition stop e : M unit :=
  modify (set_stopped true);;
  modify (set_phase Stopping);;
  leaveHost;;
  modify (set_tickScheduled false);;
  dismiss e;;
  quiesce e.

(** ** Choosing a source *)

Definition allDead t : bool := forallb dead (sources t).

(** [std::pair(a.failures, a.active) < std::pair(b.failures, b.active)] *)
Definition better (a b : Source) : bool :=
  (sourceFailures a <? sourceFailures b) ||
  ((sourceFailures a =? sourceFailures b) && (active a <? active b)).

Definition askedAlready (i : nat) t : bool :=
  existsb (fun entry : Z * Worker =>
    let w := entry.2 in bool_decide (source w = i) && negb (redirected w) && negb (accepted w)) (workers t).

Definition pickSource e t : option nat :=
  fst <$> foldl (fun best '(i, s) =>
    if dead s || (maxConnectionPerServer (opts e) <=? active s) || (now e <? sourceReady s) ||
       (refreshing s && askedAlready i t)
    then best
    else match best with
         | None => Some (i, s)
         | Some (_, b) => if better s b then Some (i, s) else best
         end) (None : option (nat * Source)) (imap pair (sources t)).

Definition fasterFamily (s : Source) : Z :=
  if negb (worked (v4 s)) || negb (worked (v6 s)) || (speed (v4 s) <=? dzero)%double ||
     (speed (v6 s) <=? dzero)%double then 0
  else if (familySpeedRatio * speed (v6 s) <? speed (v4 s))%double then 4
  else if (familySpeedRatio * speed (v4 s) <? speed (v6 s))%double then 6
  else 0.

Definition familyFor e (s : Source) (avoid : Z) : Z :=
  if disableIpv6 (opts e) || ipLiteral (urlOf s) then 0
  else if xorb (failed (v4 s)) (failed (v6 s)) then (if failed (v4 s) then 6 else 4)
  else if failed (v4 s) then 0
  else if negb (avoid =? 0) then
    if worked (familyOf (avoid =? 4) s) then (if avoid =? 4 then 6 else 4) else 0
  else if xorb (worked (v4 s)) (worked (v6 s)) then
    let answered := if worked (v4 s) then 4 else 6 in
    if forced (familyOf (answered =? 4) s) then answered else if answered =? 4 then 6 else 4
  else fasterFamily s.

(** The validators of If-Range. *)
Definition validators (s : Source) t : bytes * bytes :=
  if 1 <? len (sources t) then (sourceEtag s, sourceModified s)
  else (strongTag (taskEtag t), taskModified t).

(** ** Starting connections *)

Definition startWorker e (id : Z) (slot_ source_ : nat) (begin_ requestEnd_ avoid : Z) : M unit :=
  s ← must (fun t => sources t !! source_);
  match configure e (urlOf s) with
  | Some code => onPlanner (SegmentPlanner.release id);; abort e code
  | None =>
      t ← get;
      let family_ := familyFor e s avoid in
      let '(etag_, modified) := validators s t in
      let validator := if bool_decide (etag_ = []) then modified else etag_ in
      let ifRange_ := if ranged t then validator else [] in
      let w := newWorker slot_ source_ begin_ requestEnd_ (now e) in
      let w := set_redirected (negb (bool_decide (redirect s = []))) (set_family family_ (set_ifRange ifRange_ w)) in
      updSlot slot_ (set_holder (Some id));;
      updSource source_ (fun s =>
        let s := if family_ =? 0 then s
                 else set_familyOf (family_ =? 6) (set_forced true (familyOf (family_ =? 6) s)) s in
        set_used true (set_active (active s + 1) s));;
      modify (fun t => set_workers (put id w (workers t)) t)
  end.

Definition takeId : M Z :=
  id ← gets nextWorkerId;
  modify (fun t => set_nextWorkerId (nextWorkerId t + 1) t);;
  mret id.

Definition growSlots (n : nat) : M unit :=
  modify (fun t =>
    if (length (slots t) <? n)%nat then
      set_slots (slots t ++ replicate (n - length (slots t)) newSlot) t
    else t).

(** A slot that has no tries left; with mirrors, they are spent per mirror. *)
Definition spent e (s : Slot) t : bool :=
  (0 <? maxTries (opts e)) && (maxTries (opts e) <=? failures s) && (len (sources t) =? 1).

Definition launchProbe e : M unit :=
  t ← get;
  let firstWorker := head (workers t) in
  let hedge := (len (workers t) =? 1) &&
               match firstWorker with
               | Some entry => probeHedge <=? now e - started entry.2
               | None => false
               end in
  slot0 ← must (fun t => slots t !! 0%nat);
  if (negb (bool_decide (workers t = [])) && negb hedge) || (now e <? readyAt slot0) || spent e slot0 t
  then mret tt
  else
    growSlots 2;;
    let slot_ := if bool_decide (holder slot0 = None) then 0%nat else 1%nat in
    free ← must (fun t => slots t !! slot_);
    match pickSource e t with
    | Some source_ =>
        if bool_decide (holder free = None) then
          let avoid := if hedge then from_option (fun entry : Z * Worker => connectedFamily e entry.1) 0 firstWorker
                       else 0 in
          id ← takeId;
          onPlanner (SegmentPlanner.place id 0 unbounded);;
          startWorker e id slot_ source_ 0 unbounded avoid
        else mret tt
    | None => mret tt
    end.

(** One round of the loop over the slots; [false] leaves it. *)
Definition launchSlot e (i : nat) : M bool :=
  t ← get;
  entry ← must (fun t => slots t !! i);
  if negb (bool_decide (holder entry = None)) || (now e <? readyAt entry) || spent e entry t
  then mret true
  else
    match pickSource e t with
    | None => mret false
    | Some source_ =>
        let id := nextWorkerId t in
        if negb (ranged t) then
          if negb (bool_decide (workers t = [])) then mret false
          else
            onPlanner (SegmentPlanner.place id 0 (if 0 <=? length_ t then length_ t else unbounded));;
            takeId;;
            startWorker e id i source_ 0 unbounded 0;;
            mret false
        else
          assigned ← (fun t =>
            match SegmentPlanner.assign undefined id (planner t) with
            | Some (range, p) => Some (range, set_planner p t)
            | None => None
            end) : M (option Range);
          match assigned with
          | None => mret false
          | Some range =>
              t ← get;
              let avoid := foldl (fun avoid '(other, w) =>
                match planned other t with
                | Some p => if (SegmentPlanner.wend p =? range.2) && bool_decide (source w = source_)
                            then connectedFamily e other else avoid
                | None => avoid
                end) 0 (workers t) in
              takeId;;
              startWorker e id i source_ range.1 range.2 avoid;;
              mret true
          end
    end.

Definition launch e : M unit :=
  t ← get;
  if negb (bool_decide (phase t = Probing) || bool_decide (phase t = Running)) ||
     SegmentPlanner.complete (planner t)
  then mret tt
  else
    syncHost e;;
    t ← get;
    full ← (if pooled t then
              if now e <? HostPool.readyTime self (pool t) then mret true
              else allowed ← allowedConnections e; mret (allowed =? 0)
            else mret false) : M bool;
    if full : bool then mret tt
    else if bool_decide (phase t = Probing) then launchProbe e
    else
      target ← connectionTarget e;
      growSlots (Z.to_nat target);;
      eachWhile (seq 0 (Z.to_nat target)) (launchSlot e).

(** ** Failures *)

Definition slotFailed e (slot_ : nat) (code : ErrorCode) (wait : Z) : M unit :=
  modify (set_lastError code);;
  p ← gets phase;
  let i := if bool_decide (p = Probing) then 0%nat else slot_ in
  entry ← must (fun t => slots t !! i);
  mirrors ← gets (fun t => 1 <? len (sources t));
  let failures_ := failures entry + 1 in
  let delay := if mirrors : bool then 0 else if negb (wait =? 0) then wait else backoff e 2 failures_ in
  updSlot i (fun s => set_readyAt (now e + delay) (set_failures failures_ s));;
  if maxTries (opts e) <=? 0 then mret tt
  else
    t ← get;
    let exhausted := fun s : Slot => maxTries (opts e) <=? failures s in
    if mirrors : bool then when (bool_decide (workers t = []) && allDead t) (abort e code)
    else
      slot0 ← must (fun t => slots t !! 0%nat);
      when (bool_decide (workers t = []) &&
            (if bool_decide (phase t = Probing) then exhausted slot0 else forallb exhausted (slots t)))
        (abort e code).

Definition dropMirror e (id : Z) : M bool :=
  w ← must (fun t => find id (workers t));
  t ← get;
  if existsb (fun '(i, s) => negb (bool_decide (i = source w)) && negb (dead s)) (imap pair (sources t)) then
    updSource (source w) (set_dead true);;
    cancelWorker e id;;
    slotFailed e (slot w) HttpProtocol 0;;
    mret true
  else mret false.

(** ** Restarting *)

Definition restartWhenQuiet : M unit :=
  t ← get;
  if negb (bool_decide (phase t = Restarting)) || (0 <? pendingWrites t) then mret tt
  else if bool_decide (output t <> None) then enqueue (Close AfterRestart)
  else modify (fun t => set_posts (S (posts t)) t).

Definition changed e : M unit :=
  t ← get;
  if negb (owned t) && negb (bool_decide (path t = [])) then abort e CannotResume
  else
    modify (fun t => set_restarts (restarts t + 1) t);;
    if maxRestarts <? restarts t + 1 then abort e CannotResume
    else
      modify (fun t => set_single (single t || (1 <? restarts t) || rangesDistrusted t) t);;
      modify (set_phase Restarting);;
      all ← gets ids;
      each all (retireWorker e);;
      modify (set_record None);;
      restartWhenQuiet.

Definition tagRotated (id total_ : Z) : M bool :=
  w ← must (fun t => find id (workers t));
  s ← must (fun t => sources t !! source w);
  t ← get;
  let '(etag_, modified) := validators s t in
  let tag := strongTag (etag w) in
  if bool_decide (etag_ = []) || bool_decide (tag = []) || bool_decide (tag = etag_) ||
     bool_decide (modified = []) || negb (bool_decide (lastModified w = modified)) || (total_ <? 0) ||
     negb (total_ =? length_ t)
  then mret false
  else
    modify (set_tagsRotate true);;
    modify (set_taskEtag []);;
    updSource (source w) (set_sourceEtag []);;
    mret true.

(** It always returns [true]. *)
Definition rangesIgnored e (id : Z) : M unit :=
  w ← must (fun t => find id (workers t));
  s ← must (fun t => sources t !! source w);
  t ← get;
  let '(etag_, modified) := validators s t in
  let same := if negb (bool_decide (etag_ = [])) then bool_decide (strongTag (etag w) = etag_)
              else if negb (bool_decide (modified = [])) then bool_decide (lastModified w = modified)
              else true in
  rotated ← (if same then mret false else tagRotated id (contentLength w)) : M bool;
  rotates ← gets tagsRotate;
  if rotated || (rotates && negb (bool_decide (ifRange w = [])) && negb (bool_decide (ifRange w = modified)))
  then cancelWorker e id
  else
    dropped ← dropMirror e id;
    if dropped : bool then mret tt
    else if negb same then changed e
    else if negb (owned t) && negb (bool_decide (path t = [])) then abort e CannotResume
    else modify (set_ranged false);; cancelWorker e id.

(** ** The file *)

Definition openOutput (truncate : bool) : M unit :=
  t ← get;
  modify (set_output (Some (diskPath t)));;
  enqueue (Open (diskPath t) truncate).

Definition storedSuffix e (path_ : bytes) : option bytes :=
  let suffix_ := incompleteSuffix (opts e) in
  if negb (bool_decide (suffix_ = [])) && fileExists e (path_ ++ suffix_) then Some suffix_
  else if fileExists e path_ then Some []
  else None.

(** [claimTransfer] gives the record of another task to this one. *)
Definition claimRecord e (path_ : bytes) : M (option TransferRecord) :=
  if negb (continue_ (opts e)) || removeControlFile (opts e) || dryRun (opts e) || writing e path_
  then mret None
  else
    match claimable e path_ with
    | None => mret None
    | Some r =>
        modify (set_record (Some r));;
        mret (if (totalLength r <=? 0) || bool_decide (storedSuffix e (recordPath r) = None)
              then None else Some r)
    end.

Definition restoreRanges (ranges : list Range) : M unit :=
  onPlanner (SegmentPlanner.restore ranges);;
  modify (fun t => set_persisted (foldl (fun s '(b, e) => br_add b e s) (persisted t) ranges) t).

Definition setPath (path_ suffix_ : bytes) (owned_ : bool) : M unit :=
  modify (set_path path_);; modify (set_suffix suffix_);; modify (set_owned owned_).

(** From the record of an unfinished download. *)
Definition continueRecord e (id : Z) (r : TransferRecord) : M unit :=
  setPath (recordPath r) (default [] (storedSuffix e (recordPath r))) true;;
  t ← get;
  let same := fun stored now_ : bytes =>
    bool_decide (stored = []) || bool_decide (now_ = []) || bool_decide (stored = now_) in
  if (totalLength r =? length_ t) && same (recordEtag r) (taskEtag t) &&
     same (recordModified r) (taskModified t)
  then
    restoreRanges (completed r);;
    cancelWorker e id;;
    openOutput false
  else openOutput true.

(** A file that exists is continued as a prefix. *)
Definition adopt e (id : Z) (path_ : bytes) : M unit :=
  t ← get;
  let size := fileSize e path_ in
  if (0 <=? length_ t) && (length_ t <? size) then abort e CannotResume
  else if (0 <? size) && negb (ranged t) then abort e CannotResume
  else
    setPath path_ [] false;;
    when ((0 <? size) && ranged t) (restoreRanges [(0, size)];; cancelWorker e id);;
    openOutput false.

(** [decidePath] from where it has the name. *)
Definition decidePath e (id : Z) : M unit :=
  let path_ := chosenPath e id in
  let suffix_ := incompleteSuffix (opts e) in
  let leftover := negb (bool_decide (suffix_ = [])) && fileExists e (path_ ++ suffix_) in
  let shared := writing e path_ in
  let create_ := fun path_ => setPath path_ suffix_ true;; openOutput true in
  claimed ← (if shared then mret None else claimRecord e path_) : M (option TransferRecord);
  match claimed with
  | Some r => continueRecord e id r
  | None =>
      if shared || leftover || fileExists e path_ then
        if negb shared && negb leftover && continue_ (opts e) then adopt e id path_
        else if shared || negb (allowOverwrite (opts e)) then
          if negb (autoFileRenaming (opts e)) then abort e FileExists
          else
            match numberedPath e path_ with
            | None => abort e FileExists
            | Some numbered => create_ numbered
            end
        else create_ path_
      else create_ path_
  end.

(** ** The response *)

Definition compressedBody e (id : Z) (w : Worker) t : bool :=
  negb (bool_decide (contentEncoding w = [])) && negb (iequals (contentEncoding w) (str "identity")) &&
  httpAcceptGzip (opts e) && (length_ t <? 0) && negb (archiveName e id).

Definition handOverToMedia e : M unit :=
  modify (set_phase Done);;
  leaveHost;;
  all ← gets ids;
  each all (cancelWorker e);;
  tell HandedOver.

(** The length a response announces; none if its body cannot be placed or the
    server ignored the range. *)
Definition announced e (id : Z) (w : Worker) : option Z :=
  if status w =? 206 then
    match (if bool_decide (contentRange w = [])
           then impliedContentRange (begin w) (requestEnd w) (contentLength w)
           else parseContentRange (contentRange w)) with
    | Some range => if first range =? begin w then Some (total range) else None
    | None => None
    end
  else if status w =? 0 then
    Some (if 0 <=? downloadLength e id then begin w + downloadLength e id else -1)
  else if 0 <? begin w then None
  else Some (contentLength w).

(** The first response defines the download. *)
Definition acceptFirst e (id total_ : Z) : M unit :=
  w ← must (fun t => find id (workers t));
  all ← gets ids;
  each all (fun other => when (negb (other =? id)) (cancelWorker e other));;
  when (0 <=? total_) (onPlanner (SegmentPlanner.setLength total_));;
  when ((status w =? 200) && ((contentLength w <? 0) || negb (iequals (acceptRanges w) (str "bytes"))))
    (modify (set_ranged false));;
  if mediaAuto (opts e) && manifestType (contentType w) && negb (dryRun (opts e)) then handOverToMedia e
  else
    modify (fun t => set_taskEtag (if tagsRotate t then [] else strongTag (etag w)) t);;
    modify (set_taskModified (strongDate (lastModified w) (date w)));;
    if dryRun (opts e) then
      modify (set_phase Done);; leaveHost;; cancelWorker e id;; tell Completed
    else
      modify (set_phase Opening);;
      t ← get;
      if bool_decide (path t = []) then decidePath e id
      else openOutput (owned t && bool_decide (br_ranges (persisted t) = [])).

Definition acceptWorker e (id total_ : Z) : M bool :=
  updWorker id (set_accepted true);;
  w ← must (fun t => find id (workers t));
  updSource (source w) (set_sourceFailures 0);;
  syncHost e;;
  rotates ← gets tagsRotate;
  let family := connectedFamily e id in
  let effective := effectiveUrl e id in
  updSource (source w) (fun s =>
    let s := if bool_decide (sourceEtag s = []) && bool_decide (sourceModified s = [])
             then set_sourceEtag (if rotates : bool then [] else strongTag (etag w))
                    (set_sourceModified (strongDate (lastModified w) (date w)) s)
             else s in
    let s := if family =? 0 then s
             else set_familyOf (family =? 6) (set_worked true (familyOf (family =? 6) s)) s in
    if redirected w then s
    else
      let s := set_refreshing false s in
      if negb (bool_decide (effective = [])) && negb (bool_decide (effective = uri s))
      then set_redirect effective s else s);;
  p ← gets phase;
  when (bool_decide (p = Probing)) (acceptFirst e id total_);;
  mret true.

(** Is it still the same file? *)
Definition compareResponse e (id total_ : Z) : M bool :=
  w ← must (fun t => find id (workers t));
  t ← get;
  let tag := strongTag (etag w) in
  let lengthChanged := (0 <=? length_ t) && (0 <=? total_) && negb (total_ =? length_ t) in
  let oneSource := (len (sources t) =? 1) && negb (single t) in
  let tagDiffers := oneSource && negb (bool_decide (taskEtag t = [])) && negb (bool_decide (tag = [])) &&
                    negb (bool_decide (tag = taskEtag t)) in
  tagChanged ← (if tagDiffers && negb lengthChanged
                then rotated ← tagRotated id total_; mret (negb rotated)
                else mret tagDiffers) : M bool;
  t ← get;
  let timeChanged := oneSource && bool_decide (taskEtag t = []) &&
                     negb (bool_decide (taskModified t = [])) && negb (bool_decide (lastModified w = [])) &&
                     negb (bool_decide (lastModified w = taskModified t)) in
  dropped ← (if lengthChanged then dropMirror e id else mret false) : M bool;
  if dropped : bool then mret false
  else if lengthChanged || tagChanged || timeChanged then changed e;; mret false
  else acceptWorker e id total_.

(** The result is what [accepted] of the worker is afterwards. *)
Definition accept e (id : Z) : M bool :=
  w ← must (fun t => find id (workers t));
  if accepted w then mret true
  else
    must (fun t => sources t !! source w);;
    match announced e id w with
    | None => rangesIgnored e id;; mret false
    | Some total_ =>
        t ← get;
        if (0 <=? declared t) && (0 <=? total_) && negb (total_ =? declared t) then
          dropped ← dropMirror e id;
          when (negb dropped) (abort e HttpProtocol);;
          mret false
        else if compressedBody e id w t then
          if ranged t then modify (set_ranged false);; cancelWorker e id;; mret false
          else compareResponse e id (-1)
        else compareResponse e id total_
    end.

Definition onHeader e (id : Z) (line : bytes) : M unit :=
  w ← must (fun t => find id (workers t));
  if starts_with (str "HTTP/") line then updWorker id (statusLine line)
  else if bool_decide (trim line = []) then
    when (block w && (200 <=? status w) && (status w <? 300)) (accept e id;; mret tt);;
    updWorker id (set_block false)
  else updWorker id (headerField line).

(** ** The end of the download *)

Definition unended (w : Worker) : bool :=
  accepted w && negb (done w) && (status w =? 206) && (contentLength w <? 0).

Definition tryFinish e : M unit :=
  t ← get;
  if negb (bool_decide (phase t = Running)) || negb (SegmentPlanner.complete (planner t)) ||
     existsb (fun entry : Z * Worker => unended entry.2) (workers t)
  then mret tt
  else
    each (ids t) (cancelWorker e);;
    t ← get;
    if (0 <? pendingWrites t) || (0 <? unflushed t) then mret tt
    else
      modify (set_phase Finishing);;
      leaveHost;;
      must output;;
      enqueue (Close AfterFinish).

(** [renameFile]: a file that does not exist cannot be renamed. *)
Definition renameFile e (from to : bytes) : M bool :=
  if renameFails e || negb (fileExists e from) then mret false
  else
    modify (fun t => set_disk (fun file => if bool_decide (file = to) then disk t from else disk t file) t);;
    mret true.

Definition publish e : M bool :=
  t ← get;
  if fileExists e (path t) && negb (allowOverwrite (opts e)) &&
     bool_decide ((if autoFileRenaming (opts e) then numberedPath e (path t) else None) = None)
  then abort e FileExists;; mret false
  else
    when (fileExists e (path t) && negb (allowOverwrite (opts e)))
      (modify (set_path (default (path t) (numberedPath e (path t)))));;
    t ← get;
    renamed ← renameFile e (diskPath t) (path t);
    if renamed : bool then modify (set_suffix []);; mret true
    else abort e RenameFailed;; mret false.

Definition succeed e : M unit :=
  t ← get;
  published ← (if bool_decide (suffix t = []) then mret true else publish e) : M bool;
  when published
    (modify (set_phase Done);;
     leaveHost;;
     modify (set_record None);;
     tell Completed).

Definition checkPieces (failure : bool) : M unit :=
  modify (fun t => set_checks (checks t ++ [Pieces failure]) t).

Definition verifyAndComplete e : M unit :=
  t ← get;
  if negb (bool_decide (phase t = Finishing)) then quiesce e
  else if negb (checksum (opts e)) then
    if bool_decide (pieceSources t = []) then succeed e else checkPieces false
  else modify (fun t => set_checks (checks t ++ [Whole]) t).

(** What follows the hash of the file. *)
Definition wholeChecked e (failure : bool) : M unit :=
  t ← get;
  if negb (bool_decide (phase t = Finishing)) then quiesce e
  else if negb failure then succeed e
  else if negb (bool_decide (pieceSources t = [])) then checkPieces true
  else modify (set_phase Running);; abort e Checksum.

(** [std::popcount] and [std::countr_zero] of a [uint64_t]. *)
Definition popcount (mask : Z) : nat := length (filter (fun i => Z.testbit mask (Z.of_nat i) = true) (seq 0 64)).
Definition countr_zero (mask : Z) : nat :=
  default 64%nat (head (filter (fun i => Z.testbit mask (Z.of_nat i) = true) (seq 0 64))).

Definition repairPiece (piece : nat) : M unit :=
  t ← get;
  let begin_ := Z.of_nat piece * pieceLength t in
  let end_ := Z.min (begin_ + pieceLength t) (length_ t) in
  onPlanner (SegmentPlanner.forget begin_ end_);;
  modify (fun t => set_persisted (br_remove begin_ end_ (persisted t)) t);;
  mask ← must (fun t => pieceSources t !! piece);
  modify (fun t => set_pieceSources (<[piece := 0]> (pieceSources t)) t);;
  if negb (popcount mask =? 1)%nat then mret tt
  else
    s ← must (fun t => sources t !! countr_zero mask);
    let alive := len (filter (fun s => dead s = false) (sources t)) in
    when (negb (dead s) && (1 <? alive)) (updSource (countr_zero mask) (set_dead true)).

Definition repair (bad : list nat) : M unit :=
  modify (fun t => set_repairs (repairs t + 1) t);;
  each bad repairPiece;;
  modify (set_phase Opening);;
  openOutput false.

(** What follows the hashes of the pieces; none if they could not be read. *)
Definition piecesChecked e (failure : bool) (bad : option (list nat)) : M unit :=
  t ← get;
  if negb (bool_decide (phase t = Finishing)) then quiesce e
  else
    match bad with
    | Some [] => if negb failure then succeed e else modify (set_phase Running);; abort e Checksum
    | Some bad =>
        if repairs t <? maxRepairs then repair bad else modify (set_phase Running);; abort e Checksum
    | None => modify (set_phase Running);; abort e Checksum
    end.

(** ** Receiving *)

(** The mirror that delivered the pieces of a range. *)
Definition markPieces (source_ : nat) (before usable : Z) : M unit :=
  modify (fun t =>
    if negb (bool_decide (pieceSources t = [])) && (source_ <? 64)%nat then
      let last_ := Z.min ((before + usable - 1) / pieceLength t) (len (pieceSources t) - 1) in
      set_pieceSources (imap (fun i mask =>
        if (before / pieceLength t <=? Z.of_nat i) && (Z.of_nat i <=? last_)
        then Z.lor mask (Z.shiftl 1 (Z.of_nat source_)) else mask) (pieceSources t)) t
    else t).

(** The loop of [receive]: the bytes taken, or none after [changed]. *)
Fixpoint receiveLoop e (fuel : nat) (id : Z) (data : bytes) (consumed : Z) : M (option Z) :=
  match fuel with
  | O => crash
  | S fuel =>
      if len data <=? consumed then mret (Some consumed)
      else
        planned_ ← must (fun t => planned id t);
        let before := SegmentPlanner.position planned_ in
        usable ← (fun t =>
          match SegmentPlanner.receive id (len data - consumed) (planner t) with
          | Some (usable, p) => Some (usable, set_planner p t)
          | None => None
          end) : M Z;
        if 0 <? usable then
          w ← must (fun t => find id (workers t));
          markPieces (source w) before usable;;
          when (bool_decide (buffer w = []))
            (updWorker id (fun w => set_bufferOffset before (set_bufferedSince (now e) w)));;
          updWorker id (fun w =>
            set_buffer (buffer w ++ take (Z.to_nat usable) (drop (Z.to_nat consumed) data)) w);;
          receiveLoop e fuel id data (consumed + usable)
        else
          '(more, taken) ← (fun t =>
            match SegmentPlanner.extend id (planner t) with
            | Some (more, taken, p) => Some ((more, taken), set_planner p t)
            | None => None
            end) : M (bool * option Z);
          if negb more then
            planned_ ← must (fun t => planned id t);
            t ← get;
            if (0 <=? length_ t) && (length_ t <=? SegmentPlanner.position planned_) then
              modify (set_rangesDistrusted true);;
              changed e;;
              mret None
            else
              updWorker id (set_done true);;
              mret (Some consumed)
          else
            match taken with
            | Some other => cancelWorker e other
            | None => mret tt
            end;;
            receiveLoop e fuel id data consumed
  end.

(** What the write callback returns to libcurl. *)
Inductive answer := Consumed (n : Z) | Pause.

Definition threshold t : Z :=
  clamp (writeBudget / (4 * Z.max (len (workers t)) 1)) minFlushSize maxFlushSize.

(** What [receive] does with the bytes it has taken. *)
Definition account e (id : Z) (size amount : Z) : M answer :=
  w ← must (fun t => find id (workers t));
  when (negb (receiving w)) (onPlanner (SegmentPlanner.noteStartup (elapsed (started w) (now e))));;
  updWorker id (fun w =>
    set_lastData (now e) (set_receiving true
      (set_tickBytes (tickBytes w + amount) (set_received (received w + amount) w))));;
  updSlot (slot w) (set_failures 0);;
  modify (fun t => set_unflushed (unflushed t + amount) t);;
  redundant ← gets (fun t => SegmentPlanner.redundant (planner t));
  each redundant (fun other =>
    if other =? id then updWorker id (set_done true) else cancelWorker e other);;
  w ← must (fun t => find id (workers t));
  t ← get;
  when ((threshold t <=? len (buffer w)) || done w) (flush id);;
  if done w then
    planned_ ← gets (fun t => planned id t);
    let ends := (amount =? size) && from_option (fun p => requestEnd w <=? SegmentPlanner.position p) false planned_ in
    tryFinish e;;
    mret (Consumed (if ends then size else 0))
  else mret (Consumed amount).

Definition receive e (id : Z) (data : bytes) : M answer :=
  t ← get;
  if bool_decide (phase t = Stopping) || bool_decide (phase t = Done) || bool_decide (phase t = Restarting)
  then mret (Consumed 0)
  else
    w ← must (fun t => find id (workers t));
    if done w then mret (Consumed 0)
    else if (writeBudget <? unflushed t) || negb (available e) then
      when (writeBudget <? unflushed t) (each (ids t) flush);;
      mret Pause
    else
      taken ← receiveLoop e (2 * length data + length (SegmentPlanner.workers (planner t)) + 2) id data 0;
      match taken with
      | None => mret (Consumed 0)
      | Some amount => account e id (len data) amount
      end.

(** [onData], and the write callback around it. *)
Definition onData e (id : Z) (data : bytes) : M answer :=
  accepted_ ← accept e id;
  if accepted_ : bool then
    result ← receive e id data;
    when (match result with Pause => true | Consumed _ => false end) (updWorker id (set_paused true));;
    mret result
  else mret (Consumed 0).

(** ** Completions of the disk *)

Definition outputReady e (error : bool) : M unit :=
  t ← get;
  if negb (bool_decide (phase t = Opening)) then quiesce e
  else if error then abort e FileCreate
  else
    modify (set_phase Running);;
    checkpoint e;;
    waiting ← gets held;
    modify (set_held []);;
    each waiting (fun '(offset, data) => write offset data);;
    all ← gets ids;
    each all flush;;
    tryFinish e;;
    launch e.

Definition written e (offset size : Z) (error : bool) : M unit :=
  modify (fun t => set_pendingWrites (pendingWrites t - 1) t);;
  modify (fun t => set_unflushed (unflushed t - size) t);;
  p ← gets phase;
  if bool_decide (p = Restarting) then restartWhenQuiet
  else if error then abort e FileIo
  else
    modify (fun t => set_persisted (br_add offset (offset + size) (persisted t)) t);;
    if bool_decide (p = Stopping) then quiesce e else tryFinish e.

(** [reset]; [cancel] has nothing left to do for workers that are dropped. *)
Definition reset e : M unit :=
  modify (set_workers []);;
  onPlanner SegmentPlanner.reset;;
  modify (set_persisted br_empty);;
  modify (fun t => set_pieceSources (replicate (length (pieceSources t)) 0) t);;
  modify (set_output None);;
  modify (set_held []);;
  modify (set_pendingWrites 0);;
  modify (set_unflushed 0);;
  modify (set_longRate dzero);;
  modify (set_recycleAfter 0);;
  modify (set_recycleStrikes 0);;
  modify (set_recycled None);;
  modify (set_slots (replicate (Z.to_nat (Z.max 1 (configuredConnections e))) newSlot));;
  modify (fun t => set_sources ((fun s =>
    set_sourceModified [] (set_sourceEtag [] (set_sourceReady 0 (set_sourceFailures 0 (set_active 0 s)))))
    <$> sources t) t).

(** The callback of [restartWhenQuiet]. *)
Definition restart e : M unit :=
  t ← get;
  if negb (bool_decide (phase t = Restarting)) then quiesce e
  else
    reset e;;
    modify (set_taskEtag []);;
    modify (set_taskModified []);;
    modify (fun t => set_ranged (negb (rangesDistrusted t)) t);;
    modify (set_phase Probing);;
    launch e.

(** What runs once the file is closed for [tryFinish]. *)
Definition closedForFinish e : M unit :=
  modify (set_output None);;
  verifyAndComplete e.

(** The first operation of the queue; a failed write has written the first
    [wrote] bytes, and a failed [open] has truncated the file if [wrote] is not
    zero. *)
Definition diskDone e (error : bool) (wrote : nat) : M unit :=
  queue ← gets ops;
  match queue with
  | [] => mret tt
  | o :: rest =>
      modify (set_ops rest);;
      match o with
      | Open file truncate =>
          when (truncate && (negb error || negb (wrote =? 0)%nat))
            (modify (fun t => set_disk (fun p => if bool_decide (p = file) then fun _ => 0 else disk t p) t));;
          outputReady e error
      | Write file offset data =>
          let landed := if error then take wrote data else data in
          modify (fun t => set_disk (fun p x =>
            if bool_decide (p = file) && (offset <=? x) && (x <? offset + len landed)
            then default 0 (landed !! Z.to_nat (x - offset)) else disk t p x) t);;
          written e offset (len data) error
      | Close AfterFinish => closedForFinish e
      | Close AfterRestart => restart e
      | Close AfterStop => finishStop
      | Close AfterAbort => mret tt
      end
  end.

(** ** The end of a response *)

(** A failure that is the fault of the route of one address family. *)
Definition blameFamily e (id : Z) (code : CURLcode) : M bool :=
  w ← must (fun t => find id (workers t));
  s ← must (fun t => sources t !! source w);
  let status_ := responseCode e id in
  let statusError := bool_decide (code = CURLE_HTTP_RETURNED_ERROR) &&
    ((status_ =? 401) || (status_ =? 403) || (status_ =? 404) || (status_ =? 421)) in
  let pathError := bool_decide (code = CURLE_COULDNT_CONNECT) || bool_decide (code = CURLE_COULDNT_RESOLVE_HOST) ||
    bool_decide (code = CURLE_OPERATION_TIMEDOUT) || bool_decide (code = CURLE_RECV_ERROR) ||
    bool_decide (code = CURLE_SEND_ERROR) || bool_decide (code = CURLE_SSL_CONNECT_ERROR) || statusError in
  let effective := effectiveUrl e id in
  let family_ := if negb (connectedFamily e id =? 0) then connectedFamily e id else family w in
  if negb pathError || (family_ =? 0) || disableIpv6 (opts e) ||
     ipLiteral (if bool_decide (effective = []) then uri s else effective)
  then mret false
  else
    let mine := familyOf (family_ =? 6) s in
    let other := familyOf (family_ =? 4) s in
    let blame := updSource (source w) (fun s =>
      set_familyOf (family_ =? 6) (set_failed true (familyOf (family_ =? 6) s)) s) in
    if failed other then blame;; mret false
    else if worked mine || (statusError && negb (worked other)) then mret false
    else if failed mine then mret true
    else
      blame;;
      when (negb (bool_decide (effective = [])) && negb (bool_decide (effective = uri s)))
        (updSource (source w) (set_redirect effective));;
      mret true.

(** The server is overloaded, or caps the connections of a client. *)
Definition overloaded e (slot_ source_ : nat) (redirected_ : bool) (retryAfter_ : bytes) (sent receiving_ : Z)
    : M unit :=
  entry ← must (fun t => slots t !! slot_);
  let wait := backoff e 1 (failures entry) in
  let wait := match toInt retryAfter_ with
              | Some asked => Z.max wait (seconds (Z.min asked 600))
              | None => wait
              end in
  updSource source_ (set_sourceReady (now e + wait));;
  s ← must (fun t => sources t !! source_);
  shared ← gets pooled;
  when (shared && (negb (refreshing s) || redirected_))
    (syncHost e;; onPool (HostPool.overloaded self sent (now e) (now e + wait)));;
  t ← get;
  let transferring := if shared : bool then Z.max receiving_ (HostPool.transferringNow self (pool t))
                      else receiving_ in
  allowedConnections e;;
  if allDead t then abort e ServiceUnavailable
  else if transferring =? 0 then slotFailed e slot_ ServiceUnavailable wait
  else when (negb (1 <? len (sources t))) (updSlot slot_ (set_readyAt (now e + wait))).

(** An HTTP status that is an error. *)
Definition failedStatus e (slot_ source_ : nat) (status_ : Z) : M unit :=
  t ← get;
  if (status_ =? 416) && (0 <=? length_ t) then changed e
  else if (status_ =? 412) && (0 <=? length_ t) then changed e
  else if (status_ =? 403) || (status_ =? 404) || (status_ =? 410) || (status_ =? 451) then
    updSource source_ (fun s =>
      let s := set_notFound (notFound s + 1) s in
      if (Z.max (maxFileNotFound (opts e)) 1 <=? notFound s) || (1 <? len (sources t))
      then set_dead true s else s);;
    let code := if status_ =? 403 then HttpProtocol else ResourceNotFound in
    over ← gets allDead;
    if over : bool then abort e code else slotFailed e slot_ code 0
  else if (status_ =? 401) || (status_ =? 407) then abort e HttpAuth
  else slotFailed e slot_ (if 500 <=? status_ then Network else HttpProtocol) 0.

(** The failure counts against the source, and ends a mirror. *)
Definition countFailure e (source_ : nat) : M unit :=
  mirrors ← gets (fun t => 1 <? len (sources t));
  updSource source_ (fun s =>
    let s := set_sourceFailures (sourceFailures s + 1) s in
    if mirrors : bool then
      let s := set_sourceReady (now e + backoff e 0 (sourceFailures s)) s in
      if (0 <? maxTries (opts e)) && (maxTries (opts e) <=? sourceFailures s) then set_dead true s else s
    else s).

Definition failedResponse e (id : Z) (code : CURLcode) : M unit :=
  w ← must (fun t => find id (workers t));
  let status_ := responseCode e id in
  let slot_ := slot w in
  let source_ := source w in
  let httpError := bool_decide (code = CURLE_HTTP_RETURNED_ERROR) in
  blamed ← blameFamily e id code;
  if blamed : bool then
    retireWorker e id;; updSlot slot_ (set_readyAt 0);; launch e
  else
    t ← get;
    let empty := httpError && (status_ =? 416) && ranged t && (length_ t <? 0) &&
                 bool_decide (unsatisfiedRangeLength (contentRange w) = Some 0) in
    retireWorker e id;;
    if empty then modify (set_ranged false);; launch e
    else if httpError && redirected w &&
            ((status_ =? 401) || (status_ =? 403) || (status_ =? 404) || (status_ =? 410)) then
      updSource source_ (fun s =>
        if bool_decide (redirect s = []) then s else set_refreshing true (set_redirect [] s));;
      launch e
    else
      countFailure e source_;;
      receiving_ ← gets (fun t => len (filter (fun entry : Z * Worker => receiving entry.2 = true) (workers t)));
      if httpError then
        if (status_ =? 429) || (status_ =? 503) || ((status_ =? 403) && (0 <? receiving_))
        then overloaded e slot_ source_ (redirected w) (retryAfter w) (started w) receiving_
        else failedStatus e slot_ source_ status_
      else
        when (permanent code) (updSource source_ (set_dead true));;
        over ← gets allDead;
        if permanent code && over then abort e (curlError code)
        else slotFailed e slot_ (curlError code) 0.

Definition finished e (id : Z) (code : CURLcode) : M unit :=
  flush id;;
  t ← get;
  if bool_decide (phase t = Stopping) || bool_decide (phase t = Done) || bool_decide (phase t = Restarting)
  then retireWorker e id;; quiesce e
  else
    w ← must (fun t => find id (workers t));
    let ok := bool_decide (code = CURLE_OK) || (done w && bool_decide (code = CURLE_WRITE_ERROR)) in
    if negb ok then failedResponse e id code
    else
      match planned id t with
      | Some p => when (length_ t <? 0) (onPlanner (SegmentPlanner.setLength (SegmentPlanner.position p)))
      | None => mret tt
      end;;
      planned_ ← gets (fun t => planned id t);
      let short := bool_decide (code = CURLE_OK) && negb (done w) &&
        from_option (fun p => SegmentPlanner.position p <? SegmentPlanner.wend p) false planned_ in
      retireWorker e id;;
      if short then slotFailed e (slot w) Network 0
      else tryFinish e;; launch e.

(** ** The periodic check *)

(** The mean speed of the connections of a source over one address family. *)
Definition meanSpeed e (i : nat) (six : bool) t : option double :=
  let speeds := omap (fun '(id, w) =>
    let family := connectedFamily e id in
    match planned id t with
    | Some p =>
        if negb (bool_decide (source w = i)) || (family =? 0) || negb (receiving w) ||
           (SegmentPlanner.age p <? of_int 2)%double || negb (Bool.eqb (family =? 6) six)
        then None else Some (SegmentPlanner.speed p)
    | None => None
    end) (workers t) in
  if bool_decide (speeds = []) then None
  else Some (foldl dadd dzero speeds / of_int (len speeds))%double.

Definition measureFamilies e : M unit :=
  modify (fun t =>
    let measured := fun i six f => from_option (fun v => set_speed v f) f (meanSpeed e i six t) in
    set_sources (imap (fun i s =>
      set_v4 (measured i false (v4 s)) (set_v6 (measured i true (v6 s)) s)) (sources t)) t).

Definition worthMoving (p : SegmentPlanner.Worker) : bool :=
  (slowWorthSeconds * dmax (SegmentPlanner.speed p) (of_int 1) <?
     of_int (SegmentPlanner.wend p - SegmentPlanner.position p))%double.

(** Ends a connection whose slot may be used at once. *)
Definition replaceWorker e (id : Z) : M unit :=
  w ← must (fun t => find id (workers t));
  cancelWorker e id;;
  updSlot (slot w) (set_readyAt 0).

Definition leaveFamilyOf e (i : nat) : M unit :=
  s ← must (fun t => sources t !! i);
  let fast := fasterFamily s in
  if familyMoved s || (fast =? 0) || failed (v4 s) || failed (v6 s) then mret tt
  else
    t ← get;
    let moving := omap (fun '(id, w) =>
      match planned id t with
      | Some p =>
          if negb (bool_decide (source w = i)) || (SegmentPlanner.wend p =? unbounded) ||
             negb (connectedFamily e id =? (if fast =? 4 then 6 else 4)) || negb (worthMoving p)
          then None else Some id
      | None => None
      end) (workers t) in
    if bool_decide (moving = []) then mret tt
    else
      updSource i (set_familyMoved true);;
      each moving (replaceWorker e).

Definition leaveSlowFamily e : M unit :=
  t ← get;
  if negb (bool_decide (phase t = Running)) || negb (ranged t) || disableIpv6 (opts e) then mret tt
  else each (seq 0 (length (sources t))) (leaveFamilyOf e).

(** A connection that showed its speed. *)
Definition measured (p : option SegmentPlanner.Worker) : bool :=
  match p with
  | Some p => SegmentPlanner.receiving p && (slowGraceSeconds <=? SegmentPlanner.age p)%double
  | None => false
  end.

(** Was the last replacement faster? *)
Definition judgeReplacement e (slot_ : nat) (speed_ : double) : M unit :=
  entry ← must (fun t => slots t !! slot_);
  p ← gets (fun t => match holder entry with Some id => planned id t | None => None end);
  t ← get;
  match p with
  | Some p' =>
      when (measured p)
        (let faster := (of_int 2 * speed_ <=? SegmentPlanner.speed p')%double in
         let strikes := if faster then 0 else Z.min (recycleStrikes t + 1) maxRecycleStrikes in
         modify (set_recycleStrikes strikes);;
         modify (set_recycleAfter (now e + recycleInterval * Z.shiftl 1 strikes));;
         modify (set_recycled None))
  | None =>
      when (bool_decide (holder entry = None) && (recycleAfter t + 4 * recycleInterval <=? now e))
        (modify (set_recycled None))
  end.

(** The ticks a connection was slow for. *)
Definition slowTicksOf (sum : double) (count : Z) t (id : Z) (w : Worker) : Z :=
  match planned id t with
  | Some p =>
      if negb (measured (Some p)) || paused w then 0
      else
        let reference :=
          if 1 <? count then ((sum - SegmentPlanner.speed p) / of_int (count - 1))%double
          else if len (workers t) =? 1 then longRate t else dzero in
        if (SegmentPlanner.speed p <? slowFraction * reference)%double && worthMoving p
        then slowTicks w + 1 else 0
  | None => 0
  end.

Definition slowest t : option (Z * double) :=
  foldl (fun best '(id, w) =>
    match planned id t with
    | Some p =>
        if measured (Some p) && negb (paused w) && (slowTicksLimit <=? slowTicks w) &&
           match best with Some (_, v) => (SegmentPlanner.speed p <? v)%double | None => true end
        then Some (id, SegmentPlanner.speed p) else best
    | None => best
    end) None (workers t).

Definition recycleSlow e (bytes_ : Z) : M unit :=
  let rate := (of_int bytes_ / tickSeconds)%double in
  modify (fun t => set_longRate
    (if (dzero <? longRate t)%double
     then (longRate t + (rate - longRate t) * tickSeconds / longRateSeconds)%double else rate) t);;
  t ← get;
  if negb (bool_decide (phase t = Running)) || negb (ranged t) || negb (unlimited e) ||
     (writeBudget / 2 <? unflushed t)
  then mret tt
  else
    match recycled t with
    | Some (slot_, speed_) => judgeReplacement e slot_ speed_
    | None =>
        if now e <? recycleAfter t then mret tt
        else
          let speeds := omap (fun '(id, _) =>
            if measured (planned id t) then SegmentPlanner.speed <$> planned id t else None) (workers t) in
          let sum := foldl dadd dzero speeds in
          modify (fun t => set_workers (map_values (fun id w =>
            set_slowTicks (slowTicksOf sum (len speeds) t id w) w) (workers t)) t);;
          found ← gets slowest;
          match found with
          | None => mret tt
          | Some (id, speed_) =>
              w ← must (fun t => find id (workers t));
              replaceWorker e id;;
              modify (set_recycled (Some (slot w, speed_)));;
              modify (set_recycleAfter (now e))
          end
    end.

(** The connection with the most left to fetch. *)
Definition shedVictim t : option Z :=
  fst <$> foldl (fun best '(id, _) =>
    let left_ := from_option (fun p => SegmentPlanner.wend p - SegmentPlanner.position p) 0 (planned id t) in
    let most := match best with Some (_, m) => m | None => -1 end in
    if most <? left_ then Some (id, left_) else best) (None : option (Z * Z)) (workers t).

Fixpoint shedLoop e (fuel : nat) (allowed : Z) : M unit :=
  t ← get;
  if len (workers t) <=? Z.max allowed 1 then mret tt
  else
    match fuel with
    | O => crash
    | S fuel =>
        match shedVictim t with
        | None => mret tt
        | Some victim => cancelWorker e victim;; shedLoop e fuel allowed
        end
    end.

Definition shedConnections e : M unit :=
  t ← get;
  if negb (pooled t) || negb (bool_decide (phase t = Running)) then mret tt
  else
    allowed ← allowedConnections e;
    shedLoop e (length (workers t)) allowed.

(** The body of the loop of [tick]. A worker that was retired by an [abort] in
    an earlier round is still asked whether it stalled. *)
Definition tickWorker e (id : Z) (copy : Worker) : M unit :=
  found ← gets (fun t => find id (workers t));
  let w := default copy found in
  onPlanner (SegmentPlanner.updateSpeed id (of_int (tickBytes w) / tickSeconds)%double tickSeconds);;
  updWorker id (set_tickBytes 0);;
  when (bool_decide (found <> None) && negb (bool_decide (buffer w = [])) && (flushAfter <=? now e - bufferedSince w))
    (flush id);;
  t ← get;
  if paused w then
    when ((unflushed t <=? writeBudget) && available e)
      (updWorker id (fun w => set_lastData (now e) (set_paused false w)))
  else if negb (connected w) && negb (connectedFamily e id =? 0) then
    updWorker id (fun w => set_lastData (now e) (set_connected true w))
  else
    when (connected w && (stallAfter <? now e - lastData w))
      (cancelWorker e id;; slotFailed e (slot w) TimedOut (seconds 1)).

Definition tick e : M unit :=
  modify (set_tickScheduled false);;
  p ← gets phase;
  if negb (fetching p) then mret tt
  else
    measureFamilies e;;
    leaveSlowFamily e;;
    all ← gets workers;
    each all (fun '(id, w) => tickWorker e id w);;
    recycleSlow e (zsum ((fun entry : Z * Worker => tickBytes entry.2) <$> all));;
    syncHost e;;
    onPool (HostPool.tick (now e));;
    shedConnections e;;
    launch e;;
    modify (set_tickScheduled true).

(** ** Calls of the engine *)

Definition storedRecord e : M (option TransferRecord) :=
  mine ← gets record;
  match mine, outPath (opts e) with
  | Some r, _ => mret (Some r)
  | None, Some path_ => claimRecord e path_
  | None, None => mret None
  end.

Definition start e : M unit :=
  reset e;;
  modify (set_phase Probing);;
  modify (set_tickScheduled true);;
  stored ← (if removeControlFile (opts e) || dryRun (opts e) then mret None else storedRecord e)
           : M (option TransferRecord);
  match stored with
  | Some r =>
      match (if 0 <? totalLength r then storedSuffix e (recordPath r) else None) with
      | Some suffix_ =>
          setPath (recordPath r) suffix_ true;;
          modify (set_taskEtag (recordEtag r));;
          modify (set_taskModified (recordModified r));;
          onPlanner (SegmentPlanner.setLength (totalLength r));;
          restoreRanges (completed r);;
          modify (set_phase Opening);;
          openOutput false
      | None => launch e
      end
  | None => launch e
  end.

Definition loadProgress e : M unit :=
  if removeControlFile (opts e) || dryRun (opts e) then mret tt
  else
    stored ← storedRecord e;
    match stored with
    | Some r =>
        match (if 0 <? totalLength r then storedSuffix e (recordPath r) else None) with
        | Some suffix_ =>
            setPath (recordPath r) suffix_ true;;
            onPlanner (SegmentPlanner.setLength (totalLength r));;
            onPlanner (SegmentPlanner.restore (completed r))
        | None => mret tt
        end
    | None => mret tt
    end.

(** [sources_.erase(found)] of the first source with the URI, if it is idle. *)
Fixpoint removeSource (u : bytes) (l : list Source) : list Source :=
  match l with
  | [] => []
  | s :: l' =>
      if bool_decide (uri s = u) then (if active s =? 0 then l' else s :: l')
      else s :: removeSource u l'
  end.

Definition changeUris e (fileIndex : Z) (remove add : list bytes) (position : Z) : M bool :=
  if negb (fileIndex =? 1) then mret false
  else
    modify (fun t => set_sources (foldl (fun l u => removeSource u l) (sources t) remove) t);;
    modify (fun t =>
      let size := len (sources t) in
      let at_ := Z.to_nat (clamp (if position <? 0 then size else position) 0 size) in
      set_sources (take at_ (sources t) ++ (newSource <$> add) ++ drop at_ (sources t)) t);;
    when (isActive e) (launch e);;
    mret true.

(** ** Events *)

Inductive event :=
  | Start
  | Stop
  | Header (id : Z) (line : bytes)
  | Data (id : Z) (data : bytes)
  | Ended (id : Z) (code : CURLcode)
  | DiskDone (error : bool) (wrote : nat)
  | Posted
  | WholeChecked (failure : bool)
  | PiecesChecked (failure : bool) (bad : option (list nat))
  | Tick
  | Checkpoint
  | ChangeUris (fileIndex : Z) (remove add : list bytes) (position : Z).

(** Callbacks of a worker that was cancelled do not come. *)
Definition live (id : Z) (m : M unit) : M unit :=
  found ← gets (fun t => find id (workers t));
  when (bool_decide (found <> None)) m.

(** A hash that is under way ends. *)
Fixpoint removeCheck (c : check) (l : list check) : option (list check) :=
  match l with
  | [] => None
  | c' :: l' =>
      match c, c' with
      | Whole, Whole => Some l'
      | Pieces a, Pieces b => if Bool.eqb a b then Some l' else cons c' <$> removeCheck c l'
      | _, _ => cons c' <$> removeCheck c l'
      end
  end.
Definition checked (c : check) (m : M unit) : M unit :=
  running ← gets (fun t => removeCheck c (checks t));
  match running with
  | Some rest => modify (set_checks rest);; m
  | None => mret tt
  end.

Definition exec (e : env) (ev : event) : M unit :=
  match ev with
  | Start => start e
  | Stop => stop e
  | Header id line => live id (onHeader e id line)
  | Data id data => live id (onData e id data;; mret tt)
  | Ended id code => live id (finished e id code)
  | DiskDone error wrote => diskDone e error wrote
  | Posted =>
      waiting ← gets posts;
      match waiting with
      | O => mret tt
      | S n => modify (set_posts n);; restart e
      end
  | WholeChecked failure => checked Whole (wholeChecked e failure)
  | PiecesChecked failure bad => checked (Pieces failure) (piecesChecked e failure bad)
  | Tick => ticking ← gets tickScheduled; when ticking (tick e)
  | Checkpoint => checkpoint e
  | ChangeUris fileIndex remove add position => changeUris e fileIndex remove add position;; mret tt
  end.

Fixpoint run (l : list (env * event)) : M unit :=
  match l with
  | [] => mret tt
  | (e, ev) :: l' => exec e ev;; run l'
  end.

(** A new task; [setMetalink] gives the length and the pieces. *)
Definition create (uris : list bytes) (minSplit declared_ pieceLength_ : Z) (pieces : nat)
    (record_ : option TransferRecord) (disk_ : bytes -> Z -> Z) : task R :=
  mkTask Idle (newSource <$> uris) [] [] 0 (SegmentPlanner.create minSplit) br_empty None [] [] [] [] []
    false true false false false 0 declared_ pieceLength_ (replicate pieces 0) 0 Network 0 0 dzero 0 0 None
    false false record_ HostPool.create disk_ [] 0 [] [].
End http.
End HttpTask.
