(* ===== verification/HttpLogic.v ===== *)
(** * Reasoning about the operations of an HTTP download

    [wp m Q t] is the weakest precondition of an operation: run on the task [t],
    [m] does not crash, and its result and the new task satisfy [Q]. *)

From S2P Require Import Prelude StdMap Double Bytes Text Ranges SegmentPlanner HostPool HttpState HttpTask.

Module HttpLogic.
Import Bytes Text HttpState HttpTask.

Abbreviation R := RangeSet.t.

Section wp.
Context {A : Type}.
Implicit Types (t : task R) (Q : A -> task R -> Prop).

Definition wp (m : M A) Q t : Prop :=
  match m t with
  | Some (a, t') => Q a t'
  | None => False
  end.

Lemma wp_mono (m : M A) Q Q' t : wp m Q t -> (forall a t', Q a t' -> Q' a t') -> wp m Q' t.
Proof. unfold wp. destruct (m t) as [[a t']|]; auto. Qed.

Lemma wp_run (m : M A) Q t : wp m Q t -> exists a t', m t = Some (a, t') /\ Q a t'.
Proof. unfold wp. destruct (m t) as [[a t']|]; [eauto|done]. Qed.

Lemma wp_eq (m : M A) Q t a t' : m t = Some (a, t') -> Q a t' -> wp m Q t.
Proof. unfold wp. by intros ->. Qed.

Lemma wp_ret (a : A) Q t : Q a t -> wp (mret a) Q t.
Proof. done. Qed.
Lemma wp_gets (f : task R -> A) Q t : Q (f t) t -> wp (gets f) Q t.
Proof. done. Qed.
Lemma wp_must (f : task R -> option A) Q t a : f t = Some a -> Q a t -> wp (must f) Q t.
Proof. unfold wp, must. by intros ->. Qed.
End wp.

Section wp_more.
Implicit Types (t : task R).

Lemma wp_bind {A B} (m : M A) (k : A -> M B) Q t :
  wp m (fun a => wp (k a) Q) t -> wp (m ≫= k) Q t.
Proof. unfold wp, mbind, M_bind. destruct (m t) as [[a t']|]; done. Qed.
Lemma wp_get (Q : task R -> task R -> Prop) t : Q t t -> wp get Q t.
Proof. done. Qed.
Lemma wp_modify f (Q : unit -> task R -> Prop) t : Q tt (f t) -> wp (modify f) Q t.
Proof. done. Qed.
Lemma wp_when (b : bool) (m : M unit) Q t :
  (b = true -> wp m Q t) -> (b = false -> Q tt t) -> wp (when b m) Q t.
Proof. intros Ht Hf. destruct b; [by apply Ht|by apply (Hf eq_refl)]. Qed.

(** Invariants of loops over a copy of a container. *)
Lemma wp_each {A} (l : list A) (f : A -> M unit) (I : list A -> task R -> Prop) t :
  I l t -> (forall a l t, I (a :: l) t -> wp (f a) (fun _ => I l) t) -> wp (each l f) (fun _ => I []) t.
Proof.
  intros Ht Hstep. revert t Ht. induction l as [|a l IH]; intros t Ht; simpl; [done|].
  apply wp_bind. eapply wp_mono; [by apply Hstep|]. intros [] t'. apply IH.
Qed.

Lemma wp_eachWhile {A} (l : list A) (f : A -> M bool) (I : task R -> Prop) t :
  I t -> (forall a t, a ∈ l -> I t -> wp (f a) (fun _ => I) t) -> wp (eachWhile l f) (fun _ => I) t.
Proof.
  revert t. induction l as [|a l IH]; intros t Ht Hstep; simpl; [done|].
  apply wp_bind. eapply wp_mono; [by apply Hstep; [left|]|]. intros [] t' Ht'; [|done].
  apply IH; [done|]. intros. apply Hstep; [by right|done].
Qed.
End wp_more.

(** Runs the next primitive of a goal [wp m Q t]. *)
Ltac step :=
  match goal with
  | |- wp (_ ≫= _) _ _ => apply wp_bind
  | |- wp (mret _) _ _ => apply wp_ret
  | |- wp (gets _) _ _ => apply wp_gets
  | |- wp get _ _ => apply wp_get
  | |- wp (modify _) _ _ => apply wp_modify
  | |- wp (onPlanner _) _ _ => apply wp_modify
  | |- wp (onPool _) _ _ => apply wp_modify
  | |- wp (tell _) _ _ => apply wp_modify
  | |- wp (enqueue _) _ _ => apply wp_modify
  | |- wp (updWorker _ _) _ _ => apply wp_modify
  | |- wp leaveHost _ _ => apply wp_modify
  end.
Ltac steps := repeat (step; cbv beta).
End HttpLogic.
