(* ===== verification/HttpExamples.v ===== *)
(** * Runs of an HTTP download

    The proof that a task which has its file, but nothing on its way, stays so,
    and runs of the model that show what the code does where it does not do what
    its comments say. The servers and files are small; the texts of the headers
    are those of HTTP. *)

From S2P Require Import Prelude StdMap Double Bytes Text Ranges SegmentPlanner HostPool.
From S2P Require Import HttpState HttpTask HttpLogic.

Module HttpExamples.
Import Bytes Text HttpState HttpTask HttpLogic.

#[local] Instance library : Library := {|
  getdate := fun _ => -1;
  serverOf := fun _ => "http://host:80";
  ipLiteral := fun _ => true;
  manifestType := fun _ => false;
|}.
Definition undefined (_ : double) : Z := int64_min.
Definition self : Z := 1.

(** One connection, any number of tries, a second between them. *)
Definition defaults : options :=
  mkOptions 1 1 0 1 1 false false false false false false true true false [] None.
Definition continuing (o : options) : options :=
  mkOptions (split o) (maxConnectionPerServer o) (maxTries o) (retryWait o) (maxFileNotFound o)
    (httpAcceptGzip o) (dryRun o) (mediaAuto o) true (removeControlFile o) (allowOverwrite o)
    (autoFileRenaming o) (disableIpv6 o) (checksum o) (incompleteSuffix o) (outPath o).
Definition suffixed (s : bytes) (o : options) : options :=
  mkOptions (split o) (maxConnectionPerServer o) (maxTries o) (retryWait o) (maxFileNotFound o)
    (httpAcceptGzip o) (dryRun o) (mediaAuto o) (continue_ o) (removeControlFile o) (allowOverwrite o)
    (autoFileRenaming o) (disableIpv6 o) (checksum o) s (outPath o).

Definition name : bytes := str "f".
Definition numbered : bytes := str "f.1".

(** The surroundings at second [n], with files of the given sizes and the
    records of other tasks. *)
Definition around (o : options) (files : list (bytes * Z)) (records : bytes -> option TransferRecord) (n : Z)
    : env :=
  let size := fun f : bytes => snd <$> head (filter (fun file : bytes * Z => file.1 = f) files) in
  mkEnv (seconds n) o (fun _ low _ => low) (fun _ => 4) (fun _ => []) (fun _ => 0) (fun _ => 5) true true
    (fun _ => None) (fun _ => name) (fun _ => false) (fun _ => false) (fun f => bool_decide (size f <> None))
    (fun f => default 0 (size f)) (fun _ => Some numbered) false records true false.
Definition at_ (n : Z) : env := around defaults [] (fun _ => None) n.

Definition newTask (uris : list bytes) (disk_ : bytes -> Z -> Z) : task R :=
  create uris (2 ^ 20) (-1) 0 0 None disk_.
Definition blank (_ : bytes) (_ : Z) : Z := 0.
Definition one : task R := newTask [str "http://host/f"] blank.
Abbreviation runs l t := (run undefined self l t).

(** The header lines of a response, as events of a worker. *)
Definition responds (e : env) (id : Z) (lines : list string) : list (env * event) :=
  (fun l => (e, Header id (str l ++ [13; 10]))) <$> (lines ++ [""%string]).

(** What a user sees of a task. *)
Record sight := mkSight { seenPhase : Phase; seenReports : list report; seenFile : list Z }.
Definition look (f : bytes) (n : nat) (t : task R) : sight :=
  mkSight (phase t) (reports t) (disk t f ∘ Z.of_nat <$> seq 0 n).
Definition sees (f : bytes) (n : nat) (l : list (env * event)) (t : task R) : option sight :=
  (fun result : unit * task R => look f n result.2) <$> runs l t.

(** ** A file that is complete and never finished *)

(** Everything has arrived and nothing is on its way. *)
Record hung (t : task R) : Prop := {
  hung_phase : phase t = Running;
  hung_complete : SegmentPlanner.complete (planner t) = true;
  hung_sources : sources t <> [];
  hung_workers : workers t = [];
  hung_ops : ops t = [];
  hung_posts : posts t = 0%nat;
  hung_checks : checks t = [];
  hung_recycled : recycled t = None;
  hung_reports : reports t = [];
}.

(** Everything that can come but for [start], [stop] and the removal of a
    source. *)
Definition awaited (ev : event) : Prop :=
  match ev with
  | Start | Stop => False
  | ChangeUris _ remove _ _ => remove = []
  | _ => True
  end.

Section hung.
Context `{Library} (undefined_ : double -> Z) (self_ : Z).
Implicit Types (t : task R) (e : env).

Lemma hung_set_pool t p : hung t -> hung (set_pool p t).
Proof. intros []. by constructor. Qed.

Lemma hung_sync e t : hung t -> wp (syncHost self_ e) (fun _ => hung) t.
Proof.
  intros Ht. unfold syncHost. steps. apply wp_when; intros _; [|done].
  step. pose proof (hung_sources _ Ht) as Hs. destruct (sources t) as [|s l] eqn:Hl; [done|].
  eapply wp_must; [unfold hostKey; by rewrite Hl|]. step. by apply hung_set_pool.
Qed.

Lemma hung_launch e t : hung t -> wp (launch undefined_ self_ e) (fun _ => hung) t.
Proof.
  intros Ht. unfold launch. steps. rewrite (hung_complete _ Ht), orb_true_r. by step.
Qed.

Lemma hung_measure e t : hung t -> wp (measureFamilies e) (fun _ => hung) t.
Proof.
  intros []. unfold measureFamilies. step. constructor; try done. simpl. intros Hn. by destruct (sources t).
Qed.

Lemma hung_leaveSlow e t : hung t -> wp (leaveSlowFamily self_ e) (fun _ => hung) t.
Proof.
  intros Ht. unfold leaveSlowFamily. steps. destruct (_ || _); [by step|].
  eapply wp_mono; [apply (wp_each _ _ (fun l t' => hung t' /\ length (sources t') = length (sources t) /\
    forall i, i ∈ l -> (i < length (sources t))%nat))|].
  - split_and!; [done..|]. intros i Hi%elem_of_seq. lia.
  - intros i l t' (Ht' & Hl & Hin). unfold leaveFamilyOf. step.
    destruct (lookup_lt_is_Some_2 (sources t') i) as [s Hs]; [rewrite Hl; apply Hin; left|].
    eapply wp_must; [exact Hs|]. destruct (_ || _); [step|].
    + split_and!; [done..|]. intros j Hj. apply Hin. by right.
    + steps. rewrite (hung_workers _ Ht'). simpl. step. split_and!; [done..|].
      intros j Hj. apply Hin. by right.
  - by intros [] t' (? & _).
Qed.

Lemma hung_recycle e n t : hung t -> wp (recycleSlow self_ e n) (fun _ => hung) t.
Proof.
  intros Ht. unfold recycleSlow. steps. destruct (_ || _ || _ || _); [step; by destruct Ht|].
  rewrite (hung_recycled _ Ht : recycled (set_longRate _ t) = None).
  destruct (_ <? _); [step; by destruct Ht|]. steps. unfold slowest. simpl.
  rewrite (hung_workers _ Ht). simpl. step. destruct Ht. by constructor.
Qed.

Lemma hung_shed e t : hung t -> wp (shedConnections self_ e) (fun _ => hung) t.
Proof.
  intros Ht. unfold shedConnections. steps. destruct (_ || _); [by step|]. step.
  apply (wp_mono _ (fun _ => hung)).
  { unfold wp, allowedConnections. destruct (pooled t); [|done].
    destruct (HostPool.allowance self_ (pool t)). by apply hung_set_pool. }
  intros n t' Ht'. rewrite (hung_workers _ Ht). simpl. step. step. rewrite (hung_workers _ Ht').
  change (len []) with 0. destruct (Z.leb_spec 0 (Z.max n 1)); [by step|lia].
Qed.

Lemma hung_tick e t : hung t -> wp (tick undefined_ self_ e) (fun _ => hung) t.
Proof.
  intros Ht. unfold tick. steps. simpl. rewrite (hung_phase _ Ht). simpl.
  step. eapply wp_mono; [apply (hung_measure e); by destruct Ht|]. intros [] t1 Ht1.
  step. eapply wp_mono; [by apply (hung_leaveSlow e)|]. intros [] t2 Ht2. step. step.
  rewrite (hung_workers _ Ht2). simpl. step. step.
  step. eapply wp_mono; [by apply hung_recycle|]. intros [] t3 Ht3.
  step. eapply wp_mono; [by apply (hung_sync e)|]. intros [] t4 Ht4. step. step.
  step. eapply wp_mono; [apply hung_shed; by apply hung_set_pool|]. intros [] t5 Ht5.
  step. eapply wp_mono; [by apply hung_launch|]. intros [] t6 Ht6. step. by destruct Ht6.
Qed.

Lemma take_drop_nil {A} n (l : list A) : take n l = [] -> drop n l = [] -> l = [].
Proof. intros Ht Hd. by rewrite <- (take_drop n l), Ht, Hd. Qed.

Lemma hung_exec e ev t : hung t -> awaited ev -> wp (exec undefined_ self_ e ev) (fun _ => hung) t.
Proof.
  intros Ht Hev. destruct ev as [| | | | | | | | | | |i remove add pos]; try done; unfold exec.
  1-3: unfold live; steps; apply wp_when; [|done]; intros Hb%bool_decide_eq_true;
    by rewrite (hung_workers _ Ht) in Hb.
  - unfold diskDone. steps. rewrite (hung_ops _ Ht). by apply wp_ret.
  - steps. rewrite (hung_posts _ Ht). by apply wp_ret.
  - unfold checked. steps. rewrite (hung_checks _ Ht). by apply wp_ret.
  - unfold checked. steps. rewrite (hung_checks _ Ht). by apply wp_ret.
  - steps. apply wp_when; [|done]. intros _. by apply hung_tick.
  - unfold checkpoint. steps. destruct (_ || _); [by step|]. step. pose proof (hung_sources _ Ht).
    destruct (sources t) as [|s l] eqn:Hl; [done|]. eapply wp_must; [by rewrite Hl|]. step. by destruct Ht.
  - simpl in Hev. subst remove. unfold changeUris. step. destruct (negb (i =? 1)); [by steps|]. steps.
    apply (wp_mono _ (fun _ => hung)); [|intros [] t' Ht'; by steps].
    apply wp_when; [intros _; apply hung_launch|intros _]; destruct Ht; constructor; try done; simpl.
    all: intros [Hn [_ Hm]%app_nil]%app_nil; by eapply hung_sources0, take_drop_nil.
Qed.

Lemma hung_run l t : hung t -> Forall (fun entry => awaited entry.2) l -> wp (run undefined_ self_ l) (fun _ => hung) t.
Proof.
  intros Ht Hl. revert t Ht. induction Hl as [|[e ev] l Hev _ IH]; intros t Ht; [by apply wp_ret|].
  simpl. step. eapply wp_mono; [by apply hung_exec|]. intros [] t'. apply IH.
Qed.

(** C37. A download can hang with its file complete. In a task that is running
    with every byte of the file received, and that has no connection, no disk
    operation, no posted call and no check on its way, nothing ever calls
    [tryFinish] again: whatever comes later (ticks, checkpoints, added URIs,
    late answers of closed connections), at any times and in any surroundings,
    but for [start], [stop] and [changeUris] that removes a URI, no operation
    crashes, the task is still running, reports nothing and opens no
    connection. *)
Theorem complete_file_is_never_finished t l :
  hung t -> Forall (fun entry => awaited entry.2) l ->
  exists t', run undefined_ self_ l t = Some (tt, t') /\ phase t' = Running /\
    SegmentPlanner.complete (planner t') = true /\ reports t' = [] /\ workers t' = [].
Proof.
  intros Ht Hl. destruct (wp_run _ _ _ (hung_run l t Ht Hl)) as ([] & t' & Hrun & []). by exists t'.
Qed.
End hung.

(** How a task gets there: [tryFinish] waits for a ranged answer without a
    length to end by itself, so that it sees bytes beyond the announced length,
    and counts on [finished] to call it again. Such an answer delivers
    everything, and then says nothing more; [tick] gives up the silent
    connection, and no one calls [tryFinish]. *)
Definition complete_then_silent : list (env * event) :=
  [(at_ 100, Start)] ++ responds (at_ 100) 0 ["HTTP/1.1 206 Partial Content"; "Content-Range: bytes 0-2/3"] ++
  [(at_ 100, Data 0 [7; 8; 9]); (at_ 100, DiskDone false 0); (at_ 100, DiskDone false 0);
   (at_ 101, Tick); (at_ 110, Tick)].

Definition isHung (t : task R) : bool :=
  bool_decide (phase t = Running) && SegmentPlanner.complete (planner t) &&
  match sources t, workers t, ops t, posts t, checks t, recycled t, reports t with
  | _ :: _, [], [], O, [], None, [] => true
  | _, _, _, _, _, _, _ => false
  end.

Lemma isHung_hung t : isHung t = true -> hung t.
Proof.
  unfold isHung. intros [[Hp%bool_decide_eq_true Hc]%andb_prop Hh]%andb_prop.
  repeat case_match; try done. constructor; congruence.
Qed.

(** The run above ends in such a state, and whatever is awaited changes nothing. *)
Lemma complete_file_is_never_finished_witness :
  exists t, runs complete_then_silent one = Some (tt, t) /\ look name 3 t = mkSight Running [] [7; 8; 9] /\
    exists t', runs [(at_ 120, Tick); (at_ 130, Checkpoint); (at_ 200, ChangeUris 1 [] [str "http://other/f"] 0);
                     (at_ 300, Tick)] t = Some (tt, t') /\
      phase t' = Running /\ reports t' = [].
Proof.
  assert ((fun r : unit * task R => (look name 3 r.2, isHung r.2)) <$> runs complete_then_silent one =
    Some (mkSight Running [] [7; 8; 9], true)) as Hrun by (vm_compute; reflexivity).
  destruct (runs complete_then_silent one) as [[[] t]|]; [|discriminate Hrun].
  apply (inj Some), pair_eq in Hrun as [Hl Hh%isHung_hung]. exists t. split; [reflexivity|]. split; [exact Hl|].
  destruct (complete_file_is_never_finished undefined self t
    [(at_ 120, Tick); (at_ 130, Checkpoint); (at_ 200, ChangeUris 1 [] [str "http://other/f"] 0); (at_ 300, Tick)] Hh)
    as (t' & Hr & Hp & _ & Hrep & _); [repeat constructor|].
  exists t'. split; [exact Hr|]. split; [exact Hp|exact Hrep].
Defined.

(** ** Two versions in one file *)

(** Version A has bytes 1, version B bytes 2. *)
Definition versionA : list string :=
  ["HTTP/1.1 206 Partial Content"; "Content-Range: bytes 0-3/4"; "Content-Length: 4"; "ETag: A"].
Definition restOfA : list string :=
  ["HTTP/1.1 206 Partial Content"; "Content-Range: bytes 2-3/4"; "Content-Length: 2"; "ETag: A"].
Definition versionB : list string := ["HTTP/1.1 200 OK"; "Content-Length: 4"; "ETag: B"].

(** A probe that is answered with version A and breaks; the connection after it
    gets version B, as its If-Range does not match, and the download restarts. *)
Definition restarts_once (n first : Z) : list (env * event) :=
  responds (at_ n) first versionA ++
  [(at_ n, DiskDone false 0); (at_ n, Ended first CURLE_RECV_ERROR); (at_ (n + 2), Tick)] ++
  responds (at_ (n + 2)) (first + 1) versionB ++ [(at_ (n + 2), DiskDone false 0)].
Definition alternating : list (env * event) :=
  [(at_ 100, Start)] ++ restarts_once 100 0 ++ restarts_once 102 2 ++
  responds (at_ 104) 4 versionA ++
  [(at_ 104, DiskDone false 0); (at_ 104, Ended 4 CURLE_RECV_ERROR); (at_ 106, Tick)] ++
  responds (at_ 106) 5 versionB ++
  [(at_ 106, Data 5 [2; 2]); (at_ 106, Ended 5 CURLE_RECV_ERROR); (at_ 106, DiskDone false 0); (at_ 108, Tick)] ++
  responds (at_ 108) 6 restOfA ++
  [(at_ 108, Data 6 [1; 1]); (at_ 108, Ended 6 CURLE_OK); (at_ 108, DiskDone false 0); (at_ 108, DiskDone false 0)].

(** A server with two backends that serve different versions under different
    strong tags. After the second restart ([single_]) [accept] no longer compares
    tags: a whole answer of version B is taken at byte 0 while [etag_] is still
    that of A, and what is missing later is asked for with A's tag and comes from
    A. The download completes with a file that is neither. *)
Lemma two_versions_in_one_file :
  sees name 4 alternating one = Some (mkSight Done [Completed] [2; 2; 1; 1]).
Proof. vm_compute. reflexivity. Qed.

(** ** A record that outlives its file *)

Definition unfinished : TransferRecord := mkRecord (str "http://host/f") name (str "A") [] 4 [(0, 4)].
Definition claiming (n : Z) : env :=
  around (continuing defaults) [(name, 4)] (fun f => if bool_decide (f = name) then Some unfinished else None) n.
Definition forgotten_record : list (env * event) :=
  [(claiming 100, Start)] ++ responds (claiming 100) 0 ["HTTP/1.1 200 OK"; "ETag: B"] ++
  [(claiming 100, DiskDone false 0); (claiming 101, Stop); (claiming 101, DiskDone false 0);
   (claiming 102, Start); (claiming 102, DiskDone false 0); (claiming 102, DiskDone false 0)].
Definition ones (_ : bytes) (_ : Z) : Z := 1.
Definition two_tasks_file : task R := newTask [str "http://host/f"] ones.

(** With [--continue] a task takes over the record of an unfinished file. The
    server has another version and does not say its length: the file is
    truncated, but [checkpoint] saves nothing without a length, so the record
    stays. After a pause the task believes it, and completes with a file in which
    nothing was written. *)
Lemma stale_record_completes_an_empty_file :
  sees name 4 forgotten_record two_tasks_file = Some (mkSight Done [Stopped; Completed] [0; 0; 0; 0]).
Proof. vm_compute. reflexivity. Qed.

(** ** A name that is taken while the file is downloaded *)

Definition part : bytes := str ".part".
Definition parted (files : list (bytes * Z)) (n : Z) : env :=
  around (suffixed part defaults) files (fun _ => None) n.
Definition taken_meanwhile : list (env * event) :=
  let before := parted [] 100 in
  let behind := parted [(name, 9); (name ++ part, 3)] 101 in
  [(before, Start)] ++
  responds before 0 ["HTTP/1.1 206 Partial Content"; "Content-Range: bytes 0-2/3"; "Content-Length: 3"] ++
  [(before, Data 0 [7; 8; 9]); (before, DiskDone false 0); (behind, DiskDone false 0); (behind, DiskDone false 0)].

(** [publish] gives the file another name if one with its final name appeared,
    but sets [path_] before it renames, so that it looks for the unfinished file
    under the new name: a download whose file is complete fails. *)
Lemma numbered_file_is_not_renamed :
  sees (name ++ part) 3 taken_meanwhile one = Some (mkSight Done [Failed RenameFailed] [7; 8; 9]).
Proof. vm_compute. reflexivity. Qed.

(** ** An adopted file *)

Definition adopting (n : Z) : env := around (continuing defaults) [(name, 2)] (fun _ => None) n.
Definition adopted : list (env * event) :=
  [(adopting 100, Start)] ++ responds (adopting 100) 0 versionA ++ [(adopting 100, DiskDone false 0)].
Definition resumed : list (env * event) :=
  [(adopting 101, Stop); (adopting 101, DiskDone false 0); (adopting 102, Start); (adopting 102, DiskDone false 0)].

(** An existing file that [--continue] adopted is left unchanged if the server
    has another version, unless the download was paused: a stored record makes
    [start] take the file for its own, and the restart truncates it. *)
Lemma adopted_file_is_truncated :
  sees name 2 (adopted ++ responds (adopting 100) 1 versionB) two_tasks_file =
    Some (mkSight Done [Failed CannotResume] [1; 1]) /\
  sees name 2 (adopted ++ resumed ++ responds (adopting 102) 2 versionB ++ [(adopting 102, DiskDone false 0)] ++
      responds (adopting 102) 3 versionB ++ [(adopting 102, DiskDone false 0)]) two_tasks_file =
    Some (mkSight Running [Stopped] [0; 0]).
Proof. by vm_compute. Qed.

(** ** Crashes *)

(** SFTP has no headers, so [onData] accepts the response and goes on to
    [receive]. With [--continue] and a file that exists, [accept] has cancelled
    the worker, and [receive] uses its null pointer in the planner. *)
Lemma sftp_continue_crashes :
  sees name 0 [(adopting 100, Start)] one = Some (mkSight Probing [] []) /\
  sees name 0 [(adopting 100, Start); (adopting 100, Data 0 [1; 2; 3])] one = None.
Proof. by vm_compute. Qed.

(** [changeUris] erases a source that has no connection; workers keep the index
    of theirs, which may then lie outside the vector. *)
Definition two_uris : task R := newTask [str "http://a/f"; str "http://b/f"] blank.
Definition removed_uri : list (env * event) :=
  [(at_ 100, Start); (at_ 100, Ended 0 CURLE_RECV_ERROR); (at_ 100, Tick);
   (at_ 100, ChangeUris 1 [str "http://a/f"] [] (-1))].
Lemma removed_uri_crashes :
  sees name 0 removed_uri two_uris = Some (mkSight Probing [] []) /\
  sees name 0 (removed_uri ++ [(at_ 101, Ended 1 CURLE_RECV_ERROR)]) two_uris = None.
Proof. by vm_compute. Qed.
End HttpExamples.
