(* ===== verification/Engine.v ===== *)
(** * The task queue: [src/core/Engine.h], [src/core/Engine.cc]

    [Engine] owns the downloads and the event loop. A task is an object that
    the queues share by pointer, so that the model has a heap of task objects
    and the queues hold addresses. The loop runs posted handlers in order; a
    task that is told to stop answers later through the callback it was given,
    and files are moved by the disk pool: callbacks and jobs that are
    outstanding are part of the state. The virtual methods of the task classes
    are parameters. Times are nanoseconds. *)

From stdpp Require Import functions.
From S2P Require Import Prelude StdMap.

Module Engine.

(** ** Data *)

Inductive TaskState := Waiting | Active | Paused | Complete | Error | Removed.
#[export] Instance TaskState_eq_dec : EqDecision TaskState.
Proof. solve_decision. Defined.

Definition stateName (state : TaskState) : string :=
  match state with
  | Waiting => "waiting"
  | Active => "active"
  | Paused => "paused"
  | Complete => "complete"
  | Error => "error"
  | Removed => "removed"
  end.

Inductive Event :=
| EventStart | EventPause | EventStop | EventComplete | EventError | EventBtComplete.

Definition eventMethod (event : Event) : string :=
  match event with
  | EventStart => "aria2.onDownloadStart"
  | EventPause => "aria2.onDownloadPause"
  | EventStop => "aria2.onDownloadStop"
  | EventComplete => "aria2.onDownloadComplete"
  | EventError => "aria2.onDownloadError"
  | EventBtComplete => "aria2.onBtDownloadComplete"
  end.

Inductive Position := PositionSet | PositionCurrent | PositionEnd.

(** The codes of [ErrorCode] the engine itself sets. *)
Definition codeFinished : Z := 0.
Definition codeUnknown : Z := 1.
Definition codeRemoved : Z := 31.

Record Task := mkTask {
  gid : Z;
  state : TaskState;
  stopping : bool;
  errorCode : Z;
  errorMessage : string;
  pauseOption : bool; (* the option "pause" *)
  dir : string; (* the option "dir" *)
  counts : bool; (* [countsTowardConcurrency] *)
  following : Z;
  belongsTo : Z;
}.

Definition set_state (v : TaskState) (t : Task) : Task :=
  mkTask (gid t) v (stopping t) (errorCode t) (errorMessage t) (pauseOption t) (dir t) (counts t)
    (following t) (belongsTo t).
Definition set_stopping (v : bool) (t : Task) : Task :=
  mkTask (gid t) (state t) v (errorCode t) (errorMessage t) (pauseOption t) (dir t) (counts t)
    (following t) (belongsTo t).
Definition set_error (code : Z) (message : string) (t : Task) : Task :=
  mkTask (gid t) (state t) (stopping t) code message (pauseOption t) (dir t) (counts t)
    (following t) (belongsTo t).
Definition set_pauseOption (v : bool) (t : Task) : Task :=
  mkTask (gid t) (state t) (stopping t) (errorCode t) (errorMessage t) v (dir t) (counts t)
    (following t) (belongsTo t).
Definition set_dir (v : string) (t : Task) : Task :=
  mkTask (gid t) (state t) (stopping t) (errorCode t) (errorMessage t) (pauseOption t) v (counts t)
    (following t) (belongsTo t).
Definition set_counts (v : bool) (t : Task) : Task :=
  mkTask (gid t) (state t) (stopping t) (errorCode t) (errorMessage t) (pauseOption t) (dir t) v
    (following t) (belongsTo t).
Definition set_origin (following_ belongsTo_ : Z) (t : Task) : Task :=
  mkTask (gid t) (state t) (stopping t) (errorCode t) (errorMessage t) (pauseOption t) (dir t)
    (counts t) following_ belongsTo_.

Record Move := mkMove {
  moveDir : string;
  resume : bool; (* unpause once the files are in place *)
  moveStarted : bool;
}.

(** The handlers the engine and its tasks post to the loop. *)
Inductive handler :=
| RunFill
| RunRetire (t : Z) (final : TaskState)
| RunFinishShutdown
| RunHandOver (current next : Z) (task : Task).

(** The global options the engine reads, and whether the ED2K network runs. *)
Record Config := mkConfig {
  maxConcurrent : Z; (* max-concurrent-downloads *)
  maxResult : Z; (* max-download-result *)
  keepUnfinished : bool; (* keep-unfinished-download-result *)
  enableRpc : bool;
  saveSessionPath : string; (* save-session *)
  saveSessionInterval : Z;
  stateSaveInterval : Z;
  stopAfter : Z; (* stop *)
  stopWithProcess : Z;
  ed2kRuns : bool;
}.

Record engine := mkEngine {
  heap : Z -> Task; (* the task objects *)
  tasks : stdmap Z Z; (* by GID *)
  active : list Z;
  waiting : list Z;
  moving : stdmap Z Move;
  stopped : list Z;
  stoppedTotal : Z;
  trace : list (Event * Z); (* what the listeners were told *)
  replies : list (Z * string); (* the moves answered, by GID *)
  scheduled : bool;
  shuttingDown : bool;
  forceShutdown : bool;
  finished : bool;
  exitStatus : Z;
  posted : list handler; (* handlers the loop has yet to run *)
  stops : stdmap Z TaskState; (* [done] callbacks the tasks hold *)
  earlier : list (Z * TaskState); (* those that a later stop replaced *)
  fileMoves : list (Z * list (string * string)); (* jobs of the disk pool *)
  disk : bool; (* [disk_] exists *)
  saved : list (list Z); (* session files written *)
  ioStopped : bool;
  options : Config;
  startedAt : Z;
  lastSessionSave : Z;
  lastCheckpoint : Z;
}.


Definition with_heap (v : Z -> Task) (s : engine) : engine :=
  mkEngine v (tasks s) (active s) (waiting s) (moving s) (stopped s) (stoppedTotal s) (trace s)
    (replies s) (scheduled s) (shuttingDown s) (forceShutdown s) (finished s) (exitStatus s)
    (posted s) (stops s) (earlier s) (fileMoves s) (disk s) (saved s) (ioStopped s) (options s)
    (startedAt s) (lastSessionSave s) (lastCheckpoint s).
Definition with_tasks (v : stdmap Z Z) (s : engine) : engine :=
  mkEngine (heap s) v (active s) (waiting s) (moving s) (stopped s) (stoppedTotal s) (trace s)
    (replies s) (scheduled s) (shuttingDown s) (forceShutdown s) (finished s) (exitStatus s)
    (posted s) (stops s) (earlier s) (fileMoves s) (disk s) (saved s) (ioStopped s) (options s)
    (startedAt s) (lastSessionSave s) (lastCheckpoint s).
Definition with_active (v : list Z) (s : engine) : engine :=
  mkEngine (heap s) (tasks s) v (waiting s) (moving s) (stopped s) (stoppedTotal s) (trace s)
    (replies s) (scheduled s) (shuttingDown s) (forceShutdown s) (finished s) (exitStatus s)
    (posted s) (stops s) (earlier s) (fileMoves s) (disk s) (saved s) (ioStopped s) (options s)
    (startedAt s) (lastSessionSave s) (lastCheckpoint s).
Definition with_waiting (v : list Z) (s : engine) : engine :=
  mkEngine (heap s) (tasks s) (active s) v (moving s) (stopped s) (stoppedTotal s) (trace s)
    (replies s) (scheduled s) (shuttingDown s) (forceShutdown s) (finished s) (exitStatus s)
    (posted s) (stops s) (earlier s) (fileMoves s) (disk s) (saved s) (ioStopped s) (options s)
    (startedAt s) (lastSessionSave s) (lastCheckpoint s).
Definition with_moving (v : stdmap Z Move) (s : engine) : engine :=
  mkEngine (heap s) (tasks s) (active s) (waiting s) v (stopped s) (stoppedTotal s) (trace s)
    (replies s) (scheduled s) (shuttingDown s) (forceShutdown s) (finished s) (exitStatus s)
    (posted s) (stops s) (earlier s) (fileMoves s) (disk s) (saved s) (ioStopped s) (options s)
    (startedAt s) (lastSessionSave s) (lastCheckpoint s).
Definition with_stopped (v : list Z) (s : engine) : engine :=
  mkEngine (heap s) (tasks s) (active s) (waiting s) (moving s) v (stoppedTotal s) (trace s)
    (replies s) (scheduled s) (shuttingDown s) (forceShutdown s) (finished s) (exitStatus s)
    (posted s) (stops s) (earlier s) (fileMoves s) (disk s) (saved s) (ioStopped s) (options s)
    (startedAt s) (lastSessionSave s) (lastCheckpoint s).
Definition with_stoppedTotal (v : Z) (s : engine) : engine :=
  mkEngine (heap s) (tasks s) (active s) (waiting s) (moving s) (stopped s) v (trace s)
    (replies s) (scheduled s) (shuttingDown s) (forceShutdown s) (finished s) (exitStatus s)
    (posted s) (stops s) (earlier s) (fileMoves s) (disk s) (saved s) (ioStopped s) (options s)
    (startedAt s) (lastSessionSave s) (lastCheckpoint s).
Definition with_trace (v : list (Event * Z)) (s : engine) : engine :=
  mkEngine (heap s) (tasks s) (active s) (waiting s) (moving s) (stopped s) (stoppedTotal s) v
    (replies s) (scheduled s) (shuttingDown s) (forceShutdown s) (finished s) (exitStatus s)
    (posted s) (stops s) (earlier s) (fileMoves s) (disk s) (saved s) (ioStopped s) (options s)
    (startedAt s) (lastSessionSave s) (lastCheckpoint s).
Definition with_replies (v : list (Z * string)) (s : engine) : engine :=
  mkEngine (heap s) (tasks s) (active s) (waiting s) (moving s) (stopped s) (stoppedTotal s)
    (trace s) v (scheduled s) (shuttingDown s) (forceShutdown s) (finished s) (exitStatus s)
    (posted s) (stops s) (earlier s) (fileMoves s) (disk s) (saved s) (ioStopped s) (options s)
    (startedAt s) (lastSessionSave s) (lastCheckpoint s).
Definition with_scheduled (v : bool) (s : engine) : engine :=
  mkEngine (heap s) (tasks s) (active s) (waiting s) (moving s) (stopped s) (stoppedTotal s)
    (trace s) (replies s) v (shuttingDown s) (forceShutdown s) (finished s) (exitStatus s)
    (posted s) (stops s) (earlier s) (fileMoves s) (disk s) (saved s) (ioStopped s) (options s)
    (startedAt s) (lastSessionSave s) (lastCheckpoint s).
Definition with_shuttingDown (v : bool) (s : engine) : engine :=
  mkEngine (heap s) (tasks s) (active s) (waiting s) (moving s) (stopped s) (stoppedTotal s)
    (trace s) (replies s) (scheduled s) v (forceShutdown s) (finished s) (exitStatus s)
    (posted s) (stops s) (earlier s) (fileMoves s) (disk s) (saved s) (ioStopped s) (options s)
    (startedAt s) (lastSessionSave s) (lastCheckpoint s).
Definition with_forceShutdown (v : bool) (s : engine) : engine :=
  mkEngine (heap s) (tasks s) (active s) (waiting s) (moving s) (stopped s) (stoppedTotal s)
    (trace s) (replies s) (scheduled s) (shuttingDown s) v (finished s) (exitStatus s)
    (posted s) (stops s) (earlier s) (fileMoves s) (disk s) (saved s) (ioStopped s) (options s)
    (startedAt s) (lastSessionSave s) (lastCheckpoint s).
Definition with_finished (v : bool) (s : engine) : engine :=
  mkEngine (heap s) (tasks s) (active s) (waiting s) (moving s) (stopped s) (stoppedTotal s)
    (trace s) (replies s) (scheduled s) (shuttingDown s) (forceShutdown s) v (exitStatus s)
    (posted s) (stops s) (earlier s) (fileMoves s) (disk s) (saved s) (ioStopped s) (options s)
    (startedAt s) (lastSessionSave s) (lastCheckpoint s).
Definition with_exitStatus (v : Z) (s : engine) : engine :=
  mkEngine (heap s) (tasks s) (active s) (waiting s) (moving s) (stopped s) (stoppedTotal s)
    (trace s) (replies s) (scheduled s) (shuttingDown s) (forceShutdown s) (finished s) v
    (posted s) (stops s) (earlier s) (fileMoves s) (disk s) (saved s) (ioStopped s) (options s)
    (startedAt s) (lastSessionSave s) (lastCheckpoint s).
Definition with_posted (v : list handler) (s : engine) : engine :=
  mkEngine (heap s) (tasks s) (active s) (waiting s) (moving s) (stopped s) (stoppedTotal s)
    (trace s) (replies s) (scheduled s) (shuttingDown s) (forceShutdown s) (finished s)
    (exitStatus s) v (stops s) (earlier s) (fileMoves s) (disk s) (saved s) (ioStopped s)
    (options s) (startedAt s) (lastSessionSave s) (lastCheckpoint s).
Definition with_stops (v : stdmap Z TaskState) (s : engine) : engine :=
  mkEngine (heap s) (tasks s) (active s) (waiting s) (moving s) (stopped s) (stoppedTotal s)
    (trace s) (replies s) (scheduled s) (shuttingDown s) (forceShutdown s) (finished s)
    (exitStatus s) (posted s) v (earlier s) (fileMoves s) (disk s) (saved s) (ioStopped s)
    (options s) (startedAt s) (lastSessionSave s) (lastCheckpoint s).
Definition with_earlier (v : list (Z * TaskState)) (s : engine) : engine :=
  mkEngine (heap s) (tasks s) (active s) (waiting s) (moving s) (stopped s) (stoppedTotal s)
    (trace s) (replies s) (scheduled s) (shuttingDown s) (forceShutdown s) (finished s)
    (exitStatus s) (posted s) (stops s) v (fileMoves s) (disk s) (saved s) (ioStopped s)
    (options s) (startedAt s) (lastSessionSave s) (lastCheckpoint s).
Definition with_fileMoves (v : list (Z * list (string * string))) (s : engine) : engine :=
  mkEngine (heap s) (tasks s) (active s) (waiting s) (moving s) (stopped s) (stoppedTotal s)
    (trace s) (replies s) (scheduled s) (shuttingDown s) (forceShutdown s) (finished s)
    (exitStatus s) (posted s) (stops s) (earlier s) v (disk s) (saved s) (ioStopped s)
    (options s) (startedAt s) (lastSessionSave s) (lastCheckpoint s).
Definition with_disk (v : bool) (s : engine) : engine :=
  mkEngine (heap s) (tasks s) (active s) (waiting s) (moving s) (stopped s) (stoppedTotal s)
    (trace s) (replies s) (scheduled s) (shuttingDown s) (forceShutdown s) (finished s)
    (exitStatus s) (posted s) (stops s) (earlier s) (fileMoves s) v (saved s) (ioStopped s)
    (options s) (startedAt s) (lastSessionSave s) (lastCheckpoint s).
Definition with_saved (v : list (list Z)) (s : engine) : engine :=
  mkEngine (heap s) (tasks s) (active s) (waiting s) (moving s) (stopped s) (stoppedTotal s)
    (trace s) (replies s) (scheduled s) (shuttingDown s) (forceShutdown s) (finished s)
    (exitStatus s) (posted s) (stops s) (earlier s) (fileMoves s) (disk s) v (ioStopped s)
    (options s) (startedAt s) (lastSessionSave s) (lastCheckpoint s).
Definition with_ioStopped (v : bool) (s : engine) : engine :=
  mkEngine (heap s) (tasks s) (active s) (waiting s) (moving s) (stopped s) (stoppedTotal s)
    (trace s) (replies s) (scheduled s) (shuttingDown s) (forceShutdown s) (finished s)
    (exitStatus s) (posted s) (stops s) (earlier s) (fileMoves s) (disk s) (saved s) v
    (options s) (startedAt s) (lastSessionSave s) (lastCheckpoint s).
Definition with_options (v : Config) (s : engine) : engine :=
  mkEngine (heap s) (tasks s) (active s) (waiting s) (moving s) (stopped s) (stoppedTotal s)
    (trace s) (replies s) (scheduled s) (shuttingDown s) (forceShutdown s) (finished s)
    (exitStatus s) (posted s) (stops s) (earlier s) (fileMoves s) (disk s) (saved s)
    (ioStopped s) v (startedAt s) (lastSessionSave s) (lastCheckpoint s).
Definition with_startedAt (v : Z) (s : engine) : engine :=
  mkEngine (heap s) (tasks s) (active s) (waiting s) (moving s) (stopped s) (stoppedTotal s)
    (trace s) (replies s) (scheduled s) (shuttingDown s) (forceShutdown s) (finished s)
    (exitStatus s) (posted s) (stops s) (earlier s) (fileMoves s) (disk s) (saved s)
    (ioStopped s) (options s) v (lastSessionSave s) (lastCheckpoint s).
Definition with_lastSessionSave (v : Z) (s : engine) : engine :=
  mkEngine (heap s) (tasks s) (active s) (waiting s) (moving s) (stopped s) (stoppedTotal s)
    (trace s) (replies s) (scheduled s) (shuttingDown s) (forceShutdown s) (finished s)
    (exitStatus s) (posted s) (stops s) (earlier s) (fileMoves s) (disk s) (saved s)
    (ioStopped s) (options s) (startedAt s) v (lastCheckpoint s).
Definition with_lastCheckpoint (v : Z) (s : engine) : engine :=
  mkEngine (heap s) (tasks s) (active s) (waiting s) (moving s) (stopped s) (stoppedTotal s)
    (trace s) (replies s) (scheduled s) (shuttingDown s) (forceShutdown s) (finished s)
    (exitStatus s) (posted s) (stops s) (earlier s) (fileMoves s) (disk s) (saved s)
    (ioStopped s) (options s) (startedAt s) (lastSessionSave s) v.

(** An engine without downloads. *)
Definition noTask : Task := mkTask 0 Waiting false codeFinished "" false "" true 0 0.
Definition create (c : Config) (now : Z) : engine :=
  mkEngine (fun _ => noTask) [] [] [] [] [] 0 [] [] false false false false codeFinished [] [] [] []
    false [] false c now now now.

(** ** Actions: state with an exception *)

(** A thrown [Error], [std::map::at] out of range, or the use of a null
    [disk_], which is undefined behaviour. *)
Inductive exn :=
| Thrown (code : Z) (message : string)
| OutOfRange
| NullDisk.

Definition action := engine -> engine * option exn.
Definition run (f : engine -> engine) : action := fun s => (f s, None).
Definition throw (e : exn) : action := fun s => (s, Some e).
Definition andThen (a b : action) : action :=
  fun s => match a s with (s', None) => b s' | r => r end.
Definition read {A} (f : engine -> A) (k : A -> action) : action := fun s => k (f s) s.
Definition skip : action := run (fun s => s).
Definition when (b : bool) (a : action) : action := if b then a else skip.
(** The loop [for (x : list)]. *)
Definition forEach {A} (l : list A) (body : A -> action) : action :=
  foldr (fun x rest => andThen (body x) rest) skip l.

Declare Scope action_scope.
Delimit Scope action_scope with action.
Notation "a ;; b" := (andThen a b) : action_scope.
Notation "'get' x := f 'in' k" := (read f (fun x => k))
  (at level 100, x name, k at level 200, right associativity) : action_scope.
Open Scope action_scope.

Definition update (t : Z) (f : Task -> Task) (s : engine) : engine :=
  with_heap (alter f t (heap s)) s.
Definition stateOf (t : Z) (s : engine) : TaskState := state (heap s t).
Definition gidOf (t : Z) (s : engine) : Z := gid (heap s t).
Definition is_state (v : TaskState) (t : Z) (s : engine) : bool := bool_decide (stateOf t s = v).

(** [l.erase(std::remove(l.begin(), l.end(), t), l.end())]. *)
Definition removeAll (t : Z) (l : list Z) : list Z := filter (fun x => x <> t) l.
(** [l.erase(found)] for the first occurrence. *)
Fixpoint removeFirst (t : Z) (l : list Z) : list Z :=
  match l with [] => [] | x :: l' => if x =? t then l' else x :: removeFirst t l' end.
Definition insertAt (n : nat) (t : Z) (l : list Z) : list Z := take n l ++ t :: drop n l.
(** [static_cast<size_t>]. *)
Definition to_size (v : Z) : Z := v mod 2 ^ 64.
Definition zlength {A} (l : list A) : Z := Z.of_nat (length l).

(** ** Operations *)

Definition emit (event : Event) (t : Z) (s : engine) : engine :=
  with_trace (trace s ++ [(event, t)]) s.

Definition post (h : handler) (s : engine) : engine := with_posted (posted s ++ [h]) s.

Definition schedule (s : engine) : engine :=
  if scheduled s then s else post RunFill (with_scheduled true s).

Definition find_task (g : Z) (s : engine) : option Z := find g (tasks s).

Definition activeCount (s : engine) : Z :=
  zlength (filter (fun t => counts (heap s t) = true) (active s)).

(** The loop of [retire] that keeps at most [limit] results: those it keeps
    and those it drops. *)
Fixpoint trim (keep : bool) (limit size : Z) (h : Z -> Task) (l : list Z) : list Z * list Z :=
  match l with
  | [] => ([], [])
  | t :: l' =>
      if limit <? size then
        if keep && negb (bool_decide (state (h t) = Complete)) then
          let '(kept, dropped) := trim keep limit size h l' in (t :: kept, dropped)
        else
          let '(kept, dropped) := trim keep limit (size - 1) h l' in (kept, t :: dropped)
      else (l, [])
  end.

Definition eraseTasks (l : list Z) (s : engine) : engine :=
  with_tasks (foldl (fun m t => erase (gidOf t s) m) (tasks s) l) s.

Definition trimResults (s : engine) : engine :=
  let '(kept, dropped) :=
    trim (keepUnfinished (options s)) (to_size (maxResult (options s))) (zlength (stopped s))
      (heap s) (stopped s) in
  with_stopped kept (eraseTasks dropped s).

Definition finalEvent (final : TaskState) : Event :=
  match final with Complete => EventComplete | Error => EventError | _ => EventStop end.

Definition retire (t : Z) (final : TaskState) (s : engine) : engine :=
  let s := update t (set_state final) s in
  let s := with_active (removeAll t (active s)) s in
  let s := with_stopped (stopped s ++ [t]) s in
  let s := with_stoppedTotal (stoppedTotal s + 1) s in
  let s := emit (finalEvent final) t s in
  schedule (trimResults s).

(** The tasks in the order [saveSession] writes them. *)
Definition saveSession (s : engine) : engine :=
  if bool_decide (saveSessionPath (options s) = "") then s
  else with_saved (saved s ++ [active s ++ waiting s ++ stopped s]) s.

Definition stopLoop (s : engine) : engine := with_ioStopped true s.

Definition finishShutdown (s : engine) : engine :=
  if finished s then s
  else
    let s := saveSession (with_finished true s) in
    if ed2kRuns (options s) then s (* [close] calls [stopLoop] later *)
    else stopLoop s.

Section virtual.
(** What the task classes do: the error [start] throws or reports, whether
    [stop] calls [done] before it returns, the files [relocation] lists, and
    the downloads the follower adds for a finished one. *)
Variable start : Z -> engine -> option (Z * string).
Variable stopsNow : Z -> bool -> engine -> bool.
Variable relocation : Z -> string -> engine -> option (list (string * string)).
Variable follow : Z -> engine -> list (Z * Task).

Definition moveFilesOf (t : Z) : action :=
  get found := fun s => find (gidOf t s) (moving s) in
  match found with
  | None => throw OutOfRange
  | Some m =>
      run (fun s => with_moving (put (gidOf t s) (mkMove (moveDir m) (resume m) true) (moving s)) s) ;;
      get moves := relocation t (moveDir m) in
      get ready := disk in
      if ready then run (fun s => with_fileMoves (fileMoves s ++ [(t, default [] moves)]) s)
      else throw NullDisk
  end.

(** The callback [stopTask] gives to the task; its second half looks after a
    move that waits and a shutdown that is complete. *)
Definition afterStop (t : Z) : action :=
  get found := fun s => find (gidOf t s) (moving s) in
  get paused := is_state Paused t in
  get down := shuttingDown in
  match found with
  | Some m =>
      when (negb (moveStarted m))
        (if paused && negb down then moveFilesOf t
         else
           run (fun s => with_moving (erase (gidOf t s) (moving s)) s) ;;
           run (fun s => with_replies
                  (replies s ++ [(gidOf t s, "The download stopped before it could be moved")]) s))
  | None => skip
  end ;;
  get last := fun s => shuttingDown s && bool_decide (active s = []) in
  when last (run finishShutdown) ;;
  run schedule.

Definition stopDone (t : Z) (next : TaskState) : action :=
  run (update t (set_stopping false)) ;;
  run (fun s => with_active (removeAll t (active s)) s) ;;
  match next with
  | Paused | Waiting =>
      run (update t (set_state next)) ;;
      run (fun s => with_waiting (t :: waiting s) s) ;;
      when (bool_decide (next = Paused)) (run (emit EventPause t))
  | _ =>
      run (update t (set_error codeRemoved "Removed")) ;;
      run (retire t Removed)
  end ;;
  afterStop t.

(** A task holds the callback of the last [stop]. The one before is replaced,
    but the task may have passed it on already, as [HttpTask::quiesce] does to
    the close of the file, and then it still runs. *)
Definition replaceStop (t : Z) (s : engine) : engine :=
  match find t (stops s) with
  | Some next => with_stops (erase t (stops s)) (with_earlier (earlier s ++ [(t, next)]) s)
  | None => s
  end.
Definition stopTask (t : Z) (force : bool) (next : TaskState) : action :=
  run (update t (set_stopping true)) ;;
  run (replaceStop t) ;;
  get now := stopsNow t force in
  if now then stopDone t next
  else run (fun s => with_stops (put t next (stops s)) s).

Definition add (t : Z) (position : option nat) (s : engine) : engine :=
  let s := with_tasks (put (gidOf t s) t (tasks s)) s in
  let s := update t (set_state (if pauseOption (heap s t) then Paused else Waiting)) s in
  let s := update t (set_pauseOption false) s in
  let at_ := Nat.min (default (length (waiting s)) position) (length (waiting s)) in
  schedule (with_waiting (insertAt at_ t (waiting s)) s).

Definition set_resume (v : bool) (m : Move) : Move := mkMove (moveDir m) v (moveStarted m).

Definition pause (t : Z) (force : bool) : action :=
  get found := fun s => find (gidOf t s) (moving s) in
  match found with
  | Some m => run (fun s => with_moving (put (gidOf t s) (set_resume false m) (moving s)) s)
  | None => skip
  end ;;
  get task := fun s => heap s t in
  match state task with
  | Waiting => run (update t (set_state Paused)) ;; run (emit EventPause t)
  | Active => when (negb (stopping task)) (stopTask t force Paused)
  | _ => skip
  end.

Definition unpause (t : Z) (s : engine) : engine :=
  match find (gidOf t s) (moving s) with
  | Some m => with_moving (put (gidOf t s) (set_resume true m) (moving s)) s
  | None => if is_state Paused t s then schedule (update t (set_state Waiting) s) else s
  end.

Definition remove (t : Z) (force : bool) : action :=
  get found := fun s => find (gidOf t s) (moving s) in
  match found with
  | Some _ => throw (Thrown codeUnknown "Wait until the download has been moved")
  | None => skip
  end ;;
  get task := fun s => heap s t in
  match state task with
  | Waiting | Paused =>
      run (fun s => with_waiting (removeAll t (waiting s)) s) ;;
      run (update t (set_error codeRemoved "Removed")) ;;
      run (retire t Removed)
  | Active => when (negb (stopping task) || force) (stopTask t force Removed)
  | _ => skip
  end.

Definition pauseWaiting (t : Z) (s : engine) : engine :=
  if is_state Waiting t s then emit EventPause t (update t (set_state Paused) s) else s.

Definition pauseAll (force : bool) : action :=
  run (fun s => with_moving (map_values (fun _ => set_resume false) (moving s)) s) ;;
  get running := active in
  forEach running (fun t => pause t force) ;;
  get queued := waiting in
  forEach queued (fun t => run (pauseWaiting t)).

Definition unpauseWaiting (t : Z) (s : engine) : engine :=
  if is_state Paused t s && negb (bool_decide (is_Some (find (gidOf t s) (moving s))))
  then update t (set_state Waiting) s else s.

Definition unpauseAll (s : engine) : engine :=
  let s := with_moving (map_values (fun _ => set_resume true) (moving s)) s in
  schedule (foldl (fun s t => unpauseWaiting t s) s (waiting s)).

Definition relocate (t : Z) (dir_ : string) : action :=
  get found := fun s => find (gidOf t s) (moving s) in
  get moves := relocation t dir_ in
  match found, moves with
  | Some _, _ => throw (Thrown codeUnknown "This download is already being moved")
  | None, None => throw (Thrown codeUnknown "This download cannot be moved")
  | None, Some _ =>
      let enter resume_ :=
        run (fun s => with_moving (put (gidOf t s) (mkMove dir_ resume_ false) (moving s)) s) in
      get task := fun s => heap s t in
      match state task with
      | Waiting => enter true ;; run (update t (set_state Paused)) ;; moveFilesOf t
      | Paused => enter false ;; moveFilesOf t
      | Active => enter true ;; when (negb (stopping task)) (stopTask t true Paused)
      | _ => throw (Thrown codeUnknown "Only unfinished downloads can be moved")
      end
  end.

(** The disk pool reports the end of [moveFiles]. *)
Definition filesMoved (t : Z) (error : string) : action :=
  get found := fun s => find (gidOf t s) (moving s) in
  match found with
  | None => throw OutOfRange
  | Some m =>
      run (fun s => with_moving (erase (gidOf t s) (moving s)) s) ;;
      when (bool_decide (error = "")) (run (update t (set_dir (moveDir m)))) ;;
      when (resume m) (run (unpause t)) ;;
      run (fun s => with_replies (replies s ++ [(gidOf t s, error)]) s)
  end.

(** [std::find]. *)
Fixpoint indexOf (t : Z) (l : list Z) : option nat :=
  match l with [] => None | x :: l' => if x =? t then Some O else S <$> indexOf t l' end.

(** The new position, or the message of the error. *)
Definition move (t offset : Z) (how : Position) (s : engine) : (Z + string) * engine :=
  match indexOf t (waiting s) with
  | None => (inr "is not in the waiting queue", s)
  | Some current =>
      let rest := delete current (waiting s) in
      let size := zlength rest in
      let target :=
        match how with
        | PositionSet => offset
        | PositionCurrent => Z.of_nat current + offset
        | PositionEnd => size + offset
        end in
      let target := clamp target 0 size in
      (inl target, with_waiting (insertAt (Z.to_nat target) t rest) s)
  end.

Definition removeResult (g : Z) (s : engine) : bool * engine :=
  match list_find (fun t => gidOf t s = g) (stopped s) with
  | None => (false, s)
  | Some (i, _) =>
      (true, with_stopped (delete i (stopped s)) (with_tasks (erase g (tasks s)) s))
  end.

Definition requeue (t : Z) : action :=
  get found := fun s => indexOf t (stopped s) in
  match found with
  | None => throw (Thrown codeUnknown "is not a stopped task")
  | Some i =>
      run (fun s => with_stopped (delete i (stopped s)) s) ;;
      run (update t (set_state Waiting)) ;;
      run (update t (set_error codeFinished "")) ;;
      run (fun s => with_waiting (waiting s ++ [t]) s) ;;
      run schedule
  end.

Definition purgeResults (s : engine) : engine := with_stopped [] (eraseTasks (stopped s) s).

(** [Task::failed] and [taskFailed]. *)
Definition taskFailed (t code : Z) (message : string) (s : engine) : engine :=
  let s := update t (set_error code message) s in
  post (RunRetire t Error) (with_exitStatus code s).

(** [Task::complete] and [taskCompleted]. *)
Definition taskCompleted (t : Z) (s : engine) : engine :=
  let s := update t (set_error codeFinished "") s in
  let s := foldl (fun s '(t', task) => add t' None (with_heap (<[t' := task]> (heap s)) s)) s
             (follow t s) in
  post (RunRetire t Complete) s.

Definition startOrFail (t : Z) (s : engine) : engine :=
  match start t s with
  | Some (code, message) => taskFailed t code message s
  | None => s
  end.

Definition startTask (t : Z) (s : engine) : engine :=
  let s := update t (set_state Active) s in
  let s := with_active (active s ++ [t]) s in
  startOrFail t (emit EventStart t s).

Definition handOver (current next : Z) (s : engine) : engine :=
  match indexOf current (active s) with
  | None => s
  | Some i =>
      if gidOf next s =? gidOf current s then
        let s := with_active (<[i := next]> (active s)) s in
        let s := with_tasks (put (gidOf next s) next (tasks s)) s in
        let s := update next (set_state Active) s in
        let from := heap s current in
        let s := update next (set_origin (following from) (belongsTo from)) s in
        startOrFail next (update current (set_state Removed) s)
      else s
  end.

Definition shutdown (force : bool) : action :=
  get down := shuttingDown in
  get forced := forceShutdown in
  if down && negb (force && negb forced) then skip
  else
    run (with_shuttingDown true) ;;
    run (with_forceShutdown (forced || force)) ;;
    get running := active in
    match running with
    | [] => run (post RunFinishShutdown)
    | _ =>
        forEach running (fun t =>
          get task := fun s => heap s t in
          when (negb (stopping task) || force) (stopTask t force Waiting))
    end.

(** The loop of [fill] at index [i] of [waiting_]; every round drops an entry
    or moves on. *)
Fixpoint fillLoop (fuel i : nat) (limit : Z) (s : engine) : engine :=
  match fuel, waiting s !! i with
  | S fuel, Some t =>
      if activeCount s <? limit then
        if is_state Waiting t s
        then fillLoop fuel i limit (startTask t (with_waiting (delete i (waiting s)) s))
        else fillLoop fuel (S i) limit s
      else s
  | _, _ => s
  end.

Definition queued (s : engine) : bool := existsb (fun t => is_state Waiting t s) (waiting s).

Definition fill : action :=
  get down := shuttingDown in
  when (negb down)
    (run (fun s =>
       fillLoop (length (waiting s)) 0 (to_size (maxConcurrent (options s))) s) ;;
     get idle := fun s =>
       bool_decide (active s = []) && negb (queued s) && negb (enableRpc (options s)) in
     when idle (shutdown false)).

(** The loop takes the next posted handler. *)
Definition runNext : action :=
  get handlers := posted in
  match handlers with
  | [] => skip
  | h :: rest =>
      run (with_posted rest) ;;
      match h with
      | RunFill => run (with_scheduled false) ;; fill
      | RunRetire t final => run (retire t final)
      | RunFinishShutdown => run finishShutdown
      | RunHandOver current next task =>
          run (fun s => handOver current next (with_heap (<[next := task]> (heap s)) s))
      end
  end.

Definition second : Z := 10 ^ 9.

(** The second-by-second work; [alive] tells whether [stop-with-process] runs. *)
Definition tick (now : Z) (alive : bool) : action :=
  run (fun s =>
    if stateSaveInterval (options s) * second <=? now - lastCheckpoint s
    then with_lastCheckpoint now s else s) ;;
  run (fun s =>
    if (0 <? saveSessionInterval (options s)) &&
       (saveSessionInterval (options s) * second <=? now - lastSessionSave s)
    then saveSession (with_lastSessionSave now s) else s) ;;
  get stop := fun s =>
    (0 <? stopAfter (options s)) && (stopAfter (options s) * second <=? now - startedAt s) in
  when stop (shutdown false) ;;
  get orphaned := fun s => (0 <? stopWithProcess (options s)) && negb alive in
  when orphaned (shutdown false).

Record GlobalStat := mkStat {
  downloadSpeed : Z;
  uploadSpeed : Z;
  numActive : Z;
  numWaiting : Z;
  numStopped : Z;
  numStoppedTotal : Z;
}.

Definition stat (speeds : Z -> Z * Z) (s : engine) : GlobalStat :=
  mkStat (zsum ((fun t => (speeds t).1) <$> active s)) (zsum ((fun t => (speeds t).2) <$> active s))
    (zlength (active s)) (zlength (waiting s)) (zlength (stopped s)) (stoppedTotal s).

(** Whether an unfinished task other than [except] writes the file. *)
Definition writing (files : Z -> list string) (samePath : string -> string -> bool)
    (path : string) (except : Z) (s : engine) : bool :=
  existsb (fun '(g, t) =>
    negb ((g =? except) || is_state Complete t s || is_state Error t s || is_state Removed t s) &&
    existsb (fun file => negb (bool_decide (file = "")) && samePath file path) (files t))
    (tasks s).
End virtual.

(** ** The calls on an engine *)

Section calls.
Variable start : Z -> engine -> option (Z * string).
Variable stopsNow : Z -> bool -> engine -> bool.
Variable relocation : Z -> string -> engine -> option (list (string * string)).
Variable follow : Z -> engine -> list (Z * Task).

(** What users, tasks, the disk pool and the loop do to the engine. *)
Inductive call :=
| Add (t : Z) (task : Task) (position : option nat)
| Pause (t : Z) (force : bool)
| Unpause (t : Z)
| Remove (t : Z) (force : bool)
| PauseAll (force : bool)
| UnpauseAll
| Relocate (t : Z) (dir_ : string)
| FilesMoved (t : Z) (error : string)
| MoveTo (t offset : Z) (how : Position)
| RemoveResult (g : Z)
| Requeue (t : Z)
| PurgeResults
| Shutdown (force : bool)
| SetOptions (names : list string) (c : Config)
| Completes (t : Z)
| Fails (t code : Z) (message : string)
| HandsOver (current next : Z) (task : Task)
| Stops (t : Z) (* the task calls the [done] it holds *)
| StopsEarlier (t : Z) (* a [done] that the task passed on runs *)
| SetCounts (t : Z) (v : bool)
| UseDisk (* a task asks for [disk()] *)
| Tick (now : Z) (alive : bool)
| RunNext.

(** The job of the disk pool that moves the files of [t] ends. *)
Definition endFileMove (t : Z) (s : engine) : engine :=
  with_fileMoves (filter (fun job => job.1 <> t) (fileMoves s)) s.

Definition globalOptionsChanged (names : list string) (s : engine) : engine :=
  foldl (fun s name => if bool_decide (name = "max-concurrent-downloads") then schedule s else s)
    s names.

Definition exec (c : call) : action :=
  match c with
  | Add t task position =>
      run (fun s => add t position (with_heap (<[t := task]> (heap s)) s))
  | Pause t force => pause stopsNow relocation t force
  | Unpause t => run (unpause t)
  | Remove t force => remove stopsNow relocation t force
  | PauseAll force => pauseAll stopsNow relocation force
  | UnpauseAll => run unpauseAll
  | Relocate t dir_ => relocate stopsNow relocation t dir_
  | FilesMoved t error => run (endFileMove t) ;; filesMoved t error
  | MoveTo t offset how => run (fun s => (move t offset how s).2)
  | RemoveResult g => run (fun s => (removeResult g s).2)
  | Requeue t => requeue t
  | PurgeResults => run purgeResults
  | Shutdown force => shutdown stopsNow relocation force
  | SetOptions names c => run (fun s => globalOptionsChanged names (with_options c s))
  | Completes t => run (taskCompleted follow t)
  | Fails t code message => run (taskFailed t code message)
  | HandsOver current next task => run (post (RunHandOver current next task))
  | Stops t =>
      get found := fun s => find t (stops s) in
      match found with
      | Some next =>
          run (fun s => with_stops (erase t (stops s)) s) ;; stopDone relocation t next
      | None => skip
      end
  | StopsEarlier t =>
      get found := fun s => list_find (fun c => c.1 = t) (earlier s) in
      match found with
      | Some (i, (_, next)) =>
          run (fun s => with_earlier (delete i (earlier s)) s) ;; stopDone relocation t next
      | None => skip
      end
  | SetCounts t v => run (update t (set_counts v))
  | UseDisk => run (with_disk true)
  | Tick now alive => tick stopsNow relocation now alive
  | RunNext => runNext start stopsNow relocation
  end.
End calls.
End Engine.
