(* ===== verification/EngineInvariant.v ===== *)
(** * The invariant of the task queue

    What holds between the calls on an [Engine]: every download is in the one
    queue its state names, stops and retirements are accounted for, and moves of
    files are either waiting for transfers to stop or under way. The lemmas show
    that each operation keeps it. *)

From stdpp Require Import functions.
From S2P Require Import Prelude StdMap Engine.

Module EngineInvariant.
Import Engine.
#[local] Open Scope action_scope.

(** ** The invariant *)

Definition isFinal (v : TaskState) : Prop := v = Complete \/ v = Error \/ v = Removed.
Definition isQueued (v : TaskState) : Prop := v = Waiting \/ v = Paused.

Definition listed (t : Z) (s : engine) : Prop :=
  t ∈ active s \/ t ∈ waiting s \/ t ∈ stopped s.

(** The tasks whose end is reported and whose retirement is posted. *)
Definition retiring (s : engine) : list Z :=
  omap (fun h => match h with RunRetire t _ => Some t | _ => None end) (posted s).

(** Every task is in the one queue its state names, and [tasks_] finds it;
    the tasks of [out] are on their way from one queue to another. *)
Record queues_but (out : Z -> Prop) (s : engine) : Prop := {
  active_nodup : NoDup (active s);
  waiting_nodup : NoDup (waiting s);
  stopped_nodup : NoDup (stopped s);
  active_state t : t ∈ active s -> stateOf t s = Active;
  waiting_state t : t ∈ waiting s -> isQueued (stateOf t s);
  stopped_state t : t ∈ stopped s -> isFinal (stateOf t s);
  out_unlisted t : out t -> ~ listed t s;
  tasks_sorted : sorted (tasks s);
  tasks_find g t : find g (tasks s) = Some t <-> (listed t s \/ out t) /\ gidOf t s = g;
}.
Definition queues_ok : engine -> Prop := queues_but (fun _ => False).

Definition stopTarget (v : TaskState) : Prop := v = Paused \/ v = Waiting \/ v = Removed.

(** A task that stops is active and holds a callback; one whose end is posted
    is active and does not stop. *)
Record task_ok (s : engine) (t : Z) : Prop := {
  retiring_active : t ∈ retiring s -> t ∈ active s /\ stopping (heap s t) = false;
  stops_active next : find t (stops s) = Some next ->
    t ∈ active s /\ stopping (heap s t) = true /\ stopTarget next;
  stopping_held : t ∈ active s -> stopping (heap s t) = true -> is_Some (find t (stops s));
  idle_not_stopping : t ∈ waiting s \/ t ∈ stopped s -> stopping (heap s t) = false;
}.

Record pending_ok (s : engine) : Prop := {
  retiring_nodup : NoDup (retiring s);
  retiring_final t v : RunRetire t v ∈ posted s -> isFinal v;
  stops_sorted : sorted (stops s);
}.

(** A download that moves waits for its transfers to stop, or is paused while
    the disk pool moves its files. *)
Definition move_ok (s : engine) (g : Z) (m : Move) : Prop :=
  exists t, gidOf t s = g /\
    if moveStarted m then t ∈ waiting s /\ stateOf t s = Paused /\ t ∈ (fileMoves s).*1
    else t ∈ active s /\ stopping (heap s t) = true.

Record moving_ok (s : engine) : Prop := {
  moving_sorted : sorted (moving s);
  jobs_nodup : NoDup (fileMoves s).*1;
  jobs_move t : t ∈ (fileMoves s).*1 -> t ∈ waiting s /\
    exists m, find (gidOf t s) (moving s) = Some m /\ moveStarted m = true;
  moving_disk : moving s <> [] -> disk s = true;
}.

(** The whole invariant; the moves of [skip] are being dealt with. *)
Record engine_but (skip : Z -> Prop) (s : engine) : Prop := {
  ok_queues : queues_ok s;
  ok_pending : pending_ok s;
  ok_tasks t : task_ok s t;
  ok_moving : moving_ok s;
  ok_move g m : ~ skip g -> find g (moving s) = Some m -> move_ok s g m;
}.
Definition engine_ok : engine -> Prop := engine_but (fun _ => False).

(** ** Lemmas *)

(** Evaluates the fields of a state after a few assignments; the heap is
    compared at the address in question. *)
Ltac view :=
  unfold stateOf, gidOf, update, listed, retiring in *; simpl in *;
  unfold alter, fn_alter, insert, fn_insert in *; simpl in *.

Ltac at_address t x :=
  destruct (decide (t = x)) as [?|?];
  [try subst x; try (destruct (decide (t = t)) as [_|]; [|congruence])
  |assert (x <> t) by congruence]; simpl in *.

Section transfers.
Implicit Types (s : engine) (t x g : Z).

Lemma elem_of_removeAll x t (l : list Z) : x ∈ removeAll t l <-> x <> t /\ x ∈ l.
Proof. unfold removeAll. by rewrite list_elem_of_filter. Qed.

Lemma NoDup_removeAll t (l : list Z) : NoDup l -> NoDup (removeAll t l).
Proof. apply NoDup_filter. Qed.

Lemma queued_not_active v : isQueued v -> v <> Active.
Proof. intros [-> | ->]; done. Qed.
Lemma final_not_active v : isFinal v -> v <> Active.
Proof. intros [-> | [-> | ->]]; done. Qed.
Lemma final_not_queued v : isFinal v -> ~ isQueued v.
Proof. intros [-> | [-> | ->]] [? | ?]; done. Qed.

(** The queues exclude each other. *)
Lemma active_not_waiting out s t : queues_but out s -> t ∈ active s -> t ∉ waiting s.
Proof.
  intros Hq Ha Hw. apply (active_state out s Hq) in Ha. apply (waiting_state out s Hq) in Hw.
  rewrite Ha in Hw. by apply queued_not_active in Hw.
Qed.
Lemma active_not_stopped out s t : queues_but out s -> t ∈ active s -> t ∉ stopped s.
Proof.
  intros Hq Ha Hw. apply (active_state out s Hq) in Ha. apply (stopped_state out s Hq) in Hw.
  rewrite Ha in Hw. by apply final_not_active in Hw.
Qed.
Lemma waiting_not_stopped out s t : queues_but out s -> t ∈ waiting s -> t ∉ stopped s.
Proof.
  intros Hq Ha Hw. apply (waiting_state out s Hq) in Ha. apply (stopped_state out s Hq) in Hw.
  by apply final_not_queued in Hw.
Qed.

(** Distinct tasks have distinct GIDs. *)
Lemma listed_gid_inj s t x :
  queues_ok s -> listed t s -> listed x s -> gidOf t s = gidOf x s -> t = x.
Proof.
  intros Hq Ht Hx Hg.
  assert (find (gidOf t s) (tasks s) = Some t) as H1 by (apply (tasks_find _ s Hq); tauto).
  assert (find (gidOf t s) (tasks s) = Some x) as H2
    by (apply (tasks_find _ s Hq); split; [tauto|done]). congruence.
Qed.

(** What the queues depend on. *)
Lemma queues_frame out s s' :
  queues_but out s -> active s' = active s -> waiting s' = waiting s -> stopped s' = stopped s ->
  tasks s' = tasks s -> (forall x, stateOf x s' = stateOf x s) ->
  (forall x, gidOf x s' = gidOf x s) -> queues_but out s'.
Proof.
  intros [] Ea Ew Es Et Hs Hg. split; unfold listed in *; rewrite ?Ea, ?Ew, ?Es, ?Et; try done;
    intros; rewrite ?Hs, ?Hg; auto.
Qed.

(** A task leaves the queue it is in ... *)
Lemma leave_active t s :
  queues_ok s -> t ∈ active s -> queues_but (eq t) (with_active (removeAll t (active s)) s).
Proof.
  intros Hq Ht. pose proof (active_not_waiting _ s t Hq Ht).
  pose proof (active_not_stopped _ s t Hq Ht). destruct Hq as [Ha Hw Hs Sa Sw Ss _ Hts Hf].
  split; view; try done; try setoid_rewrite elem_of_removeAll.
  - by apply NoDup_removeAll.
  - naive_solver.
  - naive_solver.
  - intros g x. rewrite Hf. destruct (decide (t = x)) as [<-|]; naive_solver.
Qed.

Lemma leave_waiting t s w :
  queues_ok s -> waiting s ≡ₚ t :: w -> queues_but (eq t) (with_waiting w s).
Proof.
  intros Hq Hp. assert (t ∈ waiting s) as Ht by (rewrite Hp; left).
  assert (t ∉ active s) by (intros Ha; by apply (active_not_waiting _ s t Hq) in Ha).
  pose proof (waiting_not_stopped _ s t Hq Ht). destruct Hq as [Ha Hw Hs Sa Sw Ss _ Hts Hf].
  rewrite Hp in Hw. apply NoDup_cons in Hw as [Hnin Hw].
  assert (forall x, x ∈ waiting s <-> x = t \/ x ∈ w) as Hin
    by (intros x; by rewrite Hp, elem_of_cons).
  split; view; try done.
  - intros x Hx. apply Sw, Hin. by right.
  - intros x <-. naive_solver.
  - intros g x. rewrite Hf, Hin. destruct (decide (t = x)) as [<-|]; naive_solver.
Qed.

Lemma leave_stopped t s d :
  queues_ok s -> stopped s ≡ₚ t :: d -> queues_but (eq t) (with_stopped d s).
Proof.
  intros Hq Hp. assert (t ∈ stopped s) as Ht by (rewrite Hp; left).
  assert (t ∉ active s) by (intros Ha; by apply (active_not_stopped _ s t Hq) in Ha).
  assert (t ∉ waiting s) by (intros Ha; by apply (waiting_not_stopped _ s t Hq) in Ha).
  destruct Hq as [Ha Hw Hs Sa Sw Ss _ Hts Hf].
  rewrite Hp in Hs. apply NoDup_cons in Hs as [Hnin Hs].
  assert (forall x, x ∈ stopped s <-> x = t \/ x ∈ d) as Hin
    by (intros x; by rewrite Hp, elem_of_cons).
  split; view; try done.
  - intros x Hx. apply Ss, Hin. by right.
  - intros x <-. naive_solver.
  - intros g x. rewrite Hf, Hin. destruct (decide (t = x)) as [<-|]; naive_solver.
Qed.

(** ... changes on the way ... *)
Lemma change_out t f s :
  queues_but (eq t) s -> (forall d, gid (f d) = gid d) -> queues_but (eq t) (update t f s).
Proof.
  intros [Ha Hw Hs Sa Sw Ss Ho Hts Hf] Hg. specialize (Ho t eq_refl) as Hnot.
  split; view; try done.
  - intros x Hx. at_address t x; [tauto|auto].
  - intros x Hx. at_address t x; [tauto|auto].
  - intros x Hx. at_address t x; [tauto|auto].
  - intros g x. rewrite Hf. at_address t x; [by rewrite Hg|done].
Qed.

(** ... and joins another one, or is forgotten. *)
Lemma join_active t s l :
  queues_but (eq t) s -> stateOf t s = Active -> l ≡ₚ t :: active s -> queues_ok (with_active l s).
Proof.
  intros [Ha Hw Hs Sa Sw Ss Ho Hts Hf] Ht Hp. specialize (Ho t eq_refl) as Hnot.
  assert (forall x, x ∈ l <-> x = t \/ x ∈ active s) as Hin
    by (intros x; by rewrite Hp, elem_of_cons).
  split; view; try done.
  - rewrite Hp. apply NoDup_cons. tauto.
  - intros x [->|Hx]%Hin; [done|auto].
  - intros g x. rewrite Hf, Hin. destruct (decide (t = x)) as [<-|]; naive_solver.
Qed.

Lemma join_waiting t s l :
  queues_but (eq t) s -> isQueued (stateOf t s) -> l ≡ₚ t :: waiting s ->
  queues_ok (with_waiting l s).
Proof.
  intros [Ha Hw Hs Sa Sw Ss Ho Hts Hf] Ht Hp. specialize (Ho t eq_refl) as Hnot.
  assert (forall x, x ∈ l <-> x = t \/ x ∈ waiting s) as Hin
    by (intros x; by rewrite Hp, elem_of_cons).
  split; view; try done.
  - rewrite Hp. apply NoDup_cons. tauto.
  - intros x [->|Hx]%Hin; [done|auto].
  - intros g x. rewrite Hf, Hin. destruct (decide (t = x)) as [<-|]; naive_solver.
Qed.

Lemma join_stopped t s l :
  queues_but (eq t) s -> isFinal (stateOf t s) -> l ≡ₚ t :: stopped s ->
  queues_ok (with_stopped l s).
Proof.
  intros [Ha Hw Hs Sa Sw Ss Ho Hts Hf] Ht Hp. specialize (Ho t eq_refl) as Hnot.
  assert (forall x, x ∈ l <-> x = t \/ x ∈ stopped s) as Hin
    by (intros x; by rewrite Hp, elem_of_cons).
  split; view; try done.
  - rewrite Hp. apply NoDup_cons. tauto.
  - intros x [->|Hx]%Hin; [done|auto].
  - intros g x. rewrite Hf, Hin. destruct (decide (t = x)) as [<-|]; naive_solver.
Qed.

Lemma forget_out t s :
  queues_but (eq t) s -> queues_ok (with_tasks (erase (gidOf t s) (tasks s)) s).
Proof.
  intros [Ha Hw Hs Sa Sw Ss Ho Hts Hf]. specialize (Ho t eq_refl) as Hnot.
  split; view; try done; [auto with aria2|].
  intros g x. split.
  - intros [Hne Hx]%find_erase_inv; [|done]. apply Hf in Hx as [[Hl| <-] Hg]; [tauto|done].
  - intros [[Hl|[]] Hg]. rewrite find_erase_ne; [apply Hf; tauto|done|].
    intros Heq. assert (find g (tasks s) = Some t) as H1 by (apply Hf; split; [by right|congruence]).
    assert (find g (tasks s) = Some x) as H2 by (apply Hf; tauto). naive_solver.
Qed.

Lemma change_queued t f s :
  queues_ok s -> t ∈ waiting s -> (forall d, gid (f d) = gid d) -> isQueued (state (f (heap s t))) ->
  queues_ok (update t f s).
Proof.
  intros Hq Ht Hg Hst.
  assert (t ∉ active s) by (intros Ha; by apply (active_not_waiting _ s t Hq) in Ha).
  pose proof (waiting_not_stopped _ s t Hq Ht). destruct Hq as [Ha Hw Hs Sa Sw Ss _ Hts Hf].
  split; view; try done.
  - intros x Hx. at_address t x; [tauto|auto].
  - intros x Hx. at_address t x; auto.
  - intros x Hx. at_address t x; [tauto|auto].
  - intros g x. rewrite Hf. at_address t x; [by rewrite Hg|done].
Qed.

(** A change of flags that the queues do not look at. *)
Lemma change_flags out t f s :
  queues_but out s -> (forall d, gid (f d) = gid d) -> (forall d, state (f d) = state d) ->
  queues_but out (update t f s).
Proof.
  intros Hq Hg Hs. eapply queues_frame; [exact Hq|done..| |]; intros x; view; at_address t x;
    by rewrite ?Hg, ?Hs.
Qed.

Lemma queues_stopped_perm s l : queues_ok s -> l ≡ₚ stopped s -> queues_ok (with_stopped l s).
Proof.
  intros [Ha Hw Hs Sa Sw Ss Ho Hts Hf] Hp. split; view; try done.
  - by rewrite Hp.
  - intros x. rewrite Hp. auto.
  - intros g x. by rewrite Hf, Hp.
Qed.

Lemma drop_results kept dropped s :
  queues_ok s -> stopped s ≡ₚ kept ++ dropped ->
  queues_ok (with_stopped kept (eraseTasks dropped s)).
Proof.
  revert s. induction dropped as [|t d IH]; intros s Hq Hp.
  - apply (queues_stopped_perm s kept Hq). by rewrite Hp, app_nil_r.
  - rewrite <- Permutation_middle in Hp. pose proof (leave_stopped t s (kept ++ d) Hq Hp) as Hout.
    by apply (IH _ (forget_out t _ Hout)).
Qed.

Lemma trim_perm keep limit size h l :
  l ≡ₚ (trim keep limit size h l).1 ++ (trim keep limit size h l).2.
Proof.
  revert size. induction l as [|t l IH]; intros size; simpl; [done|].
  destruct (limit <? size); [|by rewrite app_nil_r]. destruct (keep && _).
  - specialize (IH size). destruct (trim keep limit size h l). simpl in *. by rewrite IH at 1.
  - specialize (IH (size - 1)). destruct (trim keep limit (size - 1) h l). simpl in *.
    by rewrite <- Permutation_middle, IH at 1.
Qed.

Lemma trimResults_queues s : queues_ok s -> queues_ok (trimResults s).
Proof.
  intros Hq. unfold trimResults.
  pose proof (trim_perm (keepUnfinished (options s)) (to_size (maxResult (options s)))
    (zlength (stopped s)) (heap s) (stopped s)) as Hp.
  destruct (trim _ _ _ _ _) as [kept dropped]. by apply drop_results.
Qed.

Lemma schedule_queues out s : queues_but out s -> queues_but out (schedule s).
Proof.
  intros Hq. unfold schedule. destruct (scheduled s); [done|]. by eapply queues_frame.
Qed.

(** The state of [retire] before results are dropped. *)
Definition retired (t : Z) (final : TaskState) (s : engine) : engine :=
  emit (finalEvent final) t
    (with_stoppedTotal (stoppedTotal s + 1)
      (with_stopped (stopped s ++ [t])
        (update t (set_state final) (with_active (removeAll t (active s)) s)))).

Lemma retire_eq t final s : retire t final s = schedule (trimResults (retired t final s)).
Proof. done. Qed.

Lemma removeAll_absent t (l : list Z) : t ∉ l -> removeAll t l = l.
Proof.
  induction l as [|x l IH]; intros Hin; [done|]. apply not_elem_of_cons in Hin as [Hne Hin].
  unfold removeAll. rewrite filter_cons_True by done. by f_equal; apply IH.
Qed.

Lemma removeAll_perm t (l : list Z) : NoDup l -> t ∈ l -> l ≡ₚ t :: removeAll t l.
Proof.
  induction l as [|x l IH]; intros Hnd Hin; [by apply elem_of_nil in Hin|].
  apply NoDup_cons in Hnd as [Hx Hnd]. unfold removeAll. rewrite filter_cons.
  case_decide as Hxt.
  - apply elem_of_cons in Hin as [->|Hin]; [done|]. rewrite (IH Hnd Hin) at 1.
    apply Permutation_swap.
  - assert (x = t) as -> by (destruct (decide (x = t)); tauto).
    change (filter _ l) with (removeAll t l). by rewrite removeAll_absent.
Qed.

Lemma retired_queues t final s :
  (queues_ok s /\ t ∈ active s) \/ queues_but (eq t) s -> isFinal final ->
  queues_ok (retired t final s).
Proof.
  intros Hpre Hfin.
  assert (queues_but (eq t) (with_active (removeAll t (active s)) s)) as Hout.
  { destruct Hpre as [[Hq Ht]|Hq]; [by apply leave_active|].
    rewrite removeAll_absent; [by eapply queues_frame|].
    intros Ha. apply (out_unlisted _ _ Hq t eq_refl). by left. }
  apply (change_out t (set_state final)) in Hout; [|done].
  apply (join_stopped t _ (stopped s ++ [t])) in Hout.
  - by eapply queues_frame.
  - view. at_address t t; done.
  - simpl. by rewrite Permutation_app_comm.
Qed.

Lemma retire_queues t final s :
  (queues_ok s /\ t ∈ active s) \/ queues_but (eq t) s -> isFinal final ->
  queues_ok (retire t final s).
Proof. intros. rewrite retire_eq. by apply schedule_queues, trimResults_queues, retired_queues. Qed.

(** ** What the rest of the invariant depends on *)

Lemma task_frame s s' x :
  task_ok s x -> (x ∈ retiring s' -> x ∈ retiring s) -> (x ∈ active s' <-> x ∈ active s) ->
  (x ∈ waiting s' \/ x ∈ stopped s' -> x ∈ waiting s \/ x ∈ stopped s) ->
  stopping (heap s' x) = stopping (heap s x) -> find x (stops s') = find x (stops s) ->
  task_ok s' x.
Proof.
  intros [H1 H2 H3 H4] Hr Ha Hi Hs Hf. split.
  - rewrite Ha, Hs. auto.
  - intros next. rewrite Hf, Hs, Ha. auto.
  - rewrite Hf, Hs, Ha. auto.
  - rewrite Hs. auto.
Qed.

(** A task that holds no callback and whose end is not posted. *)
Lemma task_idle s x :
  x ∉ retiring s -> find x (stops s) = None -> stopping (heap s x) = false -> task_ok s x.
Proof. intros Hr Hf Hs. split; try done; congruence. Qed.

Lemma pending_frame s s' :
  pending_ok s -> retiring s' = retiring s -> stops s' = stops s ->
  (forall t v, RunRetire t v ∈ posted s' -> RunRetire t v ∈ posted s) -> pending_ok s'.
Proof. intros [] Hr Hs Hp. split; rewrite ?Hr, ?Hs; eauto. Qed.

Lemma moving_frame s s' :
  moving_ok s -> moving s' = moving s -> fileMoves s' = fileMoves s -> disk s' = disk s ->
  (forall x, x ∈ (fileMoves s).*1 -> x ∈ waiting s -> x ∈ waiting s') ->
  (forall x, gidOf x s' = gidOf x s) -> moving_ok s'.
Proof.
  intros [H1 H2 H3 H4] Hm Hf Hd Hw Hg. split; rewrite ?Hm, ?Hf, ?Hd; try done.
  intros x Hx. destruct (H3 x Hx) as [? ?]. rewrite Hg. auto.
Qed.

Lemma move_frame s s' g m :
  move_ok s g m -> fileMoves s' = fileMoves s -> (forall x, gidOf x s' = gidOf x s) ->
  (forall x, x ∈ waiting s -> stateOf x s = Paused -> x ∈ (fileMoves s).*1 ->
     x ∈ waiting s' /\ stateOf x s' = Paused) ->
  (forall x, x ∈ active s -> stopping (heap s x) = true ->
     x ∈ active s' /\ stopping (heap s' x) = true) -> move_ok s' g m.
Proof.
  intros (x & Hg & Hx) Hf Hgid Hw Ha. exists x. rewrite Hgid, Hf. split; [done|].
  destruct (moveStarted m); naive_solver.
Qed.

Lemma retiring_post h (s : engine) p :
  retiring (with_posted (p ++ [h]) s) =
  retiring (with_posted p s) ++ (match h with RunRetire t _ => [t] | _ => [] end).
Proof. unfold retiring. simpl. rewrite omap_app. simpl. by destruct h. Qed.

Lemma schedule_shape s :
  exists b p, schedule s = with_posted p (with_scheduled b s) /\
    (forall s', retiring (with_posted p s') = retiring s) /\
    (forall t v, RunRetire t v ∈ p -> RunRetire t v ∈ posted s).
Proof.
  unfold schedule. destruct (scheduled s) eqn:Hs.
  - exists true, (posted s). split_and!; [|done..]. destruct s. simpl in *. by subst.
  - exists true, (posted s ++ [RunFill]). split_and!; [done| |].
    + intros s'. rewrite retiring_post. by rewrite app_nil_r.
    + intros t v Hin. apply elem_of_app in Hin as [?|Hin]; [done|].
      by apply list_elem_of_singleton in Hin.
Qed.

Lemma trimResults_shape s :
  exists d m, trimResults s = with_stopped d (with_tasks m s) /\ (forall x, x ∈ d -> x ∈ stopped s).
Proof.
  unfold trimResults.
  pose proof (trim_perm (keepUnfinished (options s)) (to_size (maxResult (options s)))
    (zlength (stopped s)) (heap s) (stopped s)) as Hp.
  destruct (trim _ _ _ _ _) as [kept dropped]. simpl in Hp. eexists kept, _. split; [done|].
  intros x Hx. rewrite Hp. apply elem_of_app. by left.
Qed.

Lemma retire_shape t final s :
  exists d m b p,
    retire t final s =
      with_posted p (with_scheduled b (with_stopped d (with_tasks m (retired t final s)))) /\
    (forall x, x ∈ d -> x = t \/ x ∈ stopped s) /\
    (forall s', retiring (with_posted p s') = retiring s) /\
    (forall t v, RunRetire t v ∈ p -> RunRetire t v ∈ posted s).
Proof.
  rewrite retire_eq. destruct (trimResults_shape (retired t final s)) as (d & m & -> & Hd).
  destruct (schedule_shape (with_stopped d (with_tasks m (retired t final s))))
    as (b & p & -> & Hr & Hp).
  exists d, m, b, p. split_and!; [done| |done|done].
  intros x Hx. apply Hd in Hx. simpl in Hx. apply elem_of_app in Hx as [?|Hx]; [by right|].
  apply list_elem_of_singleton in Hx. by left.
Qed.

Lemma retire_ok_gen (skip : Z -> Prop) t final s :
  (queues_ok s /\ t ∈ active s) \/ queues_but (eq t) s -> isFinal final -> pending_ok s ->
  moving_ok s -> (forall g m, ~ skip g -> find g (moving s) = Some m -> move_ok s g m) ->
  (forall x, x <> t -> task_ok s x) ->
  stopping (heap s t) = false -> t ∉ retiring s -> find t (stops s) = None ->
  engine_but skip (retire t final s).
Proof.
  intros Hpre Hfin Hp Hm Hmove Hother Hstop Hret Hheld.
  assert (queues_ok (retire t final s)) as Hq by by apply retire_queues.
  assert (t ∉ waiting s) as Hnw.
  { destruct Hpre as [[Hq' Ht]|Hq']; [by eapply active_not_waiting|].
    intros Hw. apply (out_unlisted _ _ Hq' t eq_refl). unfold listed. tauto. }
  destruct (retire_shape t final s) as (d & m & b & p & Heq & Hd & Hr & Hpp).
  rewrite Heq in *. clear Heq. split; [done|..].
  - eapply pending_frame; [exact Hp|..]; simpl; auto.
  - intros x. destruct (decide (t = x)) as [<-|Hne].
    + apply task_idle; simpl; [by rewrite Hr|done|]. view. by at_address t t.
    + apply (task_frame s); [by apply Hother|by rewrite Hr|..].
      * simpl. rewrite elem_of_removeAll. naive_solver.
      * simpl. intros [?|Hx%Hd]; naive_solver.
      * view. by at_address t x.
      * done.
  - apply (moving_frame s); [done..|]. intros x. view. by at_address t x.
  - intros g mv Hskip Hg. apply (move_frame s); [by apply Hmove|done|..].
    + intros x. view. by at_address t x.
    + intros x Hw Hs _. split; [done|]. view. at_address t x; [done|congruence].
    + intros x Ha Hs. view. rewrite elem_of_removeAll. at_address t x; [congruence|done].
Qed.

(** Fields the invariant does not mention. *)
Lemma engine_frame skip s s' :
  engine_but skip s -> heap s' = heap s -> active s' = active s -> waiting s' = waiting s ->
  stopped s' = stopped s -> tasks s' = tasks s -> moving s' = moving s ->
  fileMoves s' = fileMoves s -> disk s' = disk s -> stops s' = stops s ->
  retiring s' = retiring s ->
  (forall t v, RunRetire t v ∈ posted s' -> RunRetire t v ∈ posted s) -> engine_but skip s'.
Proof.
  intros [Hq Hp Ht Hm Hmv] Eh Ea Ew Es Et Em Ef Ed Est Er Hpost.
  assert (forall x, stateOf x s' = stateOf x s) as Hs by (intros; unfold stateOf; by rewrite Eh).
  assert (forall x, gidOf x s' = gidOf x s) as Hg by (intros; unfold gidOf; by rewrite Eh).
  split.
  - by eapply queues_frame.
  - by eapply pending_frame.
  - intros x. apply (task_frame s); [done|rewrite ?Er, ?Ea, ?Ew, ?Es, ?Eh, ?Est; done..].
  - apply (moving_frame s); auto. intros x _. by rewrite Ew.
  - intros g m Hskip. rewrite Em. intros Hg'. apply (move_frame s); auto.
    + intros x Hw Hst _. by rewrite Ew, Hs.
    + intros x Ha Hst. by rewrite Ea, Eh.
Qed.

Lemma schedule_ok skip s : engine_but skip s -> engine_but skip (schedule s).
Proof.
  intros Hok. destruct (schedule_shape s) as (b & p & -> & Hr & Hp).
  eapply engine_frame; [exact Hok|done..|apply Hr|done].
Qed.

Lemma saveSession_shape s : exists v, saveSession s = with_saved v s.
Proof.
  unfold saveSession. case_bool_decide; [|by eexists]. exists (saved s). by destruct s.
Qed.

Lemma finishShutdown_ok skip s : engine_but skip s -> engine_but skip (finishShutdown s).
Proof.
  intros Hok. unfold finishShutdown. destruct (finished s); [done|].
  destruct (saveSession_shape (with_finished true s)) as [v ->].
  destruct (ed2kRuns _); by eapply engine_frame.
Qed.

Lemma finishShutdown_kept s :
  active (finishShutdown s) = active s /\ retiring (finishShutdown s) = retiring s.
Proof.
  unfold finishShutdown. destruct (finished s); [done|].
  destruct (saveSession_shape (with_finished true s)) as [v ->]. by destruct (ed2kRuns _).
Qed.

Lemma schedule_kept s : active (schedule s) = active s /\ retiring (schedule s) = retiring s.
Proof. destruct (schedule_shape s) as (b & p & -> & Hr & _). split; [done|apply Hr]. Qed.

(** An action that returns. *)
Definition returns (a : action) (s : engine) (post_ : engine -> Prop) : Prop :=
  exists s', a s = (s', None) /\ post_ s'.

Lemma returns_run f s (Q : engine -> Prop) : Q (f s) -> returns (run f) s Q.
Proof. intros HQ. by exists (f s). Qed.
Lemma returns_then a b s (P Q : engine -> Prop) :
  returns a s P -> (forall s', P s' -> returns b s' Q) -> returns (a ;; b) s Q.
Proof.
  intros (s' & Ha & HP) Hb. destruct (Hb s' HP) as (s'' & Hb' & HQ). exists s''.
  unfold andThen. by rewrite Ha.
Qed.
Lemma returns_run_then f b s (Q : engine -> Prop) :
  returns b (f s) Q -> returns (run f ;; b) s Q.
Proof. intros (s' & Hb & HQ). by exists s'. Qed.
Lemma returns_skip_then b s (Q : engine -> Prop) : returns b s Q -> returns (skip ;; b) s Q.
Proof. intros (s' & Hb & HQ). by exists s'. Qed.
Lemma returns_read {A} (f : engine -> A) k s (Q : engine -> Prop) :
  returns (k (f s)) s Q -> returns (read f k) s Q.
Proof. done. Qed.
Lemma returns_impl a s (P Q : engine -> Prop) :
  returns a s P -> (forall s', P s' -> Q s') -> returns a s Q.
Proof. intros (s' & Ha & HP) HQ. exists s'. auto. Qed.
Lemma returns_forEach {A} (l : list A) (body : A -> action) (I : list A -> engine -> Prop) s :
  I l s -> (forall (x : A) (l' : list A) s, I (x :: l') s -> returns (body x) s (I l')) ->
  returns (forEach l body) s (I []).
Proof.
  revert s. induction l as [|x l IH]; intros s HI Hbody; simpl; [by apply returns_run|].
  eapply returns_then; [by apply Hbody|]. intros s' HI'. by apply IH.
Qed.
End transfers.

(** ** Lemmas: stopping and moving *)

Section stopping.
Context (stopsNow : Z -> bool -> engine -> bool)
  (relocation : Z -> string -> engine -> option (list (string * string))).
Implicit Types (s : engine) (t x g : Z).

(** The other active tasks stay active, and no retirement is posted or lost. *)
Definition kept t s s' : Prop :=
  retiring s' = retiring s /\ forall x, x <> t -> x ∈ active s -> x ∈ active s'.

Lemma moveFilesOf_ok t m s :
  engine_but (eq (gidOf t s)) s -> t ∈ waiting s -> stateOf t s = Paused ->
  find (gidOf t s) (moving s) = Some m -> moveStarted m = false ->
  returns (moveFilesOf relocation t) s (fun s' =>
    engine_ok s' /\ retiring s' = retiring s /\ active s' = active s).
Proof.
  intros [Hq Hp Ht Hm Hmv] Hw Hst Hf Hns. unfold moveFilesOf. apply returns_read.
  rewrite Hf. apply returns_run_then, returns_read, returns_read. cbn [disk with_moving].
  rewrite (moving_disk s Hm) by (intros E; by rewrite E in Hf). apply returns_run.
  assert (t ∉ (fileMoves s).*1) as Hjob.
  { intros Hin. destruct (jobs_move s Hm t Hin) as (_ & m' & Hf' & Hs'). congruence. }
  pose proof (moving_sorted s Hm) as Hsm. split; [|done]. split.
  - by eapply queues_frame.
  - by eapply pending_frame.
  - intros x. by apply (task_frame s).
  - destruct Hm as [H1 H2 H3 H4]. split; simpl; [auto with aria2|..].
    + rewrite fmap_app. apply NoDup_app. split_and!; [done|set_solver|apply NoDup_singleton].
    + rewrite fmap_app. intros x Hx. apply elem_of_app in Hx as [Hx|Hx]; simpl in Hx.
      * destruct (H3 x Hx) as (? & m' & Hm' & ?). split; [done|]. exists m'. split; [|done].
        rewrite find_put_ne; [done|done|]. intros E. view. rewrite <- E in Hm'. congruence.
      * apply list_elem_of_singleton in Hx as ->. split; [done|]. eexists.
        by rewrite find_put_eq.
    + intros _. apply H4. intros E. by rewrite E in Hf.
  - intros g m' _. simpl. intros [[-> ->]|[Hne Hf']]%find_put_inv; [| |done].
    + exists t. simpl. split_and!; [done..|]. rewrite fmap_app. set_solver.
    + destruct (Hmv g m' (not_eq_sym Hne) Hf') as (x & Hg & Hx). exists x. split; [done|]. simpl.
      rewrite fmap_app. destruct (moveStarted m'); [|done]. set_solver.
Qed.

(** Just before the callback runs: [t] is active and holds no callback. *)
Record stop_pending t s : Prop := {
  sp_queues : queues_ok s;
  sp_active : t ∈ active s;
  sp_pending : pending_ok s;
  sp_retiring : t ∉ retiring s;
  sp_stops : find t (stops s) = None;
  sp_others x : x <> t -> task_ok s x;
  sp_moving : moving_ok s;
  sp_move g m : gidOf t s <> g -> find g (moving s) = Some m -> move_ok s g m;
  sp_own m : find (gidOf t s) (moving s) = Some m -> moveStarted m = false;
}.

(** The callback up to the point where it looks at the move. *)
Definition toQueue t (next : TaskState) s : engine :=
  with_waiting (t :: waiting s)
    (update t (set_state next)
      (with_active (removeAll t (active s)) (update t (set_stopping false) s))).

Lemma toQueue_ok t next s :
  stop_pending t s -> isQueued next -> engine_but (eq (gidOf t s)) (toQueue t next s).
Proof.
  intros [Hq Ha Hp Hr Hs Hother Hm Hmv Hown] Hn.
  assert (forall x, gidOf x (toQueue t next s) = gidOf x s) as Hgid.
  { intros x. unfold toQueue. view. at_address t x; done. }
  split.
  - apply (join_waiting t); [|view; at_address t t; [done|congruence]|done].
    apply change_out; [|done].
    apply (queues_frame _ (update t (set_stopping false) (with_active (removeAll t (active s)) s)));
      try done. apply change_flags; [by apply leave_active|done..].
  - by eapply pending_frame.
  - intros x. destruct (decide (t = x)) as [<-|Hne].
    + apply task_idle; [done..|]. unfold toQueue. view. at_address t t; [done|congruence].
    + apply (task_frame s); [auto|done|..]; unfold toQueue; view.
      * rewrite elem_of_removeAll. naive_solver.
      * set_solver.
      * by at_address t x.
      * done.
  - apply (moving_frame s); try done. simpl. intros x _ ?. by right.
  - intros g m Hne Hf. simpl in *. destruct (Hmv g m Hne Hf) as (x & Hg & Hx). exists x.
    rewrite Hgid. split; [done|]. assert (t <> x) by congruence. unfold toQueue. view.
    at_address t x; [done|]. destruct (moveStarted m); rewrite ?elem_of_removeAll; set_solver.
Qed.

Lemma toStopped_ok t s :
  stop_pending t s ->
  engine_but (eq (gidOf t s))
    (retire t Removed (update t (set_error codeRemoved "Removed")
      (with_active (removeAll t (active s)) (update t (set_stopping false) s)))).
Proof.
  intros [Hq Ha Hp Hr Hs Hother Hm Hmv Hown].
  set (s1 := update t (set_error codeRemoved "Removed")
    (with_active (removeAll t (active s)) (update t (set_stopping false) s))).
  assert (forall x, gidOf x s1 = gidOf x s) as Hgid.
  { intros x. subst s1. view. at_address t x; done. }
  apply retire_ok_gen; try done.
  - right. apply change_out; [|done].
    apply (queues_frame _ (update t (set_stopping false) (with_active (removeAll t (active s)) s)));
      try done. apply change_flags; [by apply leave_active|done..].
  - by right; right.
  - by eapply pending_frame.
  - by apply (moving_frame s).
  - intros g m Hne Hf. simpl in *. destruct (Hmv g m Hne Hf) as (x & Hg & Hx). exists x.
    rewrite Hgid. split; [done|]. assert (t <> x) by congruence. subst s1. view.
    at_address t x; [done|]. destruct (moveStarted m); rewrite ?elem_of_removeAll; set_solver.
  - intros x Hne. apply (task_frame s); [auto|done|..]; subst s1; view.
    + rewrite elem_of_removeAll. naive_solver.
    + set_solver.
    + by at_address t x.
    + done.
  - subst s1. view. at_address t t; [done|congruence].
Qed.

(** The move of a download that stopped for good is given up. *)
Lemma giveUpMove_ok t m s r :
  engine_but (eq (gidOf t s)) s -> find (gidOf t s) (moving s) = Some m -> moveStarted m = false ->
  engine_ok (with_replies r (with_moving (erase (gidOf t s) (moving s)) s)).
Proof.
  intros [Hq Hp Ht Hm Hmv] Hf0 Hns. pose proof (moving_sorted s Hm) as Hsm. split.
  - by eapply queues_frame.
  - by eapply pending_frame.
  - intros x. by apply (task_frame s).
  - destruct Hm as [H1 H2 H3 H4]. split; simpl; [auto with aria2|done|..].
    + intros x Hx. destruct (H3 x Hx) as (Hw & m' & Hf & Hs). split; [done|]. exists m'.
      split; [|done]. rewrite find_erase_ne; [done|done|]. intros E. view. congruence.
    + intros _. apply H4. intros E. by rewrite E in Hf0.
  - intros g m' _. simpl. intros [Hne Hf]%find_erase_inv; [|done].
    by apply (Hmv g m' (not_eq_sym Hne) Hf).
Qed.

Lemma finish_ok s0 s :
  engine_ok s /\ retiring s = retiring s0 /\ active s = active s0 ->
  returns (get last := fun s => shuttingDown s && bool_decide (active s = []) in
           when last (run finishShutdown) ;; run schedule) s
    (fun s' => engine_ok s' /\ retiring s' = retiring s0 /\ active s' = active s0).
Proof.
  intros (Hok & Hr & Ha). apply returns_read.
  destruct (shuttingDown s && _); simpl; apply returns_run_then, returns_run.
  - pose proof (finishShutdown_kept s) as [E1 E2].
    destruct (schedule_kept (finishShutdown s)) as [-> ->].
    split; [by apply schedule_ok, finishShutdown_ok|]. by rewrite E1, E2.
  - destruct (schedule_kept s) as [-> ->]. split; [by apply schedule_ok|done].
Qed.

Lemma afterStop_ok t s :
  engine_but (eq (gidOf t s)) s -> (stateOf t s = Paused -> t ∈ waiting s) ->
  (forall m, find (gidOf t s) (moving s) = Some m -> moveStarted m = false) ->
  returns (afterStop relocation t) s
    (fun s' => engine_ok s' /\ retiring s' = retiring s /\ active s' = active s).
Proof.
  intros Hok Hw Hown. unfold afterStop. do 3 apply returns_read.
  apply (returns_then _ _ _
    (fun s' => engine_ok s' /\ retiring s' = retiring s /\ active s' = active s));
    [|intros s' H'; by apply finish_ok].
  destruct (find (gidOf t s) (moving s)) as [m|] eqn:Hf.
  - rewrite (Hown m eq_refl). unfold is_state.
    destruct (bool_decide (stateOf t s = Paused) && negb (shuttingDown s)) eqn:Hb; simpl.
    + apply andb_prop in Hb as [Hb%bool_decide_eq_true _]. eapply moveFilesOf_ok; eauto.
    + apply returns_run_then, returns_run. split; [|done]. eapply giveUpMove_ok; eauto.
  - apply returns_run. split; [|done]. destruct Hok as [Hq Hp Ht Hm Hmv]. split; [done..|].
    intros g m _ Hg. apply Hmv; [congruence|done].
Qed.

(** The state in which the callback looks at the move. *)
Definition half_stopped t s s1 : Prop :=
  engine_but (eq (gidOf t s1)) s1 /\ (stateOf t s1 = Paused -> t ∈ waiting s1) /\
  moving s1 = moving s /\ gidOf t s1 = gidOf t s /\ retiring s1 = retiring s /\
  active s1 = removeAll t (active s).

Lemma toQueue_half t next s :
  stop_pending t s -> isQueued next -> half_stopped t s (toQueue t next s).
Proof.
  intros Hsp Hn. assert (gidOf t (toQueue t next s) = gidOf t s) as Hg.
  { unfold toQueue. view. at_address t t; [done|congruence]. }
  split_and!; [rewrite Hg; by apply toQueue_ok| |done..]. intros _. simpl. left.
Qed.

Lemma toStopped_half t s :
  stop_pending t s ->
  half_stopped t s
    (retire t Removed (update t (set_error codeRemoved "Removed")
      (with_active (removeAll t (active s)) (update t (set_stopping false) s)))).
Proof.
  intros Hsp. pose proof (toStopped_ok t s Hsp) as Hok. revert Hok.
  set (s1 := update t _ _). destruct (retire_shape t Removed s1) as (d & m & b & p & -> & Hd & Hr & _).
  intros Hok. set (s2 := with_posted p _) in *.
  assert (gidOf t s2 = gidOf t s) as E
    by (subst s2 s1; view; at_address t t; [done|congruence]).
  split_and!; [by rewrite E| |done|done|apply Hr|].
  - subst s2 s1. view. at_address t t; [done|congruence].
  - simpl. apply removeAll_absent. rewrite elem_of_removeAll. tauto.
Qed.

Lemma stopDone_ok t next s :
  stop_pending t s -> stopTarget next ->
  returns (stopDone relocation t next) s (fun s' => engine_ok s' /\ kept t s s').
Proof.
  intros Hsp Hn. unfold stopDone. do 2 apply returns_run_then.
  apply (returns_then _ _ _ (half_stopped t s)).
  - destruct Hn as [-> | [-> | ->]].
    + do 2 apply returns_run_then. simpl. apply returns_run.
      destruct (toQueue_half t Paused s Hsp) as (Hok & ? & ? & ? & ? & ?); [by right|].
      split_and!; try done. by eapply engine_frame.
    + do 2 apply returns_run_then. simpl. apply returns_run. apply toQueue_half; [done|by left].
    + apply returns_run_then, returns_run. exact (toStopped_half t s Hsp).
  - intros s1 (Hok & Hw & Hm & Hg & Hr & Ha).
    eapply returns_impl; [apply afterStop_ok; [done..|]|].
    + rewrite Hg, Hm. apply (sp_own t s Hsp).
    + intros s' (Hok' & Hr' & Ha'). split; [done|]. split; [congruence|].
      intros x Hne Hx. rewrite Ha', Ha. by apply elem_of_removeAll.
Qed.

(** Only the callbacks change when a stop replaces another. *)
Lemma replaceStop_eq t s :
  sorted (stops s) ->
  exists held old, replaceStop t s = with_stops held (with_earlier old s) /\ sorted held /\ find t held = None /\
    forall x, x <> t -> find x held = find x (stops s).
Proof.
  intros Hs. unfold replaceStop. destruct (find t (stops s)) as [next|] eqn:E.
  - exists (erase t (stops s)), (earlier s ++ [(t, next)]).
    split_and!; [done|auto with aria2|by apply find_erase_eq|]. intros x Hx. apply find_erase_ne; [done|congruence].
  - exists (stops s), (earlier s). split_and!; try done. by destruct s.
Qed.

(** An active task whose end is not posted can be told to stop, also again: the
    later callback replaces the earlier one. *)
Lemma stopTask_ok_gen t force next s :
  engine_but (eq (gidOf t s)) s -> t ∈ active s -> t ∉ retiring s -> stopTarget next ->
  (forall m, find (gidOf t s) (moving s) = Some m -> moveStarted m = false) ->
  returns (stopTask stopsNow relocation t force next) s (fun s' => engine_ok s' /\ kept t s s').
Proof.
  intros [Hq Hp Ht Hm Hmv] Ha Hr Hn Hown. unfold stopTask. apply returns_run_then, returns_run_then, returns_read.
  set (s0 := update t (set_stopping true) s).
  destruct (replaceStop_eq t s0) as (held & old & E & Hss & Hft & Hfx); [apply (stops_sorted s Hp)|].
  rewrite E. set (s1 := with_stops held (with_earlier old s0)).
  assert (forall x, gidOf x s1 = gidOf x s) as Hg by (intros x; subst s0 s1; view; by at_address t x).
  assert (forall x, stateOf x s1 = stateOf x s) as Hs by (intros x; subst s0 s1; view; by at_address t x).
  assert (forall x, t <> x -> stopping (heap s1 x) = stopping (heap s x)) as Hstop
    by (intros x Hx; subst s0 s1; view; by at_address t x).
  assert (stopping (heap s1 t) = true) as Hst by (subst s0 s1; view; at_address t t; [done|congruence]).
  assert (forall g m st, gidOf t s <> g -> find g (moving s) = Some m ->
    move_ok (with_stops st s1) g m) as Hothers.
  { intros g m st Hne Hf. apply (move_frame s); auto.
    - intros x Hw Hst' _. split; [done|]. by rewrite <- Hs in Hst'.
    - intros x Hx Hst'. split; [done|]. destruct (decide (t = x)) as [<-|Hne']; [done|]. by rewrite <- Hstop in Hst'. }
  destruct (stopsNow t force s1).
  - eapply returns_impl; [apply stopDone_ok; [|done]|done].
    split; try done.
    + by eapply queues_frame.
    + destruct Hp. split; simpl; auto with aria2.
    + intros x Hne. apply (task_frame s); try done; [by apply Hstop|]. simpl. apply Hfx. congruence.
    + by apply (moving_frame s).
    + intros g m Hne. apply (Hothers g m held). by rewrite <- Hg.
    + intros m Hf. apply Hown. by rewrite <- Hg.
  - apply returns_run. split; [|done]. split.
    + by eapply queues_frame.
    + destruct Hp. split; simpl; auto with aria2.
    + intros x. destruct (decide (t = x)) as [<-|Hne].
      * split; simpl; rewrite ?find_put_eq by done; try done; [naive_solver|].
        intros [Hw|Hw]; [by apply (active_not_waiting _ s t Hq) in Ha|].
        by apply (active_not_stopped _ s t Hq) in Ha.
      * apply (task_frame s); try done; [by apply Hstop|].
        simpl. rewrite find_put_ne by congruence. apply Hfx. congruence.
    + by apply (moving_frame s).
    + intros g m _ Hf. destruct (decide (gidOf t s = g)) as [<-|Hne]; [|by apply Hothers].
      exists t. split; [apply Hg|]. by rewrite (Hown m Hf).
Qed.

Lemma active_move_waits t m s :
  engine_ok s -> t ∈ active s -> find (gidOf t s) (moving s) = Some m -> moveStarted m = false.
Proof.
  intros Hok Ha Hf. pose proof (ok_queues _ _ Hok) as Hq.
  destruct (ok_move _ _ Hok _ m (fun F => F) Hf) as (x & Hg & Hx).
  destruct (moveStarted m); [|done]. destruct Hx as (Hw & _).
  assert (t = x) as <-; [|by apply (active_not_waiting _ s t Hq) in Ha].
  apply (listed_gid_inj s); unfold listed; auto.
Qed.

Lemma engine_ok_but skip s : engine_ok s -> engine_but skip s.
Proof. intros [Hq Hp Ht Hm Hmv]. split; auto. Qed.

Lemma stopTask_ok t force next s :
  engine_ok s -> t ∈ active s -> t ∉ retiring s -> stopTarget next ->
  returns (stopTask stopsNow relocation t force next) s (fun s' => engine_ok s' /\ kept t s s').
Proof.
  intros Hok Ha Hr Hn. apply stopTask_ok_gen; try done; [by apply engine_ok_but|].
  intros m. by apply active_move_waits.
Qed.

(** ** Lemmas: the other operations *)

(** A change of a queued task between [Waiting] and [Paused], or of its options. *)
Lemma change_queued_ok t f s :
  engine_ok s -> t ∈ waiting s -> (forall d, gid (f d) = gid d) ->
  (forall d, stopping (f d) = stopping d) -> isQueued (state (f (heap s t))) ->
  (stateOf t s = Paused -> is_Some (find (gidOf t s) (moving s)) -> state (f (heap s t)) = Paused) ->
  engine_ok (update t f s).
Proof.
  intros [Hq Hp Ht Hm Hmv] Hw Hg Hst Hqd Hmoving.
  assert (forall x, gidOf x (update t f s) = gidOf x s) as Hgid
    by (intros x; view; at_address t x; by rewrite ?Hg).
  assert (forall x, stopping (heap (update t f s) x) = stopping (heap s x)) as Hstop
    by (intros x; view; at_address t x; by rewrite ?Hst).
  split.
  - by apply change_queued.
  - by eapply pending_frame.
  - intros x. apply (task_frame s); done.
  - by apply (moving_frame s).
  - intros g m _ Hf. apply (move_frame s); try done; [exact (Hmv g m (fun F => F) Hf)| |].
    + intros x Hx Hs Hj. split; [done|]. destruct (decide (t = x)) as [<-|Hne].
      * destruct (jobs_move s Hm t Hj) as (_ & m' & Hm' & _).
        unfold stateOf, update. simpl. rewrite fn_lookup_alter. apply Hmoving; [done|by eexists].
      * unfold stateOf, update in *. simpl. by rewrite fn_lookup_alter_ne.
    + intros x Ha Hs. split; [done|]. by rewrite Hstop.
Qed.

(** The [resume] flags may change at any time. *)
Lemma change_resume_ok s mv :
  engine_ok s -> sorted mv ->
  (forall g m', find g mv = Some m' ->
     exists m, find g (moving s) = Some m /\ moveStarted m' = moveStarted m) ->
  (forall g m, find g (moving s) = Some m ->
     exists m', find g mv = Some m' /\ moveStarted m' = moveStarted m) ->
  engine_ok (with_moving mv s).
Proof.
  intros [Hq Hp Ht Hm Hmv] Hs Hback Hforth. split.
  - by eapply queues_frame.
  - by eapply pending_frame.
  - intros x. by apply (task_frame s).
  - destruct Hm as [H1 H2 H3 H4]. split; simpl; [done|done|..].
    + intros x Hx. destruct (H3 x Hx) as (? & m & Hf & ?). split; [done|].
      destruct (Hforth _ _ Hf) as (m' & ? & ?). exists m'. split; [done|congruence].
    + intros Hne. apply H4. intros E. apply Hne. destruct mv as [|[g m] mv']; [done|].
      destruct (Hback g m) as (m0 & Hf & _); [|by rewrite E in Hf].
      apply elem_find_iff; [done|left].
  - intros g m' _ Hf. destruct (Hback g m' Hf) as (m & Hm' & E).
    destruct (Hmv g m (fun F => F) Hm') as (x & Hg & Hx). exists x. split; [done|].
    rewrite E. done.
Qed.

Lemma put_resume_ok t m v s :
  engine_ok s -> find (gidOf t s) (moving s) = Some m ->
  engine_ok (with_moving (put (gidOf t s) (set_resume v m) (moving s)) s).
Proof.
  intros Hok Hf. pose proof (moving_sorted s (ok_moving _ _ Hok)) as Hs.
  apply change_resume_ok; [done|auto with aria2|..].
  - intros g m' [[-> ->]|[? ?]]%find_put_inv; [by exists m|by exists m'|done].
  - intros g m' Hg. destruct (decide (g = gidOf t s)) as [->|Hne].
    + rewrite find_put_eq by done. simplify_eq. by eexists.
    + rewrite find_put_ne by done. eauto.
Qed.

Lemma pause_ok t force s :
  engine_ok s -> listed t s -> t ∉ retiring s ->
  returns (pause stopsNow relocation t force) s (fun s' => engine_ok s' /\ kept t s s').
Proof.
  intros Hok Hl Hr. unfold pause. apply returns_read.
  apply (returns_then _ _ _ (fun s' => engine_ok s' /\ heap s' = heap s /\
    active s' = active s /\ waiting s' = waiting s /\ retiring s' = retiring s)).
  { destruct (find (gidOf t s) (moving s)) as [m|] eqn:Hf; apply returns_run; [|done].
    split; [|done]. by apply put_resume_ok. }
  intros s1 (Hok1 & Eh & Ea & Ew & Er). apply returns_read. rewrite Eh.
  pose proof (ok_queues _ _ Hok) as Hq.
  assert (stateOf t s = state (heap s t)) as Hst by done.
  destruct (state (heap s t)) eqn:E; try (apply returns_run; split; [done|]; split; [done|];
    intros; by rewrite Ea).
  - apply returns_run_then, returns_run. assert (t ∈ waiting s1) as Hw.
    { rewrite Ew. destruct Hl as [Ha|[Hw|Hd]]; [|done|].
      - apply (active_state _ _ Hq) in Ha. congruence.
      - apply (stopped_state _ _ Hq) in Hd as [?|[?|?]]; congruence. }
    split; [|split; [done|intros; by rewrite <- Ea in *]].
    eapply engine_frame; [apply change_queued_ok; [done|exact Hw|..]|done..]; try done. by right.
  - assert (t ∈ active s) as Ha.
    { destruct Hl as [Ha|[Hw|Hd]]; [done|..].
      - apply (waiting_state _ _ Hq) in Hw as [?|?]; congruence.
      - apply (stopped_state _ _ Hq) in Hd as [?|[?|?]]; congruence. }
    destruct (stopping (heap s t)); simpl.
    + apply returns_run. split; [done|]. split; [done|]. intros. by rewrite Ea.
    + eapply returns_impl; [apply stopTask_ok; [done|by rewrite Ea|by rewrite Er|by left]|].
      intros s' [Hok' [Hr' Hk']]. split; [done|]. split; [congruence|].
      intros x Hne Hx. apply Hk'; [done|by rewrite Ea].
Qed.

(** The operation ends with the invariant, perhaps by throwing an [Error]. *)
Definition safe (a : action) s : Prop :=
  exists s' e, a s = (s', e) /\ engine_ok s' /\ e <> Some OutOfRange /\ e <> Some NullDisk.

Lemma returns_safe a s (Q : engine -> Prop) :
  returns a s Q -> (forall s', Q s' -> engine_ok s') -> safe a s.
Proof. intros (s' & Ha & HQ) Himp. exists s', None. auto. Qed.

Lemma safe_run f s : engine_ok (f s) -> safe (run f) s.
Proof. intros Hok. by exists (f s), None. Qed.
Lemma safe_run_then f b s : safe b (f s) -> safe (run f ;; b) s.
Proof. intros (s' & e & Hb & Hok). by exists s', e. Qed.
Lemma safe_read {A} (f : engine -> A) k s : safe (k (f s)) s -> safe (read f k) s.
Proof. done. Qed.
Lemma guard_throw code message s : engine_ok s -> safe (throw (Thrown code message)) s.
Proof. intros Hok. by exists s, (Some (Thrown code message)). Qed.
Lemma safe_throw_then code message b s :
  engine_ok s -> safe (throw (Thrown code message) ;; b) s.
Proof. intros Hok. by exists s, (Some (Thrown code message)). Qed.
Lemma safe_then a b s (P : engine -> Prop) :
  returns a s P -> (forall s', P s' -> safe b s') -> safe (a ;; b) s.
Proof.
  intros (s' & Ha & HP) Hb. destruct (Hb s' HP) as (s'' & e & Hb' & HQ). exists s'', e.
  unfold andThen. by rewrite Ha.
Qed.

Lemma listed_active t s : queues_ok s -> listed t s -> stateOf t s = Active -> t ∈ active s.
Proof.
  intros Hq [Ha|[Hw|Hd]] Hs; [done|..].
  - by apply (waiting_state _ _ Hq), queued_not_active in Hw.
  - by apply (stopped_state _ _ Hq), final_not_active in Hd.
Qed.
Lemma listed_waiting t s : queues_ok s -> listed t s -> isQueued (stateOf t s) -> t ∈ waiting s.
Proof.
  intros Hq [Ha|[Hw|Hd]] Hs; [|done|].
  - apply (active_state _ _ Hq) in Ha. rewrite Ha in Hs. by apply queued_not_active in Hs.
  - by apply (stopped_state _ _ Hq), final_not_queued in Hd.
Qed.

Lemma unpause_ok t s : engine_ok s -> listed t s -> engine_ok (unpause t s).
Proof.
  intros Hok Hl. unfold unpause. destruct (find (gidOf t s) (moving s)) as [m|] eqn:Hf.
  - by apply put_resume_ok.
  - unfold is_state. case_bool_decide as Hs; [|done]. apply schedule_ok.
    assert (t ∈ waiting s) as Hw
      by (apply listed_waiting; [exact (ok_queues _ _ Hok)|done|rewrite Hs; by right]).
    apply change_queued_ok; try done; [by left|]. rewrite Hf. by intros _ [? ?].
Qed.

(** A queued task is removed. *)
Lemma retireQueued_ok t s :
  engine_ok s -> t ∈ waiting s -> find (gidOf t s) (moving s) = None ->
  engine_ok (retire t Removed (update t (set_error codeRemoved "Removed")
    (with_waiting (removeAll t (waiting s)) s))).
Proof.
  intros [Hq Hp Ht Hm Hmv] Hw Hf.
  assert (t ∉ active s) as Hna by (intros Ha; by apply (active_not_waiting _ s t Hq) in Ha).
  assert (t ∉ (fileMoves s).*1) as Hjob.
  { intros Hin. destruct (jobs_move s Hm t Hin) as (_ & m & Hf' & _). congruence. }
  set (s1 := update t _ _).
  assert (forall x, gidOf x s1 = gidOf x s) as Hg by (intros x; subst s1; view; by at_address t x).
  assert (forall x, stopping (heap s1 x) = stopping (heap s x)) as Hst
    by (intros x; subst s1; view; by at_address t x).
  apply retire_ok_gen; try done.
  - right. apply change_flags; [|done..]. apply leave_waiting; [done|].
    apply removeAll_perm; [by apply (waiting_nodup _ _ Hq)|done].
  - by right; right.
  - by eapply pending_frame.
  - apply (moving_frame s); try done. intros x Hx Hxw. simpl. rewrite elem_of_removeAll.
    split; [congruence|done].
  - intros g m Hsk Hg'. apply (move_frame s); try done; [exact (Hmv g m Hsk Hg')|..].
    + intros x Hx Hs Hj. simpl. rewrite elem_of_removeAll. assert (x <> t) by congruence.
      split; [done|]. subst s1. view. by at_address t x.
    + intros x Hx Hs. by rewrite Hst.
  - intros x Hne. apply (task_frame s); try done. simpl. rewrite elem_of_removeAll. tauto.
  - rewrite Hst. apply (idle_not_stopping s t (Ht t)). by left.
  - intros Hr. by apply (retiring_active s t (Ht t)) in Hr as [? _].
  - simpl. destruct (find t (stops s)) eqn:E; [|done].
    by apply (stops_active s t (Ht t)) in E as [? _].
Qed.

Lemma remove_ok t force s :
  engine_ok s -> listed t s -> t ∉ retiring s -> safe (remove stopsNow relocation t force) s.
Proof.
  intros Hok Hl Hr. pose proof (ok_queues _ _ Hok) as Hq. unfold remove. apply safe_read.
  destruct (find (gidOf t s) (moving s)) as [m|] eqn:Hf; [by apply safe_throw_then|].
  apply safe_run_then, safe_read. change (state (heap s t)) with (stateOf t s).
  destruct (stateOf t s) eqn:Hs; try by apply safe_run.
  - do 2 apply safe_run_then. apply safe_run, (retireQueued_ok t s Hok); [|done].
    apply listed_waiting; [done..|]. rewrite Hs. by left.
  - destruct (negb (stopping (heap s t)) || force); simpl; [|by apply safe_run].
    eapply returns_safe; [apply stopTask_ok; [done|by apply listed_active|done|by right; right]|].
    by intros s' [? _].
  - do 2 apply safe_run_then. apply safe_run, (retireQueued_ok t s Hok); [|done].
    apply listed_waiting; [done..|]. rewrite Hs. by right.
Qed.

Lemma find_map_values {V W} (f : Z -> V -> W) (m : stdmap Z V) g :
  sorted m -> find g (map_values f m) = f g <$> find g m.
Proof.
  intros Hs. apply option_eq. intros w. rewrite <- elem_find_iff by auto with aria2.
  rewrite elem_of_map_values, fmap_Some. setoid_rewrite elem_find_iff; [|done]. naive_solver.
Qed.

Lemma resumeAll_ok v s :
  engine_ok s -> engine_ok (with_moving (map_values (fun _ => set_resume v) (moving s)) s).
Proof.
  intros Hok. pose proof (moving_sorted s (ok_moving _ _ Hok)) as Hs.
  apply change_resume_ok; [done|auto with aria2|..]; intros g m; rewrite find_map_values by done.
  - intros (m0 & Hf & ->)%fmap_Some. by exists m0.
  - intros Hf. rewrite Hf. by eexists.
Qed.

Lemma pauseWaiting_ok t s : engine_ok s -> t ∈ waiting s -> engine_ok (pauseWaiting t s).
Proof.
  intros Hok Hw. unfold pauseWaiting, is_state. case_bool_decide as Hs; [|done].
  eapply engine_frame; [apply change_queued_ok; [done|exact Hw|..]|done..]; try done. by right.
Qed.

Lemma pauseAll_ok force s :
  engine_ok s -> retiring s = [] -> safe (pauseAll stopsNow relocation force) s.
Proof.
  intros Hok Hr. unfold pauseAll. apply safe_run_then, safe_read.
  apply (safe_then _ _ _ (fun s' => engine_ok s')).
  - eapply returns_impl; [eapply (returns_forEach _ _ (fun l s' => engine_ok s' /\
      retiring s' = [] /\ NoDup l /\ forall x, x ∈ l -> x ∈ active s'))|by intros s' [? _]].
    + split_and!; [by apply resumeAll_ok|done|apply (ok_queues _ _ Hok)|done].
    + intros t l s1 (Hok1 & Hr1 & [Hnin Hnd]%NoDup_cons & Hin).
      assert (t ∈ active s1) as Ht by (apply Hin; left).
      eapply returns_impl; [apply pause_ok; [done|by left|by rewrite Hr1; apply not_elem_of_nil]|].
      intros s2 (Hok2 & Hr2 & Hk). split_and!; [done|congruence|done|].
      intros x Hx. apply Hk; [congruence|apply Hin; by right].
  - intros s1 Hok1. apply safe_read.
    eapply returns_safe; [eapply (returns_forEach _ _ (fun l s' => engine_ok s' /\
      forall x, x ∈ l -> x ∈ waiting s'))|by intros s' [? _]]; [done|].
    intros t l s2 (Hok2 & Hin). apply returns_run. split.
    + apply pauseWaiting_ok; [done|]. apply Hin. left.
    + intros x Hx. unfold pauseWaiting. destruct (is_state Waiting t s2); apply Hin; by right.
Qed.

Lemma unpauseAll_ok s : engine_ok s -> engine_ok (unpauseAll s).
Proof.
  intros Hok. unfold unpauseAll. apply schedule_ok. cbn [waiting with_moving].
  set (s1 := with_moving _ s). assert (engine_ok s1) as Hok1 by by apply resumeAll_ok.
  apply (foldl_inv (fun s t => unpauseWaiting t s)
    (fun _ s' => engine_ok s' /\ waiting s' = waiting s)); [done|].
  intros _ t s2 Hin [Hok2 Ew]. unfold unpauseWaiting, is_state.
  case_bool_decide as Hs; simpl; [|done]. case_bool_decide as Hm; simpl; [done|].
  split; [|done]. apply change_queued_ok; try done; [by rewrite Ew|by left].
Qed.

Lemma enterMove_but t m s :
  engine_ok s -> find (gidOf t s) (moving s) = None -> disk s = true ->
  engine_but (eq (gidOf t s)) (with_moving (put (gidOf t s) m (moving s)) s).
Proof.
  intros [Hq Hp Ht Hm Hmv] Hf Hd. pose proof (moving_sorted s Hm) as Hs. split.
  - by eapply queues_frame.
  - by eapply pending_frame.
  - intros x. by apply (task_frame s).
  - destruct Hm as [H1 H2 H3 H4]. split; simpl; [auto with aria2|done| |done].
    intros x Hx. destruct (H3 x Hx) as (? & m' & Hm' & ?). split; [done|]. exists m'.
    split; [|done]. rewrite find_put_ne; [done|done|]. intros E. view. congruence.
  - intros g m' Hne. simpl. intros [[-> ->]|[_ Hf']]%find_put_inv; [done| |done].
    exact (Hmv g m' (fun F => F) Hf').
Qed.

Lemma relocate_ok t dir_ s :
  engine_ok s -> listed t s -> t ∉ retiring s -> disk s = true ->
  safe (relocate stopsNow relocation t dir_) s.
Proof.
  intros Hok Hl Hr Hd. pose proof (ok_queues _ _ Hok) as Hq.
  pose proof (moving_sorted s (ok_moving _ _ Hok)) as Hsm. unfold relocate. do 2 apply safe_read.
  destruct (find (gidOf t s) (moving s)) as [m|] eqn:Hf; [by apply guard_throw|].
  destruct (relocation t dir_ s) as [moves|]; [|by apply guard_throw]. apply safe_read.
  change (state (heap s t)) with (stateOf t s).
  destruct (stateOf t s) eqn:Hs; try by apply guard_throw.
  - do 2 apply safe_run_then. assert (t ∈ waiting s) as Hw
      by (apply listed_waiting; [done..|]; rewrite Hs; by left).
    set (s1 := update t (set_state Paused) s).
    assert (engine_ok s1) as Hok1 by (apply change_queued_ok; try done; by right).
    assert (gidOf t s1 = gidOf t s) as Hg by (subst s1; view; at_address t t; [done|congruence]).
    eapply (returns_safe _ (with_moving (put (gidOf t s) (mkMove dir_ true false) (moving s)) s1));
      [eapply moveFilesOf_ok; [|exact Hw| |..]|by intros s' [? _]].
    + pose proof (enterMove_but t (mkMove dir_ true false) s1 Hok1) as Hbut.
      change (gidOf t (with_moving _ s1)) with (gidOf t s1). rewrite Hg in *. by apply Hbut.
    + subst s1. view. at_address t t; [done|congruence].
    + change (gidOf t (with_moving _ s1)) with (gidOf t s1). rewrite Hg. by apply find_put_eq.
    + done.
  - apply safe_run_then. assert (t ∈ active s) as Ha by by apply listed_active.
    destruct (stopping (heap s t)) eqn:Hst; simpl.
    + apply safe_run. pose proof (enterMove_but t (mkMove dir_ true false) s Hok Hf Hd)
        as [Hq' Hp' Ht' Hm' Hmv']. split; [done..|]. intros g m _ Hg.
      destruct (decide (gidOf t s = g)) as [<-|Hne]; [|by apply Hmv'].
      simpl in Hg. rewrite find_put_eq in Hg by done. simplify_eq. by exists t.
    + eapply returns_safe; [apply stopTask_ok_gen|by intros s' [? _]].
      * exact (enterMove_but t _ s Hok Hf Hd).
      * done.
      * done.
      * by left.
      * intros m Hm. simpl in Hm.
        change (gidOf t (with_moving _ s)) with (gidOf t s) in Hm.
        rewrite find_put_eq in Hm by done. by simplify_eq.
  - apply safe_run_then. assert (t ∈ waiting s) as Hw
      by (apply listed_waiting; [done..|]; rewrite Hs; by right).
    eapply returns_safe; [eapply moveFilesOf_ok; [|done|done| |]|by intros s' [? _]].
    + exact (enterMove_but t _ s Hok Hf Hd).
    + by apply find_put_eq.
    + done.
Qed.

Lemma elem_of_jobs x t (l : list (Z * list (string * string))) :
  x ∈ (filter (fun job => job.1 <> t) l).*1 <-> x <> t /\ x ∈ l.*1.
Proof.
  rewrite !list_elem_of_fmap. setoid_rewrite list_elem_of_filter. naive_solver.
Qed.

Lemma endMove_ok t s :
  engine_ok s -> t ∈ (fileMoves s).*1 ->
  engine_ok (with_moving (erase (gidOf t s) (moving s)) (endFileMove t s)).
Proof.
  intros [Hq Hp Ht Hm Hmv] Hj. pose proof (moving_sorted s Hm) as Hs.
  destruct (jobs_move s Hm t Hj) as (Hw & _).
  assert (forall x, x ∈ waiting s -> gidOf t s = gidOf x s -> t = x) as Hinj
    by (intros x Hx; apply (listed_gid_inj s); unfold listed; auto).
  split.
  - by eapply queues_frame.
  - by eapply pending_frame.
  - intros x. by apply (task_frame s).
  - destruct Hm as [H1 H2 H3 H4]. split; simpl; [auto with aria2|..].
    + eapply sublist_NoDup; [exact H2|]. apply fmap_sublist, sublist_filter.
    + intros x [Hne Hx]%elem_of_jobs. destruct (H3 x Hx) as (Hxw & m & Hf & ?).
      split; [done|]. exists m. split; [|done]. rewrite find_erase_ne; [done|done|].
      intros E. apply Hne. symmetry. by apply Hinj.
    + intros Hne. apply H4. intros E. by rewrite E in Hne.
  - intros g m _. simpl. intros [Hne Hf]%find_erase_inv; [|done].
    destruct (Hmv g m (fun F => F) Hf) as (x & Hg & Hx). exists x. split; [done|]. simpl.
    destruct (moveStarted m); [|done]. rewrite elem_of_jobs. assert (x <> t) by congruence. tauto.
Qed.

Lemma filesMoved_ok t error s :
  engine_ok s -> t ∈ (fileMoves s).*1 -> safe (run (endFileMove t) ;; filesMoved t error) s.
Proof.
  intros Hok Hj. destruct (jobs_move s (ok_moving _ _ Hok) t Hj) as (Hw & m & Hf & _).
  pose proof (endMove_ok t s Hok Hj) as Hok1.
  apply safe_run_then. unfold filesMoved. apply safe_read.
  change (find (gidOf t (endFileMove t s)) (moving (endFileMove t s)))
    with (find (gidOf t s) (moving s)). rewrite Hf. apply safe_run_then.
  set (s1 := with_moving _ (endFileMove t s)) in *.
  apply (safe_then _ _ _ (fun s' => engine_ok s' /\ waiting s' = waiting s)).
  { case_bool_decide; apply returns_run; [|done]. split; [|done].
    apply change_queued_ok; try done. by apply (waiting_state _ _ (ok_queues _ _ Hok1)). }
  intros s2 [Hok2 Ew]. apply (safe_then _ _ _ engine_ok).
  { destruct (resume m); apply returns_run; [|done]. apply unpause_ok; [done|].
    right; left. by rewrite Ew. }
  intros s3 Hok3. apply safe_run. by eapply engine_frame.
Qed.

Lemma shutdown_ok force s :
  engine_ok s -> retiring s = [] ->
  returns (shutdown stopsNow relocation force) s (fun s' => engine_ok s' /\ retiring s' = []).
Proof.
  intros Hok Hr. unfold shutdown. do 2 apply returns_read.
  destruct (shuttingDown s && _); [by apply returns_run|].
  do 2 apply returns_run_then. apply returns_read. simpl.
  set (s1 := with_forceShutdown _ _).
  assert (engine_ok s1) as Hok1 by (by eapply engine_frame).
  destruct (active s) as [|t0 l0] eqn:Ha.
  - apply returns_run. assert (retiring (post RunFinishShutdown s1) = retiring s) as Er.
    { etrans; [apply retiring_post|]. apply app_nil_r. }
    split; [|congruence]. eapply engine_frame; [exact Hok1|done..|exact Er|].
    simpl. intros t v Hin. apply elem_of_app in Hin as [?|Hin]; [done|].
      by apply list_elem_of_singleton in Hin.
  - rewrite <- Ha. eapply returns_impl; [eapply (returns_forEach _ _ (fun l s' => engine_ok s' /\
      retiring s' = [] /\ NoDup l /\ forall x, x ∈ l -> x ∈ active s'))|by intros s' (? & ? & _)].
    + split_and!; [done|done|apply (ok_queues _ _ Hok)|done].
    + intros t l s2 (Hok2 & Hr2 & [Hnin Hnd]%NoDup_cons & Hin).
      assert (t ∈ active s2) as Ht by (apply Hin; left). apply returns_read.
      destruct (negb (stopping (heap s2 t)) || force); simpl.
      * eapply returns_impl;
          [apply stopTask_ok; [done|done|by rewrite Hr2; apply not_elem_of_nil|by right; left]|].
        intros s3 (Hok3 & Hr3 & Hk). split_and!; [done|congruence|done|].
        intros x Hx. apply Hk; [congruence|apply Hin; by right].
      * apply returns_run. split_and!; [done..|]. intros x Hx. apply Hin. by right.
Qed.

Lemma stops_ok t s :
  engine_ok s ->
  safe (get found := fun s => find t (stops s) in
        match found with
        | Some next =>
            run (fun s => with_stops (erase t (stops s)) s) ;; stopDone relocation t next
        | None => skip
        end) s.
Proof.
  intros Hok. pose proof Hok as [Hq Hp Ht Hm Hmv]. pose proof (stops_sorted s Hp) as Hs.
  apply safe_read. destruct (find t (stops s)) as [next|] eqn:Hf; [|by apply safe_run].
  destruct (stops_active s t (Ht t) next Hf) as (Ha & Hst & Hn). apply safe_run_then.
  eapply returns_safe; [apply stopDone_ok; [|done]|by intros s' [? _]]. split; try done.
  - by eapply queues_frame.
  - destruct Hp. split; simpl; auto with aria2.
  - intros Hr. apply (retiring_active s t (Ht t)) in Hr as [_ ?]. congruence.
  - simpl. by apply find_erase_eq.
  - intros x Hne. apply (task_frame s); try done. simpl. apply find_erase_ne; [done|congruence].
  - by apply (moving_frame s).
  - intros g m _ Hg. by apply (move_frame s); auto.
  - intros m. exact (active_move_waits t m s Hok Ha).
Qed.
End stopping.

(** ** Lemmas: the queues as lists *)

Section lists.
Implicit Types (s : engine) (t x g : Z).

Lemma unlisted_idle t s :
  engine_ok s -> ~ listed t s -> (t ∉ retiring s) /\ find t (stops s) = None /\ t ∉ (fileMoves s).*1.
Proof.
  intros Hok Hl. unfold listed in Hl. split_and!.
  - intros Hr. apply (retiring_active s t (ok_tasks _ _ Hok t)) in Hr as [? _]. tauto.
  - destruct (find t (stops s)) eqn:Hf; [|done].
    apply (stops_active s t (ok_tasks _ _ Hok t)) in Hf as [? _]. tauto.
  - intros Hj. apply (jobs_move s (ok_moving _ _ Hok)) in Hj as [? _]. tauto.
Qed.

(** An object that no queue knows may be anything. *)
Lemma insert_heap_ok t v s :
  engine_ok s -> ~ listed t s -> stopping v = false ->
  engine_ok (with_heap (<[t := v]> (heap s)) s).
Proof.
  intros Hok Hl Hv. pose proof (unlisted_idle t s Hok Hl) as (Hr & Hst & Hj).
  destruct Hok as [[Ha Hw Hs Sa Sw Ss Ho Hts Hf] Hp Ht Hm Hmv]. unfold listed in *.
  assert (forall x, x <> t -> heap (with_heap (<[t := v]> (heap s)) s) x = heap s x) as Hh
    by (intros x Hne; simpl; by apply fn_lookup_insert_ne).
  split.
  - split; unfold listed, stateOf, gidOf; try done.
    + intros x Hx. rewrite Hh by (intros ->; simpl in *; tauto). by apply Sa.
    + intros x Hx. rewrite Hh by (intros ->; simpl in *; tauto). by apply Sw.
    + intros x Hx. rewrite Hh by (intros ->; simpl in *; tauto). by apply Ss.
    + intros g x. rewrite Hf. destruct (decide (x = t)) as [->|Hne]; [simpl in *; tauto|].
      by rewrite Hh.
  - by eapply pending_frame.
  - intros x. destruct (decide (x = t)) as [->|Hne].
    + apply task_idle; [done..|]. simpl. by rewrite fn_lookup_insert.
    + apply (task_frame s); try done. by rewrite Hh.
  - destruct Hm as [H1 H2 H3 H4]. split; try done. intros x Hx. unfold gidOf.
    rewrite Hh by (intros ->; done). by apply H3.
  - intros g m Hsk Hg. destruct (Hmv g m Hsk Hg) as (x & Hgx & Hx). exists x.
    assert (x <> t) by (intros ->; destruct (moveStarted m); tauto).
    unfold gidOf, stateOf in *. by rewrite !Hh.
Qed.

Lemma enter_out t s :
  queues_ok s -> ~ listed t s -> find (gidOf t s) (tasks s) = None ->
  queues_but (eq t) (with_tasks (put (gidOf t s) t (tasks s)) s).
Proof.
  intros [Ha Hw Hs Sa Sw Ss Ho Hts Hf] Hl Hnone. split; view; try done.
  - by intros x <-.
  - auto with aria2.
  - intros g x. split.
    + intros [[-> ->]|[Hne Hx]]%find_put_inv; [tauto| |done]. apply Hf in Hx. tauto.
    + intros [[Hx| <-] Hg].
      * assert (find g (tasks s) = Some x) as Hfx by (apply Hf; tauto).
        rewrite find_put_ne; [done|done|]. congruence.
      * rewrite <- Hg. by apply find_put_eq.
Qed.

Lemma insertAt_perm n t l : insertAt n t l ≡ₚ t :: l.
Proof. unfold insertAt. by rewrite <- Permutation_middle, take_drop. Qed.

Lemma add_ok t position s :
  engine_ok s -> ~ listed t s -> find (gidOf t s) (tasks s) = None ->
  stopping (heap s t) = false -> engine_ok (add t position s).
Proof.
  intros Hok Hl Hnone Hstop. pose proof (unlisted_idle t s Hok Hl) as (Hr & Hst & Hj).
  unfold add. apply schedule_ok. set (v := if pauseOption _ then Paused else Waiting).
  set (s1 := update t (set_pauseOption false) _).
  assert (queues_but (eq t) s1) as Hout.
  { do 2 (apply change_out; [|done]). apply enter_out; [by apply (ok_queues _ _ Hok)|done..]. }
  assert (forall x, gidOf x s1 = gidOf x s) as Hg by (intros x; subst s1; view; by at_address t x).
  assert (forall x, stopping (heap s1 x) = stopping (heap s x)) as Hs
    by (intros x; subst s1; view; by at_address t x).
  assert (stateOf t s1 = v) as Hv by (subst s1; view; at_address t t; [done|congruence]).
  destruct Hok as [Hq Hp Ht Hm Hmv]. split.
  - apply (join_waiting t); [done| |apply insertAt_perm]. rewrite Hv. subst v.
    destruct (pauseOption _); [by right|by left].
  - by eapply pending_frame.
  - intros x. destruct (decide (x = t)) as [->|Hne].
    + apply task_idle; [done..|]. exact (eq_trans (Hs t) Hstop).
    + apply (task_frame s); try done; [|apply Hs]. simpl. rewrite insertAt_perm, elem_of_cons. tauto.
  - apply (moving_frame s); try done. intros x _ Hx. simpl. rewrite insertAt_perm. by right.
  - intros g m Hsk Hgm. apply (move_frame s); try done; [exact (Hmv g m Hsk Hgm)|..].
    + intros x Hx Hxs Hxj. split; [simpl; rewrite insertAt_perm; by right|].
      assert (x <> t) by congruence. subst s1. view. by at_address t x.
    + intros x Hx Hxs. split; [done|]. exact (eq_trans (Hs x) Hxs).
Qed.

Lemma indexOf_Some t l i : indexOf t l = Some i -> l ≡ₚ t :: delete i l /\ l !! i = Some t.
Proof.
  revert i. induction l as [|x l IH]; intros i; simpl; [done|].
  destruct (Z.eqb_spec x t) as [->|Hne]; [by intros [= <-]|].
  intros (j & Hj & ->)%fmap_Some. destruct (IH j Hj) as [Hp Hl]. split; [|done].
  simpl. rewrite Hp at 1. apply Permutation_swap.
Qed.

Lemma indexOf_None t l : indexOf t l = None <-> t ∉ l.
Proof.
  induction l as [|x l IH]; simpl; [split; [intros _; apply not_elem_of_nil|done]|].
  rewrite not_elem_of_cons. destruct (Z.eqb_spec x t) as [->|Hne]; [naive_solver|].
  rewrite fmap_None, IH. naive_solver.
Qed.

(** [stopped_] loses results that no list of the loop refers to. *)
Lemma results_ok s d m :
  engine_ok s -> queues_ok (with_stopped d (with_tasks m s)) -> (forall x, x ∈ d -> x ∈ stopped s) ->
  engine_ok (with_stopped d (with_tasks m s)).
Proof.
  intros [Hq Hp Ht Hm Hmv] Hq' Hd. split; [done|..].
  - by eapply pending_frame.
  - intros x. apply (task_frame s); try done. simpl. intros [?|?]; auto.
  - by apply (moving_frame s).
  - intros g mv Hsk Hg. exact (Hmv g mv Hsk Hg).
Qed.

Lemma removeResult_ok g s : engine_ok s -> engine_ok (removeResult g s).2.
Proof.
  intros Hok. unfold removeResult.
  destruct (list_find _ (stopped s)) as [[i t]|] eqn:Hf; [|done]. simpl.
  apply list_find_Some in Hf as (Hi & Hg & _).
  apply results_ok; [done| |].
  - pose proof (leave_stopped t s (delete i (stopped s)) (ok_queues _ _ Hok)
      (delete_Permutation _ _ _ Hi)) as Hout.
    apply forget_out in Hout. change (gidOf t (with_stopped _ s)) with (gidOf t s) in Hout.
    rewrite Hg in Hout. exact Hout.
  - intros x Hx. rewrite (delete_Permutation _ _ _ Hi). by right.
Qed.

Lemma purgeResults_ok s : engine_ok s -> engine_ok (purgeResults s).
Proof.
  intros Hok. unfold purgeResults, eraseTasks. apply results_ok; [done| |].
  - by apply (drop_results [] (stopped s) s (ok_queues _ _ Hok)).
  - intros x Hx. by apply elem_of_nil in Hx.
Qed.

Lemma move_to_ok t offset how s : engine_ok s -> engine_ok (move t offset how s).2.
Proof.
  intros Hok. unfold move. destruct (indexOf t (waiting s)) as [i|] eqn:Hi; [|done]. simpl.
  apply indexOf_Some in Hi as [Hp _]. set (l := insertAt _ _ _).
  assert (l ≡ₚ waiting s) as Hl by (subst l; by rewrite insertAt_perm, <- Hp).
  destruct Hok as [Hq Hpd Ht Hm Hmv]. split.
  - destruct Hq as [Ha Hw Hs Sa Sw Ss Ho Hts Hf]. split; view; try done.
    + by rewrite Hl.
    + intros x. rewrite Hl. auto.
    + intros g x. by rewrite Hf, Hl.
  - by eapply pending_frame.
  - intros x. apply (task_frame s); try done. simpl. by rewrite Hl.
  - apply (moving_frame s); try done. intros x _. simpl. by rewrite Hl.
  - intros g m Hsk Hg. apply (move_frame s); try done; [exact (Hmv g m Hsk Hg)|].
    intros x Hx Hs _. split; [simpl; by rewrite Hl|done].
Qed.

Lemma requeue_ok t s : engine_ok s -> safe (requeue t) s.
Proof.
  intros Hok. unfold requeue. apply safe_read.
  destruct (indexOf t (stopped s)) as [i|] eqn:Hi; [|by apply guard_throw].
  apply indexOf_Some in Hi as [Hp Hi]. do 4 apply safe_run_then. apply safe_run, schedule_ok.
  assert (t ∈ stopped s) as Hd by by eapply list_elem_of_lookup_2.
  pose proof Hok as [Hq Hpd Ht Hm Hmv].
  assert (t ∉ active s) as Hna by (intros Ha; by apply (active_not_stopped _ s t Hq) in Ha).
  assert (t ∉ waiting s) as Hnw by (intros Ha; by apply (waiting_not_stopped _ s t Hq) in Ha).
  set (s1 := update t (set_error codeFinished "") (update t (set_state Waiting)
    (with_stopped (delete i (stopped s)) s))).
  change (engine_but _ _) with (engine_ok (with_waiting (waiting s ++ [t]) s1)).
  assert (forall x, gidOf x s1 = gidOf x s) as Hg by (intros x; subst s1; view; by at_address t x).
  assert (forall x, stopping (heap s1 x) = stopping (heap s x)) as Hs
    by (intros x; subst s1; view; by at_address t x).
  split.
  - apply (join_waiting t); [do 2 (apply change_out; [|done]); by apply leave_stopped| |].
    + left. subst s1. view. at_address t t; [done|congruence].
    + simpl. by rewrite Permutation_app_comm.
  - by eapply pending_frame.
  - intros x. apply (task_frame s); try done; [|apply Hs]. simpl.
    rewrite elem_of_app, list_elem_of_singleton. intros [[?| ->]|Hx]; auto. right. rewrite Hp. by right.
  - apply (moving_frame s); try done. intros x _ Hx. simpl. apply elem_of_app. by left.
  - intros g m Hsk Hgm. apply (move_frame s); try done; [exact (Hmv g m Hsk Hgm)|..].
    + intros x Hx Hxs Hxj. simpl. split; [apply elem_of_app; by left|].
      assert (x <> t) by congruence. subst s1. view. by at_address t x.
    + intros x Hx Hxs. split; [done|]. exact (eq_trans (Hs x) Hxs).
Qed.
End lists.

(** ** Lemmas: starting and ending *)

Section running.
Context (start : Z -> engine -> option (Z * string))
  (stopsNow : Z -> bool -> engine -> bool)
  (relocation : Z -> string -> engine -> option (list (string * string)))
  (follow : Z -> engine -> list (Z * Task)).
Implicit Types (s : engine) (t x g : Z).

(** A task that runs and may report its end. *)
Definition runs t s : Prop := t ∈ active s /\ stopping (heap s t) = false /\ t ∉ retiring s.

(** A change of what the invariant does not mention. *)
Lemma change_other_ok t f s :
  engine_ok s -> (forall d, gid (f d) = gid d) -> (forall d, state (f d) = state d) ->
  (forall d, stopping (f d) = stopping d) -> engine_ok (update t f s).
Proof.
  intros [Hq Hp Ht Hm Hmv] Fg Fs Fst.
  assert (forall x, gidOf x (update t f s) = gidOf x s) as Hg
    by (intros x; view; at_address t x; by rewrite ?Fg).
  assert (forall x, stateOf x (update t f s) = stateOf x s) as Hs
    by (intros x; view; at_address t x; by rewrite ?Fs).
  assert (forall x, stopping (heap (update t f s) x) = stopping (heap s x)) as Hst
    by (intros x; view; at_address t x; by rewrite ?Fst).
  split.
  - by apply change_flags.
  - by eapply pending_frame.
  - intros x. by apply (task_frame s).
  - by apply (moving_frame s).
  - intros g m Hsk Hf. apply (move_frame s); try done; [exact (Hmv g m Hsk Hf)|..].
    + intros x Hx Hxs _. split; [done|]. by rewrite Hs.
    + intros x Hx Hxs. split; [done|]. by rewrite Hst.
Qed.

Lemma change_error_ok t code message s :
  engine_ok s -> engine_ok (update t (set_error code message) s).
Proof. intros Hok. by apply change_other_ok. Qed.

Lemma change_counts_ok t v s : engine_ok s -> engine_ok (update t (set_counts v) s).
Proof. intros Hok. by apply change_other_ok. Qed.

Lemma post_retire_ok t v s :
  engine_ok s -> runs t s -> isFinal v -> engine_ok (post (RunRetire t v) s).
Proof.
  intros [Hq Hp Ht Hm Hmv] (Ha & Hst & Hr) Hv.
  assert (retiring (post (RunRetire t v) s) = retiring s ++ [t]) as Hret
    by apply retiring_post.
  split.
  - by eapply queues_frame.
  - destruct Hp as [H1 H2 H3]. split; [rewrite Hret|..|done].
    + apply NoDup_app. split_and!; [done|set_solver|apply NoDup_singleton].
    + simpl. intros x w Hin. apply elem_of_app in Hin as [Hin|Hin]; [by eapply H2|].
      apply list_elem_of_singleton in Hin. by simplify_eq.
  - intros x. destruct (Ht x) as [H1 H2 H3 H4]. split; try done. rewrite Hret.
    intros Hin. apply elem_of_app in Hin as [Hin|Hin]; [by apply H1|].
    apply list_elem_of_singleton in Hin as ->. done.
  - by apply (moving_frame s).
  - intros g m Hsk Hf. exact (Hmv g m Hsk Hf).
Qed.

Lemma taskFailed_ok t code message s :
  engine_ok s -> runs t s -> engine_ok (taskFailed t code message s).
Proof.
  intros Hok (Ha & Hst & Hr). unfold taskFailed.
  apply post_retire_ok; [|split_and!; try done|by right; left].
  - eapply engine_frame; [by apply (change_error_ok t code message)|done..].
  - view. at_address t t; [done|congruence].
Qed.

Lemma startOrFail_ok t s : engine_ok s -> runs t s -> engine_ok (startOrFail start t s).
Proof.
  intros Hok Hr. unfold startOrFail. destruct (start t s) as [[code message]|]; [|done].
  by apply taskFailed_ok.
Qed.

Lemma startTask_ok t w s :
  engine_ok s -> waiting s ≡ₚ t :: w -> stateOf t s = Waiting ->
  engine_ok (startTask start t (with_waiting w s)).
Proof.
  intros Hok Hp Hs. assert (t ∈ waiting s) as Hw by (rewrite Hp; left).
  pose proof Hok as [Hq Hpd Ht Hm Hmv].
  assert (t ∉ active s) as Hna by (intros Ha; by apply (active_not_waiting _ s t Hq) in Ha).
  assert (t ∉ retiring s) as Hnr
    by (intros Hr; by apply (retiring_active s t (Ht t)) in Hr as [? _]).
  assert (stopping (heap s t) = false) as Hstop
    by (apply (idle_not_stopping s t (Ht t)); by left).
  unfold startTask. set (s1 := update t (set_state Active) (with_waiting w s)).
  assert (forall x, gidOf x s1 = gidOf x s) as Hg by (intros x; subst s1; view; by at_address t x).
  assert (forall x, stopping (heap s1 x) = stopping (heap s x)) as Hst
    by (intros x; subst s1; view; by at_address t x).
  assert (forall x, x ∈ w -> x ∈ waiting s) as Hsub by (intros x Hx; rewrite Hp; by right).
  assert (forall x, x ∈ waiting s -> x <> t -> x ∈ w) as Hback.
  { intros x Hx Hne. rewrite Hp in Hx. by apply elem_of_cons in Hx as [?|?]. }
  apply startOrFail_ok; [apply (engine_frame _ (with_active (active s ++ [t]) s1)); [|done..]|].
  - split.
    + apply (join_active t); [apply change_out; [by apply leave_waiting|done]| |].
      * subst s1. view. at_address t t; [done|congruence].
      * simpl. by rewrite Permutation_app_comm.
    + by eapply pending_frame.
    + intros x. destruct (decide (x = t)) as [->|Hne].
      * apply task_idle; [done| |exact (eq_trans (Hst t) Hstop)]. simpl.
        destruct (find t (stops s)) eqn:E; [|done].
        by apply (stops_active s t (Ht t)) in E as [? _].
      * apply (task_frame s); try done; [..|apply Hst]; simpl.
        -- rewrite elem_of_app, list_elem_of_singleton. naive_solver.
        -- naive_solver.
    + apply (moving_frame s); try done. intros x Hj Hx. simpl. apply Hback; [done|].
      intros ->. destruct (jobs_move s Hm t Hj) as (_ & m & Hf & Hms).
      destruct (Hmv _ m (fun F => F) Hf) as (x & Hgx & Hxs). rewrite Hms in Hxs.
      destruct Hxs as (Hxw & Hxp & _).
      assert (t = x) as <- by (apply (listed_gid_inj s); unfold listed; auto). congruence.
    + intros g m Hsk Hf. apply (move_frame s); try done; [exact (Hmv g m Hsk Hf)|..].
      * intros x Hx Hxs _. assert (x <> t) by congruence. split; [by apply Hback|].
        subst s1. view. by at_address t x.
      * intros x Hx Hxs. simpl. split; [apply elem_of_app; by left|].
        exact (eq_trans (Hst x) Hxs).
  - split_and!; simpl; [apply elem_of_app; right; left|exact (eq_trans (Hst t) Hstop)|done].
Qed.

Lemma fillLoop_ok fuel i limit s : engine_ok s -> engine_ok (fillLoop start fuel i limit s).
Proof.
  revert i s. induction fuel as [|fuel IH]; intros i s Hok; simpl; [done|].
  destruct (waiting s !! i) as [t|] eqn:Hi; [|done]. destruct (activeCount s <? limit); [|done].
  unfold is_state. case_bool_decide as Hs; [|by apply IH]. apply IH.
  apply startTask_ok; [done|by apply delete_Permutation|done].
Qed.

Lemma no_active_no_retiring s : engine_ok s -> active s = [] -> retiring s = [].
Proof.
  intros Hok Ha. destruct (retiring s) as [|t l] eqn:Hr; [done|].
  destruct (retiring_active s t (ok_tasks _ _ Hok t)) as [Hin _]; [rewrite Hr; left|].
  rewrite Ha in Hin. by apply elem_of_nil in Hin.
Qed.

Lemma fill_ok s : engine_ok s -> safe (fill start stopsNow relocation) s.
Proof.
  intros Hok. unfold fill. apply safe_read. destruct (negb (shuttingDown s)); [|by apply safe_run].
  apply safe_run_then, safe_read. set (s1 := fillLoop _ _ _ _ _).
  assert (engine_ok s1) as Hok1 by by apply fillLoop_ok.
  destruct (bool_decide (active s1 = []) && _ && _) eqn:E; [|by apply safe_run].
  apply andb_prop in E as [[E%bool_decide_eq_true _]%andb_prop _].
  eapply returns_safe;
    [apply shutdown_ok; [done|by apply no_active_no_retiring]|by intros s' [? _]].
Qed.

Lemma insert_perm (l : list Z) (i : nat) c n :
  NoDup l -> l !! i = Some c -> <[i := n]> l ≡ₚ n :: removeAll c l.
Proof.
  intros Hnd Hi. pose proof (removeAll_perm c l Hnd (list_elem_of_lookup_2 _ _ _ Hi)) as Hp.
  pose proof (lookup_lt_Some _ _ _ Hi). rewrite insert_take_drop by done.
  rewrite <- (take_drop_middle l i c Hi) in Hp at 1.
  rewrite <- Permutation_middle in Hp. rewrite <- Permutation_middle. apply Permutation_cons_inv in Hp. by rewrite Hp.
Qed.

(** The state of [handOver] before the new task starts. *)
Definition handed (current next : Z) (i : nat) s : engine :=
  update current (set_state Removed)
    (update next (set_origin (following (heap s current)) (belongsTo (heap s current)))
      (update next (set_state Active)
        (with_tasks (put (gidOf next s) next (tasks s))
          (with_active (<[i := next]> (active s)) s)))).

Lemma handed_queues c n i s :
  queues_ok s -> active s !! i = Some c -> ~ listed n s -> gidOf n s = gidOf c s ->
  queues_ok (handed c n i s).
Proof.
  intros Hq Hi Hn Hg. pose proof (list_elem_of_lookup_2 _ _ _ Hi) as Hc.
  assert (c <> n) as Hne by (intros ->; apply Hn; by left).
  pose proof (tasks_sorted _ _ Hq) as Hts. pose proof (active_nodup _ _ Hq) as Hnd.
  pose proof (leave_active c s Hq Hc) as H1.
  apply (change_out c (set_state Removed)) in H1; [|done].
  apply forget_out, (enter_out n) in H1; revert H1.
  - intros H1. apply (change_out n (set_state Active)) in H1; [|done].
    apply (join_active n _ (<[i := n]> (active s))) in H1; revert H1.
    + intros H1. eapply queues_frame; [exact H1|done..| | |]; simpl.
      * unfold handed, gidOf, update. simpl.
        rewrite fn_lookup_alter_ne, fn_lookup_alter by done.
        unfold gidOf in Hg. simpl. by rewrite Hg, put_erase.
      * intros x. unfold handed. view. repeat (case_decide; simpl); congruence.
      * intros x. unfold handed. view. repeat (case_decide; simpl); congruence.
    + intros _. view. at_address n n; [done|congruence].
    + intros _. simpl. by apply insert_perm.
  - intros _. unfold listed in *. simpl. rewrite elem_of_removeAll. tauto.
  - intros _. simpl. unfold gidOf, update. simpl. rewrite fn_lookup_alter_ne, fn_lookup_alter by done.
    simpl. unfold gidOf in Hg. rewrite Hg. by apply find_erase_eq.
Qed.

Lemma handed_ok c n i s :
  engine_ok s -> active s !! i = Some c -> stopping (heap s c) = false -> c ∉ retiring s ->
  ~ listed n s -> stopping (heap s n) = false -> gidOf n s = gidOf c s ->
  engine_ok (handed c n i s).
Proof.
  intros Hok Hi Hcs Hcr Hn Hns Hg. pose proof (unlisted_idle n s Hok Hn) as (Hnr & Hnst & Hnj).
  pose proof (list_elem_of_lookup_2 _ _ _ Hi) as Hc.
  assert (c <> n) as Hne by (intros ->; apply Hn; by left).
  destruct Hok as [Hq Hp Ht Hm Hmv].
  assert (forall x, gidOf x (handed c n i s) = gidOf x s) as Hgid
    by (intros x; unfold handed; view; repeat (case_decide; simpl); congruence).
  assert (forall x, stopping (heap (handed c n i s) x) = stopping (heap s x)) as Hst
    by (intros x; unfold handed; view; repeat (case_decide; simpl); congruence).
  assert (forall x, x ∈ active (handed c n i s) <-> x = n \/ x <> c /\ x ∈ active s) as Hact.
  { intros x. simpl. rewrite (insert_perm _ _ c) by (done || by apply (active_nodup _ _ Hq)).
    by rewrite elem_of_cons, elem_of_removeAll. }
  split.
  - by apply handed_queues.
  - by eapply pending_frame.
  - intros x. destruct (decide (x = n)) as [->|Hxn]; [|destruct (decide (x = c)) as [->|Hxc]].
    + apply task_idle; [done..|]. by rewrite Hst.
    + apply task_idle; [done| |by rewrite Hst]. simpl. destruct (find c (stops s)) eqn:E; [|done].
      apply (stops_active s c (Ht c)) in E as (_ & ? & _). congruence.
    + apply (task_frame s); try done. rewrite Hact. tauto.
  - by apply (moving_frame s).
  - intros g m Hsk Hf. apply (move_frame s); try done; [exact (Hmv g m Hsk Hf)|..].
    + intros x Hx Hxs Hxj. split; [done|].
      assert (x <> c) by (intros ->; by apply (active_not_waiting _ s c Hq) in Hc).
      assert (x <> n) by congruence.
      unfold handed, stateOf, update in *. simpl. by rewrite !fn_lookup_alter_ne.
    + intros x Hx Hxs. rewrite Hst, Hact. split; [|done]. right. split; [congruence|done].
Qed.

Lemma handOver_ok c n s :
  engine_ok s -> (c ∈ active s -> stopping (heap s c) = false /\ c ∉ retiring s) ->
  ~ listed n s -> stopping (heap s n) = false -> engine_ok (handOver start c n s).
Proof.
  intros Hok Hc Hn Hns. unfold handOver.
  destruct (indexOf c (active s)) as [i|] eqn:Hi; [|done].
  apply indexOf_Some in Hi as [_ Hi]. destruct (Z.eqb_spec (gidOf n s) (gidOf c s)) as [Hg|]; [|done].
  pose proof (list_elem_of_lookup_2 _ _ _ Hi) as Hin. destruct (Hc Hin) as [Hcs Hcr].
  pose proof (unlisted_idle n s Hok Hn) as (Hnr & _ & _).
  assert (c <> n) as Hne by (intros ->; apply Hn; by left).
  assert (heap (update n (set_state Active) (with_tasks (put (gidOf n s) n (tasks s))
    (with_active (<[i:=n]> (active s)) s))) c = heap s c) as Hhc
    by (unfold update; simpl; by rewrite fn_lookup_alter_ne).
  cbv zeta. change (gidOf n (with_active (<[i:=n]> (active s)) s)) with (gidOf n s).
  change (tasks (with_active (<[i:=n]> (active s)) s)) with (tasks s). rewrite Hhc.
  apply (startOrFail_ok n (handed c n i s)).
  - by apply handed_ok.
  - split_and!; [|unfold handed; view; repeat (case_decide; simpl); congruence|done].
    simpl. apply list_elem_of_insert. by eapply lookup_lt_Some.
Qed.

(** New downloads of a finished one: no task or GID that is known, all different. *)
Definition fresh (l : list (Z * Task)) s : Prop :=
  NoDup l.*1 /\ NoDup (gid <$> l.*2) /\
  forall t v, (t, v) ∈ l -> ~ listed t s /\ find (gid v) (tasks s) = None /\ stopping v = false.

Lemma add_kept t position s :
  active (add t position s) = active s /\ stopped (add t position s) = stopped s /\
  waiting (add t position s) ≡ₚ t :: waiting s /\ retiring (add t position s) = retiring s /\
  tasks (add t position s) = put (gidOf t s) t (tasks s) /\
  forall x, x <> t -> heap (add t position s) x = heap s x.
Proof.
  unfold add. match goal with |- context [schedule ?u] => set (s1 := u) end.
  destruct (schedule_shape s1) as (b & p & -> & Hr & _). split_and!; try done.
  - simpl. apply insertAt_perm.
  - intros x Hne. subst s1. unfold update. simpl. by rewrite !fn_lookup_alter_ne.
Qed.

Lemma follow_ok t l s :
  engine_ok s -> runs t s -> fresh l s ->
  let s' := foldl (fun s '(x, v) => add x None (with_heap (<[x := v]> (heap s)) s)) s l in
  engine_ok s' /\ runs t s'.
Proof.
  revert s. induction l as [|[x v] l IH]; intros s Hok Hr (Hnd & Hng & Hf); [done|]. simpl.
  apply NoDup_cons in Hnd as [Hx Hnd]. apply NoDup_cons in Hng as [Hg Hng].
  destruct (Hf x v) as (Hl & Hnone & Hstop); [left|].
  set (s1 := with_heap (<[x:=v]> (heap s)) s).
  assert (gidOf x s1 = gid v) as Hgx by (subst s1; unfold gidOf; simpl; by rewrite fn_lookup_insert).
  destruct Hr as (Ha & Hst & Hret). assert (t <> x) as Htx by (intros ->; apply Hl; by left).
  destruct (add_kept x None s1) as (Ea & Es & Ew & Er & Et & Eh). apply IH.
  - apply add_ok; [by apply insert_heap_ok|done|by rewrite Hgx|].
    subst s1. simpl. by rewrite fn_lookup_insert.
  - split_and!; [by rewrite Ea|rewrite Eh by done; subst s1; simpl; by rewrite fn_lookup_insert_ne|].
    by rewrite Er.
  - split_and!; [done..|]. intros y w Hin. destruct (Hf y w) as (Hly & Hny & Hsy); [by right|].
    split_and!; [|rewrite Et, Hgx|done].
    + unfold listed in *. rewrite Ea, Es, Ew, elem_of_cons. intros [?|[[->|?]|?]]; try tauto.
      apply Hx, list_elem_of_fmap. by exists (x, w).
    + rewrite find_put_ne; [done|apply (tasks_sorted _ _ (ok_queues _ _ Hok))|].
      intros E. apply Hg. simpl. rewrite E. apply list_elem_of_fmap. exists w. split; [done|].
      apply list_elem_of_fmap. by exists (y, w).
Qed.

Lemma taskCompleted_ok t s :
  engine_ok s -> runs t s -> fresh (follow t (update t (set_error codeFinished "") s)) s ->
  engine_ok (taskCompleted follow t s).
Proof.
  intros Hok (Ha & Hst & Hr) (Hn1 & Hn2 & Hf). unfold taskCompleted.
  set (s1 := update t (set_error codeFinished "") s) in *.
  assert (engine_ok s1) as Hok1 by by apply change_error_ok.
  destruct (follow_ok t (follow t s1) s1) as [Hok2 Hr2]; [done|..|split_and!; [done..|]|].
  - split_and!; [done|subst s1; view; at_address t t; [done|congruence]|done].
  - exact Hf.
  - apply post_retire_ok; [done..|by left].
Qed.

Lemma runNext_ok s :
  engine_ok s ->
  (forall c n v, head (posted s) = Some (RunHandOver c n v) ->
     ~ listed n s /\ stopping v = false /\
     (c ∈ active s -> stopping (heap s c) = false /\ c ∉ retiring s)) ->
  safe (runNext start stopsNow relocation) s.
Proof.
  intros Hok Hh. unfold runNext. apply safe_read. destruct (posted s) as [|h rest] eqn:Hp;
    [by apply safe_run|]. apply safe_run_then.
  assert (retiring s = match h with RunRetire t _ => [t] | _ => [] end ++
    retiring (with_posted rest s)) as Hr by (unfold retiring; rewrite Hp; by destruct h).
  assert ((forall t v, h <> RunRetire t v) -> engine_ok (with_posted rest s)) as Hpop.
  { intros Hne. eapply engine_frame; [exact Hok|done..| |].
    - rewrite Hr. destruct h; try done. by destruct (Hne t final).
    - intros t v Hin. rewrite Hp. by right. }
  destruct h as [|t final| |c n v].
  - apply safe_run_then, fill_ok. eapply engine_frame; [by apply Hpop|done..].
  - apply safe_run. destruct Hok as [Hq Hpd Ht Hm Hmv]. simpl in Hr.
    pose proof (retiring_nodup s Hpd) as Hnd. rewrite Hr in Hnd. apply NoDup_cons in Hnd as [Hnin Hnd].
    destruct (retiring_active s t (Ht t)) as [Ha Hst]; [rewrite Hr; left|].
    apply retire_ok_gen.
    + left. split; [by eapply queues_frame|done].
    + apply (retiring_final s Hpd t). rewrite Hp. left.
    + destruct Hpd as [_ H2 H3]. split; [done| |done]. intros x w Hin. apply (H2 x w).
      rewrite Hp. by right.
    + by apply (moving_frame s).
    + intros g m Hsk Hf. exact (Hmv g m Hsk Hf).
    + intros x Hne. apply (task_frame s); try done. rewrite Hr. intros Hin. by right.
    + done.
    + done.
    + simpl. destruct (find t (stops s)) eqn:E; [|done].
      apply (stops_active s t (Ht t)) in E as (_ & ? & _). congruence.
  - by apply safe_run, finishShutdown_ok, Hpop.
  - apply safe_run. destruct (Hh c n v eq_refl) as (Hn & Hv & Hc). simpl in Hr.
    apply handOver_ok.
    + apply (insert_heap_ok n v (with_posted rest s)); [by apply Hpop|done|done].
    + simpl. intros Ha. destruct (Hc Ha) as [Hcs Hcr]. rewrite fn_lookup_insert_ne.
      * split; [done|]. rewrite Hr in Hcr. exact Hcr.
      * intros ->. apply Hn. by left.
    + exact Hn.
    + simpl. by rewrite fn_lookup_insert.
Qed.

Definition tickStops (now : Z) (alive : bool) s : bool :=
  ((0 <? stopAfter (options s)) && (stopAfter (options s) * second <=? now - startedAt s)) ||
  ((0 <? stopWithProcess (options s)) && negb alive).

Lemma engine_tick_ok now alive s :
  engine_ok s -> (tickStops now alive s = true -> retiring s = []) ->
  safe (tick stopsNow relocation now alive) s.
Proof.
  intros Hok Hr. unfold tick. set (P := fun s' => engine_ok s' /\ options s' = options s /\
    startedAt s' = startedAt s /\ retiring s' = retiring s).
  apply (safe_then _ _ _ P).
  { apply returns_run. destruct (_ <=? _); split_and!; try done. by eapply engine_frame. }
  intros s0 (Hok0 & Eo0 & Es0 & Er0). apply (safe_then _ _ _ P).
  { apply returns_run. destruct (_ && _); [|done].
    destruct (saveSession_shape (with_lastSessionSave now s0)) as [w ->].
    split_and!; try done. by eapply engine_frame. }
  intros s1 (Hok1 & Eo & Es & Er).
  unfold tickStops in Hr. rewrite <- Eo, <- Es, <- Er in Hr. apply safe_read.
  apply (safe_then _ _ _ (fun s' => engine_ok s' /\
    ((0 <? stopWithProcess (options s')) && negb alive = true -> retiring s' = []))).
  - unfold when. case_match eqn:E; [|apply returns_run; split; [done|]].
    + eapply returns_impl; [apply shutdown_ok; [done|by apply Hr]|]. by intros s' [? ?].
    + intros E'. by apply Hr.
  - intros s2 [Hok2 Hr2]. apply safe_read. unfold when. case_match eqn:E; [|by apply safe_run].
    eapply returns_safe; [apply shutdown_ok; [done|by apply Hr2]|by intros s' [? _]].
Qed.
End running.
End EngineInvariant.
