(* ===== verification/EngineProgress.v ===== *)
(** * Progress of the task queue

    A free slot never waits for long: whenever a download could start, the loop
    has a handler that starts it. *)

From stdpp Require Import functions.
From S2P Require Import Prelude StdMap Engine EngineInvariant.

Set Default Proof Using "Type".

Module EngineProgress.
Import Engine EngineInvariant.
#[local] Open Scope action_scope.

Section wake.
Implicit Types (s : engine) (t x g : Z) (a b : action).

(** The calls of [fill] the loop still has to make. *)
Definition fills (l : list handler) : nat :=
  length (filter (fun h => match h with RunFill => true | _ => false end = true) l).

(** [scheduled_] tells whether a [fill] is posted. *)
Definition sched_ok s : Prop := fills (posted s) = Nat.b2n (scheduled s).

(** A download could start. *)
Definition idle_slot s : Prop :=
  shuttingDown s = false /\ activeCount s < to_size (maxConcurrent (options s)) /\ queued s = true.

Definition wake_ok s : Prop := idle_slot s -> scheduled s = true.

(** Handlers are only added, and a [fill] together with the flag. *)
Definition grows s s' : Prop :=
  (shuttingDown s = true -> shuttingDown s' = true) /\
  exists l, posted s' = posted s ++ l /\
    (fills l + Nat.b2n (scheduled s) = Nat.b2n (scheduled s'))%nat.

Definition wakes s s' : Prop := scheduled s' = true \/ (idle_slot s' -> idle_slot s).

Lemma fills_app l l' : fills (l ++ l') = (fills l + fills l')%nat.
Proof. unfold fills. by rewrite filter_app, length_app. Qed.

Lemma grows_refl s : grows s s.
Proof. split; [done|]. exists []. by rewrite app_nil_r. Qed.

Lemma grows_trans s1 s2 s3 : grows s1 s2 -> grows s2 s3 -> grows s1 s3.
Proof.
  intros [H1 (l1 & E1 & F1)] [H2 (l2 & E2 & F2)]. split; [auto|].
  exists (l1 ++ l2). rewrite E2, E1, app_assoc, fills_app. split; [done|lia].
Qed.

Lemma grows_scheduled s s' : grows s s' -> scheduled s = true -> scheduled s' = true.
Proof.
  intros [_ (l & _ & F)] Hs. rewrite Hs in F. destruct (scheduled s'); [done|]. simpl in F. lia.
Qed.

Lemma grows_sched_ok s s' : grows s s' -> sched_ok s -> sched_ok s'.
Proof. intros [_ (l & E & F)] Hs. unfold sched_ok in *. rewrite E, fills_app. lia. Qed.

(** One step of the engine: nothing that could start is overlooked. *)
Definition advances s s' : Prop := grows s s' /\ wakes s s'.

Lemma advances_refl s : advances s s.
Proof. split; [apply grows_refl|by right]. Qed.

Lemma advances_trans s1 s2 s3 : advances s1 s2 -> advances s2 s3 -> advances s1 s3.
Proof.
  intros [G1 W1] [G2 W2]. split; [by eapply grows_trans|].
  destruct W2 as [W2|W2]; [by left|]. destruct W1 as [W1|W1]; [left|right; auto].
  by eapply grows_scheduled.
Qed.

Lemma advances_wake s s' : advances s s' -> wake_ok s -> wake_ok s'.
Proof.
  intros [G W] Hw Hi. destruct W as [W|W]; [done|]. by eapply grows_scheduled; [|apply Hw, W].
Qed.

Lemma grows_frame s s' :
  shuttingDown s' = shuttingDown s -> posted s' = posted s -> scheduled s' = scheduled s ->
  grows s s'.
Proof. intros E1 E2 E3. split; [congruence|]. exists []. by rewrite E2, E3, app_nil_r. Qed.

Lemma schedule_grows s : grows s (schedule s).
Proof.
  unfold schedule. destruct (scheduled s) eqn:E; [apply grows_refl|].
  split; [done|]. exists [RunFill]. simpl. by rewrite E.
Qed.

Lemma schedule_scheduled s : scheduled (schedule s) = true.
Proof. unfold schedule. by destruct (scheduled s) eqn:E. Qed.

Lemma post_grows h s : h <> RunFill -> grows s (post h s).
Proof.
  intros Hh. split; [done|]. exists [h]. split; [done|]. simpl. unfold fills. by destruct h.
Qed.

(** Actions that only add handlers, whatever they throw. *)
Definition growing a : Prop := forall s, grows s (a s).1.

Lemma growing_run f : (forall s, grows s (f s)) -> growing (run f).
Proof. by intros Hf s. Qed.
Lemma growing_throw e : growing (throw e).
Proof. intros s. apply grows_refl. Qed.
Lemma growing_then a b : growing a -> growing b -> growing (a ;; b).
Proof.
  intros Ha Hb s. specialize (Ha s). unfold andThen. destruct (a s) as [s' [e|]]; simpl in *; [done|].
  by eapply grows_trans.
Qed.
Lemma growing_read {A} (f : engine -> A) k : (forall v, growing (k v)) -> growing (read f k).
Proof. intros Hk s. apply Hk. Qed.
Lemma growing_when c a : growing a -> growing (when c a).
Proof. intros Ha. destruct c; [done|]. apply growing_run. intros; apply grows_refl. Qed.
Lemma growing_forEach {A} (l : list A) (body : A -> action) :
  (forall y : A, growing (body y)) -> growing (forEach l body).
Proof.
  intros Hb. induction l; simpl; [apply growing_run; intros; apply grows_refl|].
  by apply growing_then.
Qed.

(** Actions after which nothing that could start is overlooked, unless they end
    in a way the invariant excludes. *)
Definition advancing a : Prop :=
  forall s s' e, a s = (s', e) -> e <> Some OutOfRange -> e <> Some NullDisk -> advances s s'.

Lemma advancing_run f : (forall s, advances s (f s)) -> advancing (run f).
Proof. intros Hf s s' e [= <- <-] _ _. apply Hf. Qed.
Lemma advancing_throw e : advancing (throw e).
Proof. intros s s' e' [= <- <-] _ _. apply advances_refl. Qed.
Lemma advancing_then a b : advancing a -> advancing b -> advancing (a ;; b).
Proof.
  intros Ha Hb s s' e. unfold andThen. destruct (a s) as [s1 [e1|]] eqn:E.
  - intros [= <- <-]. by apply (Ha s).
  - intros Hb' H1 H2. eapply advances_trans; [by apply (Ha s s1 None)|]. by eapply Hb.
Qed.
Lemma advancing_read {A} (f : engine -> A) k : (forall v, advancing (k v)) -> advancing (read f k).
Proof. intros Hk s. apply (Hk (f s) s). Qed.
Lemma advancing_when c a : advancing a -> advancing (when c a).
Proof. intros Ha. destruct c; [done|]. apply advancing_run. intros; apply advances_refl. Qed.
Lemma advancing_forEach {A} (l : list A) (body : A -> action) :
  (forall y : A, advancing (body y)) -> advancing (forEach l body).
Proof.
  intros Hb. induction l; simpl; [apply advancing_run; intros; apply advances_refl|].
  by apply advancing_then.
Qed.

Lemma finishShutdown_grows s : grows s (finishShutdown s).
Proof.
  unfold finishShutdown. destruct (finished s); [apply grows_refl|].
  destruct (saveSession_shape (with_finished true s)) as [v ->].
  destruct (ed2kRuns _); by apply grows_frame.
Qed.

Lemma trimResults_grows s : grows s (trimResults s).
Proof. destruct (trimResults_shape s) as (d & m & -> & _). by apply grows_frame. Qed.

Lemma retire_grows t final s : grows s (retire t final s).
Proof.
  rewrite retire_eq. eapply grows_trans; [|apply schedule_grows].
  eapply grows_trans; [|apply trimResults_grows]. by apply grows_frame.
Qed.

Lemma retire_scheduled t final s : scheduled (retire t final s) = true.
Proof. rewrite retire_eq. apply schedule_scheduled. Qed.

Lemma retire_advances t final s : advances s (retire t final s).
Proof. split; [apply retire_grows|left; apply retire_scheduled]. Qed.

(** A state that ends in [schedule] advances if it grew. *)
Lemma schedule_advances s s' : grows s s' -> advances s (schedule s').
Proof.
  intros G. split; [by eapply grows_trans, schedule_grows|left; apply schedule_scheduled].
Qed.

(** The slots and the queue stay as they are. *)
Lemma advances_frame s s' :
  grows s s' -> maxConcurrent (options s') = maxConcurrent (options s) -> active s' = active s ->
  (forall x, x ∈ active s -> counts (heap s' x) = counts (heap s x)) ->
  (queued s' = true -> queued s = true) -> advances s s'.
Proof.
  intros G Eo Ea Hc Hq. split; [done|]. right. intros (Hd & Hn & Hw). split_and!; [|..|auto].
  - destruct (shuttingDown s) eqn:E; [|done]. destruct G as [G _]. rewrite (G E) in Hd. done.
  - rewrite Eo in Hn. enough (activeCount s' = activeCount s) as E by lia.
    unfold activeCount. rewrite Ea. f_equal. apply filter_ext_elem.
    intros x Hx. by rewrite Hc.
Qed.

Lemma queued_true s : queued s = true <-> exists t, t ∈ waiting s /\ stateOf t s = Waiting.
Proof.
  unfold queued. rewrite existsb_exists. setoid_rewrite <- list_elem_of_In.
  unfold is_state. by setoid_rewrite bool_decide_eq_true.
Qed.

Lemma advances_update t f s :
  (forall d, counts (f d) = counts d) -> (state (f (heap s t)) = Waiting -> stateOf t s = Waiting) ->
  advances s (update t f s).
Proof.
  intros Hc Hs. apply advances_frame; try done; [by apply grows_frame|..].
  - intros x _. view. at_address t x; by rewrite ?Hc.
  - rewrite !queued_true. intros (x & Hx & Hst). exists x. split; [done|].
    revert Hst. view. at_address t x; auto.
Qed.
End wake.

Ltac solve_growing :=
  repeat match goal with
  | |- growing (andThen _ _) => apply growing_then
  | |- growing (read _ _) => apply growing_read; intros ?
  | |- growing (when _ _) => apply growing_when
  | |- growing (forEach _ _) => apply growing_forEach; intros ?
  | |- growing (throw _) => apply growing_throw
  | |- growing skip => apply growing_run; intros; apply grows_refl
  | |- growing (run schedule) => apply growing_run, schedule_grows
  | |- growing (match ?x with _ => _ end) => destruct x
  | |- growing (run _) => apply growing_run; intros ?; by apply grows_frame
  end.

(** ** The operations *)

Section operations.
Context (start : Z -> engine -> option (Z * string))
  (stopsNow : Z -> bool -> engine -> bool)
  (relocation : Z -> string -> engine -> option (list (string * string)))
  (follow : Z -> engine -> list (Z * Task)).
Implicit Types (s : engine) (t x g : Z) (a b : action).

Lemma advances_down s s' : grows s s' -> shuttingDown s' = true -> advances s s'.
Proof. intros G Hd. split; [done|]. right. intros (? & _). congruence. Qed.

Lemma moveFilesOf_growing t : growing (moveFilesOf relocation t).
Proof. unfold moveFilesOf. solve_growing. Qed.

Lemma afterStop_growing t : growing (afterStop relocation t).
Proof.
  unfold afterStop. solve_growing; try apply moveFilesOf_growing.
  apply growing_run, finishShutdown_grows.
Qed.

Lemma stopDone_growing t next : growing (stopDone relocation t next).
Proof.
  unfold stopDone. solve_growing; try apply afterStop_growing; apply growing_run; intros s;
    apply retire_grows.
Qed.

(** Actions whose only exceptions are those the invariant excludes, and actions
    that leave a [fill] posted. *)
Definition sound a : Prop :=
  forall s s' e, a s = (s', Some e) -> e = OutOfRange \/ e = NullDisk.
Definition woken a : Prop :=
  forall s s' e, a s = (s', e) -> e <> Some OutOfRange -> e <> Some NullDisk -> scheduled s' = true.

Lemma sound_run f : sound (run f).
Proof. done. Qed.
Lemma sound_then a b : sound a -> sound b -> sound (a ;; b).
Proof.
  intros Ha Hb s s' e. unfold andThen. destruct (a s) as [s1 [e1|]] eqn:E; [|apply Hb].
  intros [= <- <-]. by eapply Ha.
Qed.
Lemma sound_read {A} (f : engine -> A) k : (forall v, sound (k v)) -> sound (read f k).
Proof. intros Hk s. apply Hk. Qed.
Lemma sound_when c a : sound a -> sound (when c a).
Proof. intros Ha. by destruct c. Qed.

Lemma woken_schedule : woken (run schedule).
Proof. intros s s' e [= <- _] _ _. apply schedule_scheduled. Qed.
Lemma woken_then a b : sound a -> woken b -> woken (a ;; b).
Proof.
  intros Ha Hb s s' e. unfold andThen. destruct (a s) as [s1 [e1|]] eqn:E; [|apply Hb].
  intros [= <- <-]. destruct (Ha _ _ _ E) as [-> | ->]; done.
Qed.
Lemma woken_read {A} (f : engine -> A) k : (forall v, woken (k v)) -> woken (read f k).
Proof. intros Hk s. apply (Hk (f s) s). Qed.

Ltac solve_sound :=
  repeat match goal with
  | |- sound (andThen _ _) => apply sound_then
  | |- sound (read _ _) => apply sound_read; intros ?
  | |- sound (when _ _) => apply sound_when
  | |- sound (match ?x with _ => _ end) => destruct x
  | |- sound (run _) => apply sound_run
  | |- sound skip => apply sound_run
  end.

Lemma moveFilesOf_sound t : sound (moveFilesOf relocation t).
Proof. unfold moveFilesOf. solve_sound; intros s s' e [= _ <-]; auto. Qed.

Lemma stopDone_woken t next : woken (stopDone relocation t next).
Proof.
  unfold stopDone, afterStop. do 3 (apply woken_then; [solve_sound|]).
  do 3 (apply woken_read; intros ?).
  apply woken_then; [solve_sound; apply moveFilesOf_sound|]. apply woken_read; intros ?.
  apply woken_then; [solve_sound|]. apply woken_schedule.
Qed.

Lemma advancing_woken a : growing a -> woken a -> advancing a.
Proof.
  intros G W s s' e E H1 H2. split; [specialize (G s); by rewrite E in G|left; by eapply W].
Qed.

Lemma stopDone_advancing t next : advancing (stopDone relocation t next).
Proof. apply advancing_woken; [apply stopDone_growing|apply stopDone_woken]. Qed.

Ltac frame := apply advances_frame; [by apply grows_frame|done..].
Lemma replaceStop_advances t s : advances s (replaceStop t s).
Proof. unfold replaceStop. destruct (find _ _); [frame|apply advances_refl]. Qed.
Ltac solve_advancing :=
  repeat match goal with
  | |- advancing (andThen _ _) => apply advancing_then
  | |- advancing (read _ _) => apply advancing_read; intros ?
  | |- advancing (when _ _) => apply advancing_when
  | |- advancing (forEach _ _) => apply advancing_forEach; intros ?
  | |- advancing (throw _) => apply advancing_throw
  | |- advancing (match ?x with _ => _ end) => destruct x
  | |- advancing skip => apply advancing_run; intros; apply advances_refl
  | |- advancing (run (update _ _)) => apply advancing_run; intros ?; by apply advances_update
  | |- advancing (run (replaceStop _)) => apply advancing_run; intros ?; apply replaceStop_advances
  | |- advancing (run (retire _ _)) => apply advancing_run; intros ?; apply retire_advances
  | |- advancing (run _) => apply advancing_run; intros ?; frame
  end.

Lemma moveFilesOf_advancing t : advancing (moveFilesOf relocation t).
Proof. unfold moveFilesOf. solve_advancing. Qed.

Lemma stopTask_advancing t force next : advancing (stopTask stopsNow relocation t force next).
Proof. unfold stopTask. solve_advancing. apply stopDone_advancing. Qed.

Lemma pause_advancing t force : advancing (pause stopsNow relocation t force).
Proof. unfold pause. solve_advancing. apply stopTask_advancing. Qed.

Lemma dequeue_advances t s : advances s (with_waiting (removeAll t (waiting s)) s).
Proof.
  apply advances_frame; [by apply grows_frame|done..|]. rewrite !queued_true.
  intros (x & [_ Hx]%elem_of_removeAll & Hs). by exists x.
Qed.

Lemma remove_advancing t force : advancing (remove stopsNow relocation t force).
Proof.
  unfold remove. solve_advancing; try apply stopTask_advancing; apply advancing_run; intros s;
    apply dequeue_advances.
Qed.

Lemma pauseWaiting_advances t s : advances s (pauseWaiting t s).
Proof.
  unfold pauseWaiting. destruct (is_state Waiting t s); [|apply advances_refl].
  eapply advances_trans; [by apply (advances_update t (set_state Paused))|frame].
Qed.

Lemma pauseAll_advancing force : advancing (pauseAll stopsNow relocation force).
Proof.
  unfold pauseAll. solve_advancing; [apply pause_advancing|].
  apply advancing_run. intros s. apply pauseWaiting_advances.
Qed.

Lemma unpauseAll_advances s : advances s (unpauseAll s).
Proof.
  unfold unpauseAll. apply schedule_advances.
  assert (forall l s1, grows s1 (foldl (fun s t => unpauseWaiting t s) s1 l)) as Hl.
  { induction l as [|t l IH]; intros s1; simpl; [apply grows_refl|].
    eapply grows_trans; [|apply IH]. unfold unpauseWaiting.
    destruct (_ && _); by apply grows_frame. }
  eapply grows_trans; [|apply Hl]. by apply grows_frame.
Qed.

Lemma relocate_advancing t dir_ : advancing (relocate stopsNow relocation t dir_).
Proof.
  unfold relocate. solve_advancing; try apply stopTask_advancing; apply moveFilesOf_advancing.
Qed.

Lemma unpause_advances t s : advances s (unpause t s).
Proof.
  unfold unpause. destruct (find _ _); [frame|]. destruct (is_state Paused t s); [|apply advances_refl].
  apply schedule_advances. by apply grows_frame.
Qed.

Lemma filesMoved_advancing t error : advancing (run (endFileMove t) ;; filesMoved t error).
Proof.
  unfold filesMoved. solve_advancing. apply advancing_run. intros s. apply unpause_advances.
Qed.

Lemma move_advances t offset how s : advances s (move t offset how s).2.
Proof.
  unfold move. destruct (indexOf t (waiting s)) as [i|] eqn:Hi; [|apply advances_refl].
  apply indexOf_Some in Hi as [Hp _]. simpl. apply advances_frame; [by apply grows_frame|done..|].
  rewrite !queued_true. intros (x & Hx & Hs). exists x. split; [|done]. simpl in Hx.
  by rewrite insertAt_perm, <- Hp in Hx.
Qed.

Lemma removeResult_advances g s : advances s (removeResult g s).2.
Proof.
  unfold removeResult. destruct (list_find _ _) as [[i t]|]; [frame|apply advances_refl].
Qed.

Lemma purgeResults_advances s : advances s (purgeResults s).
Proof. frame. Qed.

Lemma requeue_advancing t : advancing (requeue t).
Proof.
  unfold requeue. apply advancing_read. intros [i|]; [|apply advancing_throw].
  apply advancing_woken; [solve_growing|]. do 4 (apply woken_then; [solve_sound|]).
  apply woken_schedule.
Qed.

Lemma stopTask_growing t force next : growing (stopTask stopsNow relocation t force next).
Proof.
  unfold stopTask. solve_growing; [|apply stopDone_growing]. apply growing_run. intros s. apply (replaceStop_advances t s).
Qed.

Lemma advancing_down a : growing a -> advancing (run (with_shuttingDown true) ;; a).
Proof.
  intros Ha s s' e E _ _. specialize (Ha (with_shuttingDown true s)).
  change (a (with_shuttingDown true s) = (s', e)) in E. rewrite E in Ha.
  apply advances_down; [|by apply Ha]. eapply grows_trans; [|exact Ha].
  split; [done|]. exists []. by rewrite app_nil_r.
Qed.

Lemma shutdown_advancing force : advancing (shutdown stopsNow relocation force).
Proof.
  unfold shutdown. do 2 (apply advancing_read; intros ?).
  match goal with |- advancing (if ?b then _ else _) => destruct b end.
  - apply advancing_run. intros s. apply advances_refl.
  - apply advancing_down. solve_growing; [|apply stopTask_growing].
    apply growing_run. intros s. by apply post_grows.
Qed.

Lemma add_advances t position s s0 : grows s s0 -> advances s (add t position s0).
Proof.
  intros G. unfold add. apply schedule_advances. eapply grows_trans; [exact G|]. by apply grows_frame.
Qed.

Lemma globalOptionsChanged_grows names s : grows s (globalOptionsChanged names s).
Proof.
  unfold globalOptionsChanged. revert s. induction names as [|n names IH]; intros s; simpl;
    [apply grows_refl|]. eapply grows_trans; [|apply IH].
  case_bool_decide; [apply schedule_grows|apply grows_refl].
Qed.

Lemma globalOptionsChanged_scheduled names s :
  "max-concurrent-downloads" ∈ names -> scheduled (globalOptionsChanged names s) = true.
Proof.
  unfold globalOptionsChanged. revert s. induction names as [|n names IH]; intros s Hin; simpl.
  { by apply elem_of_nil in Hin. }
  apply elem_of_cons in Hin as [<-|Hin]; [|by apply IH]. rewrite bool_decide_true by done.
  eapply grows_scheduled; [apply globalOptionsChanged_grows|apply schedule_scheduled].
Qed.

Lemma globalOptionsChanged_frame names s :
  active (globalOptionsChanged names s) = active s /\ heap (globalOptionsChanged names s) = heap s /\
  waiting (globalOptionsChanged names s) = waiting s /\
  options (globalOptionsChanged names s) = options s.
Proof.
  unfold globalOptionsChanged. revert s. induction names as [|n names IH]; intros s; simpl; [done|].
  destruct (IH (if bool_decide (n = "max-concurrent-downloads") then schedule s else s))
    as (-> & -> & -> & ->).
  case_bool_decide; [|done]. unfold schedule. by destruct (scheduled s).
Qed.

Lemma setOptions_advances names c s :
  maxConcurrent c = maxConcurrent (options s) \/ "max-concurrent-downloads" ∈ names ->
  advances s (globalOptionsChanged names (with_options c s)).
Proof.
  intros Hc. assert (grows s (globalOptionsChanged names (with_options c s))) as G
    by (eapply grows_trans; [|apply globalOptionsChanged_grows]; by apply grows_frame).
  destruct Hc as [Hc|Hin]; [|split; [done|left; by apply globalOptionsChanged_scheduled]].
  destruct (globalOptionsChanged_frame names (with_options c s)) as (Ea & Eh & Ew & Eo).
  apply advances_frame; [done|by rewrite Eo|done|by rewrite Eh|].
  rewrite !queued_true. unfold stateOf. by rewrite Ew, Eh.
Qed.

Lemma taskFailed_advances t code message s : advances s (taskFailed t code message s).
Proof.
  unfold taskFailed. eapply advances_trans; [by apply (advances_update t (set_error code message))|].
  apply advances_frame; try done. eapply grows_trans; [|by apply post_grows]. by apply grows_frame.
Qed.

Lemma taskCompleted_advances t s : advances s (taskCompleted follow t s).
Proof.
  unfold taskCompleted. eapply advances_trans; [by apply (advances_update t (set_error codeFinished ""))|].
  set (s1 := update t (set_error codeFinished "") s).
  apply (advances_trans _ (foldl (fun s '(x, v) => add x None (with_heap (<[x := v]> (heap s)) s)) s1
    (follow t s1))).
  - generalize (follow t s1). intros l. clearbody s1. revert s1. induction l as [|[x v] l IH]; intros s1; simpl;
      [apply advances_refl|]. eapply advances_trans; [|apply IH].
    apply add_advances. by apply grows_frame.
  - apply advances_frame; try done. by apply post_grows.
Qed.

Lemma setCounts_advances t v s :
  v = true \/ counts (heap s t) = false \/ t ∉ active s -> advances s (update t (set_counts v) s).
Proof.
  intros Hv. split; [by apply grows_frame|]. right. intros (Hd & Hn & Hq). split_and!; [done|..].
  - eapply Z.le_lt_trans; [|exact Hn]. unfold activeCount, zlength. simpl. apply Nat2Z.inj_le.
    assert (forall l : list Z, (forall x, x ∈ l -> x ∈ active s) ->
      (length (filter (fun x => counts (heap s x) = true) l) <=
       length (filter (fun x => counts (heap (update t (set_counts v) s) x) = true) l))%nat) as Hl;
      [|by apply Hl].
    induction l as [|y l IH]; intros Hsub; [done|]. rewrite !filter_cons.
    specialize (IH (fun x Hx => Hsub x (list_elem_of_further _ _ _ Hx))).
    destruct (decide (t = y)) as [<-|Hne].
    + assert (t ∈ active s) as Ht by (apply Hsub; left).
      unfold update in *. simpl in *. rewrite fn_lookup_alter. simpl.
      case_decide; case_decide; simpl; try lia.
      destruct Hv as [->|[?|?]]; congruence.
    + unfold update in *. simpl in *. rewrite (fn_lookup_alter_ne _ _ t y) by done.
      case_decide; simpl; lia.
  - revert Hq. rewrite !queued_true. intros (x & Hx & Hs). exists x. split; [done|].
    revert Hs. view. by at_address t x.
Qed.

Lemma tick_advancing now alive : advancing (tick stopsNow relocation now alive).
Proof.
  unfold tick. solve_advancing; try apply shutdown_advancing; apply advancing_run; intros s.
  - destruct (_ <=? _); [frame|apply advances_refl].
  - destruct (_ && _); [|apply advances_refl].
    destruct (saveSession_shape (with_lastSessionSave now s)) as [w ->]. frame.
Qed.

(** ** [fill] *)

(** The downloads that may start, in the order of the queue. *)
Definition startable s : list Z := filter (fun t => stateOf t s = Waiting) (waiting s).

Lemma startTask_effect t s :
  let s' := startTask start t s in
  active s' = active s ++ [t] /\ waiting s' = waiting s /\ options s' = options s /\
  shuttingDown s' = shuttingDown s /\ grows s s' /\ scheduled s' = scheduled s /\
  (forall x, stateOf x s' = if decide (x = t) then Active else stateOf x s) /\
  (forall x, counts (heap s' x) = counts (heap s x)).
Proof.
  unfold startTask, startOrFail. set (s1 := emit EventStart t _).
  assert (grows s s1) as G by by apply grows_frame.
  destruct (start t s1) as [[code message]|]; split_and!; try done.
  - eapply grows_trans; [exact G|]. apply taskFailed_advances.
  - intros x. subst s1. view. repeat (case_decide; simpl); congruence.
  - intros x. subst s1. view. repeat (case_decide; simpl); congruence.
  - intros x. subst s1. view. repeat (case_decide; simpl); congruence.
  - intros x. subst s1. view. repeat (case_decide; simpl); congruence.
Qed.

Lemma activeCount_snoc t s s' :
  active s' = active s ++ [t] -> (forall x, counts (heap s' x) = counts (heap s x)) ->
  activeCount s <= activeCount s' <= activeCount s + 1.
Proof.
  intros Ea Hc. unfold activeCount, zlength. rewrite Ea, filter_app, length_app.
  rewrite (filter_ext_elem (fun x => counts (heap s' x) = true) (fun x => counts (heap s x) = true)
    (active s)) by (intros x _; by rewrite Hc).
  rewrite filter_cons, filter_nil. case_decide; simpl; lia.
Qed.

(** Taking the download at [i] from the queue, when nothing before it waits. *)
Lemma startable_step i t s s' :
  NoDup (waiting s) -> waiting s !! i = Some t -> stateOf t s = Waiting ->
  (forall x, x ∈ take i (waiting s) -> stateOf x s <> Waiting) ->
  waiting s' = delete i (waiting s) ->
  (forall x, stateOf x s' = if decide (x = t) then Active else stateOf x s) ->
  startable s = t :: startable s'.
Proof.
  intros Hnd Hi Hs Hbefore Hw Hst. unfold startable. rewrite Hw, delete_take_drop.
  pose proof (take_drop_middle (waiting s) i t Hi) as Hsplit.
  rewrite <- Hsplit in Hnd at 1. apply NoDup_app in Hnd as (_ & Hdis & [Ht _]%NoDup_cons).
  rewrite <- Hsplit at 1. rewrite !filter_app, filter_cons_True by done.
  rewrite !(filter_nothing _ (take i (waiting s))).
  - simpl. f_equal. apply filter_ext_elem. intros x Hx. rewrite Hst.
    by rewrite decide_False by (intros ->; done).
  - intros x Hx. rewrite Hst. case_decide; [done|]. auto.
  - auto.
Qed.

Lemma fillLoop_spec fuel i limit s :
  NoDup (waiting s) -> (length (waiting s) - i <= fuel)%nat ->
  (forall x, x ∈ take i (waiting s) -> stateOf x s <> Waiting) ->
  let s' := fillLoop start fuel i limit s in
  (exists started, active s' = active s ++ started /\ startable s = started ++ startable s') /\
  (limit <= activeCount s' \/ startable s' = []) /\
  activeCount s <= activeCount s' <= Z.max (activeCount s) limit /\
  options s' = options s /\ shuttingDown s' = shuttingDown s /\ grows s s' /\
  scheduled s' = scheduled s.
Proof.
  revert i s. induction fuel as [|fuel IH]; intros i s Hnd Hfuel Hbefore; simpl.
  { split_and!; try done; try lia; try apply grows_refl; [by exists []; rewrite app_nil_r|].
    right. apply filter_nothing. rewrite take_ge in Hbefore by lia. done. }
  destruct (waiting s !! i) as [t|] eqn:Hi.
  2: { apply lookup_ge_None in Hi. split_and!; try done; try lia; try apply grows_refl;
         [by exists []; rewrite app_nil_r|].
       right. apply filter_nothing. rewrite take_ge in Hbefore by lia. done. }
  destruct (Z.ltb_spec (activeCount s) limit) as [Hlt|Hge].
  2: { split_and!; try done; try lia; try apply grows_refl. by exists []; rewrite app_nil_r. }
  unfold is_state. case_bool_decide as Hs.
  - set (s1 := startTask start t (with_waiting (delete i (waiting s)) s)).
    destruct (startTask_effect t (with_waiting (delete i (waiting s)) s))
      as (Ea & Ew & Eo & Ed & G & Esch & Hst & Hc). fold s1 in Ea, Ew, Eo, Ed, G, Esch, Hst, Hc.
    simpl in Ew. pose proof (startable_step i t s s1 Hnd Hi Hs Hbefore Ew Hst) as Hstart.
    pose proof (activeCount_snoc t s s1 Ea Hc) as Hcount.
    destruct (IH i s1) as ((started & Ha & Hsl) & Hend & Hbound & Ho & Hd & G' & Hsch).
    + rewrite Ew. eapply sublist_NoDup; [exact Hnd|]. apply sublist_delete.
    + rewrite Ew, length_delete by by eexists. apply lookup_lt_Some in Hi. lia.
    + intros x. rewrite Ew, delete_take_drop, take_app_length'
        by (rewrite length_take; apply lookup_lt_Some in Hi; lia). rewrite Hst.
      intros Hx. case_decide; [done|]. by apply Hbefore.
    + simpl in Eo, Ed, Esch. split_and!; [|done|lia|lia|congruence|congruence|..|congruence].
      * exists (t :: started). rewrite Ha, Ea, Hstart, Hsl, <- app_assoc. done.
      * eapply grows_trans; [|exact G']. eapply grows_trans; [|exact G]. by apply grows_frame.
  - apply IH; [done|lia|]. intros x Hx. rewrite (take_S_r _ _ _ Hi) in Hx.
    apply elem_of_app in Hx as [Hx|Hx]; [auto|]. by apply list_elem_of_singleton in Hx as ->.
Qed.

Lemma full_or_empty s :
  to_size (maxConcurrent (options s)) <= activeCount s \/ startable s = [] -> ~ idle_slot s.
Proof.
  intros [Hn|Hn] (_ & Hlt & Hq); [lia|]. apply queued_true in Hq as (t & Ht & Hs).
  assert (t ∈ startable s) as Hin by by apply list_elem_of_filter.
  rewrite Hn in Hin. by apply elem_of_nil in Hin.
Qed.

Lemma fill_progress s s' e :
  NoDup (waiting s) -> sched_ok s -> fill start stopsNow relocation s = (s', e) ->
  e <> Some OutOfRange -> e <> Some NullDisk -> sched_ok s' /\ wake_ok s'.
Proof.
  intros Hnd Hs E H1 H2. unfold fill, read in E. destruct (shuttingDown s) eqn:Hd; simpl in E.
  { injection E as <- <-. split; [done|]. intros (Hd' & _). congruence. }
  unfold andThen, run in E.
  destruct (fillLoop_spec (length (waiting s)) 0 (to_size (maxConcurrent (options s))) s)
    as (_ & Hend & _ & Ho & _ & G & _); [done|lia|intros x Hx; by apply elem_of_nil in Hx|].
  set (s1 := fillLoop _ _ _ _ s) in *.
  assert (sched_ok s1) as Hs1 by by eapply grows_sched_ok.
  assert (wake_ok s1) as Hw1
    by (intros Hi; exfalso; revert Hi; apply full_or_empty; by rewrite Ho).
  match type of E with when ?b _ _ = _ => destruct b end.
  - pose proof (shutdown_advancing false s1 s' e E H1 H2) as A.
    split; [eapply grows_sched_ok; [apply A|done]|by eapply advances_wake].
  - injection E as <- <-. done.
Qed.

Lemma handed_advances c n i s :
  active s !! i = Some c -> ~ listed n s -> c ∉ waiting s -> counts (heap s n) = true ->
  advances s (handed c n i s).
Proof.
  intros Hi Hn Hc Hcn. split; [by apply grows_frame|]. right. intros (Hd & Hlt & Hq).
  split_and!; [done|..].
  - eapply Z.le_lt_trans; [|exact Hlt]. unfold activeCount, zlength. apply Nat2Z.inj_le.
    rewrite (filter_ext_elem (fun t => counts (heap (handed c n i s) t) = true)
      (fun t => counts (heap s t) = true)).
    2: { intros x _. unfold handed. view. by repeat (case_decide; subst; simpl). }
    simpl. rewrite <- (take_drop_middle (active s) i c Hi) at 1.
    rewrite insert_take_drop by by eapply lookup_lt_Some.
    rewrite !filter_app, !length_app, !filter_cons. repeat case_decide; simpl; done || lia.
  - apply queued_true in Hq as (x & Hx & Hs). apply queued_true. exists x. split; [done|].
    assert (x <> n) by (intros ->; apply Hn; right; left; done).
    assert (x <> c) by (intros ->; exact (Hc Hx)).
    revert Hs. unfold handed, stateOf, update. simpl. by rewrite !fn_lookup_alter_ne.
Qed.

Lemma handOver_advances c n s :
  queues_ok s -> ~ listed n s -> counts (heap s n) = true -> advances s (handOver start c n s).
Proof.
  intros Hq Hn Hcn. unfold handOver.
  destruct (indexOf c (active s)) as [i|] eqn:Hi; [|apply advances_refl].
  apply indexOf_Some in Hi as [_ Hi]. pose proof (list_elem_of_lookup_2 _ _ _ Hi) as Hin.
  destruct (Z.eqb_spec (gidOf n s) (gidOf c s)); [|apply advances_refl].
  assert (c <> n) as Hne by (intros ->; apply Hn; by left).
  assert (heap (update n (set_state Active) (with_tasks (put (gidOf n s) n (tasks s))
    (with_active (<[i:=n]> (active s)) s))) c = heap s c) as Hhc
    by (unfold update; simpl; by rewrite fn_lookup_alter_ne).
  cbv zeta. change (gidOf n (with_active (<[i:=n]> (active s)) s)) with (gidOf n s).
  change (tasks (with_active (<[i:=n]> (active s)) s)) with (tasks s). rewrite Hhc.
  eapply (advances_trans _ (handed c n i s)).
  - apply handed_advances; try done. by apply (active_not_waiting _ s c Hq).
  - unfold startOrFail. fold (handed c n i s). destruct (start n (handed c n i s)) as [[code message]|].
    + apply taskFailed_advances.
    + apply advances_refl.
Qed.

Lemma insert_heap_advances t v s : ~ listed t s -> advances s (with_heap (<[t := v]> (heap s)) s).
Proof.
  clear start stopsNow relocation follow.
  intros Hl. unfold listed in Hl. apply advances_frame; try done; [by apply grows_frame|..].
  - intros x Hx. simpl. rewrite fn_lookup_insert_ne; [done|]. intros ->. tauto.
  - rewrite !queued_true. intros (x & Hx & Hs). exists x. split; [done|]. revert Hs.
    unfold stateOf. simpl. rewrite fn_lookup_insert_ne; [done|]. intros ->. simpl in Hx. tauto.
Qed.

Lemma runNext_progress s s' e :
  engine_ok s -> sched_ok s -> wake_ok s ->
  (forall c n v, head (posted s) = Some (RunHandOver c n v) -> ~ listed n s /\ counts v = true) ->
  runNext start stopsNow relocation s = (s', e) ->
  e <> Some OutOfRange -> e <> Some NullDisk -> sched_ok s' /\ wake_ok s'.
Proof.
  clear follow. intros Hok Hs Hw Hh E H1 H2. unfold runNext, read in E.
  destruct (posted s) as [|h rest] eqn:Hp; [injection E as <- <-; done|].
  pose proof Hs as Hf. unfold sched_ok in Hf. rewrite Hp in Hf.
  assert (wake_ok (with_posted rest s)) as Hw0 by done.
  assert (h <> RunFill -> sched_ok (with_posted rest s)) as Hs0
    by (intros Hne; unfold sched_ok, fills in *; by destruct h).
  assert (forall s1 e1, advances (with_posted rest s) s1 -> h <> RunFill ->
    (s1, e1) = (s', e) -> sched_ok s' /\ wake_ok s') as Hadv.
  { intros s1 e1 A Hne [= <- <-].
    split; [eapply grows_sched_ok; [apply A|auto]|by eapply advances_wake]. }
  destruct h as [|t final| |c n v]; simpl in E.
  - eapply fill_progress; [|..|exact E|done|done]; [by apply (waiting_nodup _ _ (ok_queues _ _ Hok))|].
    unfold sched_ok, fills in *. simpl in *. destruct (scheduled s); simpl in *; lia.
  - eapply Hadv; [|done|exact E]. apply retire_advances.
  - eapply Hadv; [|done|exact E]. apply advances_frame; [apply finishShutdown_grows|..];
      unfold finishShutdown; (destruct (finished _); [done|]);
      (destruct (saveSession_shape (with_finished true (with_posted rest s))) as [w ->]);
      by destruct (ed2kRuns _).
  - destruct (Hh c n v eq_refl) as [Hn Hcv]. eapply Hadv; [|done|exact E].
    eapply advances_trans; [by apply (insert_heap_advances n v)|].
    apply handOver_advances; [|done|simpl; by rewrite fn_lookup_insert].
    assert (queues_ok s) as Hq by by apply (ok_queues _ _ Hok).
    destruct Hq as [Ha Hwq Hsq Sa Sw Ss Ho Hts Hff].
    unfold listed in Hn. split; unfold listed, stateOf, gidOf; simpl; try done.
    + intros x Hx. rewrite fn_lookup_insert_ne by (intros ->; tauto). by apply Sa.
    + intros x Hx. rewrite fn_lookup_insert_ne by (intros ->; tauto). by apply Sw.
    + intros x Hx. rewrite fn_lookup_insert_ne by (intros ->; tauto). by apply Ss.
    + intros g x. rewrite Hff. destruct (decide (n = x)) as [<-|Hne]; [unfold listed; tauto|].
      by rewrite fn_lookup_insert_ne.
Qed.
End operations.

End EngineProgress.
