(* ===== verification/EngineShutdown.v ===== *)
(** * Shutting down the engine

    While the engine shuts down every active task has been told to stop, and
    once none is active the end of the shutdown has happened or is posted. *)

From stdpp Require Import functions.
From S2P Require Import Prelude StdMap Engine EngineInvariant EngineProgress.

Set Default Proof Using "Type".

Module EngineShutdown.
Import Engine EngineInvariant EngineProgress.

Section down.
Context (start : Z -> engine -> option (Z * string))
  (stopsNow : Z -> bool -> engine -> bool)
  (relocation : Z -> string -> engine -> option (list (string * string)))
  (follow : Z -> engine -> list (Z * Task)).
Implicit Types (s : engine) (t x g : Z) (a b : action).

Definition ended s : Prop := finished s = true \/ RunFinishShutdown ∈ posted s.

(** All but [t] have been told to stop, and without active tasks the end has come. *)
Definition down_but (skip : Z -> Prop) s : Prop :=
  shuttingDown s = true ->
  (forall x, x ∈ active s -> ~ skip x -> stopping (heap s x) = true) /\ (active s = [] -> ended s).
Definition down_ok : engine -> Prop := down_but (fun _ => False).

(** Steps that leave the active tasks alone. *)
Definition settled s s' : Prop :=
  active s' = active s /\
  (forall x, x ∈ active s -> stopping (heap s' x) = stopping (heap s x)) /\
  shuttingDown s' = shuttingDown s /\ (ended s -> ended s').

Lemma settled_refl s : settled s s.
Proof. done. Qed.

Lemma settled_trans s1 s2 s3 : settled s1 s2 -> settled s2 s3 -> settled s1 s3.
Proof.
  intros (A1 & S1 & D1 & E1) (A2 & S2 & D2 & E2). split_and!; [congruence| |congruence|auto].
  intros x Hx. rewrite S2 by (by rewrite A1). auto.
Qed.

Lemma settled_down skip s s' : settled s s' -> down_but skip s -> down_but skip s'.
Proof.
  intros (A & S & D & E) Hd Hdown. rewrite D in Hdown. destruct (Hd Hdown) as [H1 H2].
  rewrite A. split; [|auto]. intros x Hx Hs. rewrite S by done. auto.
Qed.

Lemma ended_app s s' l : finished s' = finished s -> posted s' = posted s ++ l -> ended s -> ended s'.
Proof.
  intros Ef Ep [?|?]; [left; congruence|right]. rewrite Ep. apply elem_of_app. by left.
Qed.

Lemma settled_frame s s' :
  active s' = active s -> heap s' = heap s -> shuttingDown s' = shuttingDown s ->
  finished s' = finished s -> posted s' = posted s -> settled s s'.
Proof.
  intros Ea Eh Ed Ef Ep. split_and!; [done|by rewrite Eh|done|].
  apply (ended_app _ _ []); [done|by rewrite app_nil_r].
Qed.

Lemma settled_schedule s : settled s (schedule s).
Proof.
  unfold schedule. destruct (scheduled s); [apply settled_refl|]. split_and!; [done..|].
  by apply (ended_app _ _ [RunFill]).
Qed.

Lemma settled_post h s : settled s (post h s).
Proof. split_and!; [done..|]. by apply (ended_app _ _ [h]). Qed.

Lemma settled_update t f s :
  (forall d, stopping (f d) = stopping d) -> settled s (update t f s).
Proof.
  intros Hf. split_and!; try done. intros x _. view. at_address t x; by rewrite ?Hf.
Qed.

Lemma settled_retire t final s : t ∉ active s -> settled s (retire t final s).
Proof.
  intros Ht. rewrite retire_eq. eapply settled_trans; [|apply settled_schedule].
  destruct (trimResults_shape (retired t final s)) as (d & m & -> & _).
  apply (settled_trans _ (update t (set_state final) s)); [by apply settled_update|].
  apply settled_frame; try done. simpl. by apply removeAll_absent.
Qed.

Lemma finishShutdown_settled s :
  active (finishShutdown s) = active s /\ heap (finishShutdown s) = heap s /\
  shuttingDown (finishShutdown s) = shuttingDown s /\ ended (finishShutdown s).
Proof.
  unfold finishShutdown, ended. destruct (finished s) eqn:E; [auto|].
  destruct (saveSession_shape (with_finished true s)) as [v ->].
  destruct (ed2kRuns _); split_and!; try done; by left.
Qed.

Definition settling a : Prop := forall s, settled s (a s).1.

Lemma settling_run f : (forall s, settled s (f s)) -> settling (run f).
Proof. by intros Hf s. Qed.
Lemma settling_throw e : settling (throw e).
Proof. intros s. apply settled_refl. Qed.
Lemma settling_then a b : settling a -> settling b -> settling (a ;; b).
Proof.
  intros Ha Hb s. specialize (Ha s). unfold andThen. destruct (a s) as [s' [e|]]; simpl in *; [done|].
  by eapply settled_trans.
Qed.
Lemma settling_read {A} (f : engine -> A) k : (forall v, settling (k v)) -> settling (read f k).
Proof. intros Hk s. apply Hk. Qed.
Lemma settling_when c a : settling a -> settling (when c a).
Proof. intros Ha. destruct c; [done|]. apply settling_run. intros; apply settled_refl. Qed.
Lemma settling_forEach {A} (l : list A) (body : A -> action) :
  (forall y : A, settling (body y)) -> settling (forEach l body).
Proof.
  intros Hb. induction l; simpl; [apply settling_run; intros; apply settled_refl|].
  by apply settling_then.
Qed.

Ltac solve_settling :=
  repeat match goal with
  | |- settling (andThen _ _) => apply settling_then
  | |- settling (read _ _) => apply settling_read; intros ?
  | |- settling (when _ _) => apply settling_when
  | |- settling (forEach _ _) => apply settling_forEach; intros ?
  | |- settling (throw _) => apply settling_throw
  | |- settling skip => apply settling_run; intros; apply settled_refl
  | |- settling (run schedule) => apply settling_run, settled_schedule
  | |- settling (run (update _ _)) => apply settling_run; intros ?; by apply settled_update
  | |- settling (match ?x with _ => _ end) => destruct x
  | |- settling (run _) => apply settling_run; intros ?; by apply settled_frame
  end.

Lemma moveFilesOf_settling t : settling (moveFilesOf relocation t).
Proof. unfold moveFilesOf. solve_settling. Qed.

(** The callback of the last active task ends the shutdown. *)
Lemma afterStop_down t s s' :
  afterStop relocation t s = (s', None) ->
  active s' = active s /\ (forall x, x ∈ active s -> stopping (heap s' x) = stopping (heap s x)) /\
  shuttingDown s' = shuttingDown s /\ (ended s -> ended s') /\
  (shuttingDown s = true -> active s = [] -> ended s').
Proof.
  unfold afterStop. unfold read at 1 2 3. unfold andThen at 1.
  match goal with |- context [match ?A s with _ => _ end] => set (act := A) end.
  assert (settling act) as Hact by (subst act; solve_settling; apply moveFilesOf_settling).
  specialize (Hact s). destruct (act s) as [s1 [e|]]; [done|]. simpl in Hact.
  destruct Hact as (Ea & Es & Ed & Ee). unfold read, andThen, run, when, skip.
  destruct (shuttingDown s1 && bool_decide (active s1 = [])) eqn:Hl; intros [= <-].
  - apply andb_prop in Hl as [Hd Ha%bool_decide_eq_true].
    destruct (finishShutdown_settled s1) as (Fa & Fh & Fd & Fe).
    destruct (settled_schedule (finishShutdown s1)) as (Ga & Gs & Gd & Ge).
    split_and!; [congruence| |congruence|auto|auto].
    intros x Hx. rewrite <- Ea, Ha in Hx. by apply elem_of_nil in Hx.
  - destruct (settled_schedule s1) as (Ga & Gs & Gd & Ge).
    split_and!; [congruence|intros x Hx; rewrite Gs by congruence; auto|congruence|auto|].
    intros Hd Ha. rewrite Ed, Hd, Ea, Ha in Hl. done.
Qed.

(** A task has stopped: the others are as before. *)
Definition gone t s s' : Prop :=
  active s' = removeAll t (active s) /\
  (forall x, x <> t -> x ∈ active s -> stopping (heap s' x) = stopping (heap s x)) /\
  shuttingDown s' = shuttingDown s /\
  (shuttingDown s = true -> active s' = [] -> ended s').

Lemma stopDone_gone t next s s' : stopDone relocation t next s = (s', None) -> gone t s s'.
Proof.
  clear start stopsNow follow.
  unfold stopDone. unfold andThen at 1 2 3, run at 1 2. cbv beta iota.
  set (s1 := with_active _ (update t (set_stopping false) s)).
  match goal with |- context [match ?A s1 with _ => _ end] => set (act := A) end.
  assert (settled s1 (act s1).1 /\ active s1 = removeAll t (active s) /\
    shuttingDown s1 = shuttingDown s /\
    forall x, x <> t -> stopping (heap s1 x) = stopping (heap s x)) as (Hact & E1 & E2 & E3).
  { split_and!; [|done|done|].
    - assert (t ∉ active s1) as Hna by (subst s1; simpl; rewrite elem_of_removeAll; tauto).
      subst act. destruct next; unfold andThen, run, when, skip; simpl;
        try (eapply settled_trans; [by apply (settled_update t (set_state Paused))|];
             by apply settled_frame);
        try (eapply settled_trans; [by apply (settled_update t (set_state Waiting))|];
             by apply settled_frame);
        (eapply settled_trans; [by apply (settled_update t (set_error codeRemoved "Removed"))|];
         by apply settled_retire).
    - intros x Hne. subst s1. view. by at_address t x. }
  destruct (act s1) as [s2 [e|]]; [done|]. simpl in Hact. destruct Hact as (Ea & Es & Ed & Ee).
  intros E. destruct (afterStop_down t s2 s' E) as (Fa & Fs & Fd & _ & Fe).
  split_and!; [congruence| |congruence|].
  - intros x Hne Hx. assert (x ∈ active s1) by (rewrite E1; by apply elem_of_removeAll).
    rewrite Fs, Es, E3 by (done || by rewrite Ea). done.
  - intros Hd Ha. apply Fe; congruence.
Qed.

Lemma gone_down skip t s s' :
  gone t s s' -> down_but (fun x => x = t \/ skip x) s -> down_but skip s'.
Proof.
  clear stopsNow start relocation follow.
  intros (Ea & Es & Ed & Ee) Hd Hdown. rewrite Ed in Hdown. split; [|auto].
  intros x Hx Hs. rewrite Ea in Hx. apply elem_of_removeAll in Hx as [Hne Hx].
  rewrite Es by done. apply Hd; [done..|]. tauto.
Qed.

Lemma down_weaken (skip skip' : Z -> Prop) s :
  (forall x, skip x -> skip' x) -> down_but skip s -> down_but skip' s.
Proof. intros Hs Hd Hdown. destruct (Hd Hdown) as [H1 H2]. split; [auto|done]. Qed.

Lemma stopTask_down skip t force next s s' :
  stopTask stopsNow relocation t force next s = (s', None) ->
  down_but (fun x => x = t \/ skip x) s ->
  down_but skip s' /\ shuttingDown s' = shuttingDown s.
Proof.
  clear start follow.
  unfold stopTask, read. unfold andThen, run at 1 2.
  set (s0 := update t (set_stopping true) s). set (s1 := replaceStop t s0). intros E Hd.
  assert (heap s1 = heap s0 /\ active s1 = active s /\ shuttingDown s1 = shuttingDown s /\ finished s1 = finished s /\
    posted s1 = posted s) as (Eh & Ea & Ed & Ef & Ep) by (unfold s1, replaceStop; by destruct (find _ _)).
  assert (forall x, x <> t -> stopping (heap s1 x) = stopping (heap s x)) as Hs
    by (intros x Hne; rewrite Eh; subst s0; view; by at_address t x).
  assert (down_but (fun x => x = t \/ skip x) s1) as Hd1.
  { intros Hdown. rewrite Ed in Hdown. destruct (Hd Hdown) as [H1 H2]. unfold ended. rewrite Ea, Ef, Ep. split; [|exact H2].
    intros x Hx Hsk. rewrite Hs by tauto. by apply H1. }
  destruct (stopsNow t force s1).
  - apply stopDone_gone in E. split; [by eapply gone_down|]. rewrite <- Ed. apply E.
  - injection E as <-. split; [|done]. intros Hdown. destruct (Hd1 Hdown) as [H1 H2].
    split; [|exact H2]. intros x Hx Hsk. destruct (decide (x = t)) as [->|Hne].
    + simpl. rewrite Eh. subst s0. view. at_address t t; [done|congruence].
    + apply H1; [done|tauto].
Qed.

Lemma stopTask_down_ok t force next s s' :
  stopTask stopsNow relocation t force next s = (s', None) -> down_ok s -> down_ok s'.
Proof.
  clear start follow.
  intros E Hd. eapply stopTask_down; [exact E|]. eapply down_weaken; [|exact Hd]. tauto.
Qed.

(** Actions that keep [down_ok], however they end. *)
Definition keeping a : Prop := forall s s' e, a s = (s', e) ->
  e <> Some OutOfRange -> e <> Some NullDisk -> down_ok s -> down_ok s'.

Lemma keeping_settling a : settling a -> keeping a.
Proof. intros Ha s s' e E _ _. specialize (Ha s). rewrite E in Ha. by apply settled_down. Qed.
Lemma keeping_then a b : keeping a -> keeping b -> keeping (a ;; b).
Proof.
  intros Ha Hb s s' e. unfold andThen. destruct (a s) as [s1 [e1|]] eqn:E.
  - intros [= <- <-]. by apply (Ha s).
  - intros Eb H1 H2 Hd. eapply (Hb s1); [done..|]. by apply (Ha s s1 None).
Qed.
Lemma keeping_read {A} (f : engine -> A) k : (forall v, keeping (k v)) -> keeping (read f k).
Proof. intros Hk s. apply (Hk (f s) s). Qed.
Lemma keeping_when c a : keeping a -> keeping (when c a).
Proof. intros Ha. destruct c; [done|]. by apply keeping_settling. Qed.
Lemma keeping_forEach {A} (l : list A) (body : A -> action) :
  (forall y : A, keeping (body y)) -> keeping (forEach l body).
Proof.
  intros Hb. induction l; simpl; [by apply keeping_settling|]. by apply keeping_then.
Qed.

Lemma stopDone_sound t next : sound (stopDone relocation t next).
Proof.
  unfold stopDone, afterStop.
  repeat match goal with
  | |- sound (andThen _ _) => apply sound_then
  | |- sound (read _ _) => apply sound_read; intros ?
  | |- sound (when _ _) => apply sound_when
  | |- sound (match ?x with _ => _ end) => destruct x
  | |- sound _ => apply sound_run
  end; apply moveFilesOf_sound.
Qed.

Lemma stopTask_keeping t force next : keeping (stopTask stopsNow relocation t force next).
Proof.
  intros s s' [e|] E H1 H2 Hd; [|by eapply stopTask_down_ok].
  assert (sound (stopTask stopsNow relocation t force next)) as Hs.
  { unfold stopTask. do 2 (apply sound_then; [done|]). apply sound_read. intros []; [apply stopDone_sound|done]. }
  destruct (Hs s s' e E) as [-> | ->]; done.
Qed.

Lemma stopDone_keeping t next : keeping (stopDone relocation t next).
Proof.
  clear stopsNow start follow.
  intros s s' [e|] E H1 H2 Hd.
  - destruct (stopDone_sound _ _ _ _ _ E) as [-> | ->]; done.
  - eapply gone_down; [by eapply stopDone_gone|]. eapply down_weaken; [|exact Hd]. tauto.
Qed.

Lemma pause_keeping t force : keeping (pause stopsNow relocation t force).
Proof.
  unfold pause. apply keeping_read. intros found. apply keeping_then.
  - apply keeping_settling. solve_settling.
  - apply keeping_read. intros task. destruct (state task);
      try (apply keeping_settling; solve_settling; fail).
    apply keeping_when, stopTask_keeping.
Qed.

Lemma pauseAll_keeping force : keeping (pauseAll stopsNow relocation force).
Proof.
  unfold pauseAll. apply keeping_then; [apply keeping_settling; solve_settling|].
  apply keeping_read. intros running. apply keeping_then; [apply keeping_forEach; intros t; apply pause_keeping|].
  apply keeping_settling. apply settling_read. intros q. apply settling_forEach. intros t.
  apply settling_run. intros s. unfold pauseWaiting. destruct (is_state Waiting t s); [|apply settled_refl].
  eapply settled_trans; [by apply (settled_update t (set_state Paused))|by apply settled_frame].
Qed.

Lemma relocate_keeping t dir_ : keeping (relocate stopsNow relocation t dir_).
Proof.
  unfold relocate. do 2 (apply keeping_read; intros ?).
  destruct v; [apply keeping_settling; solve_settling|].
  destruct v0; [|apply keeping_settling; solve_settling]. apply keeping_read. intros task.
  destruct (state task); try (apply keeping_settling; solve_settling; apply moveFilesOf_settling).
  apply keeping_then; [apply keeping_settling; solve_settling|].
  apply keeping_when, stopTask_keeping.
Qed.

Lemma unpause_settled t s : settled s (unpause t s).
Proof.
  unfold unpause. destruct (find _ _); [by apply settled_frame|].
  destruct (is_state Paused t s); [|apply settled_refl].
  eapply settled_trans; [by apply (settled_update t (set_state Waiting))|apply settled_schedule].
Qed.

Lemma filesMoved_keeping t error : keeping (run (endFileMove t) ;; filesMoved t error).
Proof.
  apply keeping_settling. unfold filesMoved. solve_settling.
  apply settling_run. intros s. apply unpause_settled.
Qed.

Lemma forEach_returns {A} (l : list A) (body : A -> action) (I : list A -> engine -> Prop) s s' :
  (forall (y : A) l s s', I (y :: l) s -> body y s = (s', None) -> I l s') ->
  I l s -> forEach l body s = (s', None) -> I [] s'.
Proof.
  intros Hb. revert s. induction l as [|y l IH]; intros s HI E; simpl in E; [by injection E as <-|].
  unfold andThen in E. destruct (body y s) as [s1 [e|]] eqn:Ey; [done|]. eapply IH; [|exact E].
  by eapply Hb.
Qed.

Lemma sound_forEach {A} (l : list A) (body : A -> action) :
  (forall y : A, sound (body y)) -> sound (forEach l body).
Proof. intros Hb. induction l; simpl; [done|]. by apply sound_then. Qed.

Lemma stopTask_sound t force next : sound (stopTask stopsNow relocation t force next).
Proof.
  unfold stopTask. do 2 (apply sound_then; [done|]). apply sound_read. intros []; [apply stopDone_sound|done].
Qed.

Lemma stopAll_down force l s s' :
  shuttingDown s = true -> down_but (fun x => x ∈ l) s ->
  forEach l (fun t => read (fun s => heap s t) (fun task =>
    when (negb (stopping task) || force) (stopTask stopsNow relocation t force Waiting))) s =
    (s', None) -> down_ok s'.
Proof.
  clear start follow.
  intros Hs Hd E.
  enough (down_but (fun x => x ∈ []) s' /\ shuttingDown s' = true) as [H _]
    by (eapply down_weaken; [|exact H]; intros x Hx; by apply elem_of_nil in Hx).
  eapply (forEach_returns _ _ (fun l s => down_but (fun x => x ∈ l) s /\ shuttingDown s = true));
    [|split; [exact Hd|exact Hs]|exact E].
  intros t l1 s1 s2 [Hd1 Hs1] E1. unfold read, when in E1.
  destruct (negb (stopping (heap s1 t)) || force) eqn:Hb.
  - rewrite <- Hs1. eapply stopTask_down; [exact E1|]. eapply down_weaken; [|exact Hd1].
    intros x Hx. by apply elem_of_cons in Hx.
  - injection E1 as <-. split; [|done]. apply orb_false_iff in Hb as [Hb%negb_false_iff _].
    intros Hdown. destruct (Hd1 Hdown) as [H1 H2]. split; [|done]. intros x Hx Hsk.
    destruct (decide (x = t)) as [->|Hne]; [done|]. apply H1; [done|].
    intros [?|?]%elem_of_cons; tauto.
Qed.

Lemma shutdown_keeping force : keeping (shutdown stopsNow relocation force).
Proof.
  intros s s' e E H1 H2 Hd. unfold shutdown, read at 1 2 in E. destruct (shuttingDown s && _).
  { by injection E as <- <-. }
  unfold andThen, run at 1 2 in E. unfold read at 1 in E.
  set (s1 := with_forceShutdown (forceShutdown s || force) (with_shuttingDown true s)) in E.
  change (active s1) with (active s) in E. destruct (active s) as [|t0 l0] eqn:Ha.
  - injection E as <- <-. intros _.
    split; [intros x Hx; simpl in Hx; rewrite Ha in Hx; by apply elem_of_nil in Hx|].
    intros _. right. simpl. apply elem_of_app. right. left.
  - destruct e as [e|].
    + exfalso. assert (forall a, sound a -> a s1 = (s', Some e) -> False) as Hbad.
      { intros a Ha' Ea. destruct (Ha' _ _ _ Ea) as [-> | ->]; done. }
      eapply Hbad; [|exact E]. apply sound_forEach. intros t. apply sound_read. intros task.
      apply sound_when, stopTask_sound.
    + eapply stopAll_down; [|..|exact E]; [done|]. intros _. split.
      * intros x Hx Hsk. simpl in Hx. rewrite Ha in Hx. done.
      * simpl. by rewrite Ha.
Qed.

Lemma tick_keeping now alive : keeping (tick stopsNow relocation now alive).
Proof.
  unfold tick. apply keeping_then; [|apply keeping_then; [|apply keeping_read; intros ?;
    apply keeping_then; [|apply keeping_read; intros ?]]].
  - apply keeping_settling, settling_run. intros s.
    destruct (_ <=? _); [by apply settled_frame|apply settled_refl].
  - apply keeping_settling, settling_run. intros s. destruct (_ && _); [|apply settled_refl].
    destruct (saveSession_shape (with_lastSessionSave now s)) as [w ->]. by apply settled_frame.
  - apply keeping_when, shutdown_keeping.
  - apply keeping_when, shutdown_keeping.
Qed.

Lemma remove_keeping t force s s' e :
  queues_ok s -> listed t s -> remove stopsNow relocation t force s = (s', e) ->
  e <> Some OutOfRange -> e <> Some NullDisk -> down_ok s -> down_ok s'.
Proof.
  intros Hq Hl E H1 H2 Hd. unfold remove, read at 1 in E. unfold andThen at 1 in E.
  destruct (find (gidOf t s) (moving s)); [by injection E as <- <-|].
  unfold skip, run at 1, read in E. change (state (heap s t)) with (stateOf t s) in E.
  assert (t ∉ active s -> down_ok (retire t Removed (update t (set_error codeRemoved "Removed")
    (with_waiting (removeAll t (waiting s)) s)))) as Hret.
  { intros Hna. eapply settled_down; [|exact Hd].
    eapply (settled_trans _ (update t (set_error codeRemoved "Removed") s)); [by apply settled_update|].
    eapply (settled_trans _ (update t (set_error codeRemoved "Removed")
      (with_waiting (removeAll t (waiting s)) s))); [by apply settled_frame|].
    by apply settled_retire. }
  assert (isQueued (stateOf t s) -> t ∉ active s) as Hna.
  { intros Hqd Ha. apply (active_state _ _ Hq) in Ha. rewrite Ha in Hqd.
    by apply queued_not_active in Hqd. }
  apply (f_equal fst) in E as E'. cbn [fst] in E'.
  destruct (stateOf t s) eqn:Hs.
  - rewrite <- E'. apply Hret, Hna. by left.
  - eapply (keeping_when _ _ (stopTask_keeping t force Removed)); [exact E|assumption..].
  - rewrite <- E'. apply Hret, Hna. by right.
  - injection E as <- <-. exact Hd.
  - injection E as <- <-. exact Hd.
  - injection E as <- <-. exact Hd.
Qed.
(** *** The other calls *)

Lemma settled_insert_heap t v s :
  t ∉ active s -> settled s (with_heap (<[t := v]> (heap s)) s).
Proof.
  intros Ht. split_and!; try done. intros x Hx. simpl.
  rewrite fn_lookup_insert_ne; [done|]. by intros <-.
Qed.

Lemma add_settled t position s : settled s (add t position s).
Proof.
  unfold add. eapply settled_trans; [|apply settled_schedule].
  eapply (settled_trans _ (update t (set_pauseOption false)
    (update t (set_state (if pauseOption (heap s t) then Paused else Waiting))
      (with_tasks (put (gidOf t s) t (tasks s)) s)))); [|by apply settled_frame].
  eapply settled_trans; [|by apply settled_update].
  eapply settled_trans; [|by apply settled_update]. by apply settled_frame.
Qed.

Lemma unpauseAll_settled s : settled s (unpauseAll s).
Proof.
  unfold unpauseAll. eapply settled_trans; [|apply settled_schedule].
  apply (foldl_inv _ (fun _ s' => settled s s')); [by apply settled_frame|].
  intros _ t s' _ Hs. unfold unpauseWaiting. destruct (_ && _); [|done].
  eapply settled_trans; [exact Hs|by apply settled_update].
Qed.

Lemma move_settled t offset how s : settled s (move t offset how s).2.
Proof.
  unfold move. destruct (indexOf _ _); [|apply settled_refl]. by apply settled_frame.
Qed.

Lemma removeResult_settled g s : settled s (removeResult g s).2.
Proof.
  unfold removeResult. destruct (list_find _ _) as [[]|]; [|apply settled_refl].
  by apply settled_frame.
Qed.

Lemma requeue_keeping t : keeping (requeue t).
Proof. apply keeping_settling. unfold requeue. solve_settling. Qed.

Lemma globalOptionsChanged_settled names s : settled s (globalOptionsChanged names s).
Proof.
  unfold globalOptionsChanged. apply (foldl_inv _ (fun _ s' => settled s s')); [apply settled_refl|].
  intros _ name s' _ Hs. case_bool_decide; [|done].
  eapply settled_trans; [exact Hs|apply settled_schedule].
Qed.

Lemma taskFailed_settled t code message s : settled s (taskFailed t code message s).
Proof.
  unfold taskFailed. eapply settled_trans; [|apply settled_post].
  eapply (settled_trans _ (update t (set_error code message) s));
    [by apply settled_update|by apply settled_frame].
Qed.

Lemma taskCompleted_settled t s :
  (forall x, x ∈ (follow t (update t (set_error codeFinished "") s)).*1 -> x ∉ active s) ->
  settled s (taskCompleted follow t s).
Proof.
  intros Hf. unfold taskCompleted. eapply settled_trans; [|apply settled_post].
  set (s1 := update t (set_error codeFinished "") s) in *.
  apply (foldl_inv _ (fun _ s' => settled s s')); [by apply settled_update|].
  intros pre [n v] s' Hin Hs. eapply settled_trans; [exact Hs|].
  eapply settled_trans; [|apply add_settled]. apply settled_insert_heap.
  destruct Hs as (-> & _). apply Hf, list_elem_of_fmap. exists (n, v). split; [done|].
  set_solver.
Qed.
Lemma fillLoop_shuttingDown fuel i limit s :
  shuttingDown (fillLoop start fuel i limit s) = shuttingDown s.
Proof.
  revert i s. induction fuel as [|fuel IH]; intros i s; simpl; [done|].
  destruct (waiting s !! i); [|done]. destruct (_ <? _); [|done].
  destruct (is_state _ _ _); rewrite IH; [|done].
  unfold startTask, startOrFail. by destruct (start _ _) as [[]|].
Qed.

Lemma fill_keeping : keeping (fill start stopsNow relocation).
Proof.
  intros s s' e E H1 H2 Hd. unfold fill, read at 1 in E. destruct (shuttingDown s) eqn:Hs; simpl in E.
  { by injection E as <- <-. }
  unfold andThen, run at 1, read at 1 in E.
  eapply (keeping_when _ _ (shutdown_keeping false)); [exact E|done|done|].
  intros Hdown. rewrite fillLoop_shuttingDown in Hdown. congruence.
Qed.

(** Popping a handler that does not end the shutdown. *)
Lemma down_pop h rest s :
  posted s = h :: rest -> h <> RunFinishShutdown -> down_ok s -> down_ok (with_posted rest s).
Proof.
  intros Hp Hne Hd Hdown. destruct (Hd Hdown) as [H1 H2]. split; [done|]. intros Ha.
  destruct (H2 Ha) as [?|Hin]; [by left|right]. rewrite Hp in Hin.
  apply elem_of_cons in Hin as [?|?]; [congruence|done].
Qed.

Lemma handOver_absent c n s : c ∉ active s -> handOver start c n s = s.
Proof. intros Hc. unfold handOver. by apply indexOf_None in Hc as ->. Qed.

Lemma handOver_shuttingDown c n s : shuttingDown (handOver start c n s) = shuttingDown s.
Proof.
  unfold handOver. destruct (indexOf _ _); [|done]. destruct (_ =? _); [|done].
  unfold startOrFail. by destruct (start _ _) as [[]|].
Qed.

Lemma retire_shuttingDown t final s : shuttingDown (retire t final s) = shuttingDown s.
Proof.
  rewrite retire_eq. destruct (trimResults_shape (retired t final s)) as (d & m & -> & _).
  unfold schedule. by destruct (scheduled _).
Qed.

Lemma retire_down t final s :
  t ∈ active s -> stopping (heap s t) = false -> down_ok s -> down_ok (retire t final s).
Proof.
  clear stopsNow start relocation follow.
  intros Ha Hst Hd Hdown. rewrite retire_shuttingDown in Hdown. destruct (Hd Hdown) as [Hstop _].
  rewrite (Hstop t Ha) in Hst; [done|tauto].
Qed.

Lemma finishShutdown_down s :
  (shuttingDown s = true -> forall x, x ∈ active s -> stopping (heap s x) = true) ->
  down_ok (finishShutdown s).
Proof.
  intros Hstop. destruct (finishShutdown_settled s) as (Ea & Eh & Ed & Ee). intros Hdown.
  rewrite Ed in Hdown. rewrite Ea, Eh. split; [auto|done].
Qed.

Lemma handOver_down c n s :
  (c ∈ active s -> stopping (heap s c) = false) -> down_ok s -> down_ok (handOver start c n s).
Proof.
  clear stopsNow relocation follow.
  intros Hc Hd. destruct (shuttingDown s) eqn:Hs.
  - rewrite handOver_absent; [done|]. intros Ha. destruct (Hd Hs) as [Hstop _].
    specialize (Hc Ha). rewrite (Hstop c Ha) in Hc; [done|tauto].
  - intros Hdown. rewrite handOver_shuttingDown, Hs in Hdown. done.
Qed.

Lemma runNext_eq h rest s :
  posted s = h :: rest ->
  runNext start stopsNow relocation s =
  match h with
  | RunFill => fill start stopsNow relocation (with_scheduled false (with_posted rest s))
  | RunRetire t final => (retire t final (with_posted rest s), None)
  | RunFinishShutdown => (finishShutdown (with_posted rest s), None)
  | RunHandOver c n v =>
      (handOver start c n (with_heap (<[n := v]> (heap s)) (with_posted rest s)), None)
  end.
Proof. intros Hp. unfold runNext, read. rewrite Hp. by destruct h. Qed.

Lemma runNext_down s s' e :
  engine_ok s ->
  (forall c n v, head (posted s) = Some (RunHandOver c n v) ->
     ~ listed n s /\ (c ∈ active s -> stopping (heap s c) = false)) ->
  runNext start stopsNow relocation s = (s', e) ->
  e <> Some OutOfRange -> e <> Some NullDisk -> down_ok s -> down_ok s'.
Proof.
  clear follow.
  intros Hok Hh E H1 H2 Hd. destruct (posted s) as [|h rest] eqn:Hp.
  { unfold runNext, read in E. rewrite Hp in E. by injection E as <- <-. }
  rewrite (runNext_eq h rest s Hp) in E.
  pose proof (down_pop h rest s Hp) as Hpop. destruct h as [|t final| |c n v].
  - apply (fill_keeping _ s' e E H1 H2).
    eapply settled_down; [|by apply Hpop]. by apply settled_frame.
  - injection E as <- <-. destruct (retiring_active s t (ok_tasks _ _ Hok t)) as [Ha Hst];
      [unfold retiring; rewrite Hp; left|]. apply retire_down; [exact Ha|exact Hst|by apply Hpop].
  - injection E as <- <-. apply finishShutdown_down. intros Hdown x Hx.
    destruct (Hd Hdown) as [Hstop _]. apply Hstop; [exact Hx|tauto].
  - injection E as <- <-. destruct (Hh c n v eq_refl) as (Hn & Hc). unfold listed in Hn.
    apply handOver_down.
    + cbn. intros Ha. rewrite fn_lookup_insert_ne; [by apply Hc|]. intros ->. tauto.
    + refine (settled_down _ _ _ (settled_insert_heap n v (with_posted rest s) _) _);
        [cbn; tauto|by apply Hpop].
Qed.
End down.
End EngineShutdown.
