(* ===== verification/EngineTheorems.v ===== *)
(** * What the task queue guarantees

    The calls an engine gets, the conditions under which they come, and the
    theorems about every state that such calls reach. *)

From stdpp Require Import functions.
From S2P Require Import Prelude StdMap Engine EngineInvariant EngineProgress EngineShutdown.

Set Default Proof Using "Type".

Module EngineTheorems.
Import Engine EngineInvariant EngineProgress EngineShutdown.

Section theorems.
Context (start : Z -> engine -> option (Z * string))
  (stopsNow : Z -> bool -> engine -> bool)
  (relocation : Z -> string -> engine -> option (list (string * string)))
  (follow : Z -> engine -> list (Z * Task)).
Implicit Types (s : engine) (t x g : Z).

Abbreviation exec := (exec start stopsNow relocation follow).

(** When a call may come. Users name tasks they found by GID. A task reports
    its end once and while it runs; new tasks have new GIDs ([assignGid]). The
    queue is only consistent if nobody stops a task whose end is reported but
    not yet processed, if the disk pool exists before files are moved, and if
    the callback of a stop does not run once a later stop has replaced it: the
    code ensures none of the three. *)
Definition call_ok (c : call) s : Prop :=
  match c with
  | Add t v _ => ~ listed t s /\ find_task (gid v) s = None /\ stopping v = false
  | Pause t _ | Remove t _ => listed t s /\ t ∉ retiring s
  | Unpause t => listed t s
  | PauseAll _ | Shutdown _ => retiring s = []
  | Relocate t _ => listed t s /\ (t ∉ retiring s) /\ disk s = true
  | FilesMoved t _ => t ∈ (fileMoves s).*1
  | Completes t => runs t s /\ fresh (follow t (update t (set_error codeFinished "") s)) s
  | Fails t _ _ => runs t s
  | StopsEarlier t => forall next, (t, next) ∉ earlier s
  | Tick now alive => tickStops now alive s = true -> retiring s = []
  | RunNext => forall c n v, head (posted s) = Some (RunHandOver c n v) ->
      ~ listed n s /\ stopping v = false /\
      (c ∈ active s -> stopping (heap s c) = false /\ c ∉ retiring s)
  | _ => True
  end.

(** When nothing takes a slot away from the count silently: a new limit comes
    with its name, and a task does not stop counting while it runs. The code
    relies on both. *)
Definition steady (c : call) s : Prop :=
  match c with
  | SetOptions names c' =>
      maxConcurrent c' = maxConcurrent (options s) \/ "max-concurrent-downloads" ∈ names
  | SetCounts t v => v = true \/ counts (heap s t) = false \/ t ∉ active s
  | RunNext => forall c n v, head (posted s) = Some (RunHandOver c n v) -> counts v = true
  | _ => True
  end.

(** The states that permitted calls reach; [extra] is what else they satisfy. *)
Definition step (extra : call -> engine -> Prop) s s' : Prop :=
  exists c, call_ok c s /\ extra c s /\ s' = (exec c s).1.
Definition reachable (extra : call -> engine -> Prop) (c : Config) (now : Z) s : Prop :=
  rtc (step extra) (create c now) s.
Definition any (_ : call) (_ : engine) : Prop := True.

Lemma create_engine_ok c now : engine_ok (create c now).
Proof.
  assert (forall x : Z, x ∉ []) as Hnil by (intros x; apply not_elem_of_nil).
  split; [split|split|intros x; split|split|]; unfold listed; simpl; try done.
  all: try (by constructor); try (by intros x Hx; apply Hnil in Hx); auto with aria2.
  - intros g x. split; [done|]. intros [[[H|[H|H]]|[]] _]; by apply Hnil in H.
  - intros x v Hx. by apply elem_of_nil in Hx.
Qed.

(** No callback of an earlier stop is left. *)
Lemma no_earlier t s : (forall next, (t, next) ∉ earlier s) -> list_find (fun c => c.1 = t) (earlier s) = None.
Proof. intros Hn. apply list_find_None, Forall_forall. intros [x next] Hin <-. by apply (Hn next). Qed.

Lemma engine_exec_ok c s : engine_ok s -> call_ok c s -> safe (exec c) s.
Proof.
  intros Hok Hc. destruct c; simpl in Hc |- *.
  - destruct Hc as (Hl & Hg & Hv). apply safe_run, add_ok.
    + by apply insert_heap_ok.
    + done.
    + unfold gidOf. simpl. by rewrite fn_lookup_insert.
    + simpl. by rewrite fn_lookup_insert.
  - destruct Hc as [Hl Hr]. eapply returns_safe; [by apply pause_ok|by intros s' [? _]].
  - by apply safe_run, unpause_ok.
  - destruct Hc as [Hl Hr]. by apply remove_ok.
  - by apply pauseAll_ok.
  - by apply safe_run, unpauseAll_ok.
  - destruct Hc as (Hl & Hr & Hd). by apply relocate_ok.
  - by apply filesMoved_ok.
  - by apply safe_run, move_to_ok.
  - by apply safe_run, removeResult_ok.
  - by apply requeue_ok.
  - by apply safe_run, purgeResults_ok.
  - eapply returns_safe; [by apply shutdown_ok|by intros s' [? _]].
  - apply safe_run. unfold globalOptionsChanged.
    apply (foldl_inv _ (fun _ s' => engine_ok s')); [by eapply engine_frame|].
    intros _ name s' _ Hok'. case_bool_decide; [by apply schedule_ok|done].
  - destruct Hc as [Hr Hf]. by apply safe_run, taskCompleted_ok.
  - by apply safe_run, taskFailed_ok.
  - apply safe_run. eapply engine_frame; [exact Hok|done..| |].
    + etrans; [apply retiring_post|]. apply app_nil_r.
    + simpl. intros t v Hin. apply elem_of_app in Hin as [?|Hin]; [done|].
      by apply list_elem_of_singleton in Hin.
  - by apply stops_ok.
  - by apply safe_read; rewrite (no_earlier t s Hc); apply safe_run.
  - apply safe_run. by apply change_counts_ok.
  - apply safe_run. destruct Hok as [Hq Hp Ht [H1 H2 H3 H4] Hmv]. split;
      [by eapply queues_frame|by eapply pending_frame|intros x; by apply (task_frame s)|by split|].
    exact Hmv.
  - by apply engine_tick_ok.
  - by apply runNext_ok.
Qed.

Lemma exec_advances c s s' e :
  engine_ok s -> call_ok c s -> steady c s -> exec c s = (s', e) ->
  e <> Some OutOfRange -> e <> Some NullDisk ->
  sched_ok s -> wake_ok s -> sched_ok s' /\ wake_ok s'.
Proof.
  intros Hok Hc Hst E H1 H2 Hs Hw.
  enough (c <> RunNext -> advances s s') as H.
  { destruct c; try (destruct (H ltac:(done)) as [G A];
      split; [by eapply grows_sched_ok|by eapply advances_wake; [split|]]; fail).
    simpl in *. eapply (runNext_progress start stopsNow relocation); [exact Hok|exact Hs|exact Hw| |exact E|exact H1|exact H2].
    intros c n v Hh. destruct (Hc c n v Hh) as [Hn _]. split; [done|by eapply Hst]. }
  intros Hne. destruct c; simpl in *;
    try match type of E with run _ _ = _ => unfold run in E; injection E as <- <- end.
  - apply add_advances. by apply grows_frame.
  - by eapply pause_advancing.
  - apply unpause_advances.
  - by eapply remove_advancing.
  - by eapply pauseAll_advancing.
  - apply unpauseAll_advances.
  - by eapply relocate_advancing.
  - by eapply filesMoved_advancing.
  - apply move_advances.
  - apply removeResult_advances.
  - by eapply requeue_advancing.
  - apply purgeResults_advances.
  - by eapply shutdown_advancing.
  - by apply setOptions_advances.
  - apply taskCompleted_advances.
  - apply taskFailed_advances.
  - apply advances_frame; try done. by apply post_grows.
  - unfold read in E. destruct (find t (stops s)) as [next|]; [|injection E as <- <-; apply advances_refl].
    eapply (advancing_then _ _ (advancing_run _ _) (stopDone_advancing _ t next)); [exact E|done|done].
    Unshelve. intros s0. apply advances_frame; try done. by apply grows_frame.
  - unfold read in E. rewrite (no_earlier t s Hc) in E. injection E as <- <-. apply advances_refl.
  - by apply setCounts_advances.
  - apply advances_frame; try done. by apply grows_frame.
  - by eapply tick_advancing.
  - done.
Qed.

Lemma stops_keeping t : keeping (exec (Stops t)).
Proof.
  simpl. apply keeping_read. intros [next|]; [|apply keeping_settling, settling_run; intros; apply settled_refl].
  apply keeping_then; [|apply stopDone_keeping].
  apply keeping_settling, settling_run. intros s. by apply settled_frame.
Qed.

Lemma exec_down c s s' e :
  engine_ok s -> call_ok c s -> exec c s = (s', e) ->
  e <> Some OutOfRange -> e <> Some NullDisk -> down_ok s -> down_ok s'.
Proof.
  intros Hok Hc E H1 H2 Hd. destruct c;
    try (by eapply stops_keeping); simpl in *;
    try match type of E with run _ _ = _ =>
      unfold run in E; injection E as <- <-; eapply settled_down; [|exact Hd] end.
  - destruct Hc as (Hl & _ & _). eapply settled_trans; [|apply add_settled].
    apply settled_insert_heap. unfold listed in Hl. tauto.
  - by eapply pause_keeping.
  - apply unpause_settled.
  - destruct Hc as [Hl _]. eapply remove_keeping; [apply Hok|exact Hl|exact E|done..].
  - by eapply pauseAll_keeping.
  - apply unpauseAll_settled.
  - by eapply relocate_keeping.
  - by eapply filesMoved_keeping.
  - apply move_settled.
  - apply removeResult_settled.
  - by eapply requeue_keeping.
  - by apply settled_frame.
  - by eapply shutdown_keeping.
  - eapply settled_trans; [|apply globalOptionsChanged_settled]. by apply settled_frame.
  - destruct Hc as [_ (_ & _ & Hf)]. apply taskCompleted_settled. intros x Hx Ha.
    apply list_elem_of_fmap in Hx as ([y v] & -> & Hin). destruct (Hf y v Hin) as [Hl _].
    apply Hl. by left.
  - apply taskFailed_settled.
  - apply settled_post.
  - unfold read in E. rewrite (no_earlier t s Hc) in E. injection E as <- <-. exact Hd.
  - by apply settled_update.
  - by apply settled_frame.
  - by eapply tick_keeping.
  - eapply runNext_down; [exact Hok| |exact E|done..]. intros c n v Hh.
    destruct (Hc c n v Hh) as (Hn & _ & Hst). split; [done|]. intros Ha. by apply Hst.
Qed.

Lemma reachable_inv (extra : call -> engine -> Prop) (P : engine -> Prop) c now s :
  P (create c now) ->
  (forall call s s' e, engine_ok s -> call_ok call s -> extra call s -> exec call s = (s', e) ->
     e <> Some OutOfRange -> e <> Some NullDisk -> P s -> P s') ->
  reachable extra c now s -> engine_ok s /\ P s.
Proof.
  intros H0 Hstep Hr.
  eapply (rtc_ind_r (fun s => engine_ok s /\ P s) (create c now)); [|clear s Hr|exact Hr].
  { split; [apply create_engine_ok|done]. }
  intros s1 s2 _ (call & Hc & Hx & ->) [Hok HP].
  destruct (engine_exec_ok call s1 Hok Hc) as (s' & e & E & Hok' & H1 & H2). rewrite E.
  split; [done|]. exact (Hstep call s1 s' e Hok Hc Hx E H1 H2 HP).
Qed.

Lemma reachable_engine_ok extra c now s : reachable extra c now s -> engine_ok s.
Proof. intros Hr. by apply (reachable_inv extra (fun _ => True) c now s) in Hr as [? _]. Qed.

Lemma reachable_wake c now s :
  reachable steady c now s -> engine_ok s /\ sched_ok s /\ wake_ok s.
Proof.
  apply (reachable_inv steady (fun s => sched_ok s /\ wake_ok s)).
  - split; [done|]. by intros (_ & _ & ?).
  - intros call s1 s2 e Hok Hc Hst E H1 H2 [Hs Hw]. by eapply exec_advances.
Qed.

Lemma reachable_down extra c now s : reachable extra c now s -> engine_ok s /\ down_ok s.
Proof.
  apply reachable_inv; [by intros ?|]. intros call s1 s2 e Hok Hc _ E H1 H2 Hd.
  by eapply exec_down.
Qed.

(** ** Ending a shutdown *)

(** Runs the calls one after the other; an exception ends a call, not the loop. *)
Definition execAll (l : list call) s : engine := foldl (fun s c => (exec c s).1) s l.

(** What the loop needs to end: nothing is active and the end is posted. *)
Definition ending (n : nat) s : Prop :=
  shuttingDown s = true /\ active s = [] /\
  (finished s = true \/ posted s !! n = Some RunFinishShutdown).

Lemma runNext_ending n s :
  ending n s -> finished s = true \/
    (if n is S m then ending m (exec RunNext s).1 else finished (exec RunNext s).1 = true).
Proof.
  intros (Hd & Ha & [Hf|Hp]); [by left|right]. simpl.
  destruct (posted s) as [|h rest] eqn:Hps; [done|].
  rewrite (runNext_eq start stopsNow relocation h rest s Hps). destruct n as [|m]; simpl in Hp.
  { injection Hp as ->. simpl. unfold finishShutdown. destruct (finished (with_posted rest s)) eqn:Hf; [done|].
    destruct (saveSession_shape (with_finished true (with_posted rest s))) as [w ->].
    by destruct (ed2kRuns _). }
  apply lookup_lt_Some in Hp as Hlt. destruct h as [|t final| |c x v]; cbn [fst].
  - unfold fill, read. change (shuttingDown (with_scheduled false (with_posted rest s))) with (shuttingDown s).
    rewrite Hd. split_and!; [done|done|by right].
  - rewrite retire_eq. destruct (trimResults_shape (retired t final (with_posted rest s))) as (d & k & -> & _).
    unfold schedule. case_match; (split_and!; [done|simpl; by rewrite Ha|right; simpl]); [done|].
    by rewrite lookup_app_l.
  - destruct (finishShutdown_settled (with_posted rest s)) as (Ea & _ & Ed & _).
    split_and!; [by rewrite Ed|by rewrite Ea|]. unfold finishShutdown.
    destruct (finished (with_posted rest s)) eqn:Hf; [by left|].
    destruct (saveSession_shape (with_finished true (with_posted rest s))) as [w ->].
    by destruct (ed2kRuns _); left.
  - rewrite handOver_absent; [split_and!; [done|done|by right]|]. simpl. rewrite Ha.
    apply not_elem_of_nil.
Qed.

Lemma drain n s : ending n s -> exists k, finished (execAll (replicate k RunNext) s) = true.
Proof.
  revert s. induction n as [|n IH]; intros s He;
    (destruct (runNext_ending _ _ He) as [Hf|Hn]; [by exists O|]).
  - by exists 1%nat.
  - destruct (IH _ Hn) as [k Hk]. by exists (S k).
Qed.

Lemma stops_all l s :
  engine_ok s -> down_ok s -> shuttingDown s = true -> active s = l ->
  let s' := execAll (Stops <$> l) s in
  engine_ok s' /\ down_ok s' /\ shuttingDown s' = true /\ active s' = [].
Proof.
  revert s. induction l as [|t l IH]; intros s Hok Hd Hs Ha; [done|].
  change (execAll (Stops <$> t :: l) s) with (execAll (Stops <$> l) (exec (Stops t) s).1).
  assert (t ∈ active s) as Ht by (rewrite Ha; left).
  assert (stopping (heap s t) = true) as Hst by (apply (Hd Hs); [done|tauto]).
  destruct (stopping_held s t (ok_tasks _ _ Hok t) Ht Hst) as [next Hn].
  destruct (engine_exec_ok (Stops t) s Hok I) as (s1 & e & E & Hok1 & H1 & H2).
  pose proof (exec_down (Stops t) s s1 e Hok I E H1 H2 Hd) as Hd1.
  rewrite E. cbn [fst]. simpl in E. unfold read in E. rewrite Hn in E.
  change ((run (fun s => with_stops (erase t (stops s)) s) ;; stopDone relocation t next) s)
    with (stopDone relocation t next (with_stops (erase t (stops s)) s)) in E.
  assert (e = None) as ->.
  { destruct e as [e|]; [|done]. destruct (stopDone_sound _ _ _ _ _ _ E) as [-> | ->]; done. }
  destruct (stopDone_gone _ _ _ _ _ E) as (Ea & _ & Ed & _).
  apply IH; [exact Hok1|exact Hd1|by rewrite Ed|]. rewrite Ea. simpl. rewrite Ha.
  pose proof (active_nodup _ _ (ok_queues _ _ Hok)) as Hnd. rewrite Ha in Hnd.
  apply NoDup_cons in Hnd as [Hnin _]. unfold removeAll. rewrite filter_cons_False by tauto.
  by apply removeAll_absent.
Qed.

(** ** Properties *)


(** C14. No lost wake-up: under the conditions of [call_ok], if besides
    no download stops counting while it runs and a new limit is announced by
    its name ([steady]), then on an engine that is not shutting down, whenever
    fewer downloads run than [max-concurrent-downloads] allows and one waits,
    the loop has exactly one [fill] to run. *)
Theorem no_lost_wakeup c now s :
  reachable steady c now s -> shuttingDown s = false ->
  activeCount s < to_size (maxConcurrent (options s)) ->
  (exists t, t ∈ waiting s /\ stateOf t s = Waiting) ->
  fills (posted s) = 1%nat.
Proof.
  intros Hr Hd Hn Hq. apply reachable_wake in Hr as (_ & Hs & Hw).
  unfold sched_ok in Hs. rewrite Hs, Hw; [done|]. split_and!; [done..|]. by apply queued_true.
Qed.

(** C16. A shutdown comes to its end: once every active task has called the
    callback it was given, the handlers the loop has posted finish it, whatever
    calls came before that satisfy [call_ok]. *)
Theorem shutdown_completes c now s :
  reachable any c now s -> shuttingDown s = true ->
  exists k, finished (execAll ((Stops <$> active s) ++ replicate k RunNext) s) = true.
Proof.
  intros Hr Hs. destruct (reachable_down _ _ _ _ Hr) as [Hok Hd].
  destruct (stops_all (active s) s Hok Hd Hs eq_refl) as (Hok' & Hd' & Hs' & Ha').
  set (s1 := execAll (Stops <$> active s) s) in *.
  assert (exists n, ending n s1) as [n Hn].
  { destruct (Hd' Hs') as [_ He]. destruct (He Ha') as [Hf|Hin].
    - exists O. split_and!; [done|done|by left].
    - apply list_elem_of_lookup in Hin as [n Hn]. exists n. split_and!; [done|done|by right]. }
  destruct (drain n s1 Hn) as [k Hk]. exists k. unfold execAll in *. by rewrite foldl_app.
Qed.

Lemma idle_shutdown s s' e :
  active s = [] -> shutdown stopsNow relocation false s = (s', e) ->
  active s' = active s /\ waiting s' = waiting s /\ heap s' = heap s /\
  options s' = options s /\ shuttingDown s' = true /\ e = None.
Proof.
  clear start follow. unfold shutdown, read. intros Ha. destruct (shuttingDown s && _) eqn:Hd.
  - intros [= <- <-]. by apply andb_prop in Hd as [-> _].
  - unfold andThen, run. simpl. rewrite Ha. intros [= <- <-]. done.
Qed.

(** C15. When the loop fills the free slots of a reachable engine that is not shutting
    down, it starts the first of the waiting downloads in the order of the
    queue, paused ones aside, never more than the limit allows, and it stops
    only because the limit is reached or none is left; if then nothing runs or
    waits and RPC is off, the shutdown begins. *)
Theorem fill_starts_in_order extra c now s s' e :
  reachable extra c now s -> shuttingDown s = false -> fill start stopsNow relocation s = (s', e) ->
  let limit := to_size (maxConcurrent (options s)) in
  e = None /\
  (exists started, active s' = active s ++ started /\ startable s = started ++ startable s') /\
  (limit <= activeCount s' \/ startable s' = []) /\
  activeCount s' <= Z.max (activeCount s) limit /\
  shuttingDown s' =
    bool_decide (active s' = []) && bool_decide (startable s' = []) && negb (enableRpc (options s)).
Proof.
  intros Hr Hd E limit. apply reachable_engine_ok in Hr. unfold fill, read in E. rewrite Hd in E.
  simpl in E. unfold andThen, run in E.
  destruct (fillLoop_spec start (length (waiting s)) 0 limit s) as (Hst & Hend & [_ Hb] & Ho & Hdown & _);
    [by apply (waiting_nodup _ _ (ok_queues _ _ Hr))|lia|intros x Hx; by apply elem_of_nil in Hx|].
  fold limit in E. set (s1 := fillLoop _ _ _ _ s) in *.
  assert (queued s1 = negb (bool_decide (startable s1 = []))) as Hq.
  { apply Bool.eq_true_iff_eq. rewrite queued_true, negb_true_iff, bool_decide_eq_false. split.
    - intros (t & Ht & Hs) Hn. assert (t ∈ startable s1) as Hin by by apply list_elem_of_filter.
      rewrite Hn in Hin. by apply elem_of_nil in Hin.
    - intros Hn. destruct (startable s1) as [|t l] eqn:El; [done|]. exists t.
      assert (t ∈ startable s1) as Hin by (rewrite El; left).
      apply list_elem_of_filter in Hin as [? ?]. done. }
  rewrite Hq, negb_involutive, Ho in E.
  destruct (bool_decide (active s1 = []) && _ && _) eqn:Hidle; simpl in E.
  - apply andb_prop in Hidle as [[Ha%bool_decide_eq_true Hn%bool_decide_eq_true]%andb_prop Hrpc].
    destruct (idle_shutdown s1 s' e Ha E) as (Ea & Ew & Eh & Eo & -> & ->).
    assert (startable s' = startable s1) as Es by (unfold startable, stateOf; by rewrite Ew, Eh).
    assert (activeCount s' = activeCount s1) as Ec by (unfold activeCount; by rewrite Ea, Eh).
    rewrite Es, Ec, Ea, !bool_decide_eq_true_2, Hrpc by done.
    split_and!; [done|exact Hst|exact Hend|exact Hb|done].
  - injection E as <- <-. rewrite Hidle. split_and!; [done|exact Hst|exact Hend|exact Hb|congruence].
Qed.

(** ** Where the conditions fail *)

(** Steps that keep what a later stop of a task looks at. *)
Record apart s s' : Prop := {
  ap_heap : heap s' = heap s;
  ap_waiting : waiting s' = waiting s;
  ap_moving : moving s' = moving s;
  ap_stops : stops s' = stops s;
  ap_earlier : earlier s' = earlier s;
  ap_trace : trace s' = trace s;
  ap_posted : exists l, posted s' = posted s ++ l;
}.
Lemma apart_refl s : apart s s.
Proof. split; try done. exists []. by rewrite app_nil_r. Qed.
Lemma apart_trans s1 s2 s3 : apart s1 s2 -> apart s2 s3 -> apart s1 s3.
Proof.
  intros [?????? [l1 E1]] [?????? [l2 E2]]. split; try congruence. exists (l1 ++ l2). by rewrite E2, E1, app_assoc.
Qed.
Lemma apart_frame s s' :
  heap s' = heap s -> waiting s' = waiting s -> moving s' = moving s -> stops s' = stops s -> earlier s' = earlier s ->
  trace s' = trace s -> posted s' = posted s -> apart s s'.
Proof. intros. split; try done. exists []. by rewrite app_nil_r. Qed.
Lemma apart_schedule s : apart s (schedule s).
Proof. unfold schedule. destruct (scheduled s); [apply apart_refl|]. split; try done. by exists [RunFill]. Qed.
Lemma apart_finishShutdown s : apart s (finishShutdown s).
Proof.
  unfold finishShutdown. destruct (finished s); [apply apart_refl|].
  destruct (saveSession_shape (with_finished true s)) as [v ->]. destruct (ed2kRuns _); by apply apart_frame.
Qed.
Lemma afterStop_apart t s :
  find (gidOf t s) (moving s) = None -> exists s', afterStop relocation t s = (s', None) /\ apart s s'.
Proof.
  clear start stopsNow follow. intros Hm. unfold afterStop, read, andThen. rewrite Hm. cbv beta iota. unfold skip, run at 1.
  destruct (shuttingDown s && _); eexists; (split; [done|]).
  - eapply apart_trans; [apply apart_finishShutdown|apply apart_schedule].
  - apply apart_schedule.
Qed.

(** A task without a move that stops to be paused or removed. *)
Lemma stopDone_paused t s :
  find (gidOf t s) (moving s) = None ->
  exists s', stopDone relocation t Paused s = (s', None) /\ waiting s' = t :: waiting s /\
    heap s' t = set_state Paused (set_stopping false (heap s t)) /\ moving s' = moving s /\ stops s' = stops s /\
    earlier s' = earlier s /\ trace s' = trace s ++ [(EventPause, t)] /\ exists l, posted s' = posted s ++ l.
Proof.
  clear start stopsNow follow. intros Hm. unfold stopDone. unfold andThen at 1 2 3 4 5, run, when. cbv beta iota. simpl.
  match goal with |- context [afterStop relocation t ?u] => set (s1 := u) end.
  assert (gidOf t s1 = gidOf t s) as Hg by (subst s1; view; at_address t t; [done|congruence]).
  destruct (afterStop_apart t s1) as (s' & -> & [Eh Ew Em Es Ee Et Ep]); [by rewrite Hg|].
  exists s'. split_and!; [done|by rewrite Ew| |by rewrite Em|by rewrite Es|by rewrite Ee|by rewrite Et|done].
  rewrite Eh. subst s1. view. at_address t t; [done|congruence].
Qed.
Lemma retire_apart t final s :
  heap (retire t final s) t = set_state final (heap s t) /\ waiting (retire t final s) = waiting s /\
  moving (retire t final s) = moving s /\ stops (retire t final s) = stops s /\ (finalEvent final, t) ∈ trace (retire t final s) /\
  earlier (retire t final s) = earlier s.
Proof.
  clear start stopsNow follow relocation.
  rewrite retire_eq. destruct (trimResults_shape (retired t final s)) as (d & m & -> & _).
  destruct (apart_schedule (with_stopped d (with_tasks m (retired t final s)))) as [-> -> -> -> -> -> _].
  split_and!; try done.
  - view. at_address t t; [done|congruence].
  - simpl. apply elem_of_app. right. by left.
Qed.
(** A running download has no move and holds no callback. *)
Lemma running_free t s :
  engine_ok s -> t ∈ active s -> stopping (heap s t) = false ->
  find (gidOf t s) (moving s) = None /\ find t (stops s) = None /\ stateOf t s = Active.
Proof.
  clear start stopsNow relocation follow. intros Hok Ha Hs. split_and!.
  - destruct (find (gidOf t s) (moving s)) as [m|] eqn:Hf; [|done].
    pose proof (active_move_waits t m s Hok Ha Hf) as Hm.
    destruct (ok_move _ _ Hok _ m (fun F => F) Hf) as (x & Hg & Hx). rewrite Hm in Hx. destruct Hx as [Hx Hst].
    assert (t = x) as <- by (apply (listed_gid_inj s); unfold listed; auto; apply (ok_queues _ _ Hok)). congruence.
  - destruct (find t (stops s)) eqn:Hf; [|done]. apply (stops_active s t (ok_tasks _ _ Hok t)) in Hf as (_ & ? & _). congruence.
  - by apply (active_state _ _ (ok_queues _ _ Hok)).
Qed.
(** Pausing it calls [stopTask]. *)
Lemma pause_running t force s :
  engine_ok s -> t ∈ active s -> stopping (heap s t) = false ->
  let s0 := update t (set_stopping true) s in
  exec (Pause t force) s =
    (if stopsNow t force s0 then stopDone relocation t Paused s0 else (with_stops (put t Paused (stops s)) s0, None)).
Proof.
  intros Hok Ha Hs s0. destruct (running_free t s Hok Ha Hs) as (Hm & Hf & Hst). simpl.
  unfold pause, read, andThen. rewrite Hm. unfold skip, run at 1. unfold stateOf in Hst. rewrite Hst, Hs. simpl.
  unfold stopTask, andThen, run, read. fold s0. unfold replaceStop. change (stops s0) with (stops s). rewrite Hf.
  by destruct (stopsNow t force s0).
Qed.

Lemma run_retire t final rest s :
  posted s = RunRetire t final :: rest -> (exec RunNext s).1 = retire t final (with_posted rest s).
Proof. intros Hp. change (exec RunNext s) with (runNext start stopsNow relocation s). by rewrite (runNext_eq _ _ _ _ _ _ Hp). Qed.
Lemma stops_held t s :
  exec (Stops t) s = match find t (stops s) with
    | Some next => stopDone relocation t next (with_stops (erase t (stops s)) s)
    | None => (s, None)
    end.
Proof. simpl. unfold read. by destruct (find t (stops s)). Qed.

Lemma execAll_cons call l s : execAll (call :: l) s = execAll l (exec call s).1.
Proof. done. Qed.
Lemma execAll_nil s : execAll [] s = s.
Proof. done. Qed.

(** The posted retirement runs ... *)
Lemma retire_runs t final rest s :
  posted s = RunRetire t final :: rest ->
  exists s2, (exec RunNext s).1 = s2 /\ gidOf t s2 = gidOf t s /\ waiting s2 = waiting s /\ moving s2 = moving s /\
    stops s2 = stops s /\ (finalEvent final, t) ∈ trace s2.
Proof.
  intros Hp. exists (retire t final (with_posted rest s)). split; [by apply run_retire|].
  destruct (retire_apart t final (with_posted rest s)) as (Eh & Ew & Em & Es & Htr & _).
  split_and!; [|exact Ew|exact Em|exact Es|exact Htr]. unfold gidOf. by rewrite Eh.
Qed.
(** ... and the task calls the callback it holds. *)
Lemma paused_after t s ev :
  find (gidOf t s) (moving s) = None -> find t (stops s) = Some Paused -> ev ∈ trace s ->
  exists s3, (exec (Stops t) s).1 = s3 /\ t ∈ waiting s3 /\ ev ∈ trace s3.
Proof.
  intros Hm Hf Htr. rewrite stops_held, Hf.
  destruct (stopDone_paused t (with_stops (erase t (stops s)) s) Hm) as (s3 & -> & Hw3 & _ & _ & _ & _ & Ht3 & _).
  exists s3. rewrite Hw3, Ht3. split; [done|]. split; [by left|]. apply elem_of_app. by left.
Qed.
Lemma retire_then_stop t final rest s :
  posted s = RunRetire t final :: rest -> find (gidOf t s) (moving s) = None ->
  (find t (stops s) = None /\ t ∈ waiting s) \/ find t (stops s) = Some Paused ->
  exists s', execAll [RunNext; Stops t] s = s' /\ t ∈ waiting s' /\ (finalEvent final, t) ∈ trace s'.
Proof.
  intros Hp Hm Hcase. rewrite execAll_cons. destruct (retire_runs t final rest s Hp) as (s2 & -> & Eg & Ew & Em & Es & Htr).
  rewrite execAll_cons. destruct Hcase as [[Hf Hw]|Hf].
  - rewrite stops_held, Es, Hf. exists s2. by rewrite Ew.
  - apply paused_after; congruence.
Qed.

(** C38. The condition on downloads whose end is posted but not processed is
    needed: if such a download is paused and the loop then retires it, and the
    task calls back if it did not at once, the download is in the waiting queue
    although the listeners were told its end, on every engine and for every
    task. *)
Theorem pause_before_retirement_duplicates c now s t final rest force :
  reachable any c now s -> posted s = RunRetire t final :: rest ->
  let s' := execAll [Pause t force; RunNext; Stops t] s in
  t ∈ waiting s' /\ (finalEvent final, t) ∈ trace s'.
Proof.
  intros Hr Hp s'. enough (exists s1, execAll [Pause t force; RunNext; Stops t] s = s1 /\ t ∈ waiting s1 /\ (finalEvent final, t) ∈ trace s1)
    as (s1 & E & Hs1) by (subst s'; by rewrite E). clear s'. apply reachable_engine_ok in Hr as Hok.
  assert (t ∈ retiring s) as Hret by (unfold retiring; rewrite Hp; by left).
  destruct (retiring_active s t (ok_tasks _ _ Hok t) Hret) as [Ha Hs].
  destruct (running_free t s Hok Ha Hs) as (Hm & Hf & _). pose proof (stops_sorted s (ok_pending _ _ Hok)) as Hss.
  rewrite execAll_cons, (pause_running t force s Hok Ha Hs). set (s0 := update t (set_stopping true) s).
  assert (gidOf t s0 = gidOf t s) as Hg by (subst s0; view; at_address t t; [done|congruence]).
  assert (moving s0 = moving s /\ stops s0 = stops s /\ posted s0 = posted s) as (Em0 & Es0 & Ep0) by done.
  destruct (stopsNow t force s0); clearbody s0.
  - destruct (stopDone_paused t s0) as (s1 & -> & Hw1 & Hh1 & Em1 & Es1 & _ & _ & l & Hp1); [by rewrite Hg, Em0|].
    cbn [fst]. apply (retire_then_stop t final (rest ++ l)).
    + by rewrite Hp1, Ep0, Hp.
    + unfold gidOf in *. by rewrite Hh1, Em1, Em0; simpl; rewrite Hg.
    + left. rewrite Es1, Es0, Hw1. split; [done|by left].
  - apply (retire_then_stop t final rest); simpl; [by rewrite Ep0| |by right; apply find_put_eq].
    unfold gidOf in *. simpl. by rewrite Em0, Hg.
Qed.

(** A task that is removed while it waits. *)
Lemma stopDone_removed t s :
  find (gidOf t s) (moving s) = None ->
  exists s', stopDone relocation t Removed s = (s', None) /\ waiting s' = waiting s /\ stateOf t s' = Removed.
Proof.
  clear start stopsNow follow. intros Hm. unfold stopDone. unfold andThen at 1 2 3 4, run. cbv beta iota.
  match goal with |- context [retire t Removed ?u] => set (s1 := u) end.
  assert (gidOf t s1 = gidOf t s) as Hg by (subst s1; view; at_address t t; [done|congruence]).
  assert (waiting s1 = waiting s /\ moving s1 = moving s) as [Ew1 Em1] by done. clearbody s1.
  destruct (retire_apart t Removed s1) as (Eh & Ew & Em & _). set (s2 := retire t Removed s1) in *. clearbody s2.
  destruct (afterStop_apart t s2) as (s' & -> & [Eh' Ew' _ _ _ _ _]).
  - unfold gidOf in *. rewrite Eh, Em, Em1. simpl. by rewrite Hg.
  - exists s'. unfold stateOf. rewrite Ew', Ew, Ew1, Eh', Eh. done.
Qed.

(** A second stop, with force, of a task that does not stop at once. *)
Lemma remove_stopping t s :
  sorted (stops s) -> stateOf t s = Active -> find (gidOf t s) (moving s) = None -> find t (stops s) = Some Paused ->
  (forall s1, stopsNow t true s1 = false) ->
  exists s', (exec (Remove t true) s).1 = s' /\ gidOf t s' = gidOf t s /\ waiting s' = waiting s /\ moving s' = moving s /\
    find t (stops s') = Some Removed /\ earlier s' = earlier s ++ [(t, Paused)].
Proof.
  intros Hss Hst Hm Hf Hn. simpl. unfold remove, read, andThen. rewrite Hm. unfold skip, run at 1. unfold stateOf in Hst.
  rewrite Hst, orb_true_r. simpl. unfold stopTask, andThen, run, read. rewrite Hn. unfold replaceStop.
  change (stops (update t (set_stopping true) s)) with (stops s). rewrite Hf. cbn [fst].
  eexists. split; [done|]. split_and!; try done.
  - view. at_address t t; [done|congruence].
  - simpl. apply find_put_eq. auto with aria2.
Qed.
Lemma earlier_runs t s old :
  earlier s = old ++ [(t, Paused)] -> (forall next, (t, next) ∉ old) -> find (gidOf t s) (moving s) = None ->
  exists s', (exec (StopsEarlier t) s).1 = s' /\ t ∈ waiting s' /\ gidOf t s' = gidOf t s /\ moving s' = moving s /\
    stops s' = stops s.
Proof.
  intros He Hno Hm. simpl. unfold read. rewrite He.
  assert (list_find (fun c => c.1 = t) (old ++ [(t, Paused)]) = Some (length old, (t, Paused))) as ->.
  { rewrite list_find_app_r; [simpl; rewrite decide_True by done; simpl; do 2 f_equal; lia|].
    apply list_find_None, Forall_forall. intros [x next] Hin <-. by apply (Hno next). }
  unfold andThen, run. match goal with |- context [stopDone relocation t Paused ?u] => set (s1 := u) end.
  destruct (stopDone_paused t s1) as (s' & -> & Hw & Hh & Em & Es & _); [exact Hm|].
  exists s'. rewrite Hw, Em, Es. unfold gidOf. rewrite Hh. split_and!; try done. by left.
Qed.

(** The condition on replaced callbacks is needed: if a running download is
    paused and, before its task has stopped, removed with force, and the task
    has passed the first callback on, as [HttpTask] does, so that both run,
    then the download stays in the waiting queue although it is removed. *)
Lemma second_stop_duplicates c now s t force :
  reachable any c now s -> t ∈ active s -> stopping (heap s t) = false ->
  (forall next, (t, next) ∉ earlier s) -> (forall f s1, stopsNow t f s1 = false) ->
  let s' := execAll [Pause t force; Remove t true; StopsEarlier t; Stops t] s in
  t ∈ waiting s' /\ stateOf t s' = Removed.
Proof.
  intros Hr Ha Hs Hno Hn s'. enough (exists s1, execAll [Pause t force; Remove t true; StopsEarlier t; Stops t] s = s1 /\
    t ∈ waiting s1 /\ stateOf t s1 = Removed) as (s1 & E & Hs1) by (subst s'; by rewrite E). clear s'.
  apply reachable_engine_ok in Hr as Hok. destruct (running_free t s Hok Ha Hs) as (Hm & Hf & Hst).
  pose proof (stops_sorted s (ok_pending _ _ Hok)) as Hss.
  rewrite execAll_cons, (pause_running t force s Hok Ha Hs), Hn. cbn [fst].
  set (s1 := with_stops _ _). assert (gidOf t s1 = gidOf t s /\ stateOf t s1 = Active) as [Hg1 Hst1]
    by (subst s1; unfold stateOf in Hst; view; at_address t t; [done|congruence]).
  assert (moving s1 = moving s /\ find t (stops s1) = Some Paused /\ earlier s1 = earlier s /\ sorted (stops s1)) as (Em1 & Ef1 & Ee1 & Hs1)
    by (subst s1; simpl; split_and!; [done|by apply find_put_eq|done|auto with aria2]). clearbody s1.
  rewrite execAll_cons.
  destruct (remove_stopping t s1) as (s2 & -> & Hg2 & _ & Em2 & Ef2 & Ee2); [done|done|congruence|done|done|].
  rewrite execAll_cons. destruct (earlier_runs t s2 (earlier s)) as (s3 & -> & Hw3 & Hg3 & Em3 & Es3); [congruence|done|congruence|].
  rewrite execAll_cons, stops_held, Es3, Ef2.
  destruct (stopDone_removed t (with_stops (erase t (stops s2)) s3)) as (s4 & -> & Hw4 & Hst4); [unfold gidOf in *; simpl; congruence|].
  exists s4. rewrite Hw4. done.
Qed.
End theorems.

(** ** The number of results *)

(** [trim] goes through the results from the oldest on. *)
Lemma trim_spec keep limit h l size kept dropped :
  0 <= limit -> trim keep limit size h l = (kept, dropped) -> size = zlength l \/ zlength l <= size ->
  exists old new, l = old ++ new /\
    kept = filter (fun t => keep && negb (bool_decide (state (h t) = Complete)) = true) old ++ new /\
    dropped = filter (fun t => keep && negb (bool_decide (state (h t) = Complete)) = false) old /\
    (new = [] \/ size - zlength dropped <= limit) /\
    (dropped = [] \/ limit <= size - zlength dropped).
Proof.
  intros Hl. revert size kept dropped. induction l as [|t l IH]; intros size kept dropped E Hsz; simpl in E.
  { injection E as <- <-. exists [], []. split_and!; auto. }
  destruct (Z.ltb_spec limit size) as [Hlt|Hge].
  2: { injection E as <- <-. exists [], (t :: l). split_and!; auto. right. unfold zlength. simpl. lia. }
  assert (Z.of_nat (length (t :: l)) = zlength l + 1) as Hlen by (unfold zlength; simpl; lia).
  destruct (keep && negb _) eqn:Hk;
    (destruct (trim keep limit _ h l) as [kept1 dropped1] eqn:E1); injection E as <- <-;
    (destruct (IH _ _ _ E1) as (old & new & -> & -> & -> & Hnew & Hdrop);
      [unfold zlength in *; simpl in *; lia|]); exists (t :: old), new; rewrite !filter_cons, Hk; simpl;
    (split_and!; [done..| |]); unfold zlength in *; simpl.
  - exact Hnew.
  - exact Hdrop.
  - destruct Hnew as [?|?]; [by left|right; lia].
  - right. destruct Hdrop as [E|?]; [rewrite E; simpl; lia|lia].
Qed.

(** Retired downloads are kept up to [max-download-result]: the oldest go
    first, those not complete are spared when [keep-unfinished-download-result]
    is set, and no more are dropped than the limit demands. *)
Lemma results_limited s :
  let limit := to_size (maxResult (options s)) in
  let spared t := keepUnfinished (options s) && negb (is_state Complete t s) = true in
  let s' := trimResults s in
  (exists old new, stopped s = old ++ new /\
     stopped s' = filter (fun t => spared t) old ++ new /\
     tasks s' = foldl (fun m t => erase (gidOf t s) m) (tasks s) (filter (fun t => ~ spared t) old) /\
     (zlength (stopped s') <= limit \/ new = [])) /\
  (stopped s' = stopped s \/ limit <= zlength (stopped s')).
Proof.
  intros limit spared s'. subst s'. unfold trimResults. fold limit.
  destruct (trim _ _ _ _ _) as [kept dropped] eqn:E.
  assert (0 <= limit) as H0 by by apply Z.mod_pos_bound.
  destruct (trim_spec _ _ _ _ _ _ _ H0 E (or_introl eq_refl))
    as (old & new & Hl & Hk & Hdr & Hnew & Hdrop).
  assert (zlength kept = zlength (stopped s) - zlength dropped) as Hlen.
  { rewrite Hk, Hdr, Hl. unfold zlength. rewrite !length_app. clear. induction old as [|t old IH]; simpl; [lia|].
    rewrite !filter_cons. repeat case_decide; simpl; try lia; destruct (keepUnfinished _ && _); congruence. }
  assert (filter (fun t => ~ spared t) old = dropped) as Hf.
  { rewrite Hdr. apply list_filter_iff. intros t. subst spared. simpl.
    unfold is_state, stateOf. destruct (_ && _); naive_solver. }
  simpl. split.
  - exists old, new. split_and!; [done|exact Hk|by rewrite Hf|].
    destruct Hnew as [?|?]; [by right|left; lia].
  - destruct Hdrop as [Hd|?]; [left|right; lia]. subst dropped. rewrite Hl, Hk. f_equal.
    rewrite Hd in Hf. apply filter_everything. intros t Ht. destruct (decide (spared t)); [done|].
    assert (t ∈ filter (fun t => ~ spared t) old) as Hin by by apply list_elem_of_filter.
    rewrite Hf in Hin. by apply elem_of_nil in Hin.
Qed.

(** ** Positions in the queue *)

Lemma indexOf_take t l i : indexOf t l = Some i -> t ∉ take i l.
Proof.
  revert i. induction l as [|x l IH]; intros i; simpl; [done|]. case (Z.eqb_spec x t) as [->|Hne].
  - intros [= <-]. apply not_elem_of_nil.
  - destruct (indexOf t l) as [j|]; [|done]. intros [= <-]. simpl.
    rewrite not_elem_of_cons. split; [congruence|by apply IH].
Qed.

Lemma removeAll_app t (l k : list Z) : removeAll t (l ++ k) = removeAll t l ++ removeAll t k.
Proof. unfold removeAll. apply filter_app. Qed.

(** [move] puts a waiting download at the requested position, counted from
    the front, from where it stands or from the end and limited to the queue,
    and keeps the order of the others; anything else is refused and changes
    nothing. *)
Lemma move_to_position t offset how s :
  NoDup (waiting s) ->
  match move t offset how s with
  | (inr _, s') => (t ∉ waiting s) /\ s' = s
  | (inl p, s') => exists i, waiting s !! i = Some t /\
      let last := zlength (waiting s) - 1 in
      let wanted := match how with
                    | PositionSet => offset
                    | PositionCurrent => Z.of_nat i + offset
                    | PositionEnd => last + offset
                    end in
      p = Z.max 0 (Z.min wanted last) /\
      waiting s' !! Z.to_nat p = Some t /\
      removeAll t (waiting s') = removeAll t (waiting s) /\
      waiting s' ≡ₚ waiting s /\ s' = with_waiting (waiting s') s
  end.
Proof.
  intros Hnd. unfold move. destruct (indexOf t (waiting s)) as [i|] eqn:Hi.
  2: { split; [by apply indexOf_None|done]. }
  pose proof (indexOf_take _ _ _ Hi) as Hb. apply indexOf_Some in Hi as [Hp Hi].
  pose proof (lookup_lt_Some _ _ _ Hi) as Hlt.
  assert (zlength (delete i (waiting s)) = zlength (waiting s) - 1) as Hlen
    by (unfold zlength; rewrite length_delete by (by eexists); lia).
  rewrite Hlen. set (last := zlength (waiting s) - 1) in *.
  assert (0 <= last) as Hlast by (subst last; unfold zlength; lia).
  exists i. split; [done|]. cbv zeta.
  set (target := match how with PositionSet => _ | _ => _ end).
  pose proof (clamp_bounds target 0 last Hlast) as Hc.
  set (p := clamp target 0 last) in *. simpl.
  assert (Z.to_nat p <= length (delete i (waiting s)))%nat as Hpl
    by (subst last; unfold zlength in *; lia).
  split_and!; [subst p; unfold clamp; zcase; lia| | | |done].
  - unfold insertAt. rewrite lookup_app_r by (rewrite length_take; lia).
    by rewrite length_take, Nat.min_l, Nat.sub_diag.
  - unfold insertAt. rewrite removeAll_app. unfold removeAll at 2. rewrite filter_cons_False by tauto.
    fold (removeAll t (drop (Z.to_nat p) (delete i (waiting s)))).
    rewrite <- removeAll_app, take_drop, delete_take_drop, removeAll_app.
    rewrite <- (take_drop_middle _ _ _ Hi) at 3. rewrite removeAll_app. f_equal.
    unfold removeAll at 2. by rewrite filter_cons_False by tauto.
  - by rewrite insertAt_perm.
Qed.
End EngineTheorems.
