(* ===== verification/EngineExamples.v ===== *)
(** * Runs of the task queue

    Concrete engines on which the theorems apply, and runs that show where the
    code leaves the conditions under which they hold. *)

From stdpp Require Import functions.
From S2P Require Import Prelude StdMap Engine EngineInvariant EngineProgress EngineTheorems.

Module EngineExamples.
Import Engine EngineInvariant EngineProgress EngineTheorems.

(** Tasks that start, and either stop at once or answer later. *)
Definition starts : Z -> engine -> option (Z * string) := fun _ _ => None.
Definition stopsAtOnce (b : bool) : Z -> bool -> engine -> bool := fun _ _ _ => b.
Definition files : Z -> string -> engine -> option (list (string * string)) :=
  fun _ dir_ _ => Some [("a", dir_)].
Definition noFollower : Z -> engine -> list (Z * Task) := fun _ _ => [].

(** One download at a time, three results, RPC on. *)
Definition config : Config := mkConfig 1 3 false true "" 0 60 0 0 false.
Definition task (g : Z) : Task := mkTask g Waiting false codeFinished "" false "" true 0 0.
Definition pausedTask (g : Z) : Task := mkTask g Waiting false codeFinished "" true "" true 0 0.
Definition runs_of (b : bool) : list call -> engine -> engine :=
  execAll starts (stopsAtOnce b) files noFollower.
Definition first : engine := create config 0.

(** A run whose calls are all permitted. *)
Fixpoint permitted (b : bool) (extra : call -> engine -> Prop) (l : list call) (s : engine) : Prop :=
  match l with
  | [] => True
  | c :: l' => call_ok noFollower c s /\ extra c s /\
      permitted b extra l' (exec starts (stopsAtOnce b) files noFollower c s).1
  end.

Lemma permitted_reachable b extra l :
  permitted b extra l first ->
  reachable starts (stopsAtOnce b) files noFollower extra config 0 (runs_of b l first).
Proof.
  unfold reachable. fold first. generalize first. induction l as [|c l IH]; intros s; simpl; [constructor|].
  intros (Hc & Hx & Hl). eapply rtc_l; [|by apply IH]. exists c. done.
Qed.

Ltac decide_in :=
  unfold listed, runs; vm_compute;
  repeat match goal with
  | |- _ /\ _ => split
  | |- True => exact I
  | |- forall _, _ => intros ?
  end; try done; try set_solver.

Definition twoAdded : list call := [Add 1 (task 7) None; Add 2 (task 8) None].

Lemma twoAdded_permitted b : permitted b steady twoAdded first.
Proof. destruct b; decide_in. Qed.

Lemma oneRuns_permitted b : permitted b any (twoAdded ++ [RunNext]) first.
Proof. destruct b; decide_in. Qed.

Lemma stopping_permitted : permitted false any (twoAdded ++ [RunNext; Shutdown false]) first.
Proof. decide_in. Qed.

(** ** The theorems at work *)


Lemma no_lost_wakeup_witness :
  let s := runs_of false twoAdded first in
  active s = [] /\ waiting s = [1; 2] /\ fills (posted s) = 1%nat.
Proof.
  split_and!; [reflexivity|reflexivity|].
  apply (no_lost_wakeup starts (stopsAtOnce false) files noFollower config 0 (runs_of false twoAdded first)).
  - apply permitted_reachable, twoAdded_permitted.
  - reflexivity.
  - vm_compute. reflexivity.
  - exists 1. split; [vm_compute; left|reflexivity].
Defined.

(** The running download has to answer before the shutdown can end. *)
Lemma shutdown_completes_witness :
  let s := runs_of false (twoAdded ++ [RunNext; Shutdown false]) first in
  active s = [1] /\ finished s = false /\ exists k,
  finished (execAll starts (stopsAtOnce false) files noFollower ((Stops <$> active s) ++ replicate k RunNext) s) = true.
Proof.
  split_and!; [reflexivity|reflexivity|].
  apply (shutdown_completes starts (stopsAtOnce false) files noFollower config 0).
  - apply permitted_reachable, stopping_permitted.
  - reflexivity.
Defined.

Lemma fill_starts_in_order_witness :
  let s := runs_of false twoAdded first in
  let s' := (fill starts (stopsAtOnce false) files s).1 in
  active s' = [1] /\ startable s' = [2] /\ activeCount s' <= 1.
Proof.
  split_and!; [reflexivity|reflexivity|].
  destruct (fill starts (stopsAtOnce false) files (runs_of false twoAdded first)) as [s' e] eqn:E.
  exact (proj1 (proj2 (proj2 (proj2 (fill_starts_in_order starts (stopsAtOnce false) files noFollower steady
    config 0 (runs_of false twoAdded first) s' e
    (permitted_reachable false steady _ (twoAdded_permitted false)) eq_refl E))))).
Defined.

Lemma move_to_position_witness :
  let s := with_waiting [1; 2; 3] first in
  (move 1 1 PositionCurrent s).1 = inl 1 /\ waiting (move 1 1 PositionCurrent s).2 = [2; 1; 3] /\
  waiting (move 1 1 PositionCurrent s).2 ≡ₚ [1; 2; 3].
Proof.
  assert (NoDup [1; 2; 3]) as Hnd by (repeat constructor; set_solver).
  pose proof (move_to_position 1 1 PositionCurrent (with_waiting [1; 2; 3] first) Hnd) as H.
  split_and!; [reflexivity|reflexivity|].
  destruct (move 1 1 PositionCurrent (with_waiting [1; 2; 3] first)) as [[p|] s'] eqn:E.
  - destruct H as (i & _ & _ & _ & _ & Hp & _). exact Hp.
  - discriminate (f_equal fst E).
Defined.

(** ** Where the conditions fail *)

Lemma oneEnded_permitted b : permitted b any [Add 1 (task 7) None; RunNext; Completes 1] first.
Proof. destruct b; decide_in; constructor. Qed.

(** A complete download waits. *)
Lemma pause_before_retirement_duplicates_witness :
  let s := runs_of true [Add 1 (task 7) None; RunNext; Completes 1] first in
  posted s = [RunRetire 1 Complete] /\
  let s' := runs_of true [Pause 1 false; RunNext; Stops 1] s in
  stateOf 1 s' = Complete /\ stopped s' = [1] /\ 1 ∈ waiting s' /\ (EventComplete, 1) ∈ trace s'.
Proof.
  intros s. split; [reflexivity|]. intros s'. split; [vm_compute; reflexivity|]. split; [vm_compute; reflexivity|].
  exact (pause_before_retirement_duplicates starts (stopsAtOnce true) files noFollower config 0 s 1 Complete [] false
    (permitted_reachable true any _ (oneEnded_permitted true)) eq_refl).
Defined.

(** A removed download waits. *)
Lemma second_stop_duplicates_witness :
  let s := runs_of false (twoAdded ++ [RunNext]) first in
  active s = [1] /\
  let s' := runs_of false [Pause 1 false; Remove 1 true; StopsEarlier 1; Stops 1] s in
  stopped s' = [1] /\ 1 ∈ waiting s' /\ stateOf 1 s' = Removed.
Proof.
  intros s. split; [reflexivity|]. intros s'. split; [vm_compute; reflexivity|].
  apply (second_stop_duplicates starts (stopsAtOnce false) files noFollower config 0 s 1 false).
  - exact (permitted_reachable false any _ (oneRuns_permitted false)).
  - subst s. vm_compute. left.
  - reflexivity.
  - intros next. subst s. vm_compute. inversion 1.
  - reflexivity.
Defined.

(** Moving the files of a paused download before any task has asked for
    the disk pool uses a null pointer. *)
Lemma relocation_needs_disk :
  let s := runs_of true [Add 1 (pausedTask 7) None; RunNext] first in
  stateOf 1 s = Paused /\ listed 1 s /\ retiring s = [] /\
  (exec starts (stopsAtOnce true) files noFollower (Relocate 1 "/new") s).2 = Some NullDisk.
Proof. vm_compute. split_and!; [done|right; left; left|done..]. Qed.

(** A download that stops counting while it runs (a torrent that only
    seeds, with [detach-share-only]) frees its slot without waking the queue:
    a download waits, the limit allows it to start and no handler is left. *)
Lemma detached_slot_not_refilled :
  let s := runs_of true (twoAdded ++ [RunNext; SetCounts 1 false]) first in
  activeCount s < to_size (maxConcurrent (options s)) /\ waiting s = [2] /\
  stateOf 2 s = Waiting /\ shuttingDown s = false /\ posted s = [].
Proof. vm_compute. done. Qed.
End EngineExamples.
